(* ===== verification/_CoqProject ===== *)
-Q . S2P
Prelude.v
Actor.v
Bytes.v
NodeAddr.v
NodeRecord.v
NeighborhoodDatabase.v
Gossip.v
ExitPreferences.v
GossipAcceptor.v
GossipAcceptorFacts.v
GossipSafety.v
Routing.v
RoutingFacts.v
ConnectionStatus.v
BitQueue.v
CountryBlocks.v
CountryBlocksFacts.v
CountryFinder.v
AutomapPackets.v
AutomapFacts.v
Sequencing.v
StreamWriters.v
StreamWritersFacts.v
Framing.v
FramingFacts.v
HttpFraming.v
HttpFramingFacts.v
TlsProtocolPack.v
Cryptde.v
Routes.v
Migrations.v
MigrationsFacts.v
Payloads.v
SampleCodecs.v
PayloadsFacts.v
Hopper.v
HopperFacts.v
Neighborhood.v
NeighborhoodFacts.v
SharedMaps.v
ProtocolPacks.v
ProxyServer.v
ProxyClient.v
ProxyClientFacts.v
ExitService.v
ExitSamples.v
ProxyServerFacts.v
Sql.v
BigInt.v
Thresholds.v
ConfigStore.v
AccountantDb.v
AccountantDbFacts.v
ClaimsFacts.v
FingerprintFacts.v
FinancialQueries.v
Scanners.v
Accountant.v
AccountantFacts.v
ReceivableScanFacts.v
PayableScanFacts.v
ReceiptFacts.v
BlockchainBridge.v
PaymentCycle.v
FinancialFacts.v
AccountantFindings.v
AccountantSamples.v
Masquerade.v
NodeStreams.v
NodeStreamsFacts.v
NodePoolFacts.v
NodeStreamSamples.v
EntryDns.v
EntryDnsFacts.v
EntryDnsSafety.v
EntryDnsSamples.v
