(* ===== verification/Prelude.v ===== *)
(** * PulseChainMeshNode: a verification development (root file)

    PulseChainMeshNode is a peer-to-peer node, written in Rust.  Nodes find each
    other by gossip, keep a database of the neighborhood, route packages over
    several hops, choose exit nodes by country, and charge each other for services, which
    are paid by transactions on a blockchain.  This library models the actors
    of [src/node] - Neighborhood, ProxyServer, ProxyClient, Hopper, Dispatcher, the pool of
    streams, Accountant, BlockchainBridge -, the path of client data through a node
    (reading, framing, sequencing, routes, encryption, versions of payloads, writing), the
    payments, the DNS server, the country data of [src/ip_country] and the packet formats
    of [src/automap], and proves that they do what they are meant to do.

    ** The parts and how they interact

    - [NodeAddr.v]: addresses, public keys, wallets, rate packs, modes and hop
      counts ([sub_lib/node_addr.rs], [sub_lib/neighborhood.rs]).  The iteration
      order of Rust's hash sets is the class [HashOrder]: any order that lists
      the members of a set once.  Theorems hold for every such order.
    - [NodeRecord.v]: the record of a node and its gossip forms
      ([neighborhood/node_record.rs], parts of [neighborhood/gossip.rs]).  CBOR
      ([SerdeCbor]: decoding an encoded record gives the record), the encryption
      interface ([CryptDE], [CryptDEOk]: signing succeeds and the signature
      verifies) and the country lookup of an address ([CountryLookup]) are
      parameters.
    - [NeighborhoodDatabase.v]: the database of node records with its two maps,
      by key and by address ([neighborhood/neighborhood_database.rs]).  Its
      invariant [db_inv] says that every record is stored under its own key, that
      the local node is known and not its own neighbor, that the address map leads
      to nodes with that address, and that the half neighbors of the local node
      are known nodes with an address.
    - [Gossip.v]: the gossip builder and the producer
      ([neighborhood/gossip.rs], [neighborhood/gossip_producer.rs]).
    - [ExitPreferences.v]: the user's exit preferences ([UserExitPreferences] and
      the functions around it in [neighborhood/mod.rs]).
    - [GossipAcceptor.v], [GossipAcceptorFacts.v], [GossipSafety.v]: the acceptor
      of gossip ([neighborhood/gossip_acceptor.rs]): the debut, pass, introduction,
      standard and reject handlers and their dispatcher; what each handler
      does to the database; the theorems.
    - [Routing.v], [RoutingFacts.v]: the search for routes in
      [neighborhood/mod.rs], from [make_route_segment] to
      [compute_new_undesirability], and its correctness.
    - [ConnectionStatus.v]: the progress of the connections to the initial
      neighbors ([neighborhood/overall_connection_status.rs]) and the handlers of
      the Neighborhood that change it.
    - [BitQueue.v]: the queue of bits ([ip_country/src/bit_queue.rs]).
    - [CountryBlocks.v], [CountryBlocksFacts.v], [CountryFinder.v]: the compressed
      country data: serializer, packing into words, deserializer and finder
      ([ip_country/src/country_block_serde.rs], [country_block_stream.rs],
      [countries.rs], [ip_country.rs], [country_finder.rs]).
    - [Bytes.v]: bytes of integers, slices and buffers, and the search in slices
      ([pulsemesh_lib/src/utils.rs]).
    - [AutomapPackets.v], [AutomapFacts.v]: the packets with which a router is asked
      for a port ([automap/src/protocols]).
    - [Sequencing.v]: the packets of a stream, and the buffer that puts them in order
      ([sub_lib/sequence_buffer.rs], [sub_lib/sequencer.rs]).
    - [StreamWriters.v], [StreamWritersFacts.v]: the futures that write packets to a
      socket ([stream_writer_sorted.rs], [stream_writer_unsorted.rs],
      [proxy_client/stream_writer.rs]).  The answers of the channel and of the socket
      are lists in the state.
    - [Framing.v], [FramingFacts.v]: framers for JSON messages and TLS records,
      masqueraders and discriminators ([json_framer.rs], [sub_lib/tls_framer.rs],
      [discriminator.rs], [masquerader.rs], [null_masquerader.rs]).
    - [HttpFraming.v], [HttpFramingFacts.v]: the framer for HTTP
      ([sub_lib/http_packet_framer.rs], [sub_lib/framer_utils.rs],
      [http_request_start_finder.rs]).
    - [TlsProtocolPack.v]: the host name in a TLS handshake
      ([proxy_server/tls_protocol_pack.rs], [sub_lib/binary_traverser.rs]).
    - [Cryptde.v]: serialization with encryption, payers
      ([sub_lib/cryptde.rs], [sub_lib/cryptde_null.rs], [blockchain/payer.rs],
      [sub_lib/wallet.rs]).  [serde_cbor] is the class [Codec] with the law [CodecOk],
      the network's encryption [CryptNetwork], signatures [SignaturesOk];
      [CryptDENull] is an instance of the second.
    - [Routes.v]: hops, routes and packages ([sub_lib/hop.rs], [sub_lib/route.rs],
      [sub_lib/hopper.rs], [hopper/live_cores_package.rs]).
    - [Migrations.v], [MigrationsFacts.v]: versions of data, the table of migration
      steps and the search in it ([pulsemesh_lib/src/data_version.rs],
      [sub_lib/versioned_data.rs]).
    - [Payloads.v], [PayloadsFacts.v]: the payloads of packages and their migration
      from future versions ([sub_lib/migrations]).
    - [SampleCodecs.v]: concrete codecs, for concrete inputs of the theorems.
    - [Hopper.v], [HopperFacts.v]: packages that leave the node and that arrive
      ([hopper/consuming_service.rs], [hopper/routing_service.rs]).
    - [Actor.v]: handlers of actors as computations on a state that may panic and send
      messages, and the reasoning about them.
    - [Neighborhood.v], [NeighborhoodFacts.v]: the Neighborhood actor
      ([neighborhood/mod.rs]): its handlers on top of the database, the acceptor, the
      routing, the connection status and the exit preferences.
    - [SharedMaps.v]: the two-way map and the expiring map
      ([sub_lib/bidi_hashmap.rs], [sub_lib/ttl_hashmap.rs], [sub_lib/limiter.rs]).
    - [ProtocolPacks.v]: the host of an HTTP request, the payload of a request, the
      answers in place of a server, the check of host names ([proxy_server]).
    - [ProxyServer.v], [ProxyServerFacts.v]: the ProxyServer actor
      ([proxy_server/mod.rs]): streams of browsers, their routes, responses, failed
      name resolutions.
    - [ProxyClient.v]: the ProxyClient actor of an exit node, its pool of streams to
      servers, the futures that open and feed them, and their readers ([proxy_client],
      [connect_one] of [sub_lib/stream_connector.rs]).  [ProxyClientFacts.v] describes
      the conversation of the pool with its futures ([exit_reach]); [ExitService.v] has
      what a server sends and hosts that cannot be reached; [ExitSamples.v] concrete
      inputs.
    - [Masquerade.v]: the JSON disguise of what goes to a neighbor, and the discriminators
      of the ports ([json_masquerader.rs], [json_discriminator_factory.rs],
      [tls_discriminator_factory.rs]).  [serde_json] and [base64] are the class
      [JsonLibraries] with the laws [JsonLaws].
    - [NodeStreams.v]: the Dispatcher, the pool of the streams to neighbors and browsers,
      their readers, the listeners, and the Neighborhood's answer to the question for an
      address ([dispatcher.rs], [stream_handler_pool.rs], [stream_reader.rs],
      [listener_handler.rs], [sub_lib/stream_connector.rs], [neighborhood/mod.rs]).
      [NodeStreamsFacts.v]: the reader; [NodePoolFacts.v]: the pool, as a system of
      messages under way ([world_step]), and the wire between two nodes;
      [NodeStreamSamples.v]: concrete inputs.
    - [EntryDns.v]: the DNS server that leads the browser to the node: packets, answers and
      the loop over the socket ([entry_dns]).  [EntryDnsFacts.v]: answers;
      [EntryDnsSafety.v]: no packet stops it; [EntryDnsSamples.v]: concrete inputs.
    - [Sql.v]: statements on the tables of a database, in which any statement may fail.
    - [BigInt.v]: amounts of 128 bits in two columns of 64
      ([accountant/db_big_integer], conversions of [accountant/mod.rs]).
    - [Thresholds.v]: which debts are due ([sub_lib/accountant.rs],
      [ThresholdUtils] of [accountant/db_access_objects/utils.rs], the gauge of
      [accountant/scanners/scanners_utils.rs]).
    - [ConfigStore.v]: settings in the database ([db_config]).
    - [AccountantDb.v]: the tables of debts, of transactions under way, of claims and of
      banned wallets with their operations ([accountant/db_access_objects]).
      [AccountantDbFacts.v], [ClaimsFacts.v], [FingerprintFacts.v] describe these
      operations on ledgers: maps from addresses to debts ([debts]) and claims
      ([claims]).
    - [FinancialQueries.v], [FinancialFacts.v]: the reports for the user
      ([accountant/financials.rs], [CustomQuery] of [db_access_objects/utils.rs],
      [accountant/mod.rs]).
    - [Scanners.v]: the state of the Accountant and its three scanners
      ([accountant/scanners]).
    - [Accountant.v], [AccountantFacts.v]: the Accountant actor ([accountant/mod.rs]),
      and the charges it books.  [ReceivableScanFacts.v], [PayableScanFacts.v] and
      [ReceiptFacts.v] describe the three kinds of scan.
    - [BlockchainBridge.v]: the BlockchainBridge actor and its interface to the
      blockchain ([blockchain/blockchain_bridge.rs],
      [blockchain_interface/blockchain_interface_web3]).
    - [PaymentCycle.v]: the conversation of the two actors during a scan ([scan_round])
      and what it achieves.
    - [AccountantFindings.v]: flaws of the Accountant; [AccountantSamples.v]: concrete
      inputs of the theorems about it.

    The acceptor changes the database through the operations of
    [NeighborhoodDatabase.v] and answers with gossip of [Gossip.v]; the messages
    about the progress of a connection that it emits are what
    [ConnectionStatus.v] consumes; the routing reads the database and the exit
    preferences; the country of a node comes from the interface [CountryLookup],
    which [finder_lookup] of [CountryFinder.v] implements.  A package carries a route
    of [Routes.v], whose segments the routing of the Neighborhood finds, and a payload
    of [Payloads.v]; the Hopper peels the route with the operations of [Routes.v] and
    [Cryptde.v] and hands the payload, brought to the current version by
    [Migrations.v], to its component.  The ProxyServer asks the Neighborhood for
    routes, gives packages to the Hopper and gets the responses from it; at the exit the
    Hopper hands requests to the ProxyClient, which gives it the responses of servers.
    What the Hopper and the ProxyServer send to neighbors and browsers goes through the
    Dispatcher to the pool of streams, and what the readers of the streams find comes back
    through the Dispatcher to them.  The Hopper, the ProxyClient and the ProxyServer report services to the Accountant, which books them, pays what is due
    through the BlockchainBridge, and bans wallets that do not pay; the Hopper asks for
    the banned wallets, which [AccountantDb.v] keeps in [ban_cache].

    ** How the code is modelled

    A function that may panic returns an [outcome]: [Ret] of the value, or
    [Panic] with the message.  [&mut self] methods take the state and return the
    new one.  Integers are [Z] with the wrap-around of their width written out
    ([u8], [u32], [u64], [as_i64], [shl64]).  Rust's [Result] is [result].  Hash
    maps are [gmap], hash sets [gset], [Vec] lists.  The clock is an argument
    ([now], in seconds).  Log output is not modelled, except that the reasons of a
    ban are constructors instead of texts.  A SQL statement of the source is a function
    on the rows of its table, with the checks of a strict table (an integer column holds
    64 bits, a sum that does not fit is an error) and of its keys.  A connection holds a
    list of faults, the statements that will fail, so that every error path of the
    database can be taken; a transaction is a copy of the tables until it is committed.
    [runs] says that a computation returns and what then holds; [endures h] says the same
    for a computation that may panic, but only if [h] is false: with [h] the absence of
    faults, a theorem covers both a working and a failing database.  A scheduled message
    of an actor to itself is a message it sends.

    ** What the theorems show

    - Database: construction, adding, removing and culling of nodes do exactly
      what they promise, keep [db_inv] and do not panic
      ([database_new_spec], [add_node_spec], [remove_neighbor_spec],
      [cull_dead_nodes_spec], [new_public_ip_spec],
      [gossip_target_degree_bound]).
    - Gossip production: the gossip for a neighbor covers the nodes that are
      referenced, reveals an address only to those who know the node, and
      decodes into the records it was made from ([produce_covers_neighborhood],
      [produce_reveals_only_known], [produce_roundtrip]).
    - Gossip acceptance: no well-formed message, and no sequence of them, makes
      the acceptor panic; the database only evolves (no node is lost, a record
      is only replaced by a newer one with the same rates and address, the local
      node only gains neighbors); every handler has its functional specification ([acceptor_handle_safe], [acceptor_run_safe],
      [debut_handle_spec], [pass_handle_spec], [introduction_update_spec],
      [standard_handle_spec], [compute_patch_within_hops]).
    - Routing: the search terminates without a panic; a returned route is a path
      of distinct full neighbors with the required length and a suitable end; it
      is a cheapest one when costs cannot overflow; the search with its cut-off
      misses no route ([find_best_route_sound], [find_best_route_optimal],
      [find_best_route_exhaustive], [find_exit_locations_sound],
      [make_expected_services_spec]).
    - Connection status: what every message does to the stages, and the
      invariants of all reachable states ([connection_progress_spec],
      [status_reachable_inv], [ask_about_debut_spec]).
    - Country data: the bit queue is a queue of bits ([add_bits_appends],
      [take_bits_removes], [bit_queue_refines_bits]); compressing blocks and building
      a finder gives the blocks back, with the gaps filled, and the finder
      answers with the country of the block that holds the address
      ([country_data_roundtrip], [find_country_correct]); with this finder, the
      location of a node record is the country of its address
      ([node_location_correct]).
    - Hopper and routes: along a route made by [round_trip], a request reaches the
      exit node's ProxyClient, every node on the way reports its service once, and the
      response comes back to the originator with the route id ([round_trip_delivers]);
      a node relays a package, or exits for it, only when the package's own hop holds a
      payer who proves to own a wallet that is not banned, and the report of the service
      is over that wallet and that package's payload ([routing_requires_payment]).
    - The node as a whole: a route query is answered with a route that works
      ([queried_route_delivers]); the data of a browser travels through the ProxyServer,
      the Neighborhood and the Hoppers of the network to the ProxyClient of the exit node,
      and the response that this sends comes back to that browser ([browser_request_round_trip]) and to no other
      ([responses_reach_own_client]); failed name resolutions are retried over new routes,
      as often as allowed, and then told ([dns_failures_are_retried_and_told]); gossip arrives at the neighbors
      ([gossip_reaches_neighbors]), and a neighbor that is gone is dropped
      ([stream_shutdown_drops_neighbor]).
    - The exit: the data of two streams never mix, and every byte of a stream goes to its
      server in order ([exit_streams_do_not_mix], [exit_stream_in_order]); what a server
      sends goes to the node it is for, numbered, each piece paid for once
      ([server_data_is_passed_on]); a host that cannot be reached is told once
      ([unreachable_host_is_told_once]).
    - Streams of the node: what one node sends to a neighbor arrives at the neighbor's
      Hopper, in order, in whatever pieces the stream carries it
      ([neighbors_hear_each_other]); the data of a browser reach the ProxyServer numbered,
      and so does their end ([browser_data_is_numbered]); streams are opened on demand
      ([neighbor_is_connected_on_demand]), attempts that fail are forgotten
      ([failed_connection_is_forgotten]), and no message waits for a stream that nobody
      opens ([opening_streams_are_being_opened]).
    - DNS: a plain request for addresses is answered with the address of the node
      ([dns_queries_are_answered]); no packet makes the server panic
      ([dns_server_never_panics]).
    - Amounts: dividing an amount into columns loses nothing and keeps the order
      ([wei_division_roundtrip]); a change of a balance is exact over the carry between
      the columns ([execute_adds]).
    - Accounts: every reported service is charged to its wallet once, and nothing else
      changes ([services_are_charged]).  A debt is chosen for payment exactly when it is
      above the line for its age ([overdue_debts_are_chosen]).
    - Payments: a scan for debts pays exactly the debts that are due, each once
      ([due_debts_are_paid_once]); a scan for receipts settles exactly those that are
      confirmed, once, by the amount that was sent
      ([confirmed_payments_are_settled_once]); payments received reduce the claims on
      their senders and the block up to which they were searched is stored with them, in one
      transaction ([payments_are_entered]).
    - Bans: a scan bans exactly the delinquent debtors and admits those who have paid,
      and the Hopper serves none who is banned ([delinquents_are_not_served]).
    - Reports: the top records are the right ones, in order ([top_debts_are_reported]).
    - Versions: the search for migration steps ends and finds a shortest chain
      ([find_migration_chain_terminates], [migration_finds_shortest_chain]), data of
      the current or an older version is read as it was meant ([extract_delivers]), and
      of a future version as long as the known fields are there
      ([future_request_migrates]).
    - Streams: the sequence buffer delivers the packets in the order of their numbers
      ([sequence_buffer_delivers_in_order]), the writers write exactly the bytes of
      the packets in that order and get them out when the socket takes them
      ([sorted_writer_in_order], [sorted_writer_progress],
      [unsorted_writer_in_order]), and the two copies of the sorted writer agree
      ([stream_writers_agree]); packets survive their byte form
      ([packet_bytes_roundtrip]).
    - Framers: a stream of JSON messages is cut into the messages, in whatever pieces
      it arrives ([json_framer_finds_messages]); TLS records and HTTP requests are
      found behind garbage ([tls_framer_finds_record], [http_framer_finds_request],
      [http_framer_finds_chunk]); the JSON and TLS framers never panic
      ([framers_never_panic]); the host name of a TLS handshake is found
      ([tls_find_host_correct]).
    - Port mapping packets: parsing gives back what was marshalled
      ([pcp_roundtrip], [pmp_roundtrip]); no input makes the parsers panic, and what
      they accept is well formed ([packet_parse_total]).
    - Flaws that the proofs brought to light, as theorems on concrete inputs or
      in general: [duplicate_records_panic], [compute_patch_misses_node],
      [introduction_leaves_ip_unindexed], [second_introduction_panics],
      [pass_target_refusal_panics], [add_bits_leaks_high_bits],
      [deserializer_invents_no_block], [visit_bytes_panics_on_short_input],
      [tls_framer_drops_short_beginnings], [http_framer_panics_on_last_chunk],
      [tls_find_host_panics_iff], [unfinished_chain_panics],
      [future_payload_without_field_panics], [connect_stalls_other_streams],
      [late_route_result_panics], [interrupted_settlement_panics],
      [large_permanent_debt_is_misjudged], [default_thresholds_panic],
      [lagging_service_counts_twice], [failed_payments_are_answered_twice],
      [edns_response_is_malformed], [name_end_is_looked_for_behind_the_packet],
      [early_end_is_lost], [flurry_opens_two_connections], [closed_stream_takes_writer],
      [bad_frame_hides_the_next].

    ** Bounds and fuel

    [routing_engine] recurses on fuel.  [search_fuel], one more than the number of
    known nodes, is enough: the keys on a route are distinct and known
    ([find_best_route_sound] shows that the search returns).  [add_ip_generic]
    recurses at most once, to fill a gap whose start is the expected one, so the
    fuel 2 of [add_ip] is enough ([add_ip_spec]).  [collect_blocks],
    [country_words], [load_words] and [binary_search_by] take the number of bits
    or of blocks as fuel, and consume at least one in each round
    ([collect_spec], [country_words_spec], [load_words_spec],
    [binary_search_found]).  [find_migration_chain] has two units more than the
    table has versions ([find_migration_chain_terminates]).  The loops of the
    stream writers take one unit per answer of the channel or the socket
    ([sorted_read_spec], [sorted_write_spec], [unsorted_loop_spec]), those of the
    framers and of the TLS parser one per byte ([find_offset_total],
    [tls_find_host_panics_iff]); each round consumes one.  A scan of the Accountant is a
    conversation with the bridge of at most four messages: the theorems about
    [scan_round] hold for 2, 3 or 4 units of fuel and any number more, and say that the
    conversation ended.  [decimal_digits] has 20 digits, enough for 64 bits
    ([parse_u64_to_string]).  The walk over a name in a DNS packet has two units more than
    the packet has bytes ([walk_returns], [extract_loop_returns]).  The loop of a stream
    reader takes one unit per frame; its theorems hold for any fuel with which the framer
    hands out its frames ([neighbors_hear_each_other]: more than there are messages).

    ** What is not modelled

    Input and output, logging, the wiring of the actor system and the texts of
    messages; third-party code (encryption, hashes, CBOR, JSON, regular expressions),
    which is parameters with the laws that the code relies on; the answers of the
    blockchain service, of sockets and of the resolver, which are arguments.  Left out are
    also the creation and migration of the database (SQL statements that run once), the
    start of the process with its command line and configuration files, the texts of node
    descriptors, the control threads of port mapping and the websockets of the user
    interface, which have little logic apart from the input and output they do, and the
    generation of the country data, which happens before the node is built. *)

From stdpp Require Export base gmap sets list strings sorting.
From Stdlib Require Export ZArith Lia.

#[global] Open Scope Z_scope.

(** ** Outcomes: Rust code that may panic

    A function of the node returns [Ret v], or [Panic why] where the source
    runs [panic!], [expect] on a [None]/[Err], [unimplemented!] or an
    out-of-range index.  The string is the literal part of the source's
    message. *)
Inductive outcome (A : Type) : Type :=
| Ret (a : A)
| Panic (why : string).
Arguments Ret {_} _.
Arguments Panic {_} _.

#[export] Instance outcome_ret : MRet outcome := λ A, @Ret A.
#[export] Instance outcome_bind : MBind outcome :=
  λ A B f m, match m with Ret a => f a | Panic w => Panic w end.

(** Rust's [Option::expect]. *)
Definition expect {A} (o : option A) (why : string) : outcome A :=
  match o with Some a => Ret a | None => Panic why end.

(** Rust's [Result]. *)
Inductive result (A E : Type) : Type :=
| Ok (a : A)
| Err (e : E).
Arguments Ok {_ _} _.
Arguments Err {_ _} _.

(** [Result::expect]. *)
Definition expect_ok {A E} (r : result A E) (why : string) : outcome A :=
  match r with Ok a => Ret a | Err _ => Panic why end.

(** A loop whose body may panic: [for x in l { s = f(s, x) }]. *)
Fixpoint fold_outcome {S A} (f : S → A → outcome S) (l : list A) (s : S) : outcome S :=
  match l with
  | [] => Ret s
  | x :: l => s' ← f s x; fold_outcome f l s'
  end.

(** ** Reasoning about outcomes: [returns m P] says that [m] does not panic and
    that its value satisfies [P]. *)
Definition returns {A} (m : outcome A) (P : A → Prop) : Prop :=
  match m with Ret a => P a | Panic _ => False end.

Lemma returns_ret {A} (a : A) (P : A → Prop) : P a → returns (Ret a) P.
Proof. done. Qed.

Lemma returns_bind {A B} (m : outcome A) (f : A → outcome B) (P : B → Prop) :
  returns m (λ a, returns (f a) P) → returns (m ≫= f) P.
Proof. by destruct m. Qed.

Lemma returns_mono {A} (m : outcome A) (P Q : A → Prop) :
  returns m P → (∀ a, P a → Q a) → returns m Q.
Proof. destruct m; simpl; auto. Qed.

Lemma returns_inv {A} (m : outcome A) (P : A → Prop) :
  returns m P → ∃ a, m = Ret a ∧ P a.
Proof. destruct m; simpl; [eauto | done]. Qed.

Lemma returns_elim {A} (m : outcome A) (P : A → Prop) a :
  returns m P → m = Ret a → P a.
Proof. intros H ->. exact H. Qed.

Lemma returns_expect {A} (o : option A) why (P : A → Prop) :
  (∃ a, o = Some a ∧ P a) → returns (expect o why) P.
Proof. intros (a & -> & H). exact H. Qed.

Lemma returns_fold {S A} (f : S → A → outcome S) (l : list A) (s : S) (I : S → Prop) :
  I s → (∀ s x, I s → x ∈ l → returns (f s x) I) → returns (fold_outcome f l s) I.
Proof.
  revert s; induction l as [|x l IH]; intros s Hs Hf; simpl; [done|].
  apply returns_bind. eapply returns_mono; [apply Hf; [done|set_solver]|].
  intros s' Hs'. apply IH; [done|]. intros; apply Hf; [done|set_solver].
Qed.

Lemma bind_ret {A B} (m : outcome A) (f : A → outcome B) b :
  (m ≫= f) = Ret b ↔ ∃ a, m = Ret a ∧ f a = Ret b.
Proof. destruct m; simpl; naive_solver. Qed.

(** The specifications of operations that may panic. *)
Create HintDb outcome.
#[export] Hint Resolve returns_ret returns_expect : outcome.

(** Run the first computation of a bind with the specification that [tac]
    proves, and go on with the rest. *)
Tactic Notation "ret_via" tactic3(tac) :=
  apply returns_bind; eapply returns_mono; [tac|].

(** Take one monadic step of a [returns] goal. *)
Ltac ret_step :=
  match goal with
  | |- returns (mbind _ _) _ => apply returns_bind
  | |- returns (Ret _) _ => apply returns_ret
  | |- returns (mret _) _ => apply returns_ret
  | |- _ => idtac
  end; simpl.

(** ** Machine integers: a [w]-bit unsigned integer is a [Z] in [0, 2^w). *)
Definition wrap (w z : Z) : Z := z mod 2 ^ w.
Abbreviation u8 := (wrap 8).
Abbreviation u16 := (wrap 16).
Abbreviation u32 := (wrap 32).
Abbreviation u64 := (wrap 64).

Definition in_width (w z : Z) : Prop := 0 ≤ z < 2 ^ w.

Lemma wrap_in_width w z : 0 ≤ w → in_width w (wrap w z).
Proof. intros. apply Z.mod_pos_bound, Z.pow_pos_nonneg; lia. Qed.

Lemma wrap_small w z : in_width w z → wrap w z = z.
Proof. intros H. by apply Z.mod_small. Qed.

(** The cast [x as i64] of a 64-bit pattern, and wrapping [i64] addition. *)
Definition as_i64 (z : Z) : Z :=
  let r := z mod 2 ^ 64 in if r <? 2 ^ 63 then r else r - 2 ^ 64.

Lemma as_i64_small z : 0 ≤ z < 2 ^ 63 → as_i64 z = z.
Proof.
  intros H. unfold as_i64. rewrite Z.mod_small by lia.
  by destruct (Z.ltb_spec z (2 ^ 63)); [|lia].
Qed.

Create HintDb width.
#[export] Hint Resolve wrap_in_width : width.

(** ** Vectors: [Vec::dedup] removes consecutive repeated elements. *)
Section dedup.
Context {A : Type} `{EqDecision A}.

Fixpoint dedup (l : list A) : list A :=
  match l with
  | [] => []
  | x :: l' =>
      match l' with
      | [] => [x]
      | y :: _ => if decide (x = y) then dedup l' else x :: dedup l'
      end
  end.

Lemma dedup_cons x y (l : list A) :
  dedup (x :: y :: l) = if decide (x = y) then dedup (y :: l) else x :: dedup (y :: l).
Proof. done. Qed.

Lemma elem_of_dedup x (l : list A) : x ∈ dedup l ↔ x ∈ l.
Proof.
  induction l as [|y [|z l] IH]; [done..|].
  rewrite dedup_cons. case_decide; set_solver.
Qed.

Lemma dedup_head x (l : list A) : ∃ l', dedup (x :: l) = x :: l'.
Proof.
  revert x; induction l as [|y l IH]; intros x; [by exists []|].
  rewrite dedup_cons. case_decide; subst; [apply IH|eauto].
Qed.

(** On a list whose equal elements are adjacent, [dedup] changes nothing
    exactly when there is no repetition to remove. *)
Lemma dedup_idem (l : list A) : dedup (dedup l) = dedup l.
Proof.
  induction l as [|x [|y l] IH]; [done..|].
  rewrite dedup_cons. case_decide as E; [done|].
  destruct (dedup_head y l) as [l' Hl']. rewrite Hl' in IH |- *.
  rewrite dedup_cons. rewrite IH. by case_decide.
Qed.
End dedup.

Lemma sorted_dedup_strict (l : list Z) :
  StronglySorted Z.le l → StronglySorted Z.lt (dedup l).
Proof.
  induction l as [|x [|y l] IH]; intros Hs; [constructor|repeat constructor|].
  inversion Hs as [|?? Hyl Hx]; subst.
  rewrite dedup_cons. case_decide as E; [by apply IH|].
  constructor; [by apply IH|]. rewrite Forall_forall. intros z Hz.
  rewrite elem_of_dedup in Hz. inversion Hyl as [|?? _ Hy]; subst.
  rewrite Forall_forall in Hx, Hy.
  assert (x ≤ y) by (apply Hx; left).
  apply elem_of_cons in Hz as [->|Hz]; [lia|]. specialize (Hy z Hz). lia.
Qed.

#[export] Instance Zle_total : Total Z.le.
Proof. intros x y. lia. Qed.

Lemma merge_sort_sorted (l : list Z) : StronglySorted Z.le l → merge_sort Z.le l = l.
Proof.
  intros Hs. apply (StronglySorted_unique Z.le); [|done|by rewrite merge_sort_Permutation].
  apply StronglySorted_merge_sort; apply _.
Qed.

Lemma length_omap_le {A B} (f : A → option B) (l : list A) :
  (length (omap f l) ≤ length l)%nat.
Proof. induction l as [|x l IH]; simpl; [done|]. destruct (f x); simpl; unfold omap in IH; lia. Qed.

(** Lists without repeated keys. *)
Lemma NoDup_fmap_inj_on {A B} (f : A → B) (l : list A) x y :
  NoDup (f <$> l) → x ∈ l → y ∈ l → f x = f y → x = y.
Proof.
  intros Hnd (i & Hi)%list_elem_of_lookup (j & Hj)%list_elem_of_lookup E.
  assert (i = j) as ->; [|congruence].
  eapply NoDup_lookup; [done| |]; rewrite list_lookup_fmap; [by rewrite Hi|by rewrite Hj, E].
Qed.

Lemma NoDup_fmap_filter {A B} (f : A → B) (P : A → Prop) `{∀ x, Decision (P x)} (l : list A) :
  NoDup (f <$> l) → NoDup (f <$> filter P l).
Proof. intros H'. eapply sublist_NoDup; [done|]. apply fmap_sublist, sublist_filter. Qed.

(** The first element that satisfies a predicate. *)
Lemma head_filter_Some {A} (P : A → Prop) `{∀ x, Decision (P x)} (l : list A) x :
  head (filter P l) = Some x → P x ∧ x ∈ l.
Proof.
  intros Hx. apply (list_elem_of_filter P l x).
  destruct (filter P l); simplify_eq/=. left.
Qed.

Lemma head_filter_None {A} (P : A → Prop) `{∀ x, Decision (P x)} (l : list A) x :
  head (filter P l) = None → x ∈ l → ¬ P x.
Proof.
  intros Hl Hx HP. assert (x ∈ filter P l) as Hin by by apply list_elem_of_filter.
  destruct (filter P l); [|done]. set_solver.
Qed.

Lemma NoDup_insert_fresh {A} (l : list A) i x : NoDup l → x ∉ l → NoDup (<[i := x]> l).
Proof.
  intros Hnd Hx. apply NoDup_alt. intros a b y Ha Hb.
  rewrite !list_lookup_insert_Some in *.
  destruct Ha as [(<- & <- & _)|[? Ha]], Hb as [(<- & E & _)|[? Hb]]; [done| | |].
  - destruct Hx. by eapply list_elem_of_lookup_2.
  - subst. destruct Hx. by eapply list_elem_of_lookup_2.
  - by eapply NoDup_lookup.
Qed.

(** Computing outcomes. *)
Ltac run_outcome := cbn [mbind outcome_bind mret outcome_ret].

(** Iterators whose closure may panic: [map] and [filter] with [collect]. *)
Fixpoint map_outcome {A B} (f : A → outcome B) (l : list A) : outcome (list B) :=
  match l with
  | [] => mret []
  | x :: l => y ← f x; ys ← map_outcome f l; mret (y :: ys)
  end.

Fixpoint filter_outcome {A} (f : A → outcome bool) (l : list A) : outcome (list A) :=
  match l with
  | [] => Ret []
  | x :: l' => b ← f x; l'' ← filter_outcome f l'; mret (if (b : bool) then x :: l'' else l'')
  end.

Lemma map_outcome_ret {A B} (f : A → outcome B) (g : A → B) l :
  (∀ x, x ∈ l → f x = Ret (g x)) → map_outcome f l = Ret (g <$> l).
Proof.
  induction l as [|x l IH]; intros Hf; [done|]. cbn [map_outcome]. rewrite (Hf x) by left. cbn.
  rewrite IH by (intros y Hy; apply Hf; by right). done.
Qed.

Lemma filter_outcome_ret {A} (f : A → outcome bool) (g : A → bool) (l : list A) :
  (∀ x, x ∈ l → f x = Ret (g x)) → filter_outcome f l = Ret (filter (λ x, g x = true) l).
Proof.
  induction l as [|x l IH]; intros H; [done|]. cbn [filter_outcome].
  rewrite (H x), IH by set_solver. simpl. rewrite filter_cons.
  by destruct (g x).
Qed.
