(* ===== verification/Actor.v ===== *)
(** * Computations of actors

    A handler of an actor is a computation on the actor's state that may panic and
    sends messages.  [runs m s P] says that [m], started in the state [s], does not
    panic and that its value, the new state and the messages it sends satisfy [P];
    [ensures m s P] says the same of the runs that do not panic.  [endures h m s P] is in
    between: a panic is excluded if [h] holds, for instance that the database does not
    fail. *)

From S2P Require Import Prelude.

Definition prog (S M A : Type) : Type := S → outcome (A * S * list M).

#[export] Instance prog_ret {S M} : MRet (prog S M) := λ A a s, Ret (a, s, []).
#[export] Instance prog_bind {S M} : MBind (prog S M) := λ A B f m s,
  match m s with
  | Ret (a, s, sent) =>
      match f a s with
      | Ret (b, s, sent') => Ret (b, s, sent ++ sent')
      | Panic why => Panic why
      end
  | Panic why => Panic why
  end.

Section Operations.
Context {S M : Type}.

Definition lift {A} (m : outcome A) : prog S M A := λ s,
  match m with Ret a => Ret (a, s, []) | Panic why => Panic why end.
Definition gets {A} (f : S → A) : prog S M A := λ s, Ret (f s, s, []).
Definition modify (f : S → S) : prog S M unit := λ s, Ret (tt, f s, []).
Definition send (m : M) : prog S M unit := λ s, Ret (tt, s, [m]).
Definition act_panic {A} (why : string) : prog S M A := λ s, Panic why.

(** [for x in l { body(x) }] *)
Fixpoint each {A} (body : A → prog S M unit) (l : list A) : prog S M unit :=
  match l with
  | [] => mret tt
  | x :: l => _ ← body x; each body l
  end.
End Operations.

(** ** Reasoning *)
Definition runs {S M A} (m : prog S M A) (s : S) (P : A → S → list M → Prop) : Prop :=
  returns (m s) (λ '(a, s', sent), P a s' sent).

Section Runs.
Context {S M : Type}.
Implicit Types (s : S).

Lemma runs_ret {A} (a : A) s (P : A → S → list M → Prop) : P a s [] → runs (mret a) s P.
Proof. done. Qed.

Lemma runs_bind {A B} (m : prog S M A) (f : A → prog S M B) s P :
  runs m s (λ a s' sent, runs (f a) s' (λ b s'' sent', P b s'' (sent ++ sent'))) →
  runs (m ≫= f) s P.
Proof.
  unfold runs, mbind, prog_bind. destruct (m s) as [[[a s'] sent]|]; [|done]. simpl.
  by destruct (f a s') as [[[b s''] sent']|].
Qed.

Lemma runs_gets {A B} (g : S → A) (f : A → prog S M B) s P :
  runs (f (g s)) s P → runs (gets g ≫= f) s P.
Proof. intros H. by apply runs_bind. Qed.

Lemma runs_modify {B} (g : S → S) (f : unit → prog S M B) s P :
  runs (f tt) (g s) P → runs (modify g ≫= f) s P.
Proof. intros H. by apply runs_bind. Qed.

Lemma runs_send {B} m (f : unit → prog S M B) s P :
  runs (f tt) s (λ b s' sent, P b s' (m :: sent)) → runs (send m ≫= f) s P.
Proof. intros H. by apply runs_bind. Qed.

Lemma runs_lift {A B} (m : outcome A) (f : A → prog S M B) s P :
  returns m (λ a, runs (f a) s P) → runs (lift m ≫= f) s P.
Proof. intros H. apply runs_bind. unfold runs, lift. by destruct m. Qed.

Lemma runs_mono {A} (m : prog S M A) s P Q :
  runs m s P → (∀ a s' sent, P a s' sent → Q a s' sent) → runs m s Q.
Proof. intros H HPQ. eapply returns_mono; [exact H|]. intros [[a s'] sent]. apply HPQ. Qed.

Lemma runs_inv {A} (m : prog S M A) s P :
  runs m s P → ∃ a s' sent, m s = Ret (a, s', sent) ∧ P a s' sent.
Proof. intros ([[a s'] sent] & E & HP)%returns_inv. by exists a, s', sent. Qed.

(** A loop: [I] relates what is done to the state and to what was sent. *)
Lemma runs_each {A} (body : A → prog S M unit) l s (I : list A → S → list M → Prop) :
  I [] s [] →
  (∀ done x s sent, x ∈ l → I done s sent →
     runs (body x) s (λ _ s' new, I (done ++ [x]) s' (sent ++ new))) →
  runs (each body l) s (λ _ s' sent, I l s' sent).
Proof.
  intros H0 Hbody.
  cut (∀ l' done s sent, l' ⊆ l → I done s sent →
         runs (each body l') s (λ _ s' new, I (done ++ l') s' (sent ++ new))).
  { intros Hcut. by apply (Hcut l [] s []). }
  clear H0 s. induction l' as [|x l' IH]; intros done s sent Hl HI; cbn [each].
  { apply runs_ret. by rewrite !app_nil_r. }
  apply runs_bind. eapply runs_mono; [apply (Hbody done x s sent); [set_solver|assumption]|].
  intros [] s' new HI'.
  eapply runs_mono; [apply (IH (done ++ [x]) s' (sent ++ new)); [set_solver|assumption]|].
  intros [] s'' new' HI''. by rewrite <-!app_assoc in HI''.
Qed.
End Runs.

(** ** Reasoning about the runs that return *)
Definition ensures {S M A} (m : prog S M A) (s : S) (P : A → S → list M → Prop) : Prop :=
  ∀ a s' sent, m s = Ret (a, s', sent) → P a s' sent.

Section Ensures.
Context {S M : Type}.
Implicit Types (s : S).

Lemma ensures_ret {A} (a : A) s (P : A → S → list M → Prop) : P a s [] → ensures (mret a) s P.
Proof. intros HP ? ? ? [= <- <- <-]. done. Qed.

Lemma ensures_bind {A B} (m : prog S M A) (f : A → prog S M B) s P :
  ensures m s (λ a s' sent, ensures (f a) s' (λ b s'' sent', P b s'' (sent ++ sent'))) →
  ensures (m ≫= f) s P.
Proof.
  intros Hm b s' sent. unfold mbind, prog_bind. destruct (m s) as [[[a s1] sent1]|] eqn:E; [|done].
  specialize (Hm _ _ _ E). destruct (f a s1) as [[[b' s2] sent2]|] eqn:E2; [|done].
  intros [= <- <- <-]. by apply Hm.
Qed.

Lemma ensures_mono {A} (m : prog S M A) s (P Q : A → S → list M → Prop) :
  ensures m s P → (∀ a s' sent, P a s' sent → Q a s' sent) → ensures m s Q.
Proof. intros Hm HPQ a s' sent E. by apply HPQ, Hm. Qed.

Lemma ensures_gets {A} (f : S → A) s (P : A → S → list M → Prop) : P (f s) s [] → ensures (gets f) s P.
Proof. intros HP ? ? ? [= <- <- <-]. done. Qed.

Lemma ensures_modify (f : S → S) s (P : unit → S → list M → Prop) : P tt (f s) [] → ensures (modify f) s P.
Proof. intros HP ? ? ? [= <- <- <-]. done. Qed.

Lemma ensures_send m s (P : unit → S → list M → Prop) : P tt s [m] → ensures (send m) s P.
Proof. intros HP ? ? ? [= <- <- <-]. done. Qed.

Lemma ensures_lift {A} (m : outcome A) s (P : A → S → list M → Prop) :
  (∀ a, m = Ret a → P a s []) → ensures (lift m) s P.
Proof. intros HP ? ? ?. unfold lift. destruct m; [|done]. intros [= <- <- <-]. by apply HP. Qed.

Lemma ensures_panic {A} why s (P : A → S → list M → Prop) : ensures (act_panic why) s P.
Proof. by intros ? ? ?. Qed.

Lemma runs_ensures {A} (m : prog S M A) s P : runs m s P → ensures m s P.
Proof. intros Hm a s' sent E. unfold runs in Hm. by rewrite E in Hm. Qed.
End Ensures.

Create HintDb actor.
#[export] Hint Resolve ensures_ret ensures_gets ensures_modify ensures_send ensures_panic : actor.

(** One step of an [ensures] goal. *)
Ltac ens_step :=
  match goal with
  | |- ensures (mbind _ _) _ _ => apply ensures_bind
  | |- ensures (mret _) _ _ => apply ensures_ret
  | |- ensures (gets _) _ _ => apply ensures_gets
  | |- ensures (modify _) _ _ => apply ensures_modify
  | |- ensures (send _) _ _ => apply ensures_send
  | |- ensures (lift _) _ _ => apply ensures_lift; intros
  | |- ensures (act_panic _) _ _ => apply ensures_panic
  end.

(** ** Reasoning about both at once *)
Definition endures {S M A} (h : Prop) (m : prog S M A) (s : S) (P : A → S → list M → Prop) : Prop :=
  match m s with
  | Ret (a, s', sent) => P a s' sent
  | Panic _ => ¬ h
  end.

Section Endures.
Context {S M : Type} (h : Prop).
Implicit Types (s : S).

Lemma endures_runs {A} (m : prog S M A) s P : h → endures h m s P → runs m s P.
Proof. unfold endures, runs. destruct (m s) as [[[a s'] sent]|]; tauto. Qed.

Lemma endures_ensures {A} (m : prog S M A) s P : endures h m s P → ensures m s P.
Proof. unfold endures. intros Hm a s' sent E. by rewrite E in Hm. Qed.

Lemma endures_ret {A} (a : A) s (P : A → S → list M → Prop) : P a s [] → endures h (mret a) s P.
Proof. done. Qed.

Lemma endures_bind {A B} (m : prog S M A) (f : A → prog S M B) s P :
  endures h m s (λ a s' sent, endures h (f a) s' (λ b s'' sent', P b s'' (sent ++ sent'))) →
  endures h (m ≫= f) s P.
Proof.
  unfold endures, mbind, prog_bind. destruct (m s) as [[[a s'] sent]|]; [|done].
  by destruct (f a s') as [[[b s''] sent']|].
Qed.

Lemma endures_mono {A} (m : prog S M A) s (P Q : A → S → list M → Prop) :
  endures h m s P → (∀ a s' sent, P a s' sent → Q a s' sent) → endures h m s Q.
Proof. unfold endures. destruct (m s) as [[[a s'] sent]|]; auto. Qed.

Lemma endures_gets {A} (f : S → A) s (P : A → S → list M → Prop) : P (f s) s [] → endures h (gets f) s P.
Proof. done. Qed.

Lemma endures_modify (f : S → S) s (P : unit → S → list M → Prop) : P tt (f s) [] → endures h (modify f) s P.
Proof. done. Qed.

Lemma endures_send m s (P : unit → S → list M → Prop) : P tt s [m] → endures h (send m) s P.
Proof. done. Qed.

Lemma endures_lift {A} (m : outcome A) s (P : A → S → list M → Prop) :
  returns m (λ a, P a s []) → endures h (lift m) s P.
Proof. unfold endures, lift. by destruct m. Qed.

Lemma endures_panic {A} why s (P : A → S → list M → Prop) : ¬ h → endures h (act_panic why) s P.
Proof. done. Qed.

Lemma endures_each {A} (body : A → prog S M unit) l s (I : list A → S → list M → Prop) :
  I [] s [] →
  (∀ done x todo s sent, l = done ++ x :: todo → I done s sent →
     endures h (body x) s (λ _ s' new, I (done ++ [x]) s' (sent ++ new))) →
  endures h (each body l) s (λ _ s' sent, I l s' sent).
Proof.
  intros H0 Hbody.
  cut (∀ l' done s sent, l = done ++ l' → I done s sent →
         endures h (each body l') s (λ _ s' new, I (done ++ l') s' (sent ++ new))).
  { intros Hcut. by apply (Hcut l [] s []). }
  clear H0 s. induction l' as [|x l' IH]; intros done s sent Hl HI; cbn [each].
  { apply endures_ret. by rewrite !app_nil_r. }
  apply endures_bind. eapply endures_mono; [by apply (Hbody done x l' s sent)|].
  intros [] s' new HI'.
  eapply endures_mono; [apply (IH (done ++ [x]) s' (sent ++ new)); [by rewrite <-app_assoc|done]|].
  intros [] s'' new' HI''. by rewrite <-!app_assoc in HI''.
Qed.
End Endures.

(** One step of an [endures] goal. *)
Ltac end_step :=
  match goal with
  | |- endures _ (mbind _ _) _ _ => apply endures_bind
  | |- endures _ (mret _) _ _ => apply endures_ret
  | |- endures _ (gets _) _ _ => apply endures_gets
  | |- endures _ (modify _) _ _ => apply endures_modify
  | |- endures _ (send _) _ _ => apply endures_send
  | |- endures _ (lift _) _ _ => apply endures_lift
  | |- endures _ (act_panic _) _ _ => apply endures_panic
  end.

(** Run the first computation of a bind with the specification that [tac] proves. *)
Tactic Notation "end_via" tactic3(tac) := apply endures_bind; eapply endures_mono; [tac|].
