(* ===== verification/Bytes.v ===== *)
(** * Byte buffers

    Slices and arrays of bytes as the packet formats use them: reading and writing
    by index (out of range is a panic), sub-slices, and integers in network byte
    order.  A byte is a [Z] in [0, 256). *)

From S2P Require Import Prelude.

(** ** Numbers as lists of fixed-width parts, most significant first *)
Fixpoint parts (w : nat) (n : nat) (ip : Z) : list Z :=
  match n with
  | O => []
  | S n' => (ip / 2 ^ Z.of_nat (w * n')) mod 2 ^ Z.of_nat w :: parts w n' ip
  end.

Fixpoint from_parts (w : nat) (l : list Z) : Z :=
  match l with
  | [] => 0
  | s :: l' => s * 2 ^ Z.of_nat (w * length l') + from_parts w l'
  end.

Lemma pow_pos k : 0 < 2 ^ Z.of_nat k.
Proof. apply Z.pow_pos_nonneg; lia. Qed.

Lemma length_parts w n ip : length (parts w n ip) = n.
Proof. induction n as [|n IH]; [done|]. simpl. by rewrite IH. Qed.

Lemma from_parts_parts w n ip : from_parts w (parts w n ip) = ip mod 2 ^ Z.of_nat (w * n).
Proof.
  induction n as [|n IH]; [simpl; by rewrite Nat.mul_0_r, Z.mod_1_r|].
  cbn [parts from_parts]. rewrite IH, length_parts.
  replace (Z.of_nat (w * S n)) with (Z.of_nat (w * n) + Z.of_nat w) by lia.
  pose proof (pow_pos (w * n)). pose proof (pow_pos w).
  rewrite Z.pow_add_r, Z.rem_mul_r by lia. lia.
Qed.

Lemma parts_bounds w n ip : Forall (λ s, 0 ≤ s < 2 ^ Z.of_nat w) (parts w n ip).
Proof.
  induction n as [|n IH]; constructor; [|done]. apply Z.mod_pos_bound, pow_pos.
Qed.

Lemma from_parts_bounds w l :
  Forall (λ s, 0 ≤ s < 2 ^ Z.of_nat w) l → 0 ≤ from_parts w l < 2 ^ Z.of_nat (w * length l).
Proof.
  induction 1 as [|s l Hs _ IH]; [simpl; lia|]. cbn [from_parts length].
  replace (Z.of_nat (w * S (length l))) with (Z.of_nat (w * length l) + Z.of_nat w) by lia.
  rewrite Z.pow_add_r by lia. pose proof (pow_pos (w * length l)). nia.
Qed.

(** The other direction: the parts of a number built from parts. *)
Lemma parts_add_high w n a z :
  parts w n (a * 2 ^ Z.of_nat (w * n) + z) = parts w n z.
Proof.
  revert a. induction n as [|n IH]; intros a; [done|]. cbn [parts].
  replace (Z.of_nat (w * S n)) with (Z.of_nat w + Z.of_nat (w * n)) by lia.
  rewrite Z.pow_add_r by lia. pose proof (pow_pos (w * n)). pose proof (pow_pos w). f_equal.
  - rewrite Z.mul_assoc, Z.add_comm, Z.div_add by lia. by rewrite Z.mod_add by lia.
  - rewrite Z.mul_assoc. apply IH.
Qed.

Lemma parts_from_parts w l :
  Forall (λ s, 0 ≤ s < 2 ^ Z.of_nat w) l → parts w (length l) (from_parts w l) = l.
Proof.
  induction 1 as [|s l Hs Hl IH]; [done|]. cbn [length parts from_parts].
  pose proof (from_parts_bounds w l Hl). pose proof (pow_pos (w * length l)).
  rewrite parts_add_high, IH. f_equal.
  rewrite Z.add_comm, Z.div_add by lia. rewrite Z.div_small by lia. by apply Z.mod_small.
Qed.

(** ** Reading and writing by index *)
Definition byte_at (buf : list Z) (i : nat) : outcome Z := expect (buf !! i) "index out of bounds".

Definition set_byte (buf : list Z) (i : nat) (v : Z) : outcome (list Z) :=
  if decide (i < length buf)%nat then mret (<[i := v]> buf) else Panic "index out of bounds".

(** [&buf[from..]], and writing a changed sub-slice back. *)
Definition slice_from (buf : list Z) (from : nat) : outcome (list Z) :=
  if decide (from ≤ length buf)%nat then mret (drop from buf) else Panic "range start index out of range".

Definition splice_from (buf : list Z) (from : nat) (tail : list Z) : list Z := take from buf ++ tail.

(** [&buf[from..to]] *)
Definition slice (buf : list Z) (from to : nat) : outcome (list Z) :=
  if decide (from ≤ to ≤ length buf)%nat then mret (take (to - from) (drop from buf))
  else Panic "range out of bounds".

(** [buf[off..off + len].clone_from_slice(l)] with [len] the length of [l]. *)
Definition put (buf : list Z) (off : nat) (l : list Z) : outcome (list Z) :=
  if decide (off + length l ≤ length buf)%nat
  then mret (take off buf ++ l ++ drop (off + length l) buf)
  else Panic "range end index out of range".

Lemma slice_from_app pre tail : slice_from (pre ++ tail) (length pre) = Ret tail.
Proof.
  unfold slice_from. rewrite decide_True by (rewrite length_app; lia).
  by rewrite drop_app_length.
Qed.

Lemma put_app buf off l1 l2 :
  (b ← put buf off l1; put b (off + length l1) l2) = put buf off (l1 ++ l2).
Proof.
  unfold put at 2 3. rewrite length_app.
  destruct (decide (off + length l1 ≤ length buf)%nat) as [H|H].
  2:{ rewrite decide_False by lia. done. }
  cbn [mbind outcome_bind mret outcome_ret]. unfold put.
  rewrite !length_app, length_take, length_drop.
  destruct (decide (off + length l1 + length l2 ≤ length buf)%nat).
  - rewrite decide_True by lia. rewrite decide_True by lia. f_equal.
    rewrite take_app, length_take, Nat.min_l by lia.
    rewrite take_ge by (rewrite length_take; lia).
    replace (off + length l1 - off)%nat with (length l1) by lia. rewrite take_app_length.
    rewrite <-!app_assoc. do 3 f_equal. rewrite (app_assoc (take off buf) l1), drop_app_ge.
    + rewrite length_app, length_take, Nat.min_l, drop_drop by lia. f_equal. lia.
    + rewrite length_app, length_take. lia.
  - rewrite decide_False by lia. by rewrite decide_False by lia.
Qed.

Lemma set_byte_put buf i v : (i < length buf)%nat → set_byte buf i v = put buf i [v].
Proof.
  intros H. unfold set_byte, put. cbn [length]. rewrite !decide_True by lia.
  cbn. f_equal. rewrite insert_take_drop by done. do 3 f_equal. lia.
Qed.

(** Writing right behind what was written before. *)
Definition filled (pre buf : list Z) : list Z := pre ++ drop (length pre) buf.

Lemma put_filled pre buf l :
  (length pre + length l ≤ length buf)%nat →
  put (filled pre buf) (length pre) l = Ret (filled (pre ++ l) buf).
Proof.
  intros H. unfold put, filled. rewrite length_app, length_drop.
  rewrite decide_True by lia. rewrite take_app_length, length_app. f_equal.
  rewrite <-app_assoc. do 2 f_equal. rewrite drop_app_ge, drop_drop by lia. f_equal. lia.
Qed.

Lemma filled_nil buf : filled [] buf = buf.
Proof. done. Qed.

Lemma length_filled pre buf : (length pre ≤ length buf)%nat → length (filled pre buf) = length buf.
Proof. intros. unfold filled. rewrite length_app, length_drop. lia. Qed.

(** ** Integers in network byte order *)
Definition be16 (v : Z) : list Z := parts 8 2 v.
Definition be32 (v : Z) : list Z := parts 8 4 v.

Lemma be16_eq v : be16 v = [(v / 256) mod 256; v mod 256].
Proof. unfold be16. cbn [parts]. change (2 ^ Z.of_nat (8 * 0)) with 1. by rewrite Z.div_1_r. Qed.

Lemma be32_eq v :
  be32 v = [(v / 2 ^ 24) mod 256; (v / 2 ^ 16) mod 256; (v / 256) mod 256; v mod 256].
Proof. unfold be32. cbn [parts]. change (2 ^ Z.of_nat (8 * 0)) with 1. by rewrite Z.div_1_r. Qed.

(** [x >> n] and [x & 0xFF] in terms of division. *)
Lemma shr_byte v n : 0 ≤ n → Z.land (Z.shiftr v n) 255 = (v / 2 ^ n) mod 256.
Proof.
  intros. change 255 with (Z.ones 8). rewrite Z.land_ones, Z.shiftr_div_pow2 by lia. done.
Qed.

Lemma land_byte v : Z.land v 255 = v mod 256.
Proof. change 255 with (Z.ones 8). by rewrite Z.land_ones by lia. Qed.

(** ** Searching in a slice: [index_of] and [index_of_from] of [pulsemesh_lib/src/utils.rs] *)
Section Search.
Context {A : Type} `{EqDecision A}.

(** The inner loop: do the needles stand at the front of what is left of the haystack? *)
Fixpoint needles_match (haystack needles : list A) {struct needles} : bool :=
  match needles with
  | [] => true
  | n :: needles' =>
      match haystack with
      | [] => false
      | x :: haystack' => if decide (x ≠ n) then false else needles_match haystack' needles'
      end
  end.

Fixpoint index_of_loop (haystack needles : list A) (h : nat) : option nat :=
  match haystack with
  | [] => None
  | _ :: haystack' =>
      if needles_match haystack needles then Some h else index_of_loop haystack' needles (S h)
  end.

Definition index_of (haystack needles : list A) : option nat :=
  match needles with [] => None | _ => index_of_loop haystack needles 0 end.

(** [while index < haystack.len() && haystack[index] != *needle { index += 1 }] *)
Fixpoint index_of_from_loop (rest : list A) (needle : A) (index : nat) : nat :=
  match rest with
  | [] => index
  | x :: rest' => if decide (x ≠ needle) then index_of_from_loop rest' needle (S index) else index
  end.

Definition index_of_from (haystack : list A) (needle : A) (start_at : nat) : option nat :=
  let index := index_of_from_loop (drop start_at haystack) needle start_at in
  if (length haystack <=? index)%nat then None else Some index.

Lemma needles_match_spec hay needles :
  needles_match hay needles = true ↔ ∃ rest, hay = needles ++ rest.
Proof.
  revert hay. induction needles as [|n needles IH]; intros hay; simpl; [split; [by exists hay|done]|].
  destruct hay as [|x hay]; [by split; [|intros [? ?]]|].
  destruct (decide (x ≠ n)) as [Hx|Hx].
  - split; [done|]. intros [rest [= -> ->]]. done.
  - apply dec_stable in Hx as ->. rewrite IH. split; intros [rest E]; exists rest; [by subst|].
    by injection E as ->.
Qed.

Lemma index_of_loop_Some hay needles h i :
  index_of_loop hay needles h = Some i →
  ∃ pre rest, hay = pre ++ needles ++ rest ∧ i = (h + length pre)%nat ∧
    ∀ k, (k < length pre)%nat → needles_match (drop k hay) needles = false.
Proof.
  revert h. induction hay as [|x hay IH]; intros h; [done|]. cbn [index_of_loop].
  destruct (needles_match (x :: hay) needles) eqn:E.
  - intros [= <-]. apply needles_match_spec in E as [rest E]. exists [], rest.
    split_and!; [done|simpl; lia|simpl; lia].
  - intros (pre & rest & -> & -> & H)%IH. exists (x :: pre), rest.
    split_and!; [done|simpl; lia|]. intros [|k] Hk; [done|]. simpl. apply H. simpl in Hk. lia.
Qed.

Lemma index_of_loop_None hay needles h k :
  needles ≠ [] → index_of_loop hay needles h = None → needles_match (drop k hay) needles = false.
Proof.
  intros Hn. revert h k. induction hay as [|x hay IH]; intros h k.
  - intros _. rewrite drop_nil. by destruct needles.
  - cbn [index_of_loop]. destruct (needles_match (x :: hay) needles) eqn:E; [done|].
    intros H. destruct k as [|k]; [done|]. by apply (IH (S h)).
Qed.

Lemma index_of_single hay x i :
  index_of hay [x] = Some i → ∃ pre rest, hay = pre ++ x :: rest ∧ i = length pre ∧ x ∉ pre.
Proof.
  intros (pre & rest & -> & -> & H)%index_of_loop_Some. exists pre, rest. split_and!; [done|done|].
  intros (k & Hk)%list_elem_of_lookup. pose proof (lookup_lt_Some _ _ _ Hk) as Hl.
  specialize (H k Hl). rewrite (drop_S _ x) in H; [|by rewrite lookup_app_l].
  cbn [needles_match] in H. by rewrite decide_False in H by tauto.
Qed.

Lemma index_of_single_None hay x : index_of hay [x] = None ↔ x ∉ hay.
Proof.
  split.
  - intros H (k & Hk)%list_elem_of_lookup.
    pose proof (index_of_loop_None hay [x] 0 k ltac:(done) H) as E. rewrite (drop_S _ x) in E by done.
    cbn [needles_match] in E. by rewrite decide_False in E by tauto.
  - intros H. destruct (index_of hay [x]) as [i|] eqn:E; [|done].
    apply index_of_single in E as (pre & rest & -> & _). set_solver.
Qed.
End Search.
