(* ===== verification/NodeAddr.v ===== *)
(** * Addresses, keys and rates shared by the neighborhood components

    Models [node/src/sub_lib/node_addr.rs] ([NodeAddr]), the key and byte
    containers of [node/src/sub_lib/cryptde.rs], [Wallet] of
    [node/src/sub_lib/wallet.rs], and [RatePack], [NeighborhoodMode],
    [NodeDescriptor] and [Hops] of [node/src/sub_lib/neighborhood.rs].
    [std::net] addresses are modelled by their integer value. *)

From S2P Require Import Prelude.

(** [std::net::IpAddr]: an IPv4 address is its 32-bit value, an IPv6 address
    its 128-bit value. *)
Inductive IpAddr := V4 (octets : Z) | V6 (segments : Z).

#[export] Instance IpAddr_eq_dec : EqDecision IpAddr.
Proof. solve_decision. Defined.
#[export] Instance IpAddr_countable : Countable IpAddr.
Proof.
  refine (inj_countable' (λ i, match i with V4 z => inl z | V6 z => inr z end)
            (λ s, match s with inl z => V4 z | inr z => V6 z end) _).
  by intros [].
Defined.

(** [std::net::SocketAddr]; the flow label and scope of an IPv6 socket address
    are 0 in every [SocketAddr] the node builds and are left out. *)
Record SocketAddr := mkSocketAddr { sa_ip : IpAddr; sa_port : Z }.

#[export] Instance SocketAddr_eq_dec : EqDecision SocketAddr.
Proof. solve_decision. Defined.

(** [PublicKey], [PlainData] and [CryptData] wrap a [Vec<u8>]. *)
Record PublicKey := mkPublicKey { key_data : list Z }.

#[export] Instance PublicKey_eq_dec : EqDecision PublicKey.
Proof. solve_decision. Defined.
#[export] Instance PublicKey_countable : Countable PublicKey :=
  inj_countable' key_data mkPublicKey (λ k, match k with mkPublicKey _ => eq_refl end).

Abbreviation PlainData := (list Z).
Abbreviation CryptData := (list Z).

(** The derived [Ord] of [PublicKey]: lexicographic on the bytes. *)
Fixpoint bytes_leb (a b : list Z) : bool :=
  match a, b with
  | [], _ => true
  | _ :: _, [] => false
  | x :: a', y :: b' => if x =? y then bytes_leb a' b' else x <? y
  end.

Definition key_le (a b : PublicKey) : Prop := bytes_leb (key_data a) (key_data b) = true.

#[export] Instance key_le_dec : RelDecision key_le.
Proof. intros a b. unfold key_le. apply _. Defined.

(** Iterating a [BTreeSet<PublicKey>] yields its elements in ascending order. *)
Definition btree_iter (s : gset PublicKey) : list PublicKey :=
  merge_sort key_le (elements s).

Lemma elem_of_btree_iter k s : k ∈ btree_iter s ↔ k ∈ s.
Proof. unfold btree_iter. by rewrite merge_sort_Permutation, elem_of_elements. Qed.

Lemma NoDup_btree_iter s : NoDup (btree_iter s).
Proof. unfold btree_iter. rewrite merge_sort_Permutation. apply NoDup_elements. Qed.

(** Iterating a [HashSet] or the keys of a [HashMap] yields its elements in an
    unspecified order.  The order is a parameter of the model: every theorem
    that mentions it holds for every order. *)
Class HashOrder := {
  hash_iter : gset PublicKey → list PublicKey;
  hash_iter_perm s : hash_iter s ≡ₚ elements s
}.

(** One concrete order, for evaluating the model. *)
Definition elements_order : HashOrder := {|
  hash_iter := elements;
  hash_iter_perm s := reflexivity (elements s)
|}.

Section hash_order.
Context `{HO : HashOrder}.

Lemma elem_of_hash_iter k s : k ∈ hash_iter s ↔ k ∈ s.
Proof. by rewrite hash_iter_perm, elem_of_elements. Qed.

Lemma NoDup_hash_iter s : NoDup (hash_iter s).
Proof. rewrite hash_iter_perm. apply NoDup_elements. Qed.

Lemma length_hash_iter s : length (hash_iter s) = size s.
Proof. by rewrite hash_iter_perm. Qed.
End hash_order.

(** [WalletKind]: the raw bytes of an address, a secret or a public key; the
    source compares wallets kind by kind on those bytes. *)
Inductive Wallet :=
| WalletAddress (address : list Z)
| WalletSecretKey (secret : list Z)
| WalletPublicKey (public : list Z)
| WalletUninitialized.

#[export] Instance Wallet_eq_dec : EqDecision Wallet.
Proof. solve_decision. Defined.

(** [RatePack]: four [u64] rates. *)
Record RatePack := mkRatePack {
  routing_byte_rate : Z;
  routing_service_rate : Z;
  exit_byte_rate : Z;
  exit_service_rate : Z
}.

#[export] Instance RatePack_eq_dec : EqDecision RatePack.
Proof. solve_decision. Defined.

Definition ZERO_RATE_PACK : RatePack := mkRatePack 0 0 0 0.

(** [u64] arithmetic, wrapping at 64 bits. *)
Definition routing_charge (r : RatePack) (payload_size : Z) : Z :=
  u64 (routing_service_rate r + u64 (routing_byte_rate r * payload_size)).

Definition exit_charge (r : RatePack) (payload_size : Z) : Z :=
  u64 (exit_service_rate r + u64 (exit_byte_rate r * payload_size)).

(** ** [NodeAddr] *)
Record NodeAddr := mkNodeAddr { na_ip_addr : IpAddr; na_ports : list Z }.

#[export] Instance NodeAddr_eq_dec : EqDecision NodeAddr.
Proof. solve_decision. Defined.

(** [NodeAddr::new]: the ports are sorted and deduplicated. *)
Definition NodeAddr_new (ip : IpAddr) (ports : list Z) : NodeAddr :=
  mkNodeAddr ip (dedup (merge_sort Z.le ports)).

(** [Clone] goes through [new], so a clone is normalized even if the original
    came from the wire with unsorted ports. *)
Definition NodeAddr_clone (a : NodeAddr) : NodeAddr :=
  NodeAddr_new (na_ip_addr a) (na_ports a).

Definition NodeAddr_default : NodeAddr := NodeAddr_new (V4 0) [].

Definition NodeAddr_from_socket (sa : SocketAddr) : NodeAddr :=
  NodeAddr_new (sa_ip sa) [sa_port sa].

Definition NodeAddr_to_sockets (a : NodeAddr) : list SocketAddr :=
  map (mkSocketAddr (na_ip_addr a)) (na_ports a).

(** [SocketAddr::from(node_addr)] indexes the first socket address. *)
Definition NodeAddr_to_socket (a : NodeAddr) : outcome SocketAddr :=
  expect (head (NodeAddr_to_sockets a)) "index out of bounds".

(** ** [NeighborhoodMode] and [NodeDescriptor] *)

(** [Chain] of [pulsemesh_lib] is represented by its chain id. *)
Record NodeDescriptor := mkNodeDescriptor {
  blockchain : Z;
  encryption_public_key : PublicKey;
  nd_node_addr_opt : option NodeAddr
}.

#[export] Instance NodeDescriptor_eq_dec : EqDecision NodeDescriptor.
Proof. solve_decision. Defined.

Inductive NeighborhoodMode :=
| Standard (node_addr : NodeAddr) (neighbors : list NodeDescriptor) (rates : RatePack)
| ZeroHop
| OriginateOnly (neighbors : list NodeDescriptor) (rates : RatePack)
| ConsumeOnly (neighbors : list NodeDescriptor).

Definition mode_node_addr_opt (m : NeighborhoodMode) : option NodeAddr :=
  match m with Standard a _ _ => Some (NodeAddr_clone a) | _ => None end.

Definition mode_rate_pack (m : NeighborhoodMode) : RatePack :=
  match m with
  | Standard _ _ r => r
  | OriginateOnly _ r => r
  | _ => ZERO_RATE_PACK
  end.

Definition mode_accepts_connections (m : NeighborhoodMode) : bool :=
  match m with Standard _ _ _ => true | _ => false end.

Definition mode_routes_data (m : NeighborhoodMode) : bool :=
  match m with Standard _ _ _ | OriginateOnly _ _ => true | _ => false end.

(** [Hops], whose discriminant is the number of hops. *)
Inductive Hops := OneHop | TwoHops | ThreeHops | FourHops | FiveHops | SixHops.

#[export] Instance Hops_eq_dec : EqDecision Hops.
Proof. solve_decision. Defined.

Definition hops_usize (h : Hops) : nat :=
  match h with
  | OneHop => 1 | TwoHops => 2 | ThreeHops => 3
  | FourHops => 4 | FiveHops => 5 | SixHops => 6
  end.

(** ** Properties of [NodeAddr] *)

Lemma NodeAddr_new_ports_sorted ip ports :
  StronglySorted Z.lt (na_ports (NodeAddr_new ip ports)).
Proof. apply sorted_dedup_strict, StronglySorted_merge_sort; apply _. Qed.

Lemma elem_of_NodeAddr_new ip ports p :
  p ∈ na_ports (NodeAddr_new ip ports) ↔ p ∈ ports.
Proof. simpl. by rewrite elem_of_dedup, merge_sort_Permutation. Qed.

Lemma strict_sorted_dedup (l : list Z) : StronglySorted Z.lt l → dedup l = l.
Proof.
  induction 1 as [|x [|y l] Hs IH Hx]; [done..|].
  rewrite dedup_cons, IH. inversion Hx; subst. case_decide; [lia|done].
Qed.

Lemma NodeAddr_clone_new ip ports :
  NodeAddr_clone (NodeAddr_new ip ports) = NodeAddr_new ip ports.
Proof.
  pose proof (NodeAddr_new_ports_sorted ip ports) as Hs.
  assert (StronglySorted Z.le (na_ports (NodeAddr_new ip ports))).
  { revert Hs. clear. induction 1; constructor; [done|].
    eapply Forall_impl; [done|]. simpl; lia. }
  unfold NodeAddr_clone, NodeAddr_new at 1. simpl in *.
  by rewrite merge_sort_sorted, strict_sorted_dedup.
Qed.

Lemma NodeAddr_clone_idem a : NodeAddr_clone (NodeAddr_clone a) = NodeAddr_clone a.
Proof. apply NodeAddr_clone_new. Qed.

Lemma NodeAddr_clone_ip a : na_ip_addr (NodeAddr_clone a) = na_ip_addr a.
Proof. done. Qed.

Lemma NodeAddr_clone_no_ports a : na_ports (NodeAddr_clone a) = [] ↔ na_ports a = [].
Proof.
  split; intros H; [|simpl; by rewrite H].
  destruct (na_ports a) as [|p l] eqn:E; [done|exfalso].
  assert (p ∈ na_ports (NodeAddr_clone a)) as Hp.
  { apply elem_of_NodeAddr_new. rewrite E. left. }
  rewrite H in Hp. set_solver.
Qed.

Create Rewrite HintDb addr.
#[export] Hint Rewrite NodeAddr_clone_new NodeAddr_clone_idem NodeAddr_clone_ip : addr.

Arguments NodeAddr_clone : simpl never.
Arguments NodeAddr_new : simpl never.
