(* ===== verification/NodeRecord.v ===== *)
(** * Node records and their gossip form

    Models [node/src/neighborhood/node_record.rs] ([NodeRecord],
    [NodeRecordInner_0v1], [NodeRecordMetadata]), the record conversions of
    [node/src/neighborhood/gossip.rs] ([GossipNodeRecord],
    [AccessibleGossipRecord], [regenerate_signed_gossip]) and
    [node/src/neighborhood/node_location.rs].

    Parameters: [serde_cbor] ([SerdeCbor]), the country lookup over the
    generated IP data ([CountryLookup]) and the [CryptDE] trait object.
    Functions that read the clock take the time as the argument [now]. *)

From S2P Require Import Prelude.
From S2P Require Import NodeAddr.

Record NodeRecordInner_0v1 := mkInner {
  inner_public_key : PublicKey;
  inner_earning_wallet : Wallet;
  inner_rate_pack : RatePack;
  inner_neighbors : gset PublicKey;
  inner_accepts_connections : bool;
  inner_routes_data : bool;
  inner_version : Z;
  inner_country_code_opt : option string
}.

#[export] Instance NodeRecordInner_eq_dec : EqDecision NodeRecordInner_0v1.
Proof. solve_decision. Defined.

(** [NodeLocation] holds just a country code. *)
Record NodeLocation := mkNodeLocation { country_code : string }.

#[export] Instance NodeLocation_eq_dec : EqDecision NodeLocation.
Proof. solve_decision. Defined.

Record NodeRecordMetadata := mkMetadata {
  last_update : Z;
  md_node_addr_opt : option NodeAddr;
  unreachable_hosts : gset string;
  node_location_opt : option NodeLocation;
  country_undesirability : Z
}.

Record NodeRecord := mkNodeRecord {
  inner : NodeRecordInner_0v1;
  metadata : NodeRecordMetadata;
  signed_gossip : PlainData;
  signature : CryptData
}.

Record GossipNodeRecord := mkGnr {
  gnr_signed_data : PlainData;
  gnr_signature : CryptData;
  gnr_node_addr_opt : option NodeAddr
}.

#[export] Instance GossipNodeRecord_eq_dec : EqDecision GossipNodeRecord.
Proof. solve_decision. Defined.

Record AccessibleGossipRecord := mkAgr {
  agr_signed_gossip : PlainData;
  agr_signature : CryptData;
  agr_node_addr_opt : option NodeAddr;
  agr_inner : NodeRecordInner_0v1
}.

(** ** Parameters of the model *)

(** [serde_cbor]: serializing a record and reading it back gives the record.  Of a wallet
    only its address is written; the earning wallet of a record is an address wallet, and
    the law is about such records. *)
Class SerdeCbor := {
  to_vec : NodeRecordInner_0v1 → option PlainData;
  from_slice : PlainData → option NodeRecordInner_0v1;
  cbor_roundtrip i : ∃ bs, to_vec i = Some bs ∧ from_slice bs = Some i
}.

(** [CountryCodeFinder::find_country] over the generated country data: the
    ISO 3166 code of an address, if it is known. *)
Class CountryLookup := find_country : IpAddr → option string.

(** The part of the [CryptDE] trait the neighborhood uses. *)
Record CryptDE := mkCryptDE {
  cryptde_public_key : PublicKey;
  cryptde_sign : PlainData → option CryptData;
  cryptde_verify_signature : PlainData → CryptData → PublicKey → bool
}.

(** What a [CryptDE] promises: signing succeeds, and the signature verifies
    under its own public key. *)
Class CryptDEOk (c : CryptDE) : Prop := {
  sign_ok d : ∃ s, cryptde_sign c d = Some s ∧
                   cryptde_verify_signature c d s (cryptde_public_key c) = true
}.

(** ** Updates of the nested fields *)
Definition with_inner (r : NodeRecord) (i : NodeRecordInner_0v1) : NodeRecord :=
  mkNodeRecord i (metadata r) (signed_gossip r) (signature r).

Definition with_metadata (r : NodeRecord) (m : NodeRecordMetadata) : NodeRecord :=
  mkNodeRecord (inner r) m (signed_gossip r) (signature r).

Definition with_neighbors (i : NodeRecordInner_0v1) (ns : gset PublicKey) :=
  mkInner (inner_public_key i) (inner_earning_wallet i) (inner_rate_pack i) ns
    (inner_accepts_connections i) (inner_routes_data i) (inner_version i)
    (inner_country_code_opt i).

Definition with_version (i : NodeRecordInner_0v1) (v : Z) :=
  mkInner (inner_public_key i) (inner_earning_wallet i) (inner_rate_pack i)
    (inner_neighbors i) (inner_accepts_connections i) (inner_routes_data i) v
    (inner_country_code_opt i).

Definition with_earning_wallet (i : NodeRecordInner_0v1) (w : Wallet) :=
  mkInner (inner_public_key i) w (inner_rate_pack i) (inner_neighbors i)
    (inner_accepts_connections i) (inner_routes_data i) (inner_version i)
    (inner_country_code_opt i).

Definition with_node_addr (m : NodeRecordMetadata) (a : option NodeAddr) :=
  mkMetadata (last_update m) a (unreachable_hosts m) (node_location_opt m)
    (country_undesirability m).

Definition with_last_update (m : NodeRecordMetadata) (t : Z) :=
  mkMetadata t (md_node_addr_opt m) (unreachable_hosts m) (node_location_opt m)
    (country_undesirability m).

Definition with_location (m : NodeRecordMetadata) (l : option NodeLocation) :=
  mkMetadata (last_update m) (md_node_addr_opt m) (unreachable_hosts m) l
    (country_undesirability m).

Definition with_undesirability (m : NodeRecordMetadata) (u : Z) :=
  mkMetadata (last_update m) (md_node_addr_opt m) (unreachable_hosts m)
    (node_location_opt m) u.

(** ** Errors *)
Inductive NodeRecordError := RecordSelfNeighborAttempt (k : PublicKey).

Inductive NeighborhoodDatabaseError :=
| NodeKeyNotFound (k : PublicKey)
| NodeKeyCollision (k : PublicKey)
| SelfNeighborAttempt (k : PublicKey)
| NodeAddrAlreadySet (a : NodeAddr)
| EmptyPortList.

(** The three error strings of [NodeRecord::update], by what they report. *)
Inductive UpdateError :=
| PublicKeyChanged (old new : PublicKey)
| RatePackChanged (old new : RatePack)
| NodeAddrChanged (old new : NodeAddr).

(** ** Operations *)
Section node_record.
Context `{CBOR : SerdeCbor} `{CL : CountryLookup}.

Definition get_node_location (ip_opt : option IpAddr) : option NodeLocation :=
  match ip_opt with
  | Some ip => mkNodeLocation <$> find_country ip
  | None => None
  end.

Definition metadata_new (now : Z) : NodeRecordMetadata :=
  mkMetadata now None ∅ None 0.

(** [regenerate_signed_gossip] of [gossip.rs], on the inner record. *)
Definition regenerate_signed_gossip_inner (i : NodeRecordInner_0v1) (c : CryptDE) :
    outcome (PlainData * CryptData) :=
  signed ← expect (to_vec i) "Serialization failed";
  sig ← expect (cryptde_sign c signed) "TODO: Signing error";
  mret (signed, sig).

(** [NodeRecord::regenerate_signed_gossip]. *)
Definition regenerate_signed_gossip (r : NodeRecord) (c : CryptDE) : outcome NodeRecord :=
  p ← regenerate_signed_gossip_inner (inner r) c;
  mret (mkNodeRecord (inner r) (metadata r) p.1 p.2).

Record NodeRecordInputs := mkInputs {
  in_earning_wallet : Wallet;
  in_rate_pack : RatePack;
  in_accepts_connections : bool;
  in_routes_data : bool;
  in_version : Z;
  in_location_opt : option NodeLocation
}.

Definition NodeRecord_new (k : PublicKey) (c : CryptDE) (inputs : NodeRecordInputs)
    (now : Z) : outcome NodeRecord :=
  regenerate_signed_gossip
    (mkNodeRecord
       (mkInner k (in_earning_wallet inputs) (in_rate_pack inputs) ∅
          (in_accepts_connections inputs) (in_routes_data inputs) (in_version inputs)
          (country_code <$> in_location_opt inputs))
       (with_location (metadata_new now) (in_location_opt inputs))
       [] []) c.

Definition public_key (r : NodeRecord) : PublicKey := inner_public_key (inner r).

(** [node_addr_opt()] clones the stored address. *)
Definition node_addr_opt (r : NodeRecord) : option NodeAddr :=
  NodeAddr_clone <$> md_node_addr_opt (metadata r).

Definition set_node_addr (r : NodeRecord) (a : NodeAddr) :
    result (bool * NodeRecord) NeighborhoodDatabaseError :=
  match md_node_addr_opt (metadata r) with
  | Some a' => if decide (a = a') then Ok (false, r)
               else Err (NodeAddrAlreadySet (NodeAddr_clone a'))
  | None => Ok (true, with_metadata r
                        (with_node_addr (metadata r) (Some (NodeAddr_clone a))))
  end.

Definition unset_node_addr (r : NodeRecord) : NodeRecord :=
  with_metadata r (with_node_addr (metadata r) None).

Definition half_neighbor_keys (r : NodeRecord) : gset PublicKey := inner_neighbors (inner r).

Definition has_half_neighbor (r : NodeRecord) (k : PublicKey) : bool :=
  bool_decide (k ∈ inner_neighbors (inner r)).

Definition add_half_neighbor_key (r : NodeRecord) (k : PublicKey) :
    result NodeRecord NodeRecordError :=
  if decide (k = public_key r) then Err (RecordSelfNeighborAttempt (public_key r))
  else Ok (with_inner r (with_neighbors (inner r) ({[k]} ∪ inner_neighbors (inner r)))).

(** [BTreeSet::remove] says whether the key was there. *)
Definition remove_half_neighbor_key (r : NodeRecord) (k : PublicKey) : bool * NodeRecord :=
  (bool_decide (k ∈ inner_neighbors (inner r)),
   with_inner r (with_neighbors (inner r) (inner_neighbors (inner r) ∖ {[k]}))).

Definition clear_half_neighbors (r : NodeRecord) : NodeRecord :=
  with_inner r (with_neighbors (inner r) ∅).

Definition accepts_connections (r : NodeRecord) : bool := inner_accepts_connections (inner r).
Definition routes_data (r : NodeRecord) : bool := inner_routes_data (inner r).
Definition version (r : NodeRecord) : Z := inner_version (inner r).
Definition last_updated (r : NodeRecord) : Z := last_update (metadata r).
Definition earning_wallet (r : NodeRecord) : Wallet := inner_earning_wallet (inner r).
Definition rate_pack (r : NodeRecord) : RatePack := inner_rate_pack (inner r).

(** [self.inner.version += 1] on a [u32]; the release build wraps. *)
Definition increment_version (r : NodeRecord) : NodeRecord :=
  with_inner r (with_version (inner r) (u32 (inner_version (inner r) + 1))).

Definition set_version (r : NodeRecord) (v : Z) : NodeRecord :=
  with_inner r (with_version (inner r) v).

Definition set_earning_wallet (r : NodeRecord) (w : Wallet) : bool * NodeRecord :=
  if decide (earning_wallet r = w) then (false, r)
  else (true, with_inner r (with_earning_wallet (inner r) w)).

(** The [match] on the two addresses inside [NodeRecord::update]. *)
Definition merge_node_addr (existing incoming : option NodeAddr) :
    result (option NodeAddr) UpdateError :=
  match existing, incoming with
  | None, None => Ok None
  | None, Some na => Ok (Some (NodeAddr_clone na))
  | Some ex, None => Ok (Some ex)
  | Some ex, Some inc => if decide (ex ≠ inc) then Err (NodeAddrChanged ex inc)
                         else Ok (Some ex)
  end.

(** [NodeRecord::update]: an error is returned before any field is written. *)
Definition update (r : NodeRecord) (agr : AccessibleGossipRecord) (now : Z) :
    result NodeRecord UpdateError :=
  if decide (inner_public_key (agr_inner agr) ≠ public_key r) then
    Err (PublicKeyChanged (public_key r) (inner_public_key (agr_inner agr)))
  else if decide (inner_rate_pack (agr_inner agr) ≠ rate_pack r) then
    Err (RatePackChanged (rate_pack r) (inner_rate_pack (agr_inner agr)))
  else
    match merge_node_addr (md_node_addr_opt (metadata r)) (agr_node_addr_opt agr) with
    | Err e => Err e
    | Ok addr =>
        Ok (mkNodeRecord (agr_inner agr)
              (with_last_update (with_node_addr (metadata r) addr) now)
              (agr_signed_gossip agr) (agr_signature agr))
    end.

(** [NodeRecord::from(AccessibleGossipRecord)]. *)
Definition NodeRecord_from_agr (agr : AccessibleGossipRecord) (now : Z) : NodeRecord :=
  mkNodeRecord (agr_inner agr)
    (with_node_addr
       (with_location (metadata_new now)
          (get_node_location (na_ip_addr <$> agr_node_addr_opt agr)))
       (agr_node_addr_opt agr))
    (agr_signed_gossip agr) (agr_signature agr).

Definition agr_clone (agr : AccessibleGossipRecord) : AccessibleGossipRecord :=
  mkAgr (agr_signed_gossip agr) (agr_signature agr)
    (NodeAddr_clone <$> agr_node_addr_opt agr) (agr_inner agr).

(** [NodeRecord::from(&AccessibleGossipRecord)] clones the record first. *)
Definition NodeRecord_from_agr_ref (agr : AccessibleGossipRecord) (now : Z) : NodeRecord :=
  NodeRecord_from_agr (agr_clone agr) now.

(** [NodeRecord::try_from(&GossipNodeRecord)]. *)
Definition NodeRecord_try_from_gnr (g : GossipNodeRecord) (now : Z) : option NodeRecord :=
  i ← from_slice (gnr_signed_data g);
  Some (mkNodeRecord i
          (with_node_addr
             (with_location (metadata_new now)
                (get_node_location (na_ip_addr <$> gnr_node_addr_opt g)))
             (NodeAddr_clone <$> gnr_node_addr_opt g))
          (gnr_signed_data g) (gnr_signature g)).

(** The derived [Clone] of [NodeRecord]. *)
Definition NodeRecord_clone (r : NodeRecord) : NodeRecord :=
  with_metadata r (with_node_addr (metadata r) (NodeAddr_clone <$> md_node_addr_opt (metadata r))).

(** [GossipNodeRecord::from(NodeRecord)]. *)
Definition Gnr_from_record (r : NodeRecord) : GossipNodeRecord :=
  mkGnr (signed_gossip r) (signature r) (md_node_addr_opt (metadata r)).

(** [GossipNodeRecord::from(AccessibleGossipRecord)]. *)
Definition Gnr_from_agr (agr : AccessibleGossipRecord) : GossipNodeRecord :=
  mkGnr (agr_signed_gossip agr) (agr_signature agr) (agr_node_addr_opt agr).

(** [GossipNodeRecord::from((inner, node_addr_opt, cryptde))]. *)
Definition Gnr_from_inner (i : NodeRecordInner_0v1) (a : option NodeAddr) (c : CryptDE) :
    outcome GossipNodeRecord :=
  signed ← expect (to_vec i) "Serialization failed";
  sig ← expect (cryptde_sign c signed) "Signing failed";
  mret (mkGnr signed sig a).

(** [AccessibleGossipRecord::try_from(GossipNodeRecord)]. *)
Definition Agr_try_from_gnr (g : GossipNodeRecord) : option AccessibleGossipRecord :=
  i ← from_slice (gnr_signed_data g);
  Some (mkAgr (gnr_signed_data g) (gnr_signature g) (gnr_node_addr_opt g) i).

(** [AccessibleGossipRecord::regenerate_signed_gossip]. *)
Definition Agr_regenerate_signed_gossip (agr : AccessibleGossipRecord) (c : CryptDE) :
    outcome AccessibleGossipRecord :=
  p ← regenerate_signed_gossip_inner (agr_inner agr) c;
  mret (mkAgr p.1 p.2 (agr_node_addr_opt agr) (agr_inner agr)).
End node_record.

(** ** Properties of records *)

Lemma update_ok_inv r agr now r' :
  update r agr now = Ok r' →
  inner_public_key (agr_inner agr) = public_key r ∧
  inner_rate_pack (agr_inner agr) = rate_pack r ∧
  ∃ addr, merge_node_addr (md_node_addr_opt (metadata r)) (agr_node_addr_opt agr) = Ok addr ∧
    r' = mkNodeRecord (agr_inner agr)
           (with_last_update (with_node_addr (metadata r) addr) now)
           (agr_signed_gossip agr) (agr_signature agr).
Proof.
  unfold update. case_decide as Hk; [done|]. case_decide as Hr; [done|].
  destruct (merge_node_addr _ _) as [addr|] eqn:Ha; [|done]. intros [= <-].
  eauto.
Qed.

Lemma update_public_key r agr now r' :
  update r agr now = Ok r' → public_key r' = public_key r.
Proof. intros (? & ? & ? & ? & ->)%update_ok_inv. done. Qed.

Lemma update_ip r agr now r' a :
  update r agr now = Ok r' → md_node_addr_opt (metadata r) = Some a →
  md_node_addr_opt (metadata r') = Some a.
Proof.
  intros (? & ? & addr & Hm & ->)%update_ok_inv Ha. simpl. rewrite Ha in Hm.
  destruct (agr_node_addr_opt agr); simpl in Hm; [|naive_solver].
  case_decide; naive_solver.
Qed.

(** When the record being updated describes the same node at the same rates
    and does not contradict a known address, the update goes through. *)
Lemma update_ok r agr now :
  inner_public_key (agr_inner agr) = public_key r →
  inner_rate_pack (agr_inner agr) = rate_pack r →
  (∀ a a', md_node_addr_opt (metadata r) = Some a → agr_node_addr_opt agr = Some a' → a = a') →
  ∃ r', update r agr now = Ok r' ∧ inner r' = agr_inner agr.
Proof.
  intros Hk Hr Ha. unfold update. do 2 (case_decide; [congruence|]).
  unfold merge_node_addr.
  destruct (md_node_addr_opt (metadata r)) as [a|] eqn:E1;
    destruct (agr_node_addr_opt agr) as [a'|] eqn:E2; eauto.
  case_decide as Hne; [by destruct Hne; apply Ha|eauto].
Qed.

Section signed.
Context `{CBOR : SerdeCbor} `{CL : CountryLookup}.

Lemma regenerate_inner_returns (i : NodeRecordInner_0v1) (c : CryptDE) `{!CryptDEOk c} :
  returns (regenerate_signed_gossip_inner i c)
    (λ p, from_slice p.1 = Some i ∧
          cryptde_verify_signature c p.1 p.2 (cryptde_public_key c) = true).
Proof.
  destruct (cbor_roundtrip i) as (bs & Hto & Hfrom).
  destruct (sign_ok (c := c) bs) as (s & Hs & Hv).
  unfold regenerate_signed_gossip_inner. by rewrite Hto; simpl; rewrite Hs.
Qed.

Lemma regenerate_returns (r : NodeRecord) (c : CryptDE) `{!CryptDEOk c} :
  returns (regenerate_signed_gossip r c)
    (λ r', inner r' = inner r ∧ metadata r' = metadata r ∧
           from_slice (signed_gossip r') = Some (inner r) ∧
           cryptde_verify_signature c (signed_gossip r') (signature r')
             (cryptde_public_key c) = true).
Proof.
  unfold regenerate_signed_gossip. ret_step.
  eapply returns_mono; [by apply regenerate_inner_returns|].
  intros [d s] [??]; simpl; auto.
Qed.
End signed.

#[export] Hint Resolve regenerate_returns : outcome.

#[export] Hint Resolve regenerate_inner_returns regenerate_returns : outcome.

(** ** A concrete environment

    Instances of the parameters, for evaluating the model on concrete data: a
    one-number serialization, a country lookup that knows nothing, and a
    [CryptDE] whose signature is the data prefixed by the signer's key. *)
Definition wallet_code (w : Wallet) : nat * list Z :=
  match w with
  | WalletAddress a => (0%nat, a)
  | WalletSecretKey s => (1%nat, s)
  | WalletPublicKey p => (2%nat, p)
  | WalletUninitialized => (3%nat, [])
  end.

Definition wallet_decode (c : nat * list Z) : Wallet :=
  match c.1 with
  | 0%nat => WalletAddress c.2
  | 1%nat => WalletSecretKey c.2
  | 2%nat => WalletPublicKey c.2
  | _ => WalletUninitialized
  end.

Definition inner_code (i : NodeRecordInner_0v1) :=
  (key_data (inner_public_key i), wallet_code (inner_earning_wallet i),
   (routing_byte_rate (inner_rate_pack i), routing_service_rate (inner_rate_pack i),
    exit_byte_rate (inner_rate_pack i), exit_service_rate (inner_rate_pack i)),
   inner_neighbors i, inner_accepts_connections i, inner_routes_data i, inner_version i,
   inner_country_code_opt i).

Definition inner_decode (c : list Z * (nat * list Z) * (Z * Z * Z * Z) * gset PublicKey *
    bool * bool * Z * option string) : NodeRecordInner_0v1 :=
  let '(k, w, (a, b, e, f), ns, acc, rd, v, cc) := c in
  mkInner (mkPublicKey k) (wallet_decode w) (mkRatePack a b e f) ns acc rd v cc.

Lemma inner_decode_code i : inner_decode (inner_code i) = i.
Proof. by destruct i as [[] [] [] ? ? ? ? ?]. Qed.

Definition sample_cbor : SerdeCbor.
Proof.
  refine {| to_vec i := Some [Zpos (encode (inner_code i))];
            from_slice bs := match bs with
                             | [Zpos p] => inner_decode <$> decode p
                             | _ => None
                             end |}.
  intros i. exists [Zpos (encode (inner_code i))]. split; [reflexivity|].
  cbv beta iota. rewrite decode_encode. exact (f_equal Some (inner_decode_code i)).
Defined.

Definition sample_lookup : CountryLookup := λ _, None.

Definition sample_cryptde (k : PublicKey) : CryptDE := {|
  cryptde_public_key := k;
  cryptde_sign d := Some (key_data k ++ d);
  cryptde_verify_signature d s k' := bool_decide (s = key_data k' ++ d)
|}.

Lemma sample_cryptde_ok k : CryptDEOk (sample_cryptde k).
Proof. constructor. intros d. eexists. split; [done|]. by apply bool_decide_eq_true. Qed.

(** The key with the single byte [z]. *)
Definition sample_key (z : Z) : PublicKey := mkPublicKey [z].

Definition sample_rates : RatePack := mkRatePack 1 2 3 4.

(** An accepting, data-routing node record at 1.2.3.[z], port 5000 + [z]. *)
Definition sample_inner (z : Z) (ns : list Z) (v : Z) : NodeRecordInner_0v1 :=
  mkInner (sample_key z) (WalletAddress [z]) sample_rates
    (list_to_set (sample_key <$> ns)) true true v None.

Definition sample_addr (z : Z) : NodeAddr := NodeAddr_new (V4 (16909056 + z)) [5000 + z].

Definition sample_record (z : Z) (ns : list Z) (v : Z) (addr : bool) : NodeRecord :=
  mkNodeRecord (sample_inner z ns v)
    (mkMetadata 1000 (if addr then Some (sample_addr z) else None) ∅ None 0) [] [].
