(* ===== verification/NeighborhoodDatabase.v ===== *)
(** * The neighborhood database

    Models [node/src/neighborhood/neighborhood_database.rs]
    ([NeighborhoodDatabase]) and the methods of [NodeRecord] that read it
    ([full_neighbors], [full_neighbor_keys], [has_full_neighbor] of
    [node/src/neighborhood/node_record.rs]).  The two hash maps are [gmap]s; a
    method taking [&mut self] returns the new database.  The DOT rendering is
    not modelled. *)

From S2P Require Import Prelude.
From S2P Require Import NodeAddr.
From S2P Require Import NodeRecord.

Definition ISOLATED_NODE_GRACE_PERIOD_SECS : Z := 30.

Record NeighborhoodDatabase := mkDb {
  this_node : PublicKey;
  by_public_key : gmap PublicKey NodeRecord;
  by_ip_addr : gmap IpAddr PublicKey
}.

Definition with_nodes (db : NeighborhoodDatabase) (m : gmap PublicKey NodeRecord) :=
  mkDb (this_node db) m (by_ip_addr db).

Definition with_ips (db : NeighborhoodDatabase) (m : gmap IpAddr PublicKey) :=
  mkDb (this_node db) (by_public_key db) m.

(** ** Queries *)
Definition node_by_key (db : NeighborhoodDatabase) (k : PublicKey) : option NodeRecord :=
  by_public_key db !! k.

Definition root (db : NeighborhoodDatabase) : outcome NodeRecord :=
  expect (node_by_key db (this_node db)) "Internal error".

Definition root_key (db : NeighborhoodDatabase) : PublicKey := this_node db.

Definition keys (db : NeighborhoodDatabase) : gset PublicKey := dom (by_public_key db).

Definition node_by_ip (db : NeighborhoodDatabase) (ip : IpAddr) : option NodeRecord :=
  match by_ip_addr db !! ip with
  | Some k => node_by_key db k
  | None => None
  end.

Definition db_has_half_neighbor (db : NeighborhoodDatabase) (from to : PublicKey) : bool :=
  match node_by_key db from with
  | Some f => has_half_neighbor f to
  | None => false
  end.

Definition db_has_full_neighbor (db : NeighborhoodDatabase) (from to : PublicKey) : bool :=
  db_has_half_neighbor db from to && db_has_half_neighbor db to from.

(** [NodeRecord::full_neighbor_keys]. *)
Definition full_neighbor_keys (r : NodeRecord) (db : NeighborhoodDatabase) : gset PublicKey :=
  filter (λ k, match node_by_key db k with
               | Some n => has_half_neighbor n (public_key r)
               | None => false
               end = true) (half_neighbor_keys r).

(** [NodeRecord::has_full_neighbor]. *)
Definition has_full_neighbor (r : NodeRecord) (db : NeighborhoodDatabase) (k : PublicKey) : bool :=
  if has_half_neighbor r k then
    match node_by_key db k with
    | Some n => has_half_neighbor n (public_key r)
    | None => false
    end
  else false.

Section database.
Context `{HO : HashOrder} `{CBOR : SerdeCbor} `{CL : CountryLookup}.

(** [NodeRecord::full_neighbors]; the panic is unreachable
    ([full_neighbors_checked_ret]), and the rest of the model uses the plain
    form below. *)
Definition full_neighbors_checked (r : NodeRecord) (db : NeighborhoodDatabase) :
    outcome (list NodeRecord) :=
  mapM (λ k, expect (node_by_key db k) "Node with key magically disappeared")
    (hash_iter (full_neighbor_keys r db)).

Definition full_neighbors (r : NodeRecord) (db : NeighborhoodDatabase) : list NodeRecord :=
  omap (node_by_key db) (hash_iter (full_neighbor_keys r db)).

(** Neighbors a node could gossip to: its accepting full neighbors, and those
    its record names that this database does not know. *)
Definition gossip_target_degree (db : NeighborhoodDatabase) (target : PublicKey) : nat :=
  match node_by_key db target with
  | None => 0
  | Some n =>
      length (filter (λ r, accepts_connections r = true) (full_neighbors n db)) +
      size (filter (λ k, k ∉ keys db) (half_neighbor_keys n))
  end.

(** ** Updates *)
Definition add_arbitrary_node (db : NeighborhoodDatabase) (r : NodeRecord) :=
  mkDb (this_node db) (<[public_key r := r]> (by_public_key db))
    (match node_addr_opt r with
     | Some a => <[na_ip_addr a := public_key r]> (by_ip_addr db)
     | None => by_ip_addr db
     end).

Definition check_for_ports (a : option NodeAddr) : result unit NeighborhoodDatabaseError :=
  match a with
  | None => Ok ()
  | Some a => if decide (na_ports a = []) then Err EmptyPortList else Ok ()
  end.

Definition check_for_collision (db : NeighborhoodDatabase) (k : PublicKey) :
    result unit NeighborhoodDatabaseError :=
  if decide (k ∈ keys db) then Err (NodeKeyCollision k) else Ok ().

Definition add_node (db : NeighborhoodDatabase) (r : NodeRecord) :
    result (PublicKey * NeighborhoodDatabase) NeighborhoodDatabaseError :=
  match check_for_ports (node_addr_opt r) with
  | Err e => Err e
  | Ok _ =>
      match check_for_collision db (public_key r) with
      | Err e => Err e
      | Ok _ => Ok (public_key r, add_arbitrary_node db r)
      end
  end.

(** Adds a half neighbor to the local node only. *)
Definition add_half_neighbor (db : NeighborhoodDatabase) (new_neighbor : PublicKey) (now : Z) :
    result (bool * NeighborhoodDatabase) NeighborhoodDatabaseError :=
  if decide (new_neighbor ∉ keys db) then Err (NodeKeyNotFound new_neighbor)
  else if db_has_half_neighbor db (this_node db) new_neighbor then Ok (false, db)
  else
    match node_by_key db (this_node db) with
    | None => Err (NodeKeyNotFound (this_node db))
    | Some node =>
        match add_half_neighbor_key node new_neighbor with
        | Err (RecordSelfNeighborAttempt k) => Err (SelfNeighborAttempt k)
        | Ok node' =>
            Ok (true, with_nodes db
                  (<[this_node db := with_metadata node' (with_last_update (metadata node') now)]>
                     (by_public_key db)))
        end
    end.

(** [root_mut()] with the update [f] applied to the record it yields. *)
Definition root_mut (db : NeighborhoodDatabase) (f : NodeRecord → outcome NodeRecord) :
    outcome NeighborhoodDatabase :=
  r ← root db; r' ← f r;
  mret (with_nodes db (<[this_node db := r']> (by_public_key db))).

(** [Err] when the node is unknown; otherwise whether the local node had it
    as a half neighbor. *)
Definition remove_neighbor (db : NeighborhoodDatabase) (k : PublicKey) :
    outcome (result (bool * NeighborhoodDatabase) NeighborhoodDatabaseError) :=
  match node_by_key db k with
  | None => mret (Err (NodeKeyNotFound k))
  | Some r =>
      let ip_addr := na_ip_addr <$> node_addr_opt r in
      let db1 := with_nodes db (<[k := unset_node_addr r]> (by_public_key db)) in
      let db2 := match ip_addr with
                 | Some ip => with_ips db1 (delete ip (by_ip_addr db1))
                 | None => db1
                 end in
      root_rec ← root db2;
      let '(removed, root') := remove_half_neighbor_key root_rec k in
      let db3 := with_nodes db2 (<[this_node db2 := root']> (by_public_key db2)) in
      if removed then
        db4 ← root_mut db3 (λ r, mret (increment_version r));
        mret (Ok (true, db4))
      else mret (Ok (false, db3))
  end.

Definition remove_node (db : NeighborhoodDatabase) (k : PublicKey) : NeighborhoodDatabase :=
  let ip_addr_opt := r ← node_by_key db k; na_ip_addr <$> node_addr_opt r in
  let db1 := with_nodes db (delete k (by_public_key db)) in
  match ip_addr_opt with
  | Some ip => with_ips db1 (delete ip (by_ip_addr db1))
  | None => db1
  end.

(** Every key some record names as a neighbor, and the local node. *)
Definition referenced_node_keys (db : NeighborhoodDatabase) : outcome (gset PublicKey) :=
  r ← root db;
  mret ({[public_key r]} ∪
        ⋃ ((λ n, inner_neighbors (inner n)) <$> omap (node_by_key db) (hash_iter (keys db)))).

(** The nodes [cull_dead_nodes] removes: unreferenced, and not updated since
    the deadline ([u32] subtraction). *)
Definition nodes_to_cull (db : NeighborhoodDatabase) (referenced : gset PublicKey) (now : Z) :
    gset PublicKey :=
  filter (λ k, k ∉ referenced ∧
               match node_by_key db k with
               | Some r => last_updated r <=? u32 (now - ISOLATED_NODE_GRACE_PERIOD_SECS)
               | None => false
               end = true) (keys db).

Definition cull_dead_nodes (db : NeighborhoodDatabase) (now : Z) : outcome NeighborhoodDatabase :=
  referenced ← referenced_node_keys db;
  mret (foldl remove_node db (btree_iter (nodes_to_cull db referenced now))).

Definition new_public_ip (db : NeighborhoodDatabase) (public_ip : IpAddr) :
    outcome NeighborhoodDatabase :=
  record ← root db;
  let k := public_key record in
  old ← expect (NodeAddr_clone <$> md_node_addr_opt (metadata record)) "Root node";
  let record' := with_metadata record
        (with_node_addr (metadata record) (Some (NodeAddr_new public_ip (na_ports old)))) in
  mret (mkDb (this_node db) (<[this_node db := record']> (by_public_key db))
          (<[public_ip := k]> (delete (na_ip_addr old) (by_ip_addr db)))).

Definition NeighborhoodDatabase_new (mode : NeighborhoodMode) (wallet : Wallet)
    (cryptde : CryptDE) (now : Z) : outcome NeighborhoodDatabase :=
  let result := mkDb (cryptde_public_key cryptde) ∅ ∅ in
  let location_opt := match mode_node_addr_opt mode with
                      | Some a => get_node_location (Some (na_ip_addr a))
                      | None => None
                      end in
  let inputs := mkInputs wallet (mode_rate_pack mode) (mode_accepts_connections mode)
                  (mode_routes_data mode) 0 location_opt in
  node_record ← NodeRecord_new (cryptde_public_key cryptde) cryptde inputs now;
  node_record ← match mode_node_addr_opt mode with
                | Some a => p ← expect_ok (set_node_addr node_record a)
                                  "NodeAddr suddenly appeared out of nowhere";
                            mret p.2
                | None => mret node_record
                end;
  node_record ← regenerate_signed_gossip node_record cryptde;
  mret (add_arbitrary_node result node_record).
End database.

(** ** The database invariant

    The local node is present; records are filed under their own key; the IP
    index only names present records that have that address; the local node
    is not its own neighbor, and each of its half neighbors is present with an
    address; a local node that accepts connections has an address. *)
Record db_inv (db : NeighborhoodDatabase) : Prop := {
  inv_root : is_Some (node_by_key db (this_node db));
  inv_keys k r : node_by_key db k = Some r → public_key r = k;
  inv_ips ip k : by_ip_addr db !! ip = Some k →
    ∃ r, node_by_key db k = Some r ∧ na_ip_addr <$> md_node_addr_opt (metadata r) = Some ip;
  inv_self r : node_by_key db (this_node db) = Some r → this_node db ∉ half_neighbor_keys r;
  inv_neighbors r k : node_by_key db (this_node db) = Some r → k ∈ half_neighbor_keys r →
    ∃ r', node_by_key db k = Some r' ∧ is_Some (md_node_addr_opt (metadata r'));
  inv_root_addr r : node_by_key db (this_node db) = Some r → accepts_connections r = true →
    is_Some (md_node_addr_opt (metadata r))
}.

Section facts.
Context `{HO : HashOrder} `{CBOR : SerdeCbor} `{CL : CountryLookup}.
Implicit Types (db : NeighborhoodDatabase) (r : NodeRecord) (k : PublicKey).

Lemma elem_of_keys db k : k ∈ keys db ↔ is_Some (node_by_key db k).
Proof. apply elem_of_dom. Qed.

Lemma elem_of_full_neighbor_keys r db k :
  k ∈ full_neighbor_keys r db ↔
  k ∈ half_neighbor_keys r ∧
  ∃ n, node_by_key db k = Some n ∧ public_key r ∈ half_neighbor_keys n.
Proof.
  unfold full_neighbor_keys. rewrite elem_of_filter.
  unfold has_half_neighbor, half_neighbor_keys.
  destruct (node_by_key db k) as [n|]; [|naive_solver].
  rewrite bool_decide_eq_true. naive_solver.
Qed.

Lemma full_neighbors_checked_ret r db :
  full_neighbors_checked r db = Ret (full_neighbors r db).
Proof.
  unfold full_neighbors_checked, full_neighbors.
  assert (∀ k, k ∈ hash_iter (full_neighbor_keys r db) → is_Some (node_by_key db k)) as H.
  { intros k Hk. rewrite elem_of_hash_iter, elem_of_full_neighbor_keys in Hk. naive_solver. }
  revert H. generalize (hash_iter (full_neighbor_keys r db)) as l.
  induction l as [|k l IH]; intros H; [done|]. simpl.
  destruct (H k) as [n Hn]; [set_solver|]. rewrite Hn. simpl.
  rewrite IH by set_solver. done.
Qed.

Lemma elem_of_full_neighbors r db n :
  n ∈ full_neighbors r db ↔
  ∃ k, k ∈ full_neighbor_keys r db ∧ node_by_key db k = Some n.
Proof.
  unfold full_neighbors. rewrite list_elem_of_omap.
  by setoid_rewrite elem_of_hash_iter.
Qed.

(** A full neighborship is symmetric. *)
Lemma full_neighbor_sym db k1 k2 r1 r2 :
  node_by_key db k1 = Some r1 → node_by_key db k2 = Some r2 →
  public_key r1 = k1 → public_key r2 = k2 →
  k2 ∈ full_neighbor_keys r1 db → k1 ∈ full_neighbor_keys r2 db.
Proof.
  intros H1 H2 Hk1 Hk2. rewrite !elem_of_full_neighbor_keys.
  intros (Hin & n & Hn & Hback). naive_solver.
Qed.

Lemma root_ret db : db_inv db → ∃ r, root db = Ret r ∧ node_by_key db (this_node db) = Some r.
Proof. intros H. destruct (inv_root _ H) as [r Hr]. unfold root. rewrite Hr. eauto. Qed.

(** *** Adding nodes *)

Lemma lookup_add_arbitrary_node db r k :
  node_by_key (add_arbitrary_node db r) k =
  if decide (public_key r = k) then Some r else node_by_key db k.
Proof. unfold node_by_key, add_arbitrary_node. simpl. apply lookup_insert. Qed.

Lemma add_node_ok db r :
  node_by_key db (public_key r) = None →
  (∀ a, md_node_addr_opt (metadata r) = Some a → na_ports a ≠ []) →
  add_node db r = Ok (public_key r, add_arbitrary_node db r).
Proof.
  intros Hnone Hports. unfold add_node, check_for_ports, node_addr_opt.
  destruct (md_node_addr_opt (metadata r)) as [a|] eqn:Ha; simpl.
  - rewrite decide_False; [|by intros E%NodeAddr_clone_no_ports; apply (Hports a)].
    unfold check_for_collision. rewrite decide_False; [done|].
    rewrite elem_of_keys, Hnone. by intros [].
  - unfold check_for_collision. rewrite decide_False; [done|].
    rewrite elem_of_keys, Hnone. by intros [].
Qed.

(** Filing a record under a fresh key keeps the invariant. *)
Lemma add_arbitrary_node_inv db r :
  db_inv db → node_by_key db (public_key r) = None → db_inv (add_arbitrary_node db r).
Proof.
  intros Hinv Hnone. assert (this_node db ≠ public_key r) as Hne.
  { intros E. destruct (inv_root _ Hinv) as [? Hr]. rewrite E in Hr. congruence. }
  pose proof (lookup_add_arbitrary_node db r) as Hl.
  assert (node_by_key (add_arbitrary_node db r) (this_node db)
          = node_by_key db (this_node db)) as Hroot.
  { rewrite Hl. by rewrite decide_False. }
  constructor; simpl.
  - rewrite Hroot. apply Hinv.
  - intros k r'. rewrite Hl. case_decide; [naive_solver|]. apply Hinv.
  - intros ip k. intros Hip. setoid_rewrite Hl. case_decide as E; subst.
    + exists r. split; [done|]. unfold node_addr_opt in Hip.
      destruct (md_node_addr_opt (metadata r)) as [a|]; simpl in *.
      * rewrite lookup_insert in Hip. case_decide as E'; [naive_solver|].
        apply (inv_ips _ Hinv) in Hip as (? & ? & ?). congruence.
      * apply (inv_ips _ Hinv) in Hip as (? & ? & ?). congruence.
    + apply (inv_ips _ Hinv). unfold node_addr_opt in Hip.
      destruct (md_node_addr_opt (metadata r)) as [a|]; simpl in *; [|done].
      rewrite lookup_insert in Hip. case_decide; naive_solver.
  - intros r'. rewrite Hroot. apply Hinv.
  - intros r' k. rewrite Hroot, Hl. intros Hr' Hk.
    destruct (inv_neighbors _ Hinv _ _ Hr' Hk) as (n & Hn & ?).
    rewrite decide_False by congruence. eauto.
  - intros r'. rewrite Hroot. apply Hinv.
Qed.

(** *** Rewriting the record of a present node *)

Lemma lookup_set_record db k r k' :
  node_by_key (with_nodes db (<[k := r]> (by_public_key db))) k' =
  if decide (k = k') then Some r else node_by_key db k'.
Proof. apply lookup_insert. Qed.

(** What a replacement record for the local node must satisfy. *)
Definition root_record_ok db r : Prop :=
  this_node db ∉ half_neighbor_keys r ∧
  (∀ k, k ∈ half_neighbor_keys r →
     ∃ n, node_by_key db k = Some n ∧ is_Some (md_node_addr_opt (metadata n))) ∧
  (accepts_connections r = true → is_Some (md_node_addr_opt (metadata r))).

Lemma root_record_ok_inv db r :
  db_inv db → node_by_key db (this_node db) = Some r → root_record_ok db r.
Proof.
  intros Hinv Hr. split_and!; [by apply (inv_self _ Hinv)| |by apply (inv_root_addr _ Hinv)].
  intros k. by apply (inv_neighbors _ Hinv).
Qed.

(** A record may be replaced by one of the same key that keeps the IP address
    if there was one. *)
Lemma set_record_inv db k r r' :
  db_inv db → node_by_key db k = Some r → public_key r' = k →
  (∀ a, md_node_addr_opt (metadata r) = Some a →
     ∃ a', md_node_addr_opt (metadata r') = Some a' ∧ na_ip_addr a' = na_ip_addr a) →
  (k = this_node db → root_record_ok db r') →
  db_inv (with_nodes db (<[k := r']> (by_public_key db))).
Proof.
  intros Hinv Hr Hk Haddr Hroot. pose proof (lookup_set_record db k r') as Hl.
  assert (∀ k' n, node_by_key db k' = Some n → is_Some (md_node_addr_opt (metadata n)) →
    ∃ n', (if decide (k = k') then Some r' else node_by_key db k') = Some n' ∧
          is_Some (md_node_addr_opt (metadata n'))) as Hkeep.
  { intros k' n Hn [a Ha]. case_decide; [|eauto]. subst k'.
    rewrite Hr in Hn; injection Hn as <-. naive_solver. }
  assert (∀ x, node_by_key (with_nodes db (<[k := r']> (by_public_key db))) (this_node db)
               = Some x → root_record_ok db x) as Hx.
  { intros x. rewrite Hl. case_decide as E; [naive_solver|].
    by apply root_record_ok_inv. }
  constructor; simpl.
  - rewrite Hl. case_decide; [eauto|apply Hinv].
  - intros k' n. rewrite Hl. case_decide; [naive_solver|apply Hinv].
  - intros ip k' (n & Hn & Hip)%(inv_ips _ Hinv). rewrite Hl.
    case_decide as E; [|eauto]. subst k'. rewrite Hr in Hn; injection Hn as <-.
    destruct (md_node_addr_opt (metadata r)) as [a|] eqn:Ea; [|done].
    destruct (Haddr a) as (a' & Ha' & Hip'); [done|].
    exists r'. split; [done|]. rewrite Ha'. simpl in *. congruence.
  - intros x Hlx. by apply Hx.
  - intros x k' Hlx Hk'. rewrite Hl. destruct (Hx x Hlx) as (_ & Hn & _).
    destruct (Hn k' Hk') as (n & Hn' & Ha). by eapply Hkeep.
  - intros x Hlx. by apply Hx.
Qed.

(** *** Half neighbors of the local node *)

Lemma add_half_neighbor_key_ok r k :
  k ≠ public_key r →
  add_half_neighbor_key r k =
    Ok (with_inner r (with_neighbors (inner r) ({[k]} ∪ inner_neighbors (inner r)))).
Proof. intros H. unfold add_half_neighbor_key. by rewrite decide_False. Qed.

(** The record [add_half_neighbor] stores for the local node. *)
Definition neighbored r k now : NodeRecord :=
  with_metadata (with_inner r (with_neighbors (inner r) ({[k]} ∪ inner_neighbors (inner r))))
    (with_last_update (metadata r) now).

Lemma add_half_neighbor_cases db k now r :
  db_inv db → node_by_key db (this_node db) = Some r →
  add_half_neighbor db k now =
    if decide (node_by_key db k = None) then Err (NodeKeyNotFound k)
    else if decide (k ∈ half_neighbor_keys r) then Ok (false, db)
    else if decide (k = this_node db) then Err (SelfNeighborAttempt k)
    else Ok (true, with_nodes db (<[this_node db := neighbored r k now]> (by_public_key db))).
Proof.
  intros Hinv Hr. unfold add_half_neighbor, db_has_half_neighbor. rewrite Hr.
  case_decide as Hin; rewrite elem_of_keys in Hin.
  { by rewrite decide_True by by apply eq_None_not_Some. }
  rewrite decide_False by (destruct Hin; congruence). unfold has_half_neighbor, half_neighbor_keys.
  destruct (decide (k ∈ inner_neighbors (inner r))) as [Hh|Hh];
    [by rewrite bool_decide_true | rewrite bool_decide_false by done].
  unfold add_half_neighbor_key. rewrite (inv_keys _ Hinv _ _ Hr).
  by destruct (decide (k = this_node db)) as [->|].
Qed.

Lemma neighbored_inv db k now r n :
  db_inv db → node_by_key db (this_node db) = Some r → k ≠ this_node db →
  node_by_key db k = Some n → is_Some (md_node_addr_opt (metadata n)) →
  db_inv (with_nodes db (<[this_node db := neighbored r k now]> (by_public_key db))).
Proof.
  intros Hinv Hr Hne Hn Ha.
  destruct (root_record_ok_inv _ _ Hinv Hr) as (Hself & Hnb & Hacc).
  apply (set_record_inv _ _ r); [done|done|exact (inv_keys _ Hinv _ _ Hr)|by eauto|].
  intros _. split_and!; [|intros k'|done];
    unfold half_neighbor_keys in *; simpl; [set_solver|].
  intros [->%elem_of_singleton|Hk']%elem_of_union; eauto.
Qed.

(** A change of the local record that keeps its key, neighbors, address and
    connection mode. *)
Definition same_wiring r r' : Prop :=
  public_key r' = public_key r ∧ half_neighbor_keys r' = half_neighbor_keys r ∧
  accepts_connections r' = accepts_connections r ∧
  md_node_addr_opt (metadata r') = md_node_addr_opt (metadata r).

Lemma same_wiring_inv db r r' :
  db_inv db → node_by_key db (this_node db) = Some r → same_wiring r r' →
  db_inv (with_nodes db (<[this_node db := r']> (by_public_key db))).
Proof.
  intros Hinv Hr (Hk & Hh & Hacc & Ha).
  apply (set_record_inv _ _ r); [done|done|rewrite Hk; by apply (inv_keys _ Hinv)| |].
  - intros a ?. exists a. split; congruence.
  - intros _. destruct (root_record_ok_inv _ _ Hinv Hr) as (? & ? & ?).
    unfold root_record_ok. by rewrite Hh, Hacc, Ha.
Qed.

Lemma root_mut_inv db (f : NodeRecord → outcome NodeRecord) :
  db_inv db →
  (∀ r, node_by_key db (this_node db) = Some r → returns (f r) (same_wiring r)) →
  returns (root_mut db f) (λ db', db_inv db' ∧ this_node db' = this_node db ∧
    by_ip_addr db' = by_ip_addr db ∧
    (∀ k, k ≠ this_node db → node_by_key db' k = node_by_key db k) ∧
    ∃ r r', node_by_key db (this_node db) = Some r ∧ f r = Ret r' ∧
            node_by_key db' (this_node db) = Some r').
Proof.
  intros Hinv Hf. unfold root_mut. destruct (root_ret _ Hinv) as (r & -> & Hr). simpl.
  specialize (Hf r Hr). destruct (f r) as [r'|] eqn:Efr; [|done]. simpl in *.
  split_and!; [by eapply same_wiring_inv|done|done| |].
  - intros k Hk. rewrite lookup_set_record. by rewrite decide_False.
  - exists r, r'. split_and!; [done..|]. rewrite lookup_set_record. by rewrite decide_True.
Qed.

Lemma increment_version_wiring r : same_wiring r (increment_version r).
Proof. done. Qed.

(** *** Removing nodes *)

Lemma lookup_remove_node db k k' :
  node_by_key (remove_node db k) k' = if decide (k = k') then None else node_by_key db k'.
Proof.
  unfold remove_node, node_by_key. destruct (_ ≫= _); simpl; apply lookup_delete.
Qed.

Lemma this_node_remove_node db k : this_node (remove_node db k) = this_node db.
Proof. unfold remove_node. by destruct (_ ≫= _). Qed.

Lemma remove_node_inv db k r :
  db_inv db → node_by_key db (this_node db) = Some r →
  k ≠ this_node db → k ∉ half_neighbor_keys r → db_inv (remove_node db k).
Proof.
  intros Hinv Hr Hne Hnb. pose proof (lookup_remove_node db k) as Hl.
  assert (node_by_key (remove_node db k) (this_node db) = Some r) as Hroot.
  { rewrite Hl. by rewrite decide_False. }
  constructor; rewrite ?this_node_remove_node.
  - by rewrite Hroot.
  - intros k' n. rewrite Hl. case_decide; [done|apply Hinv].
  - intros ip k' Hip.
    assert (by_ip_addr db !! ip = Some k' ∧
            ∀ n, node_by_key db k = Some n →
                 na_ip_addr <$> md_node_addr_opt (metadata n) ≠ Some ip) as [Hip' Hk].
    { revert Hip. unfold remove_node, node_addr_opt.
      destruct (node_by_key db k) as [n|] eqn:En; simpl; [|done].
      destruct (md_node_addr_opt (metadata n)) as [a|] eqn:Ea; simpl.
      - rewrite lookup_delete. case_decide as Hip_ne; [done|]. split; [done|].
        intros ? [= <-]. rewrite Ea. intros [= E]. exact (Hip_ne E).
      - split; [done|]. intros ? [= <-]. by rewrite Ea. }
    destruct (inv_ips _ Hinv _ _ Hip') as (n & Hn & Hnip).
    exists n. rewrite Hl. rewrite decide_False; [done|]. intros <-. by eapply Hk.
  - intros r'. rewrite Hroot. intros [= <-]. by apply (inv_self _ Hinv).
  - intros r' k'. rewrite Hroot. intros [= <-] Hk'.
    destruct (inv_neighbors _ Hinv _ _ Hr Hk') as (n & Hn & Ha).
    exists n. rewrite Hl. rewrite decide_False; [done|]. naive_solver.
  - intros r'. rewrite Hroot. intros [= <-]. by apply (inv_root_addr _ Hinv).
Qed.

(** Removing a list of nodes, none of them the local node or one of its half
    neighbors. *)
Lemma remove_nodes_inv (l : list PublicKey) db r :
  db_inv db → node_by_key db (this_node db) = Some r →
  (∀ k, k ∈ l → k ≠ this_node db ∧ k ∉ half_neighbor_keys r) →
  db_inv (foldl remove_node db l) ∧ this_node (foldl remove_node db l) = this_node db ∧
  ∀ k, node_by_key (foldl remove_node db l) k =
       if decide (k ∈ l) then None else node_by_key db k.
Proof.
  revert db. induction l as [|k l IH]; intros db Hinv Hr Hl; simpl.
  { split_and!; [done..|]. done. }
  destruct (Hl k) as [Hne Hnb]; [set_solver|].
  destruct (IH (remove_node db k)) as (Hinv' & Ht & Hlk).
  - by eapply remove_node_inv.
  - rewrite this_node_remove_node, lookup_remove_node. by rewrite decide_False.
  - rewrite this_node_remove_node. set_solver.
  - split_and!; [done|by rewrite Ht, this_node_remove_node|]. intros k'.
    rewrite Hlk, lookup_remove_node.
    destruct (decide (k' ∈ l)); [by rewrite decide_True by set_solver|].
    destruct (decide (k = k')) as [->|]; [by rewrite decide_True by set_solver|].
    by rewrite decide_False by set_solver.
Qed.

Lemma elem_of_referenced db r k :
  node_by_key db (this_node db) = Some r →
  returns (referenced_node_keys db) (λ s,
    k ∈ s ↔ k = public_key r ∨
            ∃ k' n, node_by_key db k' = Some n ∧ k ∈ half_neighbor_keys n).
Proof.
  intros Hr. unfold referenced_node_keys, root. rewrite Hr. simpl.
  rewrite elem_of_union, elem_of_singleton, elem_of_union_list.
  setoid_rewrite list_elem_of_fmap. setoid_rewrite list_elem_of_omap.
  setoid_rewrite elem_of_hash_iter. setoid_rewrite elem_of_keys.
  unfold half_neighbor_keys. split; [naive_solver|].
  intros [?|(k' & n & Hn & Hk)]; [by left|right]. exists (inner_neighbors (inner n)).
  split; [|done]. exists n. split; [done|]. exists k'. split; [by eexists|done].
Qed.

(** *** The operations keep the invariant *)

Lemma cull_dead_nodes_returns db now :
  db_inv db →
  returns (cull_dead_nodes db now) (λ db', db_inv db' ∧ this_node db' = this_node db ∧
    ∀ s, referenced_node_keys db = Ret s →
      ∀ k, node_by_key db' k =
           if decide (k ∈ nodes_to_cull db s now) then None else node_by_key db k).
Proof.
  intros Hinv. destruct (root_ret _ Hinv) as (r & _ & Hr). unfold cull_dead_nodes.
  destruct (referenced_node_keys db) as [s|] eqn:Es; simpl.
  2: { unfold referenced_node_keys, root in Es. by rewrite Hr in Es. }
  assert (∀ k, k ∈ s ↔ k = public_key r ∨
            ∃ k' n, node_by_key db k' = Some n ∧ k ∈ half_neighbor_keys n) as Hs.
  { intros k. pose proof (elem_of_referenced db r k Hr) as H'. by rewrite Es in H'. }
  destruct (remove_nodes_inv (btree_iter (nodes_to_cull db s now)) db r) as (? & ? & Hl);
    [done..| |].
  - intros k. rewrite elem_of_btree_iter. unfold nodes_to_cull. rewrite elem_of_filter, Hs.
    rewrite (inv_keys _ Hinv _ _ Hr). intros [[Hk _] _]. split; [naive_solver|].
    intros Hn. apply Hk. right. eauto.
  - split_and!; [done..|]. intros ? [= <-] k. rewrite Hl.
    destruct (decide (k ∈ nodes_to_cull db s now)) as [H'|H'].
    + rewrite decide_True; [done|]. by apply elem_of_btree_iter.
    + rewrite decide_False; [done|]. by rewrite elem_of_btree_iter.
Qed.

(** Forgetting the address of a node the local node is not connected to. *)
Lemma forget_addr_inv db k r root_rec :
  db_inv db → node_by_key db k = Some r → k ≠ this_node db →
  node_by_key db (this_node db) = Some root_rec → k ∉ half_neighbor_keys root_rec →
  let db' := mkDb (this_node db) (<[k := unset_node_addr r]> (by_public_key db))
               (match md_node_addr_opt (metadata r) with
                | Some a => delete (na_ip_addr a) (by_ip_addr db)
                | None => by_ip_addr db
                end) in
  db_inv db' ∧ ∀ ip, by_ip_addr db' !! ip ≠ Some k.
Proof.
  intros Hinv Hk Hne Hroot Hnk db'.
  assert (∀ k', node_by_key db' k' = if decide (k = k') then Some (unset_node_addr r)
            else node_by_key db k') as Hl by (intros; apply lookup_insert).
  assert (∀ ip k', by_ip_addr db' !! ip = Some k' →
            k' ≠ k ∧ by_ip_addr db !! ip = Some k') as Hips.
  { intros ip k' Hip. assert (by_ip_addr db !! ip = Some k') as Hip'.
    { revert Hip. unfold db'. simpl. destruct (md_node_addr_opt _); simpl; [|done].
      rewrite lookup_delete. by case_decide. }
    split; [|done]. intros ->. destruct (inv_ips _ Hinv _ _ Hip') as (n & Hn & Ha).
    rewrite Hk in Hn; injection Hn as <-. revert Hip. unfold db'. simpl.
    destruct (md_node_addr_opt (metadata r)) as [a|]; simpl in *; [|done].
    injection Ha as <-. by rewrite lookup_delete_eq. }
  assert (node_by_key db' (this_node db) = Some root_rec) as Hroot'
    by by rewrite Hl, decide_False.
  destruct (root_record_ok_inv _ _ Hinv Hroot) as (Hself & Hnb & Hra).
  split; [|intros ip H; by apply Hips in H as [? _]].
  constructor; change (this_node db') with (this_node db); rewrite ?Hroot'.
  - done.
  - intros k' n. rewrite Hl. case_decide; [|apply Hinv].
    intros [= <-]. subst. exact (inv_keys _ Hinv _ _ Hk).
  - intros ip k' [Hk' (n & Hn & Ha)%(inv_ips _ Hinv)]%Hips. rewrite Hl.
    rewrite decide_False by done. eauto.
  - by intros ? [= <-].
  - intros ? k' [= <-] Hk'. rewrite Hl. rewrite decide_False by set_solver. by apply Hnb.
  - by intros ? [= <-].
Qed.

(** [unset_node_addr] of a node that is not the local one, together with the
    removal of its key from the local node's half neighbors. *)
Lemma remove_neighbor_eq db k r root_rec :
  node_by_key db k = Some r → k ≠ this_node db →
  node_by_key db (this_node db) = Some root_rec →
  let removed := bool_decide (k ∈ half_neighbor_keys root_rec) in
  let root1 := (remove_half_neighbor_key root_rec k).2 in
  remove_neighbor db k = Ret (Ok (removed,
    mkDb (this_node db)
      (<[this_node db := if removed then increment_version root1 else root1]>
         (<[k := unset_node_addr r]> (by_public_key db)))
      (match md_node_addr_opt (metadata r) with
       | Some a => delete (na_ip_addr a) (by_ip_addr db)
       | None => by_ip_addr db
       end))).
Proof.
  intros Hk Hne Hroot. unfold remove_neighbor. rewrite Hk. unfold node_addr_opt.
  assert (∀ ips, root (mkDb (this_node db) (<[k := unset_node_addr r]> (by_public_key db)) ips)
            = Ret root_rec) as Hrt.
  { intros ips. unfold root, node_by_key. simpl. rewrite lookup_insert_ne by done.
    unfold node_by_key in Hroot. by rewrite Hroot. }
  assert (∀ m ips x, root (mkDb (this_node db) (<[this_node db := x]> m) ips) = Ret x) as Hrt'.
  { intros. unfold root, node_by_key. simpl. by rewrite lookup_insert_eq. }
  unfold root_mut, with_nodes, with_ips, half_neighbor_keys in *. simpl.
  destruct (md_node_addr_opt (metadata r)) as [a|]; simpl; rewrite Hrt; simpl;
    case_bool_decide; simpl; rewrite ?Hrt'; simpl; by rewrite ?insert_insert_eq.
Qed.
End facts.

(** ** Deciding the invariant *)
Definition db_invb (db : NeighborhoodDatabase) : bool :=
  match node_by_key db (this_node db) with
  | None => false
  | Some r =>
      bool_decide (map_Forall (λ k n, public_key n = k) (by_public_key db)) &&
      bool_decide (map_Forall (λ ip k,
          (n ← node_by_key db k; na_ip_addr <$> md_node_addr_opt (metadata n)) = Some ip)
        (by_ip_addr db)) &&
      bool_decide (this_node db ∉ half_neighbor_keys r) &&
      bool_decide (set_Forall (λ k,
          is_Some (n ← node_by_key db k; md_node_addr_opt (metadata n))) (half_neighbor_keys r)) &&
      (negb (accepts_connections r) || bool_decide (is_Some (md_node_addr_opt (metadata r))))
  end.

Lemma db_invb_sound db : db_invb db = true → db_inv db.
Proof.
  unfold db_invb. destruct (node_by_key db (this_node db)) as [r|] eqn:Hr; [|done].
  rewrite !andb_true_iff, !bool_decide_eq_true. intros ((((Hk & Hip) & Hs) & Hn) & Ha).
  constructor; rewrite ?Hr.
  - done.
  - intros k n. apply Hk.
  - intros ip k H%Hip. apply bind_Some in H as (n & ? & ?). eauto.
  - by intros ? [= <-].
  - intros ? k [= <-] H%Hn. destruct H as [a (n & ? & ?)%bind_Some]. eauto.
  - intros ? [= <-] Hacc. rewrite Hacc in Ha. by apply bool_decide_eq_true in Ha.
Qed.

(** A database that holds only the local node, without neighbors. *)
Lemma fresh_root_inv r :
  half_neighbor_keys r = ∅ →
  (accepts_connections r = true → is_Some (md_node_addr_opt (metadata r))) →
  db_inv (add_arbitrary_node (mkDb (public_key r) ∅ ∅) r).
Proof.
  intros Hh Ha. pose proof (lookup_add_arbitrary_node (mkDb (public_key r) ∅ ∅) r) as Hl.
  assert (∀ r', node_by_key (add_arbitrary_node (mkDb (public_key r) ∅ ∅) r) (public_key r)
                = Some r' → r' = r) as Hr.
  { intros r'. rewrite Hl, decide_True by done. congruence. }
  constructor; simpl.
  - rewrite Hl, decide_True; eauto.
  - intros k r'. rewrite Hl. case_decide; [naive_solver|done].
  - intros ip k. unfold node_addr_opt.
    destruct (md_node_addr_opt (metadata r)) as [a|] eqn:Ea; [|done]. simpl.
    rewrite lookup_insert. case_decide as E; [|done]. intros [= <-].
    exists r. rewrite Hl, decide_True, Ea by done. by rewrite <-E.
  - intros r' ->%Hr. rewrite Hh. set_solver.
  - intros r' k ->%Hr. rewrite Hh. set_solver.
  - intros r' ->%Hr. apply Ha.
Qed.

(** ** Theorems *)
Section theorems.
Context `{HO : HashOrder} `{CBOR : SerdeCbor} `{CL : CountryLookup}.

(** [NeighborhoodDatabase::new] does not panic, and yields a database that
    satisfies the invariant and holds exactly the local node's record, at
    version 0, with no neighbors, the address and rates of the mode, and
    gossip signed over that record. *)
Theorem database_new_spec mode wallet (c : CryptDE) `{!CryptDEOk c} now :
  returns (NeighborhoodDatabase_new mode wallet c now) (λ db,
    db_inv db ∧ this_node db = cryptde_public_key c ∧ keys db = {[cryptde_public_key c]} ∧
    ∃ r, node_by_key db (cryptde_public_key c) = Some r ∧
      version r = 0 ∧ half_neighbor_keys r = ∅ ∧ rate_pack r = mode_rate_pack mode ∧
      accepts_connections r = mode_accepts_connections mode ∧
      md_node_addr_opt (metadata r) = mode_node_addr_opt mode ∧
      from_slice (signed_gossip r) = Some (inner r)).
Proof.
  unfold NeighborhoodDatabase_new, NodeRecord_new. ret_step.
  eapply returns_mono; [eauto with outcome|]. intros r (Hi & Hm & _). ret_step.
  eapply (returns_mono _ (λ r', inner r' = inner r ∧
             md_node_addr_opt (metadata r') = mode_node_addr_opt mode)).
  { unfold set_node_addr. rewrite Hm.
    destruct mode; simpl; try (rewrite Hm); auto. by autorewrite with addr. }
  intros r' [Hi' Ha]. ret_step. eapply returns_mono; [eauto with outcome|].
  intros n (Hn & Hmn & Hsg & _). rewrite Hi', Hi in Hn, Hsg.
  assert (public_key n = cryptde_public_key c) as Hpk by (unfold public_key; by rewrite Hn).
  assert (half_neighbor_keys n = ∅) as Hnh by (unfold half_neighbor_keys; by rewrite Hn).
  assert (accepts_connections n = mode_accepts_connections mode) as Hac
    by (unfold accepts_connections; by rewrite Hn).
  rewrite <-Hpk. split_and!; [|done| |].
  - apply fresh_root_inv; [done|]. rewrite Hac, Hmn, Ha. by destruct mode.
  - unfold keys. simpl. rewrite dom_insert_L, dom_empty_L. by rewrite (right_id_L ∅ (∪)).
  - exists n. rewrite lookup_add_arbitrary_node, decide_True by done.
    split_and!; try done; [unfold version|unfold rate_pack|congruence|]; by rewrite Hn.
Qed.

(** [remove_neighbor] of a known node other than the local one does not
    panic and keeps the invariant.  It forgets that node's address and its
    entry in the IP index, drops it from the local node's half neighbors,
    bumps the local version exactly when it was one, reports that, and
    leaves every other record alone. *)
Theorem remove_neighbor_spec db k r root_rec :
  db_inv db → node_by_key db k = Some r → k ≠ this_node db →
  node_by_key db (this_node db) = Some root_rec →
  returns (remove_neighbor db k) (λ res, ∃ b db', res = Ok (b, db') ∧
    db_inv db' ∧ b = bool_decide (k ∈ half_neighbor_keys root_rec) ∧
    node_by_key db' k = Some (unset_node_addr r) ∧
    (∀ ip, by_ip_addr db' !! ip ≠ Some k) ∧
    (∃ root', node_by_key db' (this_node db') = Some root' ∧
       half_neighbor_keys root' = half_neighbor_keys root_rec ∖ {[k]} ∧
       version root' = if b then u32 (version root_rec + 1) else version root_rec) ∧
    (∀ k', k' ≠ k → k' ≠ this_node db → node_by_key db' k' = node_by_key db k')).
Proof.
  intros Hinv Hk Hne Hroot. rewrite (remove_neighbor_eq db k r root_rec) by done.
  set (b := bool_decide _). simpl. eexists b, _. split; [done|].
  set (root' := if b then _ else _).
  assert (half_neighbor_keys root' = half_neighbor_keys root_rec ∖ {[k]} ∧
          accepts_connections root' = accepts_connections root_rec ∧
          public_key root' = public_key root_rec ∧ metadata root' = metadata root_rec ∧
          version root' = if b then u32 (version root_rec + 1) else version root_rec)
    as (Hh & Hacc & Hpk & Hmd & Hv) by (by unfold root'; destruct b).
  rewrite insert_insert_ne by done.
  set (db1 := with_nodes db (<[this_node db := root']> (by_public_key db))).
  assert (∀ k', node_by_key db1 k' = if decide (this_node db = k') then Some root'
            else node_by_key db k') as Hl1 by apply lookup_set_record.
  assert (db_inv db1) as Hinv1.
  { destruct (root_record_ok_inv _ _ Hinv Hroot) as (Hself & Hnb & Hra).
    apply (set_record_inv _ _ root_rec); [done|done|rewrite Hpk; by apply (inv_keys _ Hinv)| |].
    - rewrite Hmd. eauto.
    - intros _. unfold root_record_ok. rewrite Hh, Hacc, Hmd.
      split_and!; [set_solver| |done]. intros k' Hk'. apply Hnb. set_solver. }
  destruct (forget_addr_inv db1 k r root') as (Hinv' & Hips); [done| |done| |set_solver|].
  { by rewrite Hl1, decide_False. }
  { by rewrite Hl1, decide_True. }
  split_and!; [exact Hinv'|done| |exact Hips| |].
  - unfold node_by_key. simpl. by rewrite lookup_insert_eq.
  - exists root'. split_and!; [|done..]. unfold node_by_key. simpl.
    by rewrite lookup_insert_ne, lookup_insert_eq by done.
  - intros k' ??. unfold node_by_key. simpl. by rewrite !lookup_insert_ne by done.
Qed.

(** [cull_dead_nodes] does not panic, keeps the invariant, and removes
    exactly the nodes that no record names as a neighbor, that are not the
    local node, and that were last updated at or before [now] - 30 s
    ([u32] subtraction); every other record is kept as it is. *)
Theorem cull_dead_nodes_spec db now :
  db_inv db →
  returns (cull_dead_nodes db now) (λ db', db_inv db' ∧
    ∀ k, node_by_key db' k = None ↔
      node_by_key db k = None ∨
      (k ≠ this_node db ∧
       (∀ k' n, node_by_key db k' = Some n → k ∉ half_neighbor_keys n) ∧
       ∃ r, node_by_key db k = Some r ∧
            last_updated r ≤ u32 (now - ISOLATED_NODE_GRACE_PERIOD_SECS)) ) .
Proof.
  intros Hinv. eapply returns_mono; [by apply cull_dead_nodes_returns|].
  intros db' (Hinv' & _ & Hl). split; [done|]. intros k.
  destruct (root_ret _ Hinv) as (r & _ & Hr).
  pose proof (elem_of_referenced db r k Hr) as Hs.
  destruct (referenced_node_keys db) as [s|]; [|done]. simpl in Hs.
  rewrite (inv_keys _ Hinv _ _ Hr) in Hs. rewrite (Hl s eq_refl).
  assert (k ∈ nodes_to_cull db s now ↔ k ∉ s ∧ ∃ r, node_by_key db k = Some r ∧
            last_updated r ≤ u32 (now - ISOLATED_NODE_GRACE_PERIOD_SECS)) as Hc.
  { unfold nodes_to_cull. rewrite elem_of_filter, elem_of_keys.
    destruct (node_by_key db k) as [n|]; [|naive_solver].
    rewrite Z.leb_le. split; [naive_solver|]. intros (? & ? & [= <-] & ?). eauto. }
  rewrite Hs in Hc. destruct (decide (k ∈ nodes_to_cull db s now)) as [H|H]; naive_solver.
Qed.

(** [add_node] rejects a record whose address has no ports, and otherwise
    one whose key is already present; in every other case it files the record
    under its key, indexes its IP address, changes no other record, and
    keeps the invariant. *)
Theorem add_node_spec db r :
  db_inv db →
  match add_node db r with
  | Err EmptyPortList => ∃ a, md_node_addr_opt (metadata r) = Some a ∧ na_ports a = []
  | Err (NodeKeyCollision k) => k = public_key r ∧ is_Some (node_by_key db k) ∧
      ∀ a, md_node_addr_opt (metadata r) = Some a → na_ports a ≠ []
  | Err _ => False
  | Ok (k, db') => k = public_key r ∧ node_by_key db k = None ∧ db_inv db' ∧
      node_by_key db' k = Some r ∧
      (∀ a, md_node_addr_opt (metadata r) = Some a → node_by_ip db' (na_ip_addr a) = Some r) ∧
      ∀ k', k' ≠ k → node_by_key db' k' = node_by_key db k'
  end.
Proof.
  intros Hinv. unfold add_node, check_for_ports, node_addr_opt, check_for_collision.
  assert (∀ a, md_node_addr_opt (metadata r) = Some a → na_ports (NodeAddr_clone a) ≠ [] →
      node_by_ip (add_arbitrary_node db r) (na_ip_addr a) = Some r) as Hip.
  { intros a Ha _. unfold node_by_ip, add_arbitrary_node, node_addr_opt. rewrite Ha. simpl.
    rewrite lookup_insert_eq. unfold node_by_key. simpl. apply lookup_insert_eq. }
  assert (∀ P : Prop, P → node_by_key db (public_key r) = None →
      public_key r = public_key r ∧ node_by_key db (public_key r) = None ∧
      db_inv (add_arbitrary_node db r) ∧
      node_by_key (add_arbitrary_node db r) (public_key r) = Some r ∧ P ∧
      ∀ k', k' ≠ public_key r →
        node_by_key (add_arbitrary_node db r) k' = node_by_key db k') as Hok.
  { intros P HP Hn. split_and!; [done|done|by apply add_arbitrary_node_inv| |done|].
    - by rewrite lookup_add_arbitrary_node, decide_True.
    - intros k' ?. by rewrite lookup_add_arbitrary_node, decide_False. }
  destruct (md_node_addr_opt (metadata r)) as [a|] eqn:Ea; simpl.
  - destruct (decide _) as [Hp|Hp].
    { exists a. split; [done|]. by apply NodeAddr_clone_no_ports. }
    destruct (decide _) as [Hin|Hin]; rewrite elem_of_keys in Hin.
    + split_and!; [done..|]. intros ? [= <-] E. by apply Hp, NodeAddr_clone_no_ports.
    + apply Hok; [|by apply eq_None_not_Some]. intros ? [= <-]. by apply Hip.
  - destruct (decide _) as [Hin|Hin]; rewrite elem_of_keys in Hin; [done|].
    apply Hok; [done|]. by apply eq_None_not_Some.
Qed.

(** the gossip-target degree of a node never exceeds the number of
    neighbors its own record names: accepting full neighbors and unknown
    neighbors are counted once each. *)
Theorem gossip_target_degree_bound db k r :
  node_by_key db k = Some r →
  (gossip_target_degree db k ≤ size (half_neighbor_keys r))%nat.
Proof.
  intros Hr. unfold gossip_target_degree. rewrite Hr. unfold full_neighbors.
  assert (length (filter (λ n, accepts_connections n = true)
            (omap (node_by_key db) (hash_iter (full_neighbor_keys r db)))) ≤
          size (full_neighbor_keys r db))%nat as H1.
  { etransitivity; [apply length_filter|]. rewrite <-length_hash_iter.
    apply length_omap_le. }
  set (un := filter (λ k', k' ∉ keys db) (half_neighbor_keys r)).
  assert (full_neighbor_keys r db ∪ un ⊆ half_neighbor_keys r) as Hsub.
  { intros x. unfold un. rewrite elem_of_union, elem_of_full_neighbor_keys, elem_of_filter.
    naive_solver. }
  assert (full_neighbor_keys r db ## un) as Hdis.
  { intros x. unfold un. rewrite elem_of_full_neighbor_keys, elem_of_filter, elem_of_keys.
    naive_solver. }
  apply subseteq_size in Hsub. rewrite size_union in Hsub by done. lia.
Qed.

(** [new_public_ip] does not panic when the local node has an address; it
    replaces the address's IP and keeps its ports (sorted, without
    repetitions), points the IP index at the local node, and keeps the
    invariant. *)
Theorem new_public_ip_spec db ip r a :
  db_inv db → node_by_key db (this_node db) = Some r →
  md_node_addr_opt (metadata r) = Some a →
  returns (new_public_ip db ip) (λ db', db_inv db' ∧
    (∃ r', node_by_ip db' ip = Some r' ∧ node_by_key db' (this_node db) = Some r' ∧
       inner r' = inner r ∧
       md_node_addr_opt (metadata r') = Some (NodeAddr_new ip (na_ports a))) ∧
    ∀ k, k ≠ this_node db → node_by_key db' k = node_by_key db k).
Proof.
  intros Hinv Hr Ha. unfold new_public_ip, root. rewrite Hr. simpl. rewrite Ha. simpl.
  assert (public_key r = this_node db) as Hk by by apply (inv_keys _ Hinv).
  assert (NodeAddr_new ip (dedup (merge_sort Z.le (na_ports a))) = NodeAddr_new ip (na_ports a)) as ->.
  { exact (f_equal (λ x, mkNodeAddr ip (na_ports x)) (NodeAddr_clone_idem a)). }
  set (r' := with_metadata _ _). rewrite Hk. set (db' := mkDb _ _ _).
  assert (∀ k, node_by_key db' k = if decide (this_node db = k) then Some r'
            else node_by_key db k) as Hl by (intros; apply lookup_insert).
  assert (node_by_key db' (this_node db) = Some r') as Hr' by by rewrite Hl, decide_True.
  destruct (root_record_ok_inv _ _ Hinv Hr) as (Hself & Hnb & Hra).
  split_and!.
  - constructor; change (this_node db') with (this_node db); rewrite ?Hr'.
    + done.
    + intros k n. rewrite Hl. case_decide; [naive_solver|apply Hinv].
    + intros ip' k. unfold db'. simpl. rewrite lookup_insert. case_decide as E.
      { intros [= <-]. exists r'. simpl in Hr'. by subst. }
      rewrite lookup_delete. case_decide as E'; [done|].
      intros (n & Hn & Hnip)%(inv_ips _ Hinv). rewrite Hl.
      rewrite decide_False; [eauto|]. intros <-. simplify_eq. rewrite Ha in Hnip.
      injection Hnip as E''. by apply E'.
    + by intros ? [= <-].
    + intros ? k [= <-] Hk'. rewrite Hl. rewrite decide_False; [by apply Hnb|]. intros <-. done.
    + intros ? [= <-] _. by eexists.
  - exists r'. split_and!; [|done..]. unfold node_by_ip, db'. simpl.
    by rewrite lookup_insert_eq.
  - intros k ?. by rewrite Hl, decide_False.
Qed.
End theorems.

(** ** A concrete neighborhood and the witnesses *)

(** Node 1 is local; 1 and 2 are full neighbors, 2 names the unknown node 4, and
    nobody names node 3. *)
Definition sample_db : NeighborhoodDatabase :=
  mkDb (sample_key 1)
    (list_to_map [(sample_key 1, sample_record 1 [2] 7 true);
                  (sample_key 2, sample_record 2 [1; 4] 3 true);
                  (sample_key 3, sample_record 3 [] 0 false)])
    (list_to_map [(V4 16909057, sample_key 1); (V4 16909058, sample_key 2)]).

Lemma sample_db_inv : db_inv sample_db.
Proof. apply db_invb_sound. vm_compute. reflexivity. Qed.

Lemma database_new_spec_witness :
  ∃ db, @NeighborhoodDatabase_new sample_cbor sample_lookup
          (Standard (sample_addr 1) [] sample_rates) (WalletAddress [1])
          (sample_cryptde (sample_key 1)) 1000 = Ret db ∧ db_inv db.
Proof.
  pose proof (sample_cryptde_ok (sample_key 1)).
  destruct (returns_inv _ _ (@database_new_spec sample_cbor sample_lookup
    (Standard (sample_addr 1) [] sample_rates) (WalletAddress [1])
    (sample_cryptde (sample_key 1)) _ 1000)) as (db & ? & ? & _). eauto.
Defined.

Lemma remove_neighbor_spec_witness :
  ∃ db', remove_neighbor sample_db (sample_key 2) = Ret (Ok (true, db')) ∧ db_inv db'.
Proof.
  destruct (returns_inv _ _ (remove_neighbor_spec sample_db (sample_key 2)
    (sample_record 2 [1; 4] 3 true) (sample_record 1 [2] 7 true) sample_db_inv
    eq_refl ltac:(done) eq_refl)) as (res & H & b & db' & -> & Hi & -> & _).
  exists db'. split; [exact H|done].
Defined.

Lemma cull_dead_nodes_spec_witness :
  ∃ db', @cull_dead_nodes elements_order sample_db 2000 = Ret db' ∧ db_inv db' ∧
         node_by_key db' (sample_key 3) = None.
Proof.
  destruct (returns_inv _ _ (@cull_dead_nodes_spec elements_order sample_db 2000 sample_db_inv))
    as (db' & H & Hi & Hk).
  exists db'. split_and!; [done|done|].
  revert H. vm_compute. by intros [= <-].
Defined.

Lemma add_node_spec_witness :
  add_node sample_db (sample_record 4 [2] 0 true) =
    Ok (sample_key 4, add_arbitrary_node sample_db (sample_record 4 [2] 0 true)) ∧
  db_inv (add_arbitrary_node sample_db (sample_record 4 [2] 0 true)).
Proof.
  pose proof (add_node_spec sample_db (sample_record 4 [2] 0 true) sample_db_inv) as H.
  assert (add_node sample_db (sample_record 4 [2] 0 true) =
    Ok (sample_key 4, add_arbitrary_node sample_db (sample_record 4 [2] 0 true))) as E
    by reflexivity.
  rewrite E in H. split; [exact E|apply H].
Defined.

Lemma gossip_target_degree_bound_witness :
  @gossip_target_degree elements_order sample_db (sample_key 2) = 2%nat ∧ (2 ≤ 2)%nat.
Proof.
  split; [vm_compute; reflexivity|].
  exact (@gossip_target_degree_bound elements_order sample_db (sample_key 2)
           (sample_record 2 [1; 4] 3 true) eq_refl).
Defined.

Lemma new_public_ip_spec_witness :
  ∃ db', new_public_ip sample_db (V4 99) = Ret db' ∧ db_inv db'.
Proof.
  destruct (returns_inv _ _ (new_public_ip_spec sample_db (V4 99) (sample_record 1 [2] 7 true)
    (sample_addr 1) sample_db_inv eq_refl eq_refl)) as (db' & ? & ? & _). eauto.
Defined.
