(* ===== verification/Gossip.v ===== *)
(** * Gossip: building it from the database and reading it back

    Models [GossipBuilder] and [Gossip_0v1] of
    [node/src/neighborhood/gossip.rs] and [GossipProducerReal] of
    [node/src/neighborhood/gossip_producer.rs].  The DOT-graph rendering of
    gossip, used in log messages only, is not modelled. *)

From S2P Require Import Prelude.
From S2P Require Import NodeAddr.
From S2P Require Import NodeRecord.
From S2P Require Import NeighborhoodDatabase.

Record Gossip_0v1 := mkGossip { node_records : list GossipNodeRecord }.

#[export] Instance Gossip_eq_dec : EqDecision Gossip_0v1.
Proof. solve_decision. Defined.

(** [GossipBuilder]: the gossip so far and the keys in it. *)
Record GossipBuilder := mkBuilder {
  gossip_so_far : list GossipNodeRecord;
  keys_so_far : gset PublicKey
}.

Definition builder_new : GossipBuilder := mkBuilder [] ∅.

Definition builder_node (db : NeighborhoodDatabase) (b : GossipBuilder) (k : PublicKey)
    (reveal_node_addr : bool) : outcome GossipBuilder :=
  if decide (k ∈ keys_so_far b) then Panic "GossipBuilder cannot add a Node more than once"
  else
    match node_by_key db k with
    | None => Panic "GossipBuilder cannot add a nonexistent Node"
    | Some r =>
        let gnr := Gnr_from_record (NodeRecord_clone r) in
        let gnr := if negb reveal_node_addr || negb (accepts_connections r)
                   then mkGnr (gnr_signed_data gnr) (gnr_signature gnr) None
                   else gnr in
        mret (mkBuilder (gossip_so_far b ++ [gnr]) ({[public_key r]} ∪ keys_so_far b))
    end.

Definition builder_build (b : GossipBuilder) : Gossip_0v1 := mkGossip (gossip_so_far b).

(** [GossipNodeRecord::from((&database, &public_key, reveal_node_addr))]. *)
Definition Gnr_from_database (db : NeighborhoodDatabase) (k : PublicKey) (reveal : bool) :
    outcome GossipNodeRecord :=
  r ← expect (node_by_key db k) "Attempted to create Gossip around nonexistent Node";
  let gnr := Gnr_from_record (NodeRecord_clone r) in
  mret (if negb reveal then mkGnr (gnr_signed_data gnr) (gnr_signature gnr) None else gnr).

Definition DEAD_NODE_CHECK_INTERVAL_SECS : Z := 60.

Section producer.
Context `{HO : HashOrder} `{CBOR : SerdeCbor} `{CL : CountryLookup}.

(** [TryInto<Vec<AccessibleGossipRecord>> for Gossip_0v1]: all the records, or
    an error if one of them cannot be deserialized. *)
Definition gossip_try_into (g : Gossip_0v1) : option (list AccessibleGossipRecord) :=
  mapM Agr_try_from_gnr (node_records g).

(** Whether the gossip for [target_node] carries this node's address. *)
Definition reveal_node_addr (db : NeighborhoodDatabase) (root_rec target_node r : NodeRecord) :
    bool :=
  accepts_connections r &&
  (bool_decide (public_key r = public_key root_rec) ||
   has_half_neighbor target_node (public_key r)).

(** [GossipProducerReal::produce]: the gossip for [target], the database after
    a possible culling, and the new time of the last dead-node check. *)
Definition produce (last_dead_node_check : Z) (db : NeighborhoodDatabase)
    (target : PublicKey) (now : Z) :
    outcome (option Gossip_0v1 * NeighborhoodDatabase * Z) :=
  p ← (if DEAD_NODE_CHECK_INTERVAL_SECS <=? u32 (now - last_dead_node_check)
       then db' ← cull_dead_nodes db now; mret (db', now)
       else mret (db, last_dead_node_check));
  let db := p.1 in
  match node_by_key db target with
  | None => mret (None, db, p.2)
  | Some target_node =>
      referenced ← referenced_node_keys db;
      b ← fold_outcome (λ b r,
            root_rec ← root db;
            builder_node db b (public_key r) (reveal_node_addr db root_rec target_node r))
          (omap (node_by_key db)
             (filter (λ k, k ∈ referenced) (filter (λ k, k ≠ target) (hash_iter (keys db)))))
          builder_new;
      mret (Some (builder_build b), db, p.2)
  end.

(** [GossipProducerReal::produce_debut]. *)
Definition produce_debut (db : NeighborhoodDatabase) : outcome Gossip_0v1 :=
  root_rec ← root db;
  b ← builder_node db builder_new (public_key root_rec) true;
  mret (builder_build b).

(** ** Facts about the builder *)

(** The gossip record the builder adds for a node. *)
Definition gnr_of (reveal : bool) (r : NodeRecord) : GossipNodeRecord :=
  mkGnr (signed_gossip r) (signature r)
    (if reveal && accepts_connections r then node_addr_opt r else None).

Lemma builder_node_ok db b k r reveal :
  node_by_key db k = Some r → k ∉ keys_so_far b →
  builder_node db b k reveal =
    Ret (mkBuilder (gossip_so_far b ++ [gnr_of reveal r]) ({[public_key r]} ∪ keys_so_far b)).
Proof.
  intros Hk Hn. unfold builder_node. rewrite decide_False, Hk by done.
  unfold gnr_of, node_addr_opt. by destruct reveal, (accepts_connections r).
Qed.

(** Adding distinct present nodes one after the other. *)
Lemma builder_nodes_ok db (f : NodeRecord → bool) (rs : list NodeRecord) b
    (step : GossipBuilder → NodeRecord → outcome GossipBuilder) :
  (∀ b r, step b r = builder_node db b (public_key r) (f r)) →
  (∀ r, r ∈ rs → node_by_key db (public_key r) = Some r ∧ public_key r ∉ keys_so_far b) →
  NoDup (public_key <$> rs) →
  fold_outcome step rs b =
    Ret (mkBuilder (gossip_so_far b ++ ((λ r, gnr_of (f r) r) <$> rs))
           (list_to_set (public_key <$> rs) ∪ keys_so_far b)).
Proof.
  intros Hstep. revert b. induction rs as [|r rs IH]; intros b Hrs Hnd; simpl.
  { destruct b as [g ks]. simpl. rewrite app_nil_r. repeat f_equal. set_solver. }
  apply NoDup_cons in Hnd as [Hr Hnd]. destruct (Hrs r) as [Hk Hkb]; [set_solver|].
  rewrite Hstep, (builder_node_ok _ _ _ r) by done. simpl.
  rewrite IH; simpl; [| |done].
  - f_equal. f_equal; [by rewrite <-app_assoc|set_solver].
  - intros r' Hr'. destruct (Hrs r') as [? ?]; [set_solver|]. split; [done|].
    rewrite not_elem_of_union, not_elem_of_singleton. split; [|done].
    intros E. apply Hr. rewrite <-E. by apply list_elem_of_fmap_2.
Qed.

(** The records of a list of distinct keys of the database. *)
Lemma records_of_keys db (l : list PublicKey) :
  db_inv db → NoDup l →
  (∀ r, r ∈ omap (node_by_key db) l → node_by_key db (public_key r) = Some r ∧ public_key r ∈ l) ∧
  NoDup (public_key <$> omap (node_by_key db) l).
Proof.
  intros Hinv Hnd. split.
  { intros r (k & Hk & Hr)%list_elem_of_omap. by rewrite (inv_keys _ Hinv _ _ Hr). }
  induction Hnd as [|k l Hk Hnd IH]; simpl; [constructor|].
  destruct (node_by_key db k) as [r|] eqn:Hr; simpl; [|done].
  constructor; [|done]. rewrite (inv_keys _ Hinv _ _ Hr).
  intros (r' & E & (k' & Hk' & Hr')%list_elem_of_omap)%list_elem_of_fmap.
  rewrite (inv_keys _ Hinv _ _ Hr') in E. by subst.
Qed.

(** The database [produce] works on: culled if the check is due. *)
Lemma produce_database last db now :
  db_inv db →
  returns (if DEAD_NODE_CHECK_INTERVAL_SECS <=? u32 (now - last)
           then db' ← cull_dead_nodes db now; mret (db', now)
           else mret (db, last))
    (λ p, db_inv p.1 ∧ this_node p.1 = this_node db).
Proof.
  intros Hinv. destruct (_ <=? _); [|by ret_step]. ret_step.
  eapply returns_mono; [by apply cull_dead_nodes_returns|]. simpl. tauto.
Qed.

(** What [produce] returns: a record for each referenced node but the target. *)
Lemma produce_returns last db target now :
  db_inv db →
  returns (produce last db target now) (λ '(g, db', last'),
    db_inv db' ∧ this_node db' = this_node db ∧
    match node_by_key db' target with
    | None => g = None
    | Some target_node => ∃ root_rec referenced gs ks,
        node_by_key db' (this_node db') = Some root_rec ∧
        referenced_node_keys db' = Ret referenced ∧
        g = Some (mkGossip gs) ∧
        ks ≡ₚ elements (filter (λ k, k ∈ referenced ∧ k ≠ target) (keys db')) ∧
        gs = (λ r, gnr_of (reveal_node_addr db' root_rec target_node r) r)
               <$> omap (node_by_key db') ks
    end).
Proof.
  intros Hinv. unfold produce. ret_step.
  eapply returns_mono; [by apply produce_database|]. intros [db' last'] [Hinv' Ht]. simpl in *.
  destruct (node_by_key db' target) as [tn|] eqn:Htn; [|by simpl; rewrite ?Htn].
  destruct (root_ret _ Hinv') as (rr & Hroot & Hrr).
  destruct (referenced_node_keys db') as [refd|] eqn:Href.
  2: { unfold referenced_node_keys in Href. by rewrite Hroot in Href. }
  simpl. set (ks := filter _ (filter _ _)).
  assert (NoDup ks) as Hnd by (do 2 apply NoDup_filter; apply NoDup_hash_iter).
  destruct (records_of_keys db' ks Hinv' Hnd) as [Hks Hnd'].
  rewrite (builder_nodes_ok db' (reveal_node_addr db' rr tn)); simpl; [| |set_solver|done].
  2: { intros b r. by rewrite Hroot. }
  split_and!; [done..|]. rewrite ?Htn. eexists rr, refd, _, ks. split_and!; [done..| |done].
  apply NoDup_Permutation; [done|apply NoDup_elements|]. intros k.
  unfold ks. rewrite elem_of_elements, elem_of_filter, !list_elem_of_filter, elem_of_hash_iter.
  tauto.
Qed.

(** A database whose records carry gossip that deserializes to them. *)
Definition gossip_coherent (db : NeighborhoodDatabase) : Prop :=
  ∀ k r, node_by_key db k = Some r → from_slice (signed_gossip r) = Some (inner r).

Lemma Agr_try_from_gnr_of reveal r :
  from_slice (signed_gossip r) = Some (inner r) →
  Agr_try_from_gnr (gnr_of reveal r) =
    Some (mkAgr (signed_gossip r) (signature r)
            (if reveal && accepts_connections r then node_addr_opt r else None) (inner r)).
Proof. intros H. unfold Agr_try_from_gnr. simpl. by rewrite H. Qed.

(** Culling only removes records. *)
Lemma produce_database_records last db now :
  db_inv db →
  returns (if DEAD_NODE_CHECK_INTERVAL_SECS <=? u32 (now - last)
           then db' ← cull_dead_nodes db now; mret (db', now)
           else mret (db, last))
    (λ p, ∀ k r, node_by_key p.1 k = Some r → node_by_key db k = Some r).
Proof.
  intros Hinv. destruct (_ <=? _); [|by ret_step]. ret_step.
  eapply returns_mono; [by apply cull_dead_nodes_returns|]. simpl. intros db' (_ & _ & Hl) k r.
  destruct (root_ret _ Hinv) as (rr & Hroot & _).
  unfold referenced_node_keys in Hl. rewrite Hroot in Hl. rewrite (Hl _ eq_refl).
  by case_decide.
Qed.

Lemma produce_records last db target now g db' last' :
  db_inv db → produce last db target now = Ret (g, db', last') →
  ∀ k r, node_by_key db' k = Some r → node_by_key db k = Some r.
Proof.
  intros Hinv Hp. pose proof (produce_database_records last db now Hinv) as H. revert Hp H.
  unfold produce. destruct (if _ <=? _ then _ else _) as [[d l]|]; simpl; [|done].
  destruct (node_by_key d target); simpl; [|by intros [= <- <- <-]].
  destruct (referenced_node_keys d); simpl; [|done].
  destruct (fold_outcome _ _ _); simpl; [|done]. by intros [= <- <- <-].
Qed.

(** [produce] does not panic and keeps the database invariant; for a target
    still present it yields exactly one gossip record for every node of the
    database that some record references (the local node included), except
    the target itself, and for an absent target it yields no gossip. *)
Theorem produce_covers_neighborhood last db target now :
  db_inv db →
  returns (produce last db target now) (λ '(g, db', _), db_inv db' ∧
    match node_by_key db' target with
    | None => g = None
    | Some _ => ∃ gs ks, g = Some (mkGossip gs) ∧ NoDup ks ∧
        (∀ k, k ∈ ks ↔ k ≠ target ∧ is_Some (node_by_key db' k) ∧
           (k = this_node db' ∨ ∃ k' n, node_by_key db' k' = Some n ∧ k ∈ half_neighbor_keys n)) ∧
        Forall2 (λ k gnr, ∃ r, node_by_key db' k = Some r ∧
                   gnr_signed_data gnr = signed_gossip r ∧ gnr_signature gnr = signature r) ks gs
    end).
Proof.
  intros Hinv. eapply returns_mono; [by apply produce_returns|].
  intros [[g db'] last'] (Hinv' & Ht & H). split; [done|].
  destruct (node_by_key db' target) as [tn|]; [|done].
  destruct H as (rr & refd & gs & ks & Hrr & Href & -> & Hks & ->).
  assert (∀ k, k ∈ ks → is_Some (node_by_key db' k)) as Hin.
  { intros k. rewrite Hks, elem_of_elements, elem_of_filter, elem_of_keys. tauto. }
  eexists _, ks. split_and!; [done| | |].
  - rewrite Hks. apply NoDup_elements.
  - intros k. rewrite Hks, elem_of_elements, elem_of_filter, elem_of_keys.
    pose proof (elem_of_referenced db' rr k Hrr) as Hk. rewrite Href in Hk. simpl in Hk.
    rewrite Hk, (inv_keys _ Hinv' _ _ Hrr). tauto.
  - clear Hks. induction ks as [|k ks IH]; simpl; [constructor|].
    destruct (Hin k) as [r Hr]; [set_solver|]. rewrite Hr. simpl.
    constructor; [by exists r|]. apply IH. set_solver.
Qed.

(** C38: the gossip [produce] makes for a target reveals the address of a node
    only if that node accepts connections and either is the local node or is
    named by the target's own record as a neighbor: no address is told to a
    target that does not already know the node. *)
Theorem produce_reveals_only_known last db target now g db' last' :
  db_inv db → produce last db target now = Ret (Some g, db', last') →
  ∀ gnr a, gnr ∈ node_records g → gnr_node_addr_opt gnr = Some a →
  ∃ r target_node, node_by_key db' (public_key r) = Some r ∧
    node_by_key db' target = Some target_node ∧
    signed_gossip r = gnr_signed_data gnr ∧ node_addr_opt r = Some a ∧
    accepts_connections r = true ∧
    (public_key r = this_node db' ∨ public_key r ∈ half_neighbor_keys target_node).
Proof.
  intros Hinv Hp gnr a Hgnr Ha. pose proof (produce_returns last db target now Hinv) as H.
  rewrite Hp in H. destruct H as (Hinv' & _ & H).
  destruct (node_by_key db' target) as [tn|] eqn:Htn; [|done].
  destruct H as (rr & refd & gs & ks & Hrr & _ & [= ->] & _ & ->). simpl in Hgnr.
  apply list_elem_of_fmap in Hgnr as (r & -> & (k & _ & Hr)%list_elem_of_omap).
  simpl in Ha. destruct (reveal_node_addr db' rr tn r) eqn:Hrev; [|done].
  destruct (accepts_connections r) eqn:Hacc; [|done].
  rewrite <-(inv_keys _ Hinv' _ _ Hr) in Hr. exists r, tn. split_and!; try done.
  unfold reveal_node_addr, has_half_neighbor in Hrev. rewrite Hacc in Hrev. simpl in Hrev.
  rewrite orb_true_iff, !bool_decide_eq_true in Hrev.
  by rewrite (inv_keys _ Hinv' _ _ Hrr) in Hrev.
Qed.

(** gossip produced from a database whose records carry coherent signed
    gossip is accepted by the receiver's deserializer, and the records it
    reads back are the database's own inner records. *)
Theorem produce_roundtrip last db target now g db' last' :
  db_inv db → gossip_coherent db →
  produce last db target now = Ret (Some g, db', last') →
  ∃ agrs, gossip_try_into g = Some agrs ∧
    Forall2 (λ gnr agr, agr_signed_gossip agr = gnr_signed_data gnr ∧
               agr_node_addr_opt agr = gnr_node_addr_opt gnr ∧
               ∃ r, node_by_key db' (public_key r) = Some r ∧ agr_inner agr = inner r)
      (node_records g) agrs.
Proof.
  intros Hinv Hco Hp. pose proof (produce_returns last db target now Hinv) as H.
  rewrite Hp in H. destruct H as (Hinv' & _ & H).
  destruct (node_by_key db' target) as [tn|]; [|done].
  destruct H as (rr & refd & gs & ks & _ & _ & [= ->] & _ & ->). unfold gossip_try_into. simpl.
  assert (∀ r, r ∈ omap (node_by_key db') ks →
            node_by_key db' (public_key r) = Some r ∧
            from_slice (signed_gossip r) = Some (inner r)) as Hrs.
  { intros r (k & _ & Hr)%list_elem_of_omap. rewrite (inv_keys _ Hinv' _ _ Hr).
    split; [done|]. eapply Hco. by eapply produce_records. }
  revert Hrs. generalize (omap (node_by_key db') ks) as rs.
  intros rs Hrs. pose (f := λ r, reveal_node_addr db' rr tn r).
  exists ((λ r, mkAgr (signed_gossip r) (signature r)
     (if f r && accepts_connections r then node_addr_opt r else None) (inner r)) <$> rs).
  rewrite mapM_Some, !Forall2_fmap, !Forall2_same_length_lookup.
  split; (split; [done|]); intros i r r' Hi Hi'; simplify_eq;
    destruct (Hrs r) as [Hk Hfs]; try by eapply list_elem_of_lookup_2.
  - by apply Agr_try_from_gnr_of.
  - simpl. eauto.
Qed.
End producer.

(** ** Witnesses *)

Lemma produce_covers_neighborhood_witness :
  ∃ g db' l, @produce elements_order 0 sample_db (sample_key 2) 2000 = Ret (g, db', l) ∧ db_inv db'.
Proof.
  destruct (returns_inv _ _ (@produce_covers_neighborhood elements_order 0 sample_db
    (sample_key 2) 2000 sample_db_inv)) as ([[g db'] l] & H & Hi & _).
  eauto.
Defined.

(** The gossip for node 2 carries the local node's address. *)
Lemma produce_reveals_only_known_witness :
  ∃ g db' l gnr a, @produce elements_order 0 sample_db (sample_key 2) 2000 = Ret (Some g, db', l) ∧
    gnr ∈ node_records g ∧ gnr_node_addr_opt gnr = Some a ∧
    ∃ r, node_by_key db' (public_key r) = Some r ∧ node_addr_opt r = Some a ∧
         accepts_connections r = true.
Proof.
  eexists _, _, _, _, (sample_addr 1). split; [vm_compute; reflexivity|].
  split; [left|]. split; [vm_compute; reflexivity|].
  destruct (@produce_reveals_only_known elements_order 0 sample_db (sample_key 2) 2000 _ _ _
    sample_db_inv ltac:(vm_compute; reflexivity) _ (sample_addr 1)
    ltac:(left) ltac:(vm_compute; reflexivity)) as (r & _ & ? & _ & _ & ? & ? & _).
  exists r. eauto.
Defined.

(** The sample database with its records signed. *)
Definition signed_record (r : NodeRecord) : NodeRecord :=
  mkNodeRecord (inner r) (metadata r) (default [] (@to_vec sample_cbor (inner r))) [].

Definition signed_db : NeighborhoodDatabase :=
  mkDb (this_node sample_db) (signed_record <$> by_public_key sample_db) (by_ip_addr sample_db).

Lemma signed_db_coherent : @gossip_coherent sample_cbor signed_db.
Proof.
  intros k r H. unfold signed_db, node_by_key in H. simpl in H.
  apply lookup_fmap_Some in H as (r' & <- & _). simpl.
  destruct (@cbor_roundtrip sample_cbor (inner r')) as (bs & H1 & H2).
  injection H1 as <-. exact H2.
Qed.

Lemma produce_roundtrip_witness :
  ∃ g db' l agrs,
    @produce elements_order 0 signed_db (sample_key 2) 2000 = Ret (Some g, db', l) ∧
    @gossip_try_into sample_cbor g = Some agrs.
Proof.
  eexists _, _, _.
  destruct (@produce_roundtrip elements_order sample_cbor 0 signed_db (sample_key 2) 2000 _ _ _
    (db_invb_sound signed_db ltac:(vm_compute; reflexivity)) signed_db_coherent
    ltac:(vm_compute; reflexivity)) as (agrs & H & _).
  exists agrs. split; [vm_compute; reflexivity|exact H].
Defined.
