(* ===== verification/ExitPreferences.v ===== *)
(** * User exit preferences and country undesirability

    Models [UserExitPreferences] and [FallbackPreference] of
    [node/src/neighborhood/mod.rs], with the updates of the preferences made
    when the user asks for exit countries.  Priorities are [usize] values cast
    to [u32]; arithmetic on undesirability is [u32], wrapping. *)

From S2P Require Import Prelude.
From S2P Require Import NodeAddr.
From S2P Require Import NodeRecord.

Definition UNREACHABLE_COUNTRY_PENALTY : Z := 100000000.
Definition ZERO_UNDESIRABILITY : Z := 0.
Definition COUNTRY_UNDESIRABILITY_FACTOR : Z := 1000.
Definition ZZ_COUNTRY_CODE_STRING : string := "ZZ".

(** [ExitLocation] of [pulsemesh_lib]. *)
Record ExitLocation := mkExitLocation {
  country_codes : list string;
  priority : Z
}.

Inductive FallbackPreference :=
| FallbackNothing
| ExitCountryWithFallback
| ExitCountryNoFallback.

#[export] Instance FallbackPreference_eq_dec : EqDecision FallbackPreference.
Proof. solve_decision. Defined.

Record UserExitPreferences := mkPrefs {
  exit_countries : list string;
  fallback_preference : FallbackPreference;
  locations_opt : option (list ExitLocation);
  db_countries : list string
}.

Definition UserExitPreferences_new : UserExitPreferences := mkPrefs [] FallbackNothing None [].

Definition should_set_country_undesirability (cc : string) (l : ExitLocation) : bool :=
  bool_decide (cc ∈ country_codes l) && negb (bool_decide (cc = ZZ_COUNTRY_CODE_STRING)).

Definition is_unreachable_country_penalty (p : UserExitPreferences) (cc : string) : bool :=
  (bool_decide (fallback_preference p = ExitCountryWithFallback) &&
   negb (bool_decide (cc ∈ exit_countries p)))
  || bool_decide (cc = ZZ_COUNTRY_CODE_STRING).

Definition calculate_country_undesirability (priority : Z) : Z :=
  u32 (COUNTRY_UNDESIRABILITY_FACTOR * u32 (priority - 1)).

(** The record's country, or the sentinel. *)
Definition country_code_or_zz (r : NodeRecord) : string :=
  default ZZ_COUNTRY_CODE_STRING (inner_country_code_opt (inner r)).

(** The body of the loop over the locations. *)
Definition assign_from_location (p : UserExitPreferences) (cc : string) (u : Z)
    (l : ExitLocation) : Z :=
  let u := if should_set_country_undesirability cc l
           then calculate_country_undesirability (u32 (priority l)) else u in
  if is_unreachable_country_penalty p cc then UNREACHABLE_COUNTRY_PENALTY else u.

Definition assign_nodes_country_undesirability (p : UserExitPreferences) (r : NodeRecord) :
    NodeRecord :=
  match locations_opt p with
  | Some ls =>
      with_metadata r (with_undesirability (metadata r)
        (foldl (assign_from_location p (country_code_or_zz r))
           (country_undesirability (metadata r)) ls))
  | None => r
  end.

(** [code_in_db_countries_or_fallback_active]. *)
Definition code_in_db_countries_or_fallback_active (p : UserExitPreferences) (code : string) : bool :=
  bool_decide (code ∈ db_countries p) ||
  bool_decide (fallback_preference p = ExitCountryWithFallback).

(** [fallback_active_and_code_missing_in_db_countries]. *)
Definition fallback_active_and_code_missing (p : UserExitPreferences) (code : string) : bool :=
  bool_decide (fallback_preference p = ExitCountryWithFallback) &&
  negb (bool_decide (code ∈ db_countries p)).

Definition with_exit_countries (p : UserExitPreferences) (cs : list string) :=
  mkPrefs cs (fallback_preference p) (locations_opt p) (db_countries p).

(** Remove the first occurrence: [position] then [Vec::remove]. *)
Fixpoint remove_first (c : string) (l : list string) : list string :=
  match l with
  | [] => []
  | x :: l' => if decide (x = c) then l' else x :: remove_first c l'
  end.

(** [synchronize_exit_countries_and_return_missing], one code of the loop. *)
Definition synchronize_code (st : UserExitPreferences * list string) (code : string) :
    UserExitPreferences * list string :=
  let '(p, missing) := st in
  if code_in_db_countries_or_fallback_active p code then
    let p' := if decide (code ∈ exit_countries p) then p
              else with_exit_countries p (exit_countries p ++ [code]) in
    (p', if fallback_active_and_code_missing p code then missing ++ [code] else missing)
  else
    (with_exit_countries p (remove_first code (exit_countries p)), missing ++ [code]).

Definition synchronize_exit_countries_and_return_missing (p : UserExitPreferences)
    (codes : list string) : UserExitPreferences * list string :=
  foldl synchronize_code (p, []) codes.

(** [set_exit_locations_opt]. *)
Definition set_exit_locations_opt (p : UserExitPreferences) (ls : list ExitLocation) :
    UserExitPreferences :=
  mkPrefs (exit_countries p) (fallback_preference p)
    (match exit_countries p with
     | _ :: _ => Some ls
     | [] => match fallback_preference p with
             | ExitCountryNoFallback => None
             | _ => Some ls
             end
     end)
    (db_countries p).

Definition is_fallback_routing_active (p : UserExitPreferences) : bool :=
  match fallback_preference p with
  | FallbackNothing => true
  | ExitCountryWithFallback => true
  | ExitCountryNoFallback => false
  end.

(** ** Facts *)

(** Assigning undesirability touches nothing else of the record. *)
Lemma assign_undesirability_frame p r :
  let r' := assign_nodes_country_undesirability p r in
  inner r' = inner r ∧ signed_gossip r' = signed_gossip r ∧ signature r' = signature r ∧
  md_node_addr_opt (metadata r') = md_node_addr_opt (metadata r).
Proof. unfold assign_nodes_country_undesirability. by destruct (locations_opt p). Qed.

Lemma elem_of_remove_first c x (l : list string) :
  NoDup l → (x ∈ remove_first c l ↔ x ∈ l ∧ x ≠ c).
Proof.
  induction 1 as [|y l Hy Hnd IH]; simpl; [set_solver|].
  case_decide; subst; rewrite !elem_of_cons; [|rewrite IH]; naive_solver.
Qed.

Lemma NoDup_remove_first c (l : list string) : NoDup l → NoDup (remove_first c l).
Proof.
  induction 1 as [|y l Hy Hnd IH]; simpl; [constructor|]. case_decide; [done|].
  constructor; [|done]. rewrite elem_of_remove_first by done. tauto.
Qed.

(** One step of the synchronization, on the two membership questions. *)
Lemma synchronize_code_spec p missing code :
  NoDup (exit_countries p) →
  let '(p', missing') := synchronize_code (p, missing) code in
  NoDup (exit_countries p') ∧ fallback_preference p' = fallback_preference p ∧
  db_countries p' = db_countries p ∧ locations_opt p' = locations_opt p ∧
  missing' = missing ++ (if decide (code ∈ db_countries p) then [] else [code]) ∧
  ∀ c, c ∈ exit_countries p' ↔
    if decide (c = code) then code_in_db_countries_or_fallback_active p code = true
    else c ∈ exit_countries p.
Proof.
  intros Hnd. pose (q := if decide (code ∈ exit_countries p) then p
                         else with_exit_countries p (exit_countries p ++ [code])).
  assert (NoDup (exit_countries q) ∧ fallback_preference q = fallback_preference p ∧
          db_countries q = db_countries p ∧ locations_opt q = locations_opt p ∧
          ∀ c, c ∈ exit_countries q ↔ if decide (c = code) then true = true
                                      else c ∈ exit_countries p) as (? & ? & ? & ? & Hq).
  { unfold q. destruct (decide (code ∈ exit_countries p)); simpl.
    - split_and!; [done..|]. intros c. case_decide; naive_solver.
    - split_and!; [|done..|].
      + apply NoDup_app. split_and!; [done|set_solver|apply NoDup_singleton].
      + intros c. case_decide; set_solver. }
  unfold synchronize_code. fold q. unfold fallback_active_and_code_missing.
  destruct (code_in_db_countries_or_fallback_active p code) eqn:Ha;
    unfold code_in_db_countries_or_fallback_active in Ha.
  - split_and!; [done..| |done]. case_decide as Hdb.
    + by rewrite (bool_decide_true (code ∈ _)), andb_false_r, app_nil_r.
    + rewrite (bool_decide_false (code ∈ _)) in * by done. simpl in Ha. by rewrite Ha.
  - apply orb_false_iff in Ha as [Hdb%bool_decide_eq_false _]. simpl.
    split_and!; [by apply NoDup_remove_first|done..| |].
    + by rewrite decide_False.
    + intros c. rewrite elem_of_remove_first by done. case_decide; naive_solver.
Qed.

(** after [synchronize_exit_countries_and_return_missing] the exit countries
    hold no repetition; the codes reported missing are exactly the requested
    ones absent from the database's countries, in request order; and a
    requested code is an exit country exactly when the database has it or
    fallback routing is active, while other codes are untouched. *)
Theorem synchronize_exit_countries_spec p codes :
  NoDup (exit_countries p) →
  let '(p', missing) := synchronize_exit_countries_and_return_missing p codes in
  NoDup (exit_countries p') ∧
  missing = filter (λ c, c ∉ db_countries p) codes ∧
  ∀ c, c ∈ exit_countries p' ↔
    if decide (c ∈ codes) then code_in_db_countries_or_fallback_active p c = true
    else c ∈ exit_countries p.
Proof.
  unfold synchronize_exit_countries_and_return_missing.
  assert (∀ missing0, NoDup (exit_countries p) →
    let '(p', missing) := foldl synchronize_code (p, missing0) codes in
    NoDup (exit_countries p') ∧
    missing = missing0 ++ filter (λ c, c ∉ db_countries p) codes ∧
    ∀ c, c ∈ exit_countries p' ↔
      if decide (c ∈ codes) then code_in_db_countries_or_fallback_active p c = true
      else c ∈ exit_countries p) as H; [|apply (H [])].
  revert p. induction codes as [|code codes IH]; intros p missing0 Hnd; cbn [foldl].
  { by rewrite app_nil_r. }
  pose proof (synchronize_code_spec p missing0 code Hnd) as Hstep.
  destruct (synchronize_code (p, missing0) code) as [p1 m1].
  destruct Hstep as (Hnd1 & Hfb & Hdb & _ & -> & Hc).
  specialize (IH p1 (missing0 ++ (if decide (code ∈ db_countries p) then [] else [code])) Hnd1).
  destruct (foldl _ _ _) as [p' m']. destruct IH as (? & -> & Hc').
  assert (∀ x, code_in_db_countries_or_fallback_active p1 x =
               code_in_db_countries_or_fallback_active p x) as Hact.
  { intros. unfold code_in_db_countries_or_fallback_active. by rewrite Hfb, Hdb. }
  split_and!; [done| |].
  - rewrite Hdb, filter_cons, <-app_assoc. f_equal.
    repeat case_decide; naive_solver.
  - intros c. rewrite Hc', Hact. destruct (decide (c ∈ codes)).
    + by rewrite decide_True by set_solver.
    + rewrite Hc. case_decide as E; [subst; by rewrite decide_True by set_solver|].
      by rewrite decide_False by set_solver.
Qed.

(** the undesirability assigned to a node under exit locations [ls]: the
    unreachable-country penalty when it applies; otherwise 1000 per priority
    step of the last location that names the node's country; otherwise what
    the record had. *)
Theorem assign_undesirability_spec p r ls :
  locations_opt p = Some ls →
  let cc := country_code_or_zz r in
  country_undesirability (metadata (assign_nodes_country_undesirability p r)) =
    if is_unreachable_country_penalty p cc && negb (bool_decide (ls = [])) then
      UNREACHABLE_COUNTRY_PENALTY
    else
      match last (filter (λ l, should_set_country_undesirability cc l = true) ls) with
      | Some l => calculate_country_undesirability (u32 (priority l))
      | None => country_undesirability (metadata r)
      end.
Proof.
  intros Hl cc. unfold assign_nodes_country_undesirability. rewrite Hl. simpl. fold cc. clear Hl.
  generalize (country_undesirability (metadata r)) as u. intros u.
  induction ls as [|l ls IH] using rev_ind; [by rewrite andb_false_r|].
  rewrite foldl_app, filter_app. simpl.
  rewrite (bool_decide_false (ls ++ [l] = [])) by (by destruct ls). rewrite andb_true_r.
  unfold assign_from_location at 1.
  destruct (is_unreachable_country_penalty p cc) eqn:Hp; [done|]. simpl in IH.
  rewrite filter_cons. destruct (should_set_country_undesirability cc l) eqn:Hs.
  - rewrite decide_True by done. by rewrite filter_nil, last_snoc.
  - rewrite decide_False by done. by rewrite filter_nil, app_nil_r.
Qed.

(** ** Witnesses *)
Definition sample_prefs : UserExitPreferences :=
  mkPrefs ["FR"] ExitCountryNoFallback
    (Some [mkExitLocation ["FR"; "DE"] 1; mkExitLocation ["CZ"] 2]) ["CZ"; "FR"].

Lemma synchronize_exit_countries_spec_witness :
  let '(p', missing) := synchronize_exit_countries_and_return_missing sample_prefs ["CZ"; "DE"] in
  exit_countries p' = ["FR"; "CZ"] ∧ missing = ["DE"] ∧ NoDup (exit_countries p').
Proof.
  pose proof (synchronize_exit_countries_spec sample_prefs ["CZ"; "DE"] (NoDup_singleton _)) as H.
  destruct (synchronize_exit_countries_and_return_missing sample_prefs ["CZ"; "DE"]) as [p' m] eqn:E.
  destruct H as (Hnd & -> & _). split_and!; [|vm_compute; reflexivity|done].
  revert E. vm_compute. by intros [= <-].
Defined.

Lemma assign_undesirability_spec_witness :
  country_undesirability (metadata (assign_nodes_country_undesirability sample_prefs
    (with_inner (sample_record 2 [] 0 true)
       (mkInner (sample_key 2) WalletUninitialized sample_rates ∅ true true 0 (Some "CZ"))))) = 1000.
Proof.
  rewrite (assign_undesirability_spec sample_prefs _
    [mkExitLocation ["FR"; "DE"] 1; mkExitLocation ["CZ"] 2] eq_refl).
  vm_compute. reflexivity.
Defined.
