(* ===== verification/GossipAcceptor.v ===== *)
(** * The gossip acceptor

    Models [node/src/neighborhood/gossip_acceptor.rs]: the five handlers
    ([DebutHandler], [PassHandler], [IntroductionHandler],
    [StandardGossipHandler], [RejectHandler]) and the dispatch of
    [GossipAcceptorReal].  A handler returns the acceptance result with the new
    database, the new pass-target table and the [ConnectionProgressMessage]s
    it sends.  The text of a rejection is represented by a constructor with
    the data the text mentions.  [now] is the system time in nanoseconds, read
    once per message; logging is left out. *)

From S2P Require Import Prelude.
From S2P Require Import NodeAddr.
From S2P Require Import NodeRecord.
From S2P Require Import NeighborhoodDatabase.
From S2P Require Import Gossip.
From S2P Require Import ExitPreferences.

Definition MAX_DEGREE : nat := 5.

(** [SystemTime] and [Duration] in nanoseconds. *)
Definition PASS_GOSSIP_EXPIRED_TIME : Z := 60 * 1000000000.
Definition time_t (now : Z) : Z := u32 (now / 1000000000).

Inductive GossipFailure_0v1 :=
| NoNeighbors | NoSuitableNeighbors | ManualRejection | UnknownFailure.

Inductive MalformedReason :=
| DebutWithoutNodeAddr (source : SocketAddr) (k : PublicKey)
| DebutWithoutPorts (source : SocketAddr) (k : PublicKey)
| DebutNonAcceptingWithNodeAddr (source : SocketAddr) (k : PublicKey)
| PassWithoutNodeAddr (source : SocketAddr) (k : PublicKey)
| PassWithoutPorts (source : SocketAddr) (k : PublicKey) (ip : IpAddr)
| NobodyClaimsSourceIp (k1 : PublicKey) (ip1 : IpAddr) (k2 : PublicKey) (ip2 source : IpAddr)
| IntroducerClaimsLocalKey (k : PublicKey)
| IntroducerWithoutPorts (k : PublicKey) (ip : IpAddr)
| IntroducerAtLocalIp (k : PublicKey)
| IntroduceeWithoutPorts (introducer introducee : PublicKey) (ip : IpAddr)
| BothClaimSourceIp (introducer introducee : PublicKey) (ip : IpAddr)
| StandardClaimsLocalIp (source : SocketAddr) (k : PublicKey)
| StandardClaimsLocalKey (source : SocketAddr)
| StandardDuplicateIps (source : SocketAddr) (dups : gset IpAddr)
| Unclassifiable (records : nat) (source : SocketAddr).

Inductive BanReason :=
| BanMalformed (reason : MalformedReason)
| BanImmutableChanged (introducer : PublicKey) (e : UpdateError).

Inductive GossipAcceptanceResult :=
| Accepted
| Reply (g : Gossip_0v1) (k : PublicKey) (a : NodeAddr)
| Failed (f : GossipFailure_0v1) (k : PublicKey) (a : NodeAddr)
| Ignored
| Ban (reason : BanReason).

Inductive Qualification :=
| Matched
| Unmatched
| Malformed (reason : MalformedReason).

Inductive ConnectionProgressEvent :=
| TcpConnectionSuccessful
| TcpConnectionFailed
| NoGossipResponseReceived
| PassLoopFound
| StandardGossipReceived
| IntroductionGossipReceived (ip : IpAddr)
| PassGossipReceived (ip : IpAddr).

Record ConnectionProgressMessage := mkCpm {
  peer_addr : IpAddr;
  event : ConnectionProgressEvent
}.

(** [NeighborhoodMetadata], without the recipient of the messages. *)
Record NeighborhoodMetadata := mkNm {
  connection_progress_peers : list IpAddr;
  db_patch_size : nat;
  user_exit_preferences_opt : option UserExitPreferences
}.

(** What [DebutHandler] and [PassHandler] share: [previous_pass_targets]. *)
Abbreviation PassTargets := (gmap IpAddr Z).

(** What a handler returns. *)
Abbreviation Handled :=
  (GossipAcceptanceResult * NeighborhoodDatabase * PassTargets * list ConnectionProgressMessage)%type.

Definition agr_key (agr : AccessibleGossipRecord) : PublicKey := inner_public_key (agr_inner agr).

(** The optional assignment of country undesirability to a new record. *)
Definition assign_opt (p : option UserExitPreferences) (r : NodeRecord) : NodeRecord :=
  match p with
  | Some p => assign_nodes_country_undesirability p r
  | None => r
  end.

(** Iterator adapters of the source. *)
Fixpoint skip_while {A} (f : A → bool) (l : list A) : list A :=
  match l with
  | [] => []
  | x :: l' => if f x then skip_while f l' else l
  end.

Section acceptor.
Context `{HO : HashOrder} `{CBOR : SerdeCbor} `{CL : CountryLookup}.
Variable cryptde : CryptDE.

(** [root_mut.increment_version(); root_mut.regenerate_signed_gossip(cryptde)]. *)
Definition bump_root (db : NeighborhoodDatabase) : outcome NeighborhoodDatabase :=
  root_mut db (λ r, regenerate_signed_gossip (increment_version r) cryptde).

(** ** [DebutHandler] *)
Definition debut_qualifies (db : NeighborhoodDatabase) (agrs : list AccessibleGossipRecord)
    (source : SocketAddr) : outcome Qualification :=
  match agrs with
  | [agr] =>
      if decide (is_Some (node_by_key db (agr_key agr))) then mret Unmatched
      else
        match agr_node_addr_opt agr with
        | None =>
            if inner_accepts_connections (agr_inner agr)
            then mret (Malformed (DebutWithoutNodeAddr source (agr_key agr)))
            else mret Matched
        | Some a =>
            if inner_accepts_connections (agr_inner agr) then
              if decide (na_ports a = [])
              then mret (Malformed (DebutWithoutPorts source (agr_key agr)))
              else if decide (na_ip_addr a = sa_ip source) then mret Matched
              else mret Unmatched
            else mret (Malformed (DebutNonAcceptingWithNodeAddr source (agr_key agr)))
        end
  | _ => mret Unmatched
  end.

Definition node_and_neighbor_keys (agr : AccessibleGossipRecord) : gset PublicKey :=
  {[agr_key agr]} ∪ inner_neighbors (agr_inner agr).

Definition degree_le (db : NeighborhoodDatabase) (a b : PublicKey) : Prop :=
  (gossip_target_degree db a ≤ gossip_target_degree db b)%nat.

#[local] Instance degree_le_dec db : RelDecision (degree_le db).
Proof. intros a b. apply le_dec. Defined.

(** Unstable sort by degree of the set difference, which is iterated in an
    unspecified order. *)
Definition keys_ordered_by_degree_excluding (db : NeighborhoodDatabase)
    (ks excluding : gset PublicKey) : list PublicKey :=
  merge_sort (degree_le db) (hash_iter (ks ∖ excluding)).

Definition root_full_neighbors_ordered_by_degree_excluding (db : NeighborhoodDatabase)
    (excluded : AccessibleGossipRecord) : outcome (list PublicKey) :=
  root_rec ← root db;
  mret (keys_ordered_by_degree_excluding db (full_neighbor_keys root_rec db)
          (node_and_neighbor_keys excluded)).

Definition key_accepts_connections (db : NeighborhoodDatabase) (k : PublicKey) : outcome bool :=
  r ← expect (node_by_key db k) "Node disappeared"; mret (accepts_connections r).

Definition find_more_appropriate_neighbor (db : NeighborhoodDatabase)
    (excluded : AccessibleGossipRecord) : outcome (option PublicKey) :=
  neighbor_vec ← root_full_neighbors_ordered_by_degree_excluding db excluded;
  accepting ← filter_outcome (key_accepts_connections db) neighbor_vec;
  let qualified := skip_while (λ k, (gossip_target_degree db k <=? 2)%nat) accepting in
  match head qualified with
  | None => mret None
  | Some k =>
      root_rec ← root db;
      if (gossip_target_degree db (public_key root_rec) <=? gossip_target_degree db k)%nat
      then mret None
      else mret (Some k)
  end.

Definition find_least_connected_neighbor_excluding (ks : gset PublicKey)
    (db : NeighborhoodDatabase) (excluded : AccessibleGossipRecord) : option PublicKey :=
  head (keys_ordered_by_degree_excluding db ks (node_and_neighbor_keys excluded)).

Definition find_least_connected_half_neighbor_excluding (db : NeighborhoodDatabase)
    (excluded : AccessibleGossipRecord) : outcome (option PublicKey) :=
  root_rec ← root db;
  mret (find_least_connected_neighbor_excluding (half_neighbor_keys root_rec) db excluded).

Definition find_least_connected_full_neighbor_excluding (db : NeighborhoodDatabase)
    (excluded : AccessibleGossipRecord) : outcome (option PublicKey) :=
  root_rec ← root db;
  ks ← filter_outcome (key_accepts_connections db)
         (hash_iter (full_neighbor_keys root_rec db));
  mret (find_least_connected_neighbor_excluding (list_to_set ks) db excluded).

Definition should_not_make_another_introduction (agr : AccessibleGossipRecord) : bool :=
  negb (bool_decide (inner_neighbors (agr_inner agr) = ∅)).

Definition make_pass_gossip (db : NeighborhoodDatabase) (pass_target : PublicKey) :
    outcome Gossip_0v1 :=
  b ← builder_node db builder_new pass_target true; mret (builder_build b).

Definition make_introduction (db : NeighborhoodDatabase) (agr : AccessibleGossipRecord)
    (source : SocketAddr) : outcome (option (Gossip_0v1 * PublicKey * NodeAddr)) :=
  lcn ← find_least_connected_full_neighbor_excluding db agr;
  match lcn with
  | None => mret None
  | Some lcn_key =>
      _ ← expect (node_by_key db lcn_key) "LCN disappeared";
      let debut_node_addr := match agr_node_addr_opt agr with
                             | Some a => NodeAddr_clone a
                             | None => NodeAddr_from_socket source
                             end in
      root_rec ← root db;
      b ← builder_node db builder_new (public_key root_rec) true;
      b ← builder_node db b lcn_key true;
      mret (Some (builder_build b, agr_key agr, debut_node_addr))
  end.

Definition create_debut_gossip_response (db : NeighborhoodDatabase) (debut_node_key : PublicKey) :
    outcome Gossip_0v1 :=
  root_rec ← root db;
  let root_node := clear_half_neighbors (NodeRecord_clone root_rec) in
  root_node ← expect_ok (add_half_neighbor_key root_node debut_node_key)
                "Couldn't add debuting as a half neighbor";
  gnr ← Gnr_from_inner (inner root_node) (node_addr_opt root_node) cryptde;
  mret (mkGossip [gnr]).

(** [Err(())] is [None]. *)
Definition try_accept_debut (db : NeighborhoodDatabase) (agr : AccessibleGossipRecord)
    (source : SocketAddr) (prefs : option UserExitPreferences) (now : Z) :
    outcome (option (GossipAcceptanceResult * NeighborhoodDatabase)) :=
  root_rec ← root db;
  if (MAX_DEGREE <=? gossip_target_degree db (public_key root_rec))%nat then mret None
  else
    let debuting_node := assign_opt prefs (NodeRecord_from_agr_ref agr (time_t now)) in
    p ← expect_ok (add_node db debuting_node) "Debuting Node suddenly appeared in database";
    let '(debut_node_key, db) := p in
    match add_half_neighbor db debut_node_key (time_t now) with
    | Err (NodeKeyNotFound k) => Panic "Node magically disappeared"
    | Err e => Panic "Unexpected error accepting debut"
    | Ok (false, _) => Panic "Brand-new neighbor already existed"
    | Ok (true, db) =>
        db ← bump_root db;
        if should_not_make_another_introduction agr then mret (Some (Accepted, db))
        else
          intro ← make_introduction db agr source;
          match intro with
          | Some (g, k, a) => mret (Some (Reply g k a, db))
          | None =>
              g ← create_debut_gossip_response db debut_node_key;
              a ← expect (agr_node_addr_opt agr) "Debut gossip always has an IP";
              mret (Some (Reply g (agr_key agr) (NodeAddr_clone a), db))
          end
    end.

(** The debuter's record, with the source address if it gave none. *)
Definition debut_source_agr (agr : AccessibleGossipRecord) (source : SocketAddr) :
    AccessibleGossipRecord :=
  match agr_node_addr_opt agr with
  | Some _ => agr
  | None => mkAgr (agr_signed_gossip agr) (agr_signature agr)
              (Some (NodeAddr_from_socket source)) (agr_inner agr)
  end.

Definition debut_handle (db : NeighborhoodDatabase) (pt : PassTargets)
    (agrs : list AccessibleGossipRecord) (source : SocketAddr) (nm : NeighborhoodMetadata)
    (now : Z) : outcome Handled :=
  agr ← expect (head agrs) "removal index should be < len";
  let source_agr := debut_source_agr agr source in
  let source_key := agr_key source_agr in
  a ← expect (agr_node_addr_opt source_agr) "Source Node NodeAddr disappeared";
  let source_node_addr := NodeAddr_clone a in
  preferred ← find_more_appropriate_neighbor db source_agr;
  match preferred with
  | Some preferred_key =>
      r ← expect (node_by_key db preferred_key) "Preferred Node disappeared";
      _ ← expect (node_addr_opt r) "Preferred Node's NodeAddr disappeared";
      g ← make_pass_gossip db preferred_key;
      mret (Reply g source_key source_node_addr, db, pt, [])
  | None =>
      res ← try_accept_debut db source_agr source (user_exit_preferences_opt nm) now;
      match res with
      | Some (res, db) => mret (res, db, pt, [])
      | None =>
          lcn ← find_least_connected_half_neighbor_excluding db source_agr;
          match lcn with
          | None =>
              a ← expect (agr_node_addr_opt source_agr) "Debuter's NodeAddr disappeared";
              mret (Failed NoSuitableNeighbors (agr_key source_agr) (NodeAddr_clone a), db, pt, [])
          | Some lcn_key =>
              _ ← expect (node_by_key db lcn_key) "LCN Disappeared";
              g ← make_pass_gossip db lcn_key;
              mret (Reply g source_key source_node_addr, db, pt, [])
          end
      end
  end.

(** ** [PassHandler] *)
Definition pass_qualifies (db : NeighborhoodDatabase) (agrs : list AccessibleGossipRecord)
    (source : SocketAddr) : outcome Qualification :=
  match agrs with
  | [agr] =>
      match agr_node_addr_opt agr with
      | None => mret (Malformed (PassWithoutNodeAddr source (agr_key agr)))
      | Some a =>
          if decide (na_ports a = [])
          then mret (Malformed (PassWithoutPorts source (agr_key agr) (na_ip_addr a)))
          else if decide (na_ip_addr a = sa_ip source) then mret Unmatched
          else mret Matched
      end
  | _ => mret Unmatched
  end.

(** The reply of a pass: a debut to the pass target. *)
Definition pass_reply (db : NeighborhoodDatabase) (k : PublicKey) (a : NodeAddr) :
    outcome GossipAcceptanceResult :=
  root_rec ← root db;
  b ← builder_node db builder_new (public_key root_rec) true;
  mret (Reply (builder_build b) k a).

Definition pass_handle (db : NeighborhoodDatabase) (pt : PassTargets)
    (agrs : list AccessibleGossipRecord) (source : SocketAddr) (nm : NeighborhoodMetadata)
    (now : Z) : outcome Handled :=
  pass_agr ← expect (head agrs) "index out of bounds";
  a ← expect (agr_node_addr_opt pass_agr) "Pass lost its NodeAddr";
  let pass_target_node_addr := NodeAddr_clone a in
  let ip := na_ip_addr pass_target_node_addr in
  let cpm := λ e, [mkCpm (sa_ip source) e] in
  let k := agr_key pass_agr in
  match pt !! ip with
  | None =>
      if decide (ip ∈ connection_progress_peers nm)
      then mret (Ignored, db, pt, cpm PassLoopFound)
      else
        res ← pass_reply db k pass_target_node_addr;
        mret (res, db, <[ip := now]> pt, cpm (PassGossipReceived ip))
  | Some timestamp =>
      if now <? timestamp then Panic "Failed to calculate duration for pass target timestamp."
      else
        let pt := <[ip := now]> pt in
        if now - timestamp <=? PASS_GOSSIP_EXPIRED_TIME
        then mret (Ignored, db, pt, cpm PassLoopFound)
        else
          res ← pass_reply db k pass_target_node_addr;
          mret (res, db, pt, cpm (PassGossipReceived ip))
  end.

(** ** [IntroductionHandler] *)

(** [Ok(true)] when the first record is the introducer's. *)
Definition order_is_introducee_introducer (agrs : list AccessibleGossipRecord)
    (source : SocketAddr) : outcome (result bool Qualification) :=
  first_agr ← expect (agrs !! 0%nat) "index out of bounds";
  match agr_node_addr_opt first_agr with
  | None => mret (Err Unmatched)
  | Some a1 =>
      second_agr ← expect (agrs !! 1%nat) "index out of bounds";
      match agr_node_addr_opt second_agr with
      | None => mret (Err Unmatched)
      | Some a2 =>
          if decide (na_ip_addr a1 = sa_ip source) then mret (Ok true)
          else if decide (na_ip_addr a2 = sa_ip source) then mret (Ok false)
          else mret (Err (Malformed (NobodyClaimsSourceIp (agr_key first_agr) (na_ip_addr a1)
                                       (agr_key second_agr) (na_ip_addr a2) (sa_ip source))))
      end
  end.

(** The introducer and the introducee, in this order. *)
Definition identify_players (agrs : list AccessibleGossipRecord) (source : SocketAddr) :
    outcome (result (AccessibleGossipRecord * AccessibleGossipRecord) Qualification) :=
  order ← order_is_introducee_introducer agrs source;
  match order with
  | Err q => mret (Err q)
  | Ok introducer_first =>
      a1 ← expect (agrs !! 0%nat) "removal index should be < len";
      a2 ← expect (agrs !! 1%nat) "removal index should be < len";
      mret (Ok (if (introducer_first : bool) then (a1, a2) else (a2, a1)))
  end.

Definition verify_introducer (agr : AccessibleGossipRecord) (root_node : NodeRecord) :
    outcome (option Qualification) :=
  if decide (agr_key agr = public_key root_node)
  then mret (Some (Malformed (IntroducerClaimsLocalKey (agr_key agr))))
  else
    a ← expect (agr_node_addr_opt agr) "NodeAddr disappeared";
    if decide (na_ports a = [])
    then mret (Some (Malformed (IntroducerWithoutPorts (agr_key agr) (na_ip_addr a))))
    else
      match node_addr_opt root_node with
      | Some root_addr =>
          if decide (na_ip_addr a = na_ip_addr root_addr)
          then mret (Some (Malformed (IntroducerAtLocalIp (agr_key agr))))
          else mret None
      | None => mret None
      end.

Definition verify_introducee (db : NeighborhoodDatabase)
    (introducer introducee : AccessibleGossipRecord) (source : SocketAddr) :
    option Qualification :=
  if decide (is_Some (node_by_key db (agr_key introducee))) then Some Unmatched
  else
    match agr_node_addr_opt introducee with
    | None => Some Unmatched
    | Some a =>
        if decide (na_ports a = [])
        then Some (Malformed (IntroduceeWithoutPorts (agr_key introducer) (agr_key introducee)
                                (na_ip_addr a)))
        else if decide (na_ip_addr a = sa_ip source)
        then Some (Malformed (BothClaimSourceIp (agr_key introducer) (agr_key introducee)
                                (sa_ip source)))
        else None
    end.

Definition introduction_qualifies (db : NeighborhoodDatabase)
    (agrs : list AccessibleGossipRecord) (source : SocketAddr) : outcome Qualification :=
  if decide (length agrs ≠ 2%nat) then mret Unmatched
  else
    order ← order_is_introducee_introducer agrs source;
    match order with
    | Err q => mret q
    | Ok introducer_first =>
        a1 ← expect (agrs !! 0%nat) "index out of bounds";
        a2 ← expect (agrs !! 1%nat) "index out of bounds";
        let '(introducer, introducee) :=
          if (introducer_first : bool) then (a1, a2) else (a2, a1) in
        root_rec ← root db;
        v ← verify_introducer introducer root_rec;
        match v with
        | Some q => mret q
        | None => mret (default Matched (verify_introducee db introducer introducee source))
        end
    end.

(** The result is [Ok(false)] when a record at least as new is already there. *)
Definition introduction_update_database (db : NeighborhoodDatabase)
    (introducer : AccessibleGossipRecord) (prefs : option UserExitPreferences) (now : Z) :
    outcome (result bool UpdateError * NeighborhoodDatabase) :=
  let k := agr_key introducer in
  let finish := λ db : NeighborhoodDatabase,
    p ← expect_ok (add_half_neighbor db k (time_t now)) "introducer not in database";
    let '(added, db) := p in
    if (added : bool) then db ← bump_root db; mret (Ok true, db) else mret (Ok true, db) in
  match node_by_key db k with
  | Some existing =>
      if version existing <? inner_version (agr_inner introducer) then
        match update existing introducer (time_t now) with
        | Err e => mret (Err e, db)
        | Ok r => finish (with_nodes db (<[k := r]> (by_public_key db)))
        end
      else mret (Ok false, db)
  | None =>
      let new_introducer := assign_opt prefs (NodeRecord_from_agr introducer (time_t now)) in
      p ← expect_ok (add_node db new_introducer) "add_node should always work here";
      finish p.2
  end.

(** [GossipAcceptorReal::make_debut_triple]; the error strings are dropped. *)
Definition make_debut_triple (db : NeighborhoodDatabase) (target : AccessibleGossipRecord) :
    outcome (option (Gossip_0v1 * PublicKey * NodeAddr)) :=
  match agr_node_addr_opt target with
  | None => mret None
  | Some a =>
      if decide (na_ports a = []) then mret None
      else
        root_rec ← root db;
        b ← builder_node db builder_new (public_key root_rec) true;
        mret (Some (builder_build b, agr_key target, NodeAddr_clone a))
  end.

Definition introduction_handle (db : NeighborhoodDatabase) (pt : PassTargets)
    (agrs : list AccessibleGossipRecord) (source : SocketAddr) (nm : NeighborhoodMetadata)
    (now : Z) : outcome Handled :=
  root_rec ← root db;
  if (MAX_DEGREE <=? size (full_neighbor_keys root_rec db))%nat then mret (Ignored, db, pt, [])
  else
    players ← identify_players agrs source;
    p ← expect_ok players "Introduction not properly qualified";
    let '(introducer, introducee) := p in
    a1 ← expect (agr_node_addr_opt introducer) "IP Address not found for the Node Addr.";
    a2 ← expect (agr_node_addr_opt introducee) "IP Address not found for the Node Addr.";
    upd ← introduction_update_database db introducer (user_exit_preferences_opt nm) now;
    let '(res, db) := upd in
    match res with
    | Err e => mret (Ban (BanImmutableChanged (agr_key introducer) e), db, pt, [])
    | Ok _ =>
        triple ← make_debut_triple db introducee;
        t ← expect triple "Introduction not properly qualified";
        let '(g, k, a) := t in
        mret (Reply g k a, db, pt,
              [mkCpm (na_ip_addr a1) (IntroductionGossipReceived (na_ip_addr a2))])
    end.

(** ** [StandardGossipHandler] *)
Definition ip_of (agr : AccessibleGossipRecord) : outcome IpAddr :=
  a ← expect (agr_node_addr_opt agr) "Should have NodeAddr"; mret (na_ip_addr a).

(** The fold that collects repeated IP addresses: (addresses seen, repeated). *)
Definition collect_dup (st : gset IpAddr * gset IpAddr) (agr : AccessibleGossipRecord) :
    outcome (gset IpAddr * gset IpAddr) :=
  ip ← ip_of agr;
  mret (if decide (ip ∈ st.1) then (st.1, {[ip]} ∪ st.2) else ({[ip]} ∪ st.1, st.2)).

(** The first record claiming the local node's IP address. *)
Fixpoint find_impostor (root_node : NodeRecord) (agrs : list AccessibleGossipRecord) :
    outcome (option AccessibleGossipRecord) :=
  match agrs with
  | [] => mret None
  | agr :: agrs' =>
      ip ← ip_of agr;
      a ← expect (node_addr_opt root_node)
            "Root Node that accepts connections must have NodeAddr";
      if decide (ip = na_ip_addr a) then mret (Some agr) else find_impostor root_node agrs'
  end.

Definition standard_qualifies (db : NeighborhoodDatabase)
    (agrs : list AccessibleGossipRecord) (source : SocketAddr) : outcome Qualification :=
  let agrs_next_door := filter (λ agr, is_Some (agr_node_addr_opt agr)) agrs in
  root_node ← root db;
  impostor ← (if accepts_connections root_node then find_impostor root_node agrs_next_door
              else mret None);
  match impostor with
  | Some agr => mret (Malformed (StandardClaimsLocalIp source (agr_key agr)))
  | None =>
      if existsb (λ agr, bool_decide (agr_key agr = public_key root_node)) agrs
      then mret (Malformed (StandardClaimsLocalKey source))
      else
        st ← fold_outcome collect_dup agrs_next_door (∅, ∅);
        if decide (st.2 = ∅) then mret Matched
        else mret (Malformed (StandardDuplicateIps source st.2))
  end.

(** Depth-first search through the neighbor lists of the local record and of
    the received records, in key order, up to [hops] away. *)
Fixpoint compute_patch_recursive (agrs : gmap PublicKey AccessibleGossipRecord)
    (root_node : NodeRecord) (hops : nat) (patch : gset PublicKey) (current : PublicKey) :
    gset PublicKey :=
  let patch := {[current]} ∪ patch in
  match hops with
  | O => patch
  | S hops' =>
      match (if decide (current = public_key root_node)
             then Some (inner_neighbors (inner root_node))
             else (λ agr, inner_neighbors (agr_inner agr)) <$> agrs !! current) with
      | None => patch ∖ {[current]}
      | Some neighbors =>
          foldl (λ patch n, if decide (n ∈ patch) then patch
                            else compute_patch_recursive agrs root_node hops' patch n)
            patch (btree_iter neighbors)
      end
  end.

(** Collecting pairs into a [HashMap]: a later record replaces an earlier one. *)
Definition agrs_by_key (agrs : list AccessibleGossipRecord) :
    gmap PublicKey AccessibleGossipRecord :=
  foldl (λ m agr, <[agr_key agr := agr]> m) ∅ agrs.

Definition compute_patch (agrs : list AccessibleGossipRecord) (root_node : NodeRecord)
    (db_patch_size : nat) : gset PublicKey :=
  compute_patch_recursive (agrs_by_key agrs) root_node db_patch_size ∅ (public_key root_node).

Definition filter_agrs_by_patch (agrs : list AccessibleGossipRecord) (patch : gset PublicKey) :
    list AccessibleGossipRecord :=
  filter (λ agr, agr_key agr ∈ patch) agrs.

(** A record is new if its key is unknown and it carries no address, or one of
    whose sockets is the source of the gossip. *)
Definition is_new_agr (all_keys : gset PublicKey) (source : SocketAddr)
    (agr : AccessibleGossipRecord) : bool :=
  negb (bool_decide (agr_key agr ∈ all_keys)) &&
  match agr_node_addr_opt agr with
  | None => true
  | Some a => bool_decide (source ∈ NodeAddr_to_sockets (NodeAddr_clone a))
  end.

Definition add_new_agr (prefs : option UserExitPreferences) (now : Z)
    (db : NeighborhoodDatabase) (agr : AccessibleGossipRecord) : outcome NeighborhoodDatabase :=
  p ← expect_ok (add_node db (assign_opt prefs (NodeRecord_from_agr_ref agr (time_t now))))
        "List of new Nodes contained existing Nodes";
  mret p.2.

Definition identify_and_add_non_introductory_new_nodes (db : NeighborhoodDatabase)
    (agrs : list AccessibleGossipRecord) (source : SocketAddr)
    (prefs : option UserExitPreferences) (now : Z) : outcome (bool * NeighborhoodDatabase) :=
  let all_keys := keys db in
  db' ← fold_outcome (add_new_agr prefs now)
          (filter (λ agr, is_new_agr all_keys source agr = true) agrs) db;
  mret (negb (bool_decide (size (keys db') = size all_keys)), db').

(** [update_database_record] on the record its caller found: the record is
    written back only if the update succeeds. *)
Definition update_database_record (db : NeighborhoodDatabase) (existing : NodeRecord)
    (agr : AccessibleGossipRecord) (now : Z) : bool * NeighborhoodDatabase :=
  match update existing agr (time_t now) with
  | Ok r => (true, with_nodes db (<[agr_key agr := r]> (by_public_key db)))
  | Err _ => (false, db)
  end.

(** The body of the fold of [identify_and_update_obsolete_nodes]. *)
Definition update_obsolete (now : Z) (st : bool * NeighborhoodDatabase)
    (agr : AccessibleGossipRecord) : bool * NeighborhoodDatabase :=
  let '(b, db) := st in
  match node_by_key db (agr_key agr) with
  | Some existing =>
      if version existing <? inner_version (agr_inner agr) then
        let '(updated, db) := update_database_record db existing agr now in (updated || b, db)
      else (b, db)
  | None => (b, db)
  end.

Definition identify_and_update_obsolete_nodes (db : NeighborhoodDatabase)
    (agrs : list AccessibleGossipRecord) (now : Z) : bool * NeighborhoodDatabase :=
  foldl (update_obsolete now) (false, db) agrs.

Definition add_src_node_as_half_neighbor (db : NeighborhoodDatabase) (source : SocketAddr)
    (now : Z) : outcome (bool * NeighborhoodDatabase) :=
  match node_by_ip db (sa_ip source) with
  | None => mret (false, db)
  | Some gossip_node =>
      root_rec ← root db;
      if (MAX_DEGREE <=? size (full_neighbor_keys root_rec db))%nat then mret (false, db)
      else
        match add_half_neighbor db (public_key gossip_node) (time_t now) with
        | Err _ => mret (false, db)
        | Ok (false, db) => mret (false, db)
        | Ok (true, db) => db ← bump_root db; mret (true, db)
        end
  end.

Definition check_full_neighbor (db : NeighborhoodDatabase) (ip : IpAddr) : outcome bool :=
  match node_by_ip db ip with
  | Some node => root_rec ← root db;
                 mret (db_has_full_neighbor db (public_key root_rec) (public_key node))
  | None => mret false
  end.

Definition standard_handle (db : NeighborhoodDatabase) (pt : PassTargets)
    (agrs : list AccessibleGossipRecord) (source : SocketAddr) (nm : NeighborhoodMetadata)
    (now : Z) : outcome Handled :=
  initial_status ← check_full_neighbor db (sa_ip source);
  root_rec ← root db;
  let patch := compute_patch agrs root_rec (db_patch_size nm) in
  let filtered_agrs := filter_agrs_by_patch agrs patch in
  p1 ← identify_and_add_non_introductory_new_nodes db filtered_agrs source
         (user_exit_preferences_opt nm) now;
  let '(changed1, db) := p1 in
  let '(changed2, db) := identify_and_update_obsolete_nodes db filtered_agrs now in
  p3 ← add_src_node_as_half_neighbor db source now;
  let '(changed3, db) := p3 in
  final_status ← check_full_neighbor db (sa_ip source);
  if changed3 || (changed2 || changed1) then
    mret (Accepted, db, pt,
          if negb initial_status && final_status
          then [mkCpm (sa_ip source) StandardGossipReceived] else [])
  else mret (Ignored, db, pt, []).

(** ** [RejectHandler] and the dispatch *)
Definition reject_qualifies (db : NeighborhoodDatabase)
    (agrs : list AccessibleGossipRecord) (source : SocketAddr) : outcome Qualification :=
  mret (Malformed (Unclassifiable (length agrs) source)).

Definition reject_handle (db : NeighborhoodDatabase) (pt : PassTargets)
    (agrs : list AccessibleGossipRecord) (source : SocketAddr) (nm : NeighborhoodMetadata)
    (now : Z) : outcome Handled :=
  Panic "Should never be called".

(** The [GossipHandler] trait. *)
Record GossipHandler := mkHandler {
  qualifies : NeighborhoodDatabase → list AccessibleGossipRecord → SocketAddr →
              outcome Qualification;
  handle : NeighborhoodDatabase → PassTargets → list AccessibleGossipRecord → SocketAddr →
           NeighborhoodMetadata → Z → outcome Handled
}.

Definition gossip_handlers : list GossipHandler :=
  [mkHandler debut_qualifies debut_handle;
   mkHandler pass_qualifies pass_handle;
   mkHandler introduction_qualifies introduction_handle;
   mkHandler standard_qualifies standard_handle;
   mkHandler reject_qualifies reject_handle].

(** The first handler that does not answer [Unmatched]. *)
Fixpoint find_handler (hs : list GossipHandler) (db : NeighborhoodDatabase)
    (agrs : list AccessibleGossipRecord) (source : SocketAddr) :
    outcome (Qualification * GossipHandler) :=
  match hs with
  | [] => Panic "gossip_handlers should intercept everything"
  | h :: hs' =>
      q ← qualifies h db agrs source;
      match q with
      | Unmatched => find_handler hs' db agrs source
      | _ => mret (q, h)
      end
  end.

(** [GossipAcceptorReal::handle]. *)
Definition acceptor_handle (db : NeighborhoodDatabase) (pt : PassTargets)
    (agrs : list AccessibleGossipRecord) (source : SocketAddr) (nm : NeighborhoodMetadata)
    (now : Z) : outcome Handled :=
  p ← find_handler gossip_handlers db agrs source;
  match p.1 with
  | Matched => handle p.2 db pt agrs source nm now
  | Unmatched => Panic "Nothing in gossip_handlers returned Matched or Malformed"
  | Malformed reason => mret (Ban (BanMalformed reason), db, pt, [])
  end.
End acceptor.
