(* ===== verification/GossipAcceptorFacts.v ===== *)
(** * Facts about the gossip acceptor

    How the database evolves under the handlers of [GossipAcceptor.v]: the
    invariant is kept, known records are only replaced by newer ones, and no
    handler panics on the gossip it qualifies for. *)

From S2P Require Import Prelude.
From S2P Require Import NodeAddr.
From S2P Require Import NodeRecord.
From S2P Require Import NeighborhoodDatabase.
From S2P Require Import Gossip.
From S2P Require Import ExitPreferences.
From S2P Require Import GossipAcceptor.

(** ** How a database may evolve *)

(** A record is kept, or replaced by a strictly newer one with the same rates
    and, if the address was known, the same address. *)
Definition record_newer (r r' : NodeRecord) : Prop :=
  r' = r ∨ (version r < version r' ∧ rate_pack r' = rate_pack r ∧
            ∀ a, md_node_addr_opt (metadata r) = Some a → md_node_addr_opt (metadata r') = Some a).

(** The local record only gains half neighbors; its key, address, mode and rates
    stay. *)
Definition root_evolves (r r' : NodeRecord) : Prop :=
  public_key r' = public_key r ∧ half_neighbor_keys r ⊆ half_neighbor_keys r' ∧
  accepts_connections r' = accepts_connections r ∧ rate_pack r' = rate_pack r ∧
  md_node_addr_opt (metadata r') = md_node_addr_opt (metadata r).

Record evolves (db db' : NeighborhoodDatabase) : Prop := {
  ev_this : this_node db' = this_node db;
  ev_nodes k r : k ≠ this_node db → node_by_key db k = Some r →
    ∃ r', node_by_key db' k = Some r' ∧ record_newer r r';
  ev_root r : node_by_key db (this_node db) = Some r →
    ∃ r', node_by_key db' (this_node db) = Some r' ∧ root_evolves r r'
}.

#[export] Instance record_newer_preorder : PreOrder record_newer.
Proof.
  split; [by left|]. intros r1 r2 r3 [->|(Hv & Hr & Ha)] H23; [done|].
  destruct H23 as [->|(Hv' & Hr' & Ha')]; [by right|right].
  split_and!; [lia|congruence|]. intros a ?. by apply Ha', Ha.
Qed.

#[export] Instance root_evolves_preorder : PreOrder root_evolves.
Proof.
  split; [done|]. intros r1 r2 r3 (?&?&?&?&?) (?&?&?&?&?).
  split_and!; [congruence|by etransitivity|congruence..].
Qed.

#[export] Instance evolves_preorder : PreOrder evolves.
Proof.
  split.
  - intros db. split; [done| |]; intros *; [intros _|]; intros H; eexists; by split.
  - intros d1 d2 d3 H12 H23. pose proof (ev_this _ _ H12) as E. split.
    + by rewrite (ev_this _ _ H23).
    + intros k r Hk (r' & Hr' & Hn)%(ev_nodes _ _ H12); [|done].
      rewrite <-E in Hk. destruct (ev_nodes _ _ H23 _ _ Hk Hr') as (r'' & ? & ?).
      exists r''. split; [done|by etransitivity].
    + intros r (r' & Hr' & Hn)%(ev_root _ _ H12). rewrite <-E in Hr'.
      destruct (ev_root _ _ H23 _ Hr') as (r'' & ? & ?). rewrite <-E.
      exists r''. split; [done|by etransitivity].
Qed.

(** The invariant holds after the step, and the step is an evolution. *)
Definition good (db db' : NeighborhoodDatabase) : Prop := db_inv db' ∧ evolves db db'.

Lemma good_refl db : db_inv db → good db db.
Proof. intros H. split; [done|reflexivity]. Qed.

Lemma good_trans d1 d2 d3 : good d1 d2 → good d2 d3 → good d1 d3.
Proof. intros [_ H12] [H3 H23]. split; [done|by etransitivity]. Qed.

(** ** Elementary steps *)
Section steps.
Context `{HO : HashOrder} `{CBOR : SerdeCbor} `{CL : CountryLookup}.
Implicit Types (db : NeighborhoodDatabase) (r : NodeRecord) (k : PublicKey).

Lemma good_add db r :
  db_inv db → node_by_key db (public_key r) = None → good db (add_arbitrary_node db r).
Proof.
  intros Hinv Hn. split; [by apply add_arbitrary_node_inv|].
  assert (∀ k r', node_by_key db k = Some r' →
            node_by_key (add_arbitrary_node db r) k = Some r') as Hl.
  { intros k r' Hr'. rewrite lookup_add_arbitrary_node, decide_False; [done|congruence]. }
  split; [done| |]; intros *; [intros _|]; intros H; eexists; split; eauto; done.
Qed.

Lemma good_update db k r r' :
  db_inv db → k ≠ this_node db → node_by_key db k = Some r →
  public_key r' = k → record_newer r r' →
  good db (with_nodes db (<[k := r']> (by_public_key db))).
Proof.
  intros Hinv Hne Hr Hk Hn. split.
  - apply (set_record_inv _ _ r); [done..| |done]. intros a Ha. exists a. split; [|done].
    destruct Hn as [->|(_ & _ & H)]; [done|by apply H].
  - split; [done| |].
    + intros k' x _ Hx. rewrite lookup_set_record. case_decide; [|eexists; by split].
      subst k'. simplify_eq. eauto.
    + intros x Hx. rewrite lookup_set_record, decide_False by done. eexists; by split.
Qed.

(** Replacing the local record by one with at least its wiring. *)
Lemma good_root db r r' :
  db_inv (with_nodes db (<[this_node db := r']> (by_public_key db))) →
  node_by_key db (this_node db) = Some r → root_evolves r r' →
  good db (with_nodes db (<[this_node db := r']> (by_public_key db))).
Proof.
  intros Hinv Hr Hev. split; [done|]. split; [done| |].
  - intros k x Hk Hx. rewrite lookup_set_record, decide_False by done. eexists; by split.
  - intros x Hx. simplify_eq. rewrite lookup_set_record, decide_True by done. eauto.
Qed.

Lemma good_neighbored db k now r n :
  db_inv db → node_by_key db (this_node db) = Some r → k ≠ this_node db →
  node_by_key db k = Some n → is_Some (md_node_addr_opt (metadata n)) →
  good db (with_nodes db (<[this_node db := neighbored r k now]> (by_public_key db))).
Proof.
  intros Hinv Hr Hne Hn Ha. apply (good_root _ r); [by eapply neighbored_inv|done|].
  split_and!; try done. unfold half_neighbor_keys. simpl. set_solver.
Qed.

(** [add_half_neighbor] on a known node that has an address. *)
Lemma good_add_half_neighbor db k now n :
  db_inv db → node_by_key db k = Some n → is_Some (md_node_addr_opt (metadata n)) →
  match add_half_neighbor db k now with
  | Ok (b, db') => good db db' ∧ (b = false → db' = db) ∧
      ∃ r', node_by_key db' (this_node db) = Some r' ∧ k ∈ half_neighbor_keys r'
  | Err _ => k = this_node db
  end.
Proof.
  intros Hinv Hn Ha. destruct (inv_root _ Hinv) as [r Hr].
  rewrite (add_half_neighbor_cases _ _ _ r) by done. rewrite decide_False by congruence.
  destruct (decide (k ∈ half_neighbor_keys r)).
  { split_and!; [by apply good_refl|done|eauto]. }
  destruct (decide (k = this_node db)); [done|].
  split_and!; [by eapply good_neighbored|done|].
  eexists. rewrite lookup_set_record, decide_True by done. split; [done|].
  unfold half_neighbor_keys. simpl. set_solver.
Qed.

Lemma bump_root_good c `{!CryptDEOk c} db :
  db_inv db →
  returns (bump_root c db) (λ db', good db db' ∧ by_ip_addr db' = by_ip_addr db ∧
    (∀ k, k ≠ this_node db → node_by_key db' k = node_by_key db k) ∧
    ∃ r r', node_by_key db (this_node db) = Some r ∧
      node_by_key db' (this_node db) = Some r' ∧
      half_neighbor_keys r' = half_neighbor_keys r ∧
      version r' = u32 (version r + 1) ∧ from_slice (signed_gossip r') = Some (inner r')).
Proof.
  intros Hinv. unfold bump_root, root_mut.
  destruct (root_ret _ Hinv) as (r & -> & Hr). simpl. ret_step.
  eapply returns_mono; [by apply regenerate_returns|]. intros r' (Hi & Hm & Hs & _). ret_step.
  assert (same_wiring r r') as Hw.
  { unfold same_wiring, public_key, half_neighbor_keys, accepts_connections.
    by rewrite Hi, Hm. }
  split_and!; [|done| |].
  - apply (good_root _ r); [by eapply same_wiring_inv|done|].
    destruct Hw as (Hk & Hh & Hacc & Ha).
    split_and!; [done|by rewrite Hh|done| |done]. unfold rate_pack. by rewrite Hi.
  - intros k Hk. by rewrite lookup_set_record, decide_False.
  - exists r, r'. rewrite lookup_set_record, decide_True by done.
    destruct Hw as (Hk & Hh & _). split_and!; try done; [unfold version|]; by rewrite Hi.
Qed.

(** ** Iterators *)

Lemma elem_of_keys_ordered db ks ex k :
  k ∈ keys_ordered_by_degree_excluding db ks ex ↔ k ∈ ks ∧ k ∉ ex.
Proof.
  unfold keys_ordered_by_degree_excluding.
  rewrite merge_sort_Permutation, elem_of_hash_iter. set_solver.
Qed.

Lemma elem_of_skip_while {A} (f : A → bool) (l : list A) x : x ∈ skip_while f l → x ∈ l.
Proof. induction l as [|y l IH]; simpl; [done|]. destruct (f y); set_solver. Qed.

Lemma elem_of_head {A} (l : list A) x : head l = Some x → x ∈ l.
Proof. destruct l; simpl; [done|]. intros [= ->]. left. Qed.

(** The accepting nodes among the full neighbors of the local node. *)
Lemma accepting_ret db (l : list PublicKey) :
  (∀ k, k ∈ l → is_Some (node_by_key db k)) →
  ∃ l', filter_outcome (key_accepts_connections db) l = Ret l' ∧ ∀ k, k ∈ l' → k ∈ l.
Proof.
  intros Hl. eexists. split.
  - apply (filter_outcome_ret _ (λ k, match node_by_key db k with
                                      | Some r => accepts_connections r | None => false end)).
    intros k Hk. unfold key_accepts_connections. destruct (Hl k Hk) as [r Hr]. by rewrite Hr.
  - intros k. rewrite list_elem_of_filter. tauto.
Qed.

Lemma root_full_neighbor_present db r k :
  db_inv db → node_by_key db (this_node db) = Some r → k ∈ full_neighbor_keys r db →
  k ∈ half_neighbor_keys r ∧ k ≠ this_node db ∧
  ∃ n, node_by_key db k = Some n ∧ is_Some (md_node_addr_opt (metadata n)).
Proof.
  intros Hinv Hr [Hk _]%elem_of_full_neighbor_keys. split; [done|]. split.
  - intros ->. by apply (inv_self _ Hinv _ Hr).
  - by apply (inv_neighbors _ Hinv _ _ Hr).
Qed.

(** ** New records *)

Lemma assign_opt_frame prefs r :
  inner (assign_opt prefs r) = inner r ∧
  md_node_addr_opt (metadata (assign_opt prefs r)) = md_node_addr_opt (metadata r).
Proof.
  destruct prefs as [p|]; [|done]. simpl.
  destruct (assign_undesirability_frame p r) as (? & _ & _ & ?). auto.
Qed.

Lemma assign_opt_key prefs r : public_key (assign_opt prefs r) = public_key r.
Proof. unfold public_key. by destruct (assign_opt_frame prefs r) as [-> _]. Qed.

(** Adding a record made from gossip about an unknown node, whose address, if
    given, has ports. *)
Lemma add_node_from_agr db prefs r :
  node_by_key db (public_key r) = None →
  (∀ a, md_node_addr_opt (metadata r) = Some a → na_ports a ≠ []) →
  add_node db (assign_opt prefs r) = Ok (public_key r, add_arbitrary_node db (assign_opt prefs r)).
Proof.
  intros Hn Hp. rewrite add_node_ok; rewrite ?assign_opt_key; [done|done|].
  by destruct (assign_opt_frame prefs r) as [_ ->].
Qed.

(** What every handler guarantees: the database evolves, it is unchanged when
    the gossip is ignored or its sender is banned, and a pass target is only
    ever stamped with the current time. *)
Definition quiet (res : GossipAcceptanceResult) : bool :=
  match res with Ignored | Ban _ => true | _ => false end.

Definition handled_ok db (pt : PassTargets) (now : Z) (h : Handled) : Prop :=
  let '(res, db', pt', _) := h in
  good db db' ∧ (quiet res = true → db' = db) ∧
  ∀ ip t, pt' !! ip = Some t → pt !! ip = Some t ∨ t = now.

Lemma handled_same db res pt now msgs : db_inv db → handled_ok db pt now (res, db, pt, msgs).
Proof. intros H. split_and!; [by apply good_refl|done|auto]. Qed.

Lemma pass_target_inserted (pt : PassTargets) ip0 now ip t :
  <[ip0 := now]> pt !! ip = Some t → pt !! ip = Some t ∨ t = now.
Proof. rewrite lookup_insert. case_decide; [|auto]. intros [= <-]. auto. Qed.
End steps.

(** ** The debut handler *)
Section debut.
Context `{HO : HashOrder} `{CBOR : SerdeCbor} `{CL : CountryLookup}.
Variables (c : CryptDE).
Context `{!CryptDEOk c}.
Implicit Types (db : NeighborhoodDatabase) (agr : AccessibleGossipRecord).

Lemma find_more_appropriate_returns db agr :
  db_inv db →
  returns (find_more_appropriate_neighbor db agr) (λ o, ∀ k, o = Some k →
    ∃ n, node_by_key db k = Some n ∧ is_Some (md_node_addr_opt (metadata n))).
Proof.
  intros Hinv. destruct (root_ret _ Hinv) as (r & Hroot & Hr).
  unfold find_more_appropriate_neighbor, root_full_neighbors_ordered_by_degree_excluding.
  rewrite Hroot. cbn [mbind outcome_bind mret outcome_ret].
  set (l := keys_ordered_by_degree_excluding _ _ _).
  assert (∀ k, k ∈ l → ∃ n, node_by_key db k = Some n ∧
            is_Some (md_node_addr_opt (metadata n))) as Hl.
  { intros k [Hk _]%elem_of_keys_ordered.
    by destruct (root_full_neighbor_present _ _ _ Hinv Hr Hk) as (_ & _ & ?). }
  destruct (accepting_ret db l) as (l' & -> & Hl').
  { intros k Hk. destruct (Hl k Hk) as (n & -> & _). eauto. }
  cbn [mbind outcome_bind]. destruct (head (skip_while _ l')) as [k|] eqn:Hh; [|done].
  destruct (_ <=? _)%nat; simpl; [done|]. intros ? [= <-].
  by apply Hl, Hl', (elem_of_skip_while _ _ _ (elem_of_head _ _ Hh)).
Qed.

Lemma pass_gossip_ret db k n :
  node_by_key db k = Some n →
  make_pass_gossip db k = Ret (mkGossip [gnr_of true n]).
Proof.
  intros Hn. unfold make_pass_gossip. by rewrite (builder_node_ok _ _ _ n).
Qed.

Lemma least_connected_full_returns db r agr :
  db_inv db → node_by_key db (this_node db) = Some r →
  returns (find_least_connected_full_neighbor_excluding db agr)
    (λ o, ∀ k, o = Some k → k ∈ full_neighbor_keys r db).
Proof.
  intros Hinv Hr. unfold find_least_connected_full_neighbor_excluding, root. rewrite Hr.
  cbn [mbind outcome_bind expect].
  destruct (accepting_ret db (hash_iter (full_neighbor_keys r db))) as (l & -> & Hl).
  { intros k. rewrite elem_of_hash_iter. intros Hk.
    destruct (root_full_neighbor_present _ _ _ Hinv Hr Hk) as (_ & _ & n & -> & _). eauto. }
  simpl. intros k Hk%elem_of_head. apply elem_of_keys_ordered in Hk as [Hk _].
  rewrite elem_of_list_to_set in Hk. by apply elem_of_hash_iter, Hl.
Qed.

Lemma make_introduction_returns db agr source :
  db_inv db → returns (make_introduction db agr source) (λ _, True).
Proof.
  intros Hinv. destruct (root_ret _ Hinv) as (r & Hroot & Hr). unfold make_introduction. ret_step.
  eapply returns_mono; [by apply least_connected_full_returns|].
  intros [k|] Hk; [|done].
  destruct (root_full_neighbor_present _ _ _ Hinv Hr (Hk k eq_refl)) as (_ & Hne & n & Hn & _).
  rewrite Hn. cbn [mbind outcome_bind expect]. rewrite Hroot. cbn [mbind outcome_bind].
  assert (public_key r = this_node db) as Hpk by by apply (inv_keys _ Hinv).
  rewrite (builder_node_ok _ _ _ r) by (rewrite ?Hpk; done). cbn [mbind outcome_bind].
  rewrite (builder_node_ok _ _ _ n); simpl; [done|done|]. rewrite Hpk. set_solver.
Qed.

Lemma create_debut_response_returns db k :
  db_inv db → k ≠ this_node db → returns (create_debut_gossip_response c db k) (λ _, True).
Proof.
  intros Hinv Hne. destruct (root_ret _ Hinv) as (r & Hroot & Hr).
  unfold create_debut_gossip_response. rewrite Hroot. cbn [mbind outcome_bind].
  rewrite add_half_neighbor_key_ok by (by rewrite (inv_keys _ Hinv _ _ Hr : public_key (clear_half_neighbors (NodeRecord_clone r)) = _)).
  cbn [expect_ok mbind outcome_bind]. unfold Gnr_from_inner.
  match goal with |- context [to_vec ?i] => destruct (cbor_roundtrip i) as (bs & -> & _) end.
  cbn [expect mbind outcome_bind]. by destruct (sign_ok (c := c) bs) as (s & -> & _).
Qed.

(** Accepting a debut: the debuter becomes a known half neighbor and the local
    record is re-signed at the next version. *)
Definition debut_accepted db agr db' : Prop :=
  good db db' ∧
  (gossip_target_degree db (this_node db) < MAX_DEGREE)%nat ∧
  ∃ n r r', node_by_key db' (agr_key agr) = Some n ∧ inner n = agr_inner agr ∧
    node_by_key db (this_node db) = Some r ∧ node_by_key db' (this_node db) = Some r' ∧
    half_neighbor_keys r' = {[agr_key agr]} ∪ half_neighbor_keys r ∧
    version r' = u32 (version r + 1) ∧ from_slice (signed_gossip r') = Some (inner r').

(** The database after adding the debuter and naming it a half neighbor. *)
Lemma debut_database db agr prefs now a :
  db_inv db → node_by_key db (agr_key agr) = None →
  agr_node_addr_opt agr = Some a → na_ports a ≠ [] →
  let n := assign_opt prefs (NodeRecord_from_agr_ref agr now) in
  ∃ r, node_by_key db (this_node db) = Some r ∧ agr_key agr ≠ this_node db ∧
    add_node db n = Ok (agr_key agr, add_arbitrary_node db n) ∧
    inner n = agr_inner agr ∧
    node_by_key (add_arbitrary_node db n) (agr_key agr) = Some n ∧
    let db2 := with_nodes (add_arbitrary_node db n)
      (<[this_node db := neighbored r (agr_key agr) now]> (by_public_key (add_arbitrary_node db n))) in
    add_half_neighbor (add_arbitrary_node db n) (agr_key agr) now = Ok (true, db2) ∧ good db db2.
Proof.
  intros Hinv Hnone Ha Hp n. destruct (inv_root _ Hinv) as [r Hr].
  assert (agr_key agr ≠ this_node db) as Hne by congruence.
  destruct (assign_opt_frame prefs (NodeRecord_from_agr_ref agr now)) as [Hi Hm].
  simpl in Hi, Hm. fold n in Hi, Hm.
  assert (public_key n = agr_key agr) as Hk by (unfold public_key; by rewrite Hi).
  assert (good db (add_arbitrary_node db n)) as Hg by (apply good_add; by rewrite ?Hk).
  assert (node_by_key (add_arbitrary_node db n) (agr_key agr) = Some n) as Hn
    by by rewrite lookup_add_arbitrary_node, decide_True.
  assert (node_by_key (add_arbitrary_node db n) (this_node db) = Some r) as Hr1.
  { rewrite lookup_add_arbitrary_node, decide_False; [done|]. by rewrite Hk. }
  exists r. cbv zeta. split_and!; try done.
  - unfold n. rewrite add_node_from_agr; [done|done|].
    simpl. rewrite Ha. intros ? [= <-] E. by apply Hp, NodeAddr_clone_no_ports.
  - rewrite (add_half_neighbor_cases _ _ _ r); [|by apply Hg|done].
    rewrite decide_False by congruence. rewrite (decide_False (P := _ ∈ _)).
    { by rewrite decide_False. }
    intros Hin. destruct (inv_neighbors _ Hinv _ _ Hr Hin) as (? & ? & _). congruence.
  - eapply good_trans; [done|]. change (this_node db) with (this_node (add_arbitrary_node db n)).
    eapply good_neighbored; [by apply Hg|done|done|done|]. rewrite Hm, Ha. eauto.
Qed.

Lemma try_accept_debut_returns db agr source prefs now a :
  db_inv db → node_by_key db (agr_key agr) = None →
  agr_node_addr_opt agr = Some a → na_ports a ≠ [] →
  returns (try_accept_debut c db agr source prefs now) (λ o, match o with
    | None => (MAX_DEGREE ≤ gossip_target_degree db (this_node db))%nat
    | Some (res, db') => debut_accepted db agr db' ∧ quiet res = false end).
Proof.
  intros Hinv Hnone Ha Hp. destruct (debut_database db agr prefs (time_t now) a)
    as (r & Hr & Hne & Hadd & Hi & Hn & Hhalf & Hg2); [done..|].
  unfold try_accept_debut, root. rewrite Hr. cbn [expect mbind outcome_bind].
  rewrite (inv_keys _ Hinv _ _ Hr). destruct (Nat.leb_spec MAX_DEGREE
    (gossip_target_degree db (this_node db))) as [|Hdeg]; [done|].
  rewrite Hadd. cbn [expect_ok mbind outcome_bind].
  rewrite Hhalf. set (db2 := with_nodes _ _) in *. ret_step.
  eapply returns_mono; [apply bump_root_good; [done|apply Hg2]|].
  intros db3 (Hg3 & Hip & Hoth & r2 & r3 & Hr2 & Hr3 & Hh & Hv & Hs).
  assert (debut_accepted db agr db3) as Hacc.
  { split_and!; [by eapply good_trans|done|]. unfold db2 in Hr2. rewrite lookup_set_record, decide_True in Hr2 by done.
    injection Hr2 as <-. eexists _, r, r3. split_and!; try done.
    rewrite Hoth by done. unfold db2. by rewrite lookup_set_record, decide_False. }
  destruct (should_not_make_another_introduction agr); [done|]. ret_step.
  eapply returns_mono; [apply make_introduction_returns; apply Hacc|].
  intros [[[g k] na]|] _; [done|]. ret_step.
  eapply returns_mono; [apply create_debut_response_returns; [apply Hacc|]|].
  { destruct Hacc as [[_ Hev] _]. by rewrite (ev_this _ _ Hev). }
  intros g _. by rewrite Ha.
Qed.

(** The record of a debuter that qualified always has a usable address. *)
Lemma debut_source_agr_addr agr source :
  (∀ a, agr_node_addr_opt agr = Some a → na_ports a ≠ []) →
  agr_key (debut_source_agr agr source) = agr_key agr ∧
  ∃ a, agr_node_addr_opt (debut_source_agr agr source) = Some a ∧ na_ports a ≠ [].
Proof.
  intros H. unfold debut_source_agr. destruct (agr_node_addr_opt agr) as [a|] eqn:E.
  { split; [done|]. rewrite E. eauto. }
  split; [done|]. eexists. split; [done|]. intros Hp.
  assert (sa_port source ∈ na_ports (NodeAddr_from_socket source)) as Hin
    by (apply elem_of_NodeAddr_new; set_solver).
  rewrite Hp in Hin. set_solver.
Qed.

Lemma debut_handle_returns db pt agr source nm now :
  db_inv db → node_by_key db (agr_key agr) = None →
  (∀ a, agr_node_addr_opt agr = Some a → na_ports a ≠ []) →
  returns (debut_handle c db pt [agr] source nm now) (λ h, handled_ok db pt now h ∧
    let '(res, db', pt', msgs) := h in pt' = pt ∧ msgs = [] ∧
    (db' = db ∨ debut_accepted db agr db') ∧
    (find_more_appropriate_neighbor db (debut_source_agr agr source) = Ret None →
     (gossip_target_degree db (this_node db) < MAX_DEGREE)%nat → debut_accepted db agr db')).
Proof.
  intros Hinv Hnone Hports. unfold debut_handle. cbn [head expect mbind outcome_bind].
  destruct (debut_source_agr_addr agr source Hports) as (Hk & a & Ha & Hp).
  assert (agr_inner (debut_source_agr agr source) = agr_inner agr) as Hin.
  { unfold debut_source_agr. by destruct (agr_node_addr_opt agr). }
  set (sagr := debut_source_agr agr source) in *. rewrite Ha. cbn [expect mbind outcome_bind].
  destruct (returns_inv _ _ (find_more_appropriate_returns db sagr Hinv)) as (o & -> & Hpk).
  cbn [mbind outcome_bind]. destruct o as [pk|].
  { destruct (Hpk pk eq_refl) as (n & Hn & [na Hna]). rewrite Hn. cbn [expect mbind outcome_bind].
    unfold node_addr_opt. rewrite Hna. cbn [fmap option_fmap option_map expect mbind outcome_bind].
    rewrite (pass_gossip_ret _ _ n) by done.
    split; [by apply handled_same|]. split_and!; auto; done. }
  ret_step. eapply returns_mono; [apply (try_accept_debut_returns db sagr source _ now a); congruence|].
  intros [[res db']|] Hres.
  { destruct Hres as [Hacc Hq]. simpl. split; [split_and!; [apply Hacc|congruence|auto]|].
    assert (debut_accepted db agr db') by (unfold debut_accepted in *; by rewrite Hk, Hin in Hacc).
    auto. }
  destruct (root_ret _ Hinv) as (r & Hroot & Hr).
  unfold find_least_connected_half_neighbor_excluding. rewrite Hroot.
  cbn [mbind outcome_bind mret outcome_ret].
  destruct (find_least_connected_neighbor_excluding _ _ _) as [lk|] eqn:Hl.
  - unfold find_least_connected_neighbor_excluding in Hl.
    apply elem_of_head, elem_of_keys_ordered in Hl as [Hl _].
    destruct (inv_neighbors _ Hinv _ _ Hr Hl) as (n & Hn & _). rewrite Hn.
    cbn [expect mbind outcome_bind]. rewrite (pass_gossip_ret _ _ n) by done.
    split; [by apply handled_same|]. split_and!; auto; lia.
  - split; [by apply handled_same|]. split_and!; auto; lia.
Qed.
End debut.

(** ** The pass handler *)
Section pass.
Context `{HO : HashOrder} `{CBOR : SerdeCbor} `{CL : CountryLookup}.
Implicit Types (db : NeighborhoodDatabase) (agr : AccessibleGossipRecord).

(** The debut sent to another node: the local record with its address. *)
Lemma root_debut_ret db r :
  db_inv db → node_by_key db (this_node db) = Some r →
  builder_node db builder_new (public_key r) true =
    Ret (mkBuilder [gnr_of true r] ({[public_key r]} ∪ ∅)).
Proof.
  intros Hinv Hr. rewrite (builder_node_ok _ _ _ r); [done| |set_solver].
  by rewrite (inv_keys _ Hinv _ _ Hr).
Qed.

Lemma pass_reply_ret db r k a :
  db_inv db → node_by_key db (this_node db) = Some r →
  pass_reply db k a = Ret (Reply (mkGossip [gnr_of true r]) k a).
Proof.
  intros Hinv Hr. unfold pass_reply, root. rewrite Hr. cbn [expect mbind outcome_bind].
  by rewrite root_debut_ret.
Qed.

(** What [pass_handle] does, in closed form. *)
Lemma pass_handle_ret db pt agr agrs source nm now r a :
  db_inv db → node_by_key db (this_node db) = Some r →
  agr_node_addr_opt agr = Some a →
  (∀ t, pt !! na_ip_addr a = Some t → t ≤ now) →
  pass_handle db pt (agr :: agrs) source nm now =
    let looping := match pt !! na_ip_addr a with
                   | None => bool_decide (na_ip_addr a ∈ connection_progress_peers nm)
                   | Some t => now - t <=? PASS_GOSSIP_EXPIRED_TIME
                   end in
    if looping
    then Ret (Ignored, db, (match pt !! na_ip_addr a with Some _ => <[na_ip_addr a := now]> pt | None => pt end),
              [mkCpm (sa_ip source) PassLoopFound])
    else Ret (Reply (mkGossip [gnr_of true r]) (agr_key agr) (NodeAddr_clone a), db,
              <[na_ip_addr a := now]> pt,
              [mkCpm (sa_ip source) (PassGossipReceived (na_ip_addr a))]).
Proof.
  intros Hinv Hr Ha Ht. unfold pass_handle. cbn [head expect mbind outcome_bind].
  rewrite Ha. cbn [expect mbind outcome_bind]. autorewrite with addr.
  rewrite (pass_reply_ret _ r) by done. cbn [mbind outcome_bind].
  destruct (pt !! na_ip_addr a) as [t|].
  - specialize (Ht t eq_refl). destruct (Z.ltb_spec now t); [lia|].
    by destruct (now - t <=? PASS_GOSSIP_EXPIRED_TIME).
  - by destruct (decide _); [rewrite bool_decide_true|rewrite bool_decide_false].
Qed.

Lemma pass_handle_returns db pt agr source nm now a :
  db_inv db → agr_node_addr_opt agr = Some a →
  (∀ t, pt !! na_ip_addr a = Some t → t ≤ now) →
  returns (pass_handle db pt [agr] source nm now) (handled_ok db pt now).
Proof.
  intros Hinv Ha Ht. destruct (inv_root _ Hinv) as [r Hr].
  rewrite (pass_handle_ret _ _ _ _ _ _ _ r a) by done. simpl.
  destruct (pt !! na_ip_addr a); case_match; try (by apply handled_same);
    (split_and!; [by apply good_refl|done|apply pass_target_inserted]).
Qed.
End pass.

(** ** The introduction handler *)
Section introduction.
Context `{HO : HashOrder} `{CBOR : SerdeCbor} `{CL : CountryLookup}.
Variables (c : CryptDE).
Context `{!CryptDEOk c}.
Implicit Types (db : NeighborhoodDatabase) (agr : AccessibleGossipRecord).

(** Gossip that qualifies as an introduction: the introducer is not the local
    node, speaks from its own address, and introduces an unknown node at
    another address. *)
Definition introduces db (agrs : list AccessibleGossipRecord) (source : SocketAddr)
    (introducer introducee : AccessibleGossipRecord) : Prop :=
  identify_players agrs source = Ret (Ok (introducer, introducee)) ∧
  introducer ∈ agrs ∧ introducee ∈ agrs ∧
  agr_key introducer ≠ this_node db ∧ node_by_key db (agr_key introducee) = None ∧
  ∃ a1 a2, agr_node_addr_opt introducer = Some a1 ∧ na_ports a1 ≠ [] ∧
    na_ip_addr a1 = sa_ip source ∧
    agr_node_addr_opt introducee = Some a2 ∧ na_ports a2 ≠ [] ∧ na_ip_addr a2 ≠ sa_ip source.

Lemma verify_introducer_spec db r agr a :
  public_key r = this_node db → agr_node_addr_opt agr = Some a →
  returns (verify_introducer agr r) (λ o, match o with
    | None => agr_key agr ≠ this_node db ∧ na_ports a ≠ []
    | Some q => ∃ why, q = Malformed why end).
Proof.
  intros Hr Ha. unfold verify_introducer. rewrite Ha, Hr. cbn [expect mbind outcome_bind].
  case_decide; [by eexists|]. case_decide; [by eexists|].
  destruct (node_addr_opt r); [|done]. case_decide; [by eexists|done].
Qed.

Lemma verify_introducee_spec db introducer agr source :
  verify_introducee db introducer agr source = None →
  node_by_key db (agr_key agr) = None ∧
  ∃ a, agr_node_addr_opt agr = Some a ∧ na_ports a ≠ [] ∧ na_ip_addr a ≠ sa_ip source.
Proof.
  unfold verify_introducee. case_decide as Hn; [done|].
  destruct (agr_node_addr_opt agr) as [a|]; [|done]. do 2 (case_decide; [done|]).
  intros _. split; [by apply eq_None_not_Some|eauto].
Qed.

Lemma introduction_qualifies_returns db agrs source :
  db_inv db →
  returns (introduction_qualifies db agrs source) (λ q, q = Matched →
    ∃ introducer introducee, introduces db agrs source introducer introducee).
Proof.
  intros Hinv. destruct (root_ret _ Hinv) as (r & Hroot & Hr). unfold introduction_qualifies.
  case_decide as Hlen; [done|].
  destruct agrs as [|g1 [|g2 [|]]]; try (simpl in Hlen; lia).
  unfold order_is_introducee_introducer. cbn [lookup list_lookup expect mbind outcome_bind].
  destruct (agr_node_addr_opt g1) as [a1|] eqn:Ha1; [|done].
  destruct (agr_node_addr_opt g2) as [a2|] eqn:Ha2; [|done]. rewrite Hroot.
  assert (∀ i1 i2 a, agr_node_addr_opt i1 = Some a → na_ip_addr a = sa_ip source →
    i1 ∈ [g1; g2] → i2 ∈ [g1; g2] →
    identify_players [g1; g2] source = Ret (Ok (i1, i2)) →
    returns (v ← verify_introducer i1 r;
             match v with
             | Some q => mret q
             | None => mret (default Matched (verify_introducee db i1 i2 source))
             end) (λ q, q = Matched →
      ∃ introducer introducee, introduces db [g1; g2] source introducer introducee)) as Hverify.
  { intros i1 i2 a Ha Hip Hin1 Hin2 Hid. apply returns_bind. eapply returns_mono.
    { by apply (verify_introducer_spec db), Ha; apply (inv_keys _ Hinv). }
    intros [q|]; [by intros [why ->]|]. intros [Hk Hp].
    destruct (verify_introducee db i1 i2 source) as [q|] eqn:Hv.
    - revert Hv. unfold verify_introducee. repeat case_match; by intros [= <-].
    - destruct (verify_introducee_spec _ _ _ _ Hv) as (Hn & a' & Ha' & Hp' & Hip').
      intros _. exists i1, i2. split_and!; try done. by exists a, a'. }
  destruct (decide (na_ip_addr a1 = sa_ip source)) as [E1|E1].
  - apply (Hverify g1 g2 a1); try done; [set_solver..|].
    unfold identify_players, order_is_introducee_introducer. simpl. rewrite Ha1, Ha2.
    by rewrite decide_True.
  - destruct (decide (na_ip_addr a2 = sa_ip source)) as [E2|E2]; [|done].
    apply (Hverify g2 g1 a2); try done; [set_solver..|].
    unfold identify_players, order_is_introducee_introducer. simpl. rewrite Ha1, Ha2.
    by rewrite decide_False, decide_True.
Qed.

Lemma update_newer r agr now r' :
  update r agr now = Ok r' → version r < inner_version (agr_inner agr) → record_newer r r'.
Proof.
  intros Hu Hv. right. pose proof (λ a, update_ip _ _ _ _ a Hu) as Hip.
  apply update_ok_inv in Hu as (_ & Hrp & addr & _ & ->). split_and!; [done|done|].
  intros a Ha. by apply Hip.
Qed.

Lemma update_known_addr r agr now r' a :
  update r agr now = Ok r' → agr_node_addr_opt agr = Some a →
  is_Some (md_node_addr_opt (metadata r')).
Proof.
  intros (_ & _ & addr & Hm & ->)%update_ok_inv Ha. simpl. rewrite Ha in Hm.
  destruct (md_node_addr_opt (metadata r)); simpl in Hm; [case_decide|]; simplify_eq; eauto.
Qed.

(** The second half of [introduction_update_database]. *)
Lemma introduction_finish db k now n :
  db_inv db → node_by_key db k = Some n → is_Some (md_node_addr_opt (metadata n)) →
  k ≠ this_node db →
  returns (p ← expect_ok (add_half_neighbor db k (time_t now)) "introducer not in database";
           let '(added, db) := p in
           if (added : bool) then db ← bump_root c db; mret (Ok true, db)
           else mret (Ok true, db))
    (λ x : result bool UpdateError * NeighborhoodDatabase, x.1 = Ok true ∧ good db x.2 ∧
      (∀ k', k' ≠ this_node db → node_by_key x.2 k' = node_by_key db k') ∧
      ∃ r', node_by_key x.2 (this_node db) = Some r' ∧ k ∈ half_neighbor_keys r').
Proof.
  intros Hinv Hn Ha Hne. pose proof (good_add_half_neighbor db k (time_t now) n Hinv Hn Ha) as H.
  destruct (inv_root _ Hinv) as [r Hr].
  pose proof (add_half_neighbor_cases db k (time_t now) r Hinv Hr) as Hc.
  destruct (add_half_neighbor db k (time_t now)) as [[[] db']|e]; [..|done];
    destruct H as (Hg & Hsame & r' & Hr' & Hk); cbn [expect_ok mbind outcome_bind].
  2:{ rewrite Hsame in * by done. split_and!; eauto. }
  assert (∀ k', k' ≠ this_node db → node_by_key db' k' = node_by_key db k') as Ho.
  { intros k' Hk'. repeat case_decide; simplify_eq. by rewrite lookup_set_record, decide_False. }
  pose proof (ev_this _ _ (proj2 Hg)) as Ht.
  ret_via (apply bump_root_good; [done|apply Hg]).
  intros db'' (Hg' & _ & Ho' & r1 & r2 & Hr1 & Hr2 & Hh & _). simpl. rewrite Ht in *.
  split_and!; [done|by eapply good_trans| |].
  - intros k' Hk'. rewrite Ho', Ho; done.
  - exists r2. rewrite Hh. split; [done|]. by simplify_eq.
Qed.

(** After an introduction the introducer's record is the one it sent and it is
    a half neighbor of the local node. *)
Definition introducer_known db agr : Prop :=
  ∃ n r, node_by_key db (agr_key agr) = Some n ∧ inner n = agr_inner agr ∧
    node_by_key db (this_node db) = Some r ∧ agr_key agr ∈ half_neighbor_keys r.

Definition introduction_updated db agr
    (x : result bool UpdateError * NeighborhoodDatabase) : Prop :=
  match x.1 with
  | Ok true => good db x.2 ∧ introducer_known x.2 agr
  | Ok false | Err _ => x.2 = db
  end.

Lemma introduction_update_returns db agr prefs now a :
  db_inv db → agr_key agr ≠ this_node db → agr_node_addr_opt agr = Some a → na_ports a ≠ [] →
  returns (introduction_update_database c db agr prefs now) (introduction_updated db agr).
Proof.
  intros Hinv Hne Ha Hp. unfold introduction_update_database.
  assert (∀ db1 n, good db db1 → node_by_key db1 (agr_key agr) = Some n →
    inner n = agr_inner agr → is_Some (md_node_addr_opt (metadata n)) →
    ∀ x, (x.1 = Ok true ∧ good db1 x.2 ∧
      (∀ k', k' ≠ this_node db1 → node_by_key x.2 k' = node_by_key db1 k') ∧
      ∃ r', node_by_key x.2 (this_node db1) = Some r' ∧ agr_key agr ∈ half_neighbor_keys r') →
    introduction_updated db agr x) as Hfin.
  { intros db1 n Hg Hn Hi Han x (Hx & Hg' & Ho & r' & Hr' & Hk).
    pose proof (ev_this _ _ (proj2 Hg)) as Ht. pose proof (ev_this _ _ (proj2 Hg')) as Ht'.
    unfold introduction_updated. rewrite Hx. split; [by eapply good_trans|].
    exists n, r'. rewrite Ho by (by rewrite Ht). rewrite Ht'. done. }
  destruct (node_by_key db (agr_key agr)) as [r|] eqn:Hr.
  - destruct (Z.ltb_spec (version r) (inner_version (agr_inner agr))) as [Hv|]; [|done].
    destruct (update r agr (time_t now)) as [r'|] eqn:Hu; [|done].
    set (db1 := with_nodes db (<[agr_key agr := r']> (by_public_key db))).
    assert (good db db1) as Hg.
    { eapply good_update; [done|done|done| |by eapply update_newer].
      rewrite (update_public_key _ _ _ _ Hu). by apply (inv_keys _ Hinv). }
    assert (node_by_key db1 (agr_key agr) = Some r') as Hn
      by by unfold db1; rewrite lookup_set_record, decide_True.
    pose proof (update_known_addr _ _ _ _ _ Hu Ha) as Haddr.
    eapply returns_mono; [apply (introduction_finish db1 _ now r'); [apply Hg|done|done|done]|].
    apply (Hfin db1 r'); try done. by apply update_ok_inv in Hu as (_ & _ & ? & _ & ->).
  - set (n := assign_opt prefs (NodeRecord_from_agr agr (time_t now))).
    destruct (assign_opt_frame prefs (NodeRecord_from_agr agr (time_t now))) as [Hi Hm].
    simpl in Hi, Hm. fold n in Hi, Hm.
    assert (public_key n = agr_key agr) as Hk by (unfold public_key; by rewrite Hi).
    assert (good db (add_arbitrary_node db n)) as Hg by (apply good_add; by rewrite ?Hk).
    unfold n. rewrite add_node_from_agr; [|done|].
    2:{ simpl. rewrite Ha. by intros ? [= <-]. }
    cbn [expect_ok mbind outcome_bind snd]. fold n.
    assert (node_by_key (add_arbitrary_node db n) (agr_key agr) = Some n) as Hn
      by by rewrite lookup_add_arbitrary_node, decide_True.
    assert (is_Some (md_node_addr_opt (metadata n))) as Haddr by (rewrite Hm, Ha; eauto).
    eapply returns_mono; [apply (introduction_finish _ _ now n); [apply Hg|done|done|done]|].
    by apply (Hfin _ n).
Qed.

Lemma introduction_handle_returns db pt agrs source nm now introducer introducee :
  db_inv db → introduces db agrs source introducer introducee →
  returns (introduction_handle c db pt agrs source nm now) (handled_ok db pt now).
Proof.
  intros Hinv (Hid & _ & _ & Hne & Hn & a1 & a2 & Ha1 & Hp1 & _ & Ha2 & Hp2 & _).
  destruct (root_ret _ Hinv) as (r & Hroot & Hr).
  unfold introduction_handle. rewrite Hroot. cbn [mbind outcome_bind].
  destruct (_ <=? _)%nat; [by apply handled_same|]. rewrite Hid.
  cbn [mbind outcome_bind expect_ok]. rewrite Ha1, Ha2. cbn [mbind outcome_bind expect].
  ret_via (by apply (introduction_update_returns _ _ _ _ a1)).
  intros [[b|e] db'] Hx; unfold introduction_updated in Hx; simpl in Hx.
  2:{ subst. by apply handled_same. }
  assert (good db db') as Hg by (destruct b; [apply Hx|subst; by apply good_refl]).
  unfold make_debut_triple. rewrite Ha2, decide_False by done.
  destruct (root_ret _ (proj1 Hg)) as (r' & Hroot' & Hr'). rewrite Hroot'.
  cbn [mbind outcome_bind]. rewrite (root_debut_ret _ r') by (done || apply Hg).
  split_and!; [done|done|auto].
Qed.
End introduction.

(** ** The standard gossip handler *)
Section standard.
Context `{HO : HashOrder} `{CBOR : SerdeCbor} `{CL : CountryLookup}.
Variables (c : CryptDE).
Context `{!CryptDEOk c}.
Implicit Types (db : NeighborhoodDatabase) (agr : AccessibleGossipRecord).

Lemma collect_dup_returns (l : list AccessibleGossipRecord) st :
  (∀ agr, agr ∈ l → is_Some (agr_node_addr_opt agr)) →
  returns (fold_outcome collect_dup l st) (λ _, True).
Proof.
  intros Hl. apply returns_fold; [done|]. intros s agr _ Hin.
  destruct (Hl _ Hin) as [a Ha]. unfold collect_dup, ip_of. by rewrite Ha.
Qed.

Lemma find_impostor_returns r (l : list AccessibleGossipRecord) :
  is_Some (md_node_addr_opt (metadata r)) →
  (∀ agr, agr ∈ l → is_Some (agr_node_addr_opt agr)) →
  returns (find_impostor r l) (λ _, True).
Proof.
  intros [ra Hra] Hl. induction l as [|agr l IH]; [done|].
  destruct (Hl agr) as [a Ha]; [set_solver|]. cbn [find_impostor]. unfold ip_of.
  rewrite Ha. cbn [mbind outcome_bind mret outcome_ret expect]. unfold node_addr_opt.
  rewrite Hra. cbn [mbind outcome_bind expect fmap option_fmap option_map].
  case_decide; [done|]. apply IH. set_solver.
Qed.

Lemma standard_qualifies_returns db agrs source :
  db_inv db →
  returns (standard_qualifies db agrs source) (λ q, q ≠ Unmatched ∧
    (q = Matched → this_node db ∉ agr_key <$> agrs)).
Proof.
  intros Hinv. destruct (root_ret _ Hinv) as (r & Hroot & Hr).
  unfold standard_qualifies. rewrite Hroot. cbn [mbind outcome_bind].
  set (l := filter _ agrs).
  assert (∀ agr, agr ∈ l → is_Some (agr_node_addr_opt agr)) as Hl.
  { intros agr. unfold l. rewrite list_elem_of_filter. tauto. }
  apply returns_bind. eapply returns_mono.
  { destruct (accepts_connections r) eqn:Hacc; [|exact (returns_ret _ (λ _, True) I)].
    apply find_impostor_returns; [by apply (inv_root_addr _ Hinv)|done]. }
  intros [agr|] _; [done|].
  destruct (existsb _ agrs) eqn:He; [done|].
  ret_via (by apply collect_dup_returns).
  intros st _. case_decide; [|done]. simpl. split; [done|]. intros _ Hin.
  apply list_elem_of_fmap in Hin as (agr & Hk & Hin). apply not_true_iff_false in He.
  apply He, existsb_exists. exists agr. split; [by apply list_elem_of_In|].
  apply bool_decide_true. by rewrite (inv_keys _ Hinv _ _ Hr).
Qed.

(** The record made of an accepted record about an unknown node. *)
Definition new_record (prefs : option UserExitPreferences) (now : Z) agr : NodeRecord :=
  assign_opt prefs (NodeRecord_from_agr_ref agr (time_t now)).

Lemma new_record_key prefs now agr : public_key (new_record prefs now agr) = agr_key agr.
Proof. unfold new_record. by rewrite assign_opt_key. Qed.

Lemma add_new_agr_ret prefs now db agr :
  node_by_key db (agr_key agr) = None →
  (∀ a, agr_node_addr_opt agr = Some a → na_ports a ≠ []) →
  add_new_agr prefs now db agr = Ret (add_arbitrary_node db (new_record prefs now agr)).
Proof.
  intros Hn Hp. unfold add_new_agr. rewrite add_node_from_agr; [done|done|].
  simpl. destruct (agr_node_addr_opt agr) as [a|]; [|done].
  intros ? [= <-] E. by apply (Hp a eq_refl), NodeAddr_clone_no_ports.
Qed.

Lemma add_new_fold prefs now (l : list AccessibleGossipRecord) db :
  db_inv db → NoDup (agr_key <$> l) →
  (∀ agr, agr ∈ l → node_by_key db (agr_key agr) = None ∧
     ∀ a, agr_node_addr_opt agr = Some a → na_ports a ≠ []) →
  returns (fold_outcome (add_new_agr prefs now) l db) (λ db', good db db' ∧
    (∀ agr, agr ∈ l → node_by_key db' (agr_key agr) = Some (new_record prefs now agr)) ∧
    (∀ k, k ∉ agr_key <$> l → node_by_key db' k = node_by_key db k) ∧
    (size (keys db') = size (keys db) + length l)%nat ∧ (l = [] → db' = db)).
Proof.
  revert db. induction l as [|agr l IH]; intros db Hinv Hnd Hl.
  { split_and!; [by apply good_refl|set_solver|done|simpl; lia|done]. }
  cbn [fold_outcome]. apply NoDup_cons in Hnd as [Hni Hnd].
  destruct (Hl agr) as [Hnone Hp]; [set_solver|].
  rewrite add_new_agr_ret by done. cbn [mbind outcome_bind].
  set (db1 := add_arbitrary_node db _).
  assert (good db db1) as Hg by (apply good_add; by rewrite ?new_record_key).
  assert (∀ k, node_by_key db1 k = if decide (agr_key agr = k)
            then Some (new_record prefs now agr) else node_by_key db k) as Hl1.
  { intros k. unfold db1. by rewrite lookup_add_arbitrary_node, new_record_key. }
  assert (size (keys db1) = S (size (keys db))) as Hsz.
  { assert (keys db1 = {[agr_key agr]} ∪ keys db) as ->.
    { apply set_eq. intros k. rewrite elem_of_union, !elem_of_keys, Hl1.
      case_decide; [|set_solver]. split; [set_solver|]. intros _. by eexists. }
    rewrite size_union, size_singleton; [done|]. apply disjoint_singleton_l.
    rewrite elem_of_keys, Hnone. by intros []. }
  eapply returns_mono; [apply (IH db1); [apply Hg|done|]|].
  { intros agr' Hin. rewrite Hl1, decide_False; [apply Hl; set_solver|].
    intros E. apply Hni, list_elem_of_fmap. by exists agr'. }
  intros db' (Hg' & Hnew & Hold & Hsz' & _). split_and!.
  - by eapply good_trans.
  - intros agr' [->|Hin]%elem_of_cons; [|by apply Hnew].
    rewrite Hold, Hl1 by done. by rewrite decide_True.
  - intros k Hk. rewrite fmap_cons, elem_of_cons in Hk. rewrite Hold, Hl1 by tauto.
    rewrite decide_False; [done|]. intros <-. tauto.
  - rewrite Hsz', Hsz. simpl. lia.
  - done.
Qed.

(** What one record of standard gossip makes of a known record. *)
Definition updated_record (now : Z) agr (r : NodeRecord) : NodeRecord :=
  if version r <? inner_version (agr_inner agr) then
    match update r agr (time_t now) with Ok r' => r' | Err _ => r end
  else r.

Lemma update_obsolete_step now b db agr :
  db_inv db → agr_key agr ≠ this_node db →
  let '(b', db') := update_obsolete now (b, db) agr in
  good db db' ∧ by_ip_addr db' = by_ip_addr db ∧ (b' = false → b = false ∧ db' = db) ∧
  ∀ k, node_by_key db' k = if decide (agr_key agr = k)
                           then updated_record now agr <$> node_by_key db k
                           else node_by_key db k.
Proof.
  intros Hinv Hne. unfold update_obsolete, update_database_record, updated_record.
  destruct (node_by_key db (agr_key agr)) as [r|] eqn:Hr.
  2:{ split_and!; try done. intros k. case_decide; subst; by rewrite ?Hr. }
  destruct (Z.ltb_spec (version r) (inner_version (agr_inner agr))) as [Hv|Hv].
  - destruct (update r agr (time_t now)) as [r'|] eqn:Hu.
    + split_and!; [|done|done|].
      * eapply good_update; [done|done|done| |by eapply update_newer].
        rewrite (update_public_key _ _ _ _ Hu). by apply (inv_keys _ Hinv).
      * intros k. rewrite lookup_set_record. case_decide; [|done]. subst k. rewrite Hr. simpl.
        destruct (Z.ltb_spec (version r) (inner_version (agr_inner agr))); [|lia].
        by rewrite Hu.
    + split_and!; try done. intros k. case_decide; [|done]. subst k.
      rewrite Hr. simpl. by rewrite Hu; destruct (_ <? _).
  - split_and!; try done. intros k. case_decide; [|done]. subst k.
    rewrite Hr. simpl. destruct (Z.ltb_spec (version r) (inner_version (agr_inner agr))); [lia|done].
Qed.

Lemma update_obsolete_fold now (l : list AccessibleGossipRecord) b db :
  db_inv db → NoDup (agr_key <$> l) → this_node db ∉ agr_key <$> l →
  let '(b', db') := foldl (update_obsolete now) (b, db) l in
  good db db' ∧ by_ip_addr db' = by_ip_addr db ∧ (b' = false → b = false ∧ db' = db) ∧
  (∀ agr, agr ∈ l → node_by_key db' (agr_key agr) =
                    updated_record now agr <$> node_by_key db (agr_key agr)) ∧
  (∀ k, k ∉ agr_key <$> l → node_by_key db' k = node_by_key db k).
Proof.
  revert b db. induction l as [|agr l IH]; intros b db Hinv Hnd Hroot.
  { split_and!; try done. set_solver. }
  apply NoDup_cons in Hnd as [Hni Hnd]. rewrite fmap_cons, not_elem_of_cons in Hroot.
  destruct Hroot as [Hne Hroot]. cbn [foldl].
  pose proof (update_obsolete_step now b db agr Hinv (not_eq_sym Hne)) as H1.
  destruct (update_obsolete now (b, db) agr) as [b1 db1]. destruct H1 as (Hg1 & Hip1 & Hb1 & Hl1).
  pose proof (ev_this _ _ (proj2 Hg1)) as Ht.
  specialize (IH b1 db1 (proj1 Hg1) Hnd). rewrite Ht in IH. specialize (IH Hroot).
  destruct (foldl _ (b1, db1) l) as [b2 db2]. destruct IH as (Hg2 & Hip2 & Hb2 & Hin & Hout).
  split_and!.
  - by eapply good_trans.
  - congruence.
  - intros E. destruct (Hb2 E) as [E1 ->]. destruct (Hb1 E1). by subst.
  - intros agr' [->|Hin']%elem_of_cons.
    + rewrite Hout, Hl1 by done. by rewrite decide_True.
    + rewrite Hin, Hl1 by done. rewrite decide_False; [done|].
      intros E. apply Hni, list_elem_of_fmap. by exists agr'.
  - intros k Hk. rewrite fmap_cons, not_elem_of_cons in Hk. rewrite Hout, Hl1 by tauto.
    rewrite decide_False; [done|]. intros <-. tauto.
Qed.

Lemma node_by_ip_inv db ip n :
  db_inv db → node_by_ip db ip = Some n →
  node_by_key db (public_key n) = Some n ∧ is_Some (md_node_addr_opt (metadata n)).
Proof.
  intros Hinv. unfold node_by_ip. destruct (by_ip_addr db !! ip) as [k|] eqn:Hk; [|done].
  simpl. intros Hn. destruct (inv_ips _ Hinv _ _ Hk) as (r & Hr & Ha).
  assert (r = n) as -> by (unfold node_by_key in *; congruence).
  rewrite (inv_keys _ Hinv _ _ Hr). split; [done|]. eapply fmap_is_Some. by rewrite Ha.
Qed.

(** The local record after the source of the gossip was taken as a half neighbor. *)
Definition source_neighbored db (source : SocketAddr) (db' : NeighborhoodDatabase) : Prop :=
  ∃ n r r', node_by_ip db (sa_ip source) = Some n ∧
    node_by_key db (this_node db) = Some r ∧ node_by_key db' (this_node db) = Some r' ∧
    (size (full_neighbor_keys r db) < MAX_DEGREE)%nat ∧
    public_key n ∉ half_neighbor_keys r ∧ public_key n ≠ this_node db ∧
    half_neighbor_keys r' = {[public_key n]} ∪ half_neighbor_keys r ∧
    version r' = u32 (version r + 1) ∧ from_slice (signed_gossip r') = Some (inner r').

Lemma add_src_returns db source now :
  db_inv db →
  returns (add_src_node_as_half_neighbor c db source now) (λ '(b, db'), good db db' ∧
    (∀ k, k ≠ this_node db → node_by_key db' k = node_by_key db k) ∧
    by_ip_addr db' = by_ip_addr db ∧
    if b then source_neighbored db source db' else db' = db).
Proof.
  intros Hinv. unfold add_src_node_as_half_neighbor.
  assert (returns (Ret (false, db)) (λ '(b, db'), good db db' ∧
    (∀ k, k ≠ this_node db → node_by_key db' k = node_by_key db k) ∧
    by_ip_addr db' = by_ip_addr db ∧
    if b then source_neighbored db source db' else db' = db)) as Hsame by done.
  destruct (node_by_ip db (sa_ip source)) as [n|] eqn:Hn; [|done].
  destruct (node_by_ip_inv _ _ _ Hinv Hn) as [Hk Ha].
  destruct (root_ret _ Hinv) as (r & Hroot & Hr). rewrite Hroot. cbn [mbind outcome_bind].
  destruct (Nat.leb_spec MAX_DEGREE (size (full_neighbor_keys r db))); [done|].
  rewrite (add_half_neighbor_cases _ _ _ r) by done. rewrite decide_False by congruence.
  destruct (decide (_ ∈ _)) as [|Hni]; [done|]. destruct (decide (_ = _)) as [|Hne]; [done|].
  set (db1 := with_nodes _ _).
  assert (good db db1) as Hg by by eapply good_neighbored.
  ret_via (apply bump_root_good; [done|apply Hg]).
  intros db2 (Hg2 & Hip & Ho & r1 & r2 & Hr1 & Hr2 & Hh & Hv & Hs).
  change (this_node db1) with (this_node db) in *.
  unfold db1 in Hr1. rewrite lookup_set_record, decide_True in Hr1 by done. injection Hr1 as <-.
  split_and!; [by eapply good_trans| |done|].
  - intros k Hk'. rewrite Ho by done. unfold db1. by rewrite lookup_set_record, decide_False.
  - exists n, r, r2. split_and!; done.
Qed.

Lemma check_full_neighbor_returns db ip :
  db_inv db → returns (check_full_neighbor db ip) (λ _, True).
Proof.
  intros Hinv. unfold check_full_neighbor. destruct (node_by_ip db ip); [|done].
  by destruct (root_ret _ Hinv) as (r & -> & _).
Qed.

Lemma is_new_agr_spec db source agr :
  is_new_agr (keys db) source agr = true →
  node_by_key db (agr_key agr) = None ∧ ∀ a, agr_node_addr_opt agr = Some a → na_ports a ≠ [].
Proof.
  unfold is_new_agr. intros [Hk Ha]%andb_prop. split.
  - apply eq_None_not_Some. rewrite <-elem_of_keys. by apply negb_true_iff, bool_decide_eq_false in Hk.
  - intros a E Hp. rewrite E in Ha. apply bool_decide_eq_true in Ha.
    unfold NodeAddr_to_sockets in Ha.
    rewrite (proj2 (NodeAddr_clone_no_ports a) Hp) in Ha. set_solver.
Qed.

(** What one record of the gossip makes of the database's entry for its key. *)
Definition standard_record db (source : SocketAddr) (prefs : option UserExitPreferences)
    (now : Z) agr : option NodeRecord :=
  match node_by_key db (agr_key agr) with
  | Some r => Some (updated_record now agr r)
  | None => if is_new_agr (keys db) source agr then Some (new_record prefs now agr) else None
  end.

Lemma updated_record_new prefs now agr :
  updated_record now agr (new_record prefs now agr) = new_record prefs now agr.
Proof.
  unfold updated_record. destruct (Z.ltb_spec (version (new_record prefs now agr))
    (inner_version (agr_inner agr))) as [H|]; [|done].
  unfold version, new_record in H. destruct (assign_opt_frame prefs
    (NodeRecord_from_agr_ref agr (time_t now))) as [E _]. rewrite E in H. simpl in H. lia.
Qed.

(** The local record after standard gossip. *)
Definition standard_root db (source : SocketAddr) (db' : NeighborhoodDatabase) : Prop :=
  node_by_key db' (this_node db) = node_by_key db (this_node db) ∨
  ∃ n r r', node_by_ip db' (sa_ip source) = Some n ∧
    node_by_key db (this_node db) = Some r ∧ node_by_key db' (this_node db) = Some r' ∧
    public_key n ∉ half_neighbor_keys r ∧
    half_neighbor_keys r' = {[public_key n]} ∪ half_neighbor_keys r ∧
    version r' = u32 (version r + 1) ∧ from_slice (signed_gossip r') = Some (inner r').

(** The pointwise effect of the records [agrs] on the other entries. *)
Definition standard_pointwise db (agrs : list AccessibleGossipRecord) (source : SocketAddr)
    (prefs : option UserExitPreferences) (now : Z) (db' : NeighborhoodDatabase) : Prop :=
  (∀ agr, agr ∈ agrs → node_by_key db' (agr_key agr) = standard_record db source prefs now agr) ∧
  (∀ k, k ≠ this_node db → k ∉ agr_key <$> agrs → node_by_key db' k = node_by_key db k).

Lemma identify_and_add_returns db agrs source prefs now :
  db_inv db → NoDup (agr_key <$> agrs) → this_node db ∉ agr_key <$> agrs →
  returns (identify_and_add_non_introductory_new_nodes db agrs source prefs now)
    (λ '(b, db'), good db db' ∧ (b = false → db' = db) ∧
      (∀ agr, agr ∈ agrs → node_by_key db' (agr_key agr) =
        match node_by_key db (agr_key agr) with
        | Some r => Some r
        | None => if is_new_agr (keys db) source agr then Some (new_record prefs now agr)
                  else None
        end) ∧
      (∀ k, k ∉ agr_key <$> agrs → node_by_key db' k = node_by_key db k)).
Proof.
  intros Hinv Hnd Hroot. unfold identify_and_add_non_introductory_new_nodes.
  set (l := filter _ agrs).
  assert (∀ agr, agr ∈ l ↔ is_new_agr (keys db) source agr = true ∧ agr ∈ agrs) as Hl.
  { intros agr. unfold l. by rewrite list_elem_of_filter. }
  ret_via (apply add_new_fold; [done| |]).
  { by apply NoDup_fmap_filter. }
  { intros agr [Hnew _]%Hl. by apply (is_new_agr_spec db source). }
  intros db' (Hg & Hin & Hout & Hsz & Hnil). simpl. split_and!; [done| | |].
  - intros Hb. apply Hnil. apply negb_false_iff, bool_decide_eq_true in Hb.
    apply length_zero_iff_nil. lia.
  - intros agr Hagr. destruct (is_new_agr (keys db) source agr) eqn:Hnew.
    + rewrite Hin by (by apply Hl). by destruct (is_new_agr_spec _ _ _ Hnew) as [-> _].
    + rewrite Hout; [by destruct (node_by_key db (agr_key agr))|].
      intros (agr' & E & [Hnew' Hagr']%Hl)%list_elem_of_fmap.
      assert (agr = agr') as -> by by eapply (NoDup_fmap_inj_on agr_key agrs).
      congruence.
  - intros k Hk. apply Hout. intros (agr & -> & [_ Hagr]%Hl)%list_elem_of_fmap.
    by apply Hk, list_elem_of_fmap_2.
Qed.

Lemma standard_handle_returns db pt agrs source nm now r :
  db_inv db → node_by_key db (this_node db) = Some r →
  NoDup (agr_key <$> agrs) → this_node db ∉ agr_key <$> agrs →
  returns (standard_handle c db pt agrs source nm now) (λ h,
    let '(res, db', pt', msgs) := h in
    let patch := compute_patch agrs r (db_patch_size nm) in
    good db db' ∧ pt' = pt ∧ (res = Accepted ∨ res = Ignored ∧ db' = db) ∧
    standard_pointwise db (filter_agrs_by_patch agrs patch) source
      (user_exit_preferences_opt nm) now db' ∧
    standard_root db source db').
Proof.
  intros Hinv Hr Hnd Hroot. unfold standard_handle.
  ret_via (by apply check_full_neighbor_returns).
  intros initial _. unfold root. rewrite Hr. cbn [expect mbind outcome_bind].
  set (fagrs := filter_agrs_by_patch _ _). set (prefs := user_exit_preferences_opt nm).
  assert (NoDup (agr_key <$> fagrs)) as Hnd' by by apply NoDup_fmap_filter.
  assert (this_node db ∉ agr_key <$> fagrs) as Hroot'.
  { intros (agr & E & [_ Hin]%list_elem_of_filter)%list_elem_of_fmap.
    apply Hroot. rewrite E. by apply list_elem_of_fmap_2. }
  clearbody fagrs. clear Hnd Hroot.
  ret_via (by apply identify_and_add_returns).
  intros [b1 db1] (Hg1 & Hb1 & Hin1 & Hout1). pose proof (ev_this _ _ (proj2 Hg1)) as Ht1.
  pose proof (update_obsolete_fold now fagrs false db1 (proj1 Hg1) Hnd') as H2.
  rewrite Ht1 in H2. specialize (H2 Hroot'). unfold identify_and_update_obsolete_nodes.
  destruct (foldl _ _ fagrs) as [b2 db2]. destruct H2 as (Hg2 & Hip2 & Hb2 & Hin2 & Hout2).
  pose proof (ev_this _ _ (proj2 Hg2)) as Ht2. rewrite Ht1 in Ht2.
  ret_via (apply add_src_returns; apply Hg2).
  intros [b3 db3] (Hg3 & Ho3 & Hip3 & Hb3). rewrite Ht2 in Ho3.
  ret_via (apply check_full_neighbor_returns; apply Hg3).
  intros final _.
  assert (good db db3) as Hg by (eapply good_trans; [done|]; by eapply good_trans).
  assert (standard_pointwise db fagrs source prefs now db3) as Hpw.
  { split.
    - intros agr Hagr. assert (agr_key agr ≠ this_node db).
      { intros E. apply Hroot'. rewrite <-E. by apply list_elem_of_fmap_2. }
      rewrite Ho3, Hin2, Hin1 by done. unfold standard_record.
      destruct (node_by_key db (agr_key agr)); [done|].
      destruct (is_new_agr _ _ _); [|done]. simpl. by rewrite updated_record_new.
    - intros k Hk Hk'. by rewrite Ho3, Hout2, Hout1. }
  assert (standard_root db source db3) as Hrt.
  { unfold standard_root. rewrite <-Hout1, <-Hout2 by done. destruct b3.
    - right. destruct Hb3 as (n & x & x' & Hn & Hx & Hx' & _ & Hni & Hne & Hrest).
      rewrite Ht2 in *. exists n, x, x'. split_and!; try done; [|apply Hrest..].
      unfold node_by_ip in *. rewrite Hip3. destruct (by_ip_addr db2 !! _) as [k|]; [|done].
      rewrite Ho3; [done|]. rewrite <-(inv_keys _ (proj1 Hg2) _ _ Hn). done.
    - left. by rewrite Hb3. }
  destruct (b3 || (b2 || b1)) eqn:Hb; simpl; split_and!; auto.
  apply orb_false_iff in Hb as [-> [-> ->]%orb_false_iff]. right. split; [done|].
  rewrite Hb3, (proj2 (Hb2 eq_refl)). by apply Hb1.
Qed.
End standard.
