(* ===== verification/GossipSafety.v ===== *)
(** * What accepting gossip guarantees

    The theorems about [GossipAcceptorReal]: gossip whose records have distinct
    keys never makes the acceptor panic, keeps the database invariant and never
    takes back what is known; each handler's effect on the database; the patch
    that bounds which records are looked at. *)

From S2P Require Import Prelude.
From S2P Require Import NodeAddr.
From S2P Require Import NodeRecord.
From S2P Require Import NeighborhoodDatabase.
From S2P Require Import Gossip.
From S2P Require Import ExitPreferences.
From S2P Require Import GossipAcceptor.
From S2P Require Import GossipAcceptorFacts.

(** ** The dispatch *)
Section dispatch.
Context `{HO : HashOrder} `{CBOR : SerdeCbor} `{CL : CountryLookup}.
Variables (c : CryptDE).
Context `{!CryptDEOk c}.
Implicit Types (db : NeighborhoodDatabase) (agrs : list AccessibleGossipRecord).

Lemma debut_qualifies_returns db agrs source :
  returns (debut_qualifies db agrs source) (λ q, q = Matched →
    ∃ agr, agrs = [agr] ∧ node_by_key db (agr_key agr) = None ∧
      ∀ a, agr_node_addr_opt agr = Some a → na_ports a ≠ []).
Proof.
  unfold debut_qualifies. destruct agrs as [|agr [|]]; [done| |done].
  case_decide as Hn; [done|]. apply eq_None_not_Some in Hn.
  destruct (agr_node_addr_opt agr) as [a|] eqn:Ha; destruct (inner_accepts_connections _); try done.
  - case_decide; [done|]. case_decide; [|done]. intros _. exists agr.
    split_and!; [done|done|]. intros a'. rewrite Ha. by intros [= <-].
  - intros _. exists agr. split_and!; [done|done|]. intros a'. by rewrite Ha.
Qed.

Lemma pass_qualifies_returns db agrs source :
  returns (pass_qualifies db agrs source) (λ q, q = Matched →
    ∃ agr a, agrs = [agr] ∧ agr_node_addr_opt agr = Some a ∧ na_ports a ≠ [] ∧
      na_ip_addr a ≠ sa_ip source).
Proof.
  unfold pass_qualifies. destruct agrs as [|agr [|]]; [done| |done].
  destruct (agr_node_addr_opt agr) as [a|] eqn:Ha; [|done].
  do 2 (case_decide; [done|]). intros _. exists agr, a. done.
Qed.

(** One step of [find_handler]: if a handler that qualifies is safe, and the
    later ones are, the dispatch is safe. *)
Lemma dispatch_step h hs db pt agrs source nm now (Q : Handled → Prop) :
  returns (qualifies h db agrs source) (λ q, q = Matched →
    returns (handle h db pt agrs source nm now) Q) →
  (∀ reason, Q (Ban (BanMalformed reason), db, pt, [])) →
  returns (p ← find_handler hs db agrs source;
           match p.1 with
           | Matched => handle p.2 db pt agrs source nm now
           | Unmatched => Panic "Nothing in gossip_handlers returned Matched or Malformed"
           | Malformed reason => mret (Ban (BanMalformed reason), db, pt, [])
           end) Q →
  returns (p ← find_handler (h :: hs) db agrs source;
           match p.1 with
           | Matched => handle p.2 db pt agrs source nm now
           | Unmatched => Panic "Nothing in gossip_handlers returned Matched or Malformed"
           | Malformed reason => mret (Ban (BanMalformed reason), db, pt, [])
           end) Q.
Proof.
  intros Hq Hban Hrest. cbn [find_handler].
  apply returns_inv in Hq as (q & -> & Hq). cbn [mbind outcome_bind].
  destruct q; [by apply Hq|done|apply Hban].
Qed.

(** Gossip the acceptor can process: no two records about the same node, and
    pass targets stamped in the past. *)
Definition well_formed_message (pt : PassTargets) agrs (now : Z) : Prop :=
  NoDup (agr_key <$> agrs) ∧ ∀ ip t, pt !! ip = Some t → t ≤ now.

Lemma acceptor_handle_returns db pt agrs source nm now :
  db_inv db → well_formed_message pt agrs now →
  returns (acceptor_handle c db pt agrs source nm now) (handled_ok db pt now).
Proof.
  intros Hinv [Hnd Ht]. unfold acceptor_handle, gossip_handlers.
  assert (∀ reason, handled_ok db pt now (Ban (BanMalformed reason), db, pt, [])) as Hban
    by (intros; by apply handled_same).
  apply dispatch_step; [|done|].
  { eapply returns_mono; [apply debut_qualifies_returns|].
    intros q Hq (agr & -> & Hn & Ha)%Hq. cbn [handle].
    eapply returns_mono; [by apply (debut_handle_returns c)|]. by intros h [? _]. }
  apply dispatch_step; [|done|].
  { eapply returns_mono; [apply pass_qualifies_returns|].
    intros q Hq (agr & a & -> & Ha & Hp & Hs)%Hq. cbn [handle].
    eapply pass_handle_returns; [done|done|]. intros; by eapply Ht. }
  apply dispatch_step; [|done|].
  { eapply returns_mono; [by apply (introduction_qualifies_returns c)|].
    intros q Hq (i1 & i2 & Hi)%Hq. cbn [handle]. by eapply (introduction_handle_returns c). }
  cbn [find_handler qualifies].
  destruct (returns_inv _ _ (standard_qualifies_returns c db agrs source Hinv)) as (q & -> & Hu & Hm).
  cbn [mbind outcome_bind]. destruct q; [|done|apply Hban]. cbn [handle fst snd mret outcome_ret mbind outcome_bind].
  destruct (inv_root _ Hinv) as [r Hr].
  eapply returns_mono; [apply (standard_handle_returns c); eauto|].
  intros [[[res db'] pt'] msgs] (Hg & -> & Hres & _). split_and!; [done| |auto].
  destruct Hres as [->|[_ ->]]; done.
Qed.
End dispatch.

(** ** Processing a sequence of messages *)

(** A received message: its records, where it came from, the metadata passed to
    the acceptor and the time. *)
Record GossipMessage := mkMessage {
  gm_agrs : list AccessibleGossipRecord;
  gm_source : SocketAddr;
  gm_metadata : NeighborhoodMetadata;
  gm_now : Z
}.

(** ** The neighborhood graph the patch is computed from *)
Definition known_neighbors (agrs : list AccessibleGossipRecord) (root_node : NodeRecord)
    (k : PublicKey) : option (gset PublicKey) :=
  if decide (k = public_key root_node) then Some (inner_neighbors (inner root_node))
  else (λ agr, inner_neighbors (agr_inner agr)) <$> agrs_by_key agrs !! k.

(** [k] can be reached from the local node in at most [n] hops along neighbor
    lists. *)
Inductive within_hops (agrs : list AccessibleGossipRecord) (root_node : NodeRecord) :
    nat → PublicKey → Prop :=
| within_root n : within_hops agrs root_node n (public_key root_node)
| within_step n k ns k' :
    within_hops agrs root_node n k → known_neighbors agrs root_node k = Some ns → k' ∈ ns →
    within_hops agrs root_node (S n) k'.

Lemma within_hops_le agrs r n m k : (n ≤ m)%nat → within_hops agrs r n k → within_hops agrs r m k.
Proof.
  intros Hle H. revert m Hle. induction H as [n|n k ns k' _ IH Hk Hin]; intros m Hle.
  - constructor.
  - destruct m as [|m]; [lia|]. eapply within_step; [|done|done]. apply IH. lia.
Qed.

Lemma compute_patch_recursive_sound agrs r hops n patch cur k :
  within_hops agrs r n cur →
  k ∈ compute_patch_recursive (agrs_by_key agrs) r hops patch cur →
  k ∈ patch ∨ within_hops agrs r (n + hops) k.
Proof.
  revert n patch cur k. induction hops as [|hops IH]; intros n patch cur k Hcur;
    cbn [compute_patch_recursive].
  { rewrite Nat.add_0_r. set_unfold. intros [->|?]; auto. }
  destruct (if decide (cur = public_key r) then _ else _) as [ns|] eqn:Hns.
  2:{ set_solver. }
  assert (∀ k', k' ∈ btree_iter ns → within_hops agrs r (S n) k') as Hstep.
  { intros k' Hk'%elem_of_btree_iter. by eapply within_step. }
  assert (∀ k', k' ∈ {[cur]} ∪ patch → k' ∈ patch ∨ within_hops agrs r (n + S hops) k') as Hbase.
  { intros k' [->%elem_of_singleton|?]%elem_of_union; [right|by left].
    eapply within_hops_le; [|done]. lia. }
  revert Hstep Hbase. generalize (btree_iter ns) as l. generalize ({[cur]} ∪ patch) as acc.
  intros acc l. revert acc. induction l as [|x l IHl]; intros acc Hl Hacc; simpl; [auto|].
  apply IHl; [set_solver|]. intros k' Hk'. case_decide; [by apply Hacc|].
  destruct (IH (S n) acc x k' ltac:(apply Hl; set_solver) Hk') as [?|?]; [by apply Hacc|].
  right. by replace (n + S hops)%nat with (S n + hops)%nat by lia.
Qed.

Section theorems.
Context `{HO : HashOrder} `{CBOR : SerdeCbor} `{CL : CountryLookup}.

(** Handling the messages one after the other. *)
Fixpoint acceptor_run (c : CryptDE) (db : NeighborhoodDatabase) (pt : PassTargets)
    (ms : list GossipMessage) : outcome (NeighborhoodDatabase * PassTargets) :=
  match ms with
  | [] => mret (db, pt)
  | m :: ms' =>
      h ← acceptor_handle c db pt (gm_agrs m) (gm_source m) (gm_metadata m) (gm_now m);
      let '(_, db', pt', _) := h in acceptor_run c db' pt' ms'
  end.

(** C1: [GossipAcceptorReal::handle] never panics on gossip whose records have
    distinct keys: it returns, the database it leaves satisfies the invariant,
    known records are kept or replaced by strictly newer ones with the same
    rates and address, the local record only gains half neighbors, nothing
    changes when the gossip is ignored or its sender banned, and a pass target
    is only ever stamped with the current time. *)
Theorem acceptor_handle_safe (c : CryptDE) `{!CryptDEOk c} db pt agrs source nm now :
  db_inv db → well_formed_message pt agrs now →
  returns (acceptor_handle c db pt agrs source nm now) (λ h,
    let '(res, db', pt', _) := h in
    db_inv db' ∧ evolves db db' ∧ (quiet res = true → db' = db) ∧
    ∀ ip t, pt' !! ip = Some t → pt !! ip = Some t ∨ t = now).
Proof.
  intros Hinv Hm. eapply returns_mono; [by apply acceptor_handle_returns|].
  intros [[[res db'] pt'] ms] ([Hi He] & Hq & Hp). done.
Qed.

(** C15: any sequence of gossip messages with distinct keys in each message, in
    order of time, is processed without a panic from a database that satisfies
    the invariant; the final database satisfies it too, and no known record
    was rolled back on the way. *)
Theorem acceptor_run_safe (c : CryptDE) `{!CryptDEOk c} db pt ms t0 :
  db_inv db → (∀ ip t, pt !! ip = Some t → t ≤ t0) →
  StronglySorted Z.le (t0 :: (gm_now <$> ms)) →
  (∀ m, m ∈ ms → NoDup (agr_key <$> gm_agrs m)) →
  returns (acceptor_run c db pt ms) (λ '(db', _), db_inv db' ∧ evolves db db').
Proof.
  revert db pt t0. induction ms as [|m ms IH]; intros db pt t0 Hinv Hpt Hs Hnd.
  { split; [done|reflexivity]. }
  apply StronglySorted_inv in Hs as [Hs Hle]. apply Forall_cons in Hle as [Hle _].
  cbn [acceptor_run]. ret_via (apply acceptor_handle_returns; [done|done|]).
  { split; [apply Hnd; set_solver|]. intros ip t H. specialize (Hpt ip t H). lia. }
  intros [[[res db1] pt1] out] ([Hi He] & _ & Hp).
  eapply returns_mono; [apply (IH db1 pt1 (gm_now m)); [done| |done|]|].
  - intros ip t [H| ->]%Hp; [specialize (Hpt ip t H); lia|lia].
  - set_solver.
  - intros [db' ?] [? ?]. split; [done|by etransitivity].
Qed.

(** a qualified debut is answered without a panic; either the database is
    left alone, or the debuter becomes a known half neighbor of the local node,
    whose record is re-signed at the next version.  The debuter is taken exactly
    when no better-suited neighbor exists and the local degree is below
    [MAX_DEGREE]. *)
Theorem debut_handle_spec (c : CryptDE) `{!CryptDEOk c} db pt agr source nm now :
  db_inv db → debut_qualifies db [agr] source = Ret Matched →
  returns (debut_handle c db pt [agr] source nm now) (λ h,
    let '(res, db', pt', msgs) := h in pt' = pt ∧ msgs = [] ∧
    (db' = db ∨ debut_accepted db agr db') ∧
    (find_more_appropriate_neighbor db (debut_source_agr agr source) = Ret None →
     (gossip_target_degree db (this_node db) < MAX_DEGREE)%nat → debut_accepted db agr db')).
Proof.
  intros Hinv Hq. pose proof (debut_qualifies_returns db [agr] source) as H. rewrite Hq in H.
  destruct (H eq_refl) as (agr' & [= <-] & Hn & Ha).
  eapply returns_mono; [by apply (debut_handle_returns c)|]. by intros [[[? ?] ?] ?] [_ ?].
Qed.

(** a pass to a target that was asked within [PASS_GOSSIP_EXPIRED_TIME], or
    that is already a connection in progress and was not asked yet, is a loop:
    it is ignored and reported.  Any other pass is answered with the local
    record, addressed to the pass target, whose time is stamped.  The database
    never changes. *)
Theorem pass_handle_spec db pt agr source nm now r a :
  db_inv db → node_by_key db (this_node db) = Some r →
  agr_node_addr_opt agr = Some a → (∀ t, pt !! na_ip_addr a = Some t → t ≤ now) →
  let looping := match pt !! na_ip_addr a with
                 | None => bool_decide (na_ip_addr a ∈ connection_progress_peers nm)
                 | Some t => now - t <=? PASS_GOSSIP_EXPIRED_TIME
                 end in
  returns (pass_handle db pt [agr] source nm now) (λ h,
    let '(res, db', pt', msgs) := h in db' = db ∧
    if looping then res = Ignored ∧ msgs = [mkCpm (sa_ip source) PassLoopFound]
    else res = Reply (mkGossip [gnr_of true r]) (agr_key agr) (NodeAddr_clone a) ∧
         pt' !! na_ip_addr a = Some now ∧
         msgs = [mkCpm (sa_ip source) (PassGossipReceived (na_ip_addr a))]).
Proof.
  intros Hinv Hr Ha Ht looping. rewrite (pass_handle_ret _ _ _ _ _ _ _ r a) by done.
  fold looping. destruct looping; [done|]. split_and!; [done|done|apply lookup_insert_eq|done].
Qed.

(** an introduction from a node other than the local one, whose record is
    new or newer than the known one and changes nothing immutable, makes the
    introducer a known half neighbor; otherwise the database is unchanged. *)
Theorem introduction_update_spec (c : CryptDE) `{!CryptDEOk c} db agr prefs now a :
  db_inv db → agr_key agr ≠ this_node db → agr_node_addr_opt agr = Some a → na_ports a ≠ [] →
  returns (introduction_update_database c db agr prefs now) (λ '(res, db'),
    match res with
    | Ok true => db_inv db' ∧ evolves db db' ∧ introducer_known db' agr
    | Ok false | Err _ => db' = db
    end).
Proof.
  intros Hinv Hne Ha Hp. eapply returns_mono; [by apply (introduction_update_returns c _ _ _ _ a)|].
  intros [[[]|e] db'] H; [|exact H..]. destruct H as [[? ?] ?]. auto.
Qed.

(** standard gossip acts on every entry of the database separately: a key
    described by a record in the patch is updated, added or left alone as that
    record alone dictates; every other key keeps its record; the local record
    changes only by gaining the gossip's source as a half neighbor, at the next
    version and re-signed.  If the gossip is ignored nothing changed. *)
Theorem standard_handle_spec (c : CryptDE) `{!CryptDEOk c} db pt agrs source nm now r :
  db_inv db → node_by_key db (this_node db) = Some r → NoDup (agr_key <$> agrs) →
  standard_qualifies db agrs source = Ret Matched →
  returns (standard_handle c db pt agrs source nm now) (λ h,
    let '(res, db', pt', msgs) := h in
    let patch := compute_patch agrs r (db_patch_size nm) in
    db_inv db' ∧ (res = Accepted ∨ res = Ignored ∧ db' = db) ∧
    standard_pointwise db (filter_agrs_by_patch agrs patch) source
      (user_exit_preferences_opt nm) now db' ∧ standard_root db source db').
Proof.
  intros Hinv Hr Hnd Hq. pose proof (standard_qualifies_returns c db agrs source Hinv) as H.
  rewrite Hq in H. eapply returns_mono; [apply (standard_handle_returns c); eauto; by apply H|].
  intros [[[res db'] pt'] msgs] ([? ?] & _ & ? & ? & ?). auto.
Qed.

(** the patch only holds keys within [db_patch_size] hops of the local node,
    counted along the neighbor lists of the local record and of the gossip. *)
Theorem compute_patch_within_hops agrs r size k :
  k ∈ compute_patch agrs r size → within_hops agrs r size k.
Proof.
  intros [?|H]%(compute_patch_recursive_sound agrs r size 0); [set_solver|done|constructor].
Qed.
End theorems.

(** ** Concrete gossip *)
Definition sample_agr (z : Z) (ns : list Z) (v : Z) (addr : bool) : AccessibleGossipRecord :=
  mkAgr [] [] (if addr then Some (sample_addr z) else None) (sample_inner z ns v).

Definition sample_source (z : Z) : SocketAddr := mkSocketAddr (V4 (16909056 + z)) (5000 + z).
Definition sample_metadata : NeighborhoodMetadata := mkNm [] 3 None.

(** Node 2 gossips about itself and about the new node 4. *)
Definition sample_gossip : list AccessibleGossipRecord :=
  [sample_agr 2 [1; 4] 4 true; sample_agr 4 [2] 0 false].

Lemma sample_gossip_well_formed pt now :
  (∀ ip t, pt !! ip = Some t → t ≤ now) → well_formed_message pt sample_gossip now.
Proof. intros H. split; [|done]. apply (bool_decide_unpack _). vm_compute. exact I. Qed.

(** ** Flaws *)

(** two records about the same unknown node in one message make the acceptor
    panic: both pass the filter for new nodes, and adding the second one fails. *)
Theorem duplicate_records_panic :
  @acceptor_handle elements_order sample_cbor sample_lookup (sample_cryptde (sample_key 1))
    sample_db ∅ (sample_gossip ++ [sample_agr 4 [2] 0 false]) (sample_source 2)
    sample_metadata 5000000000 = Panic "List of new Nodes contained existing Nodes".
Proof. vm_compute. reflexivity. Qed.

(** Local node 1 names 2 and 3; 2 names 3; 3 names 4. *)
Definition diamond_gossip : list AccessibleGossipRecord :=
  [sample_agr 2 [1; 3] 1 true; sample_agr 3 [1; 4] 1 false; sample_agr 4 [3] 1 false].

(** the patch can miss a node within [db_patch_size] hops: the depth-first
    search marks node 3 as visited on the longer path through node 2, where no
    hop is left for its neighbor 4, and never returns to it on the short path. *)
Theorem compute_patch_misses_node :
  within_hops diamond_gossip (sample_record 1 [2; 3] 7 true) 2 (sample_key 4) ∧
  sample_key 4 ∉ compute_patch diamond_gossip (sample_record 1 [2; 3] 7 true) 2.
Proof.
  split.
  - apply (within_step _ _ 1 (sample_key 3) (list_to_set (sample_key <$> [1; 4])));
      [apply (within_step _ _ 0 (sample_key 1) (list_to_set (sample_key <$> [2; 3])));
         [apply within_root|vm_compute; reflexivity|] |vm_compute; reflexivity|];
      apply (bool_decide_unpack _); vm_compute; exact I.
  - apply (bool_decide_unpack _). vm_compute. exact I.
Qed.

(** an introduction from a node known without an address records the address
    in the node's record and makes the node a half neighbor, but does not enter
    the address in the IP index, so the neighbor cannot be found by its IP. *)
Theorem introduction_leaves_ip_unindexed :
  ∃ db' n r, @introduction_update_database sample_cbor sample_lookup
      (sample_cryptde (sample_key 1)) sample_db (sample_agr 3 [] 1 true) None 5000000000
      = Ret (Ok true, db') ∧
    node_by_key db' (sample_key 3) = Some n ∧ node_addr_opt n = Some (sample_addr 3) ∧
    node_by_key db' (sample_key 1) = Some r ∧ sample_key 3 ∈ half_neighbor_keys r ∧
    node_by_ip db' (na_ip_addr (sample_addr 3)) = None.
Proof.
  eexists _, _, _. split_and!; [vm_compute; reflexivity..| |vm_compute; reflexivity].
  apply (bool_decide_unpack _). vm_compute. exact I.
Qed.

(** ** Witnesses *)

Lemma acceptor_handle_safe_witness :
  ∃ db' pt' ms, @acceptor_handle elements_order sample_cbor sample_lookup
      (sample_cryptde (sample_key 1)) sample_db ∅ sample_gossip (sample_source 2)
      sample_metadata 5000000000 = Ret (Accepted, db', pt', ms) ∧ db_inv db' ∧
    is_Some (node_by_key db' (sample_key 4)).
Proof.
  pose proof (sample_cryptde_ok (sample_key 1)).
  destruct (returns_inv _ _ (@acceptor_handle_safe elements_order sample_cbor sample_lookup
    (sample_cryptde (sample_key 1)) _ sample_db ∅ sample_gossip (sample_source 2) sample_metadata
    5000000000 sample_db_inv (sample_gossip_well_formed ∅ 5000000000 ltac:(by intros ? ?; rewrite lookup_empty))))
    as ([[[res db'] pt'] ms] & E & Hi & _).
  exists db', pt', ms. rewrite E. revert E Hi. vm_compute. intros [= <- <- <- <-] Hi.
  split_and!; [done|exact Hi|eauto].
Defined.

Lemma acceptor_run_safe_witness :
  ∃ db' pt', @acceptor_run elements_order sample_cbor sample_lookup
      (sample_cryptde (sample_key 1)) sample_db ∅
      [mkMessage sample_gossip (sample_source 2) sample_metadata 5000000000;
       mkMessage [sample_agr 6 [] 0 true] (sample_source 6) sample_metadata 6000000000]
      = Ret (db', pt') ∧ db_inv db'.
Proof.
  pose proof (sample_cryptde_ok (sample_key 1)).
  destruct (returns_inv _ _ (@acceptor_run_safe elements_order sample_cbor sample_lookup
    (sample_cryptde (sample_key 1)) _ sample_db ∅
    [mkMessage sample_gossip (sample_source 2) sample_metadata 5000000000;
     mkMessage [sample_agr 6 [] 0 true] (sample_source 6) sample_metadata 6000000000] 0
    sample_db_inv ltac:(by intros ? ?; rewrite lookup_empty) ltac:(repeat constructor; simpl; lia)
    ltac:(intros m [->|[->|[]%not_elem_of_nil]%elem_of_cons]%elem_of_cons;
          apply (bool_decide_unpack _); vm_compute; exact I)))
    as ([db' pt'] & E & Hi & _). eauto.
Defined.

(** The debuter 6 is accepted. *)
Lemma debut_handle_spec_witness :
  ∃ res db' pt' ms, @debut_handle elements_order sample_cbor sample_lookup
      (sample_cryptde (sample_key 1)) sample_db ∅ [sample_agr 6 [] 0 true] (sample_source 6)
      sample_metadata 5000000000 = Ret (res, db', pt', ms) ∧
    @debut_accepted elements_order sample_cbor sample_db (sample_agr 6 [] 0 true) db'.
Proof.
  pose proof (sample_cryptde_ok (sample_key 1)).
  destruct (returns_inv _ _ (@debut_handle_spec elements_order sample_cbor sample_lookup
    (sample_cryptde (sample_key 1)) _ sample_db ∅ (sample_agr 6 [] 0 true) (sample_source 6)
    sample_metadata 5000000000 sample_db_inv ltac:(vm_compute; reflexivity)))
    as ([[[res db'] pt'] ms] & E & _ & _ & _ & Hacc).
  exists res, db', pt', ms. split; [exact E|]. apply Hacc; [vm_compute; reflexivity|].
  apply Nat.ltb_lt. vm_compute. reflexivity.
Defined.

(** Node 6 was asked at time 1000 and is passed to again within a minute. *)
Definition sample_targets : PassTargets := {[V4 16909062 := 1000]}.

Lemma pass_handle_spec_witness :
  ∃ db' pt' ms, pass_handle sample_db sample_targets [sample_agr 6 [] 0 true]
    (sample_source 2) sample_metadata 2000 = Ret (Ignored, db', pt', ms) ∧
    ms = [mkCpm (V4 16909058) PassLoopFound].
Proof.
  destruct (returns_inv _ _ (pass_handle_spec sample_db sample_targets
    (sample_agr 6 [] 0 true) (sample_source 2) sample_metadata 2000 (sample_record 1 [2] 7 true)
    (sample_addr 6) sample_db_inv eq_refl eq_refl ltac:(intros t H; vm_compute in H; assert (t = 1000) by congruence; lia)))
    as ([[[res db'] pt'] ms] & E & _ & -> & ->). eauto.
Defined.

Lemma introduction_update_spec_witness :
  ∃ db', @introduction_update_database sample_cbor sample_lookup (sample_cryptde (sample_key 1))
    sample_db (sample_agr 3 [] 1 true) None 5000000000 = Ret (Ok true, db') ∧
    introducer_known db' (sample_agr 3 [] 1 true).
Proof.
  pose proof (sample_cryptde_ok (sample_key 1)).
  destruct (returns_inv _ _ (@introduction_update_spec sample_cbor sample_lookup
    (sample_cryptde (sample_key 1)) _ sample_db (sample_agr 3 [] 1 true) None 5000000000
    (sample_addr 3) sample_db_inv ltac:(done) eq_refl ltac:(done))) as ([res db'] & E & H1).
  exists db'. assert (match @introduction_update_database sample_cbor sample_lookup
    (sample_cryptde (sample_key 1)) sample_db (sample_agr 3 [] 1 true) None 5000000000 with
    Ret (Ok true, _) => True | _ => False end) as E' by (vm_compute; exact I).
  rewrite E in E' |- *. destruct res as [[]|]; [|destruct E'..]. split; [done|apply H1].
Defined.

Lemma standard_handle_spec_witness :
  ∃ res db' pt' ms, @standard_handle sample_cbor sample_lookup (sample_cryptde (sample_key 1))
      sample_db ∅ sample_gossip (sample_source 2) sample_metadata 5000000000
      = Ret (res, db', pt', ms) ∧ db_inv db' ∧
    @standard_pointwise sample_lookup sample_db sample_gossip (sample_source 2) None 5000000000 db'.
Proof.
  pose proof (sample_cryptde_ok (sample_key 1)).
  destruct (returns_inv _ _ (@standard_handle_spec sample_cbor sample_lookup
    (sample_cryptde (sample_key 1)) _ sample_db ∅ sample_gossip (sample_source 2) sample_metadata
    5000000000 (sample_record 1 [2] 7 true) sample_db_inv eq_refl
    ltac:(apply (bool_decide_unpack _); vm_compute; exact I) ltac:(vm_compute; reflexivity)))
    as ([[[res db'] pt'] ms] & E & Hi & _ & Hp & _).
  exists res, db', pt', ms. split_and!; [exact E|exact Hi|exact Hp].
Defined.

Lemma compute_patch_within_hops_witness :
  within_hops sample_gossip (sample_record 1 [2] 7 true) 3 (sample_key 4).
Proof.
  apply compute_patch_within_hops. apply (bool_decide_unpack _). vm_compute. exact I.
Defined.
