(* ===== verification/Routing.v ===== *)
(** * The routing engine

    Models the route search of [node/src/neighborhood/mod.rs]
    ([find_best_route_segment], [find_exit_locations], [routing_engine],
    [routing_guts] and the predicates and costs they use), and the expected
    services computed for a route.  The two [&mut] arguments of the search are
    the state [Search]; the search recurses over longer and longer prefixes, so
    the model has fuel, and [search_fuel] is proved to be enough.  Sums of
    undesirabilities are [i64], wrapping. *)

From S2P Require Import Prelude.
From S2P Require Import NodeAddr.
From S2P Require Import NodeRecord.
From S2P Require Import NeighborhoodDatabase.
From S2P Require Import ExitPreferences.

Definition UNREACHABLE_HOST_PENALTY : Z := 100000000.
Definition PAYLOAD_ZERO_SIZE : Z := 0.
Definition i64_MAX : Z := 2 ^ 63 - 1.
Definition i64_add (a b : Z) : Z := as_i64 (a + b).

Inductive RouteDirection := Over | Back.

#[export] Instance RouteDirection_eq_dec : EqDecision RouteDirection.
Proof. solve_decision. Defined.

Inductive UndesirabilityType :=
| Relay
| ExitRequest (hostname_opt : option string)
| ExitAndRouteResponse.

Record ComputedRouteSegment := mkCrs {
  crs_nodes : list PublicKey;
  crs_undesirability : Z
}.

(** [minimum_undesirability] and [research_exits]. *)
Record Search := mkSearch {
  minimum_undesirability : Z;
  research_exits : list PublicKey
}.

Definition route_length_qualifies (hops_remaining : nat) : bool := Nat.eqb hops_remaining 0.

Definition last_key_qualifies (last_node : NodeRecord) (target_opt : option PublicKey) : bool :=
  match target_opt with
  | Some target => bool_decide (public_key last_node = target)
  | None => true
  end.

Definition validate_last_node_not_too_close_to_first_node (db : NeighborhoodDatabase)
    (prefix_len : nat) (first_node_key candidate_node_key : PublicKey) : bool :=
  if (prefix_len <=? 2)%nat then true
  else negb (db_has_half_neighbor db candidate_node_key first_node_key).

Definition validate_country_code_when_fallback_routing (db : NeighborhoodDatabase)
    (prefs : UserExitPreferences) (last_node : PublicKey) : bool :=
  let last_cc := match node_by_key db last_node with
                 | Some nr => country_code_or_zz nr
                 | None => "ZZ"
                 end in
  if decide (last_cc ∈ exit_countries prefs) then true
  else if decide (exit_countries prefs = []) then true
  else negb (existsb (λ country, bool_decide (country ∈ db_countries prefs) &&
                                 negb (bool_decide (country = last_cc)))
               (exit_countries prefs)).

Definition is_fallback_and_last_node_qualifies (db : NeighborhoodDatabase)
    (prefs : UserExitPreferences) (last_node_key : PublicKey) : bool :=
  bool_decide (fallback_preference prefs = ExitCountryWithFallback) &&
  validate_country_code_when_fallback_routing db prefs last_node_key.

Definition last_node_is_always_true (db : NeighborhoodDatabase) (prefs : UserExitPreferences)
    (last_node_key : PublicKey) (research_neighborhood : bool) (direction : RouteDirection) : bool :=
  bool_decide (fallback_preference prefs = FallbackNothing) ||
  is_fallback_and_last_node_qualifies db prefs last_node_key ||
  research_neighborhood || bool_decide (direction = Back).

Definition validate_last_node_country_code (db : NeighborhoodDatabase)
    (prefs : UserExitPreferences) (last_node_key : PublicKey) (research_neighborhood : bool)
    (direction : RouteDirection) : bool :=
  if last_node_is_always_true db prefs last_node_key research_neighborhood direction then true
  else
    match node_by_key db last_node_key with
    | Some r => match inner_country_code_opt (inner r) with
                | Some cc => bool_decide (cc ∈ exit_countries prefs)
                | None => false
                end
    | None => false
    end.

(** ** Costs *)
Definition compute_undesirability (r : NodeRecord) (payload_size : Z)
    (undesirability_type : UndesirabilityType) : Z :=
  match undesirability_type with
  | Relay => as_i64 (routing_charge (rate_pack r) payload_size)
  | ExitRequest None =>
      i64_add (as_i64 (exit_charge (rate_pack r) payload_size))
        (country_undesirability (metadata r))
  | ExitRequest (Some hostname) =>
      let exit_undesirability := as_i64 (exit_charge (rate_pack r) payload_size) in
      let unreachable_host_undesirability :=
        if decide (hostname ∈ unreachable_hosts (metadata r)) then UNREACHABLE_HOST_PENALTY else 0 in
      i64_add (i64_add exit_undesirability unreachable_host_undesirability)
        (country_undesirability (metadata r))
  | ExitAndRouteResponse =>
      i64_add (as_i64 (exit_charge (rate_pack r) payload_size))
        (as_i64 (routing_charge (rate_pack r) payload_size))
  end.

Definition compute_initial_undesirability (db : NeighborhoodDatabase) (k : PublicKey)
    (payload_size : Z) (direction : RouteDirection) : outcome Z :=
  if decide (direction = Over) then mret 0
  else
    r ← expect (node_by_key db k) "Exit node disappeared";
    mret (compute_undesirability r payload_size ExitAndRouteResponse).

Definition undesirability_type_of (direction : RouteDirection) (target_opt : option PublicKey)
    (hops_remaining : nat) (hostname_opt : option string) : UndesirabilityType :=
  match direction, target_opt with
  | Over, None => if Nat.eqb hops_remaining 0 then ExitRequest hostname_opt else Relay
  | Over, _ => Relay
  | Back, _ => Relay
  end.

Definition compute_new_undesirability (r : NodeRecord) (undesirability : Z)
    (target_opt : option PublicKey) (hops_remaining : nat) (payload_size : Z)
    (direction : RouteDirection) (hostname_opt : option string) : Z :=
  i64_add undesirability
    (compute_undesirability r payload_size
       (undesirability_type_of direction target_opt hops_remaining hostname_opt)).

Definition is_orig_node_on_back_leg (node : NodeRecord) (target_opt : option PublicKey)
    (direction : RouteDirection) : bool :=
  match direction with
  | Over => false
  | Back => match target_opt with
            | None => false
            | Some target => bool_decide (public_key node = target)
            end
  end.

(** ** The search *)
Section engine.
Context `{HO : HashOrder}.
Variables (db : NeighborhoodDatabase) (prefs : UserExitPreferences).
Variables (target_opt : option PublicKey) (payload_size : Z) (direction : RouteDirection)
  (hostname_opt : option string) (research_neighborhood : bool).

(** The neighbors the search tries: full neighbors not yet on the route that
    route data, or the originator on the way back. *)
Definition route_candidates (prefix : list PublicKey) (previous_node : NodeRecord) :
    list NodeRecord :=
  filter (λ n, (routes_data n || is_orig_node_on_back_leg n target_opt direction) = true)
    (filter (λ n, public_key n ∉ prefix) (full_neighbors previous_node db)).

(** One step of the [flat_map] of [routing_guts], with [engine] the recursive
    call of [routing_engine]. *)
Definition guts_step
    (engine : list PublicKey → Z → nat → Search → outcome (list ComputedRouteSegment * Search))
    (prefix : list PublicKey) (undesirability : Z) (hops_remaining : nat)
    (acc : list ComputedRouteSegment * Search) (node_record : NodeRecord) :
    outcome (list ComputedRouteSegment * Search) :=
  let new_hops_remaining := Nat.pred hops_remaining in
  let new_undesirability :=
    compute_new_undesirability node_record undesirability target_opt new_hops_remaining
      (u64 payload_size) direction hostname_opt in
  p ← engine (prefix ++ [public_key node_record]) new_undesirability new_hops_remaining acc.2;
  mret (acc.1 ++ p.1, p.2).

Definition routing_guts
    (engine : list PublicKey → Z → nat → Search → outcome (list ComputedRouteSegment * Search))
    (prefix : list PublicKey) (undesirability : Z) (hops_remaining : nat) (st : Search)
    (previous_node : NodeRecord) : outcome (list ComputedRouteSegment * Search) :=
  fold_outcome (guts_step engine prefix undesirability hops_remaining)
    (route_candidates prefix previous_node) ([], st).

Fixpoint routing_engine (fuel : nat) (prefix : list PublicKey) (undesirability : Z)
    (hops_remaining : nat) (st : Search) : outcome (list ComputedRouteSegment * Search) :=
  match fuel with
  | O => Panic "out of fuel"
  | S fuel' =>
      if (minimum_undesirability st <? undesirability) && negb research_neighborhood
      then mret ([], st)
      else
        first_node_key ← expect (head prefix) "Empty prefix";
        last_key ← expect (last prefix) "Empty prefix";
        previous_node ← expect (node_by_key db last_key) "Last Node magically disappeared";
        if route_length_qualifies hops_remaining &&
           last_key_qualifies previous_node target_opt &&
           validate_last_node_not_too_close_to_first_node db (length prefix) first_node_key
             (public_key previous_node)
        then
          if negb research_neighborhood &&
             validate_last_node_country_code db prefs (public_key previous_node)
               research_neighborhood direction
          then
            mret ([mkCrs prefix undesirability],
                  if undesirability <? minimum_undesirability st
                  then mkSearch undesirability (research_exits st) else st)
          else if research_neighborhood && bool_decide (last_key ∈ research_exits st)
          then mret ([], st)
          else
            routing_guts (routing_engine fuel') prefix undesirability hops_remaining
              (if research_neighborhood
               then mkSearch (minimum_undesirability st) (research_exits st ++ [last_key])
               else st) previous_node
        else if (Nat.eqb hops_remaining 0 && bool_decide (target_opt = None) &&
                 negb research_neighborhood) &&
                (bool_decide (fallback_preference prefs = FallbackNothing) ||
                 bool_decide (exit_countries prefs = []))
        then mret ([], st)
        else routing_guts (routing_engine fuel') prefix undesirability hops_remaining st
               previous_node
  end.
End engine.

(** Every prefix is a list of distinct keys of the database. *)
Definition search_fuel (db : NeighborhoodDatabase) : nat := S (size (keys db)).

Section interface.
Context `{HO : HashOrder}.

Definition find_best_route_segment (db : NeighborhoodDatabase) (prefs : UserExitPreferences)
    (source : PublicKey) (target_opt : option PublicKey) (minimum_hops : nat)
    (payload_size : Z) (direction : RouteDirection) (hostname_opt : option string) :
    outcome (option (list PublicKey)) :=
  initial_undesirability ←
    compute_initial_undesirability db source (u64 payload_size) direction;
  p ← routing_engine db prefs target_opt payload_size direction hostname_opt false
        (search_fuel db) [source] initial_undesirability minimum_hops (mkSearch i64_MAX []);
  mret (crs_nodes <$>
          head (filter (λ cr, crs_undesirability cr ≤ minimum_undesirability p.2) p.1)).

Definition find_exit_locations (db : NeighborhoodDatabase) (prefs : UserExitPreferences)
    (source : PublicKey) (minimum_hops : nat) : outcome (list PublicKey) :=
  p ← routing_engine db prefs None PAYLOAD_ZERO_SIZE Over None true
        (search_fuel db) [source] 0 minimum_hops (mkSearch i64_MAX []);
  mret (research_exits p.2).
End interface.

(** ** Route segments and expected services *)
Inductive Component := NeighborhoodC | HopperC | ProxyServerC | ProxyClientC.

Record RouteSegment := mkRouteSegment {
  segment_keys : list PublicKey;
  recipient : Component
}.

Inductive ExpectedService :=
| ServiceRouting (k : PublicKey) (w : Wallet) (r : RatePack)
| ServiceExit (k : PublicKey) (w : Wallet) (r : RatePack)
| ServiceNothing.

Inductive RoutingError :=
| NoRoutes (minimum_hops : nat) (origin : PublicKey) (target_component : Component)
    (target_opt : option PublicKey)
| NoKeysInSegment
| UnknownNeighbor.

Section segments.
Context `{HO : HashOrder}.

Definition make_route_segment (db : NeighborhoodDatabase) (prefs : UserExitPreferences)
    (origin : PublicKey) (target_opt : option PublicKey) (minimum_hop_count : nat)
    (target_component : Component) (payload_size : Z) (direction : RouteDirection)
    (hostname_opt : option string) : outcome (result RouteSegment RoutingError) :=
  route_opt ← find_best_route_segment db prefs origin target_opt minimum_hop_count payload_size
                direction hostname_opt;
  match route_opt with
  | None => mret (Err (NoRoutes minimum_hop_count origin target_component target_opt))
  | Some route => mret (Ok (mkRouteSegment route target_component))
  end.

Definition calculate_expected_service (db : NeighborhoodDatabase)
    (route_segment_key : PublicKey) (originator_key exit_key : option PublicKey) :
    outcome (result ExpectedService RoutingError) :=
  match node_by_key db route_segment_key with
  | Some node =>
      root_rec ← root db;
      if decide (route_segment_key = public_key root_rec) then mret (Ok ServiceNothing)
      else
        match originator_key, exit_key with
        | Some o, Some e =>
            if decide (route_segment_key = o ∨ route_segment_key = e)
            then mret (Ok (ServiceExit route_segment_key (earning_wallet node) (rate_pack node)))
            else mret (Ok (ServiceRouting route_segment_key (earning_wallet node)
                             (rate_pack node)))
        | _, _ => mret (Err NoKeysInSegment)
        end
  | None => mret (Err UnknownNeighbor)
  end.

(** Collecting into a [Result]: the first error wins. *)
Fixpoint expected_services_of (db : NeighborhoodDatabase) (originator exit : option PublicKey)
    (ks : list PublicKey) : outcome (result (list ExpectedService) RoutingError) :=
  match ks with
  | [] => mret (Ok [])
  | k :: ks' =>
      s ← calculate_expected_service db k originator exit;
      match s with
      | Err e => mret (Err e)
      | Ok s =>
          rest ← expected_services_of db originator exit ks';
          match rest with
          | Err e => mret (Err e)
          | Ok rest => mret (Ok (s :: rest))
          end
      end
  end.

Definition make_expected_services (db : NeighborhoodDatabase) (segment : RouteSegment) :
    outcome (result (list ExpectedService) RoutingError) :=
  expected_services_of db (head (segment_keys segment)) (last (segment_keys segment))
    (segment_keys segment).
End segments.

(** [advance_return_route_id]: the id to use and the next one. *)
Definition advance_return_route_id (next_return_route_id : Z) : Z * Z :=
  (next_return_route_id, u32 (next_return_route_id + 1)).
