(* ===== verification/RoutingFacts.v ===== *)
(** * Correctness of the routing engine

    The search of [Routing.v] as a transition system over partial routes, and
    the proof that the branch-and-bound search is total and returns a cheapest
    complete route of that system. *)

From S2P Require Import Prelude.
From S2P Require Import NodeAddr.
From S2P Require Import NodeRecord.
From S2P Require Import NeighborhoodDatabase.
From S2P Require Import ExitPreferences.
From S2P Require Import Routing.

(** A partial route: its keys, its undesirability and the hops still required. *)
Record Partial := mkPartial {
  p_keys : list PublicKey;
  p_cost : Z;
  p_hops : nat
}.

Section search.
Context `{HO : HashOrder}.
Variables (db : NeighborhoodDatabase) (prefs : UserExitPreferences).
Variables (target_opt : option PublicKey) (payload_size : Z) (direction : RouteDirection)
  (hostname_opt : option string).

(** What the search does with a partial route it reaches. *)
Inductive Verdict := Complete | DeadEnd | Continue (previous_node : NodeRecord).

Definition verdict (keys : list PublicKey) (hops : nat) : Verdict :=
  match head keys, last keys ≫= node_by_key db with
  | Some first, Some prev =>
      if route_length_qualifies hops && last_key_qualifies prev target_opt &&
         validate_last_node_not_too_close_to_first_node db (length keys) first (public_key prev)
      then if validate_last_node_country_code db prefs (public_key prev) false direction
           then Complete else Continue prev
      else if (Nat.eqb hops 0 && bool_decide (target_opt = None)) &&
              (bool_decide (fallback_preference prefs = FallbackNothing) ||
               bool_decide (exit_countries prefs = []))
      then DeadEnd else Continue prev
  | _, _ => DeadEnd
  end.

(** Extending a partial route by a candidate neighbor. *)
Definition extend (p : Partial) (n : NodeRecord) : Partial :=
  let hops := Nat.pred (p_hops p) in
  mkPartial (p_keys p ++ [public_key n])
    (compute_new_undesirability n (p_cost p) target_opt hops (u64 payload_size) direction
       hostname_opt) hops.

Inductive search_step : Partial → Partial → Prop :=
| search_extend p prev n :
    verdict (p_keys p) (p_hops p) = Continue prev →
    n ∈ route_candidates db target_opt direction (p_keys p) prev →
    search_step p (extend p n).

(** A complete route reachable from a partial one. *)
Definition solution (p : Partial) (cr : ComputedRouteSegment) : Prop :=
  ∃ h, rtc search_step p (mkPartial (crs_nodes cr) (crs_undesirability cr) h) ∧
       verdict (crs_nodes cr) h = Complete.

(** Prefixes are non-empty lists of distinct known keys. *)
Definition valid_prefix (keys_ : list PublicKey) : Prop :=
  keys_ ≠ [] ∧ NoDup keys_ ∧ ∀ k, k ∈ keys_ → is_Some (node_by_key db k).

(** Costs never decrease along a step: no [i64] overflow, no negative cost. *)
Definition costs_grow (p0 : Partial) : Prop :=
  ∀ p p', rtc search_step p0 p → search_step p p' → p_cost p ≤ p_cost p'.

Lemma solution_step p p' cr : search_step p p' → solution p' cr → solution p cr.
Proof. intros Hs (h & Hr & Hv). exists h. split; [by eapply rtc_l|done]. Qed.

Lemma costs_grow_step p p' : search_step p p' → costs_grow p → costs_grow p'.
Proof. intros Hs Hg q q' Hq. apply Hg. by eapply rtc_l. Qed.

Lemma solution_cost p cr : costs_grow p → solution p cr → p_cost p ≤ crs_undesirability cr.
Proof.
  intros Hg (h & Hr & _). remember (mkPartial _ _ h) as q eqn:Hq.
  change (crs_undesirability cr) with (p_cost (mkPartial (crs_nodes cr) (crs_undesirability cr) h)).
  rewrite <-Hq. clear Hq. induction Hr as [p|p p' q Hs Hr IH]; [done|].
  transitivity (p_cost p'); [by apply Hg|]. apply IH. by eapply costs_grow_step.
Qed.

Lemma elem_of_route_candidates keys_ prev n :
  n ∈ route_candidates db target_opt direction keys_ prev ↔
  (routes_data n || is_orig_node_on_back_leg n target_opt direction) = true ∧
  public_key n ∉ keys_ ∧ n ∈ full_neighbors prev db.
Proof. unfold route_candidates. by rewrite !list_elem_of_filter. Qed.

Lemma candidate_known keys_ prev n :
  db_inv db → n ∈ route_candidates db target_opt direction keys_ prev →
  node_by_key db (public_key n) = Some n ∧ public_key n ∉ keys_.
Proof.
  intros Hinv (_ & Hni & Hn)%elem_of_route_candidates. split; [|done].
  apply elem_of_full_neighbors in Hn as (k & _ & Hk). by rewrite (inv_keys _ Hinv _ _ Hk).
Qed.

Lemma valid_prefix_extend keys_ prev n :
  db_inv db → valid_prefix keys_ →
  n ∈ route_candidates db target_opt direction keys_ prev →
  valid_prefix (keys_ ++ [public_key n]).
Proof.
  intros Hinv (Hne & Hnd & Hk) Hn. destruct (candidate_known _ _ _ Hinv Hn) as [Hn' Hni].
  split_and!.
  - by destruct keys_.
  - apply NoDup_app. split_and!; [done| |apply NoDup_singleton]. set_solver.
  - intros k [?|Hk']%elem_of_app; [by apply Hk|].
    apply list_elem_of_singleton in Hk' as ->. eauto.
Qed.

Lemma valid_prefix_length keys_ : valid_prefix keys_ → (length keys_ ≤ size (keys db))%nat.
Proof.
  intros (_ & Hnd & Hk). rewrite <-(size_list_to_set (C := gset PublicKey) keys_) by done.
  apply subseteq_size. intros k Hin. rewrite elem_of_list_to_set in Hin.
  by apply elem_of_keys, Hk.
Qed.

(** A solution is the partial route itself, if complete, or goes through a
    candidate. *)
Lemma solution_inv p cr :
  solution p cr →
  (verdict (p_keys p) (p_hops p) = Complete ∧ cr = mkCrs (p_keys p) (p_cost p)) ∨
  ∃ prev n, verdict (p_keys p) (p_hops p) = Continue prev ∧
    n ∈ route_candidates db target_opt direction (p_keys p) prev ∧ solution (extend p n) cr.
Proof.
  intros (h & Hr & Hv). apply rtc_inv in Hr as [->|(p' & Hs & Hr)].
  - left. split; [done|]. by destruct cr.
  - right. inversion Hs as [q prev n Hc Hn]; subst. exists prev, n. split_and!; [done..|].
    by exists h.
Qed.

(** What a call of the engine achieves from a partial route [p]: it only
    returns complete routes that extend [p], it lowers the minimum to the cost
    of one of them or leaves it, and, if costs grow, no complete route that
    extends [p] is cheaper than the new minimum. *)
Definition searched p (rs : list ComputedRouteSegment) (st st' : Search) : Prop :=
  minimum_undesirability st' ≤ minimum_undesirability st ∧
  (∀ cr, cr ∈ rs → solution p cr) ∧
  (costs_grow p → ∀ cr, solution p cr →
     minimum_undesirability st' ≤ crs_undesirability cr) ∧
  (minimum_undesirability st' = minimum_undesirability st ∨
   ∃ cr, cr ∈ rs ∧ crs_undesirability cr = minimum_undesirability st').

Lemma guts_spec engine p l (rs0 : list ComputedRouteSegment) (st : Search) :
  (∀ n st, n ∈ l → returns (engine (p_keys (extend p n)) (p_cost (extend p n))
                              (p_hops (extend p n)) st)
                     (λ '(rs, st'), searched (extend p n) rs st st')) →
  returns (fold_outcome (guts_step target_opt payload_size direction hostname_opt engine
                           (p_keys p) (p_cost p) (p_hops p)) l (rs0, st)) (λ '(rs, st'),
    minimum_undesirability st' ≤ minimum_undesirability st ∧ rs0 ⊆ rs ∧
    (∀ cr, cr ∈ rs → cr ∈ rs0 ∨ ∃ n, n ∈ l ∧ solution (extend p n) cr) ∧
    (∀ n cr, n ∈ l → costs_grow (extend p n) → solution (extend p n) cr →
             minimum_undesirability st' ≤ crs_undesirability cr) ∧
    (minimum_undesirability st' = minimum_undesirability st ∨
     ∃ cr, cr ∈ rs ∧ crs_undesirability cr = minimum_undesirability st')).
Proof.
  revert rs0 st. induction l as [|n l IH]; intros rs0 st He.
  { split_and!; [done|done|auto|set_solver|auto]. }
  cbn [fold_outcome]. apply returns_bind. unfold guts_step at 2.
  ret_via (apply (He n); set_solver).
  intros [rs1 st1] (Hle1 & Hs1 & Hb1 & Hm1). ret_step.
  eapply returns_mono; [apply IH; intros; apply He; set_solver|].
  intros [rs2 st2] (Hle2 & Hsub2 & Hs2 & Hb2 & Hm2). split_and!.
  - cbn [fst snd] in *. lia.
  - set_solver.
  - intros cr Hcr. destruct (Hs2 cr Hcr) as [[?|?]%elem_of_app|(n' & ? & ?)].
    + by left.
    + right. exists n. split; [set_solver|by apply Hs1].
    + right. exists n'. split; [set_solver|done].
  - intros n' cr [->|Hn']%elem_of_cons Hg Hsol; [|by eapply Hb2].
    specialize (Hb1 Hg cr Hsol). cbn [fst snd] in *. lia.
  - cbn [fst snd] in *. destruct Hm2 as [->|?]; [|by right].
    destruct Hm1 as [->|(cr & Hcr & E)]; [by left|right]. exists cr. split; [set_solver|done].
Qed.

Lemma guts_searched engine p prev st :
  verdict (p_keys p) (p_hops p) = Continue prev →
  (∀ n st, n ∈ route_candidates db target_opt direction (p_keys p) prev →
     returns (engine (p_keys (extend p n)) (p_cost (extend p n)) (p_hops (extend p n)) st)
       (λ '(rs, st'), searched (extend p n) rs st st')) →
  returns (routing_guts db target_opt payload_size direction hostname_opt engine
             (p_keys p) (p_cost p) (p_hops p) st prev) (λ '(rs, st'), searched p rs st st').
Proof.
  intros Hv He. eapply returns_mono; [by apply guts_spec|].
  intros [rs st'] (Hle & _ & Hs & Hb & Hm). split_and!; [done| | |done].
  - intros cr Hcr. destruct (Hs cr Hcr) as [?|(n & Hn & Hc)]; [set_solver|].
    eapply solution_step; [by econstructor|done].
  - intros Hg cr [[E _]|(prev' & n & E & Hn & Hc)]%solution_inv; [congruence|].
    rewrite Hv in E. injection E as <-. eapply Hb; [done| |done].
    eapply costs_grow_step; [by econstructor|done].
Qed.

(** Prefixes the engine is called with have a first and a known last node. *)
Lemma valid_prefix_ends keys_ :
  valid_prefix keys_ → ∃ first k prev,
    head keys_ = Some first ∧ last keys_ = Some k ∧ node_by_key db k = Some prev.
Proof.
  intros (Hne & _ & Hk). destruct keys_ as [|first l]; [done|].
  destruct (last (first :: l)) as [k|] eqn:Hl; [|by apply last_None in Hl].
  destruct (Hk k) as [prev Hprev]; [|by exists first, k, prev].
  apply last_Some in Hl as [l' ->]. set_solver.
Qed.

(** A search that ends at [p]: nothing found, or [p] itself. *)
Lemma searched_dead_end p st :
  verdict (p_keys p) (p_hops p) = DeadEnd → searched p [] st st.
Proof.
  intros Hv. split_and!; [done|set_solver| |auto].
  intros _ cr [[? _]|(? & n & ? & _)]%solution_inv; congruence.
Qed.

Lemma searched_complete p st :
  verdict (p_keys p) (p_hops p) = Complete → p_cost p ≤ minimum_undesirability st →
  searched p [mkCrs (p_keys p) (p_cost p)] st
    (if p_cost p <? minimum_undesirability st then mkSearch (p_cost p) (research_exits st) else st).
Proof.
  intros Hv Hle.
  assert (minimum_undesirability (if p_cost p <? minimum_undesirability st
    then mkSearch (p_cost p) (research_exits st) else st) = p_cost p) as Hmin.
  { destruct (Z.ltb_spec (p_cost p) (minimum_undesirability st)); simpl; lia. }
  unfold searched. rewrite Hmin. split_and!; [done| | |].
  - intros cr ->%list_elem_of_singleton. exists (p_hops p). split; [by destruct p|done].
  - intros _ cr [[_ ->]|(? & ? & ? & _)]%solution_inv; [done|congruence].
  - right. eexists. split; [left|done].
Qed.

(** The branch-and-bound search is total and exhaustive up to pruning. *)
Lemma routing_engine_spec fuel p st :
  db_inv db → valid_prefix (p_keys p) → (size (keys db) < fuel + length (p_keys p))%nat →
  returns (routing_engine db prefs target_opt payload_size direction hostname_opt false fuel
             (p_keys p) (p_cost p) (p_hops p) st) (λ '(rs, st'), searched p rs st st').
Proof.
  intros Hinv. revert p st. induction fuel as [|fuel IH]; intros p st Hvp Hfuel.
  { apply valid_prefix_length in Hvp. lia. }
  cbn [routing_engine]. rewrite andb_true_r.
  destruct (Z.ltb_spec (minimum_undesirability st) (p_cost p)) as [Hlt|Hge].
  { split_and!; [done|set_solver| |auto]. intros Hg cr Hcr.
    apply solution_cost in Hcr; [lia|done]. }
  assert (∀ prev, verdict (p_keys p) (p_hops p) = Continue prev →
    returns (routing_guts db target_opt payload_size direction hostname_opt
      (routing_engine db prefs target_opt payload_size direction hostname_opt false fuel)
      (p_keys p) (p_cost p) (p_hops p) st prev) (λ '(rs, st'), searched p rs st st')) as Hguts.
  { intros prev Hv. apply guts_searched; [done|]. intros n st' Hn. apply IH.
    - by eapply valid_prefix_extend.
    - simpl. rewrite length_app. simpl. lia. }
  destruct (valid_prefix_ends _ Hvp) as (first & k & prev & Hhead & Hlast & Hprev).
  pose proof (eq_refl (verdict (p_keys p) (p_hops p))) as Hv. unfold verdict at 2 in Hv.
  rewrite Hhead, Hlast in *. cbn [expect mbind outcome_bind option_bind] in *.
  rewrite Hprev in *. cbn [expect mbind outcome_bind andb negb]. rewrite !andb_true_r.
  destruct (route_length_qualifies _ && _ && _).
  - destruct (validate_last_node_country_code _ _ _ _ _); [|by apply Hguts].
    by apply searched_complete.
  - destruct (Nat.eqb _ _ && _ && _); [|by apply Hguts]. by apply searched_dead_end.
Qed.
End search.

(** ** Bounded costs do not overflow *)
Section bounds.
Context `{HO : HashOrder}.
Variables (db : NeighborhoodDatabase) (prefs : UserExitPreferences).
Variables (target_opt : option PublicKey) (payload_size : Z) (direction : RouteDirection)
  (hostname_opt : option string).

(** Every node's cost is between 0 and [B], and a route through all nodes costs
    less than [i64::MAX]. *)
Definition costs_bounded (B : Z) : Prop :=
  (∀ k r ty, node_by_key db k = Some r →
     0 ≤ compute_undesirability r (u64 payload_size) ty ≤ B) ∧
  0 ≤ B ∧ B * Z.of_nat (size (keys db)) < i64_MAX.

Definition cost_inv (B : Z) (p : Partial) : Prop :=
  valid_prefix db (p_keys p) ∧ 0 ≤ p_cost p ≤ B * Z.of_nat (length (p_keys p)).

Lemma cost_inv_step B p p' :
  db_inv db → costs_bounded B → cost_inv B p →
  search_step db prefs target_opt payload_size direction hostname_opt p p' →
  cost_inv B p' ∧ p_cost p ≤ p_cost p'.
Proof.
  intros Hinv (Hc & HB & Hmax) [Hvp Hcost] Hs. destruct Hs as [p prev n Hv Hn].
  pose proof (valid_prefix_extend _ _ _ _ _ _ Hinv Hvp Hn) as Hvp'.
  pose proof (valid_prefix_length _ _ Hvp') as Hlen. rewrite length_app in Hlen. simpl in Hlen.
  destruct (candidate_known _ _ _ _ _ _ Hinv Hn) as [Hk _]. unfold i64_MAX in Hmax.
  unfold cost_inv, extend. cbn [p_keys p_cost p_hops]. unfold compute_new_undesirability, i64_add.
  set (ty := undesirability_type_of _ _ _ _). specialize (Hc _ _ ty Hk).
  rewrite length_app. simpl length.
  rewrite as_i64_small by nia. split; [split; [done|nia]|lia].
Qed.

Lemma cost_inv_reachable B p p' :
  db_inv db → costs_bounded B → cost_inv B p →
  rtc (search_step db prefs target_opt payload_size direction hostname_opt) p p' →
  cost_inv B p'.
Proof.
  intros Hinv Hc Hp. induction 1 as [|p p1 p2 Hs _ IH]; [done|]. apply IH.
  by eapply cost_inv_step.
Qed.

Lemma costs_bounded_grow B p :
  db_inv db → costs_bounded B → cost_inv B p →
  costs_grow db prefs target_opt payload_size direction hostname_opt p.
Proof.
  intros Hinv Hc Hp q q' Hq Hs. eapply cost_inv_step; [done|done| |done].
  by eapply cost_inv_reachable.
Qed.

Lemma cost_inv_below_max B p : costs_bounded B → cost_inv B p → p_cost p < i64_MAX.
Proof.
  intros (_ & HB & Hmax) [Hvp Hcost]. pose proof (valid_prefix_length _ _ Hvp). nia.
Qed.

Lemma initial_cost source B :
  costs_bounded B → is_Some (node_by_key db source) →
  returns (compute_initial_undesirability db source (u64 payload_size) direction)
    (λ u, 0 ≤ u ≤ B).
Proof.
  intros (Hc & HB & _) [r Hr]. unfold compute_initial_undesirability.
  case_decide; [by simpl|]. rewrite Hr. exact (Hc _ _ ExitAndRouteResponse Hr).
Qed.

Lemma initial_returns source :
  is_Some (node_by_key db source) →
  returns (compute_initial_undesirability db source (u64 payload_size) direction) (λ _, True).
Proof.
  intros [r Hr]. unfold compute_initial_undesirability. case_decide; [done|]. by rewrite Hr.
Qed.
End bounds.

(** ** The shape of the routes *)
Section paths.
Context `{HO : HashOrder}.
Variables (db : NeighborhoodDatabase) (target_opt : option PublicKey) (direction : RouteDirection).

(** A route from [source]: distinct known nodes, each a full neighbor of the
    one before, and each after the first routes data, or is the originator on
    the way back. *)
Record is_route (source : PublicKey) (keys_ : list PublicKey) : Prop := {
  route_head : head keys_ = Some source;
  route_valid : valid_prefix db keys_;
  route_linked i k k' : keys_ !! i = Some k → keys_ !! S i = Some k' →
    db_has_full_neighbor db k k' = true;
  route_relays i k : keys_ !! S i = Some k →
    ∃ n, node_by_key db k = Some n ∧
      (routes_data n = true ∨ (direction = Back ∧ target_opt = Some k))
}.

Lemma is_route_source source : is_Some (node_by_key db source) → is_route source [source].
Proof.
  intros Hs. split; [done| |by intros [|]|done].
  split_and!; [done|apply NoDup_singleton|]. by intros k ->%list_elem_of_singleton.
Qed.

Lemma full_neighbor_linked prev n :
  db_inv db → node_by_key db (public_key prev) = Some prev → n ∈ full_neighbors prev db →
  db_has_full_neighbor db (public_key prev) (public_key n) = true.
Proof.
  intros Hinv Hprev (k & Hk & Hn)%elem_of_full_neighbors.
  apply elem_of_full_neighbor_keys in Hk as (Hhalf & n' & Hn' & Hback).
  assert (n' = n) as -> by congruence.
  rewrite (inv_keys _ Hinv _ _ Hn). unfold db_has_full_neighbor, db_has_half_neighbor.
  rewrite Hprev, Hn. unfold has_half_neighbor, half_neighbor_keys in *.
  by rewrite !bool_decide_true.
Qed.

Lemma lookup_snoc_inv {A} (l : list A) x i y :
  (l ++ [x]) !! i = Some y → l !! i = Some y ∨ i = length l ∧ y = x.
Proof.
  rewrite lookup_app_Some. intros [?|[Hlen Hy]]; [auto|right].
  destruct (i - length l)%nat eqn:E; simpl in Hy; [|done]. split; [lia|congruence].
Qed.

Lemma is_route_extend source keys_ k prev n :
  db_inv db → is_route source keys_ → last keys_ = Some k → node_by_key db k = Some prev →
  n ∈ route_candidates db target_opt direction keys_ prev →
  is_route source (keys_ ++ [public_key n]).
Proof.
  intros Hinv [Hh Hv Hlk Hrel] Hlast Hprev Hn.
  pose proof (valid_prefix_extend _ _ _ _ _ _ Hinv Hv Hn) as Hv'.
  pose proof (candidate_known _ _ _ _ _ _ Hinv Hn) as [Hkn _].
  apply elem_of_route_candidates in Hn as (Hr & _ & Hn).
  assert (public_key prev = k) as <- by by apply (inv_keys _ Hinv).
  split; [by destruct keys_|done| |].
  - intros i k1 k2 H1 H2. apply lookup_snoc_inv in H2 as [H2|[Hi ->]].
    + apply lookup_snoc_inv in H1 as [H1|[-> _]]; [by eapply Hlk|].
      apply lookup_lt_Some in H2. lia.
    + apply lookup_snoc_inv in H1 as [H1|[-> _]]; [|lia].
      assert (k1 = public_key prev) as ->.
      { rewrite last_lookup in Hlast. rewrite <-Hi in Hlast. simpl in Hlast. congruence. }
      by apply full_neighbor_linked.
  - intros i k0 [H0|[_ ->]]%lookup_snoc_inv; [by eapply Hrel|]. exists n. split; [done|].
    apply orb_true_iff in Hr as [?|Hr]; [auto|right].
    unfold is_orig_node_on_back_leg in Hr. destruct direction, target_opt as [t|]; try done.
    apply bool_decide_eq_true in Hr. by subst.
Qed.
End paths.

Section reach.
Context `{HO : HashOrder}.
Variables (db : NeighborhoodDatabase) (prefs : UserExitPreferences).
Variables (target_opt : option PublicKey) (payload_size : Z) (direction : RouteDirection)
  (hostname_opt : option string).
Abbreviation step := (search_step db prefs target_opt payload_size direction hostname_opt).
Abbreviation verdict := (verdict db prefs target_opt direction).

Lemma verdict_continue keys_ h prev :
  verdict keys_ h = Continue prev →
  ∃ k, last keys_ = Some k ∧ node_by_key db k = Some prev.
Proof.
  unfold RoutingFacts.verdict. destruct (head keys_), (last keys_) as [k|]; try done; simpl.
  destruct (node_by_key db k) as [r|] eqn:Hk; [|done].
  repeat case_match; intros [= <-]; eauto.
Qed.

Lemma verdict_complete keys_ h :
  verdict keys_ h = Complete →
  h = 0%nat ∧ ∃ first k r, head keys_ = Some first ∧ last keys_ = Some k ∧
    node_by_key db k = Some r ∧ last_key_qualifies r target_opt = true ∧
    validate_last_node_not_too_close_to_first_node db (length keys_) first (public_key r) = true ∧
    validate_last_node_country_code db prefs (public_key r) false direction = true.
Proof.
  unfold RoutingFacts.verdict.
  destruct (head keys_) as [first|], (last keys_) as [k|]; try done; simpl.
  destruct (node_by_key db k) as [r|] eqn:Hk; [|done].
  destruct (route_length_qualifies h && _ && _) eqn:Hq; [|by repeat case_match].
  destruct (validate_last_node_country_code _ _ _ _ _) eqn:Hc; [|done].
  apply andb_prop in Hq as [[Hl Hlast]%andb_prop Hclose]. apply Nat.eqb_eq in Hl.
  intros _. split; [done|]. exists first, k, r. done.
Qed.

(** A route whose missing hops are counted by [p_hops]. *)
Definition route_inv (source : PublicKey) (minimum_hops : nat) (p : Partial) : Prop :=
  is_route db target_opt direction source (p_keys p) ∧
  (minimum_hops < p_hops p + length (p_keys p))%nat.

Lemma route_inv_extend source hops p k prev n :
  db_inv db → route_inv source hops p → last (p_keys p) = Some k →
  node_by_key db k = Some prev →
  n ∈ route_candidates db target_opt direction (p_keys p) prev →
  route_inv source hops (extend target_opt payload_size direction hostname_opt p n).
Proof.
  intros Hinv [Hr Hh] Hk Hprev Hn. split; [by eapply is_route_extend|].
  simpl. rewrite length_app. simpl. lia.
Qed.

Lemma route_inv_reachable source hops p p' :
  db_inv db → route_inv source hops p → rtc step p p' → route_inv source hops p'.
Proof.
  intros Hinv Hp. induction 1 as [|p p1 p2 Hs _ IH]; [done|]. apply IH.
  destruct Hs as [p prev n Hv Hn]. apply verdict_continue in Hv as (k & Hk & Hprev).
  by eapply route_inv_extend.
Qed.

Lemma route_inv_start source hops u :
  is_Some (node_by_key db source) → route_inv source hops (mkPartial [source] u hops).
Proof. intros Hs. split; [by apply is_route_source|simpl; lia]. Qed.

(** What a complete route promises. *)
Definition route_ok (source : PublicKey) (minimum_hops : nat) (route : list PublicKey) : Prop :=
  is_route db target_opt direction source route ∧ (minimum_hops < length route)%nat ∧
  ∃ k, last route = Some k ∧ (∀ t, target_opt = Some t → k = t) ∧
    ((2 < length route)%nat → db_has_half_neighbor db k source = false) ∧
    validate_last_node_country_code db prefs k false direction = true.

Lemma solution_route_ok source hops u cr :
  db_inv db → is_Some (node_by_key db source) →
  solution db prefs target_opt payload_size direction hostname_opt
    (mkPartial [source] u hops) cr →
  route_ok source hops (crs_nodes cr).
Proof.
  intros Hinv Hs (h & Hr & Hv).
  apply (route_inv_reachable source hops) in Hr as [Hroute Hh]; [|done|by apply route_inv_start].
  apply verdict_complete in Hv as (-> & first & k & r & Hf & Hk & Hkr & Ht & Hclose & Hcc).
  simpl in Hh, Hroute. split_and!; [done|lia|]. exists k. split_and!; [done| | |].
  - intros t E. rewrite E in Ht. simpl in Ht. apply bool_decide_eq_true in Ht.
    by rewrite (inv_keys _ Hinv _ _ Hkr) in Ht.
  - intros Hlen. unfold validate_last_node_not_too_close_to_first_node in Hclose.
    destruct (Nat.leb_spec (length (crs_nodes cr)) 2); [lia|].
    rewrite (inv_keys _ Hinv _ _ Hkr) in Hclose. apply negb_true_iff in Hclose.
    pose proof (route_head _ _ _ _ _ Hroute) as Hf'. congruence.
  - by rewrite (inv_keys _ Hinv _ _ Hkr) in Hcc.
Qed.

Lemma start_valid source :
  is_Some (node_by_key db source) → valid_prefix db [source].
Proof. intros Hs. by apply (is_route_source db target_opt direction). Qed.

(** The engine, from the source. *)
Lemma search_from_source source u hops :
  db_inv db → is_Some (node_by_key db source) →
  returns (routing_engine db prefs target_opt payload_size direction hostname_opt false
             (search_fuel db) [source] u hops (mkSearch i64_MAX [])) (λ '(rs, st'),
    searched db prefs target_opt payload_size direction hostname_opt
      (mkPartial [source] u hops) rs (mkSearch i64_MAX []) st').
Proof.
  intros Hinv Hs. apply (routing_engine_spec db prefs target_opt payload_size direction
    hostname_opt (search_fuel db) (mkPartial [source] u hops)); [done|by apply start_valid|].
  unfold search_fuel. simpl. lia.
Qed.
End reach.

(** ** Searches with a target *)
Section target.
Context `{HO : HashOrder}.
Variables (db : NeighborhoodDatabase) (prefs : UserExitPreferences) (t : PublicKey).
Variables (payload_size : Z) (direction : RouteDirection) (hostname_opt : option string).
Abbreviation step := (search_step db prefs (Some t) payload_size direction hostname_opt).
Abbreviation verdict := (verdict db prefs (Some t) direction).

(** Extending a route by any candidate, wherever it stands. *)
Inductive any_step : Partial → Partial → Prop :=
| any_extend p k prev n :
    last (p_keys p) = Some k → node_by_key db k = Some prev →
    n ∈ route_candidates db (Some t) direction (p_keys p) prev →
    any_step p (extend (Some t) payload_size direction hostname_opt p n).

Lemma any_step_grows p q :
  db_inv db → valid_prefix db (p_keys p) → rtc any_step p q →
  valid_prefix db (p_keys q) ∧ ∃ l, p_keys q = p_keys p ++ l.
Proof.
  intros Hinv Hv H. revert Hv. induction H as [p|p p1 q Hs _ IH]; intros Hv.
  { split; [done|]. exists []. by rewrite app_nil_r. }
  destruct Hs as [p k prev n Hk Hprev Hn].
  destruct IH as [Hq [l Hl]]; [by eapply valid_prefix_extend|].
  split; [done|]. exists (public_key n :: l). rewrite Hl. simpl. by rewrite <-app_assoc.
Qed.

Lemma any_step_searched p q :
  db_inv db → valid_prefix db (p_keys p) → rtc any_step p q →
  verdict (p_keys q) (p_hops q) = Complete → rtc step p q.
Proof.
  intros Hinv Hv H Hc. revert Hv. induction H as [p|p p1 q Hs Hr IH]; intros Hv; [done|].
  destruct Hs as [p k prev n Hk Hprev Hn].
  assert (valid_prefix db (p_keys p ++ [public_key n])) as Hv1 by by eapply valid_prefix_extend.
  destruct (any_step_grows (extend (Some t) payload_size direction hostname_opt p n) q Hinv Hv1 Hr)
    as [(_ & Hnd & _) [l Hl]].
  eapply rtc_l; [|by apply IH]. econstructor; [|done].
  apply verdict_complete in Hc as (_ & _ & k' & r & _ & Hk' & Hr' & Ht & _).
  simpl in Ht. apply bool_decide_eq_true in Ht. rewrite (inv_keys _ Hinv _ _ Hr') in Ht.
  assert (k ≠ t) as Hne.
  { intros ->. subst k'. simpl in Hl. rewrite Hl, <-app_assoc in Hnd, Hk'.
    apply last_Some in Hk as [l0 Hl0]. apply NoDup_app in Hnd as (_ & Hdis & _).
    apply (Hdis t); [rewrite Hl0; apply elem_of_app; right; by left|].
    rewrite last_app in Hk'. destruct (last ([public_key n] ++ l)) as [x|] eqn:El.
    - injection Hk' as ->. apply last_Some in El as [l1 ->]. apply elem_of_app. right. by left.
    - by apply last_None in El. }
  unfold RoutingFacts.verdict. rewrite Hk. destruct (p_keys p) eqn:E; [done|]. simpl.
  rewrite Hprev. simpl. rewrite (inv_keys _ Hinv _ _ Hprev), bool_decide_false by done.
  by rewrite !andb_false_r.
Qed.

Lemma search_any p q : rtc step p q → rtc any_step p q.
Proof.
  induction 1 as [p|p p1 q Hs _ IH]; [apply rtc_refl|]. eapply rtc_l; [|done].
  destruct Hs as [p prev n Hv Hn]. apply verdict_continue in Hv as (k & Hk & Hprev).
  by econstructor.
Qed.
End target.

(** ** Research of exit locations *)
Section research.
Context `{HO : HashOrder}.
Variables (db : NeighborhoodDatabase) (prefs : UserExitPreferences).
Variables (source : PublicKey) (minimum_hops : nat).

(** A node at the end of some long enough route, not naming the source. *)
Definition exit_ok (k : PublicKey) : Prop :=
  ∃ route, is_route db None Over source route ∧ last route = Some k ∧
    (minimum_hops < length route)%nat ∧
    ((2 < length route)%nat → db_has_half_neighbor db k source = false).

Definition exits_ok (st : Search) : Prop :=
  NoDup (research_exits st) ∧ ∀ k, k ∈ research_exits st → exit_ok k.

Lemma exits_ok_push st k :
  exits_ok st → k ∉ research_exits st → exit_ok k →
  exits_ok (mkSearch (minimum_undesirability st) (research_exits st ++ [k])).
Proof.
  intros [Hnd Hok] Hni Hk. split; simpl.
  - apply NoDup_app. split_and!; [done|set_solver|apply NoDup_singleton].
  - intros k' [?|Hk']%elem_of_app; [auto|]. by apply list_elem_of_singleton in Hk' as ->.
Qed.

Lemma research_engine_spec payload_size hostname_opt fuel p st :
  db_inv db → route_inv db None Over source minimum_hops p →
  (size (keys db) < fuel + length (p_keys p))%nat → exits_ok st →
  returns (routing_engine db prefs None payload_size Over hostname_opt true fuel
             (p_keys p) (p_cost p) (p_hops p) st) (λ '(rs, st'), exits_ok st').
Proof.
  intros Hinv. revert p st. induction fuel as [|fuel IH]; intros p st Hp Hfuel Hst.
  { destruct Hp as [Hr _]. pose proof (valid_prefix_length _ _ (route_valid _ _ _ _ _ Hr)). lia. }
  cbn [routing_engine]. rewrite andb_false_r.
  destruct (valid_prefix_ends _ _ (route_valid _ _ _ _ _ (proj1 Hp)))
    as (first & k & prev & Hhead & Hlast & Hprev).
  assert (∀ st', exits_ok st' → returns (routing_guts db None payload_size Over hostname_opt
    (routing_engine db prefs None payload_size Over hostname_opt true fuel)
    (p_keys p) (p_cost p) (p_hops p) st' prev) (λ '(rs, st''), exits_ok st'')) as Hguts.
  { intros st' Hst'. unfold routing_guts.
    eapply returns_mono; [apply (returns_fold _ _ _ (λ acc, exits_ok acc.2)); [done|]|by intros []].
    intros [rs st1] n Hst1 Hn. unfold guts_step. ret_via (apply (IH (extend None payload_size Over hostname_opt p n)); [| |done]).
    - by eapply route_inv_extend.
    - simpl. rewrite length_app. simpl. lia.
    - by intros []. }
  rewrite Hhead, Hlast. cbn [expect mbind outcome_bind].
  rewrite Hprev. cbn [expect mbind outcome_bind andb negb]. rewrite andb_false_r. cbn [andb].
  destruct (route_length_qualifies _ && _ && _) eqn:Hq; [|by apply Hguts].
  case_bool_decide as Hin; [done|]. apply Hguts, exits_ok_push; [done..|].
  apply andb_prop in Hq as [[Hl _]%andb_prop Hclose]. apply Nat.eqb_eq in Hl.
  destruct Hp as [Hr Hh]. exists (p_keys p). split_and!; [done|done|lia|]. intros Hlen.
  unfold validate_last_node_not_too_close_to_first_node in Hclose.
  destruct (Nat.leb_spec (length (p_keys p)) 2); [lia|].
  rewrite (inv_keys _ Hinv _ _ Hprev) in Hclose. apply negb_true_iff in Hclose.
  pose proof (route_head _ _ _ _ _ Hr). congruence.
Qed.
End research.

(** ** Expected services *)
Section services.
Implicit Types (db : NeighborhoodDatabase).

(** The service expected of the node [k] of a route from [o] to [e]. *)
Definition service_for db (o e k : PublicKey) (s : ExpectedService) : Prop :=
  ∃ n, node_by_key db k = Some n ∧
    s = if decide (k = this_node db) then ServiceNothing
        else if decide (k = o ∨ k = e) then ServiceExit k (earning_wallet n) (rate_pack n)
        else ServiceRouting k (earning_wallet n) (rate_pack n).

Lemma expected_services_returns db o e ks :
  db_inv db → (∀ k, k ∈ ks → is_Some (node_by_key db k)) →
  returns (expected_services_of db (Some o) (Some e) ks)
    (λ res, ∃ ss, res = Ok ss ∧ Forall2 (service_for db o e) ks ss).
Proof.
  intros Hinv. destruct (root_ret _ Hinv) as (r & Hroot & Hr).
  induction ks as [|k ks IH]; intros Hk; [by exists []|].
  destruct (Hk k) as [n Hn]; [set_solver|].
  cbn [expected_services_of]. unfold calculate_expected_service. rewrite Hn, Hroot.
  cbn [mbind outcome_bind]. rewrite (inv_keys _ Hinv _ _ Hr).
  destruct (returns_inv _ _ (IH ltac:(set_solver))) as (res & -> & ss & -> & Hss).
  assert (∀ s, service_for db o e k s →
    ∃ ss0, Ok (E := RoutingError) (s :: ss) = Ok ss0 ∧ Forall2 (service_for db o e) (k :: ks) ss0)
    as Hfin by (intros s Hsv; eexists; split; [done|by constructor]).
  unfold service_for in Hfin. setoid_rewrite Hn in Hfin.
  repeat case_decide; (apply Hfin; eexists; split; [done|by repeat case_decide]).
Qed.
End services.

(** ** Theorems *)
Section theorems.
Context `{HO : HashOrder}.

Lemma optimal_search db prefs source target_opt hops payload_size direction
    hostname_opt B :
  db_inv db → is_Some (node_by_key db source) → costs_bounded db payload_size B →
  ∃ u, compute_initial_undesirability db source (u64 payload_size) direction = Ret u ∧
  let sol := solution db prefs target_opt payload_size direction hostname_opt
               (mkPartial [source] u hops) in
  returns (find_best_route_segment db prefs source target_opt hops payload_size direction
             hostname_opt) (λ o,
    match o with
    | None => ∀ cr, ¬ sol cr
    | Some route => ∃ c, sol (mkCrs route c) ∧ ∀ cr, sol cr → c ≤ crs_undesirability cr
    end).
Proof.
  intros Hinv Hs Hb.
  destruct (returns_inv _ _ (initial_cost db payload_size direction source B Hb Hs))
    as (u & Hu & Hub).
  exists u. split; [done|]. intros sol. unfold find_best_route_segment. rewrite Hu.
  cbn [mbind outcome_bind]. ret_via (by apply search_from_source). intros [rs st] (_ & Hsol & Hmin & Hm).
  assert (cost_inv db B (mkPartial [source] u hops)) as Hci.
  { split; [by apply (start_valid db None Over)|simpl; lia]. }
  specialize (Hmin (costs_bounded_grow _ _ _ _ _ _ _ _ Hinv Hb Hci)).
  fold sol in Hsol, Hmin. simpl in Hm |- *.
  assert (∀ cr, sol cr → crs_undesirability cr < i64_MAX) as Hlt.
  { intros cr (h & Hr & _). eapply (cost_inv_reachable _ _ _ _ _ _ B) in Hr; [|done..].
    exact (cost_inv_below_max _ _ _ _ Hb Hr). }
  destruct (head (filter _ rs)) as [cr|] eqn:Hf; simpl.
  - apply head_filter_Some in Hf as [Hle Hin].
    exists (crs_undesirability cr). destruct cr as [nodes c]. split; [by apply Hsol|].
    intros cr' Hcr'. specialize (Hmin cr' Hcr'). simpl in *. lia.
  - intros cr Hcr. destruct Hm as [Hm|(cr' & Hin & E)].
    + specialize (Hmin cr Hcr). specialize (Hlt cr Hcr). rewrite Hm in Hmin. lia.
    + eapply head_filter_None in Hf; [|done]. simpl in Hf. lia.
Qed.

Lemma find_best_route_returns db prefs source target_opt hops payload_size direction hostname_opt :
  db_inv db → is_Some (node_by_key db source) →
  returns (find_best_route_segment db prefs source target_opt hops payload_size direction
             hostname_opt)
    (λ o, ∀ route, o = Some route → route_ok db prefs target_opt direction source hops route).
Proof.
  intros Hinv Hs. unfold find_best_route_segment.
  ret_via (by apply initial_returns). intros u _.
  ret_via (by apply search_from_source).
  intros [rs st] (_ & Hsol & _). intros route Hroute.
  apply fmap_Some in Hroute as (cr & Hcr & ->).
  apply head_filter_Some in Hcr as [_ Hin].
  eapply solution_route_ok; eauto.
Qed.

(** C8: the route search terminates without a panic from any known source, and
    the route it returns starts at the source, visits distinct known nodes,
    goes from full neighbor to full neighbor through nodes that route data,
    has at least the required hops, ends at the target if there is one, does
    not end at a node that names the source as its neighbor (if longer than one
    hop), and ends in an acceptable country. *)
Theorem find_best_route_sound db prefs source target_opt hops payload_size direction hostname_opt :
  db_inv db → is_Some (node_by_key db source) →
  returns (find_best_route_segment db prefs source target_opt hops payload_size direction
             hostname_opt)
    (λ o, ∀ route, o = Some route → route_ok db prefs target_opt direction source hops route).
Proof. apply find_best_route_returns. Qed.

(** C11: when no sum of costs can overflow, the search returns a cheapest of all
    the complete routes it could follow, and returns none only if there is
    none: pruning by the best cost so far loses nothing. *)
Theorem find_best_route_optimal db prefs source target_opt hops payload_size direction
    hostname_opt B :
  db_inv db → is_Some (node_by_key db source) → costs_bounded db payload_size B →
  ∃ u, compute_initial_undesirability db source (u64 payload_size) direction = Ret u ∧
  let sol := solution db prefs target_opt payload_size direction hostname_opt
               (mkPartial [source] u hops) in
  returns (find_best_route_segment db prefs source target_opt hops payload_size direction
             hostname_opt) (λ o,
    match o with
    | None => ∀ cr, ¬ sol cr
    | Some route => ∃ c, sol (mkCrs route c) ∧ ∀ cr, sol cr → c ≤ crs_undesirability cr
    end).
Proof. apply optimal_search. Qed.

(** C34: with a target, the search misses no route: the returned route is a
    cheapest of all acyclic routes through candidate nodes, of any length, that
    meet the final conditions (enough hops, the target reached, not too close
    to the source, country), and none is returned only if no such route exists. *)
Theorem find_best_route_exhaustive db prefs source t hops payload_size direction
    hostname_opt B :
  db_inv db → is_Some (node_by_key db source) → costs_bounded db payload_size B →
  ∃ u, compute_initial_undesirability db source (u64 payload_size) direction = Ret u ∧
  let qualifying := λ q,
    rtc (any_step db t payload_size direction hostname_opt) (mkPartial [source] u hops) q ∧
    verdict db prefs (Some t) direction (p_keys q) (p_hops q) = Complete in
  returns (find_best_route_segment db prefs source (Some t) hops payload_size direction
             hostname_opt) (λ o,
    match o with
    | None => ∀ q, ¬ qualifying q
    | Some route => ∃ c h, qualifying (mkPartial route c h) ∧ ∀ q, qualifying q → c ≤ p_cost q
    end).
Proof.
  intros Hinv Hs Hb.
  destruct (optimal_search db prefs source (Some t) hops payload_size direction hostname_opt B)
    as (u & Hu & Hopt); [done..|].
  exists u. split; [done|]. intros qualifying.
  assert (∀ q, qualifying q → solution db prefs (Some t) payload_size direction hostname_opt
            (mkPartial [source] u hops) (mkCrs (p_keys q) (p_cost q))) as Hq.
  { intros q [Hr Hc]. exists (p_hops q). split; [|done].
    assert (valid_prefix db [source]) as Hv by by apply (start_valid db None Over).
    pose proof (any_step_searched db prefs t payload_size direction hostname_opt
      (mkPartial [source] u hops) q Hinv Hv Hr Hc). by destruct q. }
  eapply returns_mono; [done|]. intros [route|].
  - intros (c & (h & Hr & Hc) & Hmin). exists c, h. split; [split; [|done]|].
    + by eapply search_any.
    + intros q Hqq. exact (Hmin _ (Hq q Hqq)).
  - intros Hnone q Hqq. exact (Hnone _ (Hq q Hqq)).
Qed.

(** the research of exit locations terminates without a panic and lists
    distinct nodes, each the end of a route of data-routing full neighbors with
    enough hops, and, beyond one hop, not naming the source as its neighbor. *)
Theorem find_exit_locations_sound db prefs source hops :
  db_inv db → is_Some (node_by_key db source) →
  returns (find_exit_locations db prefs source hops)
    (λ ks, NoDup ks ∧ ∀ k, k ∈ ks → exit_ok db source hops k).
Proof.
  intros Hinv Hs. unfold find_exit_locations. ret_via (apply (research_engine_spec db prefs source hops PAYLOAD_ZERO_SIZE None
    (search_fuel db) (mkPartial [source] 0 hops))).
  - done.
  - by apply route_inv_start.
  - unfold search_fuel. simpl. lia.
  - split; [apply NoDup_nil_2|]. set_solver.
  - by intros [rs st] [? ?].
Qed.

(** for a route of known nodes, the expected services are computed without
    an error, one per node in order: nothing for the local node, the exit
    service for the other end, routing for every node in between, each with the
    wallet and rates of the node's record. *)
Theorem make_expected_services_spec db o e ks c :
  db_inv db → head ks = Some o → last ks = Some e →
  (∀ k, k ∈ ks → is_Some (node_by_key db k)) →
  returns (make_expected_services db (mkRouteSegment ks c))
    (λ res, ∃ ss, res = Ok ss ∧ Forall2 (service_for db o e) ks ss).
Proof.
  intros Hinv Ho He Hk. unfold make_expected_services. simpl. rewrite Ho, He.
  by apply expected_services_returns.
Qed.
End theorems.

(** ** Bounds on concrete databases *)

(** The most a node can cost: exit, routing, country and an unreachable host. *)
Definition worst_cost (r : NodeRecord) (payload_size : Z) : Z :=
  exit_charge (rate_pack r) payload_size + routing_charge (rate_pack r) payload_size +
  country_undesirability (metadata r) + UNREACHABLE_HOST_PENALTY.

Lemma compute_undesirability_bound r payload_size ty :
  0 ≤ country_undesirability (metadata r) → worst_cost r payload_size < 2 ^ 63 →
  0 ≤ compute_undesirability r payload_size ty ≤ worst_cost r payload_size.
Proof.
  unfold worst_cost, UNREACHABLE_HOST_PENALTY. intros Hc.
  assert (0 ≤ exit_charge (rate_pack r) payload_size) as He by (apply wrap_in_width; lia).
  assert (0 ≤ routing_charge (rate_pack r) payload_size) as Hr by (apply wrap_in_width; lia).
  intros Hw. unfold compute_undesirability, i64_add, UNREACHABLE_HOST_PENALTY.
  rewrite (as_i64_small (exit_charge _ _)), (as_i64_small (routing_charge _ _)) by lia.
  destruct ty as [|[h|]|]; [lia|case_decide|..].
  - rewrite (as_i64_small (exit_charge _ _ + _)) by lia. rewrite as_i64_small by lia. lia.
  - rewrite (as_i64_small (exit_charge _ _ + _)) by lia. rewrite as_i64_small by lia. lia.
  - rewrite as_i64_small by lia. lia.
  - rewrite as_i64_small by lia. lia.
Qed.

(** A boolean check of [costs_bounded]. *)
Definition costs_boundedb (db : NeighborhoodDatabase) (payload_size B : Z) : bool :=
  forallb (λ r, (0 <=? country_undesirability (metadata r)) &&
                (worst_cost r (u64 payload_size) <=? B)) (snd <$> map_to_list (by_public_key db)) &&
  (0 <=? B) && (B * Z.of_nat (size (keys db)) <? i64_MAX) && (B <? 2 ^ 63).

Lemma costs_boundedb_sound db payload_size B :
  costs_boundedb db payload_size B = true → costs_bounded db payload_size B.
Proof.
  unfold costs_boundedb. intros [[[Hf HB]%andb_prop Hm]%andb_prop Hlt]%andb_prop.
  apply Z.leb_le in HB. apply Z.ltb_lt in Hm, Hlt. split_and!; [|done|done].
  intros k r ty Hr. rewrite forallb_forall in Hf.
  assert (In r (snd <$> map_to_list (by_public_key db))) as Hin.
  { apply list_elem_of_In, list_elem_of_fmap. exists (k, r). split; [done|].
    by apply elem_of_map_to_list. }
  apply Hf in Hin. apply andb_prop in Hin as [Hc%Z.leb_le Hw%Z.leb_le].
  pose proof (compute_undesirability_bound r (u64 payload_size) ty Hc). lia.
Qed.

(** ** Witnesses *)

(** 1 - 2 - 3 - 4 with the shortcut 1 - 3, all full neighbors. *)
Definition route_db : NeighborhoodDatabase :=
  mkDb (sample_key 1)
    (list_to_map [(sample_key 1, sample_record 1 [2; 3] 7 true);
                  (sample_key 2, sample_record 2 [1; 3] 3 true);
                  (sample_key 3, sample_record 3 [1; 2; 4] 3 true);
                  (sample_key 4, sample_record 4 [3] 3 true)]) ∅.

Lemma route_db_inv : db_inv route_db.
Proof. apply db_invb_sound. vm_compute. reflexivity. Qed.

Lemma route_db_costs : costs_bounded route_db 1000 1000000000.
Proof. apply costs_boundedb_sound. vm_compute. reflexivity. Qed.

Lemma find_best_route_sound_witness :
  @find_best_route_segment elements_order route_db UserExitPreferences_new (sample_key 1) None 3
    1000 Over None = Ret (Some (sample_key <$> [1; 2; 3; 4])) ∧
  route_ok route_db UserExitPreferences_new None Over (sample_key 1) 3 (sample_key <$> [1; 2; 3; 4]).
Proof.
  assert (@find_best_route_segment elements_order route_db UserExitPreferences_new (sample_key 1)
    None 3 1000 Over None = Ret (Some (sample_key <$> [1; 2; 3; 4]))) as E
    by (vm_compute; reflexivity).
  split; [exact E|].
  exact (returns_elim _ _ _ (@find_best_route_sound elements_order route_db UserExitPreferences_new
    (sample_key 1) None 3 1000 Over None route_db_inv ltac:(eexists; reflexivity)) E _ eq_refl).
Defined.

Lemma find_best_route_optimal_witness :
  @find_best_route_segment elements_order route_db UserExitPreferences_new (sample_key 1) None 2
    1000 Over None = Ret (Some (sample_key <$> [1; 3; 4])) ∧
  ∃ c, ∀ cr, @solution elements_order route_db UserExitPreferences_new None 1000 Over None
               (mkPartial [sample_key 1] 0 2) cr → c ≤ crs_undesirability cr.
Proof.
  assert (@find_best_route_segment elements_order route_db UserExitPreferences_new (sample_key 1)
    None 2 1000 Over None = Ret (Some (sample_key <$> [1; 3; 4]))) as E by (vm_compute; reflexivity).
  split; [exact E|].
  destruct (@find_best_route_optimal elements_order route_db UserExitPreferences_new (sample_key 1)
    None 2 1000 Over None 1000000000 route_db_inv ltac:(eexists; reflexivity)
    route_db_costs) as (u & Hu & H).
  injection Hu as <-. apply (returns_elim _ _ _ H) in E as (c & _ & Hc). eauto.
Defined.

Lemma find_best_route_exhaustive_witness :
  ∃ route, @find_best_route_segment elements_order route_db UserExitPreferences_new (sample_key 4)
    (Some (sample_key 1)) 2 1000 Back None = Ret (Some route).
Proof.
  destruct (@find_best_route_exhaustive elements_order route_db UserExitPreferences_new
    (sample_key 4) (sample_key 1) 2 1000 Back None 1000000000 route_db_inv
    ltac:(eexists; reflexivity)
    route_db_costs) as (u & Hu & H).
  destruct (returns_inv _ _ H) as ([route|] & E & _); [eauto|].
  exfalso. revert E. vm_compute. discriminate.
Defined.

Lemma find_exit_locations_sound_witness :
  ∃ ks, @find_exit_locations elements_order route_db UserExitPreferences_new (sample_key 1) 3
    = Ret ks ∧ NoDup ks.
Proof.
  destruct (returns_inv _ _ (@find_exit_locations_sound elements_order route_db
    UserExitPreferences_new (sample_key 1) 3 route_db_inv ltac:(eexists; reflexivity)))
    as (ks & E & Hnd & _). eauto.
Defined.

Lemma make_expected_services_spec_witness :
  ∃ ss, make_expected_services route_db (mkRouteSegment [sample_key 1; sample_key 3; sample_key 4] ProxyClientC)
    = Ret (Ok ss) ∧
    Forall2 (service_for route_db (sample_key 1) (sample_key 4)) [sample_key 1; sample_key 3; sample_key 4] ss.
Proof.
  destruct (returns_inv _ _ (make_expected_services_spec route_db (sample_key 1) (sample_key 4)
    [sample_key 1; sample_key 3; sample_key 4] ProxyClientC route_db_inv eq_refl eq_refl
    ltac:(intros k Hk; repeat (apply elem_of_cons in Hk as [->|Hk]; [eexists; reflexivity|]);
          by apply not_elem_of_nil in Hk))) as (res & E & ss & -> & H).
  eauto.
Defined.
