(* ===== verification/ConnectionStatus.v ===== *)
(** * The connection status

    Models [node/src/neighborhood/overall_connection_status.rs] and the
    handlers of [ConnectionProgressMessage] and [AskAboutDebutGossipMessage] in
    [node/src/neighborhood/mod.rs].  A [&mut ConnectionProgress] is the index of
    the progress in the vector; messages sent to other actors are returned as
    effects; logging is left out. *)

From S2P Require Import Prelude.
From S2P Require Import NodeAddr.
From S2P Require Import NodeRecord.
From S2P Require Import NeighborhoodDatabase.
From S2P Require Import Gossip.
From S2P Require Import ExitPreferences.
From S2P Require Import GossipAcceptor.

Inductive ConnectionStageErrors :=
| ErrTcpConnectionFailed
| ErrNoGossipResponseReceived
| ErrPassLoopFound.

Inductive ConnectionStage :=
| StageZero
| TcpConnectionEstablished
| NeighborshipEstablished
| StageFailed (e : ConnectionStageErrors).

(** [usize::try_from(&ConnectionStage)]. *)
Definition stage_number (s : ConnectionStage) : option nat :=
  match s with
  | StageZero => Some 0%nat
  | TcpConnectionEstablished => Some 1%nat
  | NeighborshipEstablished => Some 2%nat
  | StageFailed _ => None
  end.

Record ConnectionProgress := mkProgress {
  initial_node_descriptor : NodeDescriptor;
  current_peer_addr : IpAddr;
  connection_stage : ConnectionStage
}.

#[export] Instance ConnectionStageErrors_eq_dec : EqDecision ConnectionStageErrors.
Proof. solve_decision. Defined.

#[export] Instance ConnectionStage_eq_dec : EqDecision ConnectionStage.
Proof. solve_decision. Defined.

#[export] Instance ConnectionProgress_eq_dec : EqDecision ConnectionProgress.
Proof. solve_decision. Defined.

Definition ConnectionProgress_new (d : NodeDescriptor) : outcome ConnectionProgress :=
  a ← expect (nd_node_addr_opt d) "Unable to receive node addr for the descriptor";
  mret (mkProgress d (na_ip_addr a) StageZero).

Definition update_stage (cp : ConnectionProgress) (new : ConnectionStage) :
    outcome ConnectionProgress :=
  match stage_number (connection_stage cp), stage_number new with
  | Some current_num, Some new_num =>
      if Nat.eqb new_num (current_num + 1)
      then mret (mkProgress (initial_node_descriptor cp) (current_peer_addr cp) new)
      else Panic "Can't update the stage"
  | _, _ => mret (mkProgress (initial_node_descriptor cp) (current_peer_addr cp) new)
  end.

Definition handle_pass_gossip (cp : ConnectionProgress) (new_pass_target : IpAddr) :
    outcome ConnectionProgress :=
  match connection_stage cp with
  | StageZero | TcpConnectionEstablished =>
      mret (mkProgress (initial_node_descriptor cp) new_pass_target StageZero)
  | _ => Panic "Can't update the stage to StageZero"
  end.

Inductive OverallConnectionStage := NotConnected | ConnectedToNeighbor | RouteFound.

#[export] Instance OverallConnectionStage_eq_dec : EqDecision OverallConnectionStage.
Proof. solve_decision. Defined.

Record OverallConnectionStatus := mkOcs {
  stage : OverallConnectionStage;
  progress : list ConnectionProgress
}.

Definition OverallConnectionStatus_new (ds : list NodeDescriptor) :
    outcome OverallConnectionStatus :=
  ps ← mapM ConnectionProgress_new ds; mret (mkOcs NotConnected ps).

(** The first progress with the peer address, with its position. *)
Definition get_connection_progress_by_ip (ocs : OverallConnectionStatus) (ip : IpAddr) :
    option (nat * ConnectionProgress) :=
  list_find (λ cp, current_peer_addr cp = ip) (progress ocs).

Definition get_connection_progress_by_desc (ocs : OverallConnectionStatus) (d : NodeDescriptor) :
    option (nat * ConnectionProgress) :=
  list_find (λ cp, initial_node_descriptor cp = d) (progress ocs).

Definition update_connection_stage (cp : ConnectionProgress) (e : ConnectionProgressEvent) :
    outcome ConnectionProgress :=
  match e with
  | TcpConnectionSuccessful => update_stage cp TcpConnectionEstablished
  | TcpConnectionFailed => update_stage cp (StageFailed ErrTcpConnectionFailed)
  | IntroductionGossipReceived _ => update_stage cp NeighborshipEstablished
  | StandardGossipReceived => update_stage cp NeighborshipEstablished
  | PassGossipReceived new_pass_target => handle_pass_gossip cp new_pass_target
  | PassLoopFound => update_stage cp (StageFailed ErrPassLoopFound)
  | NoGossipResponseReceived => update_stage cp (StageFailed ErrNoGossipResponseReceived)
  end.

Definition get_peer_addrs (ocs : OverallConnectionStatus) : list IpAddr :=
  current_peer_addr <$> progress ocs.

(** [Err] is [None]. *)
Definition get_connection_progress_to_modify (ocs : OverallConnectionStatus)
    (msg : ConnectionProgressMessage) : option (nat * ConnectionProgress) :=
  match event msg with
  | PassGossipReceived pass_target =>
      if decide (pass_target ∈ get_peer_addrs ocs) then None
      else get_connection_progress_by_ip ocs (peer_addr msg)
  | _ => get_connection_progress_by_ip ocs (peer_addr msg)
  end.

(** What the handlers send: the delayed question about the debut, with the
    progress it is about, and the broadcast of the stage to the user interface. *)
Inductive StatusEffect :=
| AskAboutDebutGossip (cp : ConnectionProgress)
| BroadcastStage (s : OverallConnectionStage).

Definition update_ocs_stage_and_send_message_to_ui (ocs : OverallConnectionStatus)
    (new_stage : OverallConnectionStage) : OverallConnectionStatus * list StatusEffect :=
  if decide (new_stage = stage ocs) then (ocs, [])
  else (mkOcs new_stage (progress ocs), [BroadcastStage new_stage]).

Definition can_make_routes (ocs : OverallConnectionStatus) : bool :=
  bool_decide (stage ocs = RouteFound).

(** [remove]: [Vec::remove] panics out of bounds. *)
Definition ocs_remove (ocs : OverallConnectionStatus) (index : nat) :
    outcome (NodeDescriptor * OverallConnectionStatus) :=
  cp ← expect (progress ocs !! index) "removal index should be < len";
  mret (initial_node_descriptor cp, mkOcs (stage ocs) (delete index (progress ocs))).

Definition set_progress (ocs : OverallConnectionStatus) (i : nat) (cp : ConnectionProgress) :=
  mkOcs (stage ocs) (<[i := cp]> (progress ocs)).

Definition send_ask_about_debut_gossip_message (ocs : OverallConnectionStatus) (ip : IpAddr) :
    outcome (list StatusEffect) :=
  p ← expect (get_connection_progress_by_ip ocs ip) "called `Result::unwrap()` on an `Err` value";
  mret [AskAboutDebutGossip p.2].

(** [Handler<ConnectionProgressMessage>]; [ui_bound] tells whether the recipient
    for the user interface is set. *)
Definition handle_connection_progress_message (ui_bound : bool) (ocs : OverallConnectionStatus)
    (msg : ConnectionProgressMessage) : outcome (OverallConnectionStatus * list StatusEffect) :=
  match get_connection_progress_to_modify ocs msg with
  | None => mret (ocs, [])
  | Some (i, cp) =>
      cp' ← update_connection_stage cp (event msg);
      let ocs := set_progress ocs i cp' in
      match event msg with
      | TcpConnectionSuccessful =>
          effects ← send_ask_about_debut_gossip_message ocs (peer_addr msg);
          mret (ocs, effects)
      | IntroductionGossipReceived _ | StandardGossipReceived =>
          if ui_bound then mret (update_ocs_stage_and_send_message_to_ui ocs ConnectedToNeighbor)
          else Panic "UI Gateway is unbound"
      | _ => mret (ocs, [])
      end
  end.

(** [Handler<AskAboutDebutGossipMessage>]. *)
Definition handle_ask_about_debut_gossip (ocs : OverallConnectionStatus)
    (prev : ConnectionProgress) : outcome OverallConnectionStatus :=
  match get_connection_progress_by_desc ocs (initial_node_descriptor prev) with
  | None => mret ocs
  | Some (i, cp) =>
      if decide (prev = cp) then
        cp' ← update_connection_stage cp NoGossipResponseReceived;
        mret (set_progress ocs i cp')
      else mret ocs
  end.

(** [handle_gossip_failure]: the first initial neighbor at the failure's source is
    given up; the flag tells whether none is left and the Node shuts down. *)
Definition handle_gossip_failure (ocs : OverallConnectionStatus) (failure_source : IpAddr) :
    outcome (OverallConnectionStatus * bool) :=
  match list_find (λ cp, na_ip_addr <$> nd_node_addr_opt (initial_node_descriptor cp) =
                         Some failure_source) (progress ocs) with
  | None => Panic "not implemented: TODO: Test-drive me (or replace me with a panic)"
  | Some (position, cp) =>
      p ← ocs_remove ocs position;
      mret (p.2, bool_decide (progress p.2 = []))
  end.

(** ** Facts *)

(** The events a stage can take. *)
Definition event_allowed (s : ConnectionStage) (e : ConnectionProgressEvent) : bool :=
  match e with
  | TcpConnectionSuccessful =>
      match s with StageZero | StageFailed _ => true | _ => false end
  | IntroductionGossipReceived _ | StandardGossipReceived =>
      match s with TcpConnectionEstablished | StageFailed _ => true | _ => false end
  | PassGossipReceived _ =>
      match s with StageZero | TcpConnectionEstablished => true | _ => false end
  | TcpConnectionFailed | PassLoopFound | NoGossipResponseReceived => true
  end.

(** The stage an allowed event leads to. *)
Definition next_stage (e : ConnectionProgressEvent) : ConnectionStage :=
  match e with
  | TcpConnectionSuccessful => TcpConnectionEstablished
  | TcpConnectionFailed => StageFailed ErrTcpConnectionFailed
  | IntroductionGossipReceived _ | StandardGossipReceived => NeighborshipEstablished
  | PassGossipReceived _ => StageZero
  | PassLoopFound => StageFailed ErrPassLoopFound
  | NoGossipResponseReceived => StageFailed ErrNoGossipResponseReceived
  end.

(** The peer an allowed event leads to. *)
Definition next_peer (cp : ConnectionProgress) (e : ConnectionProgressEvent) : IpAddr :=
  match e with PassGossipReceived ip => ip | _ => current_peer_addr cp end.

Lemma update_connection_stage_cases cp e :
  match update_connection_stage cp e with
  | Ret cp' => event_allowed (connection_stage cp) e = true ∧
      cp' = mkProgress (initial_node_descriptor cp) (next_peer cp e) (next_stage e)
  | Panic _ => event_allowed (connection_stage cp) e = false
  end.
Proof. destruct cp as [d ip []], e; done. Qed.

Definition peers_distinct (ocs : OverallConnectionStatus) : Prop := NoDup (get_peer_addrs ocs).

Definition iter_initial_node_descriptors (ocs : OverallConnectionStatus) : list NodeDescriptor :=
  initial_node_descriptor <$> progress ocs.

Lemma get_to_modify_Some ocs msg i cp :
  get_connection_progress_to_modify ocs msg = Some (i, cp) →
  progress ocs !! i = Some cp ∧ current_peer_addr cp = peer_addr msg ∧
  (∀ ip, event msg = PassGossipReceived ip → ip ∉ get_peer_addrs ocs).
Proof.
  unfold get_connection_progress_to_modify, get_connection_progress_by_ip.
  destruct (event msg); intros H;
    try (apply list_find_Some in H as (? & ? & _); split_and!; [done..|]; intros ? [=]; fail).
  case_decide; [done|]. apply list_find_Some in H as (? & ? & _). split_and!; [done..|].
  by intros ? [= <-].
Qed.

(** Replacing a progress by one with the same descriptor and an unused peer. *)
Lemma set_progress_inv ocs i cp cp' :
  peers_distinct ocs → progress ocs !! i = Some cp →
  initial_node_descriptor cp' = initial_node_descriptor cp →
  (current_peer_addr cp' = current_peer_addr cp ∨ current_peer_addr cp' ∉ get_peer_addrs ocs) →
  peers_distinct (set_progress ocs i cp') ∧
  iter_initial_node_descriptors (set_progress ocs i cp') = iter_initial_node_descriptors ocs.
Proof.
  unfold peers_distinct, get_peer_addrs, iter_initial_node_descriptors. simpl.
  intros Hnd Hi Hd Ha. rewrite !list_fmap_insert. split.
  - destruct Ha as [->|Ha].
    + rewrite list_insert_id; [done|]. by rewrite list_lookup_fmap, Hi.
    + by apply NoDup_insert_fresh.
  - rewrite list_insert_id; [done|]. by rewrite list_lookup_fmap, Hi, Hd.
Qed.

(** The message handler, in closed form. *)
Definition progress_result (ocs : OverallConnectionStatus) (msg : ConnectionProgressMessage)
    (i : nat) (cp : ConnectionProgress) : OverallConnectionStatus * list StatusEffect :=
  let cp' := mkProgress (initial_node_descriptor cp) (next_peer cp (event msg))
               (next_stage (event msg)) in
  let ocs' := set_progress ocs i cp' in
  match event msg with
  | TcpConnectionSuccessful => (ocs', [AskAboutDebutGossip cp'])
  | IntroductionGossipReceived _ | StandardGossipReceived =>
      update_ocs_stage_and_send_message_to_ui ocs' ConnectedToNeighbor
  | _ => (ocs', [])
  end.

Lemma find_after_set ocs i cp cp' :
  list_find (λ c, current_peer_addr c = current_peer_addr cp) (progress ocs) = Some (i, cp) →
  current_peer_addr cp' = current_peer_addr cp →
  get_connection_progress_by_ip (set_progress ocs i cp') (current_peer_addr cp) = Some (i, cp').
Proof.
  intros (Hi & _ & Hmin)%list_find_Some E. unfold get_connection_progress_by_ip. simpl.
  apply list_find_Some. split_and!; [|done|].
  - apply list_lookup_insert_eq. by eapply lookup_lt_Some.
  - intros j y Hj Hlt. rewrite list_lookup_insert_ne in Hj by lia. by eapply Hmin.
Qed.

Lemma handle_cpm_eq ocs msg i cp :
  get_connection_progress_to_modify ocs msg = Some (i, cp) →
  handle_connection_progress_message true ocs msg =
    if event_allowed (connection_stage cp) (event msg) then Ret (progress_result ocs msg i cp)
    else match update_connection_stage cp (event msg) with
         | Panic why => Panic why
         | Ret _ => Ret (ocs, [])
         end.
Proof.
  intros Hm. unfold handle_connection_progress_message, progress_result. rewrite Hm.
  pose proof (update_connection_stage_cases cp (event msg)) as Hu.
  destruct (update_connection_stage cp (event msg)) as [cp'|why]; [|by rewrite Hu].
  destruct Hu as [-> ->]. cbn [mbind outcome_bind].
  destruct msg as [ip e]. destruct e; try done. simpl.
  unfold get_connection_progress_to_modify in Hm. simpl in Hm.
  pose proof Hm as Hm'. apply list_find_Some in Hm' as (_ & E & _). rewrite <-E in *.
  unfold send_ask_about_debut_gossip_message. by rewrite (find_after_set _ _ cp).
Qed.

(** The status moves by handled messages, by unanswered debuts and by changes of
    the overall stage. *)
Inductive status_step : OverallConnectionStatus → OverallConnectionStatus → Prop :=
| step_progress ui ocs msg ocs' effects :
    handle_connection_progress_message ui ocs msg = Ret (ocs', effects) → status_step ocs ocs'
| step_ask ocs prev ocs' :
    handle_ask_about_debut_gossip ocs prev = Ret ocs' → status_step ocs ocs'
| step_stage ocs s :
    status_step ocs (update_ocs_stage_and_send_message_to_ui ocs s).1.

Lemma update_ocs_stage_progress ocs s :
  progress (update_ocs_stage_and_send_message_to_ui ocs s).1 = progress ocs.
Proof. unfold update_ocs_stage_and_send_message_to_ui. by case_decide. Qed.

(** A handled message replaces at most one progress. *)
Lemma handle_cpm_progress ui ocs msg ocs' effects :
  handle_connection_progress_message ui ocs msg = Ret (ocs', effects) →
  progress ocs' = progress ocs ∨
  ∃ i cp, get_connection_progress_to_modify ocs msg = Some (i, cp) ∧
    event_allowed (connection_stage cp) (event msg) = true ∧
    progress ocs' = <[i := mkProgress (initial_node_descriptor cp) (next_peer cp (event msg))
                             (next_stage (event msg))]> (progress ocs).
Proof.
  unfold handle_connection_progress_message.
  destruct (get_connection_progress_to_modify ocs msg) as [[i cp]|] eqn:Hm.
  2:{ intros [= <- <-]. by left. }
  pose proof (update_connection_stage_cases cp (event msg)) as Hu.
  destruct (update_connection_stage cp (event msg)) as [cp'|why]; [|done].
  destruct Hu as [Hal ->]. cbn [mbind outcome_bind]. intros H. right. exists i, cp.
  split_and!; [done|done|]. destruct (event msg) eqn:He.
  1:{ revert H. unfold send_ask_about_debut_gossip_message.
      destruct (get_connection_progress_by_ip _ _); [|done]. by intros [= <- <-]. }
  all: try (by injection H as <- <-).
  all: destruct ui; [|done]; injection H as H.
  all: apply (f_equal (λ p, progress p.1)) in H; by rewrite update_ocs_stage_progress in H.
Qed.

Lemma status_step_inv ocs ocs' :
  status_step ocs ocs' → peers_distinct ocs →
  peers_distinct ocs' ∧ iter_initial_node_descriptors ocs' = iter_initial_node_descriptors ocs.
Proof.
  intros Hs Hd.
  assert (∀ o, progress o = progress ocs → peers_distinct o ∧
    iter_initial_node_descriptors o = iter_initial_node_descriptors ocs) as Hsame.
  { unfold peers_distinct, get_peer_addrs, iter_initial_node_descriptors. by intros o ->. }
  assert (∀ o i cp e, progress ocs !! i = Some cp →
    (∀ ip, e = PassGossipReceived ip → ip ∉ get_peer_addrs ocs) →
    progress o = <[i := mkProgress (initial_node_descriptor cp) (next_peer cp e) (next_stage e)]>
                   (progress ocs) →
    peers_distinct o ∧ iter_initial_node_descriptors o = iter_initial_node_descriptors ocs) as Hset.
  { intros o i cp e Hi Hp E.
    destruct (set_progress_inv ocs i cp (mkProgress (initial_node_descriptor cp)
      (next_peer cp e) (next_stage e))) as [H1 H2]; [done|done|done| |].
    { destruct e; simpl; auto. }
    unfold peers_distinct, get_peer_addrs, iter_initial_node_descriptors in *.
    by rewrite E. }
  destruct Hs as [ui ocs msg ocs' effects H|ocs prev ocs' H|ocs s].
  - apply handle_cpm_progress in H as [E|(i & cp & Hm & _ & E)]; [by apply Hsame|].
    apply get_to_modify_Some in Hm as (Hi & _ & Hp). by eapply Hset.
  - revert H. unfold handle_ask_about_debut_gossip, get_connection_progress_by_desc.
    destruct (list_find _ _) as [[i cp]|] eqn:Hf; [|intros [= <-]; by apply Hsame].
    case_decide; [|intros [= <-]; by apply Hsame].
    apply list_find_Some in Hf as (Hi & _ & _).
    pose proof (update_connection_stage_cases cp NoGossipResponseReceived) as Hu.
    destruct (update_connection_stage _ _) as [cp'|]; [|done]. destruct Hu as [_ ->].
    intros [= <-]. eapply (Hset _ i cp NoGossipResponseReceived); [done|by intros ? [=]|done].
  - apply Hsame, update_ocs_stage_progress.
Qed.

(** ** Theorems *)

(** a connection progress message finds its progress by peer address (a pass
    to a peer already in progress, or an unknown peer, is ignored); the message
    is handled exactly when the event is allowed in the progress's stage, and
    then changes that progress only, to the event's stage (and peer, for a pass);
    an event that is not allowed makes the handler panic. *)
Theorem connection_progress_spec ocs msg :
  match get_connection_progress_to_modify ocs msg with
  | None => handle_connection_progress_message true ocs msg = Ret (ocs, [])
  | Some (i, cp) =>
      if event_allowed (connection_stage cp) (event msg)
      then handle_connection_progress_message true ocs msg = Ret (progress_result ocs msg i cp)
      else ∃ why, handle_connection_progress_message true ocs msg = Panic why
  end.
Proof.
  destruct (get_connection_progress_to_modify ocs msg) as [[i cp]|] eqn:Hm.
  - rewrite (handle_cpm_eq _ _ _ _ Hm).
    pose proof (update_connection_stage_cases cp (event msg)) as Hu.
    destruct (update_connection_stage cp (event msg)); [by destruct Hu as [-> _]|].
    rewrite Hu. eauto.
  - unfold handle_connection_progress_message. by rewrite Hm.
Qed.

(** whatever messages arrive, no two connection progresses ever have the same
    peer, and the list of initial neighbors stays what it was. *)
Theorem status_reachable_inv ds ocs0 ocs :
  OverallConnectionStatus_new ds = Ret ocs0 →
  NoDup (omap (λ d, na_ip_addr <$> nd_node_addr_opt d) ds) →
  rtc status_step ocs0 ocs →
  NoDup (get_peer_addrs ocs) ∧ iter_initial_node_descriptors ocs = ds.
Proof.
  intros Hnew Hnd Hr.
  assert (peers_distinct ocs0 ∧ iter_initial_node_descriptors ocs0 = ds) as H0.
  { revert Hnew. unfold OverallConnectionStatus_new. destruct (mapM _ ds) as [ps|] eqn:Hm; [|done].
    intros [= <-].
    assert (current_peer_addr <$> ps = omap (λ d, na_ip_addr <$> nd_node_addr_opt d) ds ∧
            initial_node_descriptor <$> ps = ds) as [E1 E2].
    { clear Hnd Hr. revert ps Hm. induction ds as [|d ds IH]; intros ps Hm; simpl in Hm.
      - by injection Hm as <-.
      - destruct (ConnectionProgress_new d) as [cp|] eqn:Hcp; [|done]. simpl in Hm.
        destruct (mapM ConnectionProgress_new ds) as [ps'|]; [|done]. injection Hm as <-.
        destruct (IH _ eq_refl) as [IH1 IH2]. revert Hcp. unfold ConnectionProgress_new.
        destruct (nd_node_addr_opt d) as [a|] eqn:Ha; [|done]. intros [= <-].
        cbn [omap list_omap]. rewrite Ha.
        rewrite !fmap_cons, IH1, IH2. done. }
    unfold peers_distinct, get_peer_addrs. simpl. rewrite E1. done. }
  clear Hnew Hnd. induction Hr as [|o1 o2 o3 Hs _ IH]; [done|]. apply IH.
  destruct H0 as [Hd E]. destruct (status_step_inv _ _ Hs Hd) as [? E']. by rewrite E'.
Qed.

(** asking about an unanswered debut never panics: if the progress is still
    exactly as it was when the question was scheduled it fails with
    [NoGossipResponseReceived], and otherwise nothing changes. *)
Theorem ask_about_debut_spec ocs prev :
  returns (handle_ask_about_debut_gossip ocs prev) (λ ocs',
    match get_connection_progress_by_desc ocs (initial_node_descriptor prev) with
    | Some (i, cp) =>
        if decide (prev = cp)
        then ocs' = set_progress ocs i (mkProgress (initial_node_descriptor cp)
                      (current_peer_addr cp) (StageFailed ErrNoGossipResponseReceived))
        else ocs' = ocs
    | None => ocs' = ocs
    end).
Proof.
  unfold handle_ask_about_debut_gossip.
  destruct (get_connection_progress_by_desc _ _) as [[i cp]|]; [|done].
  case_decide; [|done]. pose proof (update_connection_stage_cases cp NoGossipResponseReceived) as Hu.
  destruct (update_connection_stage _ _) as [cp'|]; [|done]. by destruct Hu as [_ ->].
Qed.

(** ** Flaws *)

(** a neighbor that introduces a second node crashes the handler: the first
    introduction establishes the neighborship, and the stage cannot be
    established twice. *)
Theorem second_introduction_panics ocs i cp ip ip1 ip2 :
  get_connection_progress_by_ip ocs ip = Some (i, cp) →
  event_allowed (connection_stage cp) (IntroductionGossipReceived ip1) = true →
  ∃ ocs' effects why,
    handle_connection_progress_message true ocs (mkCpm ip (IntroductionGossipReceived ip1)) =
      Ret (ocs', effects) ∧
    handle_connection_progress_message true ocs' (mkCpm ip (IntroductionGossipReceived ip2)) =
      Panic why.
Proof.
  intros Hf Hal.
  pose proof (handle_cpm_eq ocs (mkCpm ip (IntroductionGossipReceived ip1)) i cp Hf) as H1.
  cbn [event] in H1. rewrite Hal in H1. destruct (progress_result _ _ i cp) as [ocs' effects] eqn:E.
  pose proof Hf as Hf'. apply list_find_Some in Hf' as (_ & Hip & _).
  set (cp' := mkProgress (initial_node_descriptor cp) (current_peer_addr cp) NeighborshipEstablished).
  assert (get_connection_progress_by_ip ocs' ip = Some (i, cp')) as Hf2.
  { apply (f_equal (λ p, progress p.1)) in E. unfold progress_result in E. simpl in E.
    rewrite update_ocs_stage_progress in E. unfold get_connection_progress_by_ip in *.
    rewrite <-E. subst ip. by apply (find_after_set ocs i cp cp'). }
  eexists ocs', effects, _. split; [exact H1|].
  by rewrite (handle_cpm_eq ocs' (mkCpm ip (IntroductionGossipReceived ip2)) i cp' Hf2).
Qed.

(** a refusal from a node that is not one of the initial neighbors, such as
    the target of a pass, makes the handler panic. *)
Theorem pass_target_refusal_panics ocs source :
  source ∉ omap (λ cp, na_ip_addr <$> nd_node_addr_opt (initial_node_descriptor cp)) (progress ocs) →
  ∃ why, handle_gossip_failure ocs source = Panic why.
Proof.
  intros Hni. unfold handle_gossip_failure.
  destruct (list_find _ _) as [[i cp]|] eqn:Hf; [|eauto].
  apply list_find_Some in Hf as (Hi & Hip & _). destruct Hni.
  apply list_elem_of_omap. exists cp. split; [by eapply list_elem_of_lookup_2|done].
Qed.

(** ** Witnesses *)
Definition sample_descriptor (z : Z) : NodeDescriptor :=
  mkNodeDescriptor 369 (sample_key z) (Some (sample_addr z)).

Definition sample_ocs : OverallConnectionStatus :=
  mkOcs NotConnected
    [mkProgress (sample_descriptor 2) (V4 16909058) TcpConnectionEstablished;
     mkProgress (sample_descriptor 3) (V4 16909059) StageZero].

Lemma status_reachable_inv_witness :
  ∃ ocs, rtc status_step (mkOcs NotConnected
      [mkProgress (sample_descriptor 2) (V4 16909058) StageZero;
       mkProgress (sample_descriptor 3) (V4 16909059) StageZero]) ocs ∧
    stage ocs = RouteFound ∧ NoDup (get_peer_addrs ocs).
Proof.
  eexists. split; [|split]; [eapply rtc_once, (step_stage _ RouteFound)|reflexivity|].
  eapply (status_reachable_inv [sample_descriptor 2; sample_descriptor 3]); [reflexivity| |].
  - apply (bool_decide_unpack _). vm_compute. exact I.
  - eapply rtc_once, (step_stage _ RouteFound).
Defined.

Lemma second_introduction_panics_witness :
  ∃ ocs' effects why,
    handle_connection_progress_message true sample_ocs
      (mkCpm (V4 16909058) (IntroductionGossipReceived (V4 7))) = Ret (ocs', effects) ∧
    handle_connection_progress_message true ocs'
      (mkCpm (V4 16909058) (IntroductionGossipReceived (V4 8))) = Panic why.
Proof. by apply (second_introduction_panics sample_ocs 0 (mkProgress (sample_descriptor 2)
  (V4 16909058) TcpConnectionEstablished)). Defined.

(** Node 2 passed us to node 5, which refuses our debut. *)
Lemma pass_target_refusal_panics_witness :
  ∃ ocs' effects why,
    handle_connection_progress_message true sample_ocs
      (mkCpm (V4 16909058) (PassGossipReceived (V4 16909061))) = Ret (ocs', effects) ∧
    handle_gossip_failure ocs' (V4 16909061) = Panic why.
Proof.
  eexists _, _.
  destruct (pass_target_refusal_panics
    (set_progress sample_ocs 0 (mkProgress (sample_descriptor 2) (V4 16909061) StageZero))
    (V4 16909061)) as [why Hw]; [apply (bool_decide_unpack _); vm_compute; exact I|].
  exists why. split; [reflexivity|exact Hw].
Defined.
