(* ===== verification/BitQueue.v ===== *)
(** * The bit queue of the IP-country data

    Models [ip_country/src/bit_queue.rs].  Counts are [usize] values that stay
    small, so they are natural numbers; bytes and bit data are integers of 8
    and 64 bits, with the shifts of [u64] written out.  A queue refines a FIFO
    of booleans ([contents]). *)

From S2P Require Import Prelude.

(** [u64] shifts: bits shifted out are lost; the count is taken modulo 64. *)
Definition shl64 (d : Z) (n : nat) : Z := u64 (Z.shiftl d (Z.of_nat n mod 64)).
Definition shr64 (d : Z) (n : nat) : Z := Z.shiftr d (Z.of_nat n mod 64).

(** [u8] right shift, the count modulo 8. *)
Definition shr8 (d : Z) (n : nat) : Z := Z.shiftr d (Z.of_nat n mod 8).

Record BitQueue := mkBitQueue {
  back_blank_bit_count : nat;
  byte_queue : list Z;
  front_blank_bit_count : nat
}.

Definition BitQueue_new : BitQueue := mkBitQueue 8 [0; 0] 8.

Definition bq_len (q : BitQueue) : nat :=
  length (byte_queue q) * 8 - back_blank_bit_count q - front_blank_bit_count q.

Definition bq_is_empty (q : BitQueue) : bool := Nat.eqb (bq_len q) 0.

Definition back_full_bit_count (q : BitQueue) : nat := 8 - back_blank_bit_count q.
Definition front_full_bit_count (q : BitQueue) : nat := 8 - front_blank_bit_count q.

(** [!(u64::MAX << count)]. *)
Definition low_order_ones (count : nat) : Z := 2 ^ 64 - 1 - shl64 (2 ^ 64 - 1) count.

(** [push_back], [pop_back], [pop_front] and [push_front] of the [VecDeque]. *)
Definition push_back (q : BitQueue) (b : Z) (blank : nat) : BitQueue :=
  mkBitQueue blank (byte_queue q ++ [b]) (front_blank_bit_count q).
Definition pop_back (q : BitQueue) (blank : nat) : BitQueue :=
  mkBitQueue blank (removelast (byte_queue q)) (front_blank_bit_count q).
Definition pop_front (q : BitQueue) (blank : nat) : BitQueue :=
  mkBitQueue (back_blank_bit_count q) (tail (byte_queue q)) blank.
Definition push_front (q : BitQueue) (b : Z) (blank : nat) : BitQueue :=
  mkBitQueue (back_blank_bit_count q) (b :: byte_queue q) blank.

(** Replacing the back and the front byte. *)
Definition set_back (q : BitQueue) (b : Z) (blank : nat) : BitQueue :=
  mkBitQueue blank (removelast (byte_queue q) ++ [b]) (front_blank_bit_count q).
Definition set_front (q : BitQueue) (b : Z) (blank : nat) : BitQueue :=
  mkBitQueue (back_blank_bit_count q) (b :: tail (byte_queue q)) blank.

Definition add_some_back_bits (q : BitQueue) (bit_data : Z) (bit_count : nat) :
    outcome (nat * BitQueue) :=
  let q := if Nat.eqb (back_blank_bit_count q) 0 then push_back q 0 8 else q in
  let bits_to_add := Nat.min bit_count (back_blank_bit_count q) in
  back ← expect (last (byte_queue q)) "There should be a back byte";
  let q := set_back q (Z.lor back (u8 (shl64 bit_data (back_full_bit_count q))))
             (back_blank_bit_count q - bits_to_add) in
  let q := if Nat.eqb (back_blank_bit_count q) 0 then push_back q 0 8 else q in
  mret (bits_to_add, q).

(** The loop of [add_back_bytes]: the bits left over and the queue. *)
Fixpoint push_bytes (fuel : nat) (q : BitQueue) (bit_data : Z) (bit_count : nat) :
    nat * BitQueue :=
  match fuel with
  | O => (bit_count, q)
  | S fuel' =>
      if (8 <=? bit_count)%nat then
        push_bytes fuel' (push_back q (u8 (Z.land bit_data (low_order_ones 8)))
                            (back_blank_bit_count q)) (shr64 bit_data 8) (bit_count - 8)
      else (bit_count, q)
  end.

Definition add_back_bytes (q : BitQueue) (bit_data : Z) (bit_count : nat) :
    outcome (nat * BitQueue) :=
  if (64 <? bit_count)%nat then Panic "add_back_bytes() can add a maximum of 64 bits per call"
  else if (bit_count <? 8)%nat then mret (0%nat, q)
  else
    let q := if Nat.eqb (back_blank_bit_count q) 8 then pop_back q 0 else q in
    if (0 <? back_blank_bit_count q)%nat
    then Panic "add_back_bytes() only works when there are no back blank bits"
    else
      let '(rest, q) := push_bytes bit_count q bit_data bit_count in
      mret ((bit_count - rest)%nat, q).

Definition add_bits (q : BitQueue) (bit_data : Z) (bit_count : nat) : outcome BitQueue :=
  if (64 <? bit_count)%nat then Panic "You can only add bits up to 64 at a time"
  else
    p1 ← add_some_back_bits q bit_data bit_count;
    let bit_data := shr64 bit_data p1.1 in
    let bit_count := (bit_count - p1.1)%nat in
    p2 ← add_back_bytes p1.2 bit_data bit_count;
    let bit_data := shr64 bit_data p2.1 in
    let bit_count := (bit_count - p2.1)%nat in
    p3 ← add_some_back_bits p2.2 bit_data bit_count;
    let bit_count := (bit_count - p3.1)%nat in
    if Nat.eqb bit_count 0 then mret p3.2 else Panic "Didn't add all the bits".

Definition take_some_front_bits (q : BitQueue) (bit_count : nat) :
    outcome (Z * nat * BitQueue) :=
  let q := if Nat.eqb (front_full_bit_count q) 0 && (2 <? length (byte_queue q))%nat
           then pop_front q 0 else q in
  let bits_to_take := Nat.min bit_count (front_full_bit_count q) in
  if Nat.eqb bits_to_take 0 then mret (0, 0%nat, q)
  else
    front ← expect (head (byte_queue q)) "There should be a front byte";
    let bit_data := Z.land front (u8 (low_order_ones bits_to_take)) in
    let q := set_front q (if (bits_to_take <? 8)%nat then shr8 front bits_to_take else 0)
               (front_blank_bit_count q + bits_to_take) in
    let q := if Nat.eqb (front_blank_bit_count q) 8 && (2 <? length (byte_queue q))%nat
             then pop_front q 0 else q in
    mret (bit_data, bits_to_take, q).

(** The loop of [take_front_bytes]: the data, the bits left over and the queue. *)
Fixpoint pop_bytes (fuel : nat) (q : BitQueue) (bit_data : Z) (original_bit_count bit_count : nat) :
    outcome (Z * nat * BitQueue) :=
  match fuel with
  | O => mret (bit_data, bit_count, q)
  | S fuel' =>
      if (8 <=? bit_count)%nat then
        byte ← expect (head (byte_queue q)) "Demanded too many bytes";
        pop_bytes fuel' (pop_front q (front_blank_bit_count q))
          (Z.lor bit_data (shl64 byte (original_bit_count - bit_count)))
          original_bit_count (bit_count - 8)
      else mret (bit_data, bit_count, q)
  end.

Definition take_front_bytes (q : BitQueue) (bit_count : nat) : outcome (Z * nat * BitQueue) :=
  if (64 <? bit_count)%nat then Panic "take_front_bytes() can take a maximum of 64 bits per call"
  else if (bit_count <? 8)%nat then mret (0, 0%nat, q)
  else
    let q := if Nat.eqb (front_blank_bit_count q) 8 then pop_front q 0 else q in
    if (0 <? front_blank_bit_count q)%nat
    then Panic "take_front_bytes() only works when there are no front blank bits"
    else
      p ← pop_bytes bit_count q 0 bit_count bit_count;
      let '(bit_data, rest, q) := p in
      let q := if (length (byte_queue q) <? 2)%nat then push_front q 0 8 else q in
      mret (bit_data, (bit_count - rest)%nat, q).

Definition take_some_back_bits (q : BitQueue) (bit_count : nat) : outcome (Z * nat * BitQueue) :=
  let bits_to_take := Nat.min bit_count (back_full_bit_count q) in
  let remaining_bits := (back_full_bit_count q - bits_to_take)%nat in
  let mask := low_order_ones bits_to_take in
  back ← expect (last (byte_queue q)) "There should be a back byte";
  let bit_data := if (remaining_bits <? 8)%nat then Z.land back (u8 mask) else 0 in
  let q := set_back q (shr8 back bits_to_take) (back_blank_bit_count q + bits_to_take) in
  let q := if Nat.eqb (back_blank_bit_count q) 8 && (2 <? length (byte_queue q))%nat
           then pop_back q 0 else q in
  mret (bit_data, bits_to_take, q).

Definition take_bits (q : BitQueue) (bit_count : nat) : outcome (option Z * BitQueue) :=
  if (64 <? bit_count)%nat then Panic "You can only take bits up to 64 at a time"
  else if (bq_len q <? bit_count)%nat then mret (None, q)
  else
    p1 ← take_some_front_bits q bit_count;
    let '(d1, n1, q) := p1 in
    let bit_data := Z.lor 0 (shl64 d1 0) in
    p2 ← take_front_bytes q (bit_count - n1);
    let '(d2, n2, q) := p2 in
    let bit_data := Z.lor bit_data (shl64 d2 n1) in
    p3 ← take_some_front_bits q (bit_count - n1 - n2);
    let '(d3, n3, q) := p3 in
    let bit_data := if (0 <? n3)%nat then Z.lor bit_data (shl64 d3 (n1 + n2)) else bit_data in
    p4 ← take_some_back_bits q (bit_count - n1 - n2 - n3);
    let '(d4, n4, q) := p4 in
    let bit_data := if (0 <? n4)%nat then Z.lor bit_data (shl64 d4 (n1 + n2 + n3)) else bit_data in
    if Nat.eqb (n1 + n2 + n3 + n4) bit_count then mret (Some bit_data, q)
    else Panic "Wanted more bits than it got".

(** What the queue holds: the [n] low bits of a byte, first bit first. *)
Definition bits (n : nat) (z : Z) : list bool := (λ i, Z.testbit z (Z.of_nat i)) <$> seq 0 n.

(** The bytes between the front and the back byte. *)
Definition middle (l : list Z) : list Z := removelast (tail l).

Definition contents (q : BitQueue) : list bool :=
  match byte_queue q with
  | front :: _ :: _ =>
      bits (8 - front_blank_bit_count q) front ++ (middle (byte_queue q) ≫= bits 8) ++
      bits (8 - back_blank_bit_count q) (default 0 (last (byte_queue q)))
  | _ => []
  end.

(** ** Bits *)

Lemma length_bits n z : length (bits n z) = n.
Proof. unfold bits. by rewrite length_fmap, length_seq. Qed.

Lemma lookup_bits n z i : (i < n)%nat → bits n z !! i = Some (Z.testbit z (Z.of_nat i)).
Proof. intros. unfold bits. rewrite list_lookup_fmap, lookup_seq_lt by done. done. Qed.

Lemma bits_ext n z z' :
  (∀ i, (i < n)%nat → Z.testbit z (Z.of_nat i) = Z.testbit z' (Z.of_nat i)) → bits n z = bits n z'.
Proof.
  intros H. apply list_eq_same_length with n; [by rewrite length_bits|by rewrite length_bits|].
  intros i x y Hi. rewrite !lookup_bits by done. rewrite H by done. congruence.
Qed.

Lemma bits_app n m z : bits (n + m) z = bits n z ++ bits m (Z.shiftr z (Z.of_nat n)).
Proof.
  unfold bits. rewrite seq_app, fmap_app. f_equal.
  apply list_eq_same_length with m; [by rewrite length_fmap, length_seq..|].
  intros i x y Hi. rewrite !list_lookup_fmap, !lookup_seq_lt by done. simpl.
  rewrite Z.shiftr_spec by lia. replace (Z.of_nat (n + i)) with (Z.of_nat i + Z.of_nat n) by lia.
  congruence.
Qed.

(** Bits above the width of a small number are zero. *)
Lemma testbit_above d k i : 0 ≤ d < 2 ^ k → k ≤ i → Z.testbit d i = false.
Proof.
  intros Hd Hi. destruct (Z.eq_dec d 0) as [->|]; [apply Z.testbit_0_l|].
  apply Z.bits_above_log2; [lia|]. destruct (Z.le_gt_cases 0 k).
  - apply Z.lt_le_trans with k; [|done]. apply Z.log2_lt_pow2; lia.
  - rewrite Z.pow_neg_r in Hd; lia.
Qed.

(** A number is below a power of two when its higher bits are zero. *)
Lemma below_of_bits d k :
  0 ≤ k → 0 ≤ d → (∀ i, k ≤ i → Z.testbit d i = false) → 0 ≤ d < 2 ^ k.
Proof.
  intros Hk Hd H. split; [done|]. destruct (Z.lt_ge_cases d (2 ^ k)) as [|Hge]; [done|].
  assert (0 < 2 ^ k) by (apply Z.pow_pos_nonneg; lia).
  specialize (H (Z.log2 d)). rewrite Z.bit_log2 in H by lia.
  assert (k ≤ Z.log2 d); [|by apply H in H1]. apply Z.log2_le_pow2; lia.
Qed.

(** Placing [d] above the [p] bits of [acc]. *)
Lemma lor_shift_bits acc d p k :
  0 ≤ acc < 2 ^ Z.of_nat p → 0 ≤ d →
  bits (p + k) (Z.lor acc (Z.shiftl d (Z.of_nat p))) = bits p acc ++ bits k d.
Proof.
  intros Hacc Hd. rewrite bits_app. f_equal; apply bits_ext; intros i Hi.
  - rewrite Z.lor_spec, Z.shiftl_spec by lia.
    rewrite (Z.testbit_neg_r d) by lia. by rewrite orb_false_r.
  - rewrite Z.shiftr_spec, Z.lor_spec, Z.shiftl_spec by lia.
    rewrite (testbit_above acc (Z.of_nat p)) by (done || lia). simpl. f_equal. lia.
Qed.

Lemma lor_shift_below acc d p k :
  0 ≤ acc < 2 ^ Z.of_nat p → 0 ≤ d < 2 ^ Z.of_nat k →
  0 ≤ Z.lor acc (Z.shiftl d (Z.of_nat p)) < 2 ^ Z.of_nat (p + k).
Proof.
  intros Hacc Hd. apply below_of_bits; [lia| |].
  - apply Z.lor_nonneg. split; [lia|]. apply Z.shiftl_nonneg. lia.
  - intros i Hi. rewrite Z.lor_spec, Z.shiftl_spec by lia.
    rewrite (testbit_above acc (Z.of_nat p)), (testbit_above d (Z.of_nat k)); by (done || lia).
Qed.

Lemma wrap_testbit w z i : 0 ≤ i < w → Z.testbit (wrap w z) i = Z.testbit z i.
Proof. intros. unfold wrap. by rewrite Z.mod_pow2_bits_low by lia. Qed.

Lemma shl64_small d n : (n < 64)%nat → 0 ≤ d < 2 ^ (64 - Z.of_nat n) →
  shl64 d n = Z.shiftl d (Z.of_nat n).
Proof.
  intros Hn Hd. unfold shl64. rewrite Z.mod_small by lia. apply wrap_small.
  split; [apply Z.shiftl_nonneg; lia|]. rewrite Z.shiftl_mul_pow2 by lia.
  replace (2 ^ 64) with (2 ^ (64 - Z.of_nat n) * 2 ^ Z.of_nat n); [|rewrite <-Z.pow_add_r; [f_equal; lia|lia..]].
  assert (0 < 2 ^ Z.of_nat n) by (apply Z.pow_pos_nonneg; lia). nia.
Qed.

Lemma shr64_small d n : (n < 64)%nat → shr64 d n = Z.shiftr d (Z.of_nat n).
Proof. intros. unfold shr64. by rewrite Z.mod_small by lia. Qed.

Lemma low_order_ones_small n : (n < 64)%nat → low_order_ones n = Z.ones (Z.of_nat n).
Proof.
  intros Hn. unfold low_order_ones, shl64, wrap. rewrite (Z.mod_small (Z.of_nat n) 64) by lia.
  rewrite Z.ones_equiv, Z.shiftl_mul_pow2 by lia.
  assert (0 < 2 ^ Z.of_nat n) by (apply Z.pow_pos_nonneg; lia).
  assert (2 ^ Z.of_nat n < 2 ^ 64) by (apply Z.pow_lt_mono_r; lia).
  replace ((2 ^ 64 - 1) * 2 ^ Z.of_nat n)
    with (2 ^ 64 - 2 ^ Z.of_nat n + (2 ^ Z.of_nat n - 1) * 2 ^ 64) by ring.
  rewrite Z.mod_add, Z.mod_small by lia. lia.
Qed.

(** ** The invariant *)

(** A queue with a front, a back and middle bytes; the blank bits of the back
    byte are zero. *)
Definition nf (fb : nat) (f : Z) (mid : list Z) (b : Z) (bb : nat) : BitQueue :=
  mkBitQueue bb (f :: mid ++ [b]) fb.

Definition is_byte (z : Z) : Prop := 0 ≤ z < 256.

Inductive bq_inv : BitQueue → Prop :=
| inv_nf fb f mid b bb :
    (fb ≤ 8)%nat → (bb ≤ 8)%nat → is_byte f → Forall is_byte mid →
    0 ≤ b < 2 ^ Z.of_nat (8 - bb) → bq_inv (nf fb f mid b bb)
| inv_single : bq_inv (mkBitQueue 0 [0] 8).

Lemma bq_inv_new : bq_inv BitQueue_new.
Proof. apply (inv_nf 8 0 [] 0 8); unfold is_byte; try (lia || constructor). Qed.

Lemma contents_nf fb f mid b bb :
  contents (nf fb f mid b bb) = bits (8 - fb) f ++ (mid ≫= bits 8) ++ bits (8 - bb) b.
Proof.
  unfold contents, nf. cbn [byte_queue front_blank_bit_count back_blank_bit_count].
  destruct (mid ++ [b]) as [|x l] eqn:E; [by destruct mid|].
  rewrite <-E. unfold middle. cbn [tail]. rewrite removelast_last.
  change (f :: mid ++ [b]) with ((f :: mid) ++ [b]). by rewrite last_snoc.
Qed.

Lemma last_nf (f : Z) mid b : last (f :: mid ++ [b]) = Some b.
Proof. change (f :: mid ++ [b]) with ((f :: mid) ++ [b]). by rewrite last_snoc. Qed.

Lemma removelast_nf (f : Z) mid b : removelast (f :: mid ++ [b]) = f :: mid.
Proof. change (f :: mid ++ [b]) with ((f :: mid) ++ [b]). by rewrite removelast_last. Qed.

Lemma bq_inv_nf fb f mid b bb :
  bq_inv (nf fb f mid b bb) →
  (fb ≤ 8)%nat ∧ (bb ≤ 8)%nat ∧ is_byte f ∧ Forall is_byte mid ∧ 0 ≤ b < 2 ^ Z.of_nat (8 - bb).
Proof.
  intros H. remember (nf fb f mid b bb) as q eqn:E.
  destruct H as [fb' f' mid' b' bb' ? ? ? ? ?|]; unfold nf in E.
  - injection E as -> -> E1 ->. by apply app_inj_2 in E1 as [-> [= ->]].
  - by destruct mid.
Qed.

Lemma bits_0 z : bits 0 z = [].
Proof. done. Qed.

Lemma bits_bytes_snoc mid b : (mid ++ [b]) ≫= bits 8 = (mid ≫= bits 8) ++ bits 8 b.
Proof. by rewrite bind_app. Qed.

Lemma bits_bytes_length mid : length (mid ≫= bits 8) = (8 * length mid)%nat.
Proof. induction mid as [|b mid IH]; [done|]. cbn [mbind list_bind]. rewrite length_app, length_bits, IH. simpl. lia. Qed.

Lemma length_contents q : bq_inv q → length (contents q) = bq_len q.
Proof.
  intros [fb f mid b bb Hfb Hbb _ _ _|]; [|done]. rewrite contents_nf.
  rewrite !length_app, !length_bits, bits_bytes_length. unfold bq_len, nf.
  cbn [byte_queue back_blank_bit_count front_blank_bit_count].
  rewrite length_cons, length_app. simpl. lia.
Qed.

Lemma pow_le_256 k : (k ≤ 8)%nat → 2 ^ Z.of_nat k ≤ 256.
Proof. intros. change 256 with (2 ^ 8). apply Z.pow_le_mono_r; lia. Qed.

(** ** Adding bits *)

(** A back byte with room. *)
Lemma room_at_back q :
  bq_inv q → ∃ fb f mid b bb,
    (if Nat.eqb (back_blank_bit_count q) 0 then push_back q 0 8 else q) = nf fb f mid b bb ∧
    bq_inv (nf fb f mid b bb) ∧ (0 < bb ≤ 8)%nat ∧ contents (nf fb f mid b bb) = contents q ∧
    bb = if Nat.eqb (back_blank_bit_count q) 0 then 8%nat else back_blank_bit_count q.
Proof.
  intros [fb f mid b bb Hfb Hbb Hf Hmid Hb|].
  - cbn [nf back_blank_bit_count]. destruct (Nat.eqb_spec bb 0) as [->|].
    + exists fb, f, (mid ++ [b]), 0, 8%nat. split_and!; [done| |lia|lia| |done].
      * constructor; [done|lia|done| |simpl; lia]. apply Forall_app_2; [done|].
        constructor; [|constructor]. unfold is_byte. simpl in Hb. lia.
      * rewrite !contents_nf, bits_bytes_snoc. change (bits (8 - 8) 0) with (@nil bool).
        by rewrite app_nil_r.
    + exists fb, f, mid, b, bb. split_and!; [done|by constructor|lia|lia|done|done].
  - exists 8%nat, 0, [], 0, 8%nat. split_and!; [done|apply bq_inv_new|lia|lia|done|done].
Qed.

(** Adding [k] bits to a back byte with [bb] blank bits. *)
Lemma back_byte_add b bb d n :
  (0 < bb ≤ 8)%nat → 0 ≤ b < 2 ^ Z.of_nat (8 - bb) → (n ≤ 64)%nat → 0 ≤ d < 2 ^ Z.of_nat n →
  let k := Nat.min n bb in
  let b' := Z.lor b (u8 (shl64 d (8 - bb))) in
  bits (8 - (bb - k)) b' = bits (8 - bb) b ++ bits k d ∧ 0 ≤ b' < 2 ^ Z.of_nat (8 - (bb - k)).
Proof.
  intros Hbb Hb Hn Hd k b'.
  assert (∀ i, 0 ≤ i < 8 → Z.testbit (u8 (shl64 d (8 - bb))) i =
                           Z.testbit (Z.shiftl d (Z.of_nat (8 - bb))) i) as Ht.
  { intros i Hi. unfold shl64. rewrite !wrap_testbit by lia. rewrite Z.mod_small by lia. done. }
  assert (0 ≤ u8 (shl64 d (8 - bb)) < 2 ^ 8) as Hw by (apply wrap_in_width; lia).
  replace (8 - (bb - k))%nat with (8 - bb + k)%nat by lia. split.
  - rewrite <-(lor_shift_bits b d (8 - bb) k) by lia. apply bits_ext. intros i Hi.
    unfold b'. rewrite !Z.lor_spec, Ht by lia. done.
  - apply below_of_bits; [lia|apply Z.lor_nonneg; lia|]. intros i Hi. unfold b'.
    rewrite Z.lor_spec, (testbit_above b (Z.of_nat (8 - bb))) by (done || lia). simpl.
    destruct (Z.lt_ge_cases i 8) as [Hi8|]; [|by rewrite (testbit_above _ 8)].
    rewrite Ht, Z.shiftl_spec by lia. apply (testbit_above d (Z.of_nat n)); [done|]. lia.
Qed.

Lemma add_some_back_bits_spec q d n :
  bq_inv q → (n ≤ 64)%nat → 0 ≤ d < 2 ^ Z.of_nat n →
  returns (add_some_back_bits q d n) (λ '(k, q'),
    (k ≤ n)%nat ∧ (k ≤ 8)%nat ∧ bq_inv q' ∧ contents q' = contents q ++ bits k d ∧
    (k < n → back_blank_bit_count q' = 8)%nat ∧
    k = Nat.min n (if Nat.eqb (back_blank_bit_count q) 0 then 8 else back_blank_bit_count q)).
Proof.
  intros Hinv Hn Hd. unfold add_some_back_bits.
  destruct (room_at_back q Hinv) as (fb & f & mid & b & bb & -> & Hinv' & Hbb & Hc & Ebb).
  cbn [nf byte_queue back_blank_bit_count]. rewrite last_nf. cbn [expect mbind outcome_bind].
  unfold back_full_bit_count, set_back. cbn [nf byte_queue back_blank_bit_count front_blank_bit_count].
  rewrite removelast_nf. destruct (bq_inv_nf _ _ _ _ _ Hinv') as (Hfb & _ & Hf & Hmid & Hb).
  set (k := Nat.min n bb).
  destruct (back_byte_add b bb d n Hbb Hb Hn Hd) as [Hbits Hb']. fold k in Hbits, Hb'.
  set (b' := Z.lor b _) in *.
  assert (bq_inv (nf fb f mid b' (bb - k))) as Hi' by (constructor; [done|lia|done..]).
  assert (contents (nf fb f mid b' (bb - k)) = contents q ++ bits k d) as Hc'.
  { rewrite <-Hc, !contents_nf, Hbits. by rewrite !app_assoc. }
  rewrite <-Ebb. split_and!; [lia|lia|..]; destruct (Nat.eqb_spec (bb - k) 0) as [E0|E0]; try (simpl; lia).
  - destruct (room_at_back _ Hi') as (fb1 & f1 & mid1 & b1 & bb1 & Er & Hir & _).
    cbn [nf back_blank_bit_count] in Er. rewrite E0 in Er. cbn [Nat.eqb] in Er.
    rewrite <-Er in Hir. rewrite E0. exact Hir.
  - exact Hi'.
  - destruct (room_at_back _ Hi') as (fb1 & f1 & mid1 & b1 & bb1 & Er & _ & _ & Hcr & _).
    cbn [nf back_blank_bit_count] in Er. rewrite E0 in Er. cbn [Nat.eqb] in Er.
    rewrite <-Er, Hc' in Hcr. rewrite E0. exact Hcr.
  - exact Hc'.
Qed.

(** The whole bytes of [d], low byte first. *)
Fixpoint chunks (m : nat) (d : Z) : list Z :=
  match m with
  | O => []
  | S m' => u8 (Z.land d (low_order_ones 8)) :: chunks m' (shr64 d 8)
  end.

Lemma length_chunks m d : length (chunks m d) = m.
Proof. revert d. induction m as [|m IH]; intros d; [done|]. simpl. by rewrite IH. Qed.

Lemma chunk_bits m d : chunks m d ≫= bits 8 = bits (8 * m) d.
Proof.
  revert d. induction m as [|m IH]; intros d; [done|].
  replace (8 * S m)%nat with (8 + 8 * m)%nat by lia. rewrite bits_app.
  cbn [chunks mbind list_bind]. rewrite IH. f_equal.
  apply bits_ext. intros i Hi. rewrite wrap_testbit, Z.land_spec, low_order_ones_small by lia.
  rewrite Z.ones_spec_low by lia. by rewrite andb_true_r.
Qed.

Lemma chunks_bytes m d : Forall is_byte (chunks m d).
Proof.
  revert d. induction m as [|m IH]; intros d; constructor; [|done].
  by apply (wrap_in_width 8).
Qed.

Lemma push_bytes_eq fuel q d n :
  (n ≤ fuel)%nat →
  push_bytes fuel q d n =
    ((n mod 8)%nat, mkBitQueue (back_blank_bit_count q) (byte_queue q ++ chunks (n / 8) d)
                      (front_blank_bit_count q)).
Proof.
  revert q d n. induction fuel as [|fuel IH]; intros q d n Hn.
  { replace n with 0%nat by lia. simpl. rewrite app_nil_r. by destruct q. }
  cbn [push_bytes]. destruct (Nat.leb_spec 8 n).
  - rewrite IH by lia. replace n with ((n - 8) + 1 * 8)%nat at 3 4 by lia.
    rewrite Nat.Div0.mod_add, Nat.div_add by lia. rewrite Nat.add_1_r.
    cbn [chunks push_back byte_queue back_blank_bit_count front_blank_bit_count].
    by rewrite <-app_assoc.
  - rewrite Nat.mod_small, Nat.div_small by lia. simpl. rewrite app_nil_r. by destruct q.
Qed.

Lemma add_back_bytes_spec q d n :
  bq_inv q → (n ≤ 64)%nat → (8 ≤ n → back_blank_bit_count q = 8)%nat →
  returns (add_back_bytes q d n) (λ '(k, q'),
    k = (8 * (n / 8))%nat ∧ bq_inv q' ∧ contents q' = contents q ++ bits k d ∧
    (if (n <? 8)%nat then q' = q else back_blank_bit_count q' = 0%nat)).
Proof.
  intros Hinv Hn Hbb. unfold add_back_bytes.
  destruct (Nat.ltb_spec 64 n); [lia|]. destruct (Nat.ltb_spec n 8).
  { cbn [returns mret outcome_ret]. rewrite Nat.div_small by lia. rewrite bits_0, app_nil_r.
    done. }
  specialize (Hbb ltac:(lia)). destruct Hinv as [fb f mid b bb Hfb _ Hf Hmid Hb|]; [|done].
  simpl in Hbb. subst bb. unfold pop_back. cbn [nf back_blank_bit_count byte_queue front_blank_bit_count].
  cbn [Nat.eqb back_blank_bit_count]. rewrite removelast_nf. change (0 <? 0)%nat with false.
  rewrite push_bytes_eq by lia.
  cbn [mret outcome_ret returns byte_queue back_blank_bit_count front_blank_bit_count].
  pose proof (Nat.div_mod_eq n 8) as Hdm. set (m := (n / 8)%nat) in *.
  assert (0 < m)%nat as Hm by (unfold m; apply Nat.div_str_pos; lia).
  replace (n - n mod 8)%nat with (8 * m)%nat by lia. rewrite <-chunk_bits.
  pose proof (chunks_bytes m d) as Hcb. pose proof (length_chunks m d) as Hlen.
  destruct (chunks m d) as [|x l] using rev_ind; [simpl in Hlen; lia|].
  apply Forall_app in Hcb as [Hl [Hx _]%Forall_cons].
  change ((f :: mid) ++ l ++ [x]) with (f :: mid ++ l ++ [x]). rewrite app_assoc.
  change (mkBitQueue 0 (f :: (mid ++ l) ++ [x]) fb) with (nf fb f (mid ++ l) x 0).
  split_and!; [done| | |done].
  - apply inv_nf; [done|lia|done|by apply Forall_app_2|exact Hx].
  - rewrite !contents_nf, bits_bytes_snoc, bind_app.
    change (bits (8 - 8) b) with (@nil bool). rewrite app_nil_r. by rewrite <-!app_assoc.
Qed.

Lemma shiftr_below d n k r :
  (n = k + r)%nat → 0 ≤ d < 2 ^ Z.of_nat n → 0 ≤ Z.shiftr d (Z.of_nat k) < 2 ^ Z.of_nat r.
Proof.
  intros -> Hd. rewrite Z.shiftr_div_pow2 by lia.
  replace (Z.of_nat (k + r)) with (Z.of_nat r + Z.of_nat k) in Hd by lia.
  rewrite Z.pow_add_r in Hd by lia. assert (0 < 2 ^ Z.of_nat k) by (apply Z.pow_pos_nonneg; lia).
  split; [apply Z.div_pos; lia|]. apply Z.div_lt_upper_bound; lia.
Qed.

(** Adding [n] bits appends them. *)
Lemma add_bits_returns q d n :
  bq_inv q → (n ≤ 64)%nat → 0 ≤ d < 2 ^ Z.of_nat n →
  returns (add_bits q d n) (λ q', bq_inv q' ∧ contents q' = contents q ++ bits n d).
Proof.
  intros Hinv Hn Hd. unfold add_bits. destruct (Nat.ltb_spec 64 n); [lia|].
  ret_via (by apply add_some_back_bits_spec).
  intros [k1 q1] (Hk1 & Hk8 & Hi1 & Hc1 & Hb1 & Ek1). cbn [fst snd].
  assert (0 < n → 0 < k1)%nat as Hpos.
  { rewrite Ek1. destruct (Nat.eqb_spec (back_blank_bit_count q) 0); lia. }
  rewrite shr64_small by lia. set (d1 := Z.shiftr d (Z.of_nat k1)) in *.
  ret_via (apply add_back_bytes_spec; [done|lia|]).
  { intros. apply Hb1. lia. }
  intros [k2 q2] (Hk2 & Hi2 & Hc2 & Hq2). cbn [fst snd].
  pose proof (Nat.div_mod_eq (n - k1) 8) as Hdm. pose proof (Nat.mod_upper_bound (n - k1) 8) as Hmod.
  rewrite <-Hk2 in Hdm. set (r := ((n - k1) mod 8)%nat) in *. clearbody r. clear Hk2.
  assert (n - k1 - k2 = r)%nat as -> by lia. rewrite shr64_small by lia.
  assert (Z.shiftr d1 (Z.of_nat k2) = Z.shiftr d (Z.of_nat (k1 + k2))) as Hd12.
  { unfold d1. rewrite Z.shiftr_shiftr by lia. f_equal. lia. }
  assert (0 ≤ Z.shiftr d1 (Z.of_nat k2) < 2 ^ Z.of_nat r) as Hd2.
  { rewrite Hd12. apply (shiftr_below d n (k1 + k2) r); [lia|done]. }
  ret_via (apply add_some_back_bits_spec; [done|lia|done]).
  intros [k3 q3] (_ & _ & Hi3 & Hc3 & _ & Hk3). cbn [fst snd].
  assert (k3 = r) as ->.
  { destruct (Nat.ltb_spec (n - k1) 8).
    - subst q2. destruct (Nat.eq_dec k1 n); [lia|]. rewrite Hb1 in Hk3 by lia. simpl in Hk3. lia.
    - rewrite Hq2 in Hk3. simpl in Hk3. lia. }
  rewrite Nat.sub_diag. simpl. split; [done|].
  rewrite Hc3, Hc2, Hc1, <-!app_assoc. f_equal.
  assert (n = k1 + (k2 + r))%nat as -> by lia. rewrite !bits_app.
  done.
Qed.

(** ** Taking bits *)

(** The front byte is whole, or there is nothing before the back byte. *)
Definition aligned (q : BitQueue) : Prop :=
  front_blank_bit_count q = 0%nat ∨
  (front_blank_bit_count q = 8%nat ∧ (length (byte_queue q) ≤ 2)%nat).

(** Dropping an empty front byte when others follow. *)
Lemma pop_blank_front fb f mid b bb :
  bq_inv (nf fb f mid b bb) →
  ∃ fb' f' mid',
    (if Nat.eqb fb 8 && (2 <? length (f :: mid ++ [b]))%nat then pop_front (nf fb f mid b bb) 0
     else nf fb f mid b bb) = nf fb' f' mid' b bb ∧
    bq_inv (nf fb' f' mid' b bb) ∧
    contents (nf fb' f' mid' b bb) = contents (nf fb f mid b bb) ∧
    (fb' = 8%nat → mid' = []) ∧ (fb' = fb ∨ fb = 8%nat ∧ fb' = 0%nat ∧ mid ≠ []).
Proof.
  intros Hinv. destruct (bq_inv_nf _ _ _ _ _ Hinv) as (Hfb & Hbb & Hf & Hmid & Hb).
  destruct (Nat.eqb_spec fb 8) as [->|Hne]; [|exists fb, f, mid; by split_and!; auto].
  destruct mid as [|x mid]; [exists 8%nat, f, []; by split_and!; auto|].
  exists 0%nat, x, mid. apply Forall_cons in Hmid as [Hx Hmid].
  assert (2 <? length (f :: (x :: mid) ++ [b]) = true)%nat as ->.
  { apply Nat.ltb_lt. simpl. rewrite length_app. simpl. lia. }
  split_and!; [done|by apply inv_nf; auto; lia| |done|auto].
  rewrite !contents_nf. cbn [mbind list_bind]. change (bits (8 - 8) f) with (@nil bool).
  by rewrite <-app_assoc.
Qed.

Lemma ones_low k : (k ≤ 8)%nat → u8 (low_order_ones k) = Z.ones (Z.of_nat k).
Proof.
  intros. rewrite low_order_ones_small by lia. apply wrap_small. split.
  - rewrite Z.ones_equiv. pose proof (Z.pow_pos_nonneg 2 (Z.of_nat k)). lia.
  - rewrite Z.ones_equiv. pose proof (Z.pow_le_mono_r 2 (Z.of_nat k) 8). lia.
Qed.

Lemma land_ones_bits z k :
  0 ≤ z → bits k (Z.land z (Z.ones (Z.of_nat k))) = bits k z ∧
  0 ≤ Z.land z (Z.ones (Z.of_nat k)) < 2 ^ Z.of_nat k.
Proof.
  intros Hz. split.
  - apply bits_ext. intros i Hi. rewrite Z.land_spec, Z.ones_spec_low by lia. by rewrite andb_true_r.
  - rewrite Z.land_ones by lia. apply Z.mod_pos_bound. apply Z.pow_pos_nonneg; lia.
Qed.

Lemma shr8_small d n : (n < 8)%nat → shr8 d n = Z.shiftr d (Z.of_nat n).
Proof. intros. unfold shr8. by rewrite Z.mod_small by lia. Qed.

(** The front byte after [k] bits were taken from it. *)
Lemma front_byte_take f k m :
  is_byte f → (k ≤ 8)%nat → (k + m ≤ 8)%nat →
  let f' := if (k <? 8)%nat then shr8 f k else 0 in
  bits (k + m) f = bits k f ++ bits m f' ∧ is_byte f'.
Proof.
  intros Hf Hk Hm f'. unfold f'. destruct (Nat.ltb_spec k 8).
  - rewrite shr8_small, bits_app by done. split; [done|].
    unfold is_byte in *. rewrite Z.shiftr_div_pow2 by lia.
    assert (0 < 2 ^ Z.of_nat k) by (apply Z.pow_pos_nonneg; lia).
    split; [apply Z.div_pos; lia|]. apply Z.div_lt_upper_bound; nia.
  - replace m with 0%nat by lia. rewrite Nat.add_0_r, bits_0, app_nil_r. by unfold is_byte.
Qed.

Lemma take_some_front_bits_spec q n :
  bq_inv q →
  returns (take_some_front_bits q n) (λ '(d, k, q'),
    (k ≤ n)%nat ∧ (k ≤ 8)%nat ∧ bq_inv q' ∧ contents q = bits k d ++ contents q' ∧
    0 ≤ d < 2 ^ Z.of_nat k ∧ (k < n → aligned q')%nat ∧
    (aligned q → n < 8 → k < n → front_blank_bit_count q' = 8 ∧ length (byte_queue q') ≤ 2)%nat).
Proof.
  intros Hinv. unfold take_some_front_bits.
  destruct Hinv as [fb f mid b bb Hfb Hbb Hf Hmid Hb|].
  2:{ simpl. rewrite Nat.min_0_r. simpl. unfold aligned. simpl.
      split_and!; try lia; [apply inv_single|done|lia..]. }
  assert (Hinv : bq_inv (nf fb f mid b bb)) by by apply inv_nf.
  unfold front_full_bit_count. cbn [nf front_blank_bit_count byte_queue].
  replace (Nat.eqb (8 - fb) 0) with (Nat.eqb fb 8)
    by (destruct (Nat.eqb_spec fb 8), (Nat.eqb_spec (8 - fb) 0); lia || done).
  fold (nf fb f mid b bb).
  destruct (pop_blank_front _ _ _ _ _ Hinv) as (fb1 & f1 & mid1 & -> & Hinv1 & Hc1 & Hend1 & Hfb1).
  destruct (bq_inv_nf _ _ _ _ _ Hinv1) as (Hfb1' & _ & Hf1 & Hmid1 & _).
  cbn [nf front_blank_bit_count byte_queue]. rewrite <-Hc1.
  destruct (Nat.eqb_spec (Nat.min n (8 - fb1)) 0) as [E0|E0].
  { cbn [returns mret outcome_ret]. fold (nf fb1 f1 mid1 b bb). split_and!; try lia; try done.
    - intros Hn. right. simpl. assert (fb1 = 8)%nat as -> by lia. rewrite Hend1 by done. auto.
    - intros _ _ Hn. simpl. assert (fb1 = 8)%nat as -> by lia. rewrite Hend1 by done. auto. }
  set (k := Nat.min n (8 - fb1)) in *. cbn [head expect mbind outcome_bind].
  unfold set_front. cbn [tail nf front_blank_bit_count byte_queue back_blank_bit_count].
  destruct (front_byte_take f1 k (8 - fb1 - k)) as [Hb1 Hf2]; [done|lia|lia|].
  set (f2 := if (k <? 8)%nat then shr8 f1 k else 0) in *.
  fold (nf (fb1 + k) f2 mid1 b bb).
  assert (Hinv2 : bq_inv (nf (fb1 + k) f2 mid1 b bb)) by (apply inv_nf; [lia|done..]).
  destruct (pop_blank_front _ _ _ _ _ Hinv2) as (fb3 & f3 & mid3 & -> & Hinv3 & Hc3 & Hend3 & Hfb3).
  destruct (land_ones_bits f1 k) as [Hd Hdb]; [unfold is_byte in Hf1; lia|].
  rewrite ones_low by lia. cbn [returns mret outcome_ret].
  split_and!; try lia; try done.
  - rewrite Hc3, !contents_nf, Hd.
    replace (8 - (fb1 + k))%nat with (8 - fb1 - k)%nat by lia.
    assert (8 - fb1 = k + (8 - fb1 - k))%nat as E by lia. rewrite E at 1. rewrite Hb1.
    by rewrite <-app_assoc.
  - intros Hn. destruct Hfb3 as [->|(_ & -> & _)]; [|by left]. right. simpl.
    assert (fb1 + k = 8)%nat as E by lia. rewrite E. rewrite Hend3 by lia. auto.
  - intros Hal Hn8 Hkn. assert (k = 8 - fb1)%nat by lia. exfalso.
    destruct Hal as [Hal|[Hal Hl]]; simpl in Hal; [lia|]. subst fb.
    destruct mid; [|simpl in Hl; rewrite length_app in Hl; simpl in Hl; lia].
    destruct Hfb1 as [->|(_ & _ & ?)]; [lia|done].
Qed.

Lemma pop_bytes_spec fuel bb fb (X Y : list Z) acc orig cnt :
  (cnt ≤ fuel)%nat → length X = (cnt / 8)%nat → Forall is_byte X →
  (cnt ≤ orig ≤ 64)%nat → 0 ≤ acc < 2 ^ Z.of_nat (orig - cnt) →
  returns (pop_bytes fuel (mkBitQueue bb (X ++ Y) fb) acc orig cnt) (λ '(d, rest, q'),
    rest = (cnt mod 8)%nat ∧ q' = mkBitQueue bb Y fb ∧
    bits (orig - cnt + 8 * length X) d = bits (orig - cnt) acc ++ (X ≫= bits 8) ∧
    0 ≤ d < 2 ^ Z.of_nat (orig - cnt + 8 * length X)).
Proof.
  revert X acc cnt. induction fuel as [|fuel IH]; intros X acc cnt Hf HX Hb Hc Hacc.
  { replace cnt with 0%nat in * by lia. destruct X; [|done]. simpl. rewrite app_nil_r.
    rewrite Nat.add_0_r. done. }
  cbn [pop_bytes]. destruct (Nat.leb_spec 8 cnt) as [H8|H8].
  - assert (cnt / 8 = S ((cnt - 8) / 8))%nat as Hdiv.
    { replace cnt with ((cnt - 8) + 1 * 8)%nat at 1 by lia. rewrite Nat.div_add by lia. lia. }
    rewrite Hdiv in HX. destruct X as [|x X]; [done|]. injection HX as HX. apply Forall_cons in Hb as [Hx Hb].
    cbn [app byte_queue head expect mbind outcome_bind pop_front tail front_blank_bit_count
         back_blank_bit_count].
    unfold is_byte in Hx.
    assert (2 ^ 8 ≤ 2 ^ (64 - Z.of_nat (orig - cnt))) by (apply Z.pow_le_mono_r; lia).
    rewrite shl64_small by lia.
    pose proof (lor_shift_below acc x (orig - cnt) 8 Hacc ltac:(simpl; lia)) as Hbel.
    pose proof (lor_shift_bits acc x (orig - cnt) 8 Hacc ltac:(lia)) as Hbits.
    replace (orig - cnt + 8)%nat with (orig - (cnt - 8))%nat in Hbel, Hbits by lia.
    eapply returns_mono; [apply (IH X _ (cnt - 8)%nat); [lia| |done|lia|exact Hbel]|].
    { done. }
    intros [[d rest] q'] (Hr & Hq & Hd & Hdb). split_and!.
    + rewrite Hr. replace cnt with ((cnt - 8) + 1 * 8)%nat at 2 by lia. by rewrite Nat.Div0.mod_add.
    + done.
    + rewrite Hbits, <-app_assoc in Hd. rewrite bind_cons, <-Hd. f_equal.
      simpl. lia.
    + apply Hdb.
    + replace (orig - cnt + 8 * length (x :: X))%nat with (orig - (cnt - 8) + 8 * length X)%nat;
        [apply Hdb|simpl; lia].
  - rewrite Nat.div_small in HX by lia. destruct X; [|done]. cbn [returns mret outcome_ret].
    rewrite Nat.mod_small by lia. simpl. rewrite app_nil_r, Nat.add_0_r. done.
Qed.

(** The bytes of an aligned queue that is not empty. *)
Lemma aligned_bytes q :
  bq_inv q → aligned q → contents q ≠ [] →
  ∃ L b, (if Nat.eqb (front_blank_bit_count q) 8 then pop_front q 0 else q) =
           mkBitQueue (back_blank_bit_count q) (L ++ [b]) 0 ∧
    contents q = (L ≫= bits 8) ++ bits (8 - back_blank_bit_count q) b ∧
    Forall is_byte L ∧ (back_blank_bit_count q ≤ 8)%nat ∧
    0 ≤ b < 2 ^ Z.of_nat (8 - back_blank_bit_count q).
Proof.
  intros [fb f mid b bb Hfb Hbb Hf Hmid Hb|] Hal Hne; [|done].
  cbn [nf front_blank_bit_count back_blank_bit_count]. rewrite contents_nf.
  destruct Hal as [E|[E Hl]]; cbn [nf front_blank_bit_count byte_queue] in E; subst fb.
  - exists (f :: mid), b. split_and!; try (done || lia). by constructor.
  - exists mid, b. split_and!; try (done || lia).
Qed.

(** A queue made of whole bytes and a back byte. *)
Lemma rebuild_front L b bb :
  Forall is_byte L → (bb ≤ 8)%nat → 0 ≤ b < 2 ^ Z.of_nat (8 - bb) →
  let q := mkBitQueue bb (L ++ [b]) 0 in
  let q' := if (length (byte_queue q) <? 2)%nat then push_front q 0 8 else q in
  bq_inv q' ∧ contents q' = (L ≫= bits 8) ++ bits (8 - bb) b ∧ aligned q'.
Proof.
  intros HL Hbb Hb. destruct L as [|x L]; cbn zeta.
  - change (length (byte_queue (mkBitQueue bb ([] ++ [b]) 0)) <? 2)%nat with true. cbv iota.
    change (push_front (mkBitQueue bb ([] ++ [b]) 0) 0 8) with (nf 8 0 [] b bb).
    split_and!; [apply inv_nf; [lia|done|by unfold is_byte|constructor|done]| |right; simpl; lia].
    by rewrite contents_nf.
  - apply Forall_cons in HL as [Hx HL].
    assert (length (byte_queue (mkBitQueue bb ((x :: L) ++ [b]) 0)) <? 2 = false)%nat as ->.
    { apply Nat.ltb_ge. simpl. rewrite length_app. simpl. lia. }
    change (mkBitQueue bb ((x :: L) ++ [b]) 0) with (nf 0 x L b bb).
    split_and!; [apply inv_nf; [lia|done..]| |by left].
    rewrite contents_nf, bind_cons. change (8 - 0)%nat with 8%nat. by rewrite <-app_assoc.
Qed.

Lemma take_front_bytes_spec q n :
  bq_inv q → (n ≤ 64)%nat → (n ≤ length (contents q))%nat → (8 ≤ n → aligned q)%nat →
  returns (take_front_bytes q n) (λ '(d, k, q'),
    k = (8 * (n / 8))%nat ∧ bq_inv q' ∧ contents q = bits k d ++ contents q' ∧
    0 ≤ d < 2 ^ Z.of_nat k ∧ (aligned q → aligned q')).
Proof.
  intros Hinv Hn Hlen Hal. unfold take_front_bytes.
  destruct (Nat.ltb_spec 64 n); [lia|]. destruct (Nat.ltb_spec n 8) as [H8|H8].
  { cbn [returns mret outcome_ret]. rewrite Nat.div_small by lia. simpl. split_and!; done || lia. }
  destruct (aligned_bytes q Hinv) as (L & b & E & Hc & HL & Hbb & Hb); [by apply Hal| |].
  { intros E. rewrite E in Hlen. simpl in Hlen. lia. }
  rewrite E. cbn [front_blank_bit_count]. change (0 <? 0)%nat with false. cbv iota.
  set (bb := back_blank_bit_count q) in *. pose proof (Nat.div_mod_eq n 8) as Hdm.
  rewrite Hc, length_app, length_bits, bits_bytes_length in Hlen.
  assert (∃ X Y, L ++ [b] = X ++ Y ∧ length X = (n / 8)%nat ∧ Forall is_byte X ∧
    let q1 := mkBitQueue bb Y 0 in
    let q' := if (length (byte_queue q1) <? 2)%nat then push_front q1 0 8 else q1 in
    bq_inv q' ∧ contents q = (X ≫= bits 8) ++ contents q' ∧ aligned q') as (X & Y & EL & HX & HXb & Hq').
  { destruct (Nat.le_gt_cases (n / 8) (length L)) as [Hm|Hm].
    - exists (take (n / 8) L), (drop (n / 8) L ++ [b]). rewrite app_assoc, take_drop.
      split_and!; [done|rewrite length_take; lia|by apply Forall_take|].
      destruct (rebuild_front (drop (n / 8) L) b bb) as (Hi & Hcq & Haq); [by apply Forall_drop|done..|].
      split_and!; [done| |done]. rewrite Hcq, Hc, app_assoc. f_equal.
      by rewrite <-bind_app, take_drop.
    - assert (n / 8 = S (length L) ∧ bb = 0)%nat as [Em ->] by lia.
      exists (L ++ [b]), []. rewrite app_nil_r. split_and!; [done|rewrite length_app, Em; cbn [length]; lia| |].
      + apply Forall_app_2; [done|]. constructor; [|constructor]. exact Hb.
      + simpl. split_and!; [apply inv_single| |right; simpl; lia].
        rewrite app_nil_r, bits_bytes_snoc. exact Hc. }
  rewrite EL. ret_via (apply pop_bytes_spec; [lia|done|done|lia|by rewrite Nat.sub_diag]).
  intros [[d rest] q1] (-> & -> & Hd & Hdb). cbn [returns mret outcome_ret].
  rewrite Nat.sub_diag in Hd, Hdb. cbn [Nat.add] in Hd, Hdb. rewrite bits_0, app_nil_l in Hd.
  destruct Hq' as (Hi & Hcq & Haq). rewrite HX in Hd, Hdb. split_and!; try done; [lia|..].
  - replace (n - n mod 8)%nat with (8 * (n / 8))%nat by lia. by rewrite Hd.
  - lia.
  - replace (n - n mod 8)%nat with (8 * (n / 8))%nat by lia. apply Hdb.
Qed.

(** Dropping a blank back byte keeps what the queue holds. *)
Lemma drop_blank_back fb f mid b bb :
  bq_inv (nf fb f mid b bb) → (fb ≤ 8)%nat → is_byte f → Forall is_byte mid →
  let q := nf fb f mid b bb in
  let q' := if Nat.eqb bb 8 && (2 <? length (f :: mid ++ [b]))%nat then pop_back q 0 else q in
  bq_inv q' ∧ contents q' = contents q.
Proof.
  intros Hinv Hfb Hf Hmid. cbv zeta.
  destruct (Nat.eqb_spec bb 8) as [->|]; [destruct mid as [|x mid _] using rev_ind|]; try done.
  assert (2 <? length (f :: (mid ++ [x]) ++ [b]) = true)%nat as ->.
  { apply Nat.ltb_lt. simpl. rewrite !length_app. simpl. lia. }
  cbn [andb]. unfold pop_back. cbn [nf byte_queue front_blank_bit_count].
  change (f :: (mid ++ [x]) ++ [b]) with (f :: ((mid ++ [x]) ++ [b])). rewrite removelast_nf.
  change (mkBitQueue 0 (f :: mid ++ [x]) fb) with (nf fb f mid x 0).
  apply Forall_app in Hmid as [Hm [Hx _]%Forall_cons]. split; [by apply inv_nf; try lia|].
  rewrite !contents_nf, bits_bytes_snoc. change (bits (8 - 8) b) with (@nil bool). by rewrite app_nil_r.
Qed.

(** The bits left after the front is exhausted are taken from the back byte. *)
Lemma take_some_back_bits_spec q n :
  bq_inv q → (n < 8)%nat → (n ≤ length (contents q))%nat →
  (0 < n → front_blank_bit_count q = 8 ∧ length (byte_queue q) ≤ 2)%nat →
  returns (take_some_back_bits q n) (λ '(d, k, q'),
    k = n ∧ bq_inv q' ∧ contents q = bits k d ++ contents q' ∧ 0 ≤ d < 2 ^ Z.of_nat k).
Proof.
  intros Hinv Hn Hlen Hfront. unfold take_some_back_bits.
  destruct Hinv as [fb f mid b bb Hfb Hbb Hf Hmid Hb|].
  2:{ destruct n; [|simpl in Hlen; lia]. simpl. split_and!; try (done || lia). apply inv_single. }
  unfold back_full_bit_count, set_back. cbn [nf byte_queue back_blank_bit_count front_blank_bit_count].
  rewrite last_nf, removelast_nf. cbn [expect mbind outcome_bind].
  cbn [nf byte_queue front_blank_bit_count] in Hfront.
  rewrite contents_nf in Hlen |- *.
  assert (Nat.min n (8 - bb) = n ∧ (0 < n → mid = [] ∧ fb = 8)%nat) as [-> Hmid0].
  { destruct n as [|n]; [split; [lia|lia]|]. destruct (Hfront ltac:(lia)) as [-> Hl].
    destruct mid as [|x mid]; [|simpl in Hl; rewrite length_app in Hl; simpl in Hl; lia].
    rewrite !length_app, !length_bits in Hlen. cbn [mbind list_bind length Nat.sub Nat.add] in Hlen.
    split; [lia|done]. }
  rewrite ones_low, shr8_small by lia. destruct (land_ones_bits b n) as [Hd Hdb]; [lia|].
  destruct n as [|n].
  - (* nothing is taken; a blank back byte may be dropped *)
    change (Z.shiftr b (Z.of_nat 0)) with (Z.shiftr b 0). rewrite Z.shiftr_0_r, Nat.add_0_r.
    change ((f :: mid) ++ [b]) with (f :: mid ++ [b]).
    destruct (drop_blank_back fb f mid b bb) as [Hi Hc]; [by apply inv_nf|lia|done|done|].
    rewrite contents_nf in Hc. cbn [returns mret outcome_ret]. rewrite <-Hc. unfold nf in *.
    change (Z.ones (Z.of_nat 0)) with 0. rewrite Z.land_0_r.
    split_and!; try done; destruct (_ <? 8)%nat; simpl; lia.
  - destruct (Hmid0 ltac:(lia)) as [-> ->]. cbn [app length byte_queue back_blank_bit_count].
    assert (8 - bb - S n <? 8 = true)%nat as -> by (apply Nat.ltb_lt; lia).
    change (2 <? length [f; Z.shiftr b (Z.of_nat (S n))])%nat with false. rewrite andb_false_r.
    cbn [returns mret outcome_ret].
    change (mkBitQueue (bb + S n) [f; Z.shiftr b (Z.of_nat (S n))] 8)
      with (nf 8 f [] (Z.shiftr b (Z.of_nat (S n))) (bb + S n)).
    rewrite !length_app, !length_bits in Hlen. cbn [mbind list_bind length Nat.sub Nat.add] in Hlen.
    split_and!; [done| | |apply Hdb..].
    + apply inv_nf; [lia|lia|done|constructor|].
      apply (shiftr_below b (8 - bb) (S n)); [lia|done].
    + rewrite contents_nf, Hd. change (bits (8 - 8) f) with (@nil bool). cbn [mbind list_bind app].
      replace (8 - bb)%nat with (S n + (8 - (bb + S n)))%nat by lia. by rewrite bits_app.
Qed.

(** The data assembled so far, and the next piece. *)
Lemma assemble (acc d : Z) (p k : nat) :
  (p + k ≤ 64)%nat → 0 ≤ acc < 2 ^ Z.of_nat p → 0 ≤ d < 2 ^ Z.of_nat k →
  let acc' := if (0 <? k)%nat then Z.lor acc (shl64 d p) else acc in
  bits (p + k) acc' = bits p acc ++ bits k d ∧ 0 ≤ acc' < 2 ^ Z.of_nat (p + k).
Proof.
  intros Hpk Hacc Hd acc'. unfold acc'. destruct (Nat.ltb_spec 0 k).
  - assert (2 ^ Z.of_nat k ≤ 2 ^ (64 - Z.of_nat p)) by (apply Z.pow_le_mono_r; lia).
    rewrite shl64_small by lia. split; [apply lor_shift_bits; lia|by apply lor_shift_below].
  - replace k with 0%nat by lia. rewrite Nat.add_0_r, bits_0, app_nil_r. done.
Qed.

Lemma assemble_always (acc d : Z) (p k : nat) :
  (p + k ≤ 64)%nat → 0 ≤ acc < 2 ^ Z.of_nat p → 0 ≤ d < 2 ^ Z.of_nat k →
  let acc' := Z.lor acc (shl64 d p) in
  bits (p + k) acc' = bits p acc ++ bits k d ∧ 0 ≤ acc' < 2 ^ Z.of_nat (p + k).
Proof.
  intros Hpk Hacc Hd acc'. pose proof (assemble acc d p k Hpk Hacc Hd) as H. simpl in H.
  destruct (Nat.ltb_spec 0 k); [exact H|]. assert (k = 0)%nat as -> by lia.
  assert (d = 0) as -> by (simpl in Hd; lia). unfold acc'.
  replace (shl64 0 p) with 0; [by rewrite Z.lor_0_r|]. unfold shl64. by rewrite Z.shiftl_0_l.
Qed.

(** Taking [n] bits removes them from the front; if there are fewer, nothing
    happens. *)
Lemma take_bits_returns q n :
  bq_inv q → (n ≤ 64)%nat →
  returns (take_bits q n) (λ '(o, q'), bq_inv q' ∧
    match o with
    | None => q' = q ∧ (length (contents q) < n)%nat
    | Some d => contents q = bits n d ++ contents q' ∧ 0 ≤ d < 2 ^ Z.of_nat n
    end).
Proof.
  intros Hinv Hn. unfold take_bits. destruct (Nat.ltb_spec 64 n); [lia|].
  rewrite <-length_contents by done. destruct (Nat.ltb_spec (length (contents q)) n) as [|Hlen].
  { done. }
  ret_via (by apply take_some_front_bits_spec).
  intros [[d1 n1] q1] (Hn1 & Hn18 & Hi1 & Hc1 & Hd1 & Hal1 & _).
  destruct (assemble_always 0 d1 0 n1) as [Hb1 Ha1]; [lia|simpl; lia|done|].
  rewrite bits_0, app_nil_l in Hb1. cbn [Nat.add] in Hb1, Ha1.
  set (a1 := Z.lor 0 (shl64 d1 0)) in *. clearbody a1.
  rewrite Hc1, length_app, length_bits in Hlen.
  ret_via (apply (take_front_bytes_spec q1 (n - n1)); [done|lia|lia|intros; apply Hal1; lia]).
  intros [[d2 n2] q2] (Hn2 & Hi2 & Hc2 & Hd2 & Hal2).
  pose proof (Nat.div_mod_eq (n - n1) 8) as Hdm. pose proof (Nat.mod_upper_bound (n - n1) 8) as Hmod.
  rewrite <-Hn2 in Hdm. set (r := ((n - n1) mod 8)%nat) in *. clearbody r. clear Hn2.
  destruct (assemble_always a1 d2 n1 n2) as [Hb2 Ha2]; [lia|done|done|].
  set (a2 := Z.lor a1 (shl64 d2 n1)) in *. clearbody a2.
  assert (n - n1 - n2 = r)%nat as Er by lia. rewrite Er.
  rewrite Hc2, length_app, length_bits in Hlen.
  ret_via (by apply (take_some_front_bits_spec q2 r)).
  intros [[d3 n3] q3] (Hn3 & _ & Hi3 & Hc3 & Hd3 & _ & Hend3).
  destruct (assemble a2 d3 (n1 + n2) n3) as [Hb3 Ha3]; [lia|done|done|].
  set (a3 := if (0 <? n3)%nat then _ else a2) in *. clearbody a3.
  rewrite Hc3, length_app, length_bits in Hlen.
  ret_via (apply (take_some_back_bits_spec q3 (r - n3)); [done|lia|lia|]).
  { intros Hr. apply Hend3; [|lia|lia]. apply Hal2, Hal1. lia. }
  intros [[d4 n4] q4] (-> & Hi4 & Hc4 & Hd4).
  destruct (assemble a3 d4 (n1 + n2 + n3) (r - n3)) as [Hb4 Ha4]; [lia|done|done|].
  set (a4 := if (0 <? r - n3)%nat then _ else a3) in *. clearbody a4.
  destruct (Nat.eqb_spec (n1 + n2 + n3 + (r - n3)) n) as [En|]; [|lia].
  rewrite En in Hb4, Ha4. cbn [returns mret outcome_ret]. split_and!; [done| |apply Ha4..].
  rewrite Hc1, Hc2, Hc3, Hc4, Hb4, Hb3, Hb2, Hb1. by rewrite <-!app_assoc.
Qed.

Lemma bits_inj n d d' :
  0 ≤ d < 2 ^ Z.of_nat n → 0 ≤ d' < 2 ^ Z.of_nat n → bits n d = bits n d' → d = d'.
Proof.
  intros Hd Hd' Hb. apply Z.bits_inj'. intros i Hi.
  destruct (Z.lt_ge_cases i (Z.of_nat n)) as [Hlt|Hge].
  - apply (f_equal (λ l, l !! Z.to_nat i)) in Hb. rewrite !lookup_bits in Hb by lia.
    rewrite Z2Nat.id in Hb by lia. congruence.
  - rewrite (testbit_above d (Z.of_nat n)), (testbit_above d' (Z.of_nat n)); done.
Qed.

(** Reading back what was written first. *)
Lemma take_bits_exact q n d rest :
  bq_inv q → (n ≤ 64)%nat → 0 ≤ d < 2 ^ Z.of_nat n → contents q = bits n d ++ rest →
  returns (take_bits q n) (λ '(o, q'), o = Some d ∧ bq_inv q' ∧ contents q' = rest).
Proof.
  intros Hi Hn Hd Hc. eapply returns_mono; [by apply take_bits_returns|].
  intros [[d'|] q'] [Hi' H].
  - destruct H as [Hc' Hd']. rewrite Hc in Hc'. apply app_inj_1 in Hc' as [Hb ->];
      [|by rewrite !length_bits]. by rewrite (bits_inj n d d').
  - destruct H as [_ H]. rewrite Hc, length_app, length_bits in H. lia.
Qed.

(** Reading from a queue that holds too little. *)
Lemma take_bits_short q n :
  bq_inv q → (n ≤ 64)%nat → (length (contents q) < n)%nat → take_bits q n = Ret (None, q).
Proof.
  intros Hi Hn Hl. unfold take_bits. destruct (Nat.ltb_spec 64 n); [lia|].
  rewrite <-length_contents by done. by destruct (Nat.ltb_spec (length (contents q)) n); [|lia].
Qed.

(** ** The abstract queue *)

(** The number with the given bits, low bit first. *)
Fixpoint bits_value (l : list bool) : Z :=
  match l with
  | [] => 0
  | b :: l' => Z.b2z b + 2 * bits_value l'
  end.

Lemma bits_S n d : bits (S n) d = Z.testbit d 0 :: bits n (Z.shiftr d 1).
Proof.
  change (S n) with (1 + n)%nat. rewrite bits_app. reflexivity.
Qed.

Lemma bits_value_bits n d : 0 ≤ d < 2 ^ Z.of_nat n → bits_value (bits n d) = d.
Proof.
  revert d. induction n as [|n IH]; intros d Hd; [simpl in *; lia|].
  rewrite bits_S. cbn [bits_value]. rewrite Nat2Z.inj_succ, Z.pow_succ_r in Hd by lia.
  pose proof (Z.div2_odd d) as Hodd. rewrite Z.div2_spec in Hodd.
  rewrite IH; rewrite ?Z.bit0_odd; [lia|]. rewrite Z.shiftr_div_pow2 by lia. change (2 ^ 1) with 2.
  split; [apply Z.div_pos; lia|apply Z.div_lt_upper_bound; lia].
Qed.

Inductive QueueOp :=
| OpAdd (bit_data : Z) (bit_count : nat)
| OpTake (bit_count : nat).

(** What callers keep to: at most 64 bits, and data without higher bits. *)
Definition op_ok (op : QueueOp) : Prop :=
  match op with
  | OpAdd d n => (n ≤ 64)%nat ∧ 0 ≤ d < 2 ^ Z.of_nat n
  | OpTake n => (n ≤ 64)%nat
  end.

(** A sequence of operations on the queue, with what the removals return. *)
Fixpoint queue_run (ops : list QueueOp) (q : BitQueue) : outcome (list (option Z) * BitQueue) :=
  match ops with
  | [] => mret ([], q)
  | OpAdd d n :: ops' => q' ← add_bits q d n; queue_run ops' q'
  | OpTake n :: ops' =>
      p ← take_bits q n;
      r ← queue_run ops' p.2;
      mret (p.1 :: r.1, r.2)
  end.

(** The same on a list of bits. *)
Fixpoint bits_run (ops : list QueueOp) (l : list bool) : list (option Z) * list bool :=
  match ops with
  | [] => ([], l)
  | OpAdd d n :: ops' => bits_run ops' (l ++ bits n d)
  | OpTake n :: ops' =>
      if (length l <? n)%nat then let r := bits_run ops' l in (None :: r.1, r.2)
      else let r := bits_run ops' (drop n l) in (Some (bits_value (take n l)) :: r.1, r.2)
  end.

Lemma queue_run_refines ops q :
  bq_inv q → Forall op_ok ops →
  returns (queue_run ops q) (λ '(outs, q'), bq_inv q' ∧ (outs, contents q') = bits_run ops (contents q)).
Proof.
  intros Hi Hops. revert q Hi. induction Hops as [|[d n|n] ops Hop _ IH]; intros q Hi;
    cbn [queue_run bits_run]; [done| |].
  - destruct Hop as [Hn Hd]. ret_via (by apply add_bits_returns). intros q1 [Hi1 Hc1]. rewrite <-Hc1. by apply IH.
  - ret_via (by apply (take_bits_returns q n)).
    intros [[d|] q1] [Hi1 H]; cbn [fst snd]; apply returns_bind;
      (eapply returns_mono; [by apply IH|]); intros [outs q2] [Hi2 Hr];
      cbn [fst snd returns mret outcome_ret]; (split; [done|]).
    + destruct H as [Hc Hd]. rewrite Hc, length_app, length_bits.
      destruct (Nat.ltb_spec (n + length (contents q1)) n); [lia|].
      rewrite take_app_length', drop_app_length' by by rewrite length_bits.
      rewrite bits_value_bits by done. by rewrite <-Hr.
    + destruct H as [-> Hlt]. destruct (Nat.ltb_spec (length (contents q)) n); [|lia]. by rewrite <-Hr.
Qed.

(** ** Theorems *)

(** adding up to 64 bits to a queue appends exactly these bits, low bit
    first, when the data has no bits above the count. *)
Theorem add_bits_appends q d n :
  bq_inv q → (n ≤ 64)%nat → 0 ≤ d < 2 ^ Z.of_nat n →
  returns (add_bits q d n) (λ q', bq_inv q' ∧ contents q' = contents q ++ bits n d).
Proof. apply add_bits_returns. Qed.

(** taking up to 64 bits from a queue that holds enough removes them from the
    front and returns their value; a queue that holds fewer is left alone. *)
Theorem take_bits_removes q n :
  bq_inv q → (n ≤ 64)%nat →
  returns (take_bits q n) (λ '(o, q'), bq_inv q' ∧
    if (bq_len q <? n)%nat then o = None ∧ q' = q
    else ∃ d, o = Some d ∧ 0 ≤ d < 2 ^ Z.of_nat n ∧
           bits n d = take n (contents q) ∧ contents q' = drop n (contents q)).
Proof.
  intros Hinv Hn. rewrite <-length_contents by done.
  eapply returns_mono; [by apply take_bits_returns|]. intros [[d|] q'] [Hi H]; (split; [done|]).
  - destruct H as [Hc Hd]. rewrite Hc, length_app, length_bits.
    destruct (Nat.ltb_spec (n + length (contents q')) n); [lia|].
    exists d. split_and!; [done|lia|lia|..].
    + by rewrite take_app_length' by by rewrite length_bits.
    + by rewrite drop_app_length' by by rewrite length_bits.
  - destruct H as [-> Hlt]. by destruct (Nat.ltb_spec (length (contents q)) n); [|lia].
Qed.

(** the queue refines a plain list of bits: any sequence of additions and
    removals of up to 64 bits, from an empty queue, does not panic and returns
    exactly what the same sequence returns on the list. *)
Theorem bit_queue_refines_bits ops :
  Forall op_ok ops →
  returns (queue_run ops BitQueue_new) (λ '(outs, q), (outs, contents q) = bits_run ops []).
Proof.
  intros Hops. eapply returns_mono; [by apply (queue_run_refines ops BitQueue_new bq_inv_new)|].
  by intros [outs q] [_ H].
Qed.

(** data with bits above the count leaks them into the queue: one bit of 7
    followed by two zero bits reads back as 7, not as 1. *)
Theorem add_bits_leaks_high_bits :
  (q ← add_bits BitQueue_new 7 1; q ← add_bits q 0 2; p ← take_bits q 3; mret p.1) = Ret (Some 7).
Proof. vm_compute. reflexivity. Qed.

(** ** Witnesses *)
Definition sample_queue : BitQueue := nf 3 21 [255; 7] 2 5.

Lemma sample_queue_inv : bq_inv sample_queue.
Proof. apply inv_nf; unfold is_byte; try lia; [repeat constructor; lia|simpl; lia]. Qed.

Lemma add_bits_appends_witness :
  ∃ q', add_bits sample_queue 1234567 30 = Ret q' ∧ contents q' = contents sample_queue ++ bits 30 1234567.
Proof.
  destruct (returns_inv _ _ (add_bits_appends sample_queue 1234567 30 sample_queue_inv
    ltac:(lia) ltac:(simpl; lia))) as (q' & ? & _ & ?). eauto.
Defined.

Lemma take_bits_removes_witness :
  ∃ d q', take_bits sample_queue 20 = Ret (Some d, q') ∧ bits 20 d = take 20 (contents sample_queue).
Proof.
  destruct (returns_inv _ _ (take_bits_removes sample_queue 20 sample_queue_inv ltac:(lia)))
    as ([o q'] & E & _ & H).
  change (bq_len sample_queue <? 20)%nat with false in H. destruct H as (d & -> & _ & H & _). eauto.
Defined.

Lemma bit_queue_refines_bits_witness :
  ∃ q, queue_run [OpAdd 1000 33; OpTake 10; OpAdd 5 3; OpTake 64; OpTake 26] BitQueue_new =
         Ret ([Some 1000; None; Some 41943040], q).
Proof.
  destruct (returns_inv _ _ (bit_queue_refines_bits
    [OpAdd 1000 33; OpTake 10; OpAdd 5 3; OpTake 64; OpTake 26]
    ltac:(repeat constructor; simpl; lia))) as ([outs q] & E & H).
  exists q. rewrite E. f_equal. apply (f_equal fst) in H. cbn [fst] in H. rewrite H.
  vm_compute. reflexivity.
Defined.
