(* ===== verification/CountryBlocks.v ===== *)
(** * Compressed country blocks

    Models [ip_country/src/country_block_serde.rs],
    [ip_country/src/country_block_stream.rs], [ip_country/src/countries.rs],
    the packing of a bit queue into 64-bit words by
    [ip_country/src/ip_country.rs], and the lookup of
    [ip_country/src/country_finder.rs].  The generic parameters of the Rust code
    (address type, segment type and their widths) are the record [Version]. *)

From S2P Require Import Prelude.
From S2P Require Import Bytes.
From S2P Require Import NodeAddr.
From S2P Require Import BitQueue.

(** The two instances of the generic code: [Ipv4Addr, u8, 4] with 2/2/8 bits and
    [Ipv6Addr, u16, 8] with 3/3/16 bits. *)
Record Version := mkVersion {
  segments_count : nat;
  segment_bit_count : nat;
  difference_count_bit_count : nat;
  index_bit_count : nat
}.

Definition v4 : Version := mkVersion 4 8 2 2.
Definition v6 : Version := mkVersion 8 16 3 3.

Definition ip_width (v : Version) : Z := Z.of_nat (segments_count v * segment_bit_count v).
Definition max_ip_value (v : Version) : Z := 2 ^ ip_width v - 1.

(** [segments()] and [octets()]. *)
Definition segments (v : Version) (ip : Z) : list Z :=
  parts (segment_bit_count v) (segments_count v) ip.

Definition octets (v : Version) (ip : Z) : list Z :=
  parts 8 (segments_count v * segment_bit_count v / 8) ip.

(** [IPType::from] of an array of segments. *)
Definition ip_from_segments (v : Version) (l : list Z) : Z := from_parts (segment_bit_count v) l.

Definition integer_from_ip_generic (v : Version) (ip : Z) : Z :=
  foldl (λ bit_data octet, Z.lor (wrap (ip_width v) (Z.shiftl bit_data 8)) octet) 0 (octets v ip).

(** [overflowing_add(1)] and [overflowing_sub(1)]. *)
Definition plus_one_ip (v : Version) (ip : Z) : Z :=
  wrap (ip_width v) (integer_from_ip_generic v ip + 1).
Definition minus_one_ip (v : Version) (ip : Z) : Z :=
  wrap (ip_width v) (integer_from_ip_generic v ip - 1).

(** ** Countries and blocks *)
Record Country := mkCountry { country_index : nat; iso3166 : string; country_name : string }.

Record Countries := mkCountries {
  countries : list Country;
  index_by_iso3166 : gmap string nat
}.

(** [Countries::from]: collecting into a [HashMap], later entries win. *)
Definition Countries_from (cs : list Country) : Countries :=
  mkCountries cs (foldl (λ m c, <[iso3166 c := country_index c]> m) ∅ cs).

(** Lexicographic order of [String]s, by their bytes. *)
Fixpoint string_leb (a b : string) : bool :=
  match a, b with
  | EmptyString, _ => true
  | String _ _, EmptyString => false
  | String x a', String y b' =>
      let nx := Ascii.nat_of_ascii x in let ny := Ascii.nat_of_ascii y in
      (nx <? ny)%nat || (Nat.eqb nx ny && string_leb a' b')
  end.

Definition pair_le (a b : string * string) : Prop := string_leb a.1 b.1 = true.

#[export] Instance pair_le_dec : RelDecision pair_le.
Proof. intros a b. unfold pair_le. apply _. Defined.

Definition remove_sentinel (pairs : list (string * string)) : list (string * string) :=
  match list_find (λ p, p.1 = "ZZ") pairs with
  | Some (i, _) => delete i pairs
  | None => pairs
  end.

Definition Countries_new (country_pairs : list (string * string)) : Countries :=
  let sorted := merge_sort pair_le (remove_sentinel country_pairs) in
  Countries_from (mkCountry 0 "ZZ" "Sentinel" ::
                  imap (λ i p, mkCountry (i + 1) p.1 p.2) sorted).

Definition country_from_index (cs : Countries) (index : nat) : option Country :=
  countries cs !! index.

(** [to_ascii_uppercase]. *)
Definition ascii_upper (a : Ascii.ascii) : Ascii.ascii :=
  let n := Ascii.nat_of_ascii a in
  if (97 <=? n)%nat && (n <=? 122)%nat then Ascii.ascii_of_nat (n - 32) else a.

Fixpoint to_ascii_uppercase (s : string) : string :=
  match s with
  | EmptyString => EmptyString
  | String a s' => String (ascii_upper a) (to_ascii_uppercase s')
  end.

(** [Err] is [Ret None]. *)
Definition country_from_code (cs : Countries) (code : string) : outcome (option Country) :=
  match index_by_iso3166 cs !! to_ascii_uppercase code with
  | None => mret None
  | Some index =>
      match country_from_index cs index with
      | Some c => mret (Some c)
      | None => Panic "Data error: no such Country"
      end
  end.

Inductive IpRange := RangeV4 (start end_ : Z) | RangeV6 (start end_ : Z).

Record CountryBlock := mkBlock { ip_range : IpRange; country : Country }.

Definition IpRange_new (start end_ : IpAddr) : outcome IpRange :=
  match start, end_ with
  | V4 s, V4 e => mret (RangeV4 s e)
  | V6 s, V6 e => mret (RangeV6 s e)
  | _, _ => Panic "Start and end addresses must be of the same type"
  end.

Definition contains_inner (begin end_ candidate : Z) : bool :=
  (begin <=? candidate) && (candidate <=? end_).

Definition range_contains (r : IpRange) (ip : IpAddr) : bool :=
  match r, ip with
  | RangeV4 begin end_, V4 candidate => contains_inner begin end_ candidate
  | RangeV6 begin end_, V6 candidate => contains_inner begin end_ candidate
  | _, _ => false
  end.

Definition range_start (r : IpRange) : IpAddr :=
  match r with RangeV4 s _ => V4 s | RangeV6 s _ => V6 s end.
Definition range_end (r : IpRange) : IpAddr :=
  match r with RangeV4 _ e => V4 e | RangeV6 _ e => V6 e end.

Definition compare_with_range (examined low high : Z) : comparison :=
  if examined <? low then Gt else if high <? examined then Lt else Eq.

Definition ordering_by_range (r : IpRange) (ip : IpAddr) : outcome comparison :=
  match ip, r with
  | V4 i, RangeV4 low high => mret (compare_with_range i low high)
  | V6 i, RangeV6 low high => mret (compare_with_range i low high)
  | _, _ => Panic "Mismatch ip and range versions"
  end.

(** [second == first + 1]; the sum overflows at the last address. *)
Definition are_consecutive (first second : IpAddr) : outcome bool :=
  match first, second with
  | V4 a, V4 b => mret (bool_decide (b = wrap 32 (a + 1)))
  | V6 a, V6 b => mret (bool_decide (b = wrap 128 (a + 1)))
  | _, _ => Panic "IP addresses must be of the same type"
  end.

(** ** The serializer *)
Record Difference := mkDifference { difference_index : nat; difference_value : Z }.

(** The parts where the two addresses differ, with their positions from [i]. *)
Fixpoint differences_from (i : nat) (from to : list Z) : list Difference :=
  match from, to with
  | f :: from', t :: to' =>
      if decide (t = f) then differences_from (S i) from' to'
      else mkDifference i t :: differences_from (S i) from' to'
  | _, _ => []
  end.

Definition ips_into_differences (v : Version) (from to : Z) : list Difference :=
  differences_from 0 (segments v from) (segments v to).

Record VersionedIPSerializer := mkSerializer {
  ser_prev_start : Z;
  ser_prev_end : Z;
  ser_block_count : Z;
  ser_bit_queue : BitQueue
}.

Definition serializer_new (prev_start prev_end : Z) : VersionedIPSerializer :=
  mkSerializer prev_start prev_end 0 BitQueue_new.

Definition add_difference (v : Version) (q : BitQueue) (d : Difference) : outcome BitQueue :=
  q ← add_bits q (Z.of_nat (difference_index d)) (index_bit_count v);
  add_bits q (difference_value d) (segment_bit_count v).

(** The part of [add_ip_generic] after the gap was filled. *)
Definition add_ip_record (v : Version) (s : VersionedIPSerializer) (start end_ : Z)
    (country_index : nat) : outcome VersionedIPSerializer :=
  let differences := ips_into_differences v (ser_prev_start s) start in
  q ← add_bits (ser_bit_queue s) (u64 (Z.of_nat (length differences) - 1))
        (difference_count_bit_count v);
  q ← fold_outcome (add_difference v) differences q;
  q ← add_bits q (Z.of_nat country_index) 9;
  mret (mkSerializer start end_ (ser_block_count s + 1) q).

(** [add_ip_generic]: a gap before [start] is filled first, by a recursive call
    that finds no gap of its own. *)
Fixpoint add_ip_generic (fuel : nat) (v : Version) (s : VersionedIPSerializer) (start end_ : Z)
    (country_index : nat) : outcome VersionedIPSerializer :=
  match fuel with
  | O => Panic "out of fuel"
  | S fuel' =>
      let expected_start := plus_one_ip v (ser_prev_end s) in
      s ← (if decide (start = expected_start) then mret s
           else add_ip_generic fuel' v s expected_start (minus_one_ip v start) 0);
      add_ip_record v s start end_ country_index
  end.

Definition add_ip (v : Version) (s : VersionedIPSerializer) (start end_ : Z)
    (country_index : nat) : outcome VersionedIPSerializer :=
  add_ip_generic 2 v s start end_ country_index.

Record CountryBlockSerializer := mkCbs {
  cbs_ipv4 : VersionedIPSerializer;
  cbs_ipv6 : VersionedIPSerializer
}.

Definition CountryBlockSerializer_new : CountryBlockSerializer :=
  mkCbs (serializer_new (max_ip_value v4 - 1) (max_ip_value v4))
        (serializer_new (max_ip_value v6 - 1) (max_ip_value v6)).

Definition cbs_add (s : CountryBlockSerializer) (b : CountryBlock) :
    outcome CountryBlockSerializer :=
  match ip_range b with
  | RangeV4 start end_ =>
      s4 ← add_ip v4 (cbs_ipv4 s) start end_ (country_index (country b));
      mret (mkCbs s4 (cbs_ipv6 s))
  | RangeV6 start end_ =>
      s6 ← add_ip v6 (cbs_ipv6 s) start end_ (country_index (country b));
      mret (mkCbs (cbs_ipv4 s) s6)
  end.

Record FinalBitQueue := mkFinal { bit_queue : BitQueue; block_count : Z }.

(** Filling the addresses after the last block. *)
Definition finish_version (v : Version) (s : VersionedIPSerializer) :
    outcome VersionedIPSerializer :=
  if decide (ser_prev_end s = max_ip_value v) then mret s
  else add_ip v s (plus_one_ip v (ser_prev_end s)) (max_ip_value v) 0.

Definition cbs_finish (s : CountryBlockSerializer) : outcome (FinalBitQueue * FinalBitQueue) :=
  s4 ← finish_version v4 (cbs_ipv4 s);
  s6 ← finish_version v6 (cbs_ipv6 s);
  mret (mkFinal (ser_bit_queue s4) (ser_block_count s4),
        mkFinal (ser_bit_queue s6) (ser_block_count s6)).

(** ** The data as 64-bit words *)
Definition COUNTRY_BLOCK_BIT_SIZE : nat := 64.

(** The values written by [generate_country_block_code]. *)
Fixpoint country_words (fuel : nat) (q : BitQueue) : outcome (list Z) :=
  match fuel with
  | O => mret []
  | S fuel' =>
      if (COUNTRY_BLOCK_BIT_SIZE <=? bq_len q)%nat then
        p ← take_bits q COUNTRY_BLOCK_BIT_SIZE;
        value ← expect p.1 "There should be bits left!";
        rest ← country_words fuel' p.2;
        mret (value :: rest)
      else if bq_is_empty q then mret []
      else
        p ← take_bits q (bq_len q);
        value ← expect p.1 "There should be bits left!";
        mret [value]
  end.

Definition country_data (q : BitQueue) : outcome (list Z * nat) :=
  words ← country_words (S (bq_len q)) q;
  mret (words, bq_len q).

(** [bit_queue_from_country_data]; [remove(0)] panics on an empty vector. *)
Fixpoint load_words (fuel : nat) (q : BitQueue) (words : list Z) (bit_count : nat) :
    outcome BitQueue :=
  match fuel with
  | O => mret q
  | S fuel' =>
      if (64 <=? bit_count)%nat then
        w ← expect (head words) "removal index (is 0) should be < len (is 0)";
        q ← add_bits q w 64;
        load_words fuel' q (tail words) (bit_count - 64)
      else if (0 <? bit_count)%nat then
        w ← expect (head words) "removal index (is 0) should be < len (is 0)";
        add_bits q w bit_count
      else mret q
  end.

Definition bit_queue_from_country_data (country_data : list Z * nat) : outcome BitQueue :=
  load_words (S country_data.2) BitQueue_new country_data.1 country_data.2.

(** ** The deserializer *)
Record StreamRecord := mkStreamRecord { sr_start : Z; sr_country_idx : nat }.

(** [segments[d.index] = SegmentNumRep::try_from(d.value).expect(..)]. *)
Definition apply_difference (v : Version) (segs : list Z) (d : Difference) : outcome (list Z) :=
  if decide (2 ^ Z.of_nat (segment_bit_count v) ≤ difference_value d)
  then Panic "Difference represented by a bigger number than which the IP segment can contain"
  else if decide (length segs ≤ difference_index d)%nat then Panic "index out of bounds"
  else mret (<[difference_index d := difference_value d]> segs).

Definition StreamRecord_new (v : Version) (differences : list Difference) (segs : list Z)
    (country_idx : nat) : outcome StreamRecord :=
  segs ← fold_outcome (apply_difference v) differences segs;
  mret (mkStreamRecord (ip_from_segments v segs) country_idx).

Definition read_difference_count (v : Version) (q : BitQueue) : outcome (option nat * BitQueue) :=
  p ← take_bits q (difference_count_bit_count v);
  mret (option_map (λ d, Z.to_nat (d + 1)) p.1, p.2).

(** One round of the [filter_map]: a difference that is cut off is skipped. *)
Definition read_difference (v : Version) (q : BitQueue) : outcome (option Difference * BitQueue) :=
  p ← take_bits q (index_bit_count v);
  match p.1 with
  | None => mret (None, p.2)
  | Some index =>
      p' ← take_bits p.2 (segment_bit_count v);
      mret (option_map (mkDifference (Z.to_nat index)) p'.1, p'.2)
  end.

Fixpoint read_differences (v : Version) (q : BitQueue) (difference_count : nat) :
    outcome (list Difference * BitQueue) :=
  match difference_count with
  | O => mret ([], q)
  | S n =>
      p ← read_difference v q;
      rest ← read_differences v p.2 n;
      mret (match p.1 with Some d => d :: rest.1 | None => rest.1 end, rest.2)
  end.

Definition get_record_generic (v : Version) (q : BitQueue) (prev_start : Z) :
    outcome (option StreamRecord * BitQueue) :=
  let segs := segments v prev_start in
  p ← read_difference_count v q;
  match p.1 with
  | None => mret (None, p.2)
  | Some difference_count =>
      ds ← read_differences v p.2 difference_count;
      if (length ds.1 <? difference_count)%nat then mret (None, ds.2)
      else
        c ← take_bits ds.2 9;
        match c.1 with
        | None => mret (None, c.2)
        | Some country_idx =>
            r ← StreamRecord_new v ds.1 segs (Z.to_nat country_idx);
            mret (Some r, c.2)
        end
  end.

Record CountryBlockDeserializer := mkDeserializer {
  de_prev_record : StreamRecord;
  de_bit_queue : BitQueue;
  de_empty : bool
}.

Definition make_range (v : Version) (start end_ : Z) : IpRange :=
  if Nat.eqb (segments_count v) 4 then RangeV4 start end_ else RangeV6 start end_.

Definition deserializer_new (v : Version) (data : list Z * nat) : outcome CountryBlockDeserializer :=
  q ← bit_queue_from_country_data data;
  p ← get_record_generic v q (max_ip_value v - 1);
  r ← expect p.1 "Empty BitQueue";
  mret (mkDeserializer r p.2 false).

Definition next_generic (v : Version) (cs : Countries) (d : CountryBlockDeserializer) :
    outcome (option CountryBlock * CountryBlockDeserializer) :=
  if de_empty d then mret (None, d)
  else
    let prev := de_prev_record d in
    p ← get_record_generic v (de_bit_queue d) (sr_start prev);
    c ← expect (country_from_index cs (sr_country_idx prev)) "Country not found";
    match p.1 with
    | Some next =>
        mret (Some (mkBlock (make_range v (sr_start prev) (minus_one_ip v (sr_start next))) c),
              mkDeserializer next p.2 false)
    | None =>
        mret (Some (mkBlock (make_range v (sr_start prev) (max_ip_value v)) c),
              mkDeserializer prev p.2 true)
    end.

(** [into_iter().collect_vec()]. *)
Fixpoint collect_blocks (fuel : nat) (v : Version) (cs : Countries)
    (d : CountryBlockDeserializer) : outcome (list CountryBlock) :=
  match fuel with
  | O => Panic "out of fuel"
  | S fuel' =>
      p ← next_generic v cs d;
      match p.1 with
      | None => mret []
      | Some b => rest ← collect_blocks fuel' v cs p.2; mret (b :: rest)
      end
  end.

Definition deserialize (v : Version) (cs : Countries) (data : list Z * nat) :
    outcome (list CountryBlock) :=
  d ← deserializer_new v data;
  collect_blocks (S (S data.2)) v cs d.

(** ** The finder *)
Record CountryCodeFinder := mkFinder {
  finder_countries : Countries;
  finder_ipv4 : list CountryBlock;
  finder_ipv6 : list CountryBlock
}.

Definition CountryCodeFinder_new (cs : Countries) (ipv4_data ipv6_data : list Z * nat) :
    outcome CountryCodeFinder :=
  b4 ← deserialize v4 cs ipv4_data;
  b6 ← deserialize v6 cs ipv6_data;
  mret (mkFinder cs b4 b6).

(** [slice::binary_search_by] on the index range [lo, hi): [Some i] is [Ok(i)]. *)
Fixpoint binary_search_by {A} (fuel : nat) (f : A → outcome comparison) (l : list A)
    (lo hi : nat) : outcome (option nat) :=
  match fuel with
  | O => mret None
  | S fuel' =>
      if (lo <? hi)%nat then
        let mid := (lo + (hi - lo) / 2)%nat in
        x ← expect (l !! mid) "index out of bounds";
        c ← f x;
        match c with
        | Eq => mret (Some mid)
        | Lt => binary_search_by fuel' f l (S mid) hi
        | Gt => binary_search_by fuel' f l lo mid
        end
      else mret None
  end.

Definition find_country (finder : CountryCodeFinder) (ip : IpAddr) : outcome (option Country) :=
  let country_blocks := match ip with
                        | V4 _ => finder_ipv4 finder
                        | V6 _ => finder_ipv6 finder
                        end in
  block_index ← binary_search_by (length country_blocks) (λ b, ordering_by_range (ip_range b) ip)
                  country_blocks 0 (length country_blocks);
  c ← match block_index with
      | Some index =>
          b ← expect (country_blocks !! index) "index out of bounds";
          mret (country b)
      | None =>
          o ← country_from_code (finder_countries finder) "ZZ";
          expect o "expected Country"
      end;
  mret (if decide (iso3166 c = "ZZ") then None else Some c).
