(* ===== verification/CountryBlocksFacts.v ===== *)
(** * Correctness of the compressed country data

    Serializing a sorted list of country blocks, packing the bits into words,
    deserializing them and looking an address up gives the country of the block
    that holds the address. *)

From S2P Require Import Prelude.
From S2P Require Import Bytes.
From S2P Require Import NodeAddr.
From S2P Require Import BitQueue.
From S2P Require Import CountryBlocks.

(** What the generic code relies on: the bit fields are wide enough, and an
    address is a whole number of octets. *)
Class VersionOk (v : Version) : Prop := {
  vo_count : (0 < segments_count v)%nat;
  vo_width : (0 < segment_bit_count v ≤ 64)%nat;
  vo_diff_bits : (difference_count_bit_count v ≤ 64)%nat;
  vo_index_bits : (index_bit_count v ≤ 64)%nat;
  vo_diff_fits : Z.of_nat (segments_count v) ≤ 2 ^ Z.of_nat (difference_count_bit_count v);
  vo_index_fits : Z.of_nat (segments_count v) ≤ 2 ^ Z.of_nat (index_bit_count v);
  vo_octets : (8 * (segments_count v * segment_bit_count v / 8) =
               segments_count v * segment_bit_count v)%nat;
  vo_large : 2 ≤ ip_width v
}.

#[export] Instance v4_ok : VersionOk v4.
Proof. split; vm_compute; try (repeat constructor); discriminate. Qed.

#[export] Instance v6_ok : VersionOk v6.
Proof. split; vm_compute; try (repeat constructor); discriminate. Qed.

(** ** Addresses and their parts *)
Lemma lor_octet a o : 0 ≤ a → 0 ≤ o < 256 → Z.lor (Z.shiftl a 8) o = a * 256 + o.
Proof.
  intros Ha Ho. rewrite <-Z.add_nocarry_lor; [by rewrite Z.shiftl_mul_pow2|].
  apply Z.bits_inj'. intros i Hi. rewrite Z.land_spec, Z.shiftl_spec, Z.testbit_0_l by done.
  destruct (Z.lt_ge_cases i 8).
  - by rewrite (Z.testbit_neg_r a) by lia.
  - rewrite (testbit_above o 8) by (simpl; lia). apply andb_false_r.
Qed.

Section address.
Variable (v : Version).
Context `{!VersionOk v}.

Definition is_ip (ip : Z) : Prop := 0 ≤ ip ≤ max_ip_value v.

Lemma octet_fold l acc :
  Forall (λ s, 0 ≤ s < 256) l → 0 ≤ acc →
  (acc + 1) * 2 ^ Z.of_nat (8 * length l) ≤ 2 ^ ip_width v →
  foldl (λ bit_data octet, Z.lor (wrap (ip_width v) (Z.shiftl bit_data 8)) octet) acc l =
    acc * 2 ^ Z.of_nat (8 * length l) + from_parts 8 l.
Proof.
  intros Hl. revert acc. induction Hl as [|o l Ho _ IH]; intros acc Hacc Hb.
  { cbn [length from_parts foldl]. rewrite Nat.mul_0_r. simpl. lia. }
  cbn [foldl from_parts length] in *.
  replace (Z.of_nat (8 * S (length l))) with (Z.of_nat (8 * length l) + 8) in * by lia.
  rewrite Z.pow_add_r in * by lia. pose proof (pow_pos (8 * length l)) as Hp.
  change (2 ^ 8) with 256 in *.
  rewrite wrap_small.
  2:{ unfold in_width. rewrite Z.shiftl_mul_pow2 by lia. change (2 ^ 8) with 256. nia. }
  rewrite lor_octet by lia. rewrite IH by nia. lia.
Qed.

Lemma integer_from_ip ip : is_ip ip → integer_from_ip_generic v ip = ip.
Proof.
  intros [H0 Hmax]. unfold integer_from_ip_generic, octets, max_ip_value in *.
  pose proof (vo_octets (v := v)) as Ho.
  rewrite octet_fold; rewrite ?length_parts, ?Ho.
  - rewrite Z.mul_0_l, Z.add_0_l, from_parts_parts, Ho. apply Z.mod_small.
    unfold ip_width in *. lia.
  - apply (parts_bounds 8).
  - done.
  - rewrite Z.mul_1_l. unfold ip_width. done.
Qed.

Lemma plus_one_small ip : is_ip ip → ip < max_ip_value v → plus_one_ip v ip = ip + 1.
Proof.
  intros Hip Hlt. unfold plus_one_ip. rewrite integer_from_ip by done. apply wrap_small.
  unfold in_width, is_ip, max_ip_value in *. lia.
Qed.

Lemma plus_one_max : plus_one_ip v (max_ip_value v) = 0.
Proof.
  unfold plus_one_ip. pose proof (vo_large (v := v)) as Hl.
  rewrite integer_from_ip; unfold is_ip, max_ip_value, wrap.
  - rewrite Z.sub_add. apply Z.mod_same. pose proof (Z.pow_pos_nonneg 2 (ip_width v)). lia.
  - pose proof (Z.pow_pos_nonneg 2 (ip_width v)). lia.
Qed.

Lemma minus_one_pos ip : is_ip ip → 0 < ip → minus_one_ip v ip = ip - 1.
Proof.
  intros Hip Hlt. unfold minus_one_ip. rewrite integer_from_ip by done. apply wrap_small.
  unfold in_width, is_ip, max_ip_value in *. lia.
Qed.

Lemma ip_segments ip : is_ip ip → ip_from_segments v (segments v ip) = ip.
Proof.
  intros Hip. unfold ip_from_segments, segments. rewrite from_parts_parts. apply Z.mod_small.
  unfold is_ip, max_ip_value, ip_width in Hip. rewrite Nat.mul_comm in Hip. lia.
Qed.

Lemma length_segments ip : length (segments v ip) = segments_count v.
Proof. apply length_parts. Qed.

Lemma max_ip_large : 3 ≤ max_ip_value v.
Proof.
  unfold max_ip_value. pose proof (vo_large (v := v)).
  assert (2 ^ 2 ≤ 2 ^ ip_width v) by (apply Z.pow_le_mono_r; lia). lia.
Qed.
End address.

(** ** Differences *)
Section differences.
Variable (v : Version).
Context `{!VersionOk v}.
Abbreviation seg_ok := (λ s, 0 ≤ s < 2 ^ Z.of_nat (segment_bit_count v)).

Lemma differences_nil i from to :
  length from = length to → differences_from i from to = [] → from = to.
Proof.
  revert i to. induction from as [|f from IH]; intros i [|t to] Hl; try done.
  simpl. case_decide; [|done]. intros H'. subst. f_equal. eapply IH; [by injection Hl|done].
Qed.

Lemma differences_bounds i from to d :
  Forall seg_ok to → d ∈ differences_from i from to →
  (i ≤ difference_index d < i + length from)%nat ∧ seg_ok (difference_value d).
Proof.
  revert i to. induction from as [|f from IH]; intros i to Ht; [set_solver|].
  destruct Ht as [|t to Ht Hto]; [set_solver|]. simpl. case_decide.
  - intros Hd. apply IH in Hd; [|done]. simpl. lia.
  - intros [->|Hd]%elem_of_cons; simpl; [lia|]. apply IH in Hd; [|done]. simpl. lia.
Qed.

Lemma length_differences i from to : (length (differences_from i from to) ≤ length from)%nat.
Proof.
  revert i to. induction from as [|f from IH]; intros i [|t to]; simpl; try lia.
  specialize (IH (S i) to). case_decide; simpl; lia.
Qed.

(** Applying the differences turns one list of segments into the other. *)
Lemma apply_differences pre from to :
  length from = length to → Forall seg_ok to →
  fold_outcome (apply_difference v) (differences_from (length pre) from to) (pre ++ from) =
    Ret (pre ++ to).
Proof.
  intros Hl Ht. revert pre from Hl. induction Ht as [|t to Ht Hto IH]; intros pre from Hl.
  { by destruct from. }
  destruct from as [|f from]; [done|]. simpl in Hl. injection Hl as Hl.
  specialize (IH (pre ++ [t]) from Hl). rewrite length_app in IH. simpl in IH.
  rewrite Nat.add_1_r in IH. cbn [differences_from]. rewrite <-!app_assoc in IH. simpl in IH.
  case_decide; [by subst|]. cbn [fold_outcome]. unfold apply_difference at 2.
  rewrite decide_False by (simpl; lia). rewrite decide_False by (simpl; rewrite length_app; simpl; lia).
  cbn [mbind outcome_bind mret outcome_ret difference_index difference_value].
  rewrite insert_app_r_alt by lia. rewrite Nat.sub_diag. exact IH.
Qed.

Lemma stream_record from to c :
  is_ip v to →
  StreamRecord_new v (ips_into_differences v from to) (segments v from) c =
    Ret (mkStreamRecord to c).
Proof.
  intros Hto. unfold StreamRecord_new, ips_into_differences.
  pose proof (apply_differences [] (segments v from) (segments v to)) as H.
  cbn [app length] in H. rewrite H; [|by rewrite !length_segments|apply parts_bounds].
  cbn [mbind outcome_bind]. by rewrite ip_segments.
Qed.

Lemma differences_exist from to :
  is_ip v from → is_ip v to → from ≠ to →
  (0 < length (ips_into_differences v from to) ≤ segments_count v)%nat.
Proof.
  intros Hf Ht Hne. split.
  - destruct (ips_into_differences v from to) eqn:E; [|simpl; lia].
    apply differences_nil in E; [|by rewrite !length_segments].
    destruct Hne. rewrite <-(ip_segments v from), <-(ip_segments v to) by done. by rewrite E.
  - etransitivity; [apply length_differences|]. by rewrite length_segments.
Qed.
End differences.

(** ** Records *)
Section records.
Variable (v : Version).
Context `{!VersionOk v}.

Definition encode_difference (d : Difference) : list bool :=
  bits (index_bit_count v) (Z.of_nat (difference_index d)) ++
  bits (segment_bit_count v) (difference_value d).

(** The bits of a record that starts at [start], after one that starts at [prev]. *)
Definition encode_record (prev start : Z) (c : nat) : list bool :=
  let ds := ips_into_differences v prev start in
  bits (difference_count_bit_count v) (Z.of_nat (length ds) - 1) ++
  (ds ≫= encode_difference) ++ bits 9 (Z.of_nat c).

Definition difference_ok (d : Difference) : Prop :=
  0 ≤ Z.of_nat (difference_index d) < 2 ^ Z.of_nat (index_bit_count v) ∧
  0 ≤ difference_value d < 2 ^ Z.of_nat (segment_bit_count v).

Lemma differences_ok from to : Forall difference_ok (ips_into_differences v from to).
Proof.
  apply Forall_forall. intros d Hd.
  apply (differences_bounds v 0 _ _ d) in Hd as [Hi Hv]; [|apply parts_bounds].
  rewrite length_segments in Hi. pose proof (vo_index_fits (v := v)). split; [lia|done].
Qed.

Lemma add_difference_spec q d :
  bq_inv q → difference_ok d →
  returns (add_difference v q d) (λ q', bq_inv q' ∧ contents q' = contents q ++ encode_difference d).
Proof.
  intros Hi [Hidx Hval]. unfold add_difference. ret_via (apply add_bits_returns; [done|apply vo_index_bits|done]).
  intros q1 [Hi1 Hc1]. eapply returns_mono; [apply add_bits_returns; [done|apply vo_width|done]|].
  intros q2 [Hi2 Hc2]. split; [done|]. rewrite Hc2, Hc1. by rewrite <-app_assoc.
Qed.

Lemma add_differences_spec q ds :
  bq_inv q → Forall difference_ok ds →
  returns (fold_outcome (add_difference v) ds q) (λ q', bq_inv q' ∧
    contents q' = contents q ++ (ds ≫= encode_difference)).
Proof.
  intros Hi Hds. revert q Hi. induction Hds as [|d ds Hd _ IH]; intros q Hi; cbn [fold_outcome].
  { by rewrite app_nil_r. }
  ret_via (by apply add_difference_spec). intros q1 [Hi1 Hc1].
  eapply returns_mono; [by apply IH|]. intros q2 [Hi2 Hc2]. split; [done|].
  rewrite Hc2, Hc1, bind_cons. by rewrite <-app_assoc.
Qed.

Lemma add_ip_record_spec s start end_ c :
  bq_inv (ser_bit_queue s) → is_ip v (ser_prev_start s) → is_ip v start →
  ser_prev_start s ≠ start → (c < 512)%nat →
  returns (add_ip_record v s start end_ c) (λ s', ∃ q',
    s' = mkSerializer start end_ (ser_block_count s + 1) q' ∧ bq_inv q' ∧
    contents q' = contents (ser_bit_queue s) ++ encode_record (ser_prev_start s) start c).
Proof.
  intros Hi Hp Hs Hne Hc. unfold add_ip_record, encode_record.
  pose proof (differences_exist v _ _ Hp Hs Hne) as Hlen.
  pose proof (differences_ok (ser_prev_start s) start) as Hok.
  set (ds := ips_into_differences v (ser_prev_start s) start) in *.
  pose proof (vo_diff_fits (v := v)). pose proof (vo_diff_bits (v := v)).
  assert (2 ^ Z.of_nat (difference_count_bit_count v) ≤ 2 ^ 64) by (apply Z.pow_le_mono_r; lia).
  rewrite (wrap_small 64) by (unfold in_width; lia).
  ret_via (apply add_bits_returns; [done|done|lia]).
  intros q1 [Hi1 Hc1]. ret_via (by apply add_differences_spec).
  intros q2 [Hi2 Hc2]. ret_via (apply (add_bits_returns q2 (Z.of_nat c) 9); [done|lia|simpl; lia]).
  intros q3 [Hi3 Hc3]. exists q3. split_and!; [done|done|].
  rewrite Hc3, Hc2, Hc1. by rewrite <-!app_assoc.
Qed.

Lemma read_differences_spec q ds rest :
  bq_inv q → Forall difference_ok ds → contents q = (ds ≫= encode_difference) ++ rest →
  returns (read_differences v q (length ds)) (λ '(ds', q'),
    ds' = ds ∧ bq_inv q' ∧ contents q' = rest).
Proof.
  intros Hi Hds. revert q Hi. induction Hds as [|d ds [Hidx Hval] _ IH]; intros q Hi Hc; [done|].
  cbn [length read_differences]. rewrite bind_cons in Hc. unfold encode_difference at 1 in Hc.
  rewrite <-!app_assoc in Hc. apply returns_bind. unfold read_difference. ret_via (eapply take_bits_exact; [done|apply vo_index_bits|done|exact Hc]).
  intros [o1 q1] (-> & Hi1 & Hc1). cbn [fst snd]. ret_via (eapply take_bits_exact; [done|apply vo_width|done|exact Hc1]).
  intros [o2 q2] (-> & Hi2 & Hc2). cbn [fst snd returns mret outcome_ret option_map].
  ret_via (by apply IH).
  intros [ds' q3] (-> & Hi3 & Hc3). cbn [fst snd returns mret outcome_ret].
  rewrite Nat2Z.id. by destruct d.
Qed.

(** Reading a record back. *)
Lemma get_record_spec q prev start c rest :
  bq_inv q → is_ip v prev → is_ip v start → prev ≠ start → (c < 512)%nat →
  contents q = encode_record prev start c ++ rest →
  returns (get_record_generic v q prev) (λ '(o, q'),
    o = Some (mkStreamRecord start c) ∧ bq_inv q' ∧ contents q' = rest).
Proof.
  intros Hi Hp Hs Hne Hc Hq. unfold get_record_generic, encode_record in *.
  pose proof (differences_exist v _ _ Hp Hs Hne) as Hlen.
  pose proof (differences_ok prev start) as Hok. pose proof (stream_record v prev start c Hs) as Hsr.
  set (ds := ips_into_differences v prev start) in *.
  pose proof (vo_diff_fits (v := v)). rewrite <-!app_assoc in Hq.
  apply returns_bind. unfold read_difference_count. ret_via (eapply take_bits_exact; [done|apply vo_diff_bits| |exact Hq]; lia).
  intros [o1 q1] (-> & Hi1 & Hc1). cbn [fst snd returns mret outcome_ret option_map].
  replace (Z.to_nat (Z.of_nat (length ds) - 1 + 1)) with (length ds) by lia.
  ret_via (by apply (read_differences_spec q1 ds)).
  intros [ds' q2] (-> & Hi2 & Hc2). cbn [fst snd]. rewrite Nat.ltb_irrefl.
  ret_via (apply (take_bits_exact q2 9 (Z.of_nat c)); [done|lia|simpl; lia|exact Hc2]).
  intros [o3 q3] (-> & Hi3 & Hc3). cbn [fst snd]. rewrite Nat2Z.id, Hsr. done.
Qed.

Lemma get_record_end q prev :
  bq_inv q → contents q = [] → (0 < difference_count_bit_count v)%nat →
  get_record_generic v q prev = Ret (None, q).
Proof.
  intros Hi Hc Hpos. unfold get_record_generic, read_difference_count.
  rewrite take_bits_short; [done|done|apply vo_diff_bits|]. rewrite Hc. simpl. lia.
Qed.

Lemma encode_record_length prev start c : (9 ≤ length (encode_record prev start c))%nat.
Proof. unfold encode_record. rewrite !length_app, !length_bits. lia. Qed.
End records.
