(* ===== verification/CountryFinder.v ===== *)
(** * Serializing, deserializing and looking up country blocks

    The abstract view of the country data is a list of spans (first address, last
    address, country index).  The serializer stores the starts of the spans, with
    a span of country 0 in every gap; the deserializer finds the spans again; the
    finder searches them. *)

From S2P Require Import Prelude.
From S2P Require Import Bytes.
From S2P Require Import NodeAddr.
From S2P Require Import NodeRecord.
From S2P Require Import BitQueue.
From S2P Require Import CountryBlocks.
From S2P Require Import CountryBlocksFacts.

(** ** The abstract view *)
Definition span : Type := Z * Z * nat.

(** The serializer's input: spans in order, from address [e] on. *)
Fixpoint ordered_from (v : Version) (e : Z) (l : list span) : Prop :=
  match l with
  | [] => True
  | (s, t, c) :: l' => e ≤ s ≤ t ∧ t ≤ max_ip_value v ∧ (c < 512)%nat ∧ ordered_from v (t + 1) l'
  end.

(** The spans with the gaps filled by country 0, up to the last address. *)
Definition gap (e s : Z) : list span := if decide (s = e) then [] else [(e, s - 1, 0%nat)].

Fixpoint fill (v : Version) (e : Z) (l : list span) : list span :=
  match l with
  | [] => if decide (e ≤ max_ip_value v) then [(e, max_ip_value v, 0%nat)] else []
  | (s, t, c) :: l' => gap e s ++ (s, t, c) :: fill v (t + 1) l'
  end.

(** What a span is stored as. *)
Definition start_of (sp : span) : Z * nat := (sp.1.1, sp.2).

Fixpoint encode_starts (v : Version) (prev : Z) (rs : list (Z * nat)) : list bool :=
  match rs with
  | [] => []
  | (s, c) :: rs' => encode_record v prev s c ++ encode_starts v s rs'
  end.

Definition last_start (prev : Z) (rs : list (Z * nat)) : Z := foldl (λ _ r, r.1) prev rs.

Lemma encode_starts_app v prev a b :
  encode_starts v prev (a ++ b) = encode_starts v prev a ++ encode_starts v (last_start prev a) b.
Proof.
  revert prev. induction a as [|[s c] a IH]; intros prev; [done|].
  cbn [app encode_starts last_start foldl fst]. rewrite IH. by rewrite <-app_assoc.
Qed.

(** ** The serializer *)
Section serializer.
Variable (v : Version).
Context `{!VersionOk v}.

(** [e] is the first address that is not covered yet. *)
Definition ser_inv (s : VersionedIPSerializer) (e : Z) : Prop :=
  bq_inv (ser_bit_queue s) ∧
  ((ser_prev_start s = max_ip_value v - 1 ∧ ser_prev_end s = max_ip_value v ∧ e = 0) ∨
   (0 ≤ ser_prev_start s ≤ ser_prev_end s ∧ ser_prev_end s ≤ max_ip_value v ∧
    e = ser_prev_end s + 1)).

(** The serializer went from [s] to [s'], storing the starts [rs]. *)
Definition stored (s : VersionedIPSerializer) (rs : list (Z * nat)) (s' : VersionedIPSerializer) :
    Prop :=
  ser_prev_start s' = last_start (ser_prev_start s) rs ∧
  ser_block_count s' = ser_block_count s + Z.of_nat (length rs) ∧
  contents (ser_bit_queue s') =
    contents (ser_bit_queue s) ++ encode_starts v (ser_prev_start s) rs.

Lemma stored_app s1 a s2 b s3 : stored s1 a s2 → stored s2 b s3 → stored s1 (a ++ b) s3.
Proof.
  intros (Hp & Hn & Hc) (Hp' & Hn' & Hc'). split_and!.
  - rewrite Hp', Hp. unfold last_start. by rewrite foldl_app.
  - rewrite length_app. lia.
  - rewrite Hc', Hc, Hp, encode_starts_app. by rewrite <-app_assoc.
Qed.

Lemma ser_inv_expected s e :
  ser_inv s e → e ≤ max_ip_value v → 0 ≤ e ∧ plus_one_ip v (ser_prev_end s) = e ∧
    ser_prev_start s ≠ e ∧ is_ip v (ser_prev_start s).
Proof.
  intros [_ Hs] He. pose proof (max_ip_large v). unfold is_ip.
  destruct Hs as [(Hp & Hend & ->)|(Hp & Hend & ->)].
  - rewrite Hend, (plus_one_max v). lia.
  - rewrite (plus_one_small v) by (unfold is_ip; lia). lia.
Qed.

(** A block that starts at the expected address. *)
Lemma add_next s e end_ c :
  ser_inv s e → e ≤ end_ ≤ max_ip_value v → (c < 512)%nat →
  returns (add_ip_record v s e end_ c) (λ s', ser_inv s' (end_ + 1) ∧ stored s [(e, c)] s' ∧
    ser_prev_end s' = end_).
Proof.
  intros Hi He Hc. destruct (ser_inv_expected s e Hi) as (He0 & _ & Hne & Hip); [lia|].
  eapply returns_mono; [apply (add_ip_record_spec v); [by destruct Hi|done|unfold is_ip; lia|done|done]|].
  intros s' (q' & -> & Hq & Hct). unfold stored, ser_inv. cbn [ser_bit_queue ser_prev_start
    ser_prev_end ser_block_count last_start foldl fst length encode_starts].
  rewrite app_nil_r. split_and!; try done. right. lia.
Qed.

Lemma add_next_generic fuel s e end_ c :
  ser_inv s e → e ≤ end_ ≤ max_ip_value v →
  add_ip_generic (S fuel) v s e end_ c = add_ip_record v s e end_ c.
Proof.
  intros Hi He. cbn [add_ip_generic]. destruct (ser_inv_expected s e Hi) as (_ & E & _); [lia|].
  by rewrite E, decide_True.
Qed.

Lemma add_ip_spec s e start end_ c :
  ser_inv s e → e ≤ start ≤ end_ → end_ ≤ max_ip_value v → (c < 512)%nat →
  returns (add_ip v s start end_ c) (λ s', ser_inv s' (end_ + 1) ∧
    stored s (start_of <$> (gap e start ++ [(start, end_, c)])) s' ∧ ser_prev_end s' = end_).
Proof.
  intros Hi He Hend Hc. unfold gap. destruct (decide (start = e)) as [->|Hne].
  { unfold add_ip. rewrite add_next_generic by (done || lia).
    apply (add_next s e end_ c); [done|lia|done]. }
  unfold add_ip. cbn [add_ip_generic].
  destruct (ser_inv_expected s e Hi) as (He0 & E & _ & _); [lia|]. rewrite E, decide_False by done.
  rewrite (minus_one_pos v) by (unfold is_ip; lia). rewrite decide_True by done.
  ret_via (apply (add_next s e (start - 1) 0); [done|lia|lia]).
  intros s1 (Hi1 & Hst1 & _). rewrite Z.sub_add in Hi1.
  eapply returns_mono; [apply (add_next s1 start end_ c); [done|lia|done]|].
  intros s2 (Hi2 & Hst2 & Hend2). split_and!; [done| |done].
  by apply (stored_app s [(e, 0%nat)] s1 [(start, c)] s2).
Qed.

Definition add_span (s : VersionedIPSerializer) (sp : span) : outcome VersionedIPSerializer :=
  add_ip v s sp.1.1 sp.1.2 sp.2.

Lemma finish_spec s e :
  ser_inv s e → 0 < e →
  returns (finish_version v s) (λ s', bq_inv (ser_bit_queue s') ∧
    stored s (start_of <$> fill v e []) s').
Proof.
  intros Hi He. unfold finish_version. cbn [fill].
  assert (ser_prev_end s + 1 = e ∧ ser_prev_end s ≤ max_ip_value v) as [Ep Hle].
  { destruct Hi as [_ [(_ & _ & ->)|(_ & ? & ->)]]; lia. }
  destruct (decide (ser_prev_end s = max_ip_value v)) as [Em|Hm].
  - rewrite decide_False by lia. split; [by destruct Hi|].
    unfold stored. cbn. rewrite app_nil_r. split_and!; [done|lia|done].
  - rewrite decide_True by lia. destruct (ser_inv_expected s e Hi) as (_ & E & _); [lia|].
    rewrite E. eapply returns_mono; [apply (add_ip_spec s e e _ 0); [done|lia|lia|lia]|].
    intros s' ([Hq _] & Hst & _). unfold gap in Hst. rewrite decide_True in Hst by done. done.
Qed.

(** All blocks of one version, then the addresses that are left. *)
Lemma serialize_spans s e l :
  ser_inv s e → ordered_from v e l → l ≠ [] ∨ 0 < e →
  returns (s' ← fold_outcome add_span l s; finish_version v s') (λ s',
    bq_inv (ser_bit_queue s') ∧ stored s (start_of <$> fill v e l) s').
Proof.
  revert s e. induction l as [|[[a b] c] l IH]; intros s e Hi Ho Hne; cbn [fold_outcome].
  { cbn [mbind outcome_bind]. apply finish_spec; [done|]. by destruct Hne. }
  destruct Ho as (Hab & Hb & Hc & Ho).
  assert (0 ≤ e) as He by (apply (ser_inv_expected s e Hi); lia).
  pose proof (add_ip_spec s e a b c Hi Hab Hb Hc) as Hadd.
  apply returns_inv in Hadd as (s1 & E1 & Hi1 & Hst1 & _).
  change (add_span s (a, b, c)) with (add_ip v s a b c). rewrite E1. cbn [mbind outcome_bind].
  eapply returns_mono; [apply (IH s1 (b + 1)); [done|done|right; lia]|].
  intros s2 [Hq2 Hst2]. split; [done|]. pose proof (stored_app _ _ _ _ _ Hst1 Hst2) as Hst.
  cbn [fill]. rewrite <-fmap_app, <-app_assoc in Hst. exact Hst.
Qed.
End serializer.

(** ** Words *)

(** [words] are the 64-bit words that hold the [n] bits [l]. *)
Inductive packed : nat → list Z → list bool → Prop :=
| packed_nil : packed 0 [] []
| packed_full n w ws l :
    (64 ≤ n)%nat → 0 ≤ w < 2 ^ 64 → packed (n - 64) ws l → packed n (w :: ws) (bits 64 w ++ l)
| packed_part n w :
    (0 < n < 64)%nat → 0 ≤ w < 2 ^ Z.of_nat n → packed n [w] (bits n w).

Lemma country_words_spec fuel q :
  bq_inv q → (bq_len q < fuel)%nat →
  returns (country_words fuel q) (λ ws, packed (bq_len q) ws (contents q)).
Proof.
  revert q. induction fuel as [|fuel IH]; intros q Hi Hf; [lia|]. cbn [country_words].
  rewrite <-(length_contents q Hi) in *. unfold COUNTRY_BLOCK_BIT_SIZE, bq_is_empty.
  rewrite <-(length_contents q Hi). destruct (Nat.leb_spec 64 (length (contents q))) as [Hge|Hlt].
  - ret_via (apply (take_bits_returns q 64); [done|lia]).
    intros [[w|] q'] [Hi' H]; [|lia]. destruct H as [Hc Hw]. cbn [fst snd].
    pose proof (f_equal length Hc) as Hlen. rewrite length_app, length_bits in Hlen.
    apply returns_bind. cbn [expect returns]. ret_via (apply IH; [done|rewrite <-length_contents by done; lia]).
    intros ws Hws. cbn [returns mret outcome_ret]. rewrite Hlen, Hc. constructor; [lia|done|].
    replace (64 + length (contents q') - 64)%nat with (bq_len q'); [done|].
    rewrite <-length_contents by done. lia.
  - destruct (Nat.eqb_spec (length (contents q)) 0) as [E|].
    { apply nil_length_inv in E. rewrite E. constructor. }
    ret_via (apply (take_bits_returns q (length (contents q))); [done|lia]).
    intros [[w|] q'] [Hi' H]; [|lia]. destruct H as [Hc Hw]. cbn [fst snd].
    pose proof (f_equal length Hc) as Hlen. rewrite length_app, length_bits in Hlen.
    assert (contents q' = []) as E by (apply nil_length_inv; lia). rewrite E, app_nil_r in Hc.
    apply returns_bind. cbn [expect returns mret outcome_ret]. rewrite Hc at 2.
    constructor; [lia|done].
Qed.

Lemma load_words_spec fuel q n ws l :
  packed n ws l → bq_inv q → (n < fuel)%nat →
  returns (load_words fuel q ws n) (λ q', bq_inv q' ∧ contents q' = contents q ++ l).
Proof.
  intros Hp. revert fuel q. induction Hp as [|n w ws l Hn Hw _ IH|n w Hn Hw];
    intros [|fuel] q Hi Hf; try lia; cbn [load_words].
  - cbn. by rewrite app_nil_r.
  - destruct (Nat.leb_spec 64 n); [|lia]. cbn [head tail expect mbind outcome_bind].
    ret_via (apply (add_bits_returns q w 64); [done|lia|done]).
    intros q1 [Hi1 Hc1]. eapply returns_mono; [apply IH; [done|lia]|].
    intros q2 [Hi2 Hc2]. split; [done|]. rewrite Hc2, Hc1. by rewrite <-app_assoc.
  - destruct (Nat.leb_spec 64 n); [lia|]. destruct (Nat.ltb_spec 0 n); [|lia].
    cbn [head expect mbind outcome_bind]. apply add_bits_returns; [done|lia|done].
Qed.

(** Packing the bits of a queue and loading them again keeps them. *)
Lemma pack_load q :
  bq_inv q →
  returns (country_data q) (λ data, data.2 = length (contents q) ∧
    returns (bit_queue_from_country_data data) (λ q', bq_inv q' ∧ contents q' = contents q)).
Proof.
  intros Hi. unfold country_data. ret_via (apply country_words_spec; [done|lia]). intros ws Hws.
  cbn [returns mret outcome_ret]. split; [by rewrite length_contents|].
  unfold bit_queue_from_country_data. cbn [fst snd].
  eapply returns_mono; [apply (load_words_spec _ _ _ _ _ Hws bq_inv_new); lia|].
  intros q' [Hi' Hc']. done.
Qed.

(** ** The deserializer *)
Section deserializer.
Variable (v : Version) (cs : Countries).
Context `{!VersionOk v}.

Fixpoint rising (p : Z) (rs : list (Z * nat)) : Prop :=
  match rs with
  | [] => True
  | (s, c) :: rs' => p < s ≤ max_ip_value v ∧ (c < 512)%nat ∧ rising s rs'
  end.

(** Each block ends where the next one starts, the last at the last address. *)
Fixpoint spans_of (rs : list (Z * nat)) : list span :=
  match rs with
  | [] => []
  | (s, c) :: rs' =>
      (s, match rs' with [] => max_ip_value v | (s', _) :: _ => s' - 1 end, c) :: spans_of rs'
  end.

Lemma rising_fill p e l :
  ordered_from v e l → p < e → rising p (start_of <$> fill v e l).
Proof.
  revert p e. induction l as [|[[s t] c] l IH]; intros p e Ho Hp; cbn [fill].
  { case_decide; [|done]. cbn. lia. }
  destruct Ho as (Hst & Ht & Hc & Ho).
  assert (rising s (start_of <$> fill v (t + 1) l)) as Hr by (apply IH; [done|lia]).
  unfold gap. case_decide; cbn; split_and!; solve [lia|exact Hr].
Qed.

Lemma fill_head e l :
  ordered_from v e l →
  match start_of <$> fill v e l with [] => max_ip_value v < e | (s, _) :: _ => s = e end.
Proof.
  destruct l as [|[[s t] c] l]; cbn [fill].
  - intros _. case_decide; cbn; lia.
  - intros _. unfold gap. by case_decide.
Qed.

Lemma spans_fill e l : ordered_from v e l → spans_of (start_of <$> fill v e l) = fill v e l.
Proof.
  revert e. induction l as [|[[s t] c] l IH]; intros e Ho; cbn [fill].
  { by case_decide. }
  destruct Ho as (Hst & Ht & Hc & Ho). specialize (IH (t + 1) Ho).
  pose proof (fill_head (t + 1) l Ho) as Hh.
  assert (spans_of (start_of <$> ((s, t, c) :: fill v (t + 1) l)) = (s, t, c) :: fill v (t + 1) l)
    as E.
  { rewrite fmap_cons. cbn [start_of fst snd spans_of]. rewrite IH. do 3 f_equal.
    destruct (start_of <$> fill v (t + 1) l) as [|[s' c'] r]; [|subst]; lia. }
  unfold gap. case_decide; [done|]. cbn [app]. rewrite fmap_cons. cbn [start_of fst snd].
  cbn [spans_of]. by rewrite E.
Qed.

Lemma encode_starts_length prev rs : (9 * length rs ≤ length (encode_starts v prev rs))%nat.
Proof.
  revert prev. induction rs as [|[s c] rs IH]; intros prev; [done|].
  cbn [encode_starts length]. rewrite length_app.
  pose proof (encode_record_length v prev s c). specialize (IH s). lia.
Qed.

Definition country_at (c : nat) : Country := default (mkCountry 0 "ZZ" "Sentinel") (country_from_index cs c).

Definition block_of (sp : span) : CountryBlock :=
  mkBlock (make_range v sp.1.1 sp.1.2) (country_at sp.2).

Definition known_country (c : nat) : Prop := is_Some (country_from_index cs c).

Lemma known_expect c why : known_country c → expect (country_from_index cs c) why = Ret (country_at c).
Proof. intros [k Hk]. unfold country_at. by rewrite Hk. Qed.

Lemma collect_spec fuel s c q rs :
  (length rs + 1 < fuel)%nat → 0 ≤ s ≤ max_ip_value v → rising s rs →
  Forall (λ r, known_country r.2) ((s, c) :: rs) →
  (0 < difference_count_bit_count v)%nat →
  bq_inv q → contents q = encode_starts v s rs →
  collect_blocks fuel v cs (mkDeserializer (mkStreamRecord s c) q false) =
    Ret (block_of <$> spans_of ((s, c) :: rs)).
Proof.
  revert fuel s c q. induction rs as [|[s' c'] rs IH];
    intros [|fuel] s c q Hf Hs Hr Hk Hd Hi Hc; try (simpl in Hf; lia);
    cbn [collect_blocks]; unfold next_generic; cbn [de_empty de_prev_record de_bit_queue sr_start sr_country_idx].
  - rewrite get_record_end by done. cbn [mbind outcome_bind fst snd].
    rewrite known_expect by (by inversion Hk). cbn [mbind outcome_bind mret outcome_ret fst snd].
    destruct fuel as [|fuel]; [simpl in Hf; lia|]. done.
  - destruct Hr as (Hs' & Hc' & Hr). cbn [encode_starts] in Hc.
    pose proof (get_record_spec v q s s' c' (encode_starts v s' rs) Hi) as Hg.
    destruct (returns_inv _ _ (Hg ltac:(unfold is_ip; lia) ltac:(unfold is_ip; lia) ltac:(lia) Hc' Hc))
      as ([o q'] & E & -> & Hi' & Hc1).
    rewrite E. cbn [mbind outcome_bind fst snd]. rewrite known_expect by (by inversion Hk).
    cbn [mbind outcome_bind mret outcome_ret fst snd sr_start].
    rewrite (IH fuel s' c' q'); [|simpl in Hf; lia|lia|done|by inversion Hk|done|done|done].
    rewrite (minus_one_pos v) by (unfold is_ip; lia). done.
Qed.
End deserializer.

(** ** From blocks to data and back *)

(** The serializer loop of [MMDBParser::parse], followed by the packing of both
    queues. *)
Definition compress_blocks (bs : list CountryBlock) :
    outcome ((list Z * nat) * (list Z * nat)) :=
  s ← fold_outcome cbs_add bs CountryBlockSerializer_new;
  f ← cbs_finish s;
  data4 ← country_data (bit_queue f.1);
  data6 ← country_data (bit_queue f.2);
  mret (data4, data6).

Definition spans4 (bs : list CountryBlock) : list span :=
  omap (λ b, match ip_range b with
             | RangeV4 s t => Some (s, t, country_index (country b))
             | RangeV6 _ _ => None end) bs.

Definition spans6 (bs : list CountryBlock) : list span :=
  omap (λ b, match ip_range b with
             | RangeV6 s t => Some (s, t, country_index (country b))
             | RangeV4 _ _ => None end) bs.

(** The two versions are serialized independently. *)
Lemma cbs_add_all bs s4 s6 f4 f6 :
  fold_outcome (add_span v4) (spans4 bs) s4 = Ret f4 →
  fold_outcome (add_span v6) (spans6 bs) s6 = Ret f6 →
  fold_outcome cbs_add bs (mkCbs s4 s6) = Ret (mkCbs f4 f6).
Proof.
  revert s4 s6. induction bs as [|[[s t|s t] c] bs IH]; intros s4 s6.
  - cbn. congruence.
  - change (spans4 (mkBlock (RangeV4 s t) c :: bs)) with ((s, t, country_index c) :: spans4 bs).
    change (spans6 (mkBlock (RangeV4 s t) c :: bs)) with (spans6 bs). cbn [fold_outcome].
    intros (s1 & E & H4)%bind_ret H6. unfold add_span in E. cbn [fst snd] in E.
    cbn [cbs_add ip_range cbs_ipv4 cbs_ipv6 country]. rewrite E. by apply IH.
  - change (spans6 (mkBlock (RangeV6 s t) c :: bs)) with ((s, t, country_index c) :: spans6 bs).
    change (spans4 (mkBlock (RangeV6 s t) c :: bs)) with (spans4 bs). cbn [fold_outcome].
    intros H4 (s1 & E & H6)%bind_ret. unfold add_span in E. cbn [fst snd] in E.
    cbn [cbs_add ip_range cbs_ipv4 cbs_ipv6 country]. rewrite E. by apply IH.
Qed.

Section one_version.
Variable (v : Version) (cs : Countries).
Context `{!VersionOk v}.

Definition new_serializer : VersionedIPSerializer :=
  serializer_new (max_ip_value v - 1) (max_ip_value v).

Lemma ser_inv_new : ser_inv v new_serializer 0.
Proof. split; [apply bq_inv_new|by left]. Qed.

Lemma fill_known l :
  known_country cs 0 → Forall (λ sp, known_country cs sp.2) l → ∀ e,
  Forall (λ r, known_country cs r.2) (start_of <$> fill v e l).
Proof.
  intros H0 Hl. induction Hl as [|[[s t] c] l Hc _ IH]; intros e; cbn [fill].
  { case_decide; repeat constructor. done. }
  rewrite fmap_app, Forall_app, fmap_cons, Forall_cons. split_and!; [|done|apply IH].
  unfold gap. case_decide; repeat constructor. done.
Qed.

(** What is read back from the data of one version. *)
Lemma deserialize_spec l data q :
  ordered_from v 0 l → (0 < difference_count_bit_count v)%nat →
  known_country cs 0 → Forall (λ sp, known_country cs sp.2) l →
  bit_queue_from_country_data data = Ret q → bq_inv q → data.2 = length (contents q) →
  contents q = encode_starts v (max_ip_value v - 1) (start_of <$> fill v 0 l) →
  deserialize v cs data = Ret (block_of v cs <$> fill v 0 l).
Proof.
  intros Ho Hd H0 Hl E Hi Hlen Hc. pose proof (max_ip_large v) as Hbig.
  unfold deserialize, deserializer_new. rewrite E. cbn [mbind outcome_bind].
  pose proof (fill_head v 0 l Ho) as Hh. pose proof (fill_known l H0 Hl 0) as Hk.
  pose proof (rising_fill v (-1) 0 l Ho ltac:(lia)) as Hr. rewrite <-(spans_fill v 0 l Ho).
  pose proof (encode_starts_length v (max_ip_value v - 1) (start_of <$> fill v 0 l)) as Hel.
  rewrite <-Hc, <-Hlen in Hel.
  destruct (start_of <$> fill v 0 l) as [|[s c] rs]; [lia|]. subst s.
  destruct Hr as (_ & Hc0 & Hr). cbn [encode_starts] in Hc.
  pose proof (get_record_spec v q (max_ip_value v - 1) 0 c (encode_starts v 0 rs) Hi) as Hg.
  destruct (returns_inv _ _ (Hg ltac:(unfold is_ip; lia) ltac:(unfold is_ip; lia) ltac:(lia) Hc0 Hc))
    as ([o q'] & Eg & -> & Hi' & Hc').
  rewrite Eg. cbn [mbind outcome_bind fst snd expect mret outcome_ret].
  apply (collect_spec v cs); [cbn [length] in Hel; lia|lia|done..].
Qed.

(** One version, through the serializer, the words and the deserializer. *)
Lemma version_roundtrip l :
  ordered_from v 0 l → l ≠ [] → (0 < difference_count_bit_count v)%nat →
  known_country cs 0 → Forall (λ sp, known_country cs sp.2) l →
  ∃ s f data, fold_outcome (add_span v) l new_serializer = Ret s ∧ finish_version v s = Ret f ∧
    country_data (ser_bit_queue f) = Ret data ∧
    deserialize v cs data = Ret (block_of v cs <$> fill v 0 l) ∧
    ser_block_count f = Z.of_nat (length (fill v 0 l)).
Proof.
  intros Ho Hne Hd H0 Hl.
  destruct (returns_inv _ _ (serialize_spans v _ 0 l ser_inv_new Ho (or_introl Hne)))
    as (f & (s & E & Ef)%bind_ret & Hi & (_ & Hn & Hc)).
  destruct (returns_inv _ _ (pack_load _ Hi)) as (data & Ed & Hlen & Hload).
  destruct (returns_inv _ _ Hload) as (q & Eq & Hiq & Hcq).
  exists s, f, data. split_and!; [done..| |].
  - eapply deserialize_spec; [done..|by rewrite Hcq|by rewrite Hcq, Hc].
  - rewrite Hn, length_fmap. unfold new_serializer, serializer_new. cbn [ser_block_count]. lia.
Qed.
End one_version.

(** The countries of the blocks are those of the list. *)
Definition countries_known (cs : Countries) (bs : list CountryBlock) : Prop :=
  Forall (λ b, country_from_index cs (country_index (country b)) = Some (country b)) bs.

Definition blocks_ok (cs : Countries) (bs : list CountryBlock) : Prop :=
  countries_known cs bs ∧ known_country cs 0 ∧
  ordered_from v4 0 (spans4 bs) ∧ spans4 bs ≠ [] ∧
  ordered_from v6 0 (spans6 bs) ∧ spans6 bs ≠ [].

Lemma spans4_known cs bs : countries_known cs bs → Forall (λ sp : span, known_country cs sp.2) (spans4 bs).
Proof.
  induction 1 as [|[[s t|s t] c] bs Hb _ IH]; [constructor| |exact IH].
  constructor; [by eexists|exact IH].
Qed.

Lemma spans6_known cs bs : countries_known cs bs → Forall (λ sp : span, known_country cs sp.2) (spans6 bs).
Proof.
  induction 1 as [|[[s t|s t] c] bs Hb _ IH]; [constructor|exact IH|].
  constructor; [by eexists|exact IH].
Qed.

Lemma blocks_roundtrip cs bs :
  blocks_ok cs bs →
  ∃ data4 data6, compress_blocks bs = Ret (data4, data6) ∧
    CountryCodeFinder_new cs data4 data6 =
      Ret (mkFinder cs (block_of v4 cs <$> fill v4 0 (spans4 bs))
                       (block_of v6 cs <$> fill v6 0 (spans6 bs))).
Proof.
  intros (Hk & H0 & Ho4 & Hn4 & Ho6 & Hn6).
  destruct (version_roundtrip v4 cs _ Ho4 Hn4 ltac:(simpl; lia) H0 (spans4_known _ _ Hk))
    as (s4 & f4 & d4 & E4 & F4 & D4 & R4 & _).
  destruct (version_roundtrip v6 cs _ Ho6 Hn6 ltac:(simpl; lia) H0 (spans6_known _ _ Hk))
    as (s6 & f6 & d6 & E6 & F6 & D6 & R6 & _).
  exists d4, d6. unfold compress_blocks, CountryBlockSerializer_new, CountryCodeFinder_new, cbs_finish.
  change (serializer_new (max_ip_value v4 - 1) (max_ip_value v4)) with (new_serializer v4).
  change (serializer_new (max_ip_value v6 - 1) (max_ip_value v6)) with (new_serializer v6).
  rewrite (cbs_add_all bs _ _ _ _ E4 E6). cbn [mbind outcome_bind cbs_ipv4 cbs_ipv6].
  rewrite F4, F6. cbn [mbind outcome_bind mret outcome_ret fst snd bit_queue].
  rewrite D4, D6. cbn [mbind outcome_bind mret outcome_ret]. by rewrite R4, R6.
Qed.

(** ** Searching *)

(** The search finds the one index where the ordering is [Eq]. *)
Lemma binary_search_found {A} fuel (f : A → outcome comparison) (l : list A) (k lo hi : nat) :
  (∀ j x, l !! j = Some x → f x = Ret (j ?= k)%nat) →
  (lo ≤ k < hi)%nat → (hi ≤ length l)%nat → (hi - lo ≤ fuel)%nat →
  binary_search_by fuel f l lo hi = Ret (Some k).
Proof.
  intros Hf. revert lo hi. induction fuel as [|fuel IH]; intros lo hi Hk Hhi Hfuel; [lia|].
  cbn [binary_search_by]. destruct (Nat.ltb_spec lo hi); [|lia].
  pose proof (Nat.div_lt (hi - lo) 2 ltac:(lia) ltac:(lia)) as Hdiv.
  set (mid := (lo + (hi - lo) / 2)%nat). assert (lo ≤ mid < hi)%nat as Hmid by lia. clearbody mid.
  destruct (lookup_lt_is_Some_2 l mid) as [x Hx]; [lia|]. rewrite Hx. cbn [expect mbind outcome_bind].
  rewrite (Hf mid x Hx). cbn [mbind outcome_bind].
  destruct (Nat.compare_spec mid k) as [->|Hlt|Hgt]; [done|apply IH; lia|apply IH; lia].
Qed.

(** The spans cover the addresses from [e] on, one after the other. *)
Fixpoint tiled (v : Version) (e : Z) (l : list span) : Prop :=
  match l with
  | [] => e = max_ip_value v + 1
  | (s, t, _) :: l' => s = e ∧ e ≤ t ≤ max_ip_value v ∧ tiled v (t + 1) l'
  end.

Lemma fill_tiled v e l : ordered_from v e l → e ≤ max_ip_value v + 1 → tiled v e (fill v e l).
Proof.
  revert e. induction l as [|[[s t] c] l IH]; intros e Ho He; cbn [fill].
  { case_decide; cbn; lia. }
  destruct Ho as (Hst & Ht & Hc & Ho). assert (tiled v (t + 1) (fill v (t + 1) l)) by (apply IH; [done|lia]).
  unfold gap. case_decide; cbn [app tiled]; rewrite ?Z.sub_add; split_and!; solve [lia|done].
Qed.

Lemma tiled_starts v e l j sp : tiled v e l → l !! j = Some sp → e ≤ sp.1.1.
Proof.
  revert e j. induction l as [|[[s t] c] l IH]; intros e [|j] Ht Hj; try done.
  - injection Hj as <-. destruct Ht as (-> & _). cbn. lia.
  - destruct Ht as (-> & Hb & Ht). specialize (IH (t + 1) j Ht Hj). lia.
Qed.

Lemma tiled_find v e l ip :
  tiled v e l → e ≤ ip ≤ max_ip_value v →
  ∃ k sp, l !! k = Some sp ∧ ∀ j sp', l !! j = Some sp' →
    compare_with_range ip sp'.1.1 sp'.1.2 = (j ?= k)%nat.
Proof.
  revert e. induction l as [|[[s t] c] l IH]; intros e Ht Hip; [cbn in Ht; lia|].
  destruct Ht as (-> & Hb & Ht). unfold compare_with_range. destruct (Z.le_gt_cases ip t) as [Hle|Hgt].
  - exists 0%nat, (e, t, c). split; [done|]. intros [|j] sp' Hj.
    + injection Hj as <-. cbn [fst snd]. destruct (Z.ltb_spec ip e), (Z.ltb_spec t ip); done || lia.
    + pose proof (tiled_starts v (t + 1) l j sp' Ht Hj). cbn [Nat.compare].
      destruct (Z.ltb_spec ip sp'.1.1); [done|lia].
  - destruct (IH (t + 1) Ht) as (k & sp & Hk & Hall); [lia|].
    exists (S k), sp. split; [done|]. intros [|j] sp' Hj.
    + injection Hj as <-. cbn [fst snd Nat.compare].
      destruct (Z.ltb_spec ip e), (Z.ltb_spec t ip); done || lia.
    + cbn [Nat.compare]. rewrite <-(Hall j sp' Hj). done.
Qed.

Lemma compare_with_range_Eq ip s t : compare_with_range ip s t = Eq ↔ s ≤ ip ≤ t.
Proof.
  unfold compare_with_range. destruct (Z.ltb_spec ip s); [split; [done|lia]|].
  destruct (Z.ltb_spec t ip); split; done || lia.
Qed.

Lemma fill_elem v e l sp : sp ∈ fill v e l → sp ∈ l ∨ sp.2 = 0%nat.
Proof.
  revert e. induction l as [|[[s t] c] l IH]; intros e; cbn [fill].
  { case_decide; [|set_solver]. intros ->%list_elem_of_singleton. by right. }
  rewrite elem_of_app, elem_of_cons. intros [H|[->|H]].
  - unfold gap in H. case_decide; [set_solver|]. apply list_elem_of_singleton in H as ->. by right.
  - left. left.
  - destruct (IH _ H); [left; by right|by right].
Qed.

Lemma fill_subset v e l sp : sp ∈ l → sp ∈ fill v e l.
Proof.
  revert e. induction l as [|[[s t] c] l IH]; intros e; [set_solver|]. cbn [fill].
  rewrite elem_of_app, !elem_of_cons. intros [->|H]; [by right; left|]. right; right. by apply IH.
Qed.

(** The span that holds an address, and what a search for the address finds. *)
Lemma fill_search v cs l ip why :
  ordered_from v 0 l → is_ip v ip →
  ∃ k sp, fill v 0 l !! k = Some sp ∧ sp.1.1 ≤ ip ≤ sp.1.2 ∧
    (∀ sp', sp' ∈ l → sp'.1.1 ≤ ip ≤ sp'.1.2 → sp' = sp) ∧
    (sp ∈ l ∨ sp.2 = 0%nat) ∧
    ∀ f, (∀ sp', f (block_of v cs sp') = Ret (compare_with_range ip sp'.1.1 sp'.1.2)) →
      let blocks := block_of v cs <$> fill v 0 l in
      binary_search_by (length blocks) f blocks 0 (length blocks) = Ret (Some k) ∧
      expect (blocks !! k) why = Ret (block_of v cs sp).
Proof.
  intros Ho [Hip0 Hip]. pose proof (fill_tiled v 0 l Ho ltac:(lia)) as Ht.
  destruct (tiled_find v 0 _ ip Ht ltac:(lia)) as (k & sp & Hk & Hall).
  assert (sp.1.1 ≤ ip ≤ sp.1.2) as Hsp.
  { apply compare_with_range_Eq. rewrite (Hall k sp Hk). by apply Nat.compare_eq_iff. }
  assert (sp ∈ l ∨ sp.2 = 0%nat) as Hin by by eapply fill_elem, list_elem_of_lookup_2.
  exists k, sp. split; [done|]. split; [done|]. split; [|split; [done|]]; clear Hin.
  - intros sp' Hin Hc. apply (fill_subset v 0) in Hin. apply list_elem_of_lookup_1 in Hin as [j Hj].
    apply compare_with_range_Eq in Hc. rewrite (Hall j sp' Hj) in Hc.
    apply Nat.compare_eq in Hc as ->. congruence.
  - intros f Hf. cbv zeta. pose proof (lookup_lt_Some _ _ _ Hk). split.
    + apply binary_search_found; rewrite ?length_fmap; [|lia..].
      intros j x. rewrite list_lookup_fmap. intros (sp' & Hj & ->)%fmap_Some.
      by rewrite Hf, (Hall j sp' Hj).
    + by rewrite list_lookup_fmap, Hk.
Qed.

(** ** Theorems *)
Definition addr_ok (ip : IpAddr) : Prop :=
  match ip with V4 i => is_ip v4 i | V6 i => is_ip v6 i end.

(** What [find_country] answers for a country. *)
Definition reported (c : Country) : option Country :=
  if decide (iso3166 c = "ZZ") then None else Some c.

(** The blocks of the list that hold an address, seen as spans. *)
Lemma spans4_elem bs b i :
  b ∈ bs → range_contains (ip_range b) (V4 i) = true →
  ∃ s t, ip_range b = RangeV4 s t ∧ (s, t, country_index (country b)) ∈ spans4 bs ∧ s ≤ i ≤ t.
Proof.
  intros Hb Hc. destruct (ip_range b) as [s t|s t] eqn:E; [|done]. exists s, t.
  split; [done|]. split; [|unfold range_contains, contains_inner in Hc; lia].
  apply list_elem_of_omap. exists b. by rewrite E.
Qed.

Lemma spans6_elem bs b i :
  b ∈ bs → range_contains (ip_range b) (V6 i) = true →
  ∃ s t, ip_range b = RangeV6 s t ∧ (s, t, country_index (country b)) ∈ spans6 bs ∧ s ≤ i ≤ t.
Proof.
  intros Hb Hc. destruct (ip_range b) as [s t|s t] eqn:E; [done|]. exists s, t.
  split; [done|]. split; [|unfold range_contains, contains_inner in Hc; lia].
  apply list_elem_of_omap. exists b. by rewrite E.
Qed.

Lemma spans4_source bs sp i :
  sp ∈ spans4 bs → sp.1.1 ≤ i ≤ sp.1.2 →
  ∃ b, b ∈ bs ∧ range_contains (ip_range b) (V4 i) = true.
Proof.
  intros (b & Hb & E)%list_elem_of_omap Hc. exists b. split; [done|].
  destruct (ip_range b); [|done]. injection E as <-. cbn in *. unfold contains_inner. lia.
Qed.

Lemma spans6_source bs sp i :
  sp ∈ spans6 bs → sp.1.1 ≤ i ≤ sp.1.2 →
  ∃ b, b ∈ bs ∧ range_contains (ip_range b) (V6 i) = true.
Proof.
  intros (b & Hb & E)%list_elem_of_omap Hc. exists b. split; [done|].
  destruct (ip_range b); [done|]. injection E as <-. cbn in *. unfold contains_inner. lia.
Qed.

(** [o] is the right answer for [ip], given the blocks [bs]. *)
Definition right_answer (bs : list CountryBlock) (ip : IpAddr) (o : option Country) : Prop :=
  (∀ b, b ∈ bs → range_contains (ip_range b) ip = true → o = reported (country b)) ∧
  ((∀ b, b ∈ bs → range_contains (ip_range b) ip = false) → o = None).

Lemma find_in_spans cs bs ip :
  countries_known cs bs → reported (country_at cs 0) = None →
  ordered_from v4 0 (spans4 bs) → ordered_from v6 0 (spans6 bs) → addr_ok ip →
  returns (find_country (mkFinder cs (block_of v4 cs <$> fill v4 0 (spans4 bs))
                                     (block_of v6 cs <$> fill v6 0 (spans6 bs))) ip)
    (right_answer bs ip).
Proof.
  intros Hk H0 Ho4 Ho6 Hip. unfold countries_known in Hk. rewrite Forall_forall in Hk.
  destruct ip as [i|i]; unfold find_country; cbn [finder_ipv4 finder_ipv6].
  - destruct (fill_search v4 cs _ i "index out of bounds" Ho4 Hip)
      as (k & sp & _ & Hsp & Hu & Hsrc & Hs).
    destruct (Hs (λ b, ordering_by_range (ip_range b) (V4 i)) ltac:(done)) as [-> E].
    cbn [mbind outcome_bind]. rewrite E. cbn [mbind outcome_bind mret outcome_ret returns country block_of].
    split.
    + intros b Hb Hc. destruct (spans4_elem bs b i Hb Hc) as (s & t & _ & Hin & Hst).
      rewrite <-(Hu _ Hin Hst). unfold country_at. cbn [snd]. by rewrite (Hk b Hb).
    + intros Hno. destruct Hsrc as [Hin| ->]; [|exact H0].
      destruct (spans4_source bs sp i Hin Hsp) as (b & Hb & Hc). rewrite Hno in Hc; done.
  - destruct (fill_search v6 cs _ i "index out of bounds" Ho6 Hip)
      as (k & sp & _ & Hsp & Hu & Hsrc & Hs).
    destruct (Hs (λ b, ordering_by_range (ip_range b) (V6 i)) ltac:(done)) as [-> E].
    cbn [mbind outcome_bind]. rewrite E. cbn [mbind outcome_bind mret outcome_ret returns country block_of].
    split.
    + intros b Hb Hc. destruct (spans6_elem bs b i Hb Hc) as (s & t & _ & Hin & Hst).
      rewrite <-(Hu _ Hin Hst). unfold country_at. cbn [snd]. by rewrite (Hk b Hb).
    + intros Hno. destruct Hsrc as [Hin| ->]; [|exact H0].
      destruct (spans6_source bs sp i Hin Hsp) as (b & Hb & Hc). rewrite Hno in Hc; done.
Qed.

(** compressing ordered country blocks (serializer, 64-bit words) and building
    a finder from the data gives back the blocks of both versions, with a block of
    the sentinel country in every gap. *)
Theorem country_data_roundtrip pairs bs :
  blocks_ok (Countries_new pairs) bs →
  ∃ data4 data6, compress_blocks bs = Ret (data4, data6) ∧
    CountryCodeFinder_new (Countries_new pairs) data4 data6 =
      Ret (mkFinder (Countries_new pairs)
             (block_of v4 (Countries_new pairs) <$> fill v4 0 (spans4 bs))
             (block_of v6 (Countries_new pairs) <$> fill v6 0 (spans6 bs))).
Proof. apply blocks_roundtrip. Qed.

(** C13: looking an address up in a finder built from compressed blocks gives the
    country of the block that holds it, and nothing if no block holds it or the
    country is the sentinel. *)
Theorem find_country_correct pairs bs ip :
  blocks_ok (Countries_new pairs) bs → addr_ok ip →
  ∃ data4 data6 finder, compress_blocks bs = Ret (data4, data6) ∧
    CountryCodeFinder_new (Countries_new pairs) data4 data6 = Ret finder ∧
    returns (find_country finder ip) (right_answer bs ip).
Proof.
  intros Hok Hip. destruct (blocks_roundtrip _ _ Hok) as (d4 & d6 & Ec & Ef).
  exists d4, d6. eexists. split; [exact Ec|]. split; [exact Ef|].
  destruct Hok as (Hk & _ & Ho4 & _ & Ho6 & _). by apply find_in_spans.
Qed.

(** The lookup the node uses: the finder's country, by its code. *)
Definition finder_lookup (finder : CountryCodeFinder) : CountryLookup :=
  λ ip, match find_country finder ip with
        | Ret (Some c) => Some (iso3166 c)
        | _ => None
        end.

(** a node whose address lies in one of the compressed country blocks gets the
    location of that country, and a node in no block, in a block of the sentinel
    or without an address gets none. *)
Theorem node_location_correct pairs bs ip :
  blocks_ok (Countries_new pairs) bs → addr_ok ip →
  ∃ data4 data6 finder, compress_blocks bs = Ret (data4, data6) ∧
    CountryCodeFinder_new (Countries_new pairs) data4 data6 = Ret finder ∧
    let location := get_node_location (CL := finder_lookup finder) in
    location None = None ∧
    (∀ b, b ∈ bs → range_contains (ip_range b) ip = true →
      location (Some ip) = if decide (iso3166 (country b) = "ZZ") then None
                           else Some (mkNodeLocation (iso3166 (country b)))) ∧
    ((∀ b, b ∈ bs → range_contains (ip_range b) ip = false) → location (Some ip) = None).
Proof.
  intros Hok Hip. destruct (blocks_roundtrip _ _ Hok) as (d4 & d6 & Ec & Ef).
  exists d4, d6. eexists. split; [exact Ec|]. split; [exact Ef|]. cbv zeta.
  destruct Hok as (Hk & _ & Ho4 & _ & Ho6 & _).
  destruct (returns_inv _ _ (find_in_spans _ bs ip Hk eq_refl Ho4 Ho6 Hip)) as (o & E & Hb & Hn).
  unfold get_node_location, NodeRecord.find_country, finder_lookup. rewrite E. split_and!; [done| |].
  - intros b Hin Hc. rewrite (Hb b Hin Hc). unfold reported. by case_decide.
  - intros Hno. by rewrite (Hn Hno).
Qed.

(** The two records of the format description: 1.2.3.4 for country 237, then
    255.2.3.4 for country 235. *)
Definition documented_data : outcome (list Z * nat) :=
  q ← fold_outcome (λ q p, add_bits q p.1 p.2)
        [(3, 2%nat); (0, 2%nat); (1, 8%nat); (1, 2%nat); (2, 8%nat); (2, 2%nat); (3, 8%nat);
         (3, 2%nat); (4, 8%nat); (237, 9%nat); (0, 2%nat); (0, 2%nat); (255, 8%nat); (235, 9%nat)]
        BitQueue_new;
  country_data q.

Definition numbered_countries : Countries :=
  Countries_from ((λ i, mkCountry i "XX" "A country") <$> seq 0 250).

(** the deserializer does not invent a block for the addresses before the
    first start address: the documented example gives two blocks, not three. *)
Theorem deserializer_invents_no_block :
  (data ← documented_data; blocks ← deserialize v4 numbered_countries data;
   Ret (map (λ b, (ip_range b, country_index (country b))) blocks)) =
    Ret [(RangeV4 16909060 4278321923, 237%nat); (RangeV4 4278321924 4294967295, 235%nat)].
Proof. vm_compute. reflexivity. Qed.

(** ** Witnesses *)
Definition sample_pairs : list (string * string) :=
  [("US", "United States"); ("CZ", "Czechia"); ("ZZ", "Sentinel")].

Definition us : Country := mkCountry 2 "US" "United States".
Definition cz : Country := mkCountry 1 "CZ" "Czechia".

Definition sample_blocks : list CountryBlock :=
  [mkBlock (RangeV4 16909060 16909070) us; mkBlock (RangeV6 7 (2 ^ 100)) cz;
   mkBlock (RangeV4 16909071 4294967295) cz].

Lemma sample_blocks_ok : blocks_ok (Countries_new sample_pairs) sample_blocks.
Proof.
  split; [by repeat (apply Forall_cons; split; [vm_compute; reflexivity|])|].
  split; [by eexists|]. split; [vm_compute; repeat split; discriminate || lia|]. split; [done|].
  split; [vm_compute; repeat split; discriminate || lia|done].
Qed.

Lemma country_data_roundtrip_witness :
  ∃ data4 data6, compress_blocks sample_blocks = Ret (data4, data6) ∧
    ∃ finder, CountryCodeFinder_new (Countries_new sample_pairs) data4 data6 = Ret finder ∧
      length (finder_ipv4 finder) = 3%nat ∧ length (finder_ipv6 finder) = 3%nat.
Proof.
  destruct (country_data_roundtrip sample_pairs sample_blocks sample_blocks_ok) as (d4 & d6 & E & F).
  exists d4, d6. split; [exact E|]. eexists. split; [exact F|].
  cbn [finder_ipv4 finder_ipv6]. rewrite !length_fmap. split; vm_compute; reflexivity.
Defined.

Lemma find_country_correct_witness :
  ∃ data4 data6 finder, compress_blocks sample_blocks = Ret (data4, data6) ∧
    CountryCodeFinder_new (Countries_new sample_pairs) data4 data6 = Ret finder ∧
    find_country finder (V4 16909065) = Ret (Some us).
Proof.
  destruct (find_country_correct sample_pairs sample_blocks (V4 16909065) sample_blocks_ok
    ltac:(vm_compute; split; discriminate)) as (d4 & d6 & f & E & F & H).
  exists d4, d6, f. split; [exact E|]. split; [exact F|].
  destruct (returns_inv _ _ H) as (o & -> & Hb & _). f_equal.
  apply (Hb (mkBlock (RangeV4 16909060 16909070) us)); [left|reflexivity].
Defined.

Lemma node_location_correct_witness :
  ∃ data4 data6 finder, compress_blocks sample_blocks = Ret (data4, data6) ∧
    CountryCodeFinder_new (Countries_new sample_pairs) data4 data6 = Ret finder ∧
    get_node_location (CL := finder_lookup finder) (Some (V6 1000)) = Some (mkNodeLocation "CZ").
Proof.
  destruct (node_location_correct sample_pairs sample_blocks (V6 1000) sample_blocks_ok
    ltac:(vm_compute; split; discriminate)) as (d4 & d6 & f & E & F & _ & H & _).
  exists d4, d6, f. split; [exact E|]. split; [exact F|].
  apply (H (mkBlock (RangeV6 7 (2 ^ 100)) cz)); [right; left|reflexivity].
Defined.
