(* ===== verification/AutomapPackets.v ===== *)
(** * The packets of the port mapping protocols

    Models [automap/src/protocols]: the byte helpers of [utils.rs], the PCP packet
    with its MAP opcode ([pcp/pcp_packet.rs], [pcp/map_packet.rs]) and the NAT-PMP
    packet with its GET and MAP opcodes ([pmp/pmp_packet.rs], [pmp/get_packet.rs],
    [pmp/map_packet.rs]).  A buffer that is written to is passed in and out. *)

From S2P Require Import Prelude.
From S2P Require Import Bytes.
From S2P Require Import NodeAddr.

(** ** [utils.rs] *)
Inductive Direction := Request | Response.

#[export] Instance Direction_eq_dec : EqDecision Direction.
Proof. solve_decision. Defined.

Definition Direction_from (input : Z) : Direction :=
  if 0 <? Z.land input 128 then Response else Request.

Definition Direction_code (d : Direction) : Z :=
  match d with Request => 0 | Response => 128 end.

Inductive ParseError :=
| WrongVersion (v : Z)
| ParseShortBuffer (required given : nat)
| UnexpectedOpcode (name : string).

Inductive MarshalError := MarshalShortBuffer (required given : nat).

Definition u32_at (buf : list Z) (offset : nat) : outcome Z :=
  b0 ← byte_at buf offset;
  b1 ← byte_at buf (offset + 1);
  b2 ← byte_at buf (offset + 2);
  b3 ← byte_at buf (offset + 3);
  mret (Z.shiftl b0 24 + Z.shiftl b1 16 + Z.shiftl b2 8 + b3).

Definition u32_into (buf : list Z) (offset : nat) (value : Z) : outcome (list Z) :=
  buf ← set_byte buf offset (u8 (Z.shiftr value 24));
  buf ← set_byte buf (offset + 1) (Z.land (Z.shiftr value 16) 255);
  buf ← set_byte buf (offset + 2) (Z.land (Z.shiftr value 8) 255);
  set_byte buf (offset + 3) (Z.land value 255).

Definition u16_at (buf : list Z) (offset : nat) : outcome Z :=
  b0 ← byte_at buf offset;
  b1 ← byte_at buf (offset + 1);
  mret (Z.shiftl b0 8 + b1).

Definition u16_into (buf : list Z) (offset : nat) (value : Z) : outcome (list Z) :=
  buf ← set_byte buf offset (u8 (Z.shiftr value 8));
  set_byte buf (offset + 1) (Z.land value 255).

(** [Ipv6Addr::to_ipv4]: IPv4-mapped and IPv4-compatible addresses. *)
Definition to_ipv4 (ip : Z) : option Z :=
  if bool_decide (ip / 2 ^ 32 = 0) || bool_decide (ip / 2 ^ 32 = 65535)
  then Some (ip mod 2 ^ 32) else None.

(** [Ipv4Addr::to_ipv6_mapped]. *)
Definition to_ipv6_mapped (ip : Z) : Z := 65535 * 2 ^ 32 + ip.

Definition ipv6_addr_at (buf : list Z) (offset : nat) : outcome IpAddr :=
  s0 ← u16_at buf offset;
  s1 ← u16_at buf (offset + 2);
  s2 ← u16_at buf (offset + 4);
  s3 ← u16_at buf (offset + 6);
  s4 ← u16_at buf (offset + 8);
  s5 ← u16_at buf (offset + 10);
  s6 ← u16_at buf (offset + 12);
  s7 ← u16_at buf (offset + 14);
  let ipv6_addr := from_parts 16 [s0; s1; s2; s3; s4; s5; s6; s7] in
  mret (match to_ipv4 ipv6_addr with Some ipv4_addr => V4 ipv4_addr | None => V6 ipv6_addr end).

Definition ipv6_addr_into (buf : list Z) (offset : nat) (value : IpAddr) : outcome (list Z) :=
  let ipv6_addr := match value with V4 addr => to_ipv6_mapped addr | V6 addr => addr end in
  put buf offset (parts 8 16 ipv6_addr).

Definition ipv4_addr_into (buf : list Z) (offset : nat) (value : Z) : outcome (list Z) :=
  put buf offset (parts 8 4 value).

(** ** [pcp/map_packet.rs] *)
Inductive Protocol := ProtocolUdp | ProtocolTcp | ProtocolOther (code : Z).

Definition Protocol_from (input : Z) : Protocol :=
  if input =? 6 then ProtocolTcp else if input =? 17 then ProtocolUdp else ProtocolOther input.

Definition Protocol_code (p : Protocol) : Z :=
  match p with ProtocolTcp => 6 | ProtocolUdp => 17 | ProtocolOther x => x end.

Record PcpMapOpcodeData := mkPcpMap {
  mapping_nonce : list Z;
  protocol : Protocol;
  pcp_internal_port : Z;
  pcp_external_port : Z;
  external_ip_address : IpAddr
}.

Definition pcp_map_len : nat := 36.

Definition pcp_map_marshal (d : PcpMapOpcodeData) (buf : list Z) :
    outcome (result unit MarshalError * list Z) :=
  if (length buf <? pcp_map_len)%nat
  then mret (Err (MarshalShortBuffer pcp_map_len (length buf)), buf)
  else
    buf ← put buf 0 (mapping_nonce d);
    buf ← set_byte buf 12 (Protocol_code (protocol d));
    buf ← set_byte buf 13 0;
    buf ← set_byte buf 14 0;
    buf ← set_byte buf 15 0;
    buf ← u16_into buf 16 (pcp_internal_port d);
    buf ← u16_into buf 18 (pcp_external_port d);
    buf ← ipv6_addr_into buf 20 (external_ip_address d);
    mret (Ok tt, buf).

Definition pcp_map_try_from (buffer : list Z) : outcome (result PcpMapOpcodeData ParseError) :=
  if (length buffer <? pcp_map_len)%nat
  then mret (Err (ParseShortBuffer pcp_map_len (length buffer)))
  else
    nonce ← slice buffer 0 12;
    p ← byte_at buffer 12;
    internal_port ← u16_at buffer 16;
    external_port ← u16_at buffer 18;
    ip ← ipv6_addr_at buffer 20;
    mret (Ok (mkPcpMap nonce (Protocol_from p) internal_port external_port ip)).

(** ** [pcp/pcp_packet.rs] *)
Inductive PcpOpcode := Announce | PcpMap | PcpPeer | PcpOther (code : Z).

Definition PcpOpcode_from (input : Z) : PcpOpcode :=
  let c := Z.land input 127 in
  if c =? 0 then Announce else if c =? 1 then PcpMap else if c =? 2 then PcpPeer else PcpOther c.

Definition PcpOpcode_code (o : PcpOpcode) : Z :=
  match o with
  | Announce => 0
  | PcpMap => 1
  | PcpPeer => 2
  | PcpOther code => Z.land code 127
  end.

(** [Box<dyn PcpOpcodeData>]: the two implementations of the trait. *)
Inductive PcpOpcodeData := PcpUnrecognizedData | PcpMapData (d : PcpMapOpcodeData).

Definition pcp_data_len (d : PcpOpcodeData) : nat :=
  match d with PcpUnrecognizedData => 0 | PcpMapData _ => pcp_map_len end.

Definition pcp_data_marshal (d : PcpOpcodeData) (buf : list Z) :
    outcome (result unit MarshalError * list Z) :=
  match d with
  | PcpUnrecognizedData => mret (Ok tt, buf)
  | PcpMapData d => pcp_map_marshal d buf
  end.

Definition pcp_parse_data (o : PcpOpcode) (buf : list Z) :
    outcome (result PcpOpcodeData ParseError) :=
  match o with
  | Announce => mret (Ok PcpUnrecognizedData)
  | PcpMap =>
      r ← pcp_map_try_from buf;
      mret (match r with Ok d => Ok (PcpMapData d) | Err e => Err e end)
  | PcpPeer => mret (Err (UnexpectedOpcode "Peer"))
  | PcpOther _ => mret (Ok PcpUnrecognizedData)
  end.

Inductive PcpResultCode :=
| PcpSuccess | UnsuppVersion | PcpNotAuthorized | MalformedRequest | UnsuppOpcode | UnsuppOption
| MalformedOption | PcpNetworkFailure | NoResources | UnsuppProtocol | UserExQuota
| CannotProvideExternal | AddressMismatch | ExcessiveRemotePeers | PcpOtherResult (code : Z).

Definition PcpResultCode_from (input : Z) : PcpResultCode :=
  match input with
  | 0 => PcpSuccess
  | 1 => UnsuppVersion
  | 2 => PcpNotAuthorized
  | 3 => MalformedRequest
  | 4 => UnsuppOpcode
  | 5 => UnsuppOption
  | 6 => MalformedOption
  | 7 => PcpNetworkFailure
  | 8 => NoResources
  | 9 => UnsuppProtocol
  | 10 => UserExQuota
  | 11 => CannotProvideExternal
  | 12 => AddressMismatch
  | 13 => ExcessiveRemotePeers
  | code => PcpOtherResult code
  end.

Definition PcpResultCode_code (r : PcpResultCode) : Z :=
  match r with
  | PcpSuccess => 0
  | UnsuppVersion => 1
  | PcpNotAuthorized => 2
  | MalformedRequest => 3
  | UnsuppOpcode => 4
  | UnsuppOption => 5
  | MalformedOption => 6
  | PcpNetworkFailure => 7
  | NoResources => 8
  | UnsuppProtocol => 9
  | UserExQuota => 10
  | CannotProvideExternal => 11
  | AddressMismatch => 12
  | ExcessiveRemotePeers => 13
  | PcpOtherResult code => code
  end.

Definition PcpResultCode_is_permanent (r : PcpResultCode) : bool :=
  match r with
  | PcpSuccess => false
  | UnsuppVersion => true
  | PcpNotAuthorized => true
  | MalformedRequest => true
  | UnsuppOpcode => true
  | UnsuppOption => true
  | MalformedOption => true
  | PcpNetworkFailure => false
  | NoResources => false
  | UnsuppProtocol => true
  | UserExQuota => false
  | CannotProvideExternal => false
  | AddressMismatch => true
  | ExcessiveRemotePeers => true
  | PcpOtherResult _ => true
  end.

(** [options] is always empty. *)
Record PcpPacket := mkPcpPacket {
  pcp_direction : Direction;
  pcp_opcode : PcpOpcode;
  pcp_result_code_opt : option PcpResultCode;
  pcp_lifetime : Z;
  client_ip_opt : option IpAddr;
  epoch_time_opt : option Z;
  pcp_opcode_data : PcpOpcodeData
}.

(** Bytes 8 to 24 of the header. *)
Definition pcp_address_into (buffer : list Z) (p : PcpPacket) : outcome (list Z) :=
  match pcp_direction p with
  | Request =>
      match client_ip_opt p with
      | Some ip_addr => ipv6_addr_into buffer 8 ip_addr
      | None =>
          buffer ← u32_into buffer 8 0;
          buffer ← u32_into buffer 12 0;
          buffer ← u32_into buffer 16 0;
          u32_into buffer 20 0
      end
  | Response =>
      buffer ← u32_into buffer 8 (default 0 (epoch_time_opt p));
      buffer ← u32_into buffer 12 0;
      buffer ← u32_into buffer 16 0;
      u32_into buffer 20 0
  end.

Definition pcp_marshal (p : PcpPacket) (buffer : list Z) :
    outcome (result nat MarshalError * list Z) :=
  let required_len := (24 + pcp_data_len (pcp_opcode_data p))%nat in
  if (length buffer <? required_len)%nat
  then mret (Err (MarshalShortBuffer required_len (length buffer)), buffer)
  else
    buffer ← set_byte buffer 0 2;
    buffer ← set_byte buffer 1 (Z.lor (Direction_code (pcp_direction p)) (PcpOpcode_code (pcp_opcode p)));
    buffer ← set_byte buffer 2 0;
    buffer ← set_byte buffer 3
      (match pcp_direction p with
       | Request => 0
       | Response => PcpResultCode_code (default (PcpOtherResult 255) (pcp_result_code_opt p))
       end);
    buffer ← u32_into buffer 4 (pcp_lifetime p);
    buffer ← pcp_address_into buffer p;
    tail ← slice_from buffer 24;
    r ← pcp_data_marshal (pcp_opcode_data p) tail;
    mret (match r.1 with Ok _ => Ok required_len | Err e => Err e end, splice_from buffer 24 r.2).

Definition pcp_try_from (buffer : list Z) : outcome (result PcpPacket ParseError) :=
  if (length buffer <? 24)%nat then mret (Err (ParseShortBuffer 24 (length buffer)))
  else
    version ← byte_at buffer 0;
    if decide (version ≠ 2) then mret (Err (WrongVersion version))
    else
      b1 ← byte_at buffer 1;
      let direction := Direction_from b1 in
      let opcode := PcpOpcode_from b1 in
      lifetime ← u32_at buffer 4;
      p ← match direction with
          | Request =>
              ip ← ipv6_addr_at buffer 8;
              mret (mkPcpPacket direction opcode None lifetime (Some ip) None PcpUnrecognizedData)
          | Response =>
              b3 ← byte_at buffer 3;
              epoch_time ← u32_at buffer 8;
              mret (mkPcpPacket direction opcode (Some (PcpResultCode_from b3)) lifetime None
                      (Some epoch_time) PcpUnrecognizedData)
          end;
      tail ← slice_from buffer 24;
      r ← pcp_parse_data opcode tail;
      mret (match r with
            | Ok data => Ok (mkPcpPacket (pcp_direction p) (pcp_opcode p) (pcp_result_code_opt p)
                               (pcp_lifetime p) (client_ip_opt p) (epoch_time_opt p) data)
            | Err e => Err e
            end).

(** ** [pmp/get_packet.rs] *)
Record GetOpcodeData := mkGetData {
  get_epoch_opt : option Z;
  external_ip_address_opt : option Z
}.

Definition get_data_len (direction : Direction) : nat :=
  match direction with Request => 0 | Response => 8 end.

Definition get_data_marshal (d : GetOpcodeData) (direction : Direction) (buf : list Z) :
    outcome (result unit MarshalError * list Z) :=
  match direction with
  | Request => mret (Ok tt, buf)
  | Response =>
      if (length buf <? 8)%nat then mret (Err (MarshalShortBuffer 8 (length buf)), buf)
      else
        buf ← u32_into buf 0 (default 0 (get_epoch_opt d));
        buf ← ipv4_addr_into buf 4 (default 0 (external_ip_address_opt d));
        mret (Ok tt, buf)
  end.

Definition get_data_try_from (direction : Direction) (buffer : list Z) :
    outcome (result GetOpcodeData ParseError) :=
  match direction with
  | Request => mret (Ok (mkGetData None None))
  | Response =>
      if (length buffer <? 8)%nat then mret (Err (ParseShortBuffer 8 (length buffer)))
      else
        epoch ← u32_at buffer 0;
        b4 ← byte_at buffer 4;
        b5 ← byte_at buffer 5;
        b6 ← byte_at buffer 6;
        b7 ← byte_at buffer 7;
        mret (Ok (mkGetData (Some epoch) (Some (from_parts 8 [b4; b5; b6; b7]))))
  end.

(** ** [pmp/map_packet.rs] *)
Record PmpMapOpcodeData := mkPmpMap {
  pmp_epoch_opt : option Z;
  pmp_internal_port : Z;
  pmp_external_port : Z;
  pmp_lifetime : Z
}.

Definition pmp_map_len (direction : Direction) : nat :=
  match direction with Request => 10 | Response => 12 end.

Definition pmp_map_marshal (d : PmpMapOpcodeData) (direction : Direction) (buf : list Z) :
    outcome (result unit MarshalError * list Z) :=
  if (length buf <? pmp_map_len direction)%nat
  then mret (Err (MarshalShortBuffer (pmp_map_len direction) (length buf)), buf)
  else
    p ← match direction with
        | Request => buf ← u16_into buf 0 0; mret (2%nat, buf)
        | Response => buf ← u32_into buf 0 (default 0 (pmp_epoch_opt d)); mret (4%nat, buf)
        end;
    let '(position, buf) := p in
    buf ← u16_into buf position (pmp_internal_port d);
    buf ← u16_into buf (position + 2) (pmp_external_port d);
    buf ← u32_into buf (position + 4) (pmp_lifetime d);
    mret (Ok tt, buf).

Definition pmp_map_try_from (direction : Direction) (buffer : list Z) :
    outcome (result PmpMapOpcodeData ParseError) :=
  if (length buffer <? pmp_map_len direction)%nat
  then mret (Err (ParseShortBuffer (pmp_map_len direction) (length buffer)))
  else
    p ← match direction with
        | Request => mret (None, 2%nat)
        | Response => epoch ← u32_at buffer 0; mret (Some epoch, 4%nat)
        end;
    let '(epoch_opt, position) := p in
    internal_port ← u16_at buffer position;
    external_port ← u16_at buffer (position + 2);
    lifetime ← u32_at buffer (position + 4);
    mret (Ok (mkPmpMap epoch_opt internal_port external_port lifetime)).

(** ** [pmp/pmp_packet.rs] *)
Inductive PmpOpcode := PmpGet | MapUdp | MapTcp | PmpOther (code : Z).

Definition PmpOpcode_from (input : Z) : PmpOpcode :=
  let c := Z.land input 127 in
  if c =? 0 then PmpGet else if c =? 1 then MapUdp else if c =? 2 then MapTcp else PmpOther c.

Definition PmpOpcode_code (o : PmpOpcode) : Z :=
  match o with
  | PmpGet => 0
  | MapUdp => 1
  | MapTcp => 2
  | PmpOther code => Z.land code 127
  end.

Inductive PmpOpcodeData :=
| PmpUnrecognizedData
| PmpGetData (d : GetOpcodeData)
| PmpMapData (d : PmpMapOpcodeData).

Definition pmp_data_len (d : PmpOpcodeData) (direction : Direction) : nat :=
  match d with
  | PmpUnrecognizedData => 0
  | PmpGetData _ => get_data_len direction
  | PmpMapData _ => pmp_map_len direction
  end.

Definition pmp_data_marshal (d : PmpOpcodeData) (direction : Direction) (buf : list Z) :
    outcome (result unit MarshalError * list Z) :=
  match d with
  | PmpUnrecognizedData => mret (Ok tt, buf)
  | PmpGetData d => get_data_marshal d direction buf
  | PmpMapData d => pmp_map_marshal d direction buf
  end.

Definition pmp_parse_data (o : PmpOpcode) (direction : Direction) (buf : list Z) :
    outcome (result PmpOpcodeData ParseError) :=
  match o with
  | PmpGet =>
      r ← get_data_try_from direction buf;
      mret (match r with Ok d => Ok (PmpGetData d) | Err e => Err e end)
  | MapUdp | MapTcp =>
      r ← pmp_map_try_from direction buf;
      mret (match r with Ok d => Ok (PmpMapData d) | Err e => Err e end)
  | PmpOther _ => mret (Ok PmpUnrecognizedData)
  end.

Inductive PmpResultCode :=
| PmpSuccess | UnsupportedVersion | PmpNotAuthorized | PmpNetworkFailure | OutOfResources
| UnsupportedOpcode | PmpOtherResult (code : Z).

Definition PmpResultCode_from (input : Z) : PmpResultCode :=
  match input with
  | 0 => PmpSuccess
  | 1 => UnsupportedVersion
  | 2 => PmpNotAuthorized
  | 3 => PmpNetworkFailure
  | 4 => OutOfResources
  | 5 => UnsupportedOpcode
  | code => PmpOtherResult code
  end.

Definition PmpResultCode_code (r : PmpResultCode) : Z :=
  match r with
  | PmpSuccess => 0
  | UnsupportedVersion => 1
  | PmpNotAuthorized => 2
  | PmpNetworkFailure => 3
  | OutOfResources => 4
  | UnsupportedOpcode => 5
  | PmpOtherResult code => code
  end.

Definition PmpResultCode_is_permanent (r : PmpResultCode) : bool :=
  match r with
  | PmpSuccess => false
  | UnsupportedVersion => true
  | PmpNotAuthorized => true
  | PmpNetworkFailure => false
  | OutOfResources => false
  | UnsupportedOpcode => true
  | PmpOtherResult _ => true
  end.

Record PmpPacket := mkPmpPacket {
  pmp_direction : Direction;
  pmp_opcode : PmpOpcode;
  pmp_result_code_opt : option PmpResultCode;
  pmp_opcode_data : PmpOpcodeData
}.

Definition pmp_try_from (buffer : list Z) : outcome (result PmpPacket ParseError) :=
  if (length buffer <? 2)%nat then mret (Err (ParseShortBuffer 2 (length buffer)))
  else
    version ← byte_at buffer 0;
    if decide (version ≠ 0) then mret (Err (WrongVersion version))
    else
      b1 ← byte_at buffer 1;
      let direction := Direction_from b1 in
      let opcode := PmpOpcode_from b1 in
      header ← match direction with
               | Request => mret (Ok (None, 2%nat))
               | Response =>
                   if (length buffer <? 4)%nat
                   then mret (Err (ParseShortBuffer 4 (length buffer)))
                   else code ← u16_at buffer 2; mret (Ok (Some (PmpResultCode_from code), 4%nat))
               end;
      match header with
      | Err e => mret (Err e)
      | Ok (result_code_opt, position) =>
          tail ← slice_from buffer position;
          r ← pmp_parse_data opcode direction tail;
          mret (match r with
                | Ok data => Ok (mkPmpPacket direction opcode result_code_opt data)
                | Err e => Err e
                end)
      end.

Definition pmp_marshal (p : PmpPacket) (buffer : list Z) :
    outcome (result nat MarshalError * list Z) :=
  let header_len := match pmp_direction p with Request => 2%nat | Response => 4%nat end in
  let required_len := (header_len + pmp_data_len (pmp_opcode_data p) (pmp_direction p))%nat in
  if (length buffer <? required_len)%nat
  then mret (Err (MarshalShortBuffer required_len (length buffer)), buffer)
  else
    buffer ← set_byte buffer 0 0;
    buffer ← set_byte buffer 1 (Z.lor (Direction_code (pmp_direction p)) (PmpOpcode_code (pmp_opcode p)));
    let result_code := default PmpSuccess (pmp_result_code_opt p) in
    q ← (if decide (pmp_direction p = Response)
         then buffer ← u16_into buffer 2 (PmpResultCode_code result_code); mret (4%nat, buffer)
         else mret (2%nat, buffer));
    let '(position, buffer) := q in
    tail ← slice_from buffer position;
    r ← pmp_data_marshal (pmp_opcode_data p) (pmp_direction p) tail;
    mret (match r.1 with Ok _ => Ok required_len | Err e => Err e end,
          splice_from buffer position r.2).
