(* ===== verification/AutomapFacts.v ===== *)
(** * Correctness of the port mapping packets

    Marshalling writes a fixed encoding of the packet and nothing else; parsing
    the encoding gives the packet back; no input makes a parser panic. *)

From S2P Require Import Prelude.
From S2P Require Import Bytes.
From S2P Require Import NodeAddr.
From S2P Require Import AutomapPackets.

(** ** Writing fields one after the other *)
Ltac buf_len :=
  unfold be16, be32; rewrite ?length_app, ?length_parts; cbn [length]; lia.

Lemma set_byte_filled pre buf off v :
  off = length pre → (length pre < length buf)%nat →
  set_byte (filled pre buf) off v = Ret (filled (pre ++ [v]) buf).
Proof.
  intros -> H. rewrite set_byte_put by (rewrite length_filled; lia).
  apply put_filled. simpl. lia.
Qed.

Lemma u16_into_filled pre buf off v :
  off = length pre → (length pre + 2 ≤ length buf)%nat →
  u16_into (filled pre buf) off v = Ret (filled (pre ++ be16 v) buf).
Proof.
  intros -> H. unfold u16_into.
  rewrite set_byte_filled by (done || lia). cbn [mbind outcome_bind].
  rewrite set_byte_filled by buf_len. rewrite be16_eq, <-app_assoc. cbn [app].
  unfold wrap. rewrite Z.shiftr_div_pow2, land_byte by lia. done.
Qed.

Lemma u32_into_filled pre buf off v :
  off = length pre → (length pre + 4 ≤ length buf)%nat →
  u32_into (filled pre buf) off v = Ret (filled (pre ++ be32 v) buf).
Proof.
  intros -> H. unfold u32_into.
  rewrite set_byte_filled by (done || lia). cbn [mbind outcome_bind].
  rewrite set_byte_filled by buf_len. cbn [mbind outcome_bind].
  rewrite set_byte_filled by buf_len. cbn [mbind outcome_bind].
  rewrite set_byte_filled by buf_len. rewrite be32_eq, <-!app_assoc. cbn [app].
  unfold wrap. rewrite !shr_byte, land_byte, Z.shiftr_div_pow2 by lia. done.
Qed.

Lemma put_filled_at pre buf off l :
  off = length pre → (length pre + length l ≤ length buf)%nat →
  put (filled pre buf) off l = Ret (filled (pre ++ l) buf).
Proof. intros ->. apply put_filled. Qed.

(** One write of a chain that starts from the untouched buffer. *)
Ltac fill_step :=
  first [ rewrite set_byte_filled by buf_len
        | rewrite u16_into_filled by buf_len
        | rewrite u32_into_filled by buf_len
        | rewrite put_filled_at by buf_len ];
  cbn [mbind outcome_bind mret outcome_ret].

(** ** Reading fields back *)
Lemma be16_value v : 0 ≤ v < 2 ^ 16 → Z.shiftl ((v / 256) mod 256) 8 + v mod 256 = v.
Proof.
  intros H. rewrite Z.shiftl_mul_pow2 by lia. change (2 ^ 8) with 256.
  rewrite (Z.mod_small (v / 256)) by (split; [apply Z.div_pos|apply Z.div_lt_upper_bound]; lia).
  pose proof (Z.div_mod v 256). lia.
Qed.

(** What a read depends on: the bytes from its offset on. *)
Lemma drop_lookup {A} (l : list A) off n i x :
  take n (drop off l) !! i = Some x → l !! (off + i)%nat = Some x.
Proof. intros H. rewrite <-lookup_drop. by apply lookup_take_Some in H as [H _]. Qed.

Lemma byte_at_drop buf off v rest : drop off buf = v :: rest → byte_at buf off = Ret v.
Proof.
  intros H. unfold byte_at. replace off with (off + 0)%nat at 1 by lia.
  by rewrite <-lookup_drop, H.
Qed.

Lemma u16_at_drop buf off v :
  take 2 (drop off buf) = be16 v → 0 ≤ v < 2 ^ 16 → u16_at buf off = Ret v.
Proof.
  intros H Hv. rewrite be16_eq in H. unfold u16_at, byte_at.
  replace off with (off + 0)%nat at 1 by lia.
  rewrite (drop_lookup buf off 2 0 ((v / 256) mod 256)), (drop_lookup buf off 2 1 (v mod 256)) by (by rewrite H).
  cbn [expect mbind outcome_bind mret outcome_ret]. by rewrite be16_value.
Qed.

Lemma be32_value v :
  0 ≤ v < 2 ^ 32 →
  Z.shiftl ((v / 2 ^ 24) mod 256) 24 + Z.shiftl ((v / 2 ^ 16) mod 256) 16 +
    Z.shiftl ((v / 256) mod 256) 8 + v mod 256 = v.
Proof.
  intros H. pose proof (from_parts_parts 8 4 v) as E. cbn [parts from_parts length] in E.
  change (2 ^ Z.of_nat (8 * 0)) with 1 in E. rewrite Z.div_1_r in E.
  rewrite (Z.mod_small v (2 ^ Z.of_nat (8 * 4))) in E by (change (2 ^ Z.of_nat (8 * 4)) with (2 ^ 32); lia). rewrite !Z.shiftl_mul_pow2 by lia.
  change (2 ^ Z.of_nat (8 * 3)) with (2 ^ 24) in E. change (2 ^ Z.of_nat (8 * 2)) with (2 ^ 16) in E.
  change (2 ^ Z.of_nat (8 * 1)) with 256 in E. change (2 ^ Z.of_nat 8) with 256 in E.
  change (2 ^ 8) with 256. lia.
Qed.

Lemma u32_at_drop buf off v :
  take 4 (drop off buf) = be32 v → 0 ≤ v < 2 ^ 32 → u32_at buf off = Ret v.
Proof.
  intros H Hv. rewrite be32_eq in H. unfold u32_at, byte_at.
  replace off with (off + 0)%nat at 1 by lia.
  rewrite (drop_lookup buf off 4 0 ((v / 2 ^ 24) mod 256)), (drop_lookup buf off 4 1 ((v / 2 ^ 16) mod 256)),
    (drop_lookup buf off 4 2 ((v / 256) mod 256)), (drop_lookup buf off 4 3 (v mod 256)) by (by rewrite H).
  cbn [expect mbind outcome_bind mret outcome_ret]. by rewrite be32_value.
Qed.

(** An address that is read back as it was written: IPv4-mapped and
    IPv4-compatible IPv6 addresses come back as IPv4 addresses. *)
Definition wire_ip (ip : IpAddr) : Prop :=
  match ip with
  | V4 a => 0 ≤ a < 2 ^ 32
  | V6 a => 0 ≤ a < 2 ^ 128 ∧ to_ipv4 a = None
  end.

Definition ip_as_v6 (ip : IpAddr) : Z := match ip with V4 a => to_ipv6_mapped a | V6 a => a end.

Lemma wire_ip_bounds ip : wire_ip ip → 0 ≤ ip_as_v6 ip < 2 ^ 128.
Proof. destruct ip as [a|a]; simpl; [unfold to_ipv6_mapped; lia|tauto]. Qed.

Lemma wire_ip_back ip :
  wire_ip ip →
  match to_ipv4 (ip_as_v6 ip) with Some a => V4 a | None => V6 (ip_as_v6 ip) end = ip.
Proof.
  destruct ip as [a|a]; simpl; [|by intros [_ ->]]. intros H. unfold to_ipv4, to_ipv6_mapped.
  rewrite Z.add_comm, Z.div_add, (Z.div_small a) by lia.
  rewrite (bool_decide_eq_true_2 (0 + 65535 = 65535)) by done. rewrite orb_true_r.
  rewrite Z.mod_add by lia. by rewrite Z.mod_small.
Qed.

(** Two octets make a segment. *)
Lemma segments_of_octets b0 b1 b2 b3 b4 b5 b6 b7 b8 b9 b10 b11 b12 b13 b14 b15 :
  from_parts 16 [Z.shiftl b0 8 + b1; Z.shiftl b2 8 + b3; Z.shiftl b4 8 + b5; Z.shiftl b6 8 + b7;
                 Z.shiftl b8 8 + b9; Z.shiftl b10 8 + b11; Z.shiftl b12 8 + b13; Z.shiftl b14 8 + b15] =
  from_parts 8 [b0; b1; b2; b3; b4; b5; b6; b7; b8; b9; b10; b11; b12; b13; b14; b15].
Proof.
  rewrite !Z.shiftl_mul_pow2 by lia. unfold from_parts. cbn [length].
  repeat match goal with |- context [2 ^ ?e] =>
    let v := eval vm_compute in (2 ^ e) in change (2 ^ e) with v end.
  ring.
Qed.

Lemma ipv6_addr_at_drop buf off ip :
  take 16 (drop off buf) = parts 8 16 (ip_as_v6 ip) → wire_ip ip →
  ipv6_addr_at buf off = Ret ip.
Proof.
  intros H Hip. pose proof (wire_ip_bounds ip Hip) as Hb.
  assert (E : from_parts 8 (parts 8 16 (ip_as_v6 ip)) = ip_as_v6 ip)
    by (rewrite from_parts_parts; by apply Z.mod_small).
  assert (Hl := length_parts 8 16 (ip_as_v6 ip)). revert H E Hl.
  generalize (parts 8 16 (ip_as_v6 ip)) as l. intros l H E Hl.
  do 16 (destruct l as [|? l]; [discriminate|]). destruct l; [|discriminate].
  rewrite <-segments_of_octets in E. unfold ipv6_addr_at, u16_at, byte_at.
  rewrite <-!Nat.add_assoc. replace off with (off + 0)%nat at 1 by lia. cbn [Nat.add].
  repeat (erewrite drop_lookup by (rewrite H; reflexivity); cbn [expect mbind outcome_bind]).
  cbn [mbind outcome_bind mret outcome_ret]. rewrite E. f_equal. by apply wire_ip_back.
Qed.

(** ** The bytes of a packet *)
Lemma slice_from_filled pre buf :
  (length pre ≤ length buf)%nat → slice_from (filled pre buf) (length pre) = Ret (drop (length pre) buf).
Proof. intros H. apply slice_from_app. Qed.

Lemma splice_from_filled pre w buf :
  splice_from (filled pre buf) (length pre) (filled w (drop (length pre) buf)) = filled (pre ++ w) buf.
Proof.
  unfold splice_from, filled. rewrite take_app_length, length_app, drop_drop, <-app_assoc. done.
Qed.

Definition pcp_map_wire (d : PcpMapOpcodeData) : list Z :=
  mapping_nonce d ++ [Protocol_code (protocol d); 0; 0; 0] ++ be16 (pcp_internal_port d) ++
  be16 (pcp_external_port d) ++ parts 8 16 (ip_as_v6 (external_ip_address d)).

Definition pcp_data_wire (d : PcpOpcodeData) : list Z :=
  match d with PcpUnrecognizedData => [] | PcpMapData d => pcp_map_wire d end.

Definition pcp_address_wire (p : PcpPacket) : list Z :=
  match pcp_direction p with
  | Request => match client_ip_opt p with Some ip => parts 8 16 (ip_as_v6 ip) | None => replicate 16 0 end
  | Response => be32 (default 0 (epoch_time_opt p)) ++ replicate 12 0
  end.

Definition pcp_header_wire (p : PcpPacket) : list Z :=
  [2; Z.lor (Direction_code (pcp_direction p)) (PcpOpcode_code (pcp_opcode p)); 0;
   match pcp_direction p with
   | Request => 0
   | Response => PcpResultCode_code (default (PcpOtherResult 255) (pcp_result_code_opt p))
   end] ++ be32 (pcp_lifetime p) ++ pcp_address_wire p.

Definition pcp_wire (p : PcpPacket) : list Z := pcp_header_wire p ++ pcp_data_wire (pcp_opcode_data p).

(** The nonce is an array of twelve bytes. *)
Definition pcp_data_sized (d : PcpOpcodeData) : Prop :=
  match d with PcpUnrecognizedData => True | PcpMapData d => length (mapping_nonce d) = 12%nat end.

Lemma length_pcp_address_wire p : length (pcp_address_wire p) = 16%nat.
Proof. unfold pcp_address_wire. destruct (pcp_direction p), (client_ip_opt p); done. Qed.

Lemma length_pcp_header_wire p : length (pcp_header_wire p) = 24%nat.
Proof. unfold pcp_header_wire. by rewrite !length_app, length_pcp_address_wire. Qed.

Lemma length_pcp_data_wire d : pcp_data_sized d → length (pcp_data_wire d) = pcp_data_len d.
Proof.
  destruct d as [|d]; [done|]. simpl. intros H. unfold pcp_map_wire.
  by rewrite !length_app, length_parts, H.
Qed.

Lemma pcp_data_marshal_spec d buf :
  pcp_data_sized d → (pcp_data_len d ≤ length buf)%nat →
  pcp_data_marshal d buf = Ret (Ok tt, filled (pcp_data_wire d) buf).
Proof.
  destruct d as [|d]; [done|]. simpl. intros Hn H. unfold pcp_map_marshal.
  destruct (Nat.ltb_spec (length buf) pcp_map_len); [lia|]. unfold pcp_map_len in *.
  rewrite <-(filled_nil buf) at 1. unfold ipv6_addr_into. fold (ip_as_v6 (external_ip_address d)).
  rewrite put_filled_at by (cbn [length]; lia). cbn [mbind outcome_bind app].
  repeat fill_step. unfold pcp_map_wire. by rewrite <-!app_assoc.
Qed.

Lemma pcp_address_into_filled pre buf p :
  length pre = 8%nat → (24 ≤ length buf)%nat →
  pcp_address_into (filled pre buf) p = Ret (filled (pre ++ pcp_address_wire p) buf).
Proof.
  intros Hp Hb. unfold pcp_address_into, pcp_address_wire.
  destruct (pcp_direction p), (client_ip_opt p) as [ip|]; unfold ipv6_addr_into;
    try fold (ip_as_v6 ip); repeat fill_step; by rewrite <-?app_assoc.
Qed.

Lemma pcp_marshal_spec p buf :
  pcp_data_sized (pcp_opcode_data p) →
  let n := (24 + pcp_data_len (pcp_opcode_data p))%nat in
  (n ≤ length buf)%nat → pcp_marshal p buf = Ret (Ok n, filled (pcp_wire p) buf).
Proof.
  intros Hs n Hn. unfold pcp_marshal. fold n. destruct (Nat.ltb_spec (length buf) n); [lia|].
  rewrite <-(filled_nil buf) at 1. repeat fill_step. cbn [app].
  rewrite pcp_address_into_filled by (buf_len || done). cbn [mbind outcome_bind app].
  match goal with |- context [filled ?l buf] =>
    change l with (pcp_header_wire p); rewrite <-(length_pcp_header_wire p) end.
  rewrite slice_from_filled by (rewrite length_pcp_header_wire; lia). cbn [mbind outcome_bind].
  rewrite pcp_data_marshal_spec by (done || rewrite length_drop, length_pcp_header_wire; lia).
  cbn [mbind outcome_bind mret outcome_ret fst snd]. by rewrite splice_from_filled.
Qed.

(** ** Parsing the bytes of a packet *)
Lemma Direction_from_lor d c :
  0 ≤ c < 128 → Direction_from (Z.lor (Direction_code d) c) = d.
Proof.
  intros H. unfold Direction_from. rewrite Z.land_lor_distr_l.
  assert (E : Z.land c 128 = 0).
  { apply Z.bits_inj_0. intros i. rewrite Z.land_spec. change 128 with (2 ^ 7).
    rewrite Z.pow2_bits_eqb by lia. destruct (Z.eqb_spec 7 i) as [<-|]; [|by rewrite andb_false_r].
    rewrite Z.bits_above_log2; [done|lia|]. destruct (Z.eq_dec c 0) as [->|]; [done|].
    apply Z.log2_lt_pow2; lia. }
  rewrite E. by destruct d.
Qed.

Lemma low_bits_lor d c : 0 ≤ c < 128 → Z.land (Z.lor (Direction_code d) c) 127 = c.
Proof.
  intros H. rewrite Z.land_lor_distr_l. change 127 with (Z.ones 7). rewrite !Z.land_ones by lia.
  rewrite (Z.mod_small c) by lia. by destruct d.
Qed.

(** Values that the wire can carry. *)
Definition wire_byte (v : Z) : Prop := 0 ≤ v < 2 ^ 8.
Definition wire_u16 (v : Z) : Prop := 0 ≤ v < 2 ^ 16.
Definition wire_u32 (v : Z) : Prop := 0 ≤ v < 2 ^ 32.

Definition pcp_map_wf (d : PcpMapOpcodeData) : Prop :=
  length (mapping_nonce d) = 12%nat ∧ Protocol_from (Protocol_code (protocol d)) = protocol d ∧
  wire_u16 (pcp_internal_port d) ∧ wire_u16 (pcp_external_port d) ∧ wire_ip (external_ip_address d).

(** A packet is the image of what a peer can send: the fields that its direction
    has, an opcode and a result code in the form the parser produces, and the data
    that goes with the opcode. *)
Definition pcp_wf (p : PcpPacket) : Prop :=
  wire_u32 (pcp_lifetime p) ∧
  match pcp_direction p with
  | Request =>
      pcp_result_code_opt p = None ∧ epoch_time_opt p = None ∧
      ∃ ip, client_ip_opt p = Some ip ∧ wire_ip ip
  | Response =>
      client_ip_opt p = None ∧
      (∃ r, pcp_result_code_opt p = Some r ∧ PcpResultCode_from (PcpResultCode_code r) = r) ∧
      ∃ e, epoch_time_opt p = Some e ∧ wire_u32 e
  end ∧
  match pcp_opcode p, pcp_opcode_data p with
  | Announce, PcpUnrecognizedData => True
  | PcpOther c, PcpUnrecognizedData => 3 ≤ c < 128
  | PcpMap, PcpMapData d => pcp_map_wf d
  | _, _ => False
  end.

Lemma pcp_map_parse d rest :
  pcp_map_wf d → pcp_map_try_from (pcp_map_wire d ++ rest) = Ret (Ok d).
Proof.
  destruct d as [nonce pr ip op ext]. unfold pcp_map_wf, pcp_map_wire, pcp_map_try_from. simpl.
  intros (Hn & Hpr & Hip & Hop & Hext).
  do 12 (destruct nonce as [|? nonce]; [discriminate|]). destruct nonce; [|discriminate].
  rewrite (proj2 (Nat.ltb_ge _ pcp_map_len)) by (unfold pcp_map_len; cbn; lia).
  unfold slice. rewrite decide_True by (cbn; lia). cbn [mbind outcome_bind mret outcome_ret].
  erewrite (byte_at_drop _ 12) by reflexivity. cbn [mbind outcome_bind].
  rewrite (u16_at_drop _ 16 ip), (u16_at_drop _ 18 op) by (reflexivity || done). cbn [mbind outcome_bind].
  rewrite (ipv6_addr_at_drop _ 20 ext) by (reflexivity || done). cbn [mbind outcome_bind mret outcome_ret].
  by rewrite Hpr.
Qed.

Lemma PcpOpcode_from_lor d o :
  (match o with PcpOther c => 3 ≤ c < 128 | _ => True end) →
  PcpOpcode_from (Z.lor (Direction_code d) (PcpOpcode_code o)) = o ∧
  Direction_from (Z.lor (Direction_code d) (PcpOpcode_code o)) = d.
Proof.
  intros H. destruct o as [| | |c]; [by destruct d..|]. simpl.
  change 127 with (Z.ones 7). rewrite Z.land_ones, Z.mod_small by lia.
  unfold PcpOpcode_from. rewrite low_bits_lor, Direction_from_lor by lia.
  destruct (Z.eqb_spec c 0), (Z.eqb_spec c 1), (Z.eqb_spec c 2); lia || done.
Qed.

Lemma pcp_wf_sized p : pcp_wf p → pcp_data_sized (pcp_opcode_data p).
Proof.
  intros (_ & _ & H). destruct (pcp_opcode p), (pcp_opcode_data p); try done. by destruct H.
Qed.

Lemma pcp_data_parse p rest :
  pcp_wf p → pcp_parse_data (pcp_opcode p) (pcp_data_wire (pcp_opcode_data p) ++ rest) =
    Ret (Ok (pcp_opcode_data p)).
Proof.
  intros (_ & _ & H). destruct (pcp_opcode p), (pcp_opcode_data p); try done.
  cbn [pcp_parse_data pcp_data_wire]. by rewrite pcp_map_parse.
Qed.

(** Reading the header at its fixed offsets. *)
Lemma pcp_parse p rest : pcp_wf p → pcp_try_from (pcp_wire p ++ rest) = Ret (Ok p).
Proof.
  intros Hwf. pose proof (pcp_data_parse p rest Hwf) as Hd. destruct Hwf as (Hl & Hdir & Ho).
  unfold pcp_wire. rewrite <-app_assoc. unfold pcp_try_from.
  destruct (Nat.ltb_spec (length (A:=Z) (pcp_header_wire p ++ pcp_data_wire (pcp_opcode_data p) ++ rest)) 24) as [H|_].
  { exfalso. rewrite length_app, length_pcp_header_wire in H. lia. }
  assert (Hc : match pcp_opcode p with PcpOther c => 3 ≤ c < 128 | _ => True end)
    by (destruct (pcp_opcode p), (pcp_opcode_data p); done).
  destruct (PcpOpcode_from_lor (pcp_direction p) (pcp_opcode p) Hc) as [E1 E2].
  assert (Hs : ∀ tl, slice_from (pcp_header_wire p ++ tl) 24 = Ret tl).
  { intros tl. rewrite <-(length_pcp_header_wire p). apply slice_from_app. }
  rewrite Hs. revert Hd. generalize (pcp_data_wire (pcp_opcode_data p) ++ rest) as tl. intros tl Hd.
  erewrite (byte_at_drop _ 0) by reflexivity. cbn [mbind outcome_bind]. rewrite decide_False by tauto.
  erewrite (byte_at_drop _ 1) by reflexivity. cbn [mbind outcome_bind]. rewrite E1, E2.
  rewrite (u32_at_drop _ 4 (pcp_lifetime p)) by (reflexivity || done). cbn [mbind outcome_bind].
  destruct p as [dir o rc l ip ep dat].
  cbn [pcp_direction pcp_opcode pcp_result_code_opt pcp_lifetime client_ip_opt epoch_time_opt pcp_opcode_data] in *.
  destruct dir.
  - destruct Hdir as (-> & -> & ip' & -> & Hip).
    rewrite (ipv6_addr_at_drop _ 8 ip') by (reflexivity || done). cbn [mbind outcome_bind mret outcome_ret].
    by rewrite Hd.
  - destruct Hdir as (-> & (r & -> & Hr) & e & -> & He).
    erewrite (byte_at_drop _ 3) by reflexivity. cbn [mbind outcome_bind].
    rewrite (u32_at_drop _ 8 e) by (reflexivity || done). cbn [mbind outcome_bind mret outcome_ret].
    rewrite Hd. simpl. by rewrite Hr.
Qed.

(** C35: marshalling a PCP packet into a buffer that is too short is an error that
    leaves the buffer alone; into any other buffer it writes the fixed encoding of
    the packet, leaves the bytes behind it alone and returns the length; and parsing
    what was written gives the packet back. *)
Theorem pcp_roundtrip p buf :
  pcp_wf p →
  let n := (24 + pcp_data_len (pcp_opcode_data p))%nat in
  ((length buf < n)%nat →
     pcp_marshal p buf = Ret (Err (MarshalShortBuffer n (length buf)), buf)) ∧
  ((n ≤ length buf)%nat →
     length (pcp_wire p) = n ∧
     pcp_marshal p buf = Ret (Ok n, pcp_wire p ++ drop n buf) ∧
     pcp_try_from (pcp_wire p ++ drop n buf) = Ret (Ok p)).
Proof.
  intros Hwf n. pose proof (pcp_wf_sized p Hwf) as Hs.
  assert (Hlen : length (pcp_wire p) = n).
  { unfold pcp_wire. by rewrite length_app, length_pcp_header_wire, length_pcp_data_wire. }
  split; intros H.
  - unfold pcp_marshal. fold n. by destruct (Nat.ltb_spec (length buf) n); [|lia].
  - rewrite pcp_marshal_spec by done. fold n. unfold filled. rewrite Hlen, pcp_parse by done. done.
Qed.

(** The request that maps port 5000, as it is sent, in a buffer of 64 bytes. *)
Definition sample_map_request : PcpPacket :=
  mkPcpPacket Request PcpMap None 600 (Some (V4 3232235777)) None
    (PcpMapData (mkPcpMap [1; 2; 3; 4; 5; 6; 7; 8; 9; 10; 11; 12] ProtocolTcp 5000 5000 (V4 0))).

Lemma pcp_roundtrip_witness :
  (60 ≤ length (replicate 64 7))%nat ∧
  pcp_marshal sample_map_request (replicate 64 7) = Ret (Ok 60%nat, pcp_wire sample_map_request ++ replicate 4 7).
Proof.
  split; [vm_compute; lia|].
  refine (proj1 (proj2 (proj2 (pcp_roundtrip sample_map_request (replicate 64 7) _) _))).
  - unfold pcp_wf, pcp_map_wf, wire_u32, wire_u16. simpl. split_and!; try (done || lia).
    exists (V4 3232235777). simpl. split; [done|lia].
  - vm_compute. lia.
Defined.

(** ** NAT-PMP *)
Definition pmp_data_wire (d : PmpOpcodeData) (direction : Direction) : list Z :=
  match d, direction with
  | PmpUnrecognizedData, _ | PmpGetData _, Request => []
  | PmpGetData d, Response =>
      be32 (default 0 (get_epoch_opt d)) ++ parts 8 4 (default 0 (external_ip_address_opt d))
  | PmpMapData d, _ =>
      match direction with Request => be16 0 | Response => be32 (default 0 (pmp_epoch_opt d)) end ++
      be16 (pmp_internal_port d) ++ be16 (pmp_external_port d) ++ be32 (pmp_lifetime d)
  end.

Definition pmp_header_wire (p : PmpPacket) : list Z :=
  [0; Z.lor (Direction_code (pmp_direction p)) (PmpOpcode_code (pmp_opcode p))] ++
  match pmp_direction p with
  | Request => []
  | Response => be16 (PmpResultCode_code (default PmpSuccess (pmp_result_code_opt p)))
  end.

Definition pmp_wire (p : PmpPacket) : list Z :=
  pmp_header_wire p ++ pmp_data_wire (pmp_opcode_data p) (pmp_direction p).

Definition pmp_header_len (p : PmpPacket) : nat :=
  match pmp_direction p with Request => 2 | Response => 4 end.

Lemma length_pmp_header_wire p : length (pmp_header_wire p) = pmp_header_len p.
Proof. unfold pmp_header_wire, pmp_header_len. by destruct (pmp_direction p). Qed.

Lemma length_pmp_data_wire d dir : length (pmp_data_wire d dir) = pmp_data_len d dir.
Proof. by destruct d, dir. Qed.

Lemma pmp_data_marshal_spec d dir buf :
  (pmp_data_len d dir ≤ length buf)%nat →
  pmp_data_marshal d dir buf = Ret (Ok tt, filled (pmp_data_wire d dir) buf).
Proof.
  intros H. destruct d as [|d|d], dir; try done; cbn [pmp_data_marshal pmp_data_len] in *.
  - unfold get_data_marshal. cbn [get_data_len] in H. rewrite (proj2 (Nat.ltb_ge _ _)) by lia.
    rewrite <-(filled_nil buf) at 1. unfold ipv4_addr_into. by repeat fill_step.
  - unfold pmp_map_marshal. cbn [pmp_map_len] in *. rewrite (proj2 (Nat.ltb_ge _ _)) by lia.
    rewrite <-(filled_nil buf) at 1. by repeat fill_step.
  - unfold pmp_map_marshal. cbn [pmp_map_len] in *. rewrite (proj2 (Nat.ltb_ge _ _)) by lia.
    rewrite <-(filled_nil buf) at 1. by repeat fill_step.
Qed.

Lemma pmp_marshal_spec p buf :
  let n := (pmp_header_len p + pmp_data_len (pmp_opcode_data p) (pmp_direction p))%nat in
  (n ≤ length buf)%nat → pmp_marshal p buf = Ret (Ok n, filled (pmp_wire p) buf).
Proof.
  intros n Hn. unfold pmp_marshal. fold (pmp_header_len p). fold n.
  rewrite (proj2 (Nat.ltb_ge _ _)) by lia. pose proof (length_pmp_header_wire p) as Hh.
  rewrite <-(filled_nil buf) at 1. cbv zeta.
  assert (Hl : (2 ≤ pmp_header_len p ∧ (pmp_direction p = Response → 4 ≤ pmp_header_len p))%nat)
    by (unfold pmp_header_len; destruct (pmp_direction p); split; done || lia).
  assert (Hb : (pmp_header_len p ≤ length buf)%nat) by lia. do 2 fill_step. cbn [app].
  transitivity (tail ← slice_from (filled (pmp_header_wire p) buf) (pmp_header_len p);
    r ← pmp_data_marshal (pmp_opcode_data p) (pmp_direction p) tail;
    Ret (match r.1 with Ok _ => Ok n | Err e => Err e end,
         splice_from (filled (pmp_header_wire p) buf) (pmp_header_len p) r.2)).
  - unfold pmp_header_wire, pmp_header_len in *. destruct (pmp_direction p).
    + by rewrite decide_False by done.
    + rewrite decide_True by done. destruct Hl as [_ Hl]. specialize (Hl eq_refl). by fill_step.
  - rewrite <-Hh, slice_from_filled by lia. cbn [mbind outcome_bind].
    rewrite pmp_data_marshal_spec by (rewrite length_drop; lia).
    cbn [mbind outcome_bind fst snd]. by rewrite splice_from_filled.
Qed.

(** Values that the wire can carry, as for PCP. *)
Definition pmp_wf (p : PmpPacket) : Prop :=
  match pmp_direction p with
  | Request => pmp_result_code_opt p = None
  | Response => ∃ r, pmp_result_code_opt p = Some r ∧ wire_u16 (PmpResultCode_code r) ∧
                     PmpResultCode_from (PmpResultCode_code r) = r
  end ∧
  match pmp_opcode p, pmp_opcode_data p with
  | PmpGet, PmpGetData d =>
      match pmp_direction p with
      | Request => d = mkGetData None None
      | Response => ∃ e a, d = mkGetData (Some e) (Some a) ∧ wire_u32 e ∧ wire_u32 a
      end
  | (MapUdp | MapTcp), PmpMapData d =>
      match pmp_direction p with
      | Request => pmp_epoch_opt d = None
      | Response => ∃ e, pmp_epoch_opt d = Some e ∧ wire_u32 e
      end ∧ wire_u16 (pmp_internal_port d) ∧ wire_u16 (pmp_external_port d) ∧ wire_u32 (pmp_lifetime d)
  | PmpOther c, PmpUnrecognizedData => 3 ≤ c < 128
  | _, _ => False
  end.

Lemma PmpOpcode_from_lor d o :
  (match o with PmpOther c => 3 ≤ c < 128 | _ => True end) →
  PmpOpcode_from (Z.lor (Direction_code d) (PmpOpcode_code o)) = o ∧
  Direction_from (Z.lor (Direction_code d) (PmpOpcode_code o)) = d.
Proof.
  intros H. destruct o as [| | |c]; [by destruct d..|]. simpl.
  change 127 with (Z.ones 7). rewrite Z.land_ones, Z.mod_small by lia.
  unfold PmpOpcode_from. rewrite low_bits_lor, Direction_from_lor by lia.
  destruct (Z.eqb_spec c 0), (Z.eqb_spec c 1), (Z.eqb_spec c 2); lia || done.
Qed.

Lemma octets_back a : wire_u32 a → from_parts 8 (parts 8 4 a) = a.
Proof. intros H. rewrite from_parts_parts. by apply Z.mod_small. Qed.

Lemma get_data_parse e a rest :
  wire_u32 e → wire_u32 a →
  get_data_try_from Response (pmp_data_wire (PmpGetData (mkGetData (Some e) (Some a))) Response ++ rest) =
    Ret (Ok (mkGetData (Some e) (Some a))).
Proof.
  intros He Ha. unfold get_data_try_from.
  rewrite (proj2 (Nat.ltb_ge _ _)) by (cbn; lia).
  rewrite (u32_at_drop _ 0 e) by (reflexivity || done). cbn [mbind outcome_bind].
  do 4 (erewrite byte_at_drop by reflexivity; cbn [mbind outcome_bind]).
  cbn [mret outcome_ret]. do 4 f_equal. exact (octets_back a Ha).
Qed.

Lemma pmp_map_parse d dir rest :
  match dir with
  | Request => pmp_epoch_opt d = None
  | Response => ∃ e, pmp_epoch_opt d = Some e ∧ wire_u32 e
  end →
  wire_u16 (pmp_internal_port d) → wire_u16 (pmp_external_port d) → wire_u32 (pmp_lifetime d) →
  pmp_map_try_from dir (pmp_data_wire (PmpMapData d) dir ++ rest) = Ret (Ok d).
Proof.
  destruct d as [ep ip op lt]. cbn [pmp_epoch_opt pmp_internal_port pmp_external_port pmp_lifetime].
  intros He Hip Hop Hlt. unfold pmp_map_try_from. destruct dir; cbn [pmp_map_len].
  - rewrite (proj2 (Nat.ltb_ge _ _)) by (cbn; lia). cbn [mbind outcome_bind mret outcome_ret Nat.add].
    rewrite (u16_at_drop _ 2 ip), (u16_at_drop _ 4 op), (u32_at_drop _ 6 lt) by (reflexivity || done).
    cbn [mbind outcome_bind mret outcome_ret]. by rewrite He.
  - destruct He as (e & -> & He). rewrite (proj2 (Nat.ltb_ge _ _)) by (cbn; lia).
    rewrite (u32_at_drop _ 0 e) by (reflexivity || done). cbn [mbind outcome_bind mret outcome_ret Nat.add].
    rewrite (u16_at_drop _ 4 ip), (u16_at_drop _ 6 op), (u32_at_drop _ 8 lt) by (reflexivity || done).
    done.
Qed.

Lemma pmp_data_parse p rest :
  pmp_wf p →
  pmp_parse_data (pmp_opcode p) (pmp_direction p) (pmp_data_wire (pmp_opcode_data p) (pmp_direction p) ++ rest) =
    Ret (Ok (pmp_opcode_data p)).
Proof.
  intros (_ & H). destruct (pmp_opcode p), (pmp_opcode_data p) as [|d|d]; try done; cbn [pmp_parse_data].
  - destruct (pmp_direction p); [by rewrite H|]. destruct H as (e & a & -> & He & Ha).
    by rewrite get_data_parse.
  - destruct H as (He & Hi & Ho & Hl). by rewrite pmp_map_parse.
  - destruct H as (He & Hi & Ho & Hl). by rewrite pmp_map_parse.
Qed.

Lemma pmp_parse p rest : pmp_wf p → pmp_try_from (pmp_wire p ++ rest) = Ret (Ok p).
Proof.
  intros Hwf. pose proof (pmp_data_parse p rest Hwf) as Hd. destruct Hwf as (Hr & Ho).
  unfold pmp_wire. rewrite <-app_assoc. unfold pmp_try_from.
  assert (Hc : match pmp_opcode p with PmpOther c => 3 ≤ c < 128 | _ => True end)
    by (destruct (pmp_opcode p), (pmp_opcode_data p); done).
  destruct (PmpOpcode_from_lor (pmp_direction p) (pmp_opcode p) Hc) as [E1 E2].
  assert (Hs : ∀ tl, slice_from (pmp_header_wire p ++ tl) (pmp_header_len p) = Ret tl).
  { intros tl. rewrite <-(length_pmp_header_wire p). apply slice_from_app. }
  revert Hd. generalize (pmp_data_wire (pmp_opcode_data p) (pmp_direction p) ++ rest) as tl. intros tl Hd.
  rewrite (proj2 (Nat.ltb_ge _ _)) by (unfold pmp_header_wire; cbn; lia).
  erewrite (byte_at_drop _ 0) by reflexivity. cbn [mbind outcome_bind]. rewrite decide_False by tauto.
  erewrite (byte_at_drop _ 1) by reflexivity. cbn [mbind outcome_bind]. rewrite E1, E2.
  destruct p as [dir o rc dat]. unfold pmp_header_len in Hs.
  cbn [pmp_direction pmp_opcode pmp_result_code_opt pmp_opcode_data] in *. destruct dir.
  - cbn [mbind outcome_bind mret outcome_ret]. rewrite Hs. cbn [mbind outcome_bind].
    rewrite Hd. by subst rc.
  - destruct Hr as (r & -> & Hb & Hr).
    rewrite (proj2 (Nat.ltb_ge _ _)) by (unfold pmp_header_wire; cbn; lia).
    rewrite (u16_at_drop _ 2 (PmpResultCode_code r)) by (reflexivity || done).
    cbn [mbind outcome_bind mret outcome_ret]. rewrite Hs. cbn [mbind outcome_bind].
    rewrite Hd. cbn. by rewrite Hr.
Qed.

(** the same for a NAT-PMP packet. *)
Theorem pmp_roundtrip p buf :
  pmp_wf p →
  let n := (match pmp_direction p with Request => 2 | Response => 4 end +
            pmp_data_len (pmp_opcode_data p) (pmp_direction p))%nat in
  ((length buf < n)%nat →
     pmp_marshal p buf = Ret (Err (MarshalShortBuffer n (length buf)), buf)) ∧
  ((n ≤ length buf)%nat →
     length (pmp_wire p) = n ∧
     pmp_marshal p buf = Ret (Ok n, pmp_wire p ++ drop n buf) ∧
     pmp_try_from (pmp_wire p ++ drop n buf) = Ret (Ok p)).
Proof.
  intros Hwf. fold (pmp_header_len p). intros n.
  assert (Hlen : length (pmp_wire p) = n).
  { unfold pmp_wire. by rewrite length_app, length_pmp_header_wire, length_pmp_data_wire. }
  split; intros H.
  - unfold pmp_marshal. fold (pmp_header_len p). fold n. by rewrite (proj2 (Nat.ltb_lt _ _)).
  - rewrite pmp_marshal_spec by done. fold n. unfold filled. rewrite Hlen, pmp_parse by done. done.
Qed.

(** The answer to the request for the public address. *)
Definition sample_get_response : PmpPacket :=
  mkPmpPacket Response PmpGet (Some PmpSuccess) (PmpGetData (mkGetData (Some 1234) (Some 16909060))).

Lemma pmp_roundtrip_witness :
  pmp_wf sample_get_response ∧ pmp_try_from (pmp_wire sample_get_response) = Ret (Ok sample_get_response).
Proof.
  assert (Hwf : pmp_wf sample_get_response).
  { split; simpl; [by exists PmpSuccess|]. exists 1234, 16909060. unfold wire_u32. split_and!; done || lia. }
  split; [done|].
  exact (proj2 (proj2 (proj2 (pmp_roundtrip sample_get_response (replicate 12 0) Hwf) (le_n _)))).
Defined.

(** ** Parsing arbitrary bytes *)
Lemma byte_at_total buf i :
  Forall wire_byte buf → (i < length buf)%nat → returns (byte_at buf i) wire_byte.
Proof.
  intros Hf Hi. apply returns_expect. destruct (lookup_lt_is_Some_2 buf i Hi) as [b Hb].
  exists b. split; [done|]. exact (Forall_lookup_1 _ _ _ _ Hf Hb).
Qed.

Ltac read_byte := ret_via ltac:(apply byte_at_total; [done|lia]).

Lemma u16_at_total buf i :
  Forall wire_byte buf → (i + 2 ≤ length buf)%nat → returns (u16_at buf i) wire_u16.
Proof.
  intros Hf Hi. unfold u16_at. read_byte. intros a Ha. read_byte. intros b Hb. apply returns_ret.
  unfold wire_byte, wire_u16 in *. rewrite Z.shiftl_mul_pow2; lia.
Qed.

Lemma u32_at_total buf i :
  Forall wire_byte buf → (i + 4 ≤ length buf)%nat → returns (u32_at buf i) wire_u32.
Proof.
  intros Hf Hi. unfold u32_at. read_byte. intros a Ha. read_byte. intros b Hb.
  read_byte. intros c Hc. read_byte. intros d Hd. apply returns_ret.
  unfold wire_byte, wire_u32 in *. rewrite !Z.shiftl_mul_pow2; lia.
Qed.

Ltac read_u16 := ret_via ltac:(apply u16_at_total; [done|lia]).
Ltac read_u32 := ret_via ltac:(apply u32_at_total; [done|lia]).

Lemma wire_ip_of_v6 a :
  0 ≤ a < 2 ^ 128 → wire_ip (match to_ipv4 a with Some a => V4 a | None => V6 a end).
Proof.
  intros H. destruct (to_ipv4 a) as [b|] eqn:E; [|done]. unfold to_ipv4 in E.
  destruct (_ || _); [|done]. injection E as <-. apply Z.mod_pos_bound. lia.
Qed.

Lemma ipv6_addr_at_total buf i :
  Forall wire_byte buf → (i + 16 ≤ length buf)%nat → returns (ipv6_addr_at buf i) wire_ip.
Proof.
  intros Hf Hi. unfold ipv6_addr_at.
  read_u16. intros s0 H0. read_u16. intros s1 H1. read_u16. intros s2 H2. read_u16. intros s3 H3.
  read_u16. intros s4 H4. read_u16. intros s5 H5. read_u16. intros s6 H6. read_u16. intros s7 H7.
  cbv zeta. apply returns_ret, wire_ip_of_v6.
  apply (from_parts_bounds 16 [s0; s1; s2; s3; s4; s5; s6; s7]).
  do 8 (apply Forall_cons_2; [assumption|]). apply Forall_nil_2.
Qed.

Lemma Protocol_stable b : Protocol_from (Protocol_code (Protocol_from b)) = Protocol_from b.
Proof.
  unfold Protocol_from. destruct (Z.eqb_spec b 6); [done|]. destruct (Z.eqb_spec b 17); [done|]. simpl.
  destruct (Z.eqb_spec b 6), (Z.eqb_spec b 17); done.
Qed.

Lemma PcpResultCode_stable b :
  PcpResultCode_from (PcpResultCode_code (PcpResultCode_from b)) = PcpResultCode_from b.
Proof. destruct b as [|p|p]; try done. do 4 (destruct p; try done). Qed.

Lemma PmpResultCode_stable b :
  PmpResultCode_code (PmpResultCode_from b) = b ∧
  PmpResultCode_from (PmpResultCode_code (PmpResultCode_from b)) = PmpResultCode_from b.
Proof. destruct b as [|p|p]; try done. do 3 (destruct p; try done). Qed.

Lemma pcp_map_try_from_total buf :
  Forall wire_byte buf → returns (pcp_map_try_from buf) (λ r, ∀ d, r = Ok d → pcp_map_wf d).
Proof.
  intros Hf. unfold pcp_map_try_from. destruct (Nat.ltb_spec (length buf) pcp_map_len) as [H|H].
  { by apply returns_ret. }
  unfold pcp_map_len in H. unfold slice. rewrite decide_True by lia.
  apply returns_bind, returns_ret. read_byte. intros pr Hpr. read_u16. intros ip Hip.
  read_u16. intros op Hop. ret_via ltac:(apply ipv6_addr_at_total; [done|lia]). intros ext Hext.
  apply returns_ret. intros d [= <-]. unfold pcp_map_wf. simpl.
  split_and!; [|apply Protocol_stable|done|done|done].
  rewrite length_take. unfold skipn. lia.
Qed.

Lemma low_opcode b : wire_byte b → 0 ≤ Z.land b 127 < 128.
Proof. intros H. change 127 with (Z.ones 7). rewrite Z.land_ones by lia. apply Z.mod_pos_bound. lia. Qed.

Lemma PcpOpcode_from_other b c : wire_byte b → PcpOpcode_from b = PcpOther c → 3 ≤ c < 128.
Proof.
  intros H. pose proof (low_opcode b H). unfold PcpOpcode_from.
  destruct (Z.eqb_spec (Z.land b 127) 0), (Z.eqb_spec (Z.land b 127) 1),
    (Z.eqb_spec (Z.land b 127) 2); intros [= <-]; lia.
Qed.

Lemma PmpOpcode_from_other b c : wire_byte b → PmpOpcode_from b = PmpOther c → 3 ≤ c < 128.
Proof.
  intros H. pose proof (low_opcode b H). unfold PmpOpcode_from.
  destruct (Z.eqb_spec (Z.land b 127) 0), (Z.eqb_spec (Z.land b 127) 1),
    (Z.eqb_spec (Z.land b 127) 2); intros [= <-]; lia.
Qed.

(** The data that a parser of an opcode produces goes with the opcode. *)
Lemma pcp_parse_data_total o buf :
  Forall wire_byte buf → match o with PcpOther c => 3 ≤ c < 128 | _ => True end →
  returns (pcp_parse_data o buf) (λ r, ∀ d, r = Ok d →
    match o, d with
    | Announce, PcpUnrecognizedData => True
    | PcpOther c, PcpUnrecognizedData => 3 ≤ c < 128
    | PcpMap, PcpMapData d => pcp_map_wf d
    | _, _ => False
    end).
Proof.
  intros Hf Ho. destruct o; cbn [pcp_parse_data]; try (apply returns_ret; intros ? [= <-]; done).
  ret_via ltac:(by apply pcp_map_try_from_total). intros [d|e] Hd; apply returns_ret; [|done].
  intros ? [= <-]. by apply Hd.
Qed.

Lemma slice_from_total buf from :
  Forall wire_byte buf → (from ≤ length buf)%nat → returns (slice_from buf from) (Forall wire_byte).
Proof.
  intros Hf H. unfold slice_from. rewrite decide_True by done. apply returns_ret. by apply Forall_drop.
Qed.

Lemma pcp_try_from_total buf :
  Forall wire_byte buf → returns (pcp_try_from buf) (λ r, ∀ p, r = Ok p → pcp_wf p).
Proof.
  intros Hf. unfold pcp_try_from. destruct (Nat.ltb_spec (length buf) 24) as [H|H].
  { by apply returns_ret. }
  read_byte. intros v _. destruct (decide (v ≠ 2)) as [|_]; [by apply returns_ret|].
  read_byte. intros b1 Hb1. cbv zeta. read_u32. intros lt Hlt.
  ret_via ltac:(instantiate (1 := λ p, pcp_opcode p = PcpOpcode_from b1 ∧
    ∀ d, match pcp_opcode p, d with
         | Announce, PcpUnrecognizedData => True
         | PcpOther c, PcpUnrecognizedData => 3 ≤ c < 128
         | PcpMap, PcpMapData d => pcp_map_wf d
         | _, _ => False
         end → pcp_wf (mkPcpPacket (pcp_direction p) (pcp_opcode p) (pcp_result_code_opt p)
                         (pcp_lifetime p) (client_ip_opt p) (epoch_time_opt p) d))).
  { destruct (Direction_from b1).
    - ret_via ltac:(apply ipv6_addr_at_total; [done|lia]). intros ip Hip. apply returns_ret.
      split; [done|]. intros d Hd. unfold pcp_wf. simpl. split_and!; try done.
      by exists ip.
    - read_byte. intros b3 _. read_u32. intros e He. apply returns_ret.
      split; [done|]. intros d Hd. unfold pcp_wf. simpl. split_and!; try done.
      + eexists. split; [done|]. apply PcpResultCode_stable.
      + by exists e. }
  intros p [Eo Hp]. ret_via ltac:(apply slice_from_total; [done|lia]). intros tail Ht.
  ret_via ltac:(apply pcp_parse_data_total; [done|]).
  { destruct (PcpOpcode_from b1) eqn:E; try done. by apply (PcpOpcode_from_other b1). }
  intros [d|e] Hd; apply returns_ret; [|done]. intros ? [= <-]. apply Hp. rewrite Eo.
  by apply Hd.
Qed.

Definition get_data_wf (dir : Direction) (d : GetOpcodeData) : Prop :=
  match dir with
  | Request => d = mkGetData None None
  | Response => ∃ e a, d = mkGetData (Some e) (Some a) ∧ wire_u32 e ∧ wire_u32 a
  end.

Definition pmp_map_wf (dir : Direction) (d : PmpMapOpcodeData) : Prop :=
  match dir with
  | Request => pmp_epoch_opt d = None
  | Response => ∃ e, pmp_epoch_opt d = Some e ∧ wire_u32 e
  end ∧ wire_u16 (pmp_internal_port d) ∧ wire_u16 (pmp_external_port d) ∧ wire_u32 (pmp_lifetime d).

Lemma get_data_try_from_total dir buf :
  Forall wire_byte buf → returns (get_data_try_from dir buf) (λ r, ∀ d, r = Ok d → get_data_wf dir d).
Proof.
  intros Hf. unfold get_data_try_from. destruct dir; [apply returns_ret; by intros ? [= <-]|].
  destruct (Nat.ltb_spec (length buf) 8) as [H|H]; [by apply returns_ret|].
  read_u32. intros e He. read_byte. intros b4 H4. read_byte. intros b5 H5.
  read_byte. intros b6 H6. read_byte. intros b7 H7. apply returns_ret. intros ? [= <-].
  exists e, (from_parts 8 [b4; b5; b6; b7]). split; [done|]. split; [done|].
  apply (from_parts_bounds 8 [b4; b5; b6; b7]). do 4 (apply Forall_cons_2; [assumption|]). apply Forall_nil_2.
Qed.

Lemma pmp_map_try_from_total dir buf :
  Forall wire_byte buf → returns (pmp_map_try_from dir buf) (λ r, ∀ d, r = Ok d → pmp_map_wf dir d).
Proof.
  intros Hf. unfold pmp_map_try_from. destruct (Nat.ltb_spec (length buf) (pmp_map_len dir)) as [H|H].
  { by apply returns_ret. }
  destruct dir; cbn [pmp_map_len] in H.
  - apply returns_bind, returns_ret. read_u16. intros ip Hip. read_u16. intros op Hop.
    read_u32. intros lt Hlt. apply returns_ret. by intros ? [= <-].
  - apply returns_bind. read_u32. intros e He. apply returns_ret.
    read_u16. intros ip Hip. read_u16. intros op Hop. read_u32. intros lt Hlt.
    apply returns_ret. intros ? [= <-]. split; [by exists e|done].
Qed.

Lemma pmp_parse_data_total o dir buf :
  Forall wire_byte buf → match o with PmpOther c => 3 ≤ c < 128 | _ => True end →
  returns (pmp_parse_data o dir buf) (λ r, ∀ d, r = Ok d →
    match o, d with
    | PmpGet, PmpGetData d => get_data_wf dir d
    | (MapUdp | MapTcp), PmpMapData d => pmp_map_wf dir d
    | PmpOther c, PmpUnrecognizedData => 3 ≤ c < 128
    | _, _ => False
    end).
Proof.
  intros Hf Ho. destruct o; cbn [pmp_parse_data].
  - ret_via ltac:(by apply get_data_try_from_total). intros [d|e] Hd; apply returns_ret; [|done].
    intros ? [= <-]. by apply Hd.
  - ret_via ltac:(by apply pmp_map_try_from_total). intros [d|e] Hd; apply returns_ret; [|done].
    intros ? [= <-]. by apply Hd.
  - ret_via ltac:(by apply pmp_map_try_from_total). intros [d|e] Hd; apply returns_ret; [|done].
    intros ? [= <-]. by apply Hd.
  - apply returns_ret. by intros ? [= <-].
Qed.

(** The bytes between the opcode and the data: the result code of a response. *)
Lemma pmp_result_total dir buf b1 :
  Forall wire_byte buf → wire_byte b1 →
  (match dir with Request => 2 | Response => 4 end ≤ length buf)%nat →
  ∀ rc, (match dir with
         | Request => rc = None
         | Response => ∃ r, rc = Some r ∧ wire_u16 (PmpResultCode_code r) ∧
                            PmpResultCode_from (PmpResultCode_code r) = r
         end) →
  returns (tail ← slice_from buf (match dir with Request => 2 | Response => 4 end);
           r ← pmp_parse_data (PmpOpcode_from b1) dir tail;
           mret (match r with
                 | Ok data => Ok (mkPmpPacket dir (PmpOpcode_from b1) rc data)
                 | Err e => Err e
                 end))
    (λ r, ∀ p, r = Ok p → pmp_wf p).
Proof.
  intros Hf Hb Hl rc Hrc. ret_via ltac:(by apply slice_from_total). intros tail Ht.
  ret_via ltac:(apply pmp_parse_data_total; [done|]).
  { destruct (PmpOpcode_from b1) eqn:E; try done. by apply (PmpOpcode_from_other b1). }
  intros [d|e] Hd; apply returns_ret; [|done]. intros ? [= <-]. split; [exact Hrc|].
  specialize (Hd d eq_refl). simpl. by destruct (PmpOpcode_from b1), d.
Qed.

Lemma pmp_try_from_total buf :
  Forall wire_byte buf → returns (pmp_try_from buf) (λ r, ∀ p, r = Ok p → pmp_wf p).
Proof.
  intros Hf. unfold pmp_try_from. destruct (Nat.ltb_spec (length buf) 2) as [H|H].
  { by apply returns_ret. }
  read_byte. intros v _. destruct (decide (v ≠ 0)) as [|_]; [by apply returns_ret|].
  read_byte. intros b1 Hb1. cbv zeta. destruct (Direction_from b1).
  - apply returns_bind, returns_ret. by apply (pmp_result_total Request).
  - destruct (Nat.ltb_spec (length buf) 4) as [H4|H4]; [by apply returns_bind, returns_ret, returns_ret|].
    apply returns_bind. read_u16. intros code Hc. apply returns_ret. apply (pmp_result_total Response); [done..|].
    eexists. destruct (PmpResultCode_stable code) as [E E']. rewrite E in *. split_and!; done.
Qed.

(** C36: whatever bytes arrive, neither parser panics, and a packet that a parser
    accepts is well formed: its ports, lifetimes, epochs and addresses are in range
    and its fields are those that its direction and opcode have. *)
Theorem packet_parse_total buf :
  Forall wire_byte buf →
  (∃ r, pcp_try_from buf = Ret r ∧ ∀ p, r = Ok p → pcp_wf p) ∧
  (∃ r, pmp_try_from buf = Ret r ∧ ∀ p, r = Ok p → pmp_wf p).
Proof.
  intros Hf. split; apply returns_inv; [by apply pcp_try_from_total|by apply pmp_try_from_total].
Qed.

Lemma packet_parse_total_witness :
  Forall wire_byte [0; 128; 0; 3; 0; 0] ∧ ∃ r, pmp_try_from [0; 128; 0; 3; 0; 0] = Ret r.
Proof.
  assert (H : Forall wire_byte [0; 128; 0; 3; 0; 0])
    by (do 6 (apply Forall_cons_2; [unfold wire_byte; lia|]); apply Forall_nil_2).
  split; [done|]. destruct (packet_parse_total _ H) as [_ (r & Hr & _)]. by exists r.
Defined.
