(* ===== verification/Sequencing.v ===== *)
(** * Sequenced packets

    Models [node/src/sub_lib/sequence_buffer.rs] (the packet of a stream, its byte
    form, and the buffer that puts packets back in order) and [sequencer.rs] (where
    the numbers come from).  Logging is left out.

    Sequence numbers are [u64]; their arithmetic wraps around, as in a release
    build. *)

From S2P Require Import Prelude.
From S2P Require Import Bytes.

Record SequencedPacket := mkPacket {
  data : list Z;
  sequence_number : Z;
  last_data : bool
}.

#[export] Instance SequencedPacket_eq_dec : EqDecision SequencedPacket.
Proof. solve_decision. Defined.

(** ** [SequencedPacketVisitor] and the [Serialize] instance *)
Inductive SerdeError :=
| CantDeserializeBool (b : Z)
| CantMakeU64 (len : nat)
| CantSerializeU64 (len : nat).

(** [result = (result << 8) + byte] for each byte. *)
Definition u64_from (bytes : list Z) : result Z SerdeError :=
  if decide (length bytes ≠ 8%nat) then Err (CantMakeU64 (length bytes))
  else Ok (fold_left (λ result byte, u64 (Z.shiftl result 8) + byte) bytes 0).

(** The loop runs from the last byte to the first one. *)
Definition u64_to (value : Z) (buf : list Z) : outcome (result unit SerdeError * list Z) :=
  if decide (length buf ≠ 8%nat) then mret (Err (CantSerializeU64 (length buf)), buf)
  else
    p ← fold_outcome
      (λ p idx,
        buf ← set_byte p.2 (7 - idx) (Z.land p.1 255);
        mret (Z.shiftr p.1 8, buf))
      (seq 0 8) (value, buf);
    mret (Ok tt, p.2).

Definition packet_serialize (p : SequencedPacket) : outcome (result (list Z) SerdeError) :=
  let bytes := replicate (length (data p) + 9) 0 in
  bytes ← set_byte bytes 0 (if last_data p then 1 else 0);
  number ← slice bytes 1 9;
  r ← u64_to (sequence_number p) number;
  bytes ← put bytes 1 r.2;
  match r.1 with
  | Err e => mret (Err e)
  | Ok _ => bytes ← put bytes 9 (data p); mret (Ok bytes)
  end.

Definition visit_bytes (v : list Z) : outcome (result SequencedPacket SerdeError) :=
  b ← byte_at v 0;
  match (if b =? 0 then Some false else if b =? 1 then Some true else None) with
  | None => mret (Err (CantDeserializeBool b))
  | Some last_data =>
      number ← slice v 1 9;
      match u64_from number with
      | Err e => mret (Err e)
      | Ok sequence_number =>
          rest ← slice_from v 9;
          mret (Ok (mkPacket rest sequence_number last_data))
      end
  end.

(** ** [Sequencer] *)
Record Sequencer := mkSequencer { current_sequence_number : Z }.

Definition Sequencer_new : Sequencer := mkSequencer 0.

Definition next_sequence_number (s : Sequencer) : Z * Sequencer :=
  (current_sequence_number s, mkSequencer (u64 (current_sequence_number s + 1))).

(** ** [BinaryHeap<SequencedPacket>], ordered by descending sequence number: the
    packet with the least number is the greatest element.  Of equal elements any
    one may come first; [SequenceBuffer] never holds two packets with one number. *)
Fixpoint heap_push (heap : list SequencedPacket) (p : SequencedPacket) : list SequencedPacket :=
  match heap with
  | [] => [p]
  | q :: heap' =>
      if sequence_number p <? sequence_number q then p :: heap else q :: heap_push heap' p
  end.

(** ** [SequenceBuffer] *)
Record SequenceBuffer := mkSequenceBuffer {
  buffer : list SequencedPacket;
  next_expected_sequence_number : Z;
  seen_sequence_numbers : list Z
}.

Definition SequenceBuffer_new : SequenceBuffer := mkSequenceBuffer [] 0 [].

Definition sb_push (b : SequenceBuffer) (packet : SequencedPacket) : SequenceBuffer :=
  if (next_expected_sequence_number b <=? sequence_number packet) &&
     negb (bool_decide (sequence_number packet ∈ seen_sequence_numbers b))
  then mkSequenceBuffer (heap_push (buffer b) packet) (next_expected_sequence_number b)
         (seen_sequence_numbers b ++ [sequence_number packet])
  else b.

(** [Vec::remove]. *)
Definition remove_at (i : nat) (l : list Z) : list Z := take i l ++ drop (S i) l.

Definition sb_poll (b : SequenceBuffer) : option SequencedPacket * SequenceBuffer :=
  match buffer b with
  | [] => (None, b)
  | packet :: rest =>
      let sequence_number_to_pop := sequence_number packet in
      if decide (sequence_number_to_pop = next_expected_sequence_number b)
      then
        (Some packet,
         mkSequenceBuffer rest (u64 (next_expected_sequence_number b + 1))
           (match index_of (seen_sequence_numbers b) [sequence_number_to_pop] with
            | Some index => remove_at index (seen_sequence_numbers b)
            | None => seen_sequence_numbers b
            end))
      else (None, b)
  end.

Definition sb_repush (b : SequenceBuffer) (packet : SequencedPacket) : outcome SequenceBuffer :=
  if decide (sequence_number packet ≠ u64 (next_expected_sequence_number b - 1))
  then Panic "improper use of repush"
  else mret (mkSequenceBuffer (heap_push (buffer b) packet) (sequence_number packet)
               (seen_sequence_numbers b ++ [sequence_number packet])).

Definition next_expected (b : SequenceBuffer) : Z := next_expected_sequence_number b.

Definition sb_len (b : SequenceBuffer) : nat := length (buffer b).

Definition sb_is_empty (b : SequenceBuffer) : bool := (sb_len b =? 0)%nat.

(** ** What the buffer is: a map from numbers to packets, and the next number *)
Record Ordering := mkOrdering { waiting : gmap Z SequencedPacket; next : Z }.

Definition ordering_of (b : SequenceBuffer) : Ordering :=
  mkOrdering (list_to_map ((λ p, (sequence_number p, p)) <$> buffer b)) (next_expected_sequence_number b).

Definition spec_push (o : Ordering) (p : SequencedPacket) : Ordering :=
  if decide (next o ≤ sequence_number p ∧ waiting o !! sequence_number p = None)
  then mkOrdering (<[sequence_number p := p]> (waiting o)) (next o) else o.

Definition spec_poll (o : Ordering) : option SequencedPacket * Ordering :=
  match waiting o !! next o with
  | Some p => (Some p, mkOrdering (delete (next o) (waiting o)) (u64 (next o + 1)))
  | None => (None, o)
  end.

Definition spec_repush (o : Ordering) (p : SequencedPacket) : Ordering :=
  mkOrdering (<[sequence_number p := p]> (waiting o)) (sequence_number p).

(** The representation invariant: strictly increasing numbers, none before the next
    expected one, and the list of seen numbers is the list of waiting ones. *)
Definition sb_inv (b : SequenceBuffer) : Prop :=
  in_width 64 (next_expected_sequence_number b) ∧
  StronglySorted Z.lt (sequence_number <$> buffer b) ∧
  seen_sequence_numbers b ≡ₚ sequence_number <$> buffer b ∧
  Forall (λ p, next_expected_sequence_number b ≤ sequence_number p < 2 ^ 64) (buffer b).

(** ** Lemmas *)
Lemma heap_push_Permutation heap p : heap_push heap p ≡ₚ p :: heap.
Proof.
  induction heap as [|q heap IH]; [done|]. cbn [heap_push]. destruct (_ <? _); [done|].
  rewrite IH. apply Permutation_swap.
Qed.

Lemma heap_push_sorted heap p :
  StronglySorted Z.lt (sequence_number <$> heap) → sequence_number p ∉ sequence_number <$> heap →
  StronglySorted Z.lt (sequence_number <$> heap_push heap p).
Proof.
  induction heap as [|q heap IH]; intros Hs Hp; [by repeat constructor|].
  rewrite fmap_cons in Hs, Hp. apply StronglySorted_inv in Hs as [Hs Hq].
  apply not_elem_of_cons in Hp as [Hpq Hp]. cbn [heap_push].
  destruct (Z.ltb_spec (sequence_number p) (sequence_number q)) as [Hlt|Hge]; rewrite ?fmap_cons.
  - constructor; [by constructor|]. constructor; [done|]. eapply Forall_impl; [done|]. simpl. lia.
  - constructor; [by apply IH|]. rewrite heap_push_Permutation, fmap_cons. constructor; [lia|done].
Qed.

Lemma sorted_lt_NoDup l : StronglySorted Z.lt l → NoDup l.
Proof.
  induction 1 as [|x l _ IH Hx]; constructor; [|done]. intros Hin.
  rewrite Forall_forall in Hx. specialize (Hx x Hin). lia.
Qed.

Abbreviation keyed := (λ p : SequencedPacket, (sequence_number p, p)).

Lemma keyed_fst (l : list SequencedPacket) : (keyed <$> l).*1 = sequence_number <$> l.
Proof. by rewrite <-list_fmap_compose. Qed.

Lemma heap_push_map heap p :
  sequence_number p ∉ sequence_number <$> heap → StronglySorted Z.lt (sequence_number <$> heap) →
  list_to_map (M := gmap Z SequencedPacket) (keyed <$> heap_push heap p) =
    <[sequence_number p := p]> (list_to_map (keyed <$> heap)).
Proof.
  intros Hp Hs. change (<[_ := _]> _) with
    (list_to_map (M := gmap Z SequencedPacket) (keyed <$> p :: heap)).
  apply list_to_map_proper; [|by rewrite heap_push_Permutation]. rewrite keyed_fst.
  by apply sorted_lt_NoDup, heap_push_sorted.
Qed.

Lemma waiting_lookup b p :
  sb_inv b → p ∈ buffer b → waiting (ordering_of b) !! sequence_number p = Some p.
Proof.
  intros (_ & Hs & _) Hp. apply elem_of_list_to_map_1.
  - rewrite keyed_fst. by apply sorted_lt_NoDup.
  - apply list_elem_of_fmap. by exists p.
Qed.

Lemma waiting_None b k :
  waiting (ordering_of b) !! k = None ↔ k ∉ sequence_number <$> buffer b.
Proof. simpl. rewrite <-not_elem_of_list_to_map, keyed_fst. done. Qed.

Lemma sb_new_inv : sb_inv SequenceBuffer_new.
Proof. split_and!; try done; try lia; constructor. Qed.

Lemma sb_push_refines b p :
  sb_inv b → in_width 64 (sequence_number p) →
  sb_inv (sb_push b p) ∧ ordering_of (sb_push b p) = spec_push (ordering_of b) p.
Proof.
  intros Hinv Hp. pose proof (waiting_None b (sequence_number p)) as HN.
  destruct Hinv as (Hw & Hs & Hseen & Hge). unfold sb_push, spec_push.
  change (next (ordering_of b)) with (next_expected_sequence_number b).
  destruct (Z.leb_spec (next_expected_sequence_number b) (sequence_number p)) as [Hle|Hlt]; simpl andb.
  2:{ rewrite decide_False by lia. done. }
  case_bool_decide as Hin; simpl.
  { rewrite decide_False; [done|]. intros [_ E]. apply HN in E. by rewrite <-Hseen in E. }
  rewrite Hseen in Hin. rewrite decide_True by (split; [done|by apply HN]). split.
  - split_and!; simpl; [apply Hw..|by apply heap_push_sorted| |].
    + by rewrite heap_push_Permutation, fmap_cons, Hseen, Permutation_app_comm.
    + rewrite heap_push_Permutation. constructor; [|done]. destruct Hp. lia.
  - unfold ordering_of. simpl. f_equal. by apply heap_push_map.
Qed.

Lemma remove_at_index l (x : Z) l' :
  l ≡ₚ x :: l' → match index_of l [x] with Some i => remove_at i l | None => l end ≡ₚ l'.
Proof.
  intros Hl. destruct (index_of l [x]) as [i|] eqn:E.
  - apply index_of_single in E as (pre & rest & -> & -> & Hx). unfold remove_at.
    rewrite take_app_length. change (S (length pre)) with (1 + length pre)%nat.
    rewrite Nat.add_comm, drop_app_add. simpl. rewrite <-Permutation_middle in Hl.
    by apply Permutation_cons_inv in Hl.
  - apply index_of_single_None in E. destruct E. rewrite Hl. left.
Qed.

Lemma sb_poll_refines b :
  sb_inv b →
  sb_inv (sb_poll b).2 ∧
  (sb_poll b).1 = (spec_poll (ordering_of b)).1 ∧
  ordering_of (sb_poll b).2 = (spec_poll (ordering_of b)).2.
Proof.
  intros Hinv. pose proof (waiting_lookup b) as HL. pose proof (waiting_None b) as HN.
  pose proof Hinv as (Hw & Hs & Hseen & Hge). unfold sb_poll, spec_poll.
  change (next (ordering_of b)) with (next_expected_sequence_number b).
  destruct (buffer b) as [|p rest] eqn:Eb.
  { rewrite (proj2 (HN _)) by apply not_elem_of_nil. done. }
  rewrite fmap_cons in Hs, Hseen. apply StronglySorted_inv in Hs as [Hs Hp].
  apply Forall_cons_1 in Hge as [Hgp Hge]. rewrite Forall_fmap in Hp.
  destruct (decide (sequence_number p = next_expected_sequence_number b)) as [E|E].
  - rewrite <-E, HL by (done || left). split_and!; [|done|].
    + simpl. split; [by apply wrap_in_width|]. split; [done|]. split; [by apply remove_at_index|].
      rewrite Forall_forall in Hp, Hge |- *. intros q Hq. specialize (Hp q Hq). specialize (Hge q Hq).
      simpl in Hp, Hge. rewrite wrap_small by (destruct Hw; unfold in_width; lia). simpl. lia.
    + unfold ordering_of. simpl. f_equal. rewrite Eb. simpl. rewrite delete_insert_id; [done|].
      apply not_elem_of_list_to_map. rewrite keyed_fst. intros (q & Hq & Hin)%list_elem_of_fmap.
      rewrite Forall_forall in Hp. specialize (Hp q Hin). simpl in Hp. lia.
  - rewrite (proj2 (HN _)); [done|]. rewrite fmap_cons. intros [?|Hin]%elem_of_cons; [done|].
    apply list_elem_of_fmap in Hin as (q & Hq & Hin). rewrite Forall_forall in Hp, Hge.
    specialize (Hp q Hin). simpl in Hp. lia.
Qed.

Lemma sb_repush_refines b p :
  sb_inv b → 0 < next_expected_sequence_number b →
  sequence_number p = next_expected_sequence_number b - 1 →
  ∃ b', sb_repush b p = Ret b' ∧ sb_inv b' ∧ ordering_of b' = spec_repush (ordering_of b) p.
Proof.
  intros (Hw & Hs & Hseen & Hge) Hpos Hp. unfold sb_repush. destruct Hw as [Hw1 Hw2].
  rewrite wrap_small by (unfold in_width; lia). rewrite decide_False by tauto. eexists. split; [done|].
  assert (Hin : sequence_number p ∉ sequence_number <$> buffer b).
  { intros (q & Hq & Hin)%list_elem_of_fmap. rewrite Forall_forall in Hge. specialize (Hge q Hin).
    simpl in Hge. lia. }
  split.
  - split_and!; simpl; [unfold in_width; lia|by apply heap_push_sorted| |].
    + by rewrite heap_push_Permutation, fmap_cons, Hseen, Permutation_app_comm.
    + rewrite heap_push_Permutation. constructor; [lia|]. eapply Forall_impl; [done|]. simpl. lia.
  - unfold ordering_of, spec_repush. simpl. f_equal. by apply heap_push_map.
Qed.

(** ** Deliveries: what a run of pushes and polls hands out *)
Inductive BufferOp := Push (p : SequencedPacket) | Poll.

(** A run keeps the buffer, the packets that came in and the packets handed out. *)
Record Run := mkRun { run_buffer : SequenceBuffer; received : list SequencedPacket;
                      delivered : list SequencedPacket }.

Definition run_op (r : Run) (op : BufferOp) : Run :=
  match op with
  | Push p => mkRun (sb_push (run_buffer r) p) (received r ++ [p]) (delivered r)
  | Poll =>
      let '(p, b) := sb_poll (run_buffer r) in
      mkRun b (received r) (delivered r ++ from_option (λ p, [p]) [] p)
  end.

Definition run_ops (ops : list BufferOp) : Run :=
  fold_left run_op ops (mkRun SequenceBuffer_new [] []).

(** The first packet to arrive with a number. *)
Definition first_numbered (ps : list SequencedPacket) (k : Z) : option SequencedPacket :=
  head (filter (λ p, sequence_number p = k) ps).

Lemma first_numbered_snoc ps p k :
  first_numbered (ps ++ [p]) k =
    match first_numbered ps k with
    | Some q => Some q
    | None => if decide (sequence_number p = k) then Some p else None
    end.
Proof.
  unfold first_numbered. rewrite filter_app, filter_cons, filter_nil.
  destruct (filter _ ps); simpl; [by case_decide|done].
Qed.

Lemma first_numbered_Some ps k p : first_numbered ps k = Some p → sequence_number p = k ∧ p ∈ ps.
Proof. apply (head_filter_Some (λ p, sequence_number p = k)). Qed.

Lemma first_numbered_mono ps qs k p :
  first_numbered ps k = Some p → first_numbered (ps ++ qs) k = Some p.
Proof. unfold first_numbered. rewrite filter_app. by destruct (filter _ ps). Qed.

(** Below the next number nothing waits. *)
Lemma waiting_below b k : sb_inv b → k < next_expected_sequence_number b → waiting (ordering_of b) !! k = None.
Proof.
  intros (_ & _ & _ & Hge) Hk. apply waiting_None. intros (q & -> & Hq)%list_elem_of_fmap.
  rewrite Forall_forall in Hge. specialize (Hge q Hq). simpl in Hge. lia.
Qed.

(** A packet numbered below the last number: the next number is one more. *)
Definition numbered (p : SequencedPacket) : Prop := 0 ≤ sequence_number p < 2 ^ 64 - 1.

Lemma numbered_width p : numbered p → in_width 64 (sequence_number p).
Proof. unfold numbered, in_width. lia. Qed.

(** Pushing a packet: from the next number on, what waits is what came in first. *)
Lemma push_waiting b R p :
  sb_inv b → in_width 64 (sequence_number p) →
  (∀ k, next_expected_sequence_number b ≤ k → waiting (ordering_of b) !! k = first_numbered R k) →
  next_expected_sequence_number (sb_push b p) = next_expected_sequence_number b ∧
  ∀ k, next_expected_sequence_number b ≤ k →
    waiting (ordering_of (sb_push b p)) !! k = first_numbered (R ++ [p]) k.
Proof.
  intros Hinv Hw H. destruct (sb_push_refines b p Hinv Hw) as [_ ->].
  split; [unfold sb_push; by destruct (_ && _)|]. intros k Hk.
  rewrite first_numbered_snoc, <-H by done. unfold spec_push.
  destruct (decide (sequence_number p = k)) as [<-|Hne].
  - destruct (waiting (ordering_of b) !! sequence_number p) eqn:E.
    + rewrite decide_False by naive_solver. done.
    + rewrite decide_True by done. simpl. apply lookup_insert_eq.
  - case_decide; [cbn [waiting]; rewrite lookup_insert_ne by done|]; by destruct (waiting (ordering_of b) !! k).
Qed.

Definition run_inv (r : Run) : Prop :=
  sb_inv (run_buffer r) ∧ Forall numbered (received r) ∧
  next_expected_sequence_number (run_buffer r) = Z.of_nat (length (delivered r)) ∧
  (∀ i p, delivered r !! i = Some p → first_numbered (received r) (Z.of_nat i) = Some p) ∧
  ∀ k, next_expected_sequence_number (run_buffer r) ≤ k →
    waiting (ordering_of (run_buffer r)) !! k = first_numbered (received r) k.

Lemma run_op_inv r op :
  run_inv r → (∀ p, op = Push p → numbered p) → run_inv (run_op r op).
Proof.
  intros (Hinv & Hn & Hnext & Hd & Hw) Hop. destruct op as [p|]; cbn [run_op].
  - specialize (Hop p eq_refl). pose proof (numbered_width p Hop) as Hpw.
    destruct (push_waiting _ (received r) p Hinv Hpw Hw) as [En Hw'].
    split_and!; cbn [run_buffer received delivered]; rewrite ?En; [by apply sb_push_refines| |done| |done].
    + apply Forall_app_2; [done|by constructor].
    + intros i q Hq. by apply first_numbered_mono, Hd.
  - destruct (sb_poll_refines _ Hinv) as (Hinv' & E1 & E2). unfold spec_poll in *.
    rewrite Hw in E1, E2 by (simpl; lia).
    change (next (ordering_of (run_buffer r))) with (next_expected_sequence_number (run_buffer r)) in *.
    destruct (sb_poll (run_buffer r)) as [o b']. simpl in E1, E2, Hinv'.
    destruct (first_numbered (received r) (next_expected_sequence_number (run_buffer r))) as [p|] eqn:Ep;
      simpl in E1, E2; subst o.
    + destruct (first_numbered_Some _ _ _ Ep) as [Es Hin]. rewrite Forall_forall in Hn.
      pose proof (Hn p Hin) as [Hp1 Hp2].
      assert (Enext : next_expected_sequence_number b' = next_expected_sequence_number (run_buffer r) + 1).
      { change (next_expected_sequence_number b') with (next (ordering_of b')). rewrite E2. simpl.
        rewrite wrap_small; [done|]. unfold in_width. lia. }
      split_and!; cbn [run_buffer received delivered]; [done|by rewrite Forall_forall| | |].
      * rewrite length_app. simpl. lia.
      * intros i q. rewrite lookup_app. destruct (delivered r !! i) eqn:Ei; [intros [= <-]; by apply Hd|].
        apply lookup_ge_None in Ei. intros Hq. destruct (i - length (delivered r))%nat eqn:Ek; [|done].
        injection Hq as <-. replace (Z.of_nat i) with (next_expected_sequence_number (run_buffer r)) by lia. done.
      * intros k Hk. rewrite E2. cbn [waiting]. rewrite lookup_delete_ne by lia. apply Hw. lia.
    + assert (Enext : next_expected_sequence_number b' = next_expected_sequence_number (run_buffer r)).
      { change (next_expected_sequence_number b') with (next (ordering_of b')). by rewrite E2. }
      split_and!; cbn [run_buffer received delivered]; rewrite ?app_nil_r, ?Enext; [done..|]. intros k Hk. rewrite E2. by apply Hw.
Qed.

Lemma run_ops_inv ops :
  (∀ p, Push p ∈ ops → numbered p) → run_inv (run_ops ops).
Proof.
  intros Hops. unfold run_ops.
  assert (H : run_inv (mkRun SequenceBuffer_new [] [])).
  { split_and!; simpl; [apply sb_new_inv|done|done|done|]. intros k _. by rewrite lookup_empty. }
  revert H. generalize (mkRun SequenceBuffer_new [] []) as r.
  induction ops as [|op ops IH]; intros r Hr; [done|]. simpl. apply IH.
  - intros p Hp. apply Hops. by right.
  - apply run_op_inv; [done|]. intros p ->. apply Hops. left.
Qed.

(** whatever the order in which packets are pushed and whenever the buffer is
    polled, what it hands out is the first packet numbered 0, then the first one
    numbered 1, and so on without gaps or repetitions, and it hands out the next
    packet as soon as that packet has arrived. *)
Theorem sequence_buffer_delivers_in_order ops :
  (∀ p, Push p ∈ ops → numbered p) →
  let r := run_ops ops in
  (∀ i p, delivered r !! i = Some p → first_numbered (received r) (Z.of_nat i) = Some p) ∧
  (sb_poll (run_buffer r)).1 = first_numbered (received r) (Z.of_nat (length (delivered r))).
Proof.
  intros Hops r. destruct (run_ops_inv ops Hops) as (Hinv & _ & Hnext & Hd & Hw).
  split; [done|]. subst r. destruct (sb_poll_refines _ Hinv) as (_ & -> & _). rewrite <-Hnext, <-Hw by lia.
  unfold spec_poll. simpl. by destruct (_ !! _).
Qed.

(** Numbers 1, 0, 0, 2 arrive, with polls in between. *)
Definition sample_ops : list BufferOp :=
  [Push (mkPacket [11] 1 false); Poll; Push (mkPacket [10] 0 false); Push (mkPacket [99] 0 true);
   Poll; Poll; Push (mkPacket [98] 0 false); Push (mkPacket [12] 2 true)].

Lemma sequence_buffer_delivers_in_order_witness :
  delivered (run_ops sample_ops) = [mkPacket [10] 0 false; mkPacket [11] 1 false] ∧
  (sb_poll (run_buffer (run_ops sample_ops))).1 = Some (mkPacket [12] 2 true).
Proof.
  split; [reflexivity|].
  refine (eq_trans (proj2 (sequence_buffer_delivers_in_order sample_ops _)) _); [|reflexivity].
  intros p Hp. unfold sample_ops in Hp.
  repeat (apply elem_of_cons in Hp as [E|Hp]; [try discriminate; injection E as ->; unfold numbered; simpl; lia|]).
  by apply elem_of_nil in Hp.
Defined.

(** ** The byte form of a packet *)
Lemma u64_from_parts bs :
  length bs = 8%nat → Forall (λ b, 0 ≤ b < 256) bs → u64_from bs = Ok (from_parts 8 bs).
Proof.
  intros Hl Hf. unfold u64_from. rewrite decide_False by tauto. f_equal.
  assert (H : ∀ l acc k, Forall (λ b, 0 ≤ b < 256) l → 0 ≤ acc < 2 ^ (8 * k) → 0 ≤ k →
    k + Z.of_nat (length l) ≤ 8 →
    fold_left (λ result byte, u64 (Z.shiftl result 8) + byte) l acc =
      acc * 2 ^ (8 * Z.of_nat (length l)) + from_parts 8 l).
  { clear bs Hl Hf. induction l as [|b l IH]; intros acc k Hf Ha Hk Hl; cbn [fold_left from_parts length].
    - change (8 * Z.of_nat 0) with 0. lia.
    - apply Forall_cons_1 in Hf as [Hb Hf]. cbn [length] in Hl.
      assert (Hs : 2 ^ (8 * k) * 256 = 2 ^ (8 * (k + 1))).
      { rewrite Z.mul_add_distr_l, Z.pow_add_r by lia. done. }
      assert (Hm : 2 ^ (8 * (k + 1)) ≤ 2 ^ 64) by (apply Z.pow_le_mono_r; lia).
      rewrite Z.shiftl_mul_pow2 by lia. change (2 ^ 8) with 256.
      rewrite wrap_small by (unfold in_width; lia).
      rewrite (IH _ (k + 1)) by (done || lia).
      replace (8 * Z.of_nat (S (length l))) with (8 + 8 * Z.of_nat (length l)) by lia.
      rewrite Z.pow_add_r by lia. change (2 ^ 8) with 256.
      replace (Z.of_nat (8 * length l)) with (8 * Z.of_nat (length l)) by lia. ring. }
  rewrite (H bs 0 0); [lia|done|lia|lia|lia].
Qed.

Lemma u64_to_parts v buf :
  0 ≤ v → length buf = 8%nat → u64_to v buf = Ret (Ok tt, parts 8 8 v).
Proof.
  intros Hv Hl. do 8 (destruct buf as [|? buf]; [discriminate|]). destruct buf; [|discriminate].
  unfold u64_to. rewrite decide_False by tauto. cbn [seq fold_outcome].
  unfold set_byte. cbn [length fst snd Nat.sub].
  repeat (rewrite decide_True by lia; cbn [mbind outcome_bind mret outcome_ret fst snd insert list_insert length]).
  rewrite !Z.shiftr_shiftr by lia. rewrite !Z.shiftr_div_pow2 by lia. rewrite !land_byte.
  cbn [parts]. change (2 ^ Z.of_nat (8 * 0)) with 1. rewrite Z.div_1_r. done.
Qed.

(** The encoding: one byte for the flag, eight for the number, and the data. *)
Definition packet_bytes (p : SequencedPacket) : list Z :=
  (if last_data p then 1 else 0) :: parts 8 8 (sequence_number p) ++ data p.

Lemma packet_serialize_spec p :
  0 ≤ sequence_number p → packet_serialize p = Ret (Ok (packet_bytes p)).
Proof.
  intros H. unfold packet_serialize. set (b0 := replicate _ 0).
  assert (Hb0 : length b0 = (length (data p) + 9)%nat) by apply length_replicate.
  rewrite <-(filled_nil b0) at 1. rewrite set_byte_put by (rewrite length_filled; simpl; lia).
  rewrite (put_filled [] b0) by (simpl; lia). cbn [app mbind outcome_bind].
  set (f := if last_data p then 1 else 0).
  assert (Hf1 : length (filled [f] b0) = (length (data p) + 9)%nat) by (rewrite length_filled; simpl; lia).
  unfold slice. rewrite decide_True by lia. cbn [mbind outcome_bind mret outcome_ret].
  rewrite u64_to_parts by (done || rewrite length_take, length_drop; lia).
  cbn [mbind outcome_bind fst snd].
  change 1%nat with (length [f]). rewrite put_filled by (rewrite length_parts; simpl; lia).
  cbn [mbind outcome_bind].
  assert (Hl : length ([f] ++ parts 8 8 (sequence_number p)) = 9%nat) by (rewrite length_app, length_parts; done).
  rewrite <-Hl at 1. rewrite put_filled by (rewrite Hl; lia). cbn [mbind outcome_bind mret outcome_ret].
  unfold filled. rewrite (drop_ge b0), app_nil_r by (rewrite length_app, Hl; lia). done.
Qed.

Lemma visit_packet_bytes p : in_width 64 (sequence_number p) → visit_bytes (packet_bytes p) = Ret (Ok p).
Proof.
  intros Hw. unfold visit_bytes, packet_bytes, byte_at. cbn [lookup list_lookup expect mbind outcome_bind].
  set (f := if last_data p then 1 else 0).
  assert (Hf : (if f =? 0 then Some false else if f =? 1 then Some true else None) = Some (last_data p))
    by (unfold f; by destruct (last_data p)).
  rewrite Hf. unfold slice. cbn [length]. rewrite length_app, length_parts.
  rewrite decide_True by lia. cbn [mbind outcome_bind mret outcome_ret].
  change (take (9 - 1) (drop 1 (f :: parts 8 8 (sequence_number p) ++ data p))) with
    (parts 8 8 (sequence_number p)).
  rewrite u64_from_parts by (apply length_parts || apply (parts_bounds 8)).
  rewrite from_parts_parts. rewrite Z.mod_small by apply Hw.
  unfold slice_from. cbn [length]. rewrite length_app, length_parts, decide_True by lia.
  by destruct p.
Qed.

(** a packet of a stream survives its byte form: serialization never fails, and
    reading its bytes gives the packet back. *)
Theorem packet_bytes_roundtrip p :
  in_width 64 (sequence_number p) →
  packet_serialize p = Ret (Ok (packet_bytes p)) ∧ visit_bytes (packet_bytes p) = Ret (Ok p).
Proof.
  intros Hw. split; [apply packet_serialize_spec, Hw|by apply visit_packet_bytes].
Qed.

Lemma packet_bytes_roundtrip_witness :
  packet_serialize (mkPacket [65; 66] 258 true) = Ret (Ok [1; 0; 0; 0; 0; 0; 0; 1; 2; 65; 66]) ∧
  visit_bytes [1; 0; 0; 0; 0; 0; 0; 1; 2; 65; 66] = Ret (Ok (mkPacket [65; 66] 258 true)).
Proof. apply (packet_bytes_roundtrip (mkPacket [65; 66] 258 true)). split; simpl; lia. Defined.

(** bytes that are no packet are not always refused: without a first byte, or
    with fewer than nine bytes behind a valid flag, reading them is a panic; every
    other input gives a packet or an error. *)
Theorem visit_bytes_panics_on_short_input v :
  (∃ why, visit_bytes v = Panic why) ↔
  v = [] ∨ ((v !! 0%nat = Some 0 ∨ v !! 0%nat = Some 1) ∧ (length v < 9)%nat).
Proof.
  destruct v as [|b v]; [split; [by left|by eexists]|].
  assert (E : ∀ last, (∃ why, (number ← slice (b :: v) 1 9;
      match u64_from number with
      | Err e => mret (Err e)
      | Ok sequence_number => rest ← slice_from (b :: v) 9; mret (Ok (mkPacket rest sequence_number last))
      end) = Panic why) ↔ (length (b :: v) < 9)%nat).
  { intros last. unfold slice. destruct (decide (1 ≤ 9 ≤ length (b :: v))%nat) as [H|H].
    - cbn [mbind outcome_bind mret outcome_ret]. unfold slice_from. rewrite decide_True by lia.
      split; [|lia]. destruct (u64_from _); by intros [? ?].
    - split; [lia|]. intros _. by eexists. }
  unfold visit_bytes, byte_at. cbn [lookup list_lookup expect mbind outcome_bind].
  destruct (Z.eqb_spec b 0) as [->|H0]; [rewrite E; naive_solver|].
  destruct (Z.eqb_spec b 1) as [->|H1]; [rewrite E; naive_solver|].
  split; [by intros [? ?]|]. intros [?|[[?|?] _]]; simplify_eq/=.
Qed.
