(* ===== verification/StreamWriters.v ===== *)
(** * Stream writers

    Models the three futures that write packets to a TCP stream:
    [node/src/stream_writer_sorted.rs] (clear data to a client, in order),
    [node/src/stream_writer_unsorted.rs] (clandestine data to a neighbor, as it
    comes) and [node/src/proxy_client/stream_writer.rs] (clear data to a server, in
    order), and [indicates_dead_stream] of [sub_lib/utils.rs].

    The receiving end of the channel and the writing half of the stream are scripts:
    the answers that successive calls get, in order; when a script has run out, the
    answer is [NotReady].  The channel remembers the packets taken from it and the
    stream the bytes that it accepted.  Logging is left out. *)

From S2P Require Import Prelude.
From S2P Require Import Bytes.
From S2P Require Import Sequencing.

Inductive ErrorKind :=
| BrokenPipe | ConnectionAborted | ConnectionReset | ConnectionRefused | TimedOut
| NotFound | PermissionDenied | NotConnected | AddrInUse | AddrNotAvailable | AlreadyExists
| WouldBlock | InvalidInput | InvalidData | WriteZero | Interrupted | OtherKind | UnexpectedEof.

#[export] Instance ErrorKind_eq_dec : EqDecision ErrorKind.
Proof. solve_decision. Defined.

Definition DEAD_STREAM_ERRORS : list ErrorKind :=
  [BrokenPipe; ConnectionAborted; ConnectionReset; ConnectionRefused; TimedOut].

Definition indicates_dead_stream (kind : ErrorKind) : bool := bool_decide (kind ∈ DEAD_STREAM_ERRORS).

Inductive Async (A : Type) := Ready (a : A) | NotReady.
Arguments Ready {_} _.
Arguments NotReady {_}.

(** ** The environment *)
Abbreviation ChannelAnswer := (result (Async (option SequencedPacket)) unit).

Record Channel := mkChannel { answers : list ChannelAnswer; taken : list SequencedPacket }.

Definition channel_poll (c : Channel) : ChannelAnswer * Channel :=
  match answers c with
  | [] => (Ok NotReady, c)
  | r :: answers' =>
      (r, mkChannel answers'
            (taken c ++ match r with Ok (Ready (Some p)) => [p] | _ => [] end))
  end.

Record Stream := mkStream {
  writes : list (result (Async nat) ErrorKind);
  shutdowns : list (result (Async unit) ErrorKind);
  written : list Z
}.

Definition poll_write (s : Stream) (bytes : list Z) : result (Async nat) ErrorKind * Stream :=
  match writes s with
  | [] => (Ok NotReady, s)
  | r :: writes' =>
      (r, mkStream writes' (shutdowns s)
            (written s ++ match r with Ok (Ready len) => take len bytes | _ => [] end))
  end.

Definition stream_shutdown (s : Stream) : result (Async unit) ErrorKind * Stream :=
  match shutdowns s with
  | [] => (Ok NotReady, s)
  | r :: shutdowns' => (r, mkStream (writes s) shutdowns' (written s))
  end.

(** ** [StreamWriterSorted] *)
Record StreamWriterSorted := mkSorted {
  stream : Stream;
  rx_to_write : Channel;
  sequence_buffer : SequenceBuffer;
  shutting_down : bool
}.

Inductive ReadChannelStatus := StillOpen | Closed.
Inductive WriteBufferStatus := StreamInError | BufferNotEmpty | BufferEmpty.

Definition sorted_new (stream : Stream) (rx_to_write : Channel) : StreamWriterSorted :=
  mkSorted stream rx_to_write SequenceBuffer_new false.

Definition sorted_shutdown (w : StreamWriterSorted) : result (Async unit) unit * StreamWriterSorted :=
  let '(r, s) := stream_shutdown (stream w) in
  (match r with Ok a => Ok a | Err _ => Err tt end,
   mkSorted s (rx_to_write w) (sequence_buffer w) (shutting_down w)).

(** The loop reads until the channel has nothing more: one answer per iteration. *)
Fixpoint sorted_read_loop (fuel : nat) (w : StreamWriterSorted) :
    outcome (ReadChannelStatus * StreamWriterSorted) :=
  match fuel with
  | O => Panic "out of fuel"
  | S fuel' =>
      let '(r, c) := channel_poll (rx_to_write w) in
      match r with
      | Ok (Ready (Some sequenced_packet)) =>
          sorted_read_loop fuel'
            (mkSorted (stream w) c (sb_push (sequence_buffer w) sequenced_packet) (shutting_down w))
      | Ok (Ready None) => mret (Closed, mkSorted (stream w) c (sequence_buffer w) (shutting_down w))
      | Ok NotReady => mret (StillOpen, mkSorted (stream w) c (sequence_buffer w) (shutting_down w))
      | Err _ => Panic "got an error from an unbounded channel which cannot return error"
      end
  end.

Definition sorted_read_data_from_channel (w : StreamWriterSorted) :
    outcome (ReadChannelStatus * StreamWriterSorted) :=
  sorted_read_loop (S (length (answers (rx_to_write w)))) w.

(** One answer of the stream per iteration. *)
Fixpoint sorted_write_loop (fuel : nat) (w : StreamWriterSorted) :
    outcome (WriteBufferStatus * StreamWriterSorted) :=
  match fuel with
  | O => Panic "out of fuel"
  | S fuel' =>
      let '(packet_opt, b) := sb_poll (sequence_buffer w) in
      match packet_opt with
      | Some packet =>
          let '(r, s) := poll_write (stream w) (data packet) in
          match r with
          | Err e =>
              if indicates_dead_stream e
              then mret (StreamInError, mkSorted s (rx_to_write w) b (shutting_down w))
              else
                b ← sb_repush b packet;
                sorted_write_loop fuel' (mkSorted s (rx_to_write w) b (shutting_down w))
          | Ok NotReady =>
              b ← sb_repush b packet;
              mret (BufferNotEmpty, mkSorted s (rx_to_write w) b (shutting_down w))
          | Ok (Ready len) =>
              if decide (len ≠ length (data packet))
              then
                b ← sb_repush b (mkPacket (drop len (data packet)) (sequence_number packet) (last_data packet));
                sorted_write_loop fuel' (mkSorted s (rx_to_write w) b (shutting_down w))
              else if last_data packet
              then
                let '(r, s) := stream_shutdown s in
                mret (match r with
                      | Ok NotReady => BufferNotEmpty
                      | Ok (Ready _) => BufferEmpty
                      | Err _ => StreamInError
                      end, mkSorted s (rx_to_write w) b true)
              else sorted_write_loop fuel' (mkSorted s (rx_to_write w) b (shutting_down w))
          end
      | None => mret (BufferEmpty, mkSorted (stream w) (rx_to_write w) b (shutting_down w))
      end
  end.

Definition sorted_write_from_buffer_to_stream (w : StreamWriterSorted) :
    outcome (WriteBufferStatus * StreamWriterSorted) :=
  sorted_write_loop (S (length (writes (stream w)))) w.

Definition sorted_poll (w : StreamWriterSorted) : outcome (result (Async unit) unit * StreamWriterSorted) :=
  if shutting_down w then mret (sorted_shutdown w)
  else
    p ← sorted_read_data_from_channel w;
    let '(read_result, w) := p in
    q ← sorted_write_from_buffer_to_stream w;
    let '(write_result, w) := q in
    mret (match read_result, write_result with
          | _, StreamInError => Err tt
          | StillOpen, _ => Ok NotReady
          | Closed, BufferNotEmpty => Ok NotReady
          | Closed, BufferEmpty => Ok (Ready tt)
          end, w).

(** ** [proxy_client::stream_writer::StreamWriter], whose state is the same *)
Abbreviation StreamWriter := StreamWriterSorted.

Definition pc_shutdown (w : StreamWriter) : result (Async unit) unit * StreamWriter :=
  let '(r, s) := stream_shutdown (stream w) in
  (match r with
   | Ok NotReady => Ok NotReady
   | Ok (Ready _) => Ok (Ready tt)
   | Err _ => Err tt
   end, mkSorted s (rx_to_write w) (sequence_buffer w) (shutting_down w)).

Fixpoint pc_read_loop (fuel : nat) (w : StreamWriter) : outcome (result (Async unit) unit * StreamWriter) :=
  match fuel with
  | O => Panic "out of fuel"
  | S fuel' =>
      let '(r, c) := channel_poll (rx_to_write w) in
      match r with
      | Ok (Ready (Some sequenced_packet)) =>
          pc_read_loop fuel'
            (mkSorted (stream w) c (sb_push (sequence_buffer w) sequenced_packet) (shutting_down w))
      | Ok (Ready None) =>
          mret (Ok (Ready tt), mkSorted (stream w) c (sequence_buffer w) (shutting_down w))
      | Ok NotReady => mret (Ok NotReady, mkSorted (stream w) c (sequence_buffer w) (shutting_down w))
      | Err _ => Panic "got an error from an unbounded channel which cannot return error"
      end
  end.

Definition pc_read_data_from_channel (w : StreamWriter) : outcome (result (Async unit) unit * StreamWriter) :=
  pc_read_loop (S (length (answers (rx_to_write w)))) w.

Fixpoint pc_write_loop (fuel : nat) (w : StreamWriter) : outcome (result (Async unit) unit * StreamWriter) :=
  match fuel with
  | O => Panic "out of fuel"
  | S fuel' =>
      let '(packet_opt, b) := sb_poll (sequence_buffer w) in
      match packet_opt with
      | Some packet =>
          let '(r, s) := poll_write (stream w) (data packet) in
          match r with
          | Err e =>
              if indicates_dead_stream e
              then mret (Err tt, mkSorted s (rx_to_write w) b (shutting_down w))
              else
                b ← sb_repush b packet;
                pc_write_loop fuel' (mkSorted s (rx_to_write w) b (shutting_down w))
          | Ok NotReady =>
              b ← sb_repush b packet;
              mret (Ok NotReady, mkSorted s (rx_to_write w) b (shutting_down w))
          | Ok (Ready bytes_written_count) =>
              if decide (bytes_written_count ≠ length (data packet))
              then
                b ← sb_repush b (mkPacket (drop bytes_written_count (data packet)) (sequence_number packet)
                                   (last_data packet));
                pc_write_loop fuel' (mkSorted s (rx_to_write w) b (shutting_down w))
              else if last_data packet
              then mret (pc_shutdown (mkSorted s (rx_to_write w) b true))
              else pc_write_loop fuel' (mkSorted s (rx_to_write w) b (shutting_down w))
          end
      | None => mret (Ok (Ready tt), mkSorted (stream w) (rx_to_write w) b (shutting_down w))
      end
  end.

Definition pc_write_from_buffer_to_stream (w : StreamWriter) :
    outcome (result (Async unit) unit * StreamWriter) :=
  pc_write_loop (S (length (writes (stream w)))) w.

Definition pc_poll (w : StreamWriter) : outcome (result (Async unit) unit * StreamWriter) :=
  if shutting_down w then mret (pc_shutdown w)
  else
    p ← pc_read_data_from_channel w;
    let '(read_result, w) := p in
    q ← pc_write_from_buffer_to_stream w;
    let '(write_result, w) := q in
    mret (match read_result, write_result with
          | _, Err _ => Err tt
          | Ok NotReady, _ => Ok NotReady
          | _, _ => write_result
          end, w).

(** ** [StreamWriterUnsorted] *)
Record StreamWriterUnsorted := mkUnsorted {
  u_stream : Stream;
  u_rx_to_write : Channel;
  buf : option SequencedPacket
}.

Definition unsorted_new (stream : Stream) (rx_to_write : Channel) : StreamWriterUnsorted :=
  mkUnsorted stream rx_to_write None.

(** One answer of the channel or of the stream per iteration. *)
Fixpoint unsorted_loop (fuel : nat) (w : StreamWriterUnsorted) :
    outcome (result (Async unit) unit * StreamWriterUnsorted) :=
  match fuel with
  | O => Panic "out of fuel"
  | S fuel' =>
      match buf w with
      | None =>
          let '(r, c) := channel_poll (u_rx_to_write w) in
          match r with
          | Ok (Ready (Some d)) => unsorted_loop fuel' (mkUnsorted (u_stream w) c (Some d))
          | Ok (Ready None) => mret (Ok (Ready tt), mkUnsorted (u_stream w) c None)
          | Ok NotReady => mret (Ok NotReady, mkUnsorted (u_stream w) c None)
          | Err _ => Panic "got an error from an unbounded channel which cannot return error"
          end
      | Some packet =>
          let '(r, s) := poll_write (u_stream w) (data packet) in
          match r with
          | Err e =>
              if indicates_dead_stream e
              then mret (Err tt, mkUnsorted s (u_rx_to_write w) None)
              else unsorted_loop fuel' (mkUnsorted s (u_rx_to_write w) (Some packet))
          | Ok (Ready len) =>
              unsorted_loop fuel'
                (mkUnsorted s (u_rx_to_write w)
                   (if decide (len ≠ length (data packet))
                    then Some (mkPacket (drop len (data packet)) (sequence_number packet) false)
                    else None))
          | Ok NotReady => mret (Ok NotReady, mkUnsorted s (u_rx_to_write w) (Some packet))
          end
      end
  end.

Definition unsorted_poll (w : StreamWriterUnsorted) :
    outcome (result (Async unit) unit * StreamWriterUnsorted) :=
  unsorted_loop (S (length (answers (u_rx_to_write w)) + length (writes (u_stream w)))) w.
