(* ===== verification/StreamWritersFacts.v ===== *)
(** * What the stream writers write

    Whatever answers the channel and the stream give, the bytes on the stream are the
    data of the packets in order, up to a point; nothing is repeated, skipped or
    reordered by partial writes, refusals and recoverable errors. *)

From S2P Require Import Prelude.
From S2P Require Import Bytes.
From S2P Require Import Sequencing.
From S2P Require Import StreamWriters.

(** ** Bytes in the order of the numbers *)

(** [out] is the data of the packets numbered 0, 1, ... among those received, the
    first one with each number, with nothing behind the last packet of the stream;
    the last of the packets may be written in part. *)
Definition written_in_order (R : list SequencedPacket) (out : list Z) : Prop :=
  ∃ D partial,
    out = concat (data <$> D) ++ partial ∧
    (∀ i p, D !! i = Some p → first_numbered R (Z.of_nat i) = Some p) ∧
    (∀ i p, D !! i = Some p → last_data p = true → S i = length D ∧ partial = []) ∧
    (partial = [] ∨ ∃ p, first_numbered R (Z.of_nat (length D)) = Some p ∧ partial `prefix_of` data p).

(** All that can be written has been written: the next packet has not arrived. *)
Definition written_all (R : list SequencedPacket) (out : list Z) : Prop :=
  ∃ D, out = concat (data <$> D) ∧
    (∀ i p, D !! i = Some p → first_numbered R (Z.of_nat i) = Some p) ∧
    (first_numbered R (Z.of_nat (length D)) = None ∨
     ∃ p, last D = Some p ∧ last_data p = true).

(** The state of a writer that is not shutting down: [D] has been written in full
    and [partial] of the packet that comes next. *)
Definition writing (b : SequenceBuffer) (R : list SequencedPacket) (out : list Z)
    (D : list SequencedPacket) (partial : list Z) : Prop :=
  sb_inv b ∧ Forall numbered R ∧
  out = concat (data <$> D) ++ partial ∧
  next_expected_sequence_number b = Z.of_nat (length D) ∧
  Forall (λ p, last_data p = false) D ∧
  (∀ i p, D !! i = Some p → first_numbered R (Z.of_nat i) = Some p) ∧
  (∀ k, Z.of_nat (length D) < k → waiting (ordering_of b) !! k = first_numbered R k) ∧
  match waiting (ordering_of b) !! Z.of_nat (length D), first_numbered R (Z.of_nat (length D)) with
  | Some q, Some p =>
      data p = partial ++ data q ∧ last_data q = last_data p ∧ sequence_number q = sequence_number p
  | None, None => partial = []
  | _, _ => False
  end.

Lemma writing_in_order b R out D partial : writing b R out D partial → written_in_order R out.
Proof.
  intros (_ & _ & Hout & _ & Hl & HD & _ & Hm). exists D, partial. split_and!; [done|done| |].
  - intros i p Hi E. rewrite Forall_lookup in Hl. rewrite (Hl i p Hi) in E. done.
  - destruct (waiting _ !! _) as [q|], (first_numbered R _) as [p|]; try done; [|by left].
    right. exists p. split; [done|]. destruct Hm as [E _]. by exists (data q).
Qed.

(** A new packet comes in. *)
Lemma writing_push b R out D partial p :
  writing b R out D partial → numbered p → writing (sb_push b p) (R ++ [p]) out D partial.
Proof.
  intros (Hinv & Hn & Hout & Hnext & Hl & HD & Hw & Hm) Hp. pose proof (numbered_width p Hp) as Hpw.
  destruct (sb_push_refines b p Hinv Hpw) as [Hinv' E].
  assert (En : next_expected_sequence_number (sb_push b p) = next_expected_sequence_number b)
    by (unfold sb_push; by destruct (_ && _)).
  split; [done|]. split; [apply Forall_app_2; [done|by constructor]|]. split; [done|].
  split; [by rewrite En|]. split; [done|]. split; [intros i q Hq; by apply first_numbered_mono, HD|].
  rewrite E. unfold spec_push. change (next (ordering_of b)) with (next_expected_sequence_number b).
  rewrite Hnext. set (n := Z.of_nat (length D)) in *. split.
  - intros k Hk. rewrite first_numbered_snoc, <-Hw by done.
    destruct (decide (sequence_number p = k)) as [<-|Hne].
    + destruct (waiting (ordering_of b) !! sequence_number p) eqn:Ek.
      * rewrite decide_False by naive_solver. done.
      * rewrite decide_True by (split; [lia|done]). cbn [waiting]. apply lookup_insert_eq.
    + case_decide; [cbn [waiting]; rewrite lookup_insert_ne by done|]; by destruct (waiting (ordering_of b) !! k).
  - rewrite first_numbered_snoc. destruct (decide (sequence_number p = n)) as [Ep|Hne].
    + rewrite Ep. destruct (waiting (ordering_of b) !! n) as [q|] eqn:Eq.
      * rewrite decide_False by naive_solver. rewrite Eq. by destruct (first_numbered R n).
      * rewrite decide_True by (split; [lia|done]). cbn [waiting]. rewrite lookup_insert_eq.
        destruct (first_numbered R n); [done|]. by subst partial.
    + case_decide; [cbn [waiting]; rewrite lookup_insert_ne by done|];
        by destruct (waiting (ordering_of b) !! n), (first_numbered R n).
Qed.

(** Nothing to poll: everything that can be written has been written. *)
Lemma writing_poll_None b R out D partial :
  writing b R out D partial → (sb_poll b).1 = None →
  (sb_poll b).2 = b ∧ written_all R out.
Proof.
  intros (Hinv & Hn & Hout & Hnext & Hl & HD & Hw & Hm) Hp.
  split.
  { unfold sb_poll in *. destruct (buffer b); [done|]. by case_decide. }
  destruct (sb_poll_refines b Hinv) as (_ & E & _). rewrite Hp in E. unfold spec_poll in E.
  change (next (ordering_of b)) with (next_expected_sequence_number b) in E. rewrite Hnext in E.
  destruct (waiting (ordering_of b) !! Z.of_nat (length D)); [done|].
  destruct (first_numbered R (Z.of_nat (length D))) eqn:Ef; [done|]. subst partial.
  exists D. split_and!; [by rewrite app_nil_r in Hout|done|by left].
Qed.

(** The head of the buffer: what is left of the next packet. *)
Lemma writing_poll_Some b R out D partial q :
  writing b R out D partial → (sb_poll b).1 = Some q →
  sb_inv (sb_poll b).2 ∧
  next_expected_sequence_number (sb_poll b).2 = Z.of_nat (length D) + 1 ∧
  (∀ k, Z.of_nat (length D) < k → waiting (ordering_of (sb_poll b).2) !! k = first_numbered R k) ∧
  ∃ p, first_numbered R (Z.of_nat (length D)) = Some p ∧ data p = partial ++ data q ∧
    last_data q = last_data p ∧ sequence_number q = Z.of_nat (length D).
Proof.
  intros (Hinv & Hn & Hout & Hnext & Hl & HD & Hw & Hm) Hp.
  destruct (sb_poll_refines b Hinv) as (Hinv' & E1 & E2). rewrite Hp in E1. unfold spec_poll in E1, E2.
  change (next (ordering_of b)) with (next_expected_sequence_number b) in E1, E2. rewrite Hnext in E1, E2.
  destruct (waiting (ordering_of b) !! Z.of_nat (length D)) as [q'|]; [|done]. injection E1 as <-.
  destruct (first_numbered R (Z.of_nat (length D))) as [p|] eqn:Ef; [|done].
  destruct Hm as (Hd & Hla & Hs). destruct (first_numbered_Some _ _ _ Ef) as [Es Hin].
  split; [done|]. split; [|split].
  - change (next_expected_sequence_number (sb_poll b).2) with (next (ordering_of (sb_poll b).2)).
    rewrite E2. cbn [next snd]. rewrite Forall_forall in Hn. destruct (Hn p Hin).
    rewrite wrap_small; [done|]. unfold in_width. lia.
  - intros k Hk. rewrite E2. cbn [waiting snd]. rewrite lookup_delete_ne by lia. by apply Hw.
  - exists p. split_and!; [done..|]. by rewrite Hs.
Qed.

(** What is left after a write that took [k] bytes goes back to the buffer. *)
Lemma writing_repush b R out D partial q k :
  writing b R out D partial → (sb_poll b).1 = Some q →
  ∃ b', sb_repush (sb_poll b).2 (mkPacket (drop k (data q)) (sequence_number q) (last_data q)) = Ret b' ∧
    writing b' R (out ++ take k (data q)) D (partial ++ take k (data q)).
Proof.
  intros H Hp. destruct (writing_poll_Some _ _ _ _ _ _ H Hp) as (Hinv & Hnext & Hw & p & Ef & Hd & Hla & Hs).
  destruct H as (_ & Hn & Hout & _ & Hl & HD & _).
  destruct (sb_repush_refines (sb_poll b).2 (mkPacket (drop k (data q)) (sequence_number q) (last_data q)))
    as (b' & -> & Hinv' & E); [done|lia|simpl; lia|].
  exists b'. split; [done|]. split; [done|]. split; [done|].
  split; [by rewrite Hout, app_assoc|].
  split.
  { change (next_expected_sequence_number b') with (next (ordering_of b')). by rewrite E. }
  split; [done|]. split; [done|]. rewrite E. unfold spec_repush. cbn [waiting sequence_number]. rewrite Hs. split.
  - intros j Hj. rewrite lookup_insert_ne by lia. by apply Hw.
  - rewrite lookup_insert_eq, Ef. cbn [data last_data sequence_number]. rewrite <-app_assoc, take_drop.
    split_and!; [done|done|]. destruct (first_numbered_Some _ _ _ Ef) as [-> _]. done.
Qed.

(** A packet written in full that is not the last one. *)
Lemma writing_next b R out D partial q :
  writing b R out D partial → (sb_poll b).1 = Some q →
  ∃ p, first_numbered R (Z.of_nat (length D)) = Some p ∧ last_data p = last_data q ∧
    out ++ data q = concat (data <$> D ++ [p]) ∧
    (last_data q = false → writing (sb_poll b).2 R (out ++ data q) (D ++ [p]) []).
Proof.
  intros H Hp. destruct (writing_poll_Some _ _ _ _ _ _ H Hp) as (Hinv & Hnext & Hw & p & Ef & Hd & Hla & Hs).
  destruct H as (_ & Hn & Hout & _ & Hl & HD & _). exists p.
  assert (Eout : out ++ data q = concat (data <$> D ++ [p])).
  { rewrite Hout, fmap_app, concat_app. simpl. by rewrite Hd, app_nil_r, app_assoc. }
  assert (Elen : Z.of_nat (length (D ++ [p])) = Z.of_nat (length D) + 1) by (rewrite length_app; simpl; lia).
  split_and!; [done|done|done|]. intros Hf. split; [done|]. split; [done|].
  split; [by rewrite app_nil_r|]. split; [by rewrite Elen|].
  split; [apply Forall_app_2; [done|]; constructor; [congruence|done]|]. rewrite Elen. split; [|split].
  - intros i x. rewrite lookup_app. destruct (D !! i) eqn:Ei; [intros [= <-]; by apply HD|].
    apply lookup_ge_None in Ei. intros Hx. destruct (i - length D)%nat eqn:Ek; [|done].
    injection Hx as <-. by replace (Z.of_nat i) with (Z.of_nat (length D)) by lia.
  - intros k Hk. apply Hw. lia.
  - rewrite Hw by lia. destruct (first_numbered R (Z.of_nat (length D) + 1)) as [x|]; done.
Qed.

(** The last packet has been written: the writer is shutting down. *)
Definition finished (R : list SequencedPacket) (out : list Z) : Prop :=
  ∃ D p, out = concat (data <$> D ++ [p]) ∧ Forall (λ p, last_data p = false) D ∧ last_data p = true ∧
    ∀ i q, (D ++ [p]) !! i = Some q → first_numbered R (Z.of_nat i) = Some q.

Lemma finished_in_order R out : finished R out → written_in_order R out.
Proof.
  intros (D & p & Hout & Hl & Hp & HD). exists (D ++ [p]), []. split_and!; [by rewrite app_nil_r|done| |by left].
  intros i q Hi Hq. split; [|done]. rewrite length_app. simpl.
  destruct (decide (i < length D)%nat) as [Hlt|Hge].
  - rewrite lookup_app_l in Hi by done. rewrite Forall_lookup in Hl. rewrite (Hl i q Hi) in Hq. done.
  - apply lookup_lt_Some in Hi. rewrite length_app in Hi. simpl in Hi. lia.
Qed.

Lemma finished_all R out : finished R out → written_all R out.
Proof.
  intros (D & p & Hout & Hl & Hp & HD). exists (D ++ [p]). split_and!; [done|done|].
  right. exists p. by rewrite last_snoc.
Qed.

Lemma writing_finish b R out D partial q :
  writing b R out D partial → (sb_poll b).1 = Some q → last_data q = true → finished R (out ++ data q).
Proof.
  intros H Hp Hq. destruct (writing_next _ _ _ _ _ _ H Hp) as (p & Ef & Hl & Eout & _).
  destruct H as (_ & _ & _ & _ & HD1 & HD & _). exists D, p. split_and!; [done|done|congruence|].
  intros i x. rewrite lookup_app. destruct (D !! i) eqn:Ei; [intros [= <-]; by apply HD|].
  apply lookup_ge_None in Ei. intros Hx. destruct (i - length D)%nat eqn:Ek; [|done].
  injection Hx as <-. by replace (Z.of_nat i) with (Z.of_nat (length D)) by lia.
Qed.

(** ** The sorted writer *)
Definition writer_settled (w : StreamWriterSorted) : Prop :=
  if shutting_down w then finished (taken (rx_to_write w)) (written (stream w))
  else ∃ D partial, writing (sequence_buffer w) (taken (rx_to_write w)) (written (stream w)) D partial.

Lemma settled_in_order w :
  writer_settled w → written_in_order (taken (rx_to_write w)) (written (stream w)).
Proof.
  unfold writer_settled. destruct (shutting_down w); [apply finished_in_order|].
  intros (D & partial & H). by apply writing_in_order in H.
Qed.

(** An unbounded channel never answers with an error, and its packets are numbered. *)
Definition good_answer (a : ChannelAnswer) : Prop :=
  match a with Ok (Ready (Some p)) => numbered p | Ok _ => True | Err _ => False end.

Definition good_channel (c : Channel) : Prop := Forall good_answer (answers c).

Lemma sorted_read_spec fuel w D partial :
  writing (sequence_buffer w) (taken (rx_to_write w)) (written (stream w)) D partial →
  good_channel (rx_to_write w) → (length (answers (rx_to_write w)) < fuel)%nat →
  returns (sorted_read_loop fuel w) (λ r,
    writing (sequence_buffer r.2) (taken (rx_to_write r.2)) (written (stream r.2)) D partial ∧
    good_channel (rx_to_write r.2) ∧ stream r.2 = stream w ∧ shutting_down r.2 = shutting_down w).
Proof.
  revert w. induction fuel as [|fuel IH]; intros w H Hg Hf; [lia|]. cbn [sorted_read_loop].
  unfold channel_poll. unfold good_channel in Hg. destruct (answers (rx_to_write w)) as [|a rest] eqn:Ea.
  { apply returns_ret. unfold good_channel. cbn. by rewrite Ea. }
  apply Forall_cons_1 in Hg as [Ha Hg]. simpl in Hf.
  destruct a as [[[p|]|]|[]]; [| | |done]; cbn in Ha.
  - eapply returns_mono; [apply IH; cbn|].
    + by apply writing_push.
    + done.
    + lia.
    + cbn. done.
  - apply returns_ret. cbn. by rewrite app_nil_r.
  - apply returns_ret. cbn. by rewrite app_nil_r.
Qed.

(** The stream refused to write or was never asked again. *)
Definition stream_refused (before after : Stream) : Prop :=
  Ok NotReady ∈ writes before ∨ writes after = [].

Definition write_post (s0 : Stream) (c : Channel) (r : WriteBufferStatus * StreamWriterSorted) : Prop :=
  rx_to_write r.2 = c ∧
  written_in_order (taken c) (written (stream r.2)) ∧
  (r.1 ≠ StreamInError → writer_settled r.2) ∧
  (r.1 = BufferEmpty → written_all (taken c) (written (stream r.2))) ∧
  (r.1 = BufferNotEmpty → shutting_down r.2 = false → stream_refused s0 (stream r.2)).

Lemma write_post_later s0 s1 c r : writes s1 ⊆ writes s0 → write_post s1 c r → write_post s0 c r.
Proof.
  intros Hsub (H1 & H2 & H3 & H4 & H5). split_and!; try done. intros E1 E2.
  destruct (H5 E1 E2); [left; by apply Hsub|by right].
Qed.

(** A writer that is not shutting down and has put its packet back. *)
Lemma write_post_waiting s0 s c b D partial :
  writing b (taken c) (written s) D partial → stream_refused s0 s →
  write_post s0 c (BufferNotEmpty, mkSorted s c b false).
Proof.
  intros H Hr. split_and!; cbn; try done; [by eapply writing_in_order|]. intros _. by exists D, partial.
Qed.

Lemma sorted_write_spec fuel w D partial :
  writing (sequence_buffer w) (taken (rx_to_write w)) (written (stream w)) D partial →
  shutting_down w = false → (length (writes (stream w)) < fuel)%nat →
  returns (sorted_write_loop fuel w) (write_post (stream w) (rx_to_write w)).
Proof.
  revert w D partial. induction fuel as [|fuel IH]; intros w D partial H Hs Hf; [lia|].
  cbn [sorted_write_loop]. destruct w as [s c b sd]. cbn in H, Hs, Hf |- *. subst sd.
  pose proof (writing_poll_None _ _ _ _ _ H) as HN.
  pose proof (λ q k, writing_repush _ _ _ _ _ q k H) as HR.
  pose proof (λ q, writing_next _ _ _ _ _ q H) as HX.
  pose proof (λ q, writing_finish _ _ _ _ _ q H) as HF.
  destruct (sb_poll b) as [[q|] b1]; cbn in *.
  2:{ destruct (HN eq_refl) as [-> Hall]. apply returns_ret. split_and!; cbn; try done.
      - by eapply writing_in_order.
      - intros _. by exists D, partial. }
  assert (Hin : writing b (taken c) (written s) D partial) by done. apply writing_in_order in Hin.
  assert (HR0 : ∃ b', sb_repush b1 q = Ret b' ∧ writing b' (taken c) (written s) D partial).
  { destruct (HR q 0%nat eq_refl) as (b' & E & Hb'). exists b'. rewrite !app_nil_r in Hb'.
    rewrite drop_0 in E. split; [|done]. by destruct q. }
  unfold poll_write. destruct s as [[|a ws] shs out]; cbn in *.
  { destruct HR0 as (b' & -> & Hb'). apply returns_ret. eapply write_post_waiting; [done|by right]. }
  destruct a as [[len|]|e]; cbn.
  - case_decide as Hlen.
    + destruct (HR q len eq_refl) as (b' & -> & Hb'). cbn [mbind outcome_bind].
      eapply returns_mono; [eapply IH; cbn; [done|done|lia]|]. intros r. apply write_post_later. set_solver.
    + subst len. rewrite firstn_all.
      destruct (HX q eq_refl) as (p & Ef & Hl & Eout & Hnext). destruct (last_data q) eqn:Eq.
      * specialize (HF q eq_refl Eq). unfold stream_shutdown. cbn.
        destruct shs as [|[[?|]|?] shs]; apply returns_ret; split_and!; cbn; try done;
          try (by apply finished_in_order); intros _; by apply finished_all.
      * eapply returns_mono; [eapply IH; cbn; [by apply Hnext|done|lia]|].
        intros r. apply write_post_later. set_solver.
  - rewrite app_nil_r. destruct HR0 as (b' & -> & Hb'). apply returns_ret.
    eapply write_post_waiting; [done|]. left. left.
  - rewrite app_nil_r. destruct (indicates_dead_stream e); [by apply returns_ret|].
    destruct HR0 as (b' & -> & Hb'). cbn [mbind outcome_bind].
    eapply returns_mono; [eapply IH; cbn; [done|done|lia]|]. intros r. apply write_post_later. set_solver.
Qed.

(** One poll of a writer. *)
Definition poll_post (w : StreamWriterSorted) (r : result (Async unit) unit * StreamWriterSorted) : Prop :=
  good_channel (rx_to_write r.2) ∧
  written_in_order (taken (rx_to_write r.2)) (written (stream r.2)) ∧
  (r.1 ≠ Err tt → writer_settled r.2) ∧
  (r.1 = Ok (Ready tt) → written_all (taken (rx_to_write r.2)) (written (stream r.2))) ∧
  (r.1 = Ok NotReady → shutting_down r.2 = false →
     written_all (taken (rx_to_write r.2)) (written (stream r.2)) ∨ stream_refused (stream w) (stream r.2)).

Lemma sorted_poll_spec w :
  writer_settled w → good_channel (rx_to_write w) → returns (sorted_poll w) (poll_post w).
Proof.
  intros Hw Hg. unfold sorted_poll. pose proof (settled_in_order w Hw) as Hin.
  unfold writer_settled in Hw. destruct (shutting_down w) eqn:Es.
  { apply returns_ret. unfold sorted_shutdown, stream_shutdown, poll_post, writer_settled.
    pose proof (finished_all _ _ Hw). destruct (shutdowns (stream w)) as [|[[[]|]|?] ?]; cbn; rewrite Es; done. }
  destruct Hw as (D & partial & H).
  ret_via ltac:(apply (sorted_read_spec _ w D partial); [done|done|lia]).
  intros [st w1] (H1 & Hg1 & Est & Es1). cbn [fst snd] in H1, Hg1, Est, Es1. cbv beta iota.
  ret_via ltac:(apply (sorted_write_spec _ w1 D partial); [done|congruence|lia]).
  intros [ws w2] (Ec & Hord & Hset & Hall & Href). cbn in *. apply returns_ret.
  unfold poll_post. cbn. rewrite Ec, <-Est. split; [done|]. split; [done|].
  destruct st, ws; split_and!; try done; eauto.
Qed.

(** The executor polls a future until it is ready or fails. *)
Fixpoint drive {W} (poll : W → outcome (result (Async unit) unit * W)) (n : nat) (w : W) :
    outcome (result (Async unit) unit * W) :=
  match n with
  | O => mret (Ok NotReady, w)
  | S n' =>
      p ← poll w;
      match p.1 with
      | Ok NotReady => drive poll n' p.2
      | _ => mret p
      end
  end.

Lemma drive_spec {W} (poll : W → outcome (result (Async unit) unit * W)) (I : W → Prop)
    (Q : result (Async unit) unit * W → Prop) n w :
  (∀ w, I w → returns (poll w) (λ r, Q r ∧ (r.1 = Ok NotReady → I r.2))) →
  I w → Q (Ok NotReady, w) → returns (drive poll n w) Q.
Proof.
  intros Hpoll. revert w. induction n as [|n IH]; intros w Hw HQ; [by apply returns_ret|]. cbn [drive].
  ret_via ltac:(by apply Hpoll). intros [r w'] [HQ' HI]. cbn in *.
  destruct r as [[[]|]|[]]; [by apply returns_ret|apply IH; auto|by apply returns_ret].
Qed.

(** ** The writer of the proxy client does what the sorted writer does *)
Definition status_of (s : WriteBufferStatus) : result (Async unit) unit :=
  match s with StreamInError => Err tt | BufferNotEmpty => Ok NotReady | BufferEmpty => Ok (Ready tt) end.

Lemma pc_write_loop_eq fuel w :
  pc_write_loop fuel w = (p ← sorted_write_loop fuel w; mret (status_of p.1, p.2)).
Proof.
  revert w. induction fuel as [|fuel IH]; intros w; [done|]. cbn [pc_write_loop sorted_write_loop].
  destruct (sb_poll (sequence_buffer w)) as [[q|] b]; [|done].
  destruct (poll_write (stream w) (data q)) as [[[len|]|e] s].
  - case_decide.
    + destruct (sb_repush _ _) as [b'|]; [apply IH|done].
    + destruct (last_data q); [|apply IH]. unfold pc_shutdown. cbn [stream].
      by destruct (stream_shutdown s) as [[[?|]|?] s'].
  - by destruct (sb_repush b q).
  - destruct (indicates_dead_stream e); [done|]. destruct (sb_repush b q); [apply IH|done].
Qed.

Lemma pc_read_loop_eq fuel w :
  pc_read_loop fuel w =
    (p ← sorted_read_loop fuel w;
     mret (match p.1 with Closed => Ok (Ready tt) | StillOpen => Ok NotReady end, p.2)).
Proof.
  revert w. induction fuel as [|fuel IH]; intros w; [done|]. cbn [pc_read_loop sorted_read_loop].
  destruct (channel_poll (rx_to_write w)) as [[[[p|]|]|?] c]; done.
Qed.

Lemma pc_poll_eq w : pc_poll w = sorted_poll w.
Proof.
  unfold pc_poll, sorted_poll, pc_read_data_from_channel, sorted_read_data_from_channel,
    pc_write_from_buffer_to_stream, sorted_write_from_buffer_to_stream.
  destruct (shutting_down w).
  { unfold pc_shutdown, sorted_shutdown. by destruct (stream_shutdown _) as [[[[]|]|?] ?]. }
  rewrite pc_read_loop_eq. destruct (sorted_read_loop _ w) as [[st w1]|]; [|done].
  cbn [mbind outcome_bind mret outcome_ret fst snd]. rewrite pc_write_loop_eq.
  destruct (sorted_write_loop _ w1) as [[ws w2]|]; [|done]. by destruct st, ws.
Qed.

(** the two writers that sort packets are one: the writer of the proxy client
    gives the same answers, writes the same bytes and goes through the same states as
    the writer of the stream handler pool. *)
Theorem stream_writers_agree n w : drive pc_poll n w = drive sorted_poll n w.
Proof.
  revert w. induction n as [|n IH]; intros w; [done|]. cbn [drive]. rewrite pc_poll_eq.
  destruct (sorted_poll w) as [[[[[]|]|[]] w']|]; try done. apply IH.
Qed.

Lemma sorted_drive_spec n w :
  writer_settled w → good_channel (rx_to_write w) →
  returns (drive sorted_poll n w) (λ r,
    written_in_order (taken (rx_to_write r.2)) (written (stream r.2)) ∧
    (r.1 = Ok (Ready tt) → written_all (taken (rx_to_write r.2)) (written (stream r.2)))).
Proof.
  intros Hw Hg. apply (drive_spec _ (λ w, writer_settled w ∧ good_channel (rx_to_write w))).
  - intros w' [Hw' Hg']. eapply returns_mono; [by apply sorted_poll_spec|].
    intros [r w''] (Hg2 & Hin & Hset & Hall & _). cbn in *. split; [by split|]. intros ->. split; [|done].
    by apply Hset.
  - done.
  - split; [by apply settled_in_order|done].
Qed.

Lemma new_settled ws shs rx :
  writer_settled (sorted_new (mkStream ws shs []) (mkChannel rx [])).
Proof.
  exists [], []. cbn. split_and!; try done. apply sb_new_inv.
Qed.

(** C9: whatever order packets arrive in, and however the stream answers (partial
    writes, refusals, recoverable errors, a dead stream), the sorted writer never
    panics; the bytes that it has put on the stream are the data of packet 0, packet
    1 and so on, each once and in full but for the last, and nothing behind the packet
    marked as the last one; and when the writer completes, everything that could be
    written has been. *)
Theorem sorted_writer_in_order n ws shs rx :
  Forall good_answer rx →
  ∃ r w, drive sorted_poll n (sorted_new (mkStream ws shs []) (mkChannel rx [])) = Ret (r, w) ∧
    written_in_order (taken (rx_to_write w)) (written (stream w)) ∧
    (r = Ok (Ready tt) → written_all (taken (rx_to_write w)) (written (stream w))).
Proof.
  intros Hg. destruct (returns_inv _ _ (sorted_drive_spec n _ (new_settled ws shs rx) Hg)) as ([r w] & E & H).
  by exists r, w.
Qed.

(** Two packets out of order, a refusal and a partial write. *)
Definition sample_rx : list ChannelAnswer :=
  [Ok (Ready (Some (mkPacket [4; 5] 1 true))); Ok (Ready (Some (mkPacket [1; 2; 3] 0 false)));
   Ok NotReady; Ok (Ready None)].

Lemma sorted_writer_in_order_witness :
  Forall good_answer sample_rx ∧
  ∃ r w, drive sorted_poll 5
    (sorted_new (mkStream [Ok (Ready 2%nat); Ok NotReady; Err Interrupted; Ok (Ready 1%nat); Ok (Ready 2%nat)]
                   [Ok (Ready tt)] []) (mkChannel sample_rx [])) = Ret (r, w) ∧
    written (stream w) = [1; 2; 3; 4; 5].
Proof.
  assert (H : Forall good_answer sample_rx)
    by (repeat constructor; cbn; unfold numbered; cbn; lia).
  split; [done|].
  destruct (sorted_writer_in_order 5
    [Ok (Ready 2%nat); Ok NotReady; Err Interrupted; Ok (Ready 1%nat); Ok (Ready 2%nat)]
    [Ok (Ready tt)] sample_rx H) as (r & w & E & _).
  exists r, w. split; [exact E|]. revert E. vm_compute. by intros [= <- <-].
Defined.

(** C33: progress: a poll of a settled writer that leaves data unwritten has been refused
    by the stream; a stream that is never busy gets everything that is in order. *)
Theorem sorted_writer_progress w r w' :
  writer_settled w → good_channel (rx_to_write w) → sorted_poll w = Ret (r, w') →
  Ok NotReady ∉ writes (stream w) → writes (stream w') ≠ [] →
  r ≠ Err tt → shutting_down w' = false →
  written_all (taken (rx_to_write w')) (written (stream w')).
Proof.
  intros Hw Hg E Hn Hne Hr Hs.
  pose proof (returns_elim _ _ _ (sorted_poll_spec w Hw Hg) E) as (_ & _ & _ & Hall & Hwait). cbn in *.
  destruct r as [[[]|]|[]]; [by apply Hall| |done].
  destruct (Hwait eq_refl Hs) as [|[?|?]]; done.
Qed.

Lemma sorted_writer_progress_witness :
  written_all [mkPacket [7; 8] 0 false] [7; 8].
Proof.
  refine (sorted_writer_progress
    (sorted_new (mkStream [Ok (Ready 2%nat); Ok (Ready 1%nat)] [] [])
       (mkChannel [Ok (Ready (Some (mkPacket [7; 8] 0 false))); Ok NotReady] []))
    (Ok NotReady)
    (mkSorted (mkStream [Ok (Ready 1%nat)] [] [7; 8])
       (mkChannel [] [mkPacket [7; 8] 0 false]) (mkSequenceBuffer [] 1 []) false)
    (new_settled _ _ _) _ _ _ _ _ _).
  - repeat constructor; cbn; unfold numbered; cbn; lia.
  - reflexivity.
  - cbn. intros H. repeat (apply elem_of_cons in H as [?|H]; [discriminate|]). by apply elem_of_nil in H.
  - discriminate.
  - discriminate.
  - reflexivity.
Defined.

(** ** The unsorted writer *)
Definition unsorted_bytes (w : StreamWriterUnsorted) : list Z :=
  written (u_stream w) ++ from_option data [] (buf w).

Definition arrived (w : StreamWriterUnsorted) : list Z := concat (data <$> taken (u_rx_to_write w)).

Definition open_channel (c : Channel) : Prop := Forall (λ a : ChannelAnswer, a ≠ Err tt) (answers c).

Definition unsorted_post (r : result (Async unit) unit * StreamWriterUnsorted) : Prop :=
  open_channel (u_rx_to_write r.2) ∧ written (u_stream r.2) `prefix_of` arrived r.2 ∧
  (r.1 ≠ Err tt → unsorted_bytes r.2 = arrived r.2) ∧ (r.1 = Ok (Ready tt) → buf r.2 = None).

Lemma unsorted_loop_spec fuel w :
  unsorted_bytes w = arrived w → open_channel (u_rx_to_write w) →
  (length (answers (u_rx_to_write w)) + length (writes (u_stream w)) < fuel)%nat →
  returns (unsorted_loop fuel w) unsorted_post.
Proof.
  revert w. induction fuel as [|fuel IH]; intros [s c bu] H Hg Hf; [lia|].
  unfold unsorted_bytes, arrived in H. cbn in H, Hg, Hf. cbn [unsorted_loop buf u_rx_to_write u_stream].
  assert (Hpre : written s `prefix_of` concat (data <$> taken c)) by (rewrite <-H; by exists (from_option data [] bu)).
  destruct bu as [q|].
  - unfold poll_write. destruct s as [[|a ws] shs out]; cbn in H, Hf, Hpre |- *.
    { apply returns_ret. by split_and!. }
    destruct a as [[len|]|e]; cbn.
    + apply IH; [|done|cbn; lia]. unfold unsorted_bytes, arrived. cbn. rewrite <-H. case_decide; cbn.
      * by rewrite <-app_assoc, take_drop.
      * subst len. by rewrite firstn_all, app_nil_r.
    + apply returns_ret. rewrite app_nil_r. by split_and!.
    + rewrite app_nil_r. destruct (indicates_dead_stream e); [apply returns_ret; by split_and!|].
      apply IH; [done|done|cbn; lia].
  - cbn in H. rewrite app_nil_r in H. unfold channel_poll.
    destruct c as [[|a rest] tk]; cbn in H, Hg, Hf, Hpre |- *.
    { apply returns_ret. split_and!; try done. intros _. unfold unsorted_bytes. cbn. by rewrite app_nil_r. }
    apply Forall_cons_1 in Hg as [Ha Hg]. destruct a as [[[d|]|]|[]]; [| | |done].
    + apply IH; [|done|cbn in *; lia]. unfold unsorted_bytes, arrived. cbn.
      rewrite fmap_app, concat_app, <-H. cbn. by rewrite app_nil_r.
    + apply returns_ret. rewrite app_nil_r. split_and!; try done. intros _. unfold unsorted_bytes. cbn. by rewrite app_nil_r.
    + apply returns_ret. rewrite app_nil_r. split_and!; try done. intros _. unfold unsorted_bytes. cbn. by rewrite app_nil_r.
Qed.

(** the unsorted writer puts the data of the packets on the stream in the order
    in which they arrive, each byte once: it never panics, what it has written is a
    prefix of what has arrived, what is missing is in its buffer unless the stream
    died, and when it completes nothing is missing. *)
Theorem unsorted_writer_in_order n ws shs rx :
  Forall (λ a : ChannelAnswer, a ≠ Err tt) rx →
  ∃ r w, drive unsorted_poll n (unsorted_new (mkStream ws shs []) (mkChannel rx [])) = Ret (r, w) ∧
    written (u_stream w) `prefix_of` concat (data <$> taken (u_rx_to_write w)) ∧
    (r ≠ Err tt → written (u_stream w) ++ from_option data [] (buf w) = concat (data <$> taken (u_rx_to_write w))) ∧
    (r = Ok (Ready tt) → written (u_stream w) = concat (data <$> taken (u_rx_to_write w))).
Proof.
  intros Hg. set (w0 := unsorted_new _ _).
  assert (Hd : returns (drive unsorted_poll n w0) unsorted_post).
  { apply (drive_spec _ (λ w, unsorted_bytes w = arrived w ∧ open_channel (u_rx_to_write w))).
    - intros w [H Ho]. eapply returns_mono; [apply unsorted_loop_spec; [done|done|lia]|].
      intros [r w'] Hpost. split; [done|]. cbn. intros ->. destruct Hpost as (Ho' & _ & Hb & _). split; [by apply Hb|done].
    - done.
    - split_and!; try done; by exists []. }
  destruct (returns_inv _ _ Hd) as ([r w] & E & (_ & Hp & Hb & Hn)). cbn in *. exists r, w.
  split_and!; [done|done|done|]. intros ->. specialize (Hb ltac:(done)). unfold unsorted_bytes in Hb.
  rewrite Hn in Hb by done. by rewrite app_nil_r in Hb.
Qed.

Lemma unsorted_writer_in_order_witness :
  ∃ r w, drive unsorted_poll 4
    (unsorted_new (mkStream [Ok (Ready 2%nat); Ok NotReady; Ok (Ready 1%nat); Ok (Ready 2%nat)] [] [])
       (mkChannel sample_rx [])) = Ret (r, w) ∧
    written (u_stream w) = [4; 5; 1; 2; 3].
Proof.
  destruct (unsorted_writer_in_order 4 [Ok (Ready 2%nat); Ok NotReady; Ok (Ready 1%nat); Ok (Ready 2%nat)] [] sample_rx)
    as (r & w & E & _).
  - repeat constructor; discriminate.
  - exists r, w. split; [exact E|]. revert E. vm_compute. by intros [= <- <-].
Defined.
