(* ===== verification/Framing.v ===== *)
(** * Framers and discriminators

    Models how bytes read from a stream become packets: the [Framer] trait
    ([node/src/sub_lib/framer.rs]), the framer of clandestine JSON
    ([node/src/json_framer.rs]), the framer of TLS records
    ([node/src/sub_lib/tls_framer.rs]), [Discriminator] ([node/src/discriminator.rs])
    and the masqueraders ([null_masquerader.rs], [json_masquerader.rs]).  Bytes are
    numbers; [serde_json] and [base64] are parameters. *)

From S2P Require Import Prelude.
From S2P Require Import Bytes.

Record FramedChunk := mkFrame { chunk : list Z; last_chunk : bool }.

(** The trait [Framer]. *)
Class Framer (F : Type) := {
  add_data : F → list Z → F;
  take_frame : F → outcome (option FramedChunk * F)
}.

(** ** [JsonFramer] *)
Definition SQ : Z := 39.
Definition DQ : Z := 34.
Definition BS : Z := 92.
Definition OB : Z := 123.
Definition CB : Z := 125.

(** The wrap-around of an [i32]. *)
Definition as_i32 (z : Z) : Z :=
  let r := z mod 2 ^ 32 in if r <? 2 ^ 31 then r else r - 2 ^ 32.

Record JsonFramer := mkJsonFramer {
  possible_start : option nat;
  possible_end : option nat;
  json_data : list Z;
  brace_nest_count : Z;
  in_single_quote_string : bool;
  in_double_quote_string : bool;
  after_backslash : bool
}.

Definition JsonFramer_new : JsonFramer := mkJsonFramer None None [] 0 false false false.

Definition json_add_data (f : JsonFramer) (d : list Z) : JsonFramer :=
  mkJsonFramer (possible_start f) (possible_end f) (json_data f ++ d) (brace_nest_count f)
    (in_single_quote_string f) (in_double_quote_string f) (after_backslash f).

Definition json_reset (f : JsonFramer) : JsonFramer :=
  mkJsonFramer None None (json_data f) 0 false false false.

Definition check_data_chunk (f : JsonFramer) : outcome (option (list Z) * JsonFramer) :=
  match possible_start f, possible_end f with
  | Some start, Some end_ =>
      let f := json_reset f in
      chunk ← slice (json_data f) start end_;
      mret (Some chunk, f)
  | _, _ => mret (None, f)
  end.

Definition set_single (f : JsonFramer) (b : bool) : JsonFramer :=
  mkJsonFramer (possible_start f) (possible_end f) (json_data f) (brace_nest_count f)
    b (in_double_quote_string f) (after_backslash f).
Definition set_double (f : JsonFramer) (b : bool) : JsonFramer :=
  mkJsonFramer (possible_start f) (possible_end f) (json_data f) (brace_nest_count f)
    (in_single_quote_string f) b (after_backslash f).
Definition set_after_backslash (f : JsonFramer) (b : bool) : JsonFramer :=
  mkJsonFramer (possible_start f) (possible_end f) (json_data f) (brace_nest_count f)
    (in_single_quote_string f) (in_double_quote_string f) b.
Definition set_count (f : JsonFramer) (n : Z) : JsonFramer :=
  mkJsonFramer (possible_start f) (possible_end f) (json_data f) n
    (in_single_quote_string f) (in_double_quote_string f) (after_backslash f).
Definition set_start (f : JsonFramer) (o : option nat) : JsonFramer :=
  mkJsonFramer o (possible_end f) (json_data f) (brace_nest_count f)
    (in_single_quote_string f) (in_double_quote_string f) (after_backslash f).
Definition set_end (f : JsonFramer) (o : option nat) : JsonFramer :=
  mkJsonFramer (possible_start f) o (json_data f) (brace_nest_count f)
    (in_single_quote_string f) (in_double_quote_string f) (after_backslash f).

Definition handle_quotes (f : JsonFramer) (byte : Z) : JsonFramer :=
  match possible_start f with
  | None => f
  | Some _ =>
      match in_single_quote_string f, byte =? SQ, in_double_quote_string f, byte =? DQ with
      | false, false, false, true => set_double f true
      | false, false, true, true => set_double f false
      | false, true, false, false => set_single f true
      | true, true, false, false => set_single f false
      | _, _, _, _ => f
      end
  end.

Definition handle_braces (f : JsonFramer) (byte : Z) (offset : nat) : JsonFramer :=
  if byte =? OB then
    let f := set_count f (as_i32 (brace_nest_count f + 1)) in
    if brace_nest_count f =? 1
    then set_start (set_count (json_reset f) 1) (Some offset)
    else f
  else if byte =? CB then
    let f := set_count f (as_i32 (brace_nest_count f - 1)) in
    if brace_nest_count f <? 0 then set_start (set_count f 0) None
    else if (brace_nest_count f =? 0) && bool_decide (is_Some (possible_start f))
    then set_end f (Some (offset + 1)%nat)
    else f
  else f.

Definition update_state (f : JsonFramer) (byte : Z) (offset : nat) : JsonFramer :=
  if after_backslash f then set_after_backslash f false
  else
    let f := handle_quotes f byte in
    if negb (in_single_quote_string f) && negb (in_double_quote_string f)
    then handle_braces f byte offset
    else if bool_decide (is_Some (possible_start f)) && (byte =? BS)
    then set_after_backslash f true
    else f.

Definition set_json_data (f : JsonFramer) (d : list Z) : JsonFramer :=
  mkJsonFramer (possible_start f) (possible_end f) d (brace_nest_count f)
    (in_single_quote_string f) (in_double_quote_string f) (after_backslash f).

(** The loop over the bytes: [rest] is what is left from index [i] on. *)
Fixpoint json_take_loop (f : JsonFramer) (rest : list Z) (i : nat) :
    outcome (option FramedChunk * JsonFramer) :=
  match rest with
  | [] => mret (None, f)
  | byte :: rest' =>
      let f := update_state f byte i in
      p ← check_data_chunk f;
      let '(chunk_opt, f) := p in
      match chunk_opt with
      | Some chunk =>
          d ← slice_from (json_data f) (i + 1);
          mret (Some (mkFrame chunk true), set_json_data f d)
      | None => json_take_loop f rest' (S i)
      end
  end.

Definition json_take_frame (f : JsonFramer) : outcome (option FramedChunk * JsonFramer) :=
  let f := json_reset f in
  p ← json_take_loop f (json_data f) 0;
  let '(frame, f) := p in
  match frame with
  | Some _ => mret (frame, f)
  | None =>
      match possible_start f, possible_end f with
      | None, None => mret (None, set_json_data f [])
      | Some start, None =>
          d ← slice_from (json_data f) start;
          mret (None, set_start (set_json_data f d) (Some 0%nat))
      | _, _ => Panic "Internal error framing JSON"
      end
  end.

#[export] Instance JsonFramer_Framer : Framer JsonFramer :=
  {| add_data := json_add_data; take_frame := json_take_frame |}.

(** ** [TlsFramer] *)
Record TlsFramer := mkTlsFramer { tls_data : list Z }.

Definition TlsFramer_new : TlsFramer := mkTlsFramer [].

Definition PRESERVE_HEADER_LEN : nat := 4.

Definition is_valid_content_type (candidate : Z) : bool := (20 <=? candidate) && (candidate <=? 23).

Definition is_valid_protocol_version (byte1 byte2 : Z) : bool :=
  (byte1 =? 3) && ((byte2 =? 1) || (byte2 =? 3)).

Definition convert_to_usize (hi_byte lo_byte : Z) : nat := Z.to_nat (Z.lor (Z.shiftl hi_byte 8) lo_byte).

Definition search_for_frame_offset (d : list Z) : outcome (result nat nat) :=
  match index_of d [3] with
  | None => mret (Err 0%nat)
  | Some O => mret (Err 1%nat)
  | Some possible =>
      let offset := (possible - 1)%nat in
      if (length d <=? offset + 4)%nat then mret (Err 0%nat)
      else
        b0 ← byte_at d offset;
        b1 ← byte_at d (offset + 1);
        b2 ← byte_at d (offset + 2);
        if is_valid_content_type b0 && is_valid_protocol_version b1 b2
        then mret (Ok offset) else mret (Err (offset + 1)%nat)
  end.

(** Every turn but the last moves the offset forward: as many turns as there are bytes. *)
Fixpoint find_frame_offset_loop (fuel : nat) (d : list Z) (accumulated_offset : nat) : outcome (option nat) :=
  match fuel with
  | O => Panic "out of fuel"
  | S fuel' =>
      tail ← slice_from d accumulated_offset;
      r ← search_for_frame_offset tail;
      match r with
      | Ok offset => mret (Some (accumulated_offset + offset)%nat)
      | Err O => mret None
      | Err next_offset => find_frame_offset_loop fuel' d (accumulated_offset + next_offset)
      end
  end.

Definition find_frame_offset (d : list Z) : outcome (option nat) :=
  find_frame_offset_loop (S (length d)) d 0.

(** [Vec::split_off]: panics beyond the end. *)
Definition split_off (d : list Z) (at_ : nat) : outcome (list Z * list Z) :=
  if decide (at_ ≤ length d)%nat then mret (take at_ d, drop at_ d) else Panic "split_off out of range".

Definition tls_add_data (f : TlsFramer) (d : list Z) : TlsFramer := mkTlsFramer (tls_data f ++ d).

Definition tls_take_frame (f : TlsFramer) : outcome (option FramedChunk * TlsFramer) :=
  let data_so_far_len := length (tls_data f) in
  o ← find_frame_offset (tls_data f);
  match o with
  | None =>
      let split_point :=
        if (data_so_far_len <? PRESERVE_HEADER_LEN)%nat then data_so_far_len
        else (data_so_far_len - PRESERVE_HEADER_LEN)%nat in
      p ← split_off (tls_data f) split_point;
      mret (None, mkTlsFramer p.2)
  | Some offset =>
      p ← split_off (tls_data f) offset;
      let from_offset := p.2 in
      hi ← byte_at from_offset 3;
      lo ← byte_at from_offset 4;
      let len := convert_to_usize hi lo in
      if (5 + len <=? length from_offset)%nat
      then
        q ← split_off from_offset (5 + len);
        mret (Some (mkFrame q.1 false), mkTlsFramer q.2)
      else mret (None, mkTlsFramer from_offset)
  end.

#[export] Instance TlsFramer_Framer : Framer TlsFramer :=
  {| add_data := tls_add_data; take_frame := tls_take_frame |}.

(** ** Masqueraders *)
Record UnmaskedChunk := mkUnmasked { u_chunk : list Z; u_last_chunk : bool; sequenced : bool }.

Inductive MasqueradeError :=
| NotThisMasquerader
| LowLevelDataError (s : string)
| MidLevelDataError (s : string)
| HighLevelDataError (s : string).

(** The trait [Masquerader]; [mask] may panic. *)
Record Masquerader := mkMasquerader {
  try_unmask : list Z → result UnmaskedChunk MasqueradeError;
  mask : list Z → outcome (result (list Z) MasqueradeError)
}.

Definition NullMasquerader : Masquerader :=
  mkMasquerader (λ item, Ok (mkUnmasked item true true)) (λ d, mret (Ok d)).

(** ** [Discriminator] over any framer *)
Section Discriminator.
Context {F : Type} `{Framer F}.

Record Discriminator := mkDiscriminator { framer : F; masqueraders : list Masquerader }.

Definition Discriminator_new (f : F) (ms : list Masquerader) : outcome Discriminator :=
  match ms with
  | [] => Panic "Discriminator must be given at least one Masquerader"
  | _ => mret (mkDiscriminator f ms)
  end.

Definition disc_add_data (d : Discriminator) (bytes : list Z) : Discriminator :=
  mkDiscriminator (add_data (framer d) bytes) (masqueraders d).

(** The first masquerader that can unmask the frame. *)
Fixpoint first_unmask (ms : list Masquerader) (bytes : list Z) : option UnmaskedChunk :=
  match ms with
  | [] => None
  | m :: ms' =>
      match try_unmask m bytes with
      | Ok c => Some c
      | Err _ => first_unmask ms' bytes
      end
  end.

Definition take_chunk (d : Discriminator) : outcome (option UnmaskedChunk * Discriminator) :=
  p ← take_frame (framer d);
  let d := mkDiscriminator p.2 (masqueraders d) in
  mret (match p.1 with
        | None => None
        | Some frame => first_unmask (masqueraders d) (chunk frame)
        end, d).
End Discriminator.
Arguments Discriminator : clear implicits.
