(* ===== verification/FramingFacts.v ===== *)
(** * Correctness of the framers

    Messages are found again in a byte stream that arrives in arbitrary pieces; no
    bytes make a framer panic; frames are pieces of the data that came in. *)

From S2P Require Import Prelude.
From S2P Require Import Bytes.
From S2P Require Import Framing.

(** ** The texts of JSON objects, as the framer sees them *)

(** The inside of a string that is delimited by [q]. *)
Inductive string_body (q : Z) : list Z → Prop :=
| string_nil : string_body q []
| string_char b l : b ≠ q → b ≠ BS → string_body q l → string_body q (b :: l)
| string_escape b l : string_body q l → string_body q (BS :: b :: l).

(** What stands between two braces that belong together. *)
Inductive json_body : list Z → Prop :=
| body_nil : json_body []
| body_char b l : b ≠ SQ → b ≠ DQ → b ≠ OB → b ≠ CB → json_body l → json_body (b :: l)
| body_string q s l :
    q = SQ ∨ q = DQ → string_body q s → json_body l → json_body (q :: s ++ q :: l)
| body_object o l : json_body o → json_body l → json_body (OB :: o ++ CB :: l).

Definition object_text (l : list Z) : Prop := ∃ b, json_body b ∧ l = OB :: b ++ [CB].

(** ** Scanning *)
Lemma as_i32_small z : - 2 ^ 31 ≤ z < 2 ^ 31 → as_i32 z = z.
Proof.
  intros H. unfold as_i32. destruct (decide (0 ≤ z)).
  - rewrite Z.mod_small by lia. by destruct (Z.ltb_spec z (2 ^ 31)); [|lia].
  - rewrite <-(Z.mod_add z 1), Z.mod_small by lia.
    destruct (Z.ltb_spec (z + 1 * 2 ^ 32) (2 ^ 31)); lia.
Qed.

(** Inside an object that started at [st], [n] braces deep. *)
Definition inside (d : list Z) (st : nat) (n : Z) : JsonFramer :=
  mkJsonFramer (Some st) None d n false false false.

(** Inside a string in there. *)
Definition quoted (q : Z) (d : list Z) (st : nat) (n : Z) : JsonFramer :=
  mkJsonFramer (Some st) None d n (q =? SQ) (q =? DQ) false.

Definition open (st : nat) (f : JsonFramer) : Prop := possible_start f = Some st ∧ possible_end f = None.

(** [path st i f l g]: the bytes [l], at index [i] and on, take the framer from [f] to
    [g] without leaving the object. *)
Inductive path (st : nat) : nat → JsonFramer → list Z → JsonFramer → Prop :=
| path_nil i f : path st i f [] f
| path_cons i f b l g :
    open st (update_state f b i) → path st (S i) (update_state f b i) l g → path st i f (b :: l) g.

Lemma path_app st i f l1 g l2 h :
  path st i f l1 g → path st (i + length l1) g l2 h → path st i f (l1 ++ l2) h.
Proof.
  induction 1 as [|i f b l g Ho _ IH]; intros H2; simpl in *; [by rewrite Nat.add_0_r in H2|].
  constructor; [done|]. apply IH. by rewrite Nat.add_succ_r in H2.
Qed.

Lemma path_prefix st i f l1 l2 h :
  open st f → path st i f (l1 ++ l2) h → ∃ g, path st i f l1 g ∧ open st g.
Proof.
  revert i f. induction l1 as [|b l1 IH]; intros i f Ho Hp; [exists f; split; [constructor|done]|].
  inversion Hp as [|????? Ho' Hp']; subst. destruct (IH _ _ Ho' Hp') as (g & Hg & Hog).
  exists g. split; [by constructor|done].
Qed.

Lemma path_one st i f b g : update_state f b i = g → open st g → path st i f [b] g.
Proof. intros <- H. constructor; [done|constructor]. Qed.

Lemma path_step st i f b g l h :
  update_state f b i = g → open st g → path st (S i) g l h → path st i f (b :: l) h.
Proof. intros <- Ho Hp. by constructor. Qed.

Lemma loop_path st i f l g rest :
  path st i f l g → json_take_loop f (l ++ rest) i = json_take_loop g rest (i + length l).
Proof.
  induction 1 as [|i f b l g [Hs He] _ IH]; simpl; [by rewrite Nat.add_0_r|].
  unfold check_data_chunk. rewrite Hs, He. cbn [mbind outcome_bind mret outcome_ret].
  rewrite IH. f_equal. lia.
Qed.

Lemma eqb_false (a b : Z) : a ≠ b → (a =? b) = false.
Proof. apply Z.eqb_neq. Qed.

Lemma string_path q s d st n i :
  q = SQ ∨ q = DQ → string_body q s → path st i (quoted q d st n) (s ++ [q]) (inside d st n).
Proof.
  intros Hq Hs. revert i. induction Hs as [|b l Hb Hbs Hl IH|b l Hl IH]; intros i.
  - apply path_one; [|done]. by destruct Hq as [->| ->].
  - apply (path_step _ _ _ _ (quoted q d st n)); [|by split|apply IH]. destruct Hq as [->| ->]; unfold update_state, handle_quotes;
      cbn -[Z.eqb SQ DQ BS]; rewrite (eqb_false b _ Hb); cbn -[Z.eqb SQ DQ BS];
      [destruct (b =? DQ)|destruct (b =? SQ)]; cbn -[Z.eqb SQ DQ BS]; by rewrite (eqb_false b _ Hbs).
  - simpl. eapply (path_step _ _ _ _ (set_after_backslash (quoted q d st n) true)); [|by split|].
    { by destruct Hq as [->| ->]. }
    apply (path_step _ _ _ _ (quoted q d st n)); [done|by split|apply IH].
Qed.

Lemma body_path l d st n i :
  json_body l → 1 ≤ n → n + Z.of_nat (length l) < 2 ^ 31 → path st i (inside d st n) l (inside d st n).
Proof.
  intros Hl. revert n i. induction Hl as [|b l H1 H2 H3 H4 Hl IH|q s l Hq Hs Hl IH|o l Ho IHo Hl IH]; intros n i Hn Hb.
  - constructor.
  - apply (path_step _ _ _ _ (inside d st n)); [|by split|apply IH; [done|simpl in Hb; lia]].
    unfold update_state, handle_quotes. cbn -[Z.eqb SQ DQ BS OB CB].
    rewrite (eqb_false b SQ), (eqb_false b DQ) by done. cbn -[Z.eqb SQ DQ BS OB CB]. unfold handle_braces.
    by rewrite (eqb_false b OB), (eqb_false b CB) by done.
  - eapply (path_step _ _ _ _ (quoted q d st n)); [by destruct Hq as [->| ->]|by split|].
    change (q :: l) with ([q] ++ l). rewrite app_assoc.
    simpl in Hb. rewrite length_app in Hb. simpl in Hb.
    eapply path_app; [by apply string_path|]. apply IH; [done|]. lia.
  - simpl in Hb. rewrite length_app in Hb. simpl in Hb.
    eapply (path_step _ _ _ _ (inside d st (n + 1))); [|by split|].
    { unfold update_state. cbn -[Z.eqb SQ DQ BS OB CB as_i32 Z.add]. change (OB =? SQ) with false.
      change (OB =? DQ) with false. cbn -[Z.eqb SQ DQ BS OB CB as_i32 Z.add]. unfold handle_braces.
      rewrite Z.eqb_refl. cbn -[Z.eqb SQ DQ BS OB CB as_i32 Z.add]. rewrite as_i32_small by lia.
      by rewrite (eqb_false (n + 1) 1) by lia. }
    eapply path_app; [apply IHo; lia|].
    eapply (path_step _ _ _ _ (inside d st n)); [|by split|apply IH; lia].
    unfold update_state. cbn -[Z.eqb Z.ltb SQ DQ BS OB CB as_i32 Z.sub Z.add]. change (CB =? SQ) with false.
    change (CB =? DQ) with false. cbn -[Z.eqb Z.ltb SQ DQ BS OB CB as_i32 Z.sub Z.add]. unfold handle_braces.
    change (CB =? OB) with false. rewrite Z.eqb_refl. cbn -[Z.eqb Z.ltb SQ DQ BS OB CB as_i32 Z.sub Z.add].
    rewrite as_i32_small by lia. destruct (Z.ltb_spec (n + 1 - 1) 0); [lia|].
    rewrite (eqb_false (n + 1 - 1) 0) by lia. cbn -[Z.sub Z.add]. by replace (n + 1 - 1) with n by lia.
Qed.

(** Reading bytes does not change the data. *)
Lemma update_state_data f b i : json_data (update_state f b i) = json_data f.
Proof. unfold update_state, handle_quotes, handle_braces. repeat (case_match; try done). Qed.

Lemma path_data st i f l g : path st i f l g → json_data g = json_data f.
Proof. induction 1 as [|i f b l g _ _ IH]; [done|]. by rewrite IH, update_state_data. Qed.

(** Before the first brace nothing happens. *)
Lemma garbage_loop d l rest i :
  OB ∉ l →
  json_take_loop (mkJsonFramer None None d 0 false false false) (l ++ rest) i =
    json_take_loop (mkJsonFramer None None d 0 false false false) rest (i + length l).
Proof.
  revert i. induction l as [|b l IH]; intros i Hl; [by rewrite Nat.add_0_r|].
  apply not_elem_of_cons in Hl as [Hb Hl]. cbn [app json_take_loop].
  assert (E : update_state (mkJsonFramer None None d 0 false false false) b i =
              mkJsonFramer None None d 0 false false false).
  { unfold update_state, handle_quotes, handle_braces. cbn -[Z.eqb OB CB].
    rewrite (eqb_false b OB) by done. by destruct (b =? CB). }
  rewrite E. cbn [check_data_chunk possible_start possible_end mbind outcome_bind mret outcome_ret].
  rewrite IH by done. cbn [length]. by rewrite Nat.add_succ_r.
Qed.

(** The brace that opens an object. *)
Lemma start_loop d rest i :
  json_take_loop (mkJsonFramer None None d 0 false false false) (OB :: rest) i =
    json_take_loop (inside d i 1) rest (S i).
Proof. done. Qed.

(** The loop over garbage and the beginning of an object that is not complete. *)
Lemma json_loop_partial g o pre suf :
  OB ∉ g → json_body o → Z.of_nat (length o) < 2 ^ 31 - 1 → o = pre ++ suf →
  ∃ f, json_take_loop (mkJsonFramer None None (g ++ OB :: pre) 0 false false false) (g ++ OB :: pre) 0 = Ret (None, f) ∧
    open (length g) f ∧ json_data f = g ++ OB :: pre.
Proof.
  intros Hg Ho Hlen Epre. rewrite garbage_loop by done. simpl Nat.add. rewrite start_loop.
  pose proof (body_path o (g ++ OB :: pre) (length g) 1 (S (length g)) Ho) as Hp.
  specialize (Hp ltac:(lia) ltac:(lia)). subst o.
  apply path_prefix in Hp as (f & Hp & Hop); [|by split].
  exists f. pose proof (loop_path _ _ _ _ _ [] Hp) as E. rewrite app_nil_r in E. rewrite E.
  split_and!; [done|done|]. by rewrite (path_data _ _ _ _ _ Hp).
Qed.

(** The brace that closes the object ends the frame. *)
Lemma close_loop d st rest i :
  (st ≤ i)%nat → (i < length d)%nat →
  json_take_loop (inside d st 1) (CB :: rest) i =
    Ret (Some (mkFrame (take (i + 1 - st) (drop st d)) true),
         mkJsonFramer None None (drop (i + 1) d) 0 false false false).
Proof.
  intros H1 H2. cbn [json_take_loop].
  change (update_state (inside d st 1) CB i) with
    (mkJsonFramer (Some st) (Some (i + 1)%nat) d 0 false false false).
  unfold check_data_chunk. cbn [possible_start possible_end json_reset json_data].
  unfold slice. rewrite decide_True by lia. cbn [mbind outcome_bind mret outcome_ret json_data json_reset].
  unfold slice_from. by rewrite decide_True by lia.
Qed.

(** A framer whose next poll starts on the bytes [d]. *)
Definition holds (f : JsonFramer) (d : list Z) : Prop := json_data f = d.

(** An object behind garbage is the next frame. *)
Lemma json_take_object f g m rest :
  holds f (g ++ m ++ rest) → OB ∉ g → object_text m → Z.of_nat (length m) < 2 ^ 31 →
  ∃ f', json_take_frame f = Ret (Some (mkFrame m true), f') ∧ holds f' rest.
Proof.
  intros Hf Hg (o & Ho & ->) Hlen. unfold json_take_frame. cbv zeta.
  change (json_data (json_reset f)) with (json_data f). unfold json_reset. rewrite Hf.
  simpl in Hlen. rewrite length_app in Hlen. simpl in Hlen.
  rewrite garbage_loop by done. simpl Nat.add. cbn [app]. rewrite start_loop.
  set (d := g ++ OB :: (o ++ [CB]) ++ rest).
  pose proof (body_path o d (length g) 1 (S (length g)) Ho ltac:(lia) ltac:(lia)) as Hp.
  rewrite <-app_assoc. rewrite (loop_path _ _ _ _ _ ([CB] ++ rest) Hp). cbn [app].
  assert (Hd : length d = (length g + S (length o + 1 + length rest))%nat).
  { unfold d. rewrite length_app. simpl. rewrite !length_app. simpl. lia. }
  rewrite close_loop by lia. cbn [mbind outcome_bind mret outcome_ret].
  eexists. split; [|unfold holds; cbn [json_data]].
  - do 4 f_equal. unfold d. rewrite drop_app_length.
    replace (S (length g) + length o + 1 - length g)%nat with (length (OB :: o ++ [CB]))
      by (simpl; rewrite length_app; simpl; lia).
    change (OB :: (o ++ [CB]) ++ rest) with ((OB :: o ++ [CB]) ++ rest). apply take_app_length.
  - unfold d. replace (g ++ OB :: (o ++ [CB]) ++ rest) with ((g ++ OB :: o ++ [CB]) ++ rest)
      by (rewrite <-app_assoc; done).
    replace (S (length g) + length o + 1)%nat with (length (g ++ OB :: o ++ [CB]))
      by (rewrite length_app; simpl; rewrite length_app; simpl; lia).
    apply drop_app_length.
Qed.

(** A beginning of an object stays; nothing else does. *)
Lemma json_take_partial f pre m :
  holds f pre → object_text m → pre `prefix_of` m → pre ≠ m → Z.of_nat (length m) < 2 ^ 31 →
  ∃ f', json_take_frame f = Ret (None, f') ∧ holds f' pre.
Proof.
  intros Hf (o & Ho & ->) Hpre Hne Hlen. unfold json_take_frame. cbv zeta.
  change (json_data (json_reset f)) with (json_data f). unfold json_reset. rewrite Hf.
  destruct pre as [|b pre].
  { cbn. eexists. split; [done|]. done. }
  destruct Hpre as [suf E]. injection E as <- E.
  assert (Hs : ∃ suf', o = pre ++ suf').
  { destruct (list_eq_dec pre (o ++ [CB])) as [->|_]; [done|].
    destruct suf as [|x suf _] using rev_ind.
    - rewrite app_nil_r in E. by subst pre.
    - exists suf. rewrite app_assoc in E. by apply app_inj_2 in E as [-> _]. }
  destruct Hs as [suf' Eo]. simpl in Hlen. rewrite length_app in Hlen. simpl in Hlen.
  destruct (json_loop_partial [] o pre suf') as (f' & Hloop & [Hst Hen] & Hd); [set_solver|done|lia|done|].
  cbn [app] in Hloop. rewrite Hloop. cbn [mbind outcome_bind]. rewrite Hst, Hen. cbn [length].
  unfold slice_from. rewrite decide_True by lia. cbn [mbind outcome_bind mret outcome_ret].
  eexists. split; [done|]. unfold holds. cbn [json_data set_start set_json_data]. by rewrite Hd, drop_0.
Qed.

(** ** A stream of messages in arbitrary pieces *)

(** What a stream reader does with its framer: add what was read, and take frames
    until there is none.  A frame is never empty, so that there are at most as many
    frames as bytes. *)
Fixpoint take_frames {F} `{Framer F} (fuel : nat) (f : F) : outcome (list (list Z) * F) :=
  match fuel with
  | O => Panic "out of fuel"
  | S fuel' =>
      p ← take_frame f;
      match p.1 with
      | None => mret ([], p.2)
      | Some frame => q ← take_frames fuel' p.2; mret (chunk frame :: q.1, q.2)
      end
  end.

Fixpoint read_pieces {F} `{Framer F} (fuel : nat) (f : F) (pieces : list (list Z)) :
    outcome (list (list Z) * F) :=
  match pieces with
  | [] => mret ([], f)
  | p :: pieces' =>
      q ← take_frames fuel (add_data f p);
      r ← read_pieces fuel q.2 pieces';
      mret (q.1 ++ r.1, r.2)
  end.

(** What a framer promises for messages of some form: [holds f d] says that [d] is
    what the framer has not handed out yet. *)
Class MessageFramer (F : Type) `{Framer F} (message : list Z → Prop) := {
  holding : F → list Z → Prop;
  message_nonempty m : message m → m ≠ [];
  add_holding f d p : holding f d → holding (add_data f p) (d ++ p);
  take_message f m rest :
    holding f (m ++ rest) → message m →
    ∃ f' b, take_frame f = Ret (Some (mkFrame m b), f') ∧ holding f' rest;
  take_beginning f m pre :
    holding f pre → message m → pre `prefix_of` m → pre ≠ m →
    ∃ f', take_frame f = Ret (None, f') ∧ holding f' pre;
  take_nothing f : holding f [] → ∃ f', take_frame f = Ret (None, f') ∧ holding f' []
}.

(** A beginning of a stream: complete messages and the beginning of the next one. *)
Lemma prefix_of_messages (ms : list (list Z)) pre :
  pre `prefix_of` concat ms →
  ∃ ms1 ms2 left, ms = ms1 ++ ms2 ∧ pre = concat ms1 ++ left ∧
    match ms2 with [] => left = [] | m :: _ => left = [] ∨ left `prefix_of` m ∧ left ≠ m end.
Proof.
  revert pre. induction ms as [|m ms IH]; intros pre [suf E].
  { exists [], [], []. symmetry in E. apply app_nil in E as [-> _]. done. }
  cbn [concat] in E. symmetry in E. apply app_eq_inv in E as [(k & -> & E)|(k & -> & E)].
  - destruct (IH k) as (ms1 & ms2 & left & -> & -> & H); [by exists suf|].
    exists (m :: ms1), ms2, left. split_and!; [done|by rewrite app_assoc|done].
  - destruct k as [|x k].
    + exists [pre], ms, []. rewrite app_nil_r. split_and!; [done|simpl; by rewrite !app_nil_r|].
      destruct ms; [done|by left].
    + exists [], ((pre ++ x :: k) :: ms), pre. split_and!; [done|done|]. right.
      split; [by eexists|]. intros E'. apply (f_equal length) in E'. rewrite length_app in E'. simpl in E'. lia.
Qed.

Section MessageStream.
Context {F : Type} `{MessageFramer F message}.

Lemma take_frames_spec f ms left fuel :
  holding f (concat ms ++ left) → Forall message ms → (length ms < fuel)%nat →
  (left = [] ∨ ∃ m, message m ∧ left `prefix_of` m ∧ left ≠ m) →
  ∃ f', take_frames fuel f = Ret (ms, f') ∧ holding f' left.
Proof.
  revert f fuel. induction ms as [|m ms IH]; intros f fuel Hf Hms Hfuel Hleft;
    (destruct fuel as [|fuel]; [simpl in Hfuel; lia|]); cbn [take_frames].
  - cbn [concat app] in Hf.
    destruct Hleft as [->|(m & Hm & Hpre & Hne)].
    + destruct (take_nothing f Hf) as (f' & -> & Hf'). by exists f'.
    + destruct (take_beginning f m left Hf Hm Hpre Hne) as (f' & -> & Hf'). by exists f'.
  - apply Forall_cons_1 in Hms as [Hm Hms]. cbn [concat] in Hf. rewrite <-app_assoc in Hf.
    destruct (take_message f m _ Hf Hm) as (f' & b & -> & Hf'). cbn [mbind outcome_bind fst snd].
    destruct (IH f' fuel Hf' Hms ltac:(simpl in Hfuel; lia) Hleft) as (f'' & -> & Hf''). by exists f''.
Qed.

Lemma message_stream f left ms pieces fuel :
  holding f left → concat ms = left ++ concat pieces → Forall message ms →
  (left = [] ∨ ∃ m ms', ms = m :: ms' ∧ left `prefix_of` m ∧ left ≠ m) → (length ms < fuel)%nat →
  ∃ f', read_pieces fuel f pieces = Ret (ms, f') ∧ holding f' [].
Proof.
  revert f left ms. induction pieces as [|p pieces IH]; intros f left ms Hf E Hms Hleft Hfuel.
  - cbn [concat read_pieces] in *. rewrite app_nil_r in E.
    assert (ms = [] ∧ left = []) as [-> ->]; [|by exists f].
    destruct Hleft as [->|(m & ms' & -> & [suf Hm] & Hne)].
    + destruct ms as [|m ms]; [done|]. apply Forall_cons_1 in Hms as [Hm _].
      cbn [concat] in E. apply app_nil in E as [-> _]. by apply message_nonempty in Hm.
    + cbn [concat] in E. rewrite Hm, <-app_assoc in E. rewrite <-(app_nil_r left) in E at 2.
      apply app_inv_head in E. apply app_nil in E as [-> _]. by rewrite app_nil_r in Hm.
  - cbn [concat read_pieces] in *. rewrite app_assoc in E.
    destruct (prefix_of_messages ms (left ++ p)) as (ms1 & ms2 & left' & -> & El & Hl').
    { by exists (concat pieces). }
    apply Forall_app in Hms as [Hms1 Hms2].
    pose proof (add_holding f left p Hf) as Hf1. rewrite El in Hf1, E.
    rewrite concat_app, <-app_assoc in E. apply app_inv_head in E.
    rewrite length_app in Hfuel.
    destruct (take_frames_spec _ ms1 left' fuel Hf1 Hms1 ltac:(lia)) as (f' & -> & Hf').
    { destruct ms2 as [|m ms2]; [by left|]. destruct Hl' as [->|[Hp Hne]]; [by left|right].
      exists m. by apply Forall_cons_1 in Hms2 as [? _]. }
    cbn [mbind outcome_bind fst snd].
    destruct (IH f' left' ms2 Hf' E Hms2) as (f'' & -> & Hf'').
    { destruct ms2 as [|m ms2]; [by left|]. destruct Hl' as [->|[Hp Hne]]; [by left|right]. by exists m, ms2. }
    { lia. }
    by exists f''.
Qed.
End MessageStream.

(** JSON objects of less than 2 GiB. *)
Definition json_message (m : list Z) : Prop := object_text m ∧ Z.of_nat (length m) < 2 ^ 31.

#[export] Instance JsonFramer_messages : MessageFramer JsonFramer json_message.
Proof.
  refine {| holding := holds |}.
  - by intros m ((o & _ & ->) & _).
  - intros f d p <-. done.
  - intros f m rest Hf [Hm Hl].
    destruct (json_take_object f [] m rest) as (f' & E & Hf'); [done|set_solver|done|done|].
    by exists f', true.
  - intros f m pre Hf [Hm Hl] Hpre Hne. by apply (json_take_partial f pre m).
  - intros f Hf. destruct (json_take_partial f [] [OB; CB]) as (f' & E & Hf'); try done.
    + exists []. split; [constructor|done].
    + apply prefix_nil.
    + by exists f'.
Defined.

(** clandestine messages survive the stream: whatever pieces the bytes of a sequence
    of JSON objects arrive in, the framer hands out exactly these objects, in order,
    and nothing is left over. *)
Theorem json_framer_finds_messages ms pieces :
  Forall json_message ms → concat pieces = concat ms →
  ∃ f, read_pieces (S (length ms)) JsonFramer_new pieces = Ret (ms, f) ∧ json_data f = [].
Proof.
  intros Hms E. destruct (message_stream (F := JsonFramer) JsonFramer_new [] ms pieces (S (length ms)))
    as (f & Hr & Hf); [done|done|done|by left|lia|]. by exists f.
Qed.

(** Two objects with a nested one and strings, in three pieces: the cuts are in a
    string and between the objects. *)
Definition sample_object1 : list Z := [OB; DQ; 97; BS; DQ; CB; DQ; OB; 49; CB; CB].
Definition sample_object2 : list Z := [OB; SQ; OB; SQ; CB].

Lemma sample_objects : Forall json_message [sample_object1; sample_object2].
Proof.
  repeat apply Forall_cons_2; [..|by apply Forall_nil_2]; (split; [|simpl; lia]).
  - exists [DQ; 97; BS; DQ; CB; DQ; OB; 49; CB]. split; [|done].
    apply (body_string DQ [97; BS; DQ; CB] [OB; 49; CB]); [by right| |].
    + repeat constructor; done.
    + apply (body_object [49] []); repeat constructor; done.
  - exists [SQ; OB; SQ]. split; [|done]. apply (body_string SQ [OB] []); [by left| |constructor].
    repeat constructor; done.
Qed.

Lemma json_framer_finds_messages_witness :
  ∃ f, read_pieces 3 JsonFramer_new
         [take 3 sample_object1; drop 3 sample_object1 ++ take 1 sample_object2; drop 1 sample_object2] =
       Ret ([sample_object1; sample_object2], f) ∧ json_data f = [].
Proof.
  exact (json_framer_finds_messages [sample_object1; sample_object2]
    [take 3 sample_object1; drop 3 sample_object1 ++ take 1 sample_object2; drop 1 sample_object2]
    sample_objects eq_refl).
Defined.

(** ** No bytes make a framer panic, and frames are pieces of the data *)

(** [r] came out of the data [d]: a frame stands in the data and the rest behind it is
    kept; without a frame a part of the end of the data is kept. *)
Definition cut_from (d : list Z) (frame : option FramedChunk) (kept : list Z) : Prop :=
  match frame with
  | Some fr => ∃ skipped, d = skipped ++ chunk fr ++ kept
  | None => kept `suffix_of` d
  end.

Lemma take_drop_middle' (d : list Z) st e :
  (st ≤ e ≤ length d)%nat → d = take st d ++ take (e - st) (drop st d) ++ drop e d.
Proof.
  intros H. rewrite <-(take_drop st d) at 1. f_equal. rewrite <-(take_drop (e - st) (drop st d)) at 1.
  f_equal. rewrite drop_drop. f_equal. lia.
Qed.

Definition before (i : nat) (o : option nat) : Prop := match o with Some st => (st ≤ i)%nat | None => True end.

Lemma update_state_end f b i :
  possible_end f = None → before i (possible_start f) →
  before i (possible_start (update_state f b i)) ∧
  (possible_end (update_state f b i) = None ∨
   possible_end (update_state f b i) = Some (i + 1)%nat ∧ is_Some (possible_start (update_state f b i))).
Proof.
  intros He Hs. unfold update_state. destruct (after_backslash f); [by split; [|left]|].
  assert (Hq : possible_start (handle_quotes f b) = possible_start f ∧ possible_end (handle_quotes f b) = None).
  { unfold handle_quotes. by repeat case_match. }
  destruct Hq as [Eq1 Eq2]. destruct (_ && _).
  - unfold handle_braces. destruct (b =? OB).
    + destruct (_ =? 1); cbn; rewrite ?Eq1, ?Eq2; (split; [done || lia|by left]).
    + destruct (b =? CB); [|rewrite Eq1, Eq2; split; [done|by left]].
      destruct (_ <? 0); cbn; rewrite ?Eq1, ?Eq2; [split; [done|by left]|].
      destruct (_ && _) eqn:E; cbn; rewrite ?Eq1, ?Eq2; [|split; [done|by left]].
      apply andb_true_iff in E as [_ E]. apply bool_decide_eq_true_1 in E.
      split; [done|by right].
  - destruct (_ && _); cbn; rewrite Eq1, Eq2; (split; [done|by left]).
Qed.

Lemma json_loop_total f rest i :
  possible_end f = None → before i (possible_start f) →
  json_data f = take i (json_data f) ++ rest → (i + length rest = length (json_data f))%nat →
  returns (json_take_loop f rest i) (λ r,
    match r.1 with
    | Some fr => ∃ skipped, json_data f = skipped ++ chunk fr ++ json_data r.2
    | None => possible_end r.2 = None ∧ before (length (json_data f)) (possible_start r.2) ∧
              json_data r.2 = json_data f
    end).
Proof.
  revert f i. induction rest as [|b rest IH]; intros f i He Hs Hd Hl; cbn [json_take_loop].
  { apply returns_ret. cbn. split_and!; [done| |done]. simpl in Hl. rewrite <-Hl, Nat.add_0_r. done. }
  destruct (update_state_end f b i He Hs) as [Hs' He']. pose proof (update_state_data f b i) as Ed.
  cbn [length] in Hl. unfold check_data_chunk.
  destruct He' as [He'|[He' [st Hst]]].
  - rewrite He'. assert (E : ∀ A (o : option A) B (x : B), match o with Some _ | _ => x end = x) by (by intros ? []).
    rewrite E. cbn [mbind outcome_bind mret outcome_ret].
    eapply returns_mono; [apply IH|].
    + done.
    + destruct (possible_start (update_state f b i)); simpl in *; lia || done.
    + rewrite Ed. rewrite (take_S_r _ _ b).
      * by rewrite <-app_assoc.
      * rewrite Hd, lookup_app_r; rewrite length_take; [|lia].
        replace (i - i `min` length (json_data f))%nat with 0%nat by lia. done.
    + rewrite Ed. lia.
    + intros [[fr|] g]; rewrite Ed; done.
  - rewrite He', Hst. cbn [mbind outcome_bind]. rewrite Hst in Hs'. simpl in Hs'.
    cbn [json_reset json_data]. rewrite Ed.
    unfold slice. rewrite decide_True by lia. cbn [mbind outcome_bind mret outcome_ret json_data json_reset]. rewrite ?Ed.
    unfold slice_from. rewrite decide_True by lia. apply returns_ret. cbn.
    exists (take st (json_data f)). apply take_drop_middle'. lia.
Qed.

Lemma json_take_frame_total f :
  returns (json_take_frame f) (λ r, cut_from (json_data f) r.1 (json_data r.2)).
Proof.
  unfold json_take_frame. cbv zeta.
  ret_via ltac:(apply json_loop_total; [done|done|done|done]). intros [[fr|] g]; cbn [fst snd].
  - intros H. by apply returns_ret.
  - intros (He & Hs & Hd). cbn [json_data json_reset] in Hd, Hs. rewrite He.
    destruct (possible_start g) as [st|]; cbn [before] in Hs.
    + unfold slice_from. rewrite Hd, decide_True by done. apply returns_ret. cbn.
      exists (take st (json_data f)). by rewrite take_drop.
    + apply returns_ret. cbn. exists (json_data f). by rewrite app_nil_r.
Qed.

(** *** TLS *)
Definition tls_header_at (d : list Z) (off : nat) : Prop :=
  ∃ t v hi lo rest, drop off d = t :: 3 :: v :: hi :: lo :: rest ∧
    is_valid_content_type t = true ∧ (v = 1 ∨ v = 3).

Lemma search_total d :
  returns (search_for_frame_offset d) (λ r,
    match r with
    | Ok off => tls_header_at d off
    | Err n => (n ≤ length d)%nat
    end).
Proof.
  unfold search_for_frame_offset. destruct (index_of d [3]) as [p|] eqn:E; [|apply returns_ret; lia].
  apply index_of_single in E as (pre & rest & -> & -> & Hp).
  destruct pre as [|t pre _] using rev_ind; [apply returns_ret; simpl; lia|].
  rewrite length_app. cbn [length]. replace (length pre + 1)%nat with (S (length pre)) by lia.
  replace (S (length pre) - 1)%nat with (length pre) by lia.
  rewrite <-app_assoc. cbn [app]. rewrite length_app. cbn [length].
  destruct (Nat.leb_spec (length pre + S (S (length rest))) (length pre + 4)) as [H|H]; [apply returns_ret; lia|].
  destruct rest as [|v [|hi [|lo rest]]]; simpl in H; try lia.
  unfold byte_at. rewrite (list_lookup_middle pre _ t (length pre)) by done. cbn [expect mbind outcome_bind].
  rewrite !lookup_app_r by lia. replace (length pre + 1 - length pre)%nat with 1%nat by lia.
  replace (length pre + 2 - length pre)%nat with 2%nat by lia.
  cbn [lookup list_lookup expect mbind outcome_bind].
  destruct (_ && _) eqn:E; apply returns_ret; [|lia].
  apply andb_true_iff in E as [E1 E2]. exists t, v, hi, lo, rest. rewrite drop_app_length.
  split_and!; [done|done|]. unfold is_valid_protocol_version in E2. simpl in E2.
  apply orb_true_iff in E2 as [E2|E2]; apply Z.eqb_eq in E2; auto.
Qed.

Lemma find_offset_total fuel d acc :
  (acc ≤ length d)%nat → (length d - acc < fuel)%nat →
  returns (find_frame_offset_loop fuel d acc) (λ o, ∀ off, o = Some off → tls_header_at d off).
Proof.
  revert acc. induction fuel as [|fuel IH]; intros acc Ha Hf; [lia|]. cbn [find_frame_offset_loop].
  unfold slice_from. rewrite decide_True by done. cbn [mbind outcome_bind mret outcome_ret].
  ret_via ltac:(apply search_total). intros [off|n] Hr.
  - apply returns_ret. intros ? [= <-]. unfold tls_header_at in *. by rewrite drop_drop in Hr.
  - rewrite length_drop in Hr. destruct n as [|n]; [by apply returns_ret|]. apply IH; lia.
Qed.

Lemma tls_header_length d off : tls_header_at d off → (off + 5 ≤ length d)%nat.
Proof.
  intros (t & v & hi & lo & rest & E & _). apply (f_equal length) in E. rewrite length_drop in E.
  simpl in E. lia.
Qed.

(** A frame that is taken is a record: a header and as many bytes as it announces. *)
Definition tls_record (m : list Z) : Prop :=
  ∃ t v hi lo body, m = t :: 3 :: v :: hi :: lo :: body ∧ is_valid_content_type t = true ∧
    (v = 1 ∨ v = 3) ∧ length body = convert_to_usize hi lo.

Lemma tls_take_frame_total f :
  returns (tls_take_frame f) (λ r,
    cut_from (tls_data f) r.1 (tls_data r.2) ∧ ∀ fr, r.1 = Some fr → tls_record (chunk fr)).
Proof.
  unfold tls_take_frame. set (d := tls_data f).
  ret_via ltac:(apply (find_offset_total _ d 0); lia). intros [off|] Ho; cbn zeta.
  - specialize (Ho off eq_refl). pose proof (tls_header_length _ _ Ho) as Hl.
    destruct Ho as (t & v & hi & lo & rest & E & Ht & Hv).
    unfold split_off. rewrite decide_True by lia. cbn [mbind outcome_bind mret outcome_ret snd].
    rewrite E. cbn [byte_at lookup list_lookup expect mbind outcome_bind].
    destruct (Nat.leb_spec (5 + convert_to_usize hi lo) (length (t :: 3 :: v :: hi :: lo :: rest))) as [Hle|Hgt].
    + rewrite decide_True by done. apply returns_ret. cbn [cut_from chunk fst snd tls_data]. split.
      * exists (take off d). rewrite take_drop, <-E. by rewrite take_drop.
      * intros fr [= <-]. cbn [chunk].
        exists t, v, hi, lo, (take (convert_to_usize hi lo) rest). split_and!; [done|done|done|].
        rewrite length_take. cbn [length] in Hle. lia.
    + apply returns_ret. cbn. split; [|done]. exists (take off d). by rewrite <-E, take_drop.
  - unfold split_off. rewrite decide_True by (destruct (_ <? _)%nat; lia).
    apply returns_ret. cbn. split; [|done]. eexists. symmetry. apply take_drop.
Qed.

(** no bytes make a framer panic: whatever has been read from a stream, taking a
    frame returns; a frame is a piece of the data and what stands behind it is kept, and a
    frame of the TLS framer is a record as long as its header says. *)
Theorem framers_never_panic jf tf :
  (∃ frame jf', json_take_frame jf = Ret (frame, jf') ∧ cut_from (json_data jf) frame (json_data jf')) ∧
  (∃ frame tf', tls_take_frame tf = Ret (frame, tf') ∧ cut_from (tls_data tf) frame (tls_data tf') ∧
     ∀ fr, frame = Some fr → tls_record (chunk fr)).
Proof.
  split.
  - destruct (returns_inv _ _ (json_take_frame_total jf)) as ([fr jf'] & E & H). by exists fr, jf'.
  - destruct (returns_inv _ _ (tls_take_frame_total tf)) as ([fr tf'] & E & H & H'). by exists fr, tf'.
Qed.

Lemma split_off_ok d at_ : (at_ ≤ length d)%nat → split_off d at_ = Ret (take at_ d, drop at_ d).
Proof. intros H. unfold split_off. by rewrite decide_True. Qed.

(** A record at the front of the data. *)
Lemma content_type_not_version t : is_valid_content_type t = true → t ≠ 3.
Proof. intros H ->. done. Qed.

Lemma version_valid v : v = 1 ∨ v = 3 → is_valid_protocol_version 3 v = true.
Proof. by intros [->| ->]. Qed.

Lemma index_of_version t l : t ≠ 3 → index_of (t :: 3 :: l) [3] = Some 1%nat.
Proof.
  intros H. unfold index_of. cbn [index_of_loop needles_match]. by rewrite decide_True by done.
Qed.

Lemma find_offset_at_front t v hi lo rest :
  is_valid_content_type t = true → v = 1 ∨ v = 3 →
  find_frame_offset (t :: 3 :: v :: hi :: lo :: rest) = Ret (Some 0%nat).
Proof.
  intros Ht Hv. unfold find_frame_offset. cbn [find_frame_offset_loop].
  unfold slice_from. rewrite decide_True by lia. cbn [mbind outcome_bind mret outcome_ret drop].
  unfold search_for_frame_offset. rewrite index_of_version by by apply content_type_not_version.
  cbn [Nat.sub]. rewrite (proj2 (Nat.leb_gt _ _)) by (cbn [length]; lia).
  cbn [byte_at lookup list_lookup Nat.add expect mbind outcome_bind].
  by rewrite Ht, (version_valid v Hv).
Qed.

Lemma find_offset_short d : (length d < 5)%nat → find_frame_offset d = Ret None.
Proof.
  intros Hd. unfold find_frame_offset.
  assert (H : ∀ fuel acc, (acc ≤ length d)%nat → (length d - acc < fuel)%nat →
    find_frame_offset_loop fuel d acc = Ret None); [|apply H; lia].
  induction fuel as [|fuel IH]; intros acc Ha Hf; [lia|]. cbn [find_frame_offset_loop].
  unfold slice_from. rewrite decide_True by done. cbn [mbind outcome_bind mret outcome_ret].
  pose proof (length_drop d acc) as El. unfold search_for_frame_offset.
  destruct (index_of (drop acc d) [3]) as [[|p]|] eqn:E; [|rewrite (proj2 (Nat.leb_le _ _)) by lia; done|done].
  cbn [mbind outcome_bind mret outcome_ret]. apply index_of_single in E as (pre & rest & E & _).
  apply (f_equal length) in E. rewrite length_app in E. simpl in E. apply IH; lia.
Qed.

(** on a stream of TLS records the framer hands out the record at the front and
    keeps the rest; a record that is not complete is kept if four bytes of it are
    there, so that it is found when the rest of it arrives. *)
Theorem tls_framer_finds_record m :
  tls_record m →
  (∀ rest, tls_take_frame (mkTlsFramer (m ++ rest)) = Ret (Some (mkFrame m false), mkTlsFramer rest)) ∧
  (∀ pre, pre `prefix_of` m → pre ≠ m → (4 ≤ length pre)%nat →
     tls_take_frame (mkTlsFramer pre) = Ret (None, mkTlsFramer pre)).
Proof.
  intros (t & v & hi & lo & body & -> & Ht & Hv & Hl). split.
  - intros rest. unfold tls_take_frame. cbn [tls_data app]. rewrite find_offset_at_front by done.
    cbn [mbind outcome_bind]. rewrite (split_off_ok _ 0) by lia.
    cbn [mbind outcome_bind mret outcome_ret drop snd byte_at lookup list_lookup expect].
    rewrite (proj2 (Nat.leb_le _ _)) by (cbn [length]; rewrite length_app; lia).
    rewrite split_off_ok by (cbn [length]; rewrite length_app; lia).
    cbn [mbind outcome_bind mret outcome_ret fst snd]. rewrite <-Hl. cbn [Nat.add take drop].
    by rewrite take_app_length, drop_app_length.
  - intros pre [suf E] Hne Hlen. unfold tls_take_frame. cbn [tls_data].
    destruct (decide (length pre < 5)%nat) as [Hs|Hs].
    + rewrite find_offset_short by done. cbn [mbind outcome_bind].
      rewrite (proj2 (Nat.ltb_ge _ _)) by (unfold PRESERVE_HEADER_LEN; lia).
      unfold split_off. rewrite decide_True by lia. unfold PRESERVE_HEADER_LEN.
      replace (length pre - 4)%nat with 0%nat by lia. done.
    + do 5 (destruct pre as [|? pre]; [simpl in Hs; lia|]). injection E as <- <- <- <- <- E.
      rewrite find_offset_at_front by done. cbn [mbind outcome_bind].
      rewrite (split_off_ok _ 0) by lia.
      cbn [mbind outcome_bind mret outcome_ret drop snd byte_at lookup list_lookup expect].
      rewrite (proj2 (Nat.leb_gt _ _)); [done|]. cbn [length]. rewrite <-Hl, E, length_app.
      destruct suf; [|simpl; lia]. rewrite app_nil_r in E. by subst.
Qed.

Lemma tls_framer_finds_record_witness :
  tls_record [22; 3; 1; 0; 2; 7; 8] ∧
  tls_take_frame (mkTlsFramer ([22; 3; 1; 0; 2; 7; 8] ++ [23; 3])) =
    Ret (Some (mkFrame [22; 3; 1; 0; 2; 7; 8] false), mkTlsFramer [23; 3]).
Proof.
  assert (H : tls_record [22; 3; 1; 0; 2; 7; 8]).
  { exists 22, 1, 0, 2, [7; 8]. split_and!; [done|done|by left|done]. }
  split; [done|]. apply (tls_framer_finds_record _ H).
Defined.

(** fewer than four bytes are thrown away, although four bytes are kept of
    anything longer: a record whose first bytes arrive on their own is lost. *)
Theorem tls_framer_drops_short_beginnings d :
  (length d < 4)%nat → tls_take_frame (mkTlsFramer d) = Ret (None, mkTlsFramer []).
Proof.
  intros H. unfold tls_take_frame. cbn [tls_data]. rewrite find_offset_short by lia.
  cbn [mbind outcome_bind]. rewrite (proj2 (Nat.ltb_lt _ _)) by done.
  unfold split_off. rewrite decide_True by lia. cbn. by rewrite drop_all.
Qed.

Lemma tls_framer_drops_short_beginnings_witness :
  tls_take_frame (mkTlsFramer [22; 3; 1]) = Ret (None, mkTlsFramer []) ∧
  tls_take_frame (tls_add_data (mkTlsFramer []) [0; 2; 7; 8]) = Ret (None, mkTlsFramer [0; 2; 7; 8]).
Proof. split; [apply (tls_framer_drops_short_beginnings [22; 3; 1]); simpl; lia|reflexivity]. Defined.
