(* ===== verification/HttpFraming.v ===== *)
(** * The framer of HTTP packets

    Models [node/src/sub_lib/http_packet_framer.rs], the chunk arithmetic of
    [node/src/sub_lib/framer_utils.rs] and the start finder for requests of
    [node/src/http_request_start_finder.rs].  The two regular expressions of the
    header lines belong to the [regex] crate: what their first group captures in a
    line is a parameter.  Logging is left out. *)

From S2P Require Import Prelude.
From S2P Require Import Bytes.
From S2P Require Import Framing.

(** The bytes of an ASCII string. *)
Fixpoint bytes (s : string) : list Z :=
  match s with
  | EmptyString => []
  | String c s' => Z.of_N (Ascii.N_of_ascii c) :: bytes s'
  end.

Definition CRLF : list Z := [13; 10].
Definition DOUBLE_CRLF : list Z := [13; 10; 13; 10].
Definition BYTES_TO_PRESERVE : nat := 9.

(** ** [framer_utils.rs] *)
Record ChunkOffsetLength := mkChunkOL { co_offset : nat; co_length : nat }.

Definition position_in_range (digit first last : Z) : option Z :=
  if digit <? first then None else if last <? digit then None else Some (digit - first).

Definition evaluate_hex_digit (digit : Z) : option Z :=
  match position_in_range digit 48 57 with
  | Some pos => Some pos
  | None =>
      match position_in_range digit 65 70 with
      | Some pos => Some (10 + pos)
      | None =>
          match position_in_range digit 97 102 with
          | Some pos => Some (10 + pos)
          | None => None
          end
      end
  end.

(** [usize] arithmetic; eight digits at most, so that nothing overflows. *)
Definition value_of_reversed_digits (reversed_digits : list Z) : nat :=
  let '(r, _) := fold_left
    (λ acc digit, (acc.1 + digit * acc.2, u64 (Z.shiftl acc.2 4))) reversed_digits (0, 1) in
  Z.to_nat r.

(** The digits in front of [backward_from], the last one first, eight at most. *)
Fixpoint find_reversed_digits (data_so_far : list Z) (idx : nat) (result : list Z) : outcome (list Z) :=
  match idx with
  | O => mret result
  | S idx' =>
      if (length result <? 8)%nat
      then
        b ← byte_at data_so_far idx';
        match evaluate_hex_digit b with
        | None => mret result
        | Some value => find_reversed_digits data_so_far idx' (result ++ [value])
        end
      else mret result
  end.

Definition find_next_chunk_offset_length (data_so_far : list Z) : outcome (result ChunkOffsetLength nat) :=
  match index_of data_so_far CRLF with
  | None => mret (Err 0%nat)
  | Some O => mret (Err (length CRLF))
  | Some crlf_offset =>
      b ← byte_at data_so_far (crlf_offset - 1);
      match evaluate_hex_digit b with
      | None => mret (Err (crlf_offset + length CRLF)%nat)
      | Some _ =>
          reversed_digits ← find_reversed_digits data_so_far crlf_offset [];
          mret (Ok (mkChunkOL (crlf_offset - length reversed_digits)
                      (value_of_reversed_digits reversed_digits + length CRLF + length reversed_digits)))
      end
  end.

(** Every turn but the last moves the offset forward. *)
Fixpoint find_chunk_loop (fuel : nat) (data_so_far : list Z) (accumulated_offset : nat) :
    outcome (option ChunkOffsetLength) :=
  match fuel with
  | O => Panic "out of fuel"
  | S fuel' =>
      tail ← slice_from data_so_far accumulated_offset;
      r ← find_next_chunk_offset_length tail;
      match r with
      | Err O => mret None
      | Err next_offset => find_chunk_loop fuel' data_so_far (accumulated_offset + next_offset)
      | Ok result => mret (Some (mkChunkOL (co_offset result + accumulated_offset) (co_length result)))
      end
  end.

Definition find_chunk_offset_length (data_so_far : list Z) : outcome (option ChunkOffsetLength) :=
  find_chunk_loop (S (length data_so_far)) data_so_far 0.

(** ** [String::from_utf8] and [str::parse::<usize>] *)
Definition in_range (lo hi b : Z) : bool := (lo <=? b) && (b <=? hi).

Fixpoint valid_utf8 (l : list Z) : bool :=
  match l with
  | [] => true
  | b0 :: l0 =>
      if in_range 0 127 b0 then valid_utf8 l0
      else match l0 with
      | [] => false
      | b1 :: l1 =>
          if in_range 194 223 b0 then in_range 128 191 b1 && valid_utf8 l1
          else match l1 with
          | [] => false
          | b2 :: l2 =>
              if in_range 224 239 b0
              then (if b0 =? 224 then in_range 160 191 b1
                    else if b0 =? 237 then in_range 128 159 b1 else in_range 128 191 b1) &&
                   in_range 128 191 b2 && valid_utf8 l2
              else match l2 with
              | [] => false
              | b3 :: l3 =>
                  in_range 240 244 b0 &&
                  (if b0 =? 240 then in_range 144 191 b1
                   else if b0 =? 244 then in_range 128 143 b1 else in_range 128 191 b1) &&
                  in_range 128 191 b2 && in_range 128 191 b3 && valid_utf8 l3
              end
          end
      end
  end.

Fixpoint parse_digits (l : list Z) (acc : Z) : option Z :=
  match l with
  | [] => Some acc
  | b :: l' =>
      match position_in_range b 48 57 with
      | None => None
      | Some d => if 2 ^ 64 <=? acc * 10 + d then None else parse_digits l' (acc * 10 + d)
      end
  end.

(** A leading [+] is allowed; an empty number is not. *)
Definition parse_usize (l : list Z) : option nat :=
  let l' := match l with 43 :: l' => l' | _ => l end in
  match l' with
  | [] => None
  | _ => Z.to_nat <$> parse_digits l' 0
  end.

Definition starts_with (l prefix : list Z) : bool := needles_match l prefix.

Definition ends_with (l suffix : list Z) : bool :=
  bool_decide (length suffix ≤ length l)%nat && bool_decide (drop (length l - length suffix) l = suffix).

(** ** The state of the framer *)
Inductive PacketProgressState := SeekingPacketStart | SeekingBodyStart | SeekingBodyEnd.
Inductive ChunkExistenceState := StandardEncoding | ChunkedResponse | Chunk.
Inductive ChunkProgressState := NoChunk | SeekingLengthHeader | SeekingEndOfChunk | SeekingEndOfFinalChunk.

#[export] Instance PacketProgressState_eq_dec : EqDecision PacketProgressState.
Proof. solve_decision. Defined.
#[export] Instance ChunkExistenceState_eq_dec : EqDecision ChunkExistenceState.
Proof. solve_decision. Defined.
#[export] Instance ChunkProgressState_eq_dec : EqDecision ChunkProgressState.
Proof. solve_decision. Defined.

Record HttpFramerState := mkHttp {
  http_data : list Z;
  packet_progress_state : PacketProgressState;
  content_length : nat;
  transfer_encoding_chunked : ChunkExistenceState;
  chunk_progress_state : ChunkProgressState;
  chunk_size : option nat;
  lines : list (list Z)
}.

Definition http_new : HttpFramerState :=
  mkHttp [] SeekingPacketStart 0 StandardEncoding NoChunk None [].

(** [HttpPacketStartFinder], over the state of the framer. *)
Abbreviation StartFinder := (HttpFramerState → bool * HttpFramerState).

(** ** [HttpRequestStartFinder] *)
Definition METHODS : list (list Z) :=
  bytes <$> ["GET"; "HEAD"; "POST"; "PUT"; "DELETE"; "CONNECT"; "OPTIONS"; "TRACE"; "PATCH"].

Definition LONGEST_METHOD_LEN : nat := 7.

(** [Iterator::min]. *)
Definition minimum (l : list nat) : option nat :=
  match l with [] => None | x :: l' => Some (fold_left Nat.min l' x) end.

Definition request_seek_packet_start : StartFinder := λ s,
  if decide (packet_progress_state s = SeekingPacketStart)
  then
    match minimum (omap (index_of (http_data s)) METHODS) with
    | Some first_method_offset =>
        (true, mkHttp (drop first_method_offset (http_data s)) SeekingBodyStart 0
                 (transfer_encoding_chunked s) (chunk_progress_state s) (chunk_size s) [])
    | None =>
        let index :=
          if (LONGEST_METHOD_LEN <? length (http_data s))%nat
          then (length (http_data s) - LONGEST_METHOD_LEN)%nat else 0%nat in
        (false, mkHttp (drop index (http_data s)) (packet_progress_state s) (content_length s)
                  (transfer_encoding_chunked s) (chunk_progress_state s) (chunk_size s) (lines s))
    end
  else (false, s).

Section Framer.
(** What the regular expressions capture: the digits behind [Content-Length:], the
    rest of a line behind [Transfer-Encoding:]. *)
Variable capture_content_length : list Z → option (list Z).
Variable capture_transfer_encoding : list Z → option (list Z).
Variable start_finder : StartFinder.

Definition discard_current_request (s : HttpFramerState) : HttpFramerState :=
  mkHttp (http_data s) SeekingPacketStart 0 (transfer_encoding_chunked s) (chunk_progress_state s)
    (chunk_size s) [].

Definition set_content_length (s : HttpFramerState) (n : nat) : HttpFramerState :=
  mkHttp (http_data s) (packet_progress_state s) n (transfer_encoding_chunked s) (chunk_progress_state s)
    (chunk_size s) (lines s).

Definition check_for_content_length (s : HttpFramerState) (line : list Z) : HttpFramerState :=
  if negb (starts_with line (bytes "Content-Length:")) then s
  else if negb (valid_utf8 line) then discard_current_request s
  else
    match capture_content_length line with
    | None => discard_current_request s
    | Some length_str =>
        match parse_usize length_str with
        | Some len => set_content_length s len
        | None => set_content_length (discard_current_request s) 0
        end
    end.

Definition check_for_transfer_encoding (s : HttpFramerState) (line : list Z) : HttpFramerState :=
  if negb (starts_with line (bytes "Transfer-Encoding:")) then s
  else if negb (valid_utf8 line) then discard_current_request s
  else
    match capture_transfer_encoding line with
    | None => discard_current_request s
    | Some encodings =>
        if bool_decide (is_Some (index_of encodings (bytes "chunked")))
        then mkHttp (http_data s) (packet_progress_state s) (content_length s) ChunkedResponse
               SeekingLengthHeader None (lines s)
        else s
    end.

Definition check_for_zero_length (s : HttpFramerState) (line : list Z) : bool * HttpFramerState :=
  if decide (length line ≠ 2%nat) then (false, s)
  else (true, mkHttp (http_data s) SeekingBodyEnd (content_length s) (transfer_encoding_chunked s)
                (chunk_progress_state s) (chunk_size s) (lines s)).

Definition set_http_data (s : HttpFramerState) (d : list Z) : HttpFramerState :=
  mkHttp d (packet_progress_state s) (content_length s) (transfer_encoding_chunked s)
    (chunk_progress_state s) (chunk_size s) (lines s).

Definition push_line (s : HttpFramerState) (line : list Z) : HttpFramerState :=
  mkHttp (http_data s) (packet_progress_state s) (content_length s) (transfer_encoding_chunked s)
    (chunk_progress_state s) (chunk_size s) (lines s ++ [line]).

(** Every turn takes a line of two bytes or more out of the data. *)
Fixpoint seek_body_start_loop (fuel : nat) (s : HttpFramerState) : outcome (bool * HttpFramerState) :=
  match fuel with
  | O => Panic "out of fuel"
  | S fuel' =>
      if decide (packet_progress_state s = SeekingBodyStart)
      then
        match index_of (http_data s) CRLF with
        | Some line_end =>
            p ← split_off (http_data s) (line_end + 2);
            let '(line, remainder) := p in
            let s := set_http_data s remainder in
            let s := if decide (content_length s = 0%nat) then check_for_content_length s line else s in
            let s := if decide (transfer_encoding_chunked s = StandardEncoding)
                     then check_for_transfer_encoding s line else s in
            let '(result, s) := check_for_zero_length s line in
            let s := push_line s line in
            if result : bool then mret (true, s) else seek_body_start_loop fuel' s
        | None => mret (false, s)
        end
      else mret (false, s)
  end.

Definition seek_body_start (s : HttpFramerState) : outcome (bool * HttpFramerState) :=
  seek_body_start_loop (S (length (http_data s))) s.

Definition seek_body_end (s : HttpFramerState) : outcome (option (list Z) * HttpFramerState) :=
  if bool_decide (packet_progress_state s = SeekingBodyEnd) &&
     (content_length s <=? length (http_data s))%nat
  then
    p ← split_off (http_data s) (content_length s);
    let '(line, remainder) := p in
    let request := concat (lines s ++ [line]) in
    mret (Some request,
          if decide (transfer_encoding_chunked s = ChunkedResponse)
          then mkHttp remainder SeekingPacketStart 0 Chunk SeekingLengthHeader None []
          else mkHttp remainder SeekingPacketStart 0 StandardEncoding (chunk_progress_state s)
                 (chunk_size s) [])
  else mret (None, s).

Definition take_packet_frame (s : HttpFramerState) : outcome (option FramedChunk * HttpFramerState) :=
  let '(stop, s) :=
    if decide (packet_progress_state s = SeekingPacketStart)
    then let '(found, s) := start_finder s in (negb found, s) else (false, s) in
  p ← (if stop : bool then mret (true, s)
       else if decide (packet_progress_state s = SeekingBodyStart)
       then q ← seek_body_start s; mret (negb q.1, q.2)
       else mret (false, s));
  let '(stop, s) := p in
  if stop : bool then mret (None, s)
  else if decide (packet_progress_state s = SeekingBodyEnd)
  then
    q ← seek_body_end s;
    mret ((λ request, mkFrame request false) <$> q.1, q.2)
  else mret (None, s).

Definition take_frame_while_seeking_end_of_chunk (s : HttpFramerState) :
    outcome (option FramedChunk * HttpFramerState) :=
  chunk_size ← expect (chunk_size s)
    "If we are seeking the end of the chunk then we should have the chunk size";
  if (length (http_data s) <? chunk_size + length CRLF)%nat then mret (None, s)
  else
    p ← split_off (http_data s) (chunk_size + length CRLF);
    let '(chunk, remaining_data) := p in
    q ← (if ends_with chunk CRLF then mret (chunk, remaining_data)
         else
           b1 ← byte_at chunk (length chunk - 1);
           b2 ← byte_at chunk (length chunk - 2);
           mret (take (length chunk - 2) chunk, b2 :: b1 :: remaining_data));
    let '(chunk, remaining_data) := q in
    mret (Some (mkFrame chunk false),
          mkHttp remaining_data (packet_progress_state s) (content_length s) (transfer_encoding_chunked s)
            SeekingLengthHeader None (lines s)).

Definition take_frame_while_seeking_end_of_final_chunk (s : HttpFramerState) :
    outcome (option FramedChunk * HttpFramerState) :=
  match index_of (http_data s) DOUBLE_CRLF with
  | Some offset =>
      p ← split_off (http_data s) (offset + length DOUBLE_CRLF);
      let '(result_data, temp) := p in
      mret (Some (mkFrame result_data false),
            mkHttp temp (packet_progress_state s) (content_length s) StandardEncoding NoChunk None (lines s))
  | None => mret (None, s)
  end.

(** [take_chunk_frame] is called again once, when the length header has been found. *)
Definition take_chunk_frame_found (s : HttpFramerState) : outcome (option FramedChunk * HttpFramerState) :=
  match chunk_progress_state s with
  | NoChunk => Panic "This should have been set only if we were done reading chunks"
  | SeekingLengthHeader => Panic "unreachable: the length header has been found"
  | SeekingEndOfChunk => take_frame_while_seeking_end_of_chunk s
  | SeekingEndOfFinalChunk => take_frame_while_seeking_end_of_final_chunk s
  end.

Definition take_frame_while_seeking_length_header (s : HttpFramerState) :
    outcome (option FramedChunk * HttpFramerState) :=
  o ← find_chunk_offset_length (http_data s);
  match o with
  | None =>
      if (BYTES_TO_PRESERVE <? length (http_data s))%nat
      then
        p ← split_off (http_data s) (length (http_data s) - BYTES_TO_PRESERVE);
        mret (None, set_http_data s p.2)
      else mret (None, s)
  | Some chunk_offset_length =>
      p ← split_off (http_data s) (co_offset chunk_offset_length);
      let s := set_http_data s p.2 in
      final ← (if decide (co_length chunk_offset_length = 3%nat)
               then b ← byte_at (http_data s) (co_offset chunk_offset_length); mret (b =? 48)
               else mret false);
      take_chunk_frame_found
        (if final : bool
         then mkHttp (http_data s) (packet_progress_state s) (content_length s) (transfer_encoding_chunked s)
                SeekingEndOfFinalChunk None (lines s)
         else mkHttp (http_data s) (packet_progress_state s) (content_length s) (transfer_encoding_chunked s)
                SeekingEndOfChunk (Some (co_length chunk_offset_length)) (lines s))
  end.

Definition take_chunk_frame (s : HttpFramerState) : outcome (option FramedChunk * HttpFramerState) :=
  match chunk_progress_state s with
  | NoChunk => Panic "This should have been set only if we were done reading chunks"
  | SeekingLengthHeader => take_frame_while_seeking_length_header s
  | SeekingEndOfChunk => take_frame_while_seeking_end_of_chunk s
  | SeekingEndOfFinalChunk => take_frame_while_seeking_end_of_final_chunk s
  end.

Definition http_take_frame (s : HttpFramerState) : outcome (option FramedChunk * HttpFramerState) :=
  if decide (transfer_encoding_chunked s = Chunk) then take_chunk_frame s else take_packet_frame s.
End Framer.

Definition http_add_data (s : HttpFramerState) (d : list Z) : HttpFramerState :=
  set_http_data s (http_data s ++ d).

(** ** [summarize_http_packet] *)
Definition summarize_http_packet (request : list Z) : outcome (list Z) :=
  match index_of_from request 32 0 with
  | None => mret (bytes "<bad HTTP syntax: no spaces>")
  | Some first_space_index =>
      match index_of_from request 32 (first_space_index + 1) with
      | None => mret (bytes "<bad HTTP syntax: one space>")
      | Some second_space_index =>
          summary ← slice request 0 second_space_index;
          mret (if valid_utf8 summary then summary else bytes "<bad HTTP syntax: UTF-8 encoding error>")
      end
  end.
