(* ===== verification/HttpFramingFacts.v ===== *)
(** * Correctness of the framer of HTTP packets *)

From S2P Require Import Prelude.
From S2P Require Import Bytes.
From S2P Require Import Framing.
From S2P Require Import FramingFacts.
From S2P Require Import HttpFraming.

(** ** Finding a separator *)
Lemma needles_match_app (l rest : list Z) : needles_match (l ++ rest) l = true.
Proof. apply needles_match_spec. by exists rest. Qed.

Lemma index_of_first (n : Z) ns pre rest h :
  n ∉ pre → index_of_loop (pre ++ (n :: ns) ++ rest) (n :: ns) h = Some (h + length pre)%nat.
Proof.
  revert h. induction pre as [|x pre IH]; intros h Hn.
  - cbn [app index_of_loop]. change (n :: ns ++ rest) with ((n :: ns) ++ rest).
    rewrite needles_match_app. f_equal. simpl. lia.
  - apply not_elem_of_cons in Hn as [Hx Hn]. cbn [app index_of_loop needles_match].
    rewrite decide_True by done. change (n :: ns ++ rest) with ((n :: ns) ++ rest).
    rewrite IH by done. f_equal. simpl. lia.
Qed.

Lemma index_of_CRLF pre rest : 13 ∉ pre → index_of (pre ++ CRLF ++ rest) CRLF = Some (length pre).
Proof. intros H. unfold index_of, CRLF. rewrite index_of_first by done. done. Qed.

Lemma index_of_CRLF_front rest : index_of (CRLF ++ rest) CRLF = Some 0%nat.
Proof. apply (index_of_CRLF [] rest), not_elem_of_nil. Qed.

(** ** The length of a chunk *)
Definition hex_digit (b : Z) : Prop := is_Some (evaluate_hex_digit b).

Definition digit_value (b : Z) : Z := default 0 (evaluate_hex_digit b).

(** The number that hexadecimal digits denote. *)
Definition hex_value (ds : list Z) : Z := fold_left (λ acc b, acc * 16 + digit_value b) ds 0.

Lemma position_in_range_bound d lo hi p : position_in_range d lo hi = Some p → 0 ≤ p ≤ hi - lo.
Proof.
  unfold position_in_range. destruct (Z.ltb_spec d lo), (Z.ltb_spec hi d); [done..|]. intros [= <-]. lia.
Qed.

Lemma digit_value_bound b : 0 ≤ digit_value b < 16.
Proof.
  unfold digit_value, evaluate_hex_digit.
  destruct (position_in_range b 48 57) as [p|] eqn:E; [apply position_in_range_bound in E; simpl; lia|].
  destruct (position_in_range b 65 70) as [p|] eqn:E'; [apply position_in_range_bound in E'; simpl; lia|].
  destruct (position_in_range b 97 102) as [p|] eqn:E''; [apply position_in_range_bound in E''; simpl; lia|].
  simpl. lia.
Qed.

Lemma hex_digit_not_CR b : hex_digit b → b ≠ 13.
Proof. intros [v Hv] ->. done. Qed.

Lemma hex_digit_value b : hex_digit b → evaluate_hex_digit b = Some (digit_value b).
Proof. intros [v Hv]. unfold digit_value. by rewrite Hv. Qed.

Fixpoint little_endian (l : list Z) : Z :=
  match l with [] => 0 | v :: l' => v + 16 * little_endian l' end.

Lemma little_endian_snoc l v : little_endian (l ++ [v]) = little_endian l + 16 ^ Z.of_nat (length l) * v.
Proof.
  induction l as [|x l IH]; [simpl; lia|]. cbn [app little_endian length]. rewrite IH.
  rewrite Nat2Z.inj_succ, Z.pow_succ_r by lia. lia.
Qed.

Lemma hex_value_snoc ds b : hex_value (ds ++ [b]) = hex_value ds * 16 + digit_value b.
Proof. unfold hex_value. by rewrite fold_left_app. Qed.

Lemma little_endian_hex ds : little_endian (reverse (digit_value <$> ds)) = hex_value ds.
Proof.
  induction ds as [|b ds IH] using rev_ind; [done|].
  rewrite fmap_app, reverse_app, hex_value_snoc. cbn. rewrite IH. lia.
Qed.

Lemma value_fold l r k :
  0 ≤ k → k + Z.of_nat (length l) < 16 →
  (fold_left (λ acc digit, (acc.1 + digit * acc.2, u64 (Z.shiftl acc.2 4))) l (r, 16 ^ k)).1 =
    r + 16 ^ k * little_endian l.
Proof.
  revert r k. induction l as [|v l IH]; intros r k Hk Hl; cbn [fold_left little_endian fst snd]; [simpl; lia|].
  cbn [length] in Hl. rewrite Z.shiftl_mul_pow2 by lia. change (2 ^ 4) with 16.
  replace (16 ^ k * 16) with (16 ^ (k + 1)) by (rewrite Z.pow_add_r by lia; done).
  rewrite wrap_small.
  - rewrite IH by lia. rewrite Z.pow_add_r by lia. lia.
  - split; [apply Z.pow_nonneg; lia|]. change (2 ^ 64) with (16 ^ 16). apply Z.pow_lt_mono_r; lia.
Qed.

Lemma value_of_digits ds :
  (length ds ≤ 8)%nat → value_of_reversed_digits (reverse (digit_value <$> ds)) = Z.to_nat (hex_value ds).
Proof.
  intros Hl. unfold value_of_reversed_digits. rewrite <-little_endian_hex.
  pose proof (value_fold (reverse (digit_value <$> ds)) 0 0) as H. simpl (16 ^ 0) in H.
  destruct (fold_left _ _ _) as [r m]. simpl in H. rewrite H; [f_equal; lia|lia|].
  rewrite length_reverse, length_fmap. lia.
Qed.

Lemma reversed_digits_spec ds rest acc :
  Forall hex_digit ds → (length ds + length acc ≤ 8)%nat →
  find_reversed_digits (ds ++ rest) (length ds) acc = Ret (acc ++ reverse (digit_value <$> ds)).
Proof.
  revert rest acc. induction ds as [|d ds IH] using rev_ind; intros rest acc Hd Hl.
  { cbn. by rewrite app_nil_r. }
  apply Forall_app in Hd as [Hd Hd1]. apply Forall_cons_1 in Hd1 as [Hd1 _].
  rewrite length_app in Hl |- *. cbn [length] in *. replace (length ds + 1)%nat with (S (length ds)) by lia.
  cbn [find_reversed_digits]. rewrite (proj2 (Nat.ltb_lt _ _)) by lia. rewrite <-app_assoc. cbn [app].
  unfold byte_at. rewrite (list_lookup_middle ds _ d (length ds)) by done. cbn [expect mbind outcome_bind].
  rewrite (hex_digit_value d Hd1), IH by (done || rewrite length_app; simpl; lia).
  rewrite <-app_assoc, fmap_app, reverse_app. done.
Qed.

(** The header of a chunk at the front of the data. *)
Lemma find_chunk_header ds rest :
  Forall hex_digit ds → (1 ≤ length ds ≤ 8)%nat →
  find_chunk_offset_length (ds ++ CRLF ++ rest) =
    Ret (Some (mkChunkOL 0 (Z.to_nat (hex_value ds) + 2 + length ds))).
Proof.
  intros Hd Hl. unfold find_chunk_offset_length. cbn [find_chunk_loop].
  unfold slice_from. rewrite decide_True by lia. cbn [mbind outcome_bind mret outcome_ret drop].
  unfold find_next_chunk_offset_length.
  rewrite !drop_0, index_of_CRLF.
  2:{ intros Hin. rewrite Forall_forall in Hd. specialize (Hd _ Hin). by apply hex_digit_not_CR in Hd. }
  destruct (length ds) as [|n] eqn:En; [lia|]. rewrite <-En. cbn [Nat.sub].
  destruct ds as [|d ds _] using rev_ind; [done|]. rewrite length_app in En. simpl in En.
  assert (Hb : byte_at ((ds ++ [d]) ++ CRLF ++ rest) (length (ds ++ [d]) - 1) = Ret d).
  { unfold byte_at. rewrite length_app. simpl. rewrite Nat.add_sub, <-app_assoc. cbn [app].
    by rewrite list_lookup_middle. }
  rewrite Hb. cbn [mbind outcome_bind]. pose proof Hd as Hd'. apply Forall_app in Hd' as [_ Hd1].
  apply Forall_cons_1 in Hd1 as [Hd1 _]. rewrite (hex_digit_value d Hd1).
  rewrite reversed_digits_spec by (done || rewrite length_app; simpl; lia).
  cbn [app mbind outcome_bind mret outcome_ret co_offset co_length].
  rewrite value_of_digits by (rewrite length_app; simpl; lia).
  rewrite length_reverse, length_fmap, Nat.sub_diag. do 3 f_equal.
Qed.

(** ** Chunks *)

(** A framer that waits for the next chunk of a chunked body. *)
Definition chunk_state (d : list Z) (pps : PacketProgressState) (ls : list (list Z)) : HttpFramerState :=
  mkHttp d pps 0 Chunk SeekingLengthHeader None ls.

Lemma ends_with_app (l s : list Z) : ends_with (l ++ s) s = true.
Proof.
  unfold ends_with. rewrite length_app, !bool_decide_eq_true_2; [done| |lia].
  replace (length l + length s - length s)%nat with (length l) by lia. apply drop_app_length.
Qed.

(** in a chunked body, hexadecimal digits, a line end, as many bytes as the digits
    say and another line end are one frame, and the data behind them is kept; with
    fewer bytes there is no frame yet and nothing is lost. *)
Theorem http_framer_finds_chunk ccl cte sf ds body rest pps ls :
  Forall hex_digit ds → (1 ≤ length ds ≤ 8)%nat → ds ≠ [48] →
  Z.of_nat (length body) = hex_value ds →
  http_take_frame ccl cte sf (chunk_state (ds ++ CRLF ++ body ++ CRLF ++ rest) pps ls) =
    Ret (Some (mkFrame (ds ++ CRLF ++ body ++ CRLF) false), chunk_state rest pps ls) ∧
  (∀ pre, pre `prefix_of` body ++ CRLF → pre ≠ body ++ CRLF →
    http_take_frame ccl cte sf (chunk_state (ds ++ CRLF ++ pre) pps ls) =
      Ret (None, mkHttp (ds ++ CRLF ++ pre) pps 0 Chunk SeekingEndOfChunk
                   (Some (length ds + 2 + length body)%nat) ls)).
Proof.
  intros Hd Hl Hne Hb. assert (Hv : Z.to_nat (hex_value ds) = length body) by lia.
  assert (H3 : (length body + 2 + length ds ≠ 3)%nat).
  { destruct ds as [|d [|d' ds]]; simpl in *; try lia. intros H. assert (length body = 0%nat) as E by lia.
    apply Forall_cons_1 in Hd as [Hd _]. unfold hex_value in Hv. cbn in Hv.
    pose proof (digit_value_bound d). assert (digit_value d = 0) as E0 by lia. destruct Hd as [v Hd].
    unfold digit_value in E0. rewrite Hd in E0. simpl in E0. subst v. unfold evaluate_hex_digit in Hd.
    unfold position_in_range in Hd. destruct (Z.ltb_spec d 48), (Z.ltb_spec 57 d), (Z.ltb_spec d 65),
      (Z.ltb_spec 70 d), (Z.ltb_spec d 97), (Z.ltb_spec 102 d); try discriminate; injection Hd as Hd;
      try lia. by assert (d = 48) as -> by lia. }
  assert (Hstep : ∀ tl, http_take_frame ccl cte sf (chunk_state (ds ++ CRLF ++ tl) pps ls) =
    take_frame_while_seeking_end_of_chunk
      (mkHttp (ds ++ CRLF ++ tl) pps 0 Chunk SeekingEndOfChunk (Some (length body + 2 + length ds)%nat) ls)).
  { intros tl. unfold http_take_frame. rewrite decide_True by done.
    change (take_chunk_frame (chunk_state (ds ++ CRLF ++ tl) pps ls)) with
      (take_frame_while_seeking_length_header (chunk_state (ds ++ CRLF ++ tl) pps ls)).
    unfold take_frame_while_seeking_length_header. cbn [http_data chunk_state].
    rewrite find_chunk_header by done. rewrite Hv. cbn [mbind outcome_bind co_offset co_length].
    rewrite split_off_ok by lia. cbn [mbind outcome_bind snd set_http_data http_data].
    rewrite decide_False by done. by rewrite drop_0. }
  assert (Hlen : ∀ tl, length (ds ++ CRLF ++ tl) = (length ds + 2 + length tl)%nat).
  { intros tl. rewrite !length_app. simpl. lia. }
  split.
  - rewrite Hstep. unfold take_frame_while_seeking_end_of_chunk. cbn [chunk_size expect mbind outcome_bind http_data].
    rewrite (proj2 (Nat.ltb_ge _ _)) by (rewrite Hlen, !length_app; simpl; lia).
    rewrite split_off_ok by (rewrite Hlen, !length_app; simpl; lia). cbn [mbind outcome_bind].
    assert (Es : ds ++ CRLF ++ body ++ CRLF ++ rest = ((ds ++ CRLF ++ body) ++ CRLF) ++ rest)
      by (by rewrite <-!app_assoc).
    assert (En : (length body + 2 + length ds + length CRLF)%nat = length ((ds ++ CRLF ++ body) ++ CRLF))
      by (rewrite !length_app; simpl; lia).
    rewrite Es, En, take_app_length, drop_app_length, ends_with_app.
    cbn [mbind outcome_bind mret outcome_ret packet_progress_state content_length transfer_encoding_chunked lines].
    by rewrite <-!app_assoc.
  - intros pre [suf E] Hpre. rewrite Hstep. unfold take_frame_while_seeking_end_of_chunk.
    cbn [chunk_size expect mbind outcome_bind http_data].
    rewrite (proj2 (Nat.ltb_lt _ _)); [do 4 f_equal; lia|]. rewrite Hlen.
    apply (f_equal length) in E as E'. rewrite !length_app in E'. simpl in E' |- *.
    destruct suf; [|simpl in E'; lia]. rewrite app_nil_r in E. by subst pre.
Qed.

Lemma http_framer_finds_chunk_witness :
  http_take_frame (λ _, None) (λ _, None) request_seek_packet_start
    (chunk_state ([51] ++ CRLF ++ [97; 98; 99] ++ CRLF ++ [48]) SeekingPacketStart []) =
  Ret (Some (mkFrame [51; 13; 10; 97; 98; 99; 13; 10] false), chunk_state [48] SeekingPacketStart []).
Proof.
  refine (proj1 (http_framer_finds_chunk (λ _, None) (λ _, None) request_seek_packet_start
    [51] [97; 98; 99] [48] SeekingPacketStart [] _ _ _ _)).
  - apply Forall_cons_2; [by eexists|by apply Forall_nil_2].
  - simpl. lia.
  - discriminate.
  - reflexivity.
Defined.

(** Line ends in front of a chunk header are skipped. *)
Lemma find_chunk_loop_mono f1 f2 d acc o :
  find_chunk_loop f1 d acc = Ret o → (f1 ≤ f2)%nat → find_chunk_loop f2 d acc = Ret o.
Proof.
  revert f2 acc. induction f1 as [|f1 IH]; intros f2 acc H Hle; [done|]. destruct f2 as [|f2]; [lia|].
  cbn [find_chunk_loop] in *. destruct (slice_from d acc) as [t|]; [|done]. cbn [mbind outcome_bind] in *.
  destruct (find_next_chunk_offset_length t) as [[?|[|n]]|]; cbn [mbind outcome_bind] in *; try done.
  apply IH; [done|lia].
Qed.

Lemma find_chunk_loop_shift fuel pre tl acc o :
  find_chunk_loop fuel tl acc = Ret (Some o) →
  find_chunk_loop fuel (pre ++ tl) (length pre + acc) =
    Ret (Some (mkChunkOL (co_offset o + length pre) (co_length o))).
Proof.
  revert acc. induction fuel as [|fuel IH]; intros acc H; [done|]. cbn [find_chunk_loop] in *.
  unfold slice_from in *. destruct (decide (acc ≤ length tl)%nat); [|done].
  rewrite decide_True by (rewrite length_app; lia). cbn [mbind outcome_bind mret outcome_ret] in *.
  replace (drop (length pre + acc) (pre ++ tl)) with (drop acc tl) by (by rewrite drop_app_add).
  destruct (find_next_chunk_offset_length (drop acc tl)) as [[r'|[|n]]|]; cbn [mbind outcome_bind] in *; try done.
  - injection H as <-. cbn. do 3 f_equal. lia.
  - rewrite <-Nat.add_assoc. by apply IH.
Qed.

(** [k] empty lines. *)
Abbreviation line_ends k := (concat (replicate k CRLF)).

Lemma length_line_ends k : length (line_ends k) = (2 * k)%nat.
Proof. induction k as [|k IH]; [done|]. cbn [replicate concat]. rewrite length_app, IH. simpl. lia. Qed.

Lemma find_chunk_skip k tl o :
  find_chunk_offset_length tl = Ret (Some o) →
  find_chunk_offset_length (line_ends k ++ tl) = Ret (Some (mkChunkOL (co_offset o + 2 * k) (co_length o))).
Proof.
  intros E. unfold find_chunk_offset_length in *.
  assert (Hskip : ∀ j fuel acc, (j ≤ k)%nat → acc = (2 * (k - j))%nat → (length tl + 1 + j ≤ fuel)%nat →
    find_chunk_loop fuel (line_ends k ++ tl) acc = Ret (Some (mkChunkOL (co_offset o + 2 * k) (co_length o)))).
  { induction j as [|j IH]; intros fuel acc Hj -> Hf.
    - pose proof (find_chunk_loop_shift _ (line_ends k) _ _ _ E) as Hs.
      rewrite Nat.add_0_r, length_line_ends in Hs.
      rewrite Nat.sub_0_r. eapply find_chunk_loop_mono; [exact Hs|lia].
    - destruct fuel as [|fuel]; [lia|]. cbn [find_chunk_loop]. unfold slice_from.
      rewrite decide_True by (rewrite length_app, length_line_ends; lia).
      cbn [mbind outcome_bind mret outcome_ret].
      assert (Ed : drop (2 * (k - S j)) (line_ends k ++ tl) = CRLF ++ line_ends j ++ tl).
      { replace k with ((k - S j) + S j)%nat at 2 by lia. rewrite replicate_add, concat_app, <-app_assoc.
        rewrite <-(length_line_ends (k - S j)%nat), drop_app_length. done. }
      rewrite Ed. unfold find_next_chunk_offset_length. rewrite index_of_CRLF_front.
      cbn [mbind outcome_bind mret outcome_ret length CRLF]. apply IH; lia. }
  apply (Hskip k); [lia|lia|]. rewrite length_app, length_line_ends. lia.
Qed.

(** the last chunk of a body, "0", is recognized by a look at the wrong byte when
    other bytes stand in front of it: the offset of the chunk is used after the bytes
    have been cut off.  Behind [k] empty lines the byte looked at is number [2 k]
    instead of the first one; when the data ends before it, the framer panics. *)
Theorem http_framer_panics_on_last_chunk ccl cte sf k rest pps ls :
  (length rest + 3 ≤ 2 * k)%nat →
  ∃ why, http_take_frame ccl cte sf (chunk_state (concat (replicate k CRLF) ++ [48] ++ CRLF ++ rest) pps ls) = Panic why.
Proof.
  intros Hk. unfold http_take_frame. rewrite decide_True by done.
  unfold take_chunk_frame, take_frame_while_seeking_length_header. cbn [chunk_progress_state chunk_state http_data].
  pose proof (find_chunk_header [48] rest ltac:(by apply Forall_cons_2; [by eexists|by apply Forall_nil_2]) ltac:(simpl; lia)) as E.
  rewrite (find_chunk_skip k _ _ E). cbn [mbind outcome_bind co_offset co_length].
  pose proof (length_line_ends k) as Hlen.
  rewrite split_off_ok by (rewrite length_app, Hlen; lia). cbn [mbind outcome_bind snd set_http_data http_data].
  rewrite decide_True by done. rewrite Nat.add_0_l, <-Hlen, drop_app_length. unfold byte_at.
  rewrite (lookup_ge_None_2 ([48] ++ CRLF ++ rest)) by (rewrite Hlen; simpl; lia).
  eexists. done.
Qed.

(** What the regular expressions capture in the lines of the example. *)
Definition capture_after (prefix line : list Z) : option (list Z) :=
  if starts_with line prefix then Some (take (length line - length prefix - 2) (drop (length prefix) line))
  else None.

(** The framer gets there: a request with a chunked body, then two empty lines and the
    last chunk. *)
Lemma http_framer_panics_on_last_chunk_witness :
  let ccl := capture_after (bytes "Content-Length: ") in
  let cte := capture_after (bytes "Transfer-Encoding: ") in
  let header := bytes "PUT / HTTP/1.1" ++ CRLF ++ bytes "Transfer-Encoding: chunked" ++ CRLF ++ CRLF in
  http_take_frame ccl cte request_seek_packet_start (http_add_data http_new header) =
    Ret (Some (mkFrame header false), chunk_state [] SeekingPacketStart []) ∧
  ∃ why, http_take_frame ccl cte request_seek_packet_start
    (http_add_data (chunk_state [] SeekingPacketStart []) [13; 10; 13; 10; 48; 13; 10]) = Panic why.
Proof.
  split; [vm_compute; reflexivity|].
  apply (http_framer_panics_on_last_chunk (capture_after (bytes "Content-Length: "))
    (capture_after (bytes "Transfer-Encoding: ")) request_seek_packet_start 2 [] SeekingPacketStart []).
  simpl. lia.
Defined.

(** ** Requests *)
Section Requests.
Variable capture_content_length : list Z → option (list Z).
Variable capture_transfer_encoding : list Z → option (list Z).

Abbreviation seek_loop := (seek_body_start_loop capture_content_length capture_transfer_encoding).
Abbreviation http_take := (http_take_frame capture_content_length capture_transfer_encoding request_seek_packet_start).

(** A header line without its line end: not empty, no carriage return inside, not about
    the transfer encoding; a content length is a number. *)
Definition header_text (t : list Z) : Prop :=
  t ≠ [] ∧ 13 ∉ t ∧ starts_with (t ++ CRLF) (bytes "Transfer-Encoding:") = false ∧
  (starts_with (t ++ CRLF) (bytes "Content-Length:") = true →
     valid_utf8 (t ++ CRLF) = true ∧
     ∃ ds n, capture_content_length (t ++ CRLF) = Some ds ∧ parse_usize ds = Some n).

(** The content length after a line: the first one that is not zero counts. *)
Definition length_after (len : nat) (t : list Z) : nat :=
  if decide (len = 0%nat)
  then if starts_with (t ++ CRLF) (bytes "Content-Length:")
       then default 0%nat (capture_content_length (t ++ CRLF) ≫= parse_usize) else len
  else len.

Abbreviation line_of t := (t ++ CRLF).

Definition body_start_state (d : list Z) (len : nat) (cps : ChunkProgressState) (cs : option nat)
    (ls : list (list Z)) : HttpFramerState :=
  mkHttp d SeekingBodyStart len StandardEncoding cps cs ls.

Lemma check_header t d len cps cs ls :
  header_text t →
  (let s := body_start_state d len cps cs ls in
   if decide (content_length s = 0%nat) then check_for_content_length capture_content_length s (line_of t) else s) =
    body_start_state d (length_after len t) cps cs ls.
Proof.
  intros (_ & _ & _ & Hcl). unfold length_after. cbn [content_length body_start_state].
  case_decide; [|done]. unfold check_for_content_length.
  destruct (starts_with (line_of t) (bytes "Content-Length:")); [|done]. cbn [negb].
  destruct (Hcl eq_refl) as (-> & ds & n & -> & Hn). cbn. by rewrite Hn.
Qed.

Lemma seek_header_line t d len cps cs ls fuel :
  header_text t →
  seek_loop (S fuel) (body_start_state (line_of t ++ d) len cps cs ls) =
    seek_loop fuel (body_start_state d (length_after len t) cps cs (ls ++ [line_of t])).
Proof.
  intros Ht. pose proof Ht as (Hne & H13 & Hte & _). cbn [seek_body_start_loop].
  rewrite decide_True by done. cbn [http_data body_start_state].
  rewrite <-app_assoc, index_of_CRLF, app_assoc by done.
  rewrite split_off_ok by (rewrite !length_app; simpl; lia). cbn [mbind outcome_bind].
  replace (length t + 2)%nat with (length (line_of t)) by (rewrite length_app; simpl; lia).
  rewrite take_app_length, drop_app_length.
  change (set_http_data _ d) with (body_start_state d len cps cs ls).
  pose proof (check_header t d len cps cs ls Ht) as Hc. cbv zeta in Hc. rewrite Hc.
  cbn [transfer_encoding_chunked body_start_state]. rewrite decide_True by done.
  unfold check_for_transfer_encoding. rewrite Hte. cbn [negb]. unfold check_for_zero_length.
  rewrite decide_True; [done|]. rewrite length_app. simpl. destruct t; [done|]. simpl. lia.
Qed.

Lemma seek_empty_line d len cps cs ls fuel :
  seek_loop (S fuel) (body_start_state (CRLF ++ d) len cps cs ls) =
    Ret (true, mkHttp d SeekingBodyEnd len StandardEncoding cps cs (ls ++ [CRLF])).
Proof.
  cbn [seek_body_start_loop]. rewrite decide_True by done. cbn [http_data body_start_state].
  rewrite index_of_CRLF_front, split_off_ok by (simpl; lia). cbn [mbind outcome_bind].
  change (take (0 + 2) (CRLF ++ d)) with CRLF. change (drop (0 + 2) (CRLF ++ d)) with d.
  change (set_http_data _ d) with (body_start_state d len cps cs ls).
  assert (E : (if decide (content_length (body_start_state d len cps cs ls) = 0%nat)
    then check_for_content_length capture_content_length (body_start_state d len cps cs ls) CRLF
    else body_start_state d len cps cs ls) = body_start_state d len cps cs ls) by (by case_decide).
  by rewrite E.
Qed.

Lemma seek_headers ts d len cps cs ls fuel :
  Forall header_text ts → (length ts < fuel)%nat →
  seek_loop fuel (body_start_state (concat ((λ t, line_of t) <$> ts) ++ CRLF ++ d) len cps cs ls) =
    Ret (true, mkHttp d SeekingBodyEnd (fold_left length_after ts len) StandardEncoding cps cs
                 (ls ++ ((λ t, line_of t) <$> ts) ++ [CRLF])).
Proof.
  revert len ls fuel. induction ts as [|t ts IH]; intros len ls fuel Hts Hf;
    (destruct fuel as [|fuel]; [simpl in Hf; lia|]).
  - cbn [fmap list_fmap concat app fold_left]. apply seek_empty_line.
  - apply Forall_cons_1 in Hts as [Ht Hts]. rewrite fmap_cons. cbn [concat fold_left]. rewrite <-app_assoc.
    rewrite seek_header_line by done. rewrite IH by (done || simpl in Hf; lia). by rewrite <-app_assoc.
Qed.

(** Where the first method stands. *)
Lemma fold_min_le l (x : nat) : (fold_left Nat.min l x ≤ x)%nat ∧ ∀ y, y ∈ l → (fold_left Nat.min l x ≤ y)%nat.
Proof.
  revert x. induction l as [|z l IH]; intros x; simpl; [split; [done|set_solver]|].
  destruct (IH (x `min` z)%nat) as [H1 H2]. split; [lia|]. intros y [->|Hy]%elem_of_cons; [lia|by apply H2].
Qed.

Lemma minimum_zero l : 0%nat ∈ l → minimum l = Some 0%nat.
Proof.
  destruct l as [|x l]; [set_solver|]. simpl. destruct (fold_min_le l x) as [H1 H2].
  intros [<-|H]%elem_of_cons; f_equal; [lia|]. specialize (H2 _ H). lia.
Qed.

Lemma method_at_front m d : m ∈ METHODS → minimum (omap (index_of (m ++ d)) METHODS) = Some 0%nat.
Proof.
  intros Hm. apply minimum_zero, list_elem_of_omap. exists m. split; [done|].
  assert (Hne : m ≠ []).
  { intros ->. unfold METHODS in Hm. cbn in Hm. set_solver. }
  destruct m as [|x m]; [done|]. unfold index_of. cbn [app index_of_loop].
  change (x :: m ++ d) with ((x :: m) ++ d). by rewrite needles_match_app.
Qed.

(** a request is one frame: a line that starts with a method, header lines, an empty
    line and as many bytes as the content length of the headers says, if they say one.
    The framer hands out these bytes, keeps what follows and is ready for the next
    request. *)
Theorem http_framer_finds_request m t ts body rest cps cs :
  m ∈ METHODS → Forall header_text ((m ++ t) :: ts) →
  length body = fold_left length_after ((m ++ t) :: ts) 0%nat →
  http_take (mkHttp (concat ((λ t, line_of t) <$> (m ++ t) :: ts) ++ CRLF ++ body ++ rest)
               SeekingPacketStart 0 StandardEncoding cps cs []) =
    Ret (Some (mkFrame (concat ((λ t, line_of t) <$> (m ++ t) :: ts) ++ CRLF ++ body) false),
         mkHttp rest SeekingPacketStart 0 StandardEncoding cps cs []).
Proof.
  intros Hm Hts Hb. unfold http_take_frame. rewrite decide_False by done. unfold take_packet_frame.
  cbn [packet_progress_state]. rewrite decide_True by done. unfold request_seek_packet_start.
  cbn [packet_progress_state http_data]. rewrite decide_True by done.
  rewrite fmap_cons. cbn [concat]. rewrite <-!app_assoc. rewrite method_at_front by done.
  cbn [negb transfer_encoding_chunked chunk_progress_state chunk_size]. rewrite drop_0.
  set (d := m ++ t ++ CRLF ++ _). cbn [packet_progress_state]. rewrite decide_True by done.
  assert (Ed : d = concat ((λ t, line_of t) <$> (m ++ t) :: ts) ++ CRLF ++ body ++ rest).
  { unfold d. rewrite fmap_cons. cbn [concat]. by rewrite <-!app_assoc. }
  unfold seek_body_start. cbn [http_data].
  change (mkHttp d SeekingBodyStart 0 StandardEncoding cps cs []) with (body_start_state d 0 cps cs []).
  rewrite Ed at 2. rewrite seek_headers; [|done|].
  2:{ rewrite Ed, length_app. assert (H : ∀ l, (length l ≤ length (concat ((λ t, line_of t) <$> l)))%nat); [|specialize (H ((m ++ t) :: ts)); lia].
      clear. induction l as [|x l IH]; [done|]. rewrite fmap_cons. cbn [concat length].
      rewrite !length_app. cbn [length CRLF]. lia. }
  cbn [mbind outcome_bind mret outcome_ret negb fst snd packet_progress_state]. rewrite decide_True by done.
  unfold seek_body_end. cbn [packet_progress_state content_length http_data].
  rewrite bool_decide_eq_true_2, <-Hb by done.
  rewrite (proj2 (Nat.leb_le _ _)) by (rewrite length_app; lia). cbn [andb].
  rewrite split_off_ok by (rewrite length_app; lia). cbn [mbind outcome_bind mret outcome_ret].
  rewrite take_app_length, drop_app_length. cbn [transfer_encoding_chunked]. rewrite decide_False by done.
  cbn [fmap option_fmap option_map fst snd chunk_progress_state chunk_size lines]. do 4 f_equal.
  cbn [app]. rewrite fmap_cons, !concat_app. cbn [concat app].
  by rewrite !app_nil_r, <-!app_assoc.
Qed.
End Requests.

Lemma http_framer_finds_request_witness :
  http_take_frame (capture_after (bytes "Content-Length: ")) (capture_after (bytes "Transfer-Encoding: "))
    request_seek_packet_start
    (http_add_data http_new (bytes "PUT /x HTTP/1.1" ++ CRLF ++ bytes "Content-Length: 2" ++ CRLF ++ CRLF ++ [65; 66] ++ [67])) =
  Ret (Some (mkFrame (bytes "PUT /x HTTP/1.1" ++ CRLF ++ bytes "Content-Length: 2" ++ CRLF ++ CRLF ++ [65; 66]) false),
       mkHttp [67] SeekingPacketStart 0 StandardEncoding NoChunk None []).
Proof.
  refine (http_framer_finds_request (capture_after (bytes "Content-Length: "))
    (capture_after (bytes "Transfer-Encoding: ")) (bytes "PUT") (bytes " /x HTTP/1.1")
    [bytes "Content-Length: 2"] [65; 66] [67] NoChunk None _ _ _).
  - vm_compute. do 3 right. left.
  - repeat apply Forall_cons_2; [..|by apply Forall_nil_2]; (split; [done|]; split; [|split; [done|]]).
    + vm_compute. intros H. repeat (apply elem_of_cons in H as [?|H]; [discriminate|]). by apply elem_of_nil in H.
    + discriminate.
    + vm_compute. intros H. repeat (apply elem_of_cons in H as [?|H]; [discriminate|]). by apply elem_of_nil in H.
    + intros _. split; [done|]. exists [50], 2%nat. done.
  - reflexivity.
Defined.
