(* ===== verification/TlsProtocolPack.v ===== *)
(** * Finding the host in a TLS handshake

    Models [node/src/sub_lib/binary_traverser.rs], the accessors of [PlainData]
    ([node/src/sub_lib/cryptde.rs]) that it uses, and the TLS protocol pack of the
    proxy server ([node/src/proxy_server/tls_protocol_pack.rs]). *)

From S2P Require Import Prelude.
From S2P Require Import Bytes.
From S2P Require Import HttpFraming.

(** ** [PlainData] *)
Definition pd_get_u8 (d : list Z) (idx : nat) : option Z := d !! idx.

Definition pd_get_u16 (d : list Z) (idx : nat) : option Z :=
  b0 ← d !! idx; b1 ← d !! (idx + 1)%nat; Some (Z.lor (Z.shiftl b0 8) b1).

Definition pd_get_u24 (d : list Z) (idx : nat) : option Z :=
  b0 ← d !! idx; b1 ← d !! (idx + 1)%nat; b2 ← d !! (idx + 2)%nat;
  Some (Z.lor (Z.lor (Z.shiftl b0 16) (Z.shiftl b1 8)) b2).

Definition pd_get_u32 (d : list Z) (idx : nat) : option Z :=
  b0 ← d !! idx; b1 ← d !! (idx + 1)%nat; b2 ← d !! (idx + 2)%nat; b3 ← d !! (idx + 3)%nat;
  Some (Z.lor (Z.lor (Z.lor (Z.shiftl b0 24) (Z.shiftl b1 16)) (Z.shiftl b2 8)) b3).

(** ** [BinaryTraverser]: a computation that reads on from a position, and may fail *)
Definition traverse (A : Type) : Type := nat → result A unit * nat.

#[export] Instance traverse_ret : MRet traverse := λ A a position, (Ok a, position).
#[export] Instance traverse_bind : MBind traverse := λ A B f m position,
  match m position with
  | (Ok a, position) => f a position
  | (Err e, position) => (Err e, position)
  end.

Section Traverser.
Variable plain_data : list Z.

Definition xv_is_valid (position : nat) : bool := (position <? length plain_data)%nat.

Definition xv_offset : traverse nat := λ position, (Ok position, position).

(** The position moves even when it moves too far. *)
Definition advance (n : nat) : traverse unit := λ position,
  let position := (position + n)%nat in
  if (length plain_data <? position)%nat then (Err tt, position) else (Ok tt, position).

Definition convert_result {A} (o : option A) : traverse A := λ position,
  (match o with Some value => Ok value | None => Err tt end, position).

Definition next_bytes (count : nat) : traverse (list Z) :=
  position ← xv_offset;
  _ ← advance count;
  mret (take count (drop position plain_data)).

Definition xv_get_u8 : traverse Z :=
  _ ← advance 1; position ← xv_offset; convert_result (pd_get_u8 plain_data (position - 1)).

Definition xv_get_u16 : traverse Z :=
  _ ← advance 2; position ← xv_offset; convert_result (pd_get_u16 plain_data (position - 2)).

Definition xv_get_u24 : traverse Z :=
  _ ← advance 3; position ← xv_offset; convert_result (pd_get_u24 plain_data (position - 3)).

Definition xv_get_u32 : traverse Z :=
  _ ← advance 4; position ← xv_offset; convert_result (pd_get_u32 plain_data (position - 4)).

(** ** [TlsProtocolPack] *)
Definition traverse_fail {A} : traverse A := λ position, (Err tt, position).

Definition host_name_from_list_entry : traverse (list Z) :=
  server_name_length ← xv_get_u16;
  server_name_bytes ← next_bytes (Z.to_nat server_name_length);
  if valid_utf8 server_name_bytes then mret server_name_bytes else traverse_fail.

(** Every turn reads a byte: as many turns as there are bytes. *)
Fixpoint server_name_loop (fuel : nat) (server_name_list_end : nat) : traverse (list Z) :=
  match fuel with
  | O => traverse_fail
  | S fuel' =>
      position ← xv_offset;
      if (position <? server_name_list_end)%nat
      then
        server_name_type ← xv_get_u8;
        if decide (server_name_type = 0) then host_name_from_list_entry
        else
          server_name_length ← xv_get_u16;
          _ ← advance (Z.to_nat server_name_length);
          server_name_loop fuel' server_name_list_end
      else traverse_fail
  end.

Definition host_name_from_extension : traverse (list Z) :=
  _ ← advance 2;
  server_name_list_length ← xv_get_u16;
  position ← xv_offset;
  server_name_loop (S (length plain_data)) (position + Z.to_nat server_name_list_length).

Fixpoint extension_loop (fuel : nat) (extensions_end : nat) : traverse (list Z) :=
  match fuel with
  | O => traverse_fail
  | S fuel' =>
      position ← xv_offset;
      if (position <? extensions_end)%nat
      then
        extension_type ← xv_get_u16;
        if decide (extension_type = 0) then host_name_from_extension
        else
          extension_length ← xv_get_u16;
          _ ← advance (Z.to_nat extension_length);
          extension_loop fuel' extensions_end
      else traverse_fail
  end.

Definition host_name_from_client_hello : traverse (list Z) :=
  position ← xv_offset;
  _ ← advance (43 - position);
  session_id_length ← xv_get_u8;
  _ ← advance (Z.to_nat session_id_length);
  cipher_suites_length ← xv_get_u16;
  _ ← advance (Z.to_nat cipher_suites_length);
  compression_methods_length ← xv_get_u8;
  _ ← advance (Z.to_nat compression_methods_length);
  extensions_length ← xv_get_u16;
  extensions_offset ← xv_offset;
  extension_loop (S (length plain_data)) (extensions_offset + Z.to_nat extensions_length).

Definition is_ok_with (r : result Z unit) (v : Z) : bool :=
  match r with Ok x => x =? v | Err _ => false end.

Definition is_handshake (position : nat) : bool * nat :=
  let '(r, position) := xv_get_u8 position in (is_ok_with r 22, position).

Definition is_client_hello (position : nat) : outcome (bool * nat) :=
  let '(r, position) := advance (5 - position) position in
  match r with
  | Err _ => Panic "Internal Error"
  | Ok _ =>
      let '(r, position) := xv_get_u8 position in
      mret (is_ok_with r 1, position)
  end.
End Traverser.

Record Host := mkHost { host_name : list Z; host_port : Z }.

Definition TLS_PORT : Z := 443.

Definition tls_find_host (d : list Z) : outcome (option Host) :=
  let '(handshake, position) := is_handshake d 0 in
  if negb handshake then mret None
  else
    p ← is_client_hello d position;
    let '(hello, position) := p in
    if negb hello then mret None
    else
      mret (match (host_name_from_client_hello d position).1 with
            | Ok name => Some (mkHost name TLS_PORT)
            | Err _ => None
            end).

(** ** Reading on *)
Lemma length_prefix (pre x post : list Z) : (length (pre ++ x ++ post) = length pre + length x + length post)%nat.
Proof. rewrite !length_app. lia. Qed.

Lemma advance_app pre x post :
  advance (pre ++ x ++ post) (length x) (length pre) = (Ok tt, (length pre + length x)%nat).
Proof. unfold advance. rewrite (proj2 (Nat.ltb_ge _ _)); [done|]. rewrite length_prefix. lia. Qed.

Lemma get_u8_app pre v post : xv_get_u8 (pre ++ [v] ++ post) (length pre) = (Ok v, (length pre + 1)%nat).
Proof.
  unfold xv_get_u8, mbind, traverse_bind. change 1%nat with (length [v]) at 1.
  rewrite (advance_app pre [v] post). cbn [length xv_offset]. unfold convert_result, pd_get_u8.
  rewrite Nat.add_sub. cbn [app]. by rewrite list_lookup_middle.
Qed.

Lemma lor_bytes hi lo : 0 ≤ lo < 256 → 0 ≤ hi → Z.lor (Z.shiftl hi 8) lo = hi * 256 + lo.
Proof.
  intros Hlo Hhi. rewrite <-Z.add_lor_land, Z.shiftl_mul_pow2 by lia. change (2 ^ 8) with 256.
  assert (Z.land (hi * 256) lo = 0) as ->; [|lia].
  change 256 with (2 ^ 8). rewrite <-Z.shiftl_mul_pow2 by lia. apply Z.bits_inj_0. intros i.
  rewrite Z.land_spec. destruct (Z.lt_ge_cases i 8) as [Hi|Hi].
  - destruct (Z.lt_ge_cases i 0); [by rewrite Z.testbit_neg_r|]. by rewrite Z.shiftl_spec_low.
  - destruct (Z.eq_dec lo 0) as [->|]; [by rewrite Z.bits_0, andb_false_r|].
    rewrite (Z.bits_above_log2 lo i), andb_false_r; [done|lia|].
    assert (Z.log2 lo < 8) by (apply Z.log2_lt_pow2; lia). lia.
Qed.

Lemma get_u16_app pre v post :
  0 ≤ v < 2 ^ 16 → xv_get_u16 (pre ++ be16 v ++ post) (length pre) = (Ok v, (length pre + 2)%nat).
Proof.
  intros Hv. unfold xv_get_u16, mbind, traverse_bind. change 2%nat with (length (be16 v)) at 1.
  rewrite (advance_app pre (be16 v) post). rewrite be16_eq. cbn [length xv_offset]. unfold convert_result, pd_get_u16.
  rewrite Nat.add_sub. cbn [app].
  rewrite (list_lookup_middle pre _ ((v / 256) mod 256) (length pre)) by done.
  rewrite lookup_app_r by lia. replace (length pre + 1 - length pre)%nat with 1%nat by lia.
  cbn [lookup list_lookup mbind option_bind]. rewrite lor_bytes by (apply Z.mod_pos_bound; lia).
  do 2 f_equal. rewrite (Z.mod_small (v / 256)) by (split; [apply Z.div_pos|apply Z.div_lt_upper_bound]; lia).
  pose proof (Z.div_mod v 256). lia.
Qed.

Lemma read_offset {B} (f : nat → traverse B) position : (xv_offset ≫= f) position = f position position.
Proof. done. Qed.

(** ** The loops have fuel enough: any two numbers of turns above the number of bytes
    left give the same result *)

(** A read that succeeds moves forward and stays within the data. *)
Definition forward {A} (d : list Z) (m : traverse A) (n : nat) : Prop :=
  ∀ p a p', m p = (Ok a, p') → (p + n ≤ p' ≤ length d)%nat.

Lemma forward_advance d n : forward d (advance d n) n.
Proof.
  intros p a p'. unfold advance. destruct (Nat.ltb_spec (length d) (p + n)); [done|]. intros [= _ <-]. lia.
Qed.

Lemma forward_u8 d : forward d (xv_get_u8 d) 1.
Proof.
  intros p a p'. unfold xv_get_u8, mbind, traverse_bind. destruct (advance d 1 p) as [[[]|] q] eqn:E; [|done].
  apply forward_advance in E. unfold xv_offset, convert_result. by intros [= _ <-].
Qed.

Lemma forward_u16 d : forward d (xv_get_u16 d) 2.
Proof.
  intros p a p'. unfold xv_get_u16, mbind, traverse_bind. destruct (advance d 2 p) as [[[]|] q] eqn:E; [|done].
  apply forward_advance in E. unfold xv_offset, convert_result. by intros [= _ <-].
Qed.

Lemma bind_ext {A B} d (m : traverse A) n (f g : A → traverse B) p :
  forward d m n → (∀ a q, (p + n ≤ q ≤ length d)%nat → f a q = g a q) → (m ≫= f) p = (m ≫= g) p.
Proof.
  intros Hm H. unfold mbind, traverse_bind. destruct (m p) as [[a|] q] eqn:E; [|done].
  by apply H, (Hm p a).
Qed.

Lemma server_name_loop_fuel d f1 f2 e p :
  (length d < f1 + p)%nat → (length d < f2 + p)%nat → (p ≤ length d)%nat →
  server_name_loop d f1 e p = server_name_loop d f2 e p.
Proof.
  revert f2 p. induction f1 as [|f1 IH]; intros [|f2] p H1 H2 Hp; try lia. cbn [server_name_loop].
  rewrite !read_offset. destruct (p <? e)%nat; [|done].
  apply (bind_ext d _ 1); [apply forward_u8|]. intros t q1 Hq1. case_decide; [done|].
  apply (bind_ext d _ 2); [apply forward_u16|]. intros l q2 Hq2.
  apply (bind_ext d _ (Z.to_nat l)); [apply forward_advance|]. intros _ q3 Hq3. apply IH; lia.
Qed.

Lemma extension_loop_fuel d f1 f2 e p :
  (length d < f1 + p)%nat → (length d < f2 + p)%nat → (p ≤ length d)%nat →
  extension_loop d f1 e p = extension_loop d f2 e p.
Proof.
  revert f2 p. induction f1 as [|f1 IH]; intros [|f2] p H1 H2 Hp; try lia. cbn [extension_loop].
  rewrite !read_offset. destruct (p <? e)%nat; [|done].
  apply (bind_ext d _ 2); [apply forward_u16|]. intros t q1 Hq1. case_decide; [done|].
  apply (bind_ext d _ 2); [apply forward_u16|]. intros l q2 Hq2.
  apply (bind_ext d _ (Z.to_nat l)); [apply forward_advance|]. intros _ q3 Hq3. apply IH; lia.
Qed.

(** ** A ClientHello that names its server *)

(** Type and contents of an extension; the entries of a list of server names. *)
Definition extension_bytes (e : Z * list Z) : list Z := be16 e.1 ++ be16 (Z.of_nat (length e.2)) ++ e.2.
Definition name_entry (e : Z * list Z) : list Z := [e.1] ++ be16 (Z.of_nat (length e.2)) ++ e.2.

Definition server_name_extension (entries : list (Z * list Z)) : Z * list Z :=
  (0, be16 (Z.of_nat (length (concat (name_entry <$> entries)))) ++ concat (name_entry <$> entries)).

Record ClientHello := mkHello {
  record_header : list Z;
  hello_prologue : list Z;
  session_id : list Z;
  cipher_suites : list Z;
  compression_methods : list Z;
  extensions : list (Z * list Z)
}.

Definition client_hello_bytes (h : ClientHello) : list Z :=
  [22] ++ record_header h ++ [1] ++ hello_prologue h ++
  [Z.of_nat (length (session_id h))] ++ session_id h ++
  be16 (Z.of_nat (length (cipher_suites h))) ++ cipher_suites h ++
  [Z.of_nat (length (compression_methods h))] ++ compression_methods h ++
  be16 (Z.of_nat (length (concat (extension_bytes <$> extensions h)))) ++ concat (extension_bytes <$> extensions h).

Definition fits_u16 (l : list Z) : Prop := Z.of_nat (length l) < 2 ^ 16.

Definition extension_wf (e : Z * list Z) : Prop := 0 ≤ e.1 < 2 ^ 16 ∧ fits_u16 e.2.

Definition client_hello_wf (h : ClientHello) : Prop :=
  length (record_header h) = 4%nat ∧ length (hello_prologue h) = 37%nat ∧
  fits_u16 (cipher_suites h) ∧ fits_u16 (concat (extension_bytes <$> extensions h)) ∧
  Forall extension_wf (extensions h).

(** Steps through a text: [pre] has been read and [post] is left. *)
Lemma read_u8 {B} d pre v post (f : Z → traverse B) :
  d = pre ++ [v] ++ post → (xv_get_u8 d ≫= f) (length pre) = f v (length (pre ++ [v])).
Proof.
  intros ->. unfold mbind at 1, traverse_bind. rewrite get_u8_app. by rewrite length_app.
Qed.

Lemma read_u16 {B} d pre v post (f : Z → traverse B) :
  d = pre ++ be16 v ++ post → 0 ≤ v < 2 ^ 16 →
  (xv_get_u16 d ≫= f) (length pre) = f v (length (pre ++ be16 v)).
Proof.
  intros -> H. unfold mbind at 1, traverse_bind. rewrite get_u16_app by done. by rewrite length_app.
Qed.

Lemma read_skip {B} d pre x post n (f : unit → traverse B) :
  d = pre ++ x ++ post → n = length x → (advance d n ≫= f) (length pre) = f tt (length (pre ++ x)).
Proof. intros -> ->. unfold mbind, traverse_bind. by rewrite advance_app, length_app. Qed.

Lemma read_bytes {B} d pre x post n (f : list Z → traverse B) :
  d = pre ++ x ++ post → n = length x → (next_bytes d n ≫= f) (length pre) = f x (length (pre ++ x)).
Proof.
  intros -> ->. unfold next_bytes, mbind, traverse_bind, xv_offset. rewrite advance_app. cbn [mret traverse_ret].
  by rewrite drop_app_length, take_app_length, length_app.
Qed.

(** Two texts that differ in their brackets. *)
Ltac reassoc :=
  unfold name_entry, extension_bytes, server_name_extension; cbn [fst snd]; rewrite <-?app_assoc; cbn [app]; done.

(** One entry that is not a host name is skipped; the first one that is gives the host. *)
Lemma skip_name_entry d pre e post fuel e_end :
  d = pre ++ name_entry e ++ post → e.1 ≠ 0 → fits_u16 e.2 → (length pre < e_end)%nat →
  server_name_loop d (S fuel) e_end (length pre) = server_name_loop d fuel e_end (length (pre ++ name_entry e)).
Proof.
  intros Hd Ht Hf Hp. unfold fits_u16 in Hf. set (n := be16 (Z.of_nat (length e.2))).
  cbn [server_name_loop]. rewrite read_offset, (proj2 (Nat.ltb_lt _ _)) by done.
  rewrite (read_u8 d pre e.1 (n ++ e.2 ++ post)) by (subst d; reassoc). rewrite decide_False by done.
  rewrite (read_u16 d (pre ++ [e.1]) (Z.of_nat (length e.2)) (e.2 ++ post)) by (lia || subst d; reassoc).
  rewrite (read_skip d ((pre ++ [e.1]) ++ n) e.2 post) by (by rewrite Nat2Z.id || subst d; reassoc).
  f_equal. f_equal. reassoc.
Qed.

Lemma find_name_entry d pre name post fuel e_end :
  d = pre ++ name_entry (0, name) ++ post →
  fits_u16 name → valid_utf8 name = true → (length pre < e_end)%nat →
  (server_name_loop d (S fuel) e_end (length pre)).1 = Ok name.
Proof.
  intros Hd Hf Hv Hp. unfold fits_u16 in Hf. set (n := be16 (Z.of_nat (length name))).
  cbn [server_name_loop]. rewrite read_offset, (proj2 (Nat.ltb_lt _ _)) by done.
  rewrite (read_u8 d pre 0 (n ++ name ++ post)) by (subst d; reassoc). rewrite decide_True by done.
  unfold host_name_from_list_entry.
  rewrite (read_u16 d (pre ++ [0]) (Z.of_nat (length name)) (name ++ post)) by (lia || subst d; reassoc).
  rewrite (read_bytes d ((pre ++ [0]) ++ n) name post) by (by rewrite Nat2Z.id || subst d; reassoc).
  by rewrite Hv.
Qed.

Lemma find_name_loop d before name after pre post fuel e_end :
  d = pre ++ concat (name_entry <$> before ++ (0, name) :: after) ++ post →
  Forall (λ e, e.1 ≠ 0 ∧ fits_u16 e.2) before → fits_u16 name → valid_utf8 name = true →
  (length before < fuel)%nat →
  (length pre + length (concat (name_entry <$> before)) < e_end)%nat →
  (server_name_loop d fuel e_end (length pre)).1 = Ok name.
Proof.
  revert pre fuel. induction before as [|e before IH]; intros pre fuel Hd Hb Hf Hv Hfuel Hend;
    (destruct fuel as [|fuel]; [simpl in Hfuel; lia|]).
  - cbn [app] in Hd. rewrite fmap_cons in Hd. cbn [concat] in Hd. rewrite <-app_assoc in Hd.
    eapply find_name_entry; [done|done|done|]. simpl in Hend. lia.
  - apply Forall_cons_1 in Hb as [[He1 He2] Hb]. cbn [app] in Hd. rewrite !fmap_cons in Hend, Hd.
    cbn [concat] in Hend, Hd. rewrite length_app in Hend. rewrite <-app_assoc in Hd.
    rewrite (skip_name_entry d pre e _) by (done || lia).
    rewrite app_assoc in Hd. eapply IH; [done|done|done|done|simpl in Hfuel; lia|]. rewrite length_app. lia.
Qed.

(** The number of entries is at most the number of bytes. *)
Lemma length_le_concat {A} (f : A → list Z) (l : list A) :
  (∀ x, f x ≠ []) → (length l ≤ length (concat (f <$> l)))%nat.
Proof.
  intros Hf. induction l as [|x l IH]; [done|]. rewrite fmap_cons. cbn [concat length]. rewrite length_app.
  specialize (Hf x). destruct (f x); [done|]. simpl. lia.
Qed.

Lemma find_in_extension d pre nb name na post :
  d = pre ++ be16 (Z.of_nat (length (server_name_extension (nb ++ (0, name) :: na)).2)) ++
        (server_name_extension (nb ++ (0, name) :: na)).2 ++ post →
  fits_u16 (server_name_extension (nb ++ (0, name) :: na)).2 →
  Forall (λ e, e.1 ≠ 0 ∧ fits_u16 e.2) nb → fits_u16 name → valid_utf8 name = true →
  (host_name_from_extension d (length pre)).1 = Ok name.
Proof.
  intros Hd Hfit Hb Hf Hv. unfold server_name_extension in *. cbn [snd] in *.
  set (es := concat (name_entry <$> nb ++ (0, name) :: na)) in *.
  set (n := be16 (Z.of_nat (length es))) in *. set (n2 := be16 _) in Hd.
  assert (Hes : Z.of_nat (length es) < 2 ^ 16).
  { unfold fits_u16 in Hfit. rewrite length_app in Hfit. lia. }
  unfold host_name_from_extension.
  rewrite (read_skip d pre n2 (n ++ es ++ post)) by (done || subst d; reassoc).
  rewrite (read_u16 d (pre ++ n2) (Z.of_nat (length es)) (es ++ post)) by (lia || subst d; reassoc).
  rewrite read_offset. eapply (find_name_loop d nb name na _ post); [subst d; reassoc|done|done|done| |].
  - subst d. rewrite !length_app. fold es.
    pose proof (length_le_concat name_entry (nb ++ (0, name) :: na) ltac:(done)) as H. fold es in H.
    rewrite length_app in H. lia.
  - rewrite Nat2Z.id. unfold es. rewrite fmap_app, concat_app, fmap_cons. cbn [concat].
    rewrite !length_app. simpl. lia.
Qed.

Lemma find_extension_loop d before nb name na after pre post fuel e_end :
  d = pre ++ concat (extension_bytes <$> before ++ server_name_extension (nb ++ (0, name) :: na) :: after) ++ post →
  Forall (λ e, extension_wf e ∧ e.1 ≠ 0) before →
  fits_u16 (server_name_extension (nb ++ (0, name) :: na)).2 →
  Forall (λ e, e.1 ≠ 0 ∧ fits_u16 e.2) nb → fits_u16 name → valid_utf8 name = true →
  (length before < fuel)%nat →
  (length pre + length (concat (extension_bytes <$> before)) < e_end)%nat →
  (extension_loop d fuel e_end (length pre)).1 = Ok name.
Proof.
  revert pre fuel. induction before as [|e before IH]; intros pre fuel Hd Hb Hs Hnb Hf Hv Hfuel Hend;
    (destruct fuel as [|fuel]; [simpl in Hfuel; lia|]); cbn [app] in Hd; rewrite fmap_cons in Hd;
    cbn [concat] in Hd; rewrite <-app_assoc in Hd; cbn [extension_loop]; rewrite read_offset.
  - rewrite (proj2 (Nat.ltb_lt _ _)) by (simpl in Hend; lia).
    rewrite (read_u16 d pre 0 (be16 (Z.of_nat (length (server_name_extension (nb ++ (0, name) :: na)).2)) ++
      (server_name_extension (nb ++ (0, name) :: na)).2 ++ concat (extension_bytes <$> after) ++ post))
      by (lia || subst d; reassoc).
    rewrite decide_True by done.
    eapply (find_in_extension d (pre ++ be16 0) nb name na (concat (extension_bytes <$> after) ++ post));
      [subst d; reassoc|done..].
  - apply Forall_cons_1 in Hb as [[[He1 He2] He0] Hb]. rewrite fmap_cons in Hend. cbn [concat] in Hend.
    rewrite length_app in Hend. unfold fits_u16 in He2. rewrite (proj2 (Nat.ltb_lt _ _)) by lia.
    set (tl := concat (extension_bytes <$> before ++ _) ++ post) in Hd.
    rewrite (read_u16 d pre e.1 (be16 (Z.of_nat (length e.2)) ++ e.2 ++ tl)) by (done || subst d; reassoc).
    rewrite decide_False by done.
    rewrite (read_u16 d (pre ++ be16 e.1) (Z.of_nat (length e.2)) (e.2 ++ tl)) by (lia || subst d; reassoc).
    rewrite (read_skip d ((pre ++ be16 e.1) ++ be16 (Z.of_nat (length e.2))) e.2 tl)
      by (by rewrite Nat2Z.id || subst d; reassoc).
    eapply IH; [|done..|simpl in Hfuel; lia|].
    + subst d. unfold tl, extension_bytes at 1. by rewrite <-!app_assoc.
    + rewrite !length_app. unfold extension_bytes at 1 in Hend. rewrite !length_app in Hend. lia.
Qed.

(** The name is found in the handshake message, from its sixth byte on. *)
Lemma find_in_client_hello h before nb name na after :
  client_hello_wf h →
  extensions h = before ++ server_name_extension (nb ++ (0, name) :: na) :: after →
  Forall (λ e, e.1 ≠ 0) before → Forall (λ e, e.1 ≠ 0 ∧ fits_u16 e.2) nb →
  fits_u16 name → valid_utf8 name = true →
  (host_name_from_client_hello (client_hello_bytes h) 6%nat).1 = Ok name.
Proof.
  intros (Hrh & Hp & Hcs & Hex & Hwf) Eex Hb Hnb Hf Hv. unfold host_name_from_client_hello.
  rewrite read_offset. cbn [Nat.sub].
  set (d := client_hello_bytes h). unfold client_hello_bytes in d. set (ex := concat _) in d.
  set (sl := Z.of_nat (length (session_id h))) in *. set (cl := Z.of_nat (length (cipher_suites h))) in *.
  set (ml := Z.of_nat (length (compression_methods h))) in *. set (el := Z.of_nat (length ex)) in *.
  set (p0 := [22] ++ record_header h ++ [1]).
  assert (E6 : 6%nat = length p0) by (unfold p0; rewrite !length_app; simpl; lia). rewrite E6.
  rewrite (read_skip d p0 (hello_prologue h) ([sl] ++ session_id h ++ be16 cl ++ cipher_suites h ++ [ml] ++
    compression_methods h ++ be16 el ++ ex)) by (lia || unfold d, p0; reassoc).
  set (p1 := p0 ++ hello_prologue h).
  rewrite (read_u8 d p1 sl (session_id h ++ be16 cl ++ cipher_suites h ++ [ml] ++
    compression_methods h ++ be16 el ++ ex)) by (unfold d, p1, p0; reassoc).
  rewrite (read_skip d (p1 ++ [sl]) (session_id h) (be16 cl ++ cipher_suites h ++ [ml] ++
    compression_methods h ++ be16 el ++ ex)) by (apply Nat2Z.id || unfold d, p1, p0; reassoc).
  set (p2 := (p1 ++ [sl]) ++ session_id h). unfold fits_u16 in Hcs, Hex.
  rewrite (read_u16 d p2 cl (cipher_suites h ++ [ml] ++ compression_methods h ++ be16 el ++ ex))
    by (unfold cl; lia || unfold d, p2, p1, p0; reassoc).
  rewrite (read_skip d (p2 ++ be16 cl) (cipher_suites h) ([ml] ++ compression_methods h ++ be16 el ++ ex))
    by (apply Nat2Z.id || unfold d, p2, p1, p0; reassoc).
  set (p3 := (p2 ++ be16 cl) ++ cipher_suites h).
  rewrite (read_u8 d p3 ml (compression_methods h ++ be16 el ++ ex)) by (unfold d, p3, p2, p1, p0; reassoc).
  rewrite (read_skip d (p3 ++ [ml]) (compression_methods h) (be16 el ++ ex))
    by (apply Nat2Z.id || unfold d, p3, p2, p1, p0; reassoc).
  set (p4 := (p3 ++ [ml]) ++ compression_methods h).
  rewrite (read_u16 d p4 el ex) by (unfold el, ex; lia || unfold d, p4, p3, p2, p1, p0; reassoc).
  rewrite read_offset.
  assert (Eex' : ex = concat (extension_bytes <$> before ++ server_name_extension (nb ++ (0, name) :: na) :: after))
    by (unfold ex; by rewrite Eex).
  rewrite Eex in Hwf. apply Forall_app in Hwf as [Hwb Hws]. apply Forall_cons_1 in Hws as [[_ Hs] _].
  eapply (find_extension_loop d before nb name na after _ []); [|..]; try done.
  - rewrite <-Eex', app_nil_r. unfold d, p4, p3, p2, p1, p0. reassoc.
  - rewrite Forall_forall in *. intros e He. split; [by apply Hwb|by apply Hb].
  - pose proof (length_le_concat extension_bytes (extensions h) ltac:(done)) as Hle. fold ex in Hle.
    rewrite Eex, length_app in Hle. unfold d. rewrite !length_app. lia.
  - unfold el. rewrite Nat2Z.id, Eex', fmap_app, concat_app, fmap_cons. cbn [concat]. rewrite !length_app. simpl. lia.
Qed.

(** C37: the host of a TLS connection is found: in a ClientHello with a server name
    extension anywhere among its extensions, and a host name anywhere in the list of
    that extension, the first such name is returned with the TLS port. *)
Theorem tls_find_host_correct h before nb name na after :
  client_hello_wf h →
  extensions h = before ++ server_name_extension (nb ++ (0, name) :: na) :: after →
  Forall (λ e, e.1 ≠ 0) before → Forall (λ e, e.1 ≠ 0 ∧ fits_u16 e.2) nb →
  fits_u16 name → valid_utf8 name = true →
  tls_find_host (client_hello_bytes h) = Ret (Some (mkHost name 443)).
Proof.
  intros Hwf Eex Hb Hnb Hf Hv. pose proof (find_in_client_hello h before nb name na after Hwf Eex Hb Hnb Hf Hv) as Hname.
  destruct Hwf as (Hrh & Hp & _). unfold tls_find_host.
  assert (H1 : is_handshake (client_hello_bytes h) 0 = (true, 1%nat)) by done. rewrite H1. cbn [negb].
  unfold is_client_hello.
  assert (H2 : advance (client_hello_bytes h) (5 - 1) 1%nat = (Ok tt, 5%nat)).
  { unfold advance. rewrite (proj2 (Nat.ltb_ge _ _)); [done|]. unfold client_hello_bytes. rewrite !length_app. simpl. lia. }
  rewrite H2.
  assert (H3 : xv_get_u8 (client_hello_bytes h) 5%nat = (Ok 1, 6%nat)).
  { unfold client_hello_bytes. rewrite (app_assoc [22] (record_header h)).
    pose proof (get_u8_app ([22] ++ record_header h) 1) as H3. rewrite length_app, Hrh in H3. apply H3. }
  rewrite H3. cbn [is_ok_with mret outcome_ret mbind outcome_bind]. change (1 =? 1) with true. cbn [negb].
  by rewrite Hname.
Qed.

(** A hello with one other extension, and an entry of another type in front of the host. *)
Definition sample_hello : ClientHello :=
  mkHello [3; 1; 0; 0] (replicate 37 0) [7] [19; 1] [0]
    [(10, [1; 2]); server_name_extension ([(5, [9])] ++ (0, [97; 46; 98]) :: [])].

Lemma tls_find_host_correct_witness :
  tls_find_host (client_hello_bytes sample_hello) = Ret (Some (mkHost [97; 46; 98] 443)).
Proof.
  refine (tls_find_host_correct sample_hello [(10, [1; 2])] [(5, [9])] [97; 46; 98] [] [] _ _ _ _ _ _).
  - split_and!; try done; repeat apply Forall_cons_2; try apply Forall_nil_2; (split; [simpl; lia|done]).
  - reflexivity.
  - apply Forall_cons_2; [done|apply Forall_nil_2].
  - apply Forall_cons_2; [done|apply Forall_nil_2].
  - done.
  - reflexivity.
Defined.

(** ** Arbitrary data *)

(** the only data that make the search for the host panic are the first one to
    four bytes of a handshake record on their own; everything else gives a host or
    none. *)
Theorem tls_find_host_panics_iff d :
  (∃ why, tls_find_host d = Panic why) ↔ d !! 0%nat = Some 22 ∧ (length d < 5)%nat.
Proof.
  unfold tls_find_host. destruct d as [|b d]; [split; [by intros [? ?]|by intros [? ?]]|].
  assert (E : is_handshake (b :: d) 0 = (b =? 22, 1%nat)) by done.
  rewrite E. destruct (Z.eqb_spec b 22) as [->|Hb]; cbn [negb].
  2:{ split; [by intros [? ?]|]. intros [[= ->] _]. done. }
  unfold is_client_hello, advance. destruct (Nat.ltb_spec (length (22 :: d)) (1 + (5 - 1))) as [Hl|Hl].
  - split; [intros _; split; [done|lia]|by eexists].
  - destruct (xv_get_u8 (22 :: d) (1 + (5 - 1))%nat) as [r p].
    split; [|lia]. intros [why H]. cbn [mret outcome_ret mbind outcome_bind] in H. by destruct (negb _).
Qed.
