(* ===== verification/Cryptde.v ===== *)
(** * Encryption of serialized data

    Models [encodex], [decodex] and the encrypting half of the [CryptDE] trait
    ([node/src/sub_lib/cryptde.rs]), the implementation for tests and zero-hop use
    ([node/src/sub_lib/cryptde_null.rs]), and payers ([node/src/blockchain/payer.rs],
    [Wallet::as_payer] of [node/src/sub_lib/wallet.rs]).

    Serialization ([serde_cbor]) and the cryptography behind [CryptDEReal] and
    [ethsign] are not in the repository: they are classes, with what the code relies
    on as their laws. *)

From S2P Require Import Prelude.
From S2P Require Import NodeAddr.

(** ** Serialization *)
Inductive CborError := mkCborError (what : string).

Class Codec (T : Type) := {
  to_vec : T → result (list Z) CborError;
  from_slice : list Z → result T CborError
}.

(** Reading what was written gives the value back; nothing has an empty encoding. *)
Class CodecOk (T : Type) `{Codec T} := {
  codec_roundtrip x : ∃ b, to_vec x = Ok b ∧ b ≠ [] ∧ from_slice b = Ok x
}.

(** ** The [CryptDE] trait *)
Inductive CryptdecError :=
| EmptyKey | EmptyData | InvalidKey (s : string) | InvalidSignature (s : string) | OpeningFailed
| OtherError (s : string).

Inductive RouteError :=
| HopDecodeProblem (s : string) | EmptyRoute | TooFewKeysInRouteSegment | DisjointRouteSegments.

Inductive CodexError :=
| SerializationError (e : CborError)
| DeserializationError (e : CborError)
| EncryptionError (e : CryptdecError)
| DecryptionError (e : CryptdecError)
| RouteProblem (e : RouteError).

(** One node's CryptDE: [cd_encode] encrypts to any public key, [cd_decode] decrypts
    with the node's own private key, [cd_random] fills a buffer. *)
Record NodeCryptDE := mkNodeCryptDE {
  cd_public_key : PublicKey;
  cd_encode : PublicKey → PlainData → result CryptData CryptdecError;
  cd_decode : CryptData → outcome (result PlainData CryptdecError);
  cd_random : nat → list Z;
  cd_digest : list Z
}.

(** What the nodes of a network rely on: what one node encrypts to the key of another
    one is decrypted by that one. *)
Class CryptNetwork (member : NodeCryptDE → Prop) : Prop := {
  crypt_roundtrip s c p :
    member s → member c → p ≠ [] →
    ∃ x, cd_encode s (cd_public_key c) p = Ok x ∧ cd_decode c x = Ret (Ok p)
}.

Definition encodex {T} `{Codec T} (cryptde : NodeCryptDE) (public_key : PublicKey) (item : T) :
    result CryptData CodexError :=
  match to_vec item with
  | Err e => Err (SerializationError e)
  | Ok serialized =>
      match cd_encode cryptde public_key serialized with
      | Ok c => Ok c
      | Err e => Err (EncryptionError e)
      end
  end.

Definition decodex {T} `{Codec T} (cryptde : NodeCryptDE) (d : CryptData) : outcome (result T CodexError) :=
  r ← cd_decode cryptde d;
  mret (match r with
        | Err e => Err (DecryptionError e)
        | Ok decrypted =>
            match from_slice decrypted with
            | Ok t => Ok t
            | Err e => Err (DeserializationError e)
            end
        end).

(** ** [CryptDENull] *)
Definition other_key_data (in_key_data : list Z) : list Z := (λ b, u8 (b + 128)) <$> in_key_data.

Definition encode_with_key_data (kd d : list Z) : result CryptData CryptdecError :=
  match kd, d with
  | [], _ => Err EmptyKey
  | _, [] => Err EmptyData
  | _, _ => Ok (kd ++ d)
  end.

Definition wrong_key_message : string := "Could not decrypt with ... data beginning with ...".

Definition decode_with_key_data (kd d : list Z) : outcome (result PlainData CryptdecError) :=
  match kd, d with
  | [], _ => mret (Err EmptyKey)
  | _, [] => mret (Err EmptyData)
  | _, _ =>
      if (length d <? length kd)%nat then mret (Err (InvalidKey wrong_key_message))
      else if decide (take (length kd) d ≠ kd) then Panic wrong_key_message
      else mret (Ok (drop (length kd) d))
  end.

Definition null_random (n : nat) : list Z := replicate n 52.

(** [CryptDENull::from]: the private key is the public key with every byte shifted. *)
Definition CryptDENull_from (public_key : PublicKey) (digest : list Z) : NodeCryptDE :=
  mkNodeCryptDE public_key
    (λ k d, encode_with_key_data (other_key_data (key_data k)) d)
    (λ d, decode_with_key_data (other_key_data (key_data public_key)) d)
    null_random digest.

(** ** Payers *)
Class Signatures := {
  Signature : Type;
  EthPublicKey : Type;
  secret_address : list Z → list Z;
  public_address : list Z → list Z;
  sign_with : list Z → list Z → result Signature string;
  recover : Signature → list Z → result EthPublicKey string;
  eth_verify : EthPublicKey → Signature → list Z → result bool string;
  eth_address : EthPublicKey → list Z;
  keccak256 : list Z → list Z
}.

(** The public key recovered from a signature verifies it and is the signer's. *)
Class SignaturesOk `{Signatures} : Prop := {
  sign_ok secret msg : ∃ s, sign_with secret msg = Ok s;
  recover_ok secret msg s :
    sign_with secret msg = Ok s →
    ∃ k, recover s msg = Ok k ∧ eth_verify k s msg = Ok true ∧
      eth_address k = secret_address secret
}.

Section Payers.
Context `{Signatures}.

Record Payer := mkPayer { payer_wallet : Wallet; proof : Signature }.

Definition create_digest (msg address : list Z) : list Z := keccak256 (msg ++ address).

Definition wallet_address (w : Wallet) : outcome (list Z) :=
  match w with
  | WalletAddress address => mret address
  | WalletPublicKey public => mret (public_address public)
  | WalletSecretKey secret => mret (secret_address secret)
  | WalletUninitialized => Panic "No address for an uninitialized wallet!"
  end.

Definition as_address_wallet (w : Wallet) : outcome Wallet :=
  address ← wallet_address w; mret (WalletAddress address).

Definition wallet_sign (w : Wallet) (msg : list Z) : result Signature string :=
  match w with
  | WalletSecretKey secret => sign_with secret msg
  | _ => Err "Cannot sign with non-keypair wallet"
  end.

Definition as_payer (w : Wallet) (public_key : PublicKey) (contract_address : list Z) : outcome Payer :=
  match wallet_sign w (create_digest (key_data public_key) contract_address) with
  | Ok proof => w' ← as_address_wallet w; mret (mkPayer w' proof)
  | Err _ => Panic "Trying to sign for ... encountered ..."
  end.

Definition owns_secret_key (p : Payer) (digest : list Z) : outcome bool :=
  match recover (proof p) digest with
  | Ok payer_public_key =>
      match eth_verify payer_public_key (proof p) digest with
      | Ok true =>
          address ← wallet_address (payer_wallet p);
          mret (bool_decide (eth_address payer_public_key = address))
      | Ok false => mret false
      | Err _ => mret false
      end
  | Err _ => mret false
  end.

(** [BAN_CACHE]: address wallets. *)
Definition is_delinquent (ban_cache : list Wallet) (p : Payer) : outcome bool :=
  w ← as_address_wallet (payer_wallet p); mret (bool_decide (w ∈ ban_cache)).
End Payers.

(** ** Lemmas *)
Lemma encodex_roundtrip {T} `{CodecOk T} `{CryptNetwork member} s c (x : T) :
  member s → member c → ∃ d, encodex s (cd_public_key c) x = Ok d ∧ decodex c d = Ret (Ok x).
Proof.
  intros Hs Hc. destruct (codec_roundtrip x) as (b & Hb & Hne & Hx).
  destruct (crypt_roundtrip s c b Hs Hc Hne) as (d & Hd & Hr). exists d.
  unfold encodex, decodex. rewrite Hb, Hd, Hr. split; [done|]. cbn. by rewrite Hx.
Qed.

(** [CryptDENull] is a network: all instances with keys that are not empty. *)
Definition null_member (c : NodeCryptDE) : Prop :=
  ∃ k d, c = CryptDENull_from k d ∧ key_data k ≠ [].

#[export] Instance null_network : CryptNetwork null_member.
Proof.
  constructor. intros ? ? p (ks & ds & -> & Hks) (k & d & -> & Hk) Hp.
  exists (other_key_data (key_data k) ++ p). cbn [cd_encode cd_decode cd_public_key CryptDENull_from].
  destruct (other_key_data (key_data k)) as [|b l] eqn:E.
  { unfold other_key_data in E. by apply fmap_nil_inv in E. }
  destruct p as [|x p]; [done|]. split; [done|]. unfold decode_with_key_data. cbn [app].
  change (b :: l ++ x :: p) with ((b :: l) ++ x :: p).
  rewrite (proj2 (Nat.ltb_ge _ _)) by (rewrite length_app; lia).
  rewrite take_app_length, decide_False by tauto. by rewrite drop_app_length.
Qed.

Section PayerFacts.
Context `{SignaturesOk}.

(** A payer made for a node proves its wallet to that node. *)
Lemma as_payer_owns secret k addr :
  ∃ p, as_payer (WalletSecretKey secret) k addr = Ret p ∧
    payer_wallet p = WalletAddress (secret_address secret) ∧
    owns_secret_key p (create_digest (key_data k) addr) = Ret true.
Proof.
  unfold as_payer, wallet_sign. destruct (sign_ok secret (create_digest (key_data k) addr)) as [s Hs].
  rewrite Hs. eexists. split; [done|]. split; [done|]. unfold owns_secret_key. cbn [proof payer_wallet].
  destruct (recover_ok _ _ _ Hs) as (pk & -> & -> & ->). cbn. by rewrite bool_decide_eq_true_2.
Qed.
End PayerFacts.
