(* ===== verification/Routes.v ===== *)
(** * Routes and packages

    Models [node/src/sub_lib/hop.rs], [node/src/sub_lib/route.rs],
    [node/src/hopper/live_cores_package.rs] and the packages of
    [node/src/sub_lib/hopper.rs]: a route is a list of hops, each encrypted to the
    node that is to read it; a package carries a route and an encrypted payload.
    [Route::to_string] only formats. *)

From S2P Require Import Prelude.
From S2P Require Import NodeAddr.
From S2P Require Import Routing.
From S2P Require Import Cryptde.

(** The number that stands for a component on the wire, and back. *)
Definition component_index (c : Component) : Z :=
  match c with NeighborhoodC => 0 | HopperC => 1 | ProxyServerC => 2 | ProxyClientC => 3 end.

Definition component_visit_u8 (v : Z) : option Component :=
  if v =? 0 then Some NeighborhoodC else if v =? 1 then Some HopperC
  else if v =? 2 then Some ProxyServerC else if v =? 3 then Some ProxyClientC else None.

Section Routes.
Context `{Signatures}.

Record LiveHop := mkLiveHop {
  hop_public_key : PublicKey;
  hop_payer : option Payer;
  hop_component : Component
}.

(** [payload] of the messages: [MessageType]. *)
Context {MessageType : Type} `{Codec LiveHop} `{Codec Z} `{Codec MessageType}.

Definition hop_decode (cryptde : NodeCryptDE) (d : CryptData) : outcome (result LiveHop CodexError) :=
  decodex cryptde d.

Definition hop_encode (hop : LiveHop) (public_key : PublicKey) (cryptde : NodeCryptDE) :
    result CryptData CodexError :=
  encodex cryptde public_key hop.

Definition payer_owns_secret_key (hop : LiveHop) (digest : list Z) : outcome bool :=
  match hop_payer hop with
  | Some p => owns_secret_key p digest
  | None => mret false
  end.

Record Route := mkRoute { hops : list CryptData }.

Definition route_id (r : Route) (cryptde : NodeCryptDE) : outcome (result Z string) :=
  match hops r with
  | first :: _ =>
      x ← decodex (T := Z) cryptde first;
      mret (match x with Ok n => Ok n | Err _ => Err "decoding error" end)
  | [] => mret (Err "Response route did not contain a return route ID")
  end.

Definition next_hop (r : Route) (cryptde : NodeCryptDE) : outcome (result LiveHop CodexError) :=
  match hops r with
  | [] => mret (Err (RouteProblem EmptyRoute))
  | first :: _ => hop_decode cryptde first
  end.

(** The hop is taken off even when it cannot be decoded; only then is no garbage put
    at the end. *)
Definition shift (r : Route) (cryptde : NodeCryptDE) : outcome (result LiveHop CodexError * Route) :=
  match hops r with
  | [] => mret (Err (RouteProblem EmptyRoute), r)
  | top_hop :: rest =>
      x ← hop_decode cryptde top_hop;
      match x with
      | Err e => mret (Err e, mkRoute rest)
      | Ok next_hop => mret (Ok next_hop, mkRoute (rest ++ [cd_random cryptde (length top_hop)]))
      end
  end.

(** ** Construction *)
Definition EMPTY_KEY : PublicKey := mkPublicKey [].

(** [Address::zero] *)
Definition ZERO_ADDRESS : list Z := replicate 20 0.

(** [consuming_wallet.map(|w| w.as_payer(key, &contract_address.unwrap_or_else(Address::zero)))] *)
Definition payer_for (wallet_opt : option Wallet) (key : PublicKey) (contract_address : option (list Z)) :
    outcome (option Payer) :=
  match wallet_opt with
  | None => mret None
  | Some w => p ← as_payer w key (default ZERO_ADDRESS contract_address); mret (Some p)
  end.

(** [tuple_windows] *)
Fixpoint windows {A} (l : list A) : list (A * A) :=
  match l with
  | x :: l' => match l' with y :: _ => (x, y) :: windows l' | [] => [] end
  | [] => []
  end.

Fixpoint hops_over (wallet_opt : option Wallet) (contract_address : option (list Z))
    (pairs : list (PublicKey * PublicKey)) : outcome (list LiveHop) :=
  match pairs with
  | [] => mret []
  | (current_key, next_key) :: pairs' =>
      payer ← payer_for wallet_opt current_key contract_address;
      rest ← hops_over wallet_opt contract_address pairs';
      mret (mkLiveHop next_key payer HopperC :: rest)
  end.

Definition over_segment (one_way : bool) (wallet_opt : option Wallet) (over_keys : list PublicKey)
    (over_component : Component) (contract_address : option (list Z)) : outcome (list LiveHop) :=
  let pairs := windows over_keys in
  hs ← hops_over wallet_opt contract_address pairs;
  if one_way then
    match last pairs with
    | Some (_, last_hop_key) =>
        payer ← payer_for wallet_opt last_hop_key contract_address;
        mret (hs ++ [mkLiveHop EMPTY_KEY payer over_component])
    | None => mret (hs ++ [mkLiveHop EMPTY_KEY None over_component])
    end
  else mret hs.

Fixpoint hops_back (wallet_opt : option Wallet) (contract_address : option (list Z)) (component : Component)
    (pairs : list (PublicKey * PublicKey)) : outcome (list LiveHop) :=
  match pairs with
  | [] => mret []
  | (current_key, next_key) :: pairs' =>
      payer ← payer_for wallet_opt current_key contract_address;
      rest ← hops_back wallet_opt contract_address HopperC pairs';
      mret (mkLiveHop next_key payer component :: rest)
  end.

Definition back_segment (back_opt : option RouteSegment) (wallet_opt : option Wallet)
    (over_component : Component) (hs : list LiveHop) (contract_address : option (list Z)) :
    outcome (list LiveHop) :=
  match back_opt with
  | None => mret hs
  | Some back =>
      bs ← hops_back wallet_opt contract_address over_component (windows (segment_keys back));
      match last (segment_keys back) with
      | Some current_key =>
          payer ← payer_for wallet_opt current_key contract_address;
          mret (hs ++ bs ++ [mkLiveHop EMPTY_KEY payer (recipient back)])
      | None => mret (hs ++ bs ++ [mkLiveHop EMPTY_KEY None (recipient back)])
      end
  end.

Definition validate_route_segments (over : RouteSegment) (back_opt : option RouteSegment) : option RouteError :=
  match last (segment_keys over) with
  | None => Some TooFewKeysInRouteSegment
  | Some over_segment_last_key =>
      match back_opt with
      | None => None
      | Some b =>
          match segment_keys b with
          | [] => Some TooFewKeysInRouteSegment
          | back_segment_first_key :: _ =>
              if decide (back_segment_first_key ≠ over_segment_last_key)
              then Some DisjointRouteSegments else None
          end
      end
  end.

Definition encrypt_return_route_id (return_route_id : Z) (cryptde : NodeCryptDE) : outcome CryptData :=
  match encodex cryptde (cd_public_key cryptde) return_route_id with
  | Ok d => mret d
  | Err _ => Panic "Internal error encrypting u32 return_route_id"
  end.

(** Each hop is encrypted to the key that the hop before it names. *)
Fixpoint encode_hops (hs : list LiveHop) (hop_key : PublicKey) (cryptde : NodeCryptDE) :
    result (list CryptData) CodexError :=
  match hs with
  | [] => Ok []
  | data_hop :: hs' =>
      match hop_encode data_hop hop_key cryptde with
      | Err e => Err e
      | Ok d =>
          match encode_hops hs' (hop_public_key data_hop) cryptde with
          | Err e => Err e
          | Ok ds => Ok (d :: ds)
          end
      end
  end.

Definition hops_to_route (hs : list LiveHop) (top_hop_key : PublicKey) (return_route_id_opt : option Z)
    (cryptde : NodeCryptDE) : outcome (result Route CodexError) :=
  match encode_hops hs top_hop_key cryptde with
  | Err e => mret (Err e)
  | Ok hops_enc =>
      match return_route_id_opt with
      | Some return_route_id =>
          id_enc ← encrypt_return_route_id return_route_id cryptde;
          mret (Ok (mkRoute (hops_enc ++ [id_enc])))
      | None => mret (Ok (mkRoute hops_enc))
      end
  end.

Definition construct (over : RouteSegment) (back_opt : option RouteSegment) (cryptde : NodeCryptDE)
    (wallet_opt : option Wallet) (return_route_id_opt : option Z) (contract_address : option (list Z)) :
    outcome (result Route CodexError) :=
  match validate_route_segments over back_opt with
  | Some error => mret (Err (RouteProblem error))
  | None =>
      let over_component := recipient over in
      hs ← over_segment (bool_decide (back_opt = None)) wallet_opt (segment_keys over) over_component contract_address;
      hs ← back_segment back_opt wallet_opt over_component hs contract_address;
      top ← expect (head (segment_keys over)) "index out of bounds";
      hops_to_route hs top return_route_id_opt cryptde
  end.

Definition single_hop (destination : PublicKey) (cryptde : NodeCryptDE) : outcome (result Route CodexError) :=
  construct (mkRouteSegment [cd_public_key cryptde; destination] NeighborhoodC) None cryptde None None None.

Definition one_way (route_segment : RouteSegment) (cryptde : NodeCryptDE) (wallet_opt : option Wallet)
    (contract_address : option (list Z)) : outcome (result Route CodexError) :=
  construct route_segment None cryptde wallet_opt None contract_address.

Definition round_trip (over back : RouteSegment) (cryptde : NodeCryptDE) (wallet_opt : option Wallet)
    (return_route_id : Z) (contract_address : option (list Z)) : outcome (result Route CodexError) :=
  construct over (Some back) cryptde wallet_opt (Some return_route_id) contract_address.

(** ** Packages *)
Record LiveCoresPackage := mkLcp { lcp_version : Z * Z; lcp_route : Route; lcp_payload : CryptData }.

Definition lcp_new (route : Route) (payload : CryptData) : LiveCoresPackage := mkLcp (0, 0) route payload.

Record IncipientCoresPackage := mkIncipient { inc_route : Route; inc_payload : CryptData }.

Definition incipient_new (cryptde : NodeCryptDE) (route : Route) (payload : MessageType)
    (payload_destination_key : PublicKey) : result IncipientCoresPackage string :=
  match encodex cryptde payload_destination_key payload with
  | Ok p => Ok (mkIncipient route p)
  | Err _ => Err "Could not encrypt payload"
  end.

Record NoLookupIncipientCoresPackage := mkNoLookup {
  nl_public_key : PublicKey;
  nl_node_addr : NodeAddr;
  nl_payload : CryptData
}.

Definition no_lookup_new (cryptde : NodeCryptDE) (public_key : PublicKey) (node_addr : NodeAddr)
    (payload : MessageType) : result NoLookupIncipientCoresPackage string :=
  match encodex cryptde public_key payload with
  | Ok p => Ok (mkNoLookup public_key node_addr p)
  | Err _ => Err "Could not encrypt payload"
  end.

Record ExpiredCoresPackage (T : Type) := mkExpired {
  immediate_neighbor : SocketAddr;
  paying_wallet : option Wallet;
  remaining_route : Route;
  ex_payload : T;
  payload_len : nat
}.

Definition into_next_live (lcp : LiveCoresPackage) (cryptde : NodeCryptDE) :
    outcome (result (LiveHop * LiveCoresPackage) CodexError) :=
  p ← shift (lcp_route lcp) cryptde;
  mret (match p.1 with
        | Err e => Err e
        | Ok next_hop => Ok (next_hop, lcp_new p.2 (lcp_payload lcp))
        end).

Definition from_no_lookup_incipient (inc : NoLookupIncipientCoresPackage) (cryptde : NodeCryptDE) :
    outcome (result (LiveCoresPackage * PublicKey) string) :=
  r ← single_hop (nl_public_key inc) cryptde;
  match r with
  | Err _ => mret (Err "could not make the route")
  | Ok route =>
      p ← shift route cryptde;
      match p.1 with
      | Err _ => Panic "CryptDE suddenly changed its keying"
      | Ok _ => mret (Ok (lcp_new p.2 (nl_payload inc), nl_public_key inc))
      end
  end.

Definition from_incipient (inc : IncipientCoresPackage) (cryptde : NodeCryptDE) :
    outcome (result (LiveCoresPackage * LiveHop) string) :=
  p ← shift (inc_route inc) cryptde;
  mret (match p.1 with
        | Err _ => Err "Could not decrypt next hop"
        | Ok next_hop => Ok (lcp_new p.2 (inc_payload inc), next_hop)
        end).

Definition to_expired (lcp : LiveCoresPackage) (immediate_neighbor_addr : SocketAddr)
    (main_cryptde payload_cryptde : NodeCryptDE) :
    outcome (result (ExpiredCoresPackage MessageType) CodexError) :=
  r ← next_hop (lcp_route lcp) main_cryptde;
  match r with
  | Err e => mret (Err e)
  | Ok top_hop =>
      d ← decodex (T := MessageType) payload_cryptde (lcp_payload lcp);
      mret (match d with
            | Err e => Err e
            | Ok decoded_payload =>
                Ok (mkExpired _ immediate_neighbor_addr (payer_wallet <$> hop_payer top_hop)
                      (lcp_route lcp) decoded_payload (length (lcp_payload lcp)))
            end)
  end.
End Routes.
Arguments LiveHop {_}.
Arguments Payer {_}.
