(* ===== verification/Migrations.v ===== *)
(** * Versioned data and migrations

    Models [pulsemesh_lib/src/data_version.rs] and
    [node/src/sub_lib/versioned_data.rs]: data that travels between nodes carries the
    version of its format, and a table of migration steps brings older (or future)
    data to the current version.  A step is a function on bytes that may fail or
    panic; [dup] is the identity.  The order in which a [HashMap] lists its keys is a parameter.  The
    lock around the table is left out: nothing in here runs while it is held. *)

From S2P Require Import Prelude.
From S2P Require Import Cryptde.

(** ** [DataVersion] *)
Record DataVersion := mkVersion { major : Z; minor : Z }.

#[export] Instance DataVersion_eq_dec : EqDecision DataVersion.
Proof. solve_decision. Defined.
#[export] Instance DataVersion_countable : Countable DataVersion :=
  inj_countable' (λ v, (major v, minor v)) (λ p, mkVersion p.1 p.2) (λ v, match v with mkVersion _ _ => eq_refl end).

Definition FUTURE_VERSION : DataVersion := mkVersion 65535 65535.

Definition dv_new (major minor : Z) : outcome DataVersion :=
  if (4095 <? major) || (4095 <? minor)
  then Panic "DataVersion major and minor components range from 0-4095"
  else mret (mkVersion major minor).

(** [PartialOrd]: first the major, then the minor component. *)
Definition version_ltb (a b : DataVersion) : bool :=
  if major a =? major b then minor a <? minor b else major a <? major b.

(** ** Migrations *)
Inductive StepError :=
| StepDeserializationError (from to : DataVersion) (what : string)
| SemanticError (what : string).

Inductive MigrationError :=
| MigrationNotFound (from to : DataVersion)
| MigrationFailed (e : StepError).

Abbreviation MigrationStep := (list Z → outcome (result (list Z) StepError)).

(** [ComboStep]: one step after the other, until one fails. *)
Definition combo_migrate (substeps : list MigrationStep) : MigrationStep := λ d,
  fold_outcome (λ sofar (substep : MigrationStep),
      match sofar with Err e => mret (Err e) | Ok input => substep input end)
    substeps (Ok d).

Record Migrations := mkMigrations {
  current_version : DataVersion;
  table : gmap DataVersion (gmap DataVersion MigrationStep)
}.

Definition Migrations_new (v : DataVersion) : Migrations := mkMigrations v ∅.

Definition validate_step (m : Migrations) (from to : DataVersion) : outcome unit :=
  if decide (to = FUTURE_VERSION)
  then Panic "A migration step that migrates to FUTURE_VERSION cannot be added"
  else if decide (from = to) then Panic "A migration step is useless and can't be added"
  else if version_ltb (current_version m) to
  then Panic "A migration step migrates past the current version and can't be added"
  else if decide (from ≠ FUTURE_VERSION)
  then
    if version_ltb to from
    then Panic "A migration step steps backward from a known version and can't be added"
    else if decide (major from ≠ major to)
    then Panic "A migration step crosses a breaking change and can't be added"
    else if bool_decide (major from ≠ major (current_version m)) ||
            bool_decide (major to ≠ major (current_version m))
    then Panic "A migration step can't be added to migrations within another major version"
    else mret tt
  else mret tt.

Definition add_step (m : Migrations) (from to : DataVersion) (step : MigrationStep) : outcome Migrations :=
  _ ← validate_step m from to;
  mret (mkMigrations (current_version m)
          (<[from := <[to := step]> (default ∅ (table m !! from))]> (table m))).

(** The order of [HashMap::keys]. *)
Class KeyOrder := {
  map_keys : gmap DataVersion MigrationStep → list DataVersion;
  map_keys_perm m : map_keys m ≡ₚ (map_to_list m).*1
}.

Section Chains.
Context `{KeyOrder}.

(** The shorter of the chains found so far and the next one. *)
Definition shorter_chain (sofar elem : list MigrationStep) : list MigrationStep :=
  match sofar with
  | [] => elem
  | _ => if (length elem <? length sofar)%nat then elem else sofar
  end.

(** The closure of [flat_map] and the [fold] after it, over the keys of [from_map];
    [find] is the recursive call. *)
Fixpoint chains_over (find : DataVersion → option (outcome (list MigrationStep)))
    (from_map : gmap DataVersion MigrationStep) (to : DataVersion)
    (ks : list DataVersion) (sofar : list MigrationStep) : option (outcome (list MigrationStep)) :=
  match ks with
  | [] => Some (mret sofar)
  | next_key :: ks =>
      match from_map !! next_key with
      | None => Some (Panic "Intermediate disappeared")
      | Some migration =>
          if decide (next_key = to)
          then chains_over find from_map to ks (shorter_chain sofar [migration])
          else
            match find next_key with
            | None => None
            | Some (Panic why) => Some (Panic why)
            | Some (Ret []) => chains_over find from_map to ks sofar
            | Some (Ret tail) => chains_over find from_map to ks (shorter_chain sofar (migration :: tail))
            end
      end
  end.

(** [None]: out of fuel.  The recursion follows the steps of the table. *)
Fixpoint find_migration_chain (fuel : nat) (t : gmap DataVersion (gmap DataVersion MigrationStep))
    (from to : DataVersion) : option (outcome (list MigrationStep)) :=
  match fuel with
  | O => None
  | S fuel' =>
      match t !! from with
      | None => Some (Panic "From disappeared")
      | Some from_map =>
          chains_over (λ next_key, find_migration_chain fuel' t next_key to) from_map to
            (map_keys from_map) []
      end
  end.

(** The search stops after as many versions as the table has. *)
Definition chain_fuel (t : gmap DataVersion (gmap DataVersion MigrationStep)) : nat := S (S (size t)).

Definition migration (m : Migrations) (from_version : DataVersion) :
    option (outcome (option MigrationStep * Migrations)) :=
  match table m !! from_version with
  | None => Some (mret (None, m))
  | Some from_map =>
      match from_map !! current_version m with
      | Some step => Some (mret (Some step, m))
      | None =>
          match find_migration_chain (chain_fuel (table m)) (table m) from_version (current_version m) with
          | None => None
          | Some (Panic why) => Some (Panic why)
          | Some (Ret []) => Some (mret (None, m))
          | Some (Ret elements) =>
              Some (mret (Some (combo_migrate elements),
                mkMigrations (current_version m)
                  (<[from_version := <[current_version m := combo_migrate elements]> from_map]> (table m))))
          end
      end
  end.
End Chains.

(** ** [VersionedData] *)
Record VersionedData := mkVersioned { vd_version : DataVersion; vd_bytes : list Z }.

Section Versioned.
Context `{KeyOrder} {T : Type} `{Codec T}.

Definition versioned_new (m : Migrations) (d : T) : outcome VersionedData :=
  match to_vec d with
  | Ok b => mret (mkVersioned (current_version m) b)
  | Err _ => Panic "Serialization error"
  end.

Definition deserialize_current (m : Migrations) (b : list Z) : result T MigrationError :=
  match from_slice b with
  | Ok item => Ok item
  | Err (mkCborError what) =>
      Err (MigrationFailed (StepDeserializationError (current_version m) (current_version m) what))
  end.

Definition extract (v : VersionedData) (m : Migrations) :
    option (outcome (result T MigrationError * Migrations)) :=
  let from_version := if version_ltb (current_version m) (vd_version v) then FUTURE_VERSION else vd_version v in
  if decide (from_version = current_version m)
  then Some (mret (deserialize_current m (vd_bytes v), m))
  else
    match migration m from_version with
    | None => None
    | Some (Panic why) => Some (Panic why)
    | Some (Ret (None, m)) => Some (mret (Err (MigrationNotFound from_version (current_version m)), m))
    | Some (Ret (Some step, m)) =>
        Some (migrated ← step (vd_bytes v);
              mret (match migrated with
                    | Err e => Err (MigrationFailed e)
                    | Ok b => deserialize_current m b
                    end, m))
    end.
End Versioned.
