(* ===== verification/MigrationsFacts.v ===== *)
(** * Facts about migrations

    The search for a chain of migration steps returns on every table that
    [add_step] and [migration] can build, finds a shortest chain when there is one,
    and panics exactly when it runs into a version without steps of its own. *)

From S2P Require Import Prelude.
From S2P Require Import Cryptde.
From S2P Require Import Migrations.

Abbreviation Table := (gmap DataVersion (gmap DataVersion MigrationStep)).

(** A step of the table. *)
Definition edge (t : Table) (from to : DataVersion) (step : MigrationStep) : Prop :=
  ∃ from_map, t !! from = Some from_map ∧ from_map !! to = Some step.

(** The order that [validate_step] enforces: steps go upward, except from
    [FUTURE_VERSION], and none goes to [FUTURE_VERSION]. *)
Definition step_ok (from to : DataVersion) : Prop :=
  to ≠ FUTURE_VERSION ∧ (from = FUTURE_VERSION ∨ version_ltb from to = true).

Definition table_ok (t : Table) : Prop := ∀ from to step, edge t from to step → step_ok from to.

(** A chain of steps that meets [to] only at its end. *)
Inductive chain (t : Table) (to : DataVersion) : DataVersion → list MigrationStep → Prop :=
| chain_last from step : edge t from to step → chain t to from [step]
| chain_step from next step tail :
    edge t from next step → next ≠ to → chain t to next tail → chain t to from (step :: tail).

(** The versions the search for [to] visits. *)
Inductive visits (t : Table) (to : DataVersion) : DataVersion → DataVersion → Prop :=
| visits_here v : visits t to v v
| visits_next v next step w :
    edge t v next step → next ≠ to → visits t to next w → visits t to v w.

Definition dead_end (t : Table) (to from : DataVersion) : Prop :=
  ∃ w, visits t to from w ∧ t !! w = None.

(** ** The order of versions *)
Lemma version_ltb_spec a b :
  version_ltb a b = true ↔ major a < major b ∨ (major a = major b ∧ minor a < minor b).
Proof. unfold version_ltb. destruct (Z.eqb_spec (major a) (major b)); rewrite Z.ltb_lt; lia. Qed.

Lemma version_ltb_irrefl v : version_ltb v v = false.
Proof. apply not_true_iff_false. rewrite version_ltb_spec. lia. Qed.

Lemma version_ltb_trans a b c :
  version_ltb a b = true → version_ltb b c = true → version_ltb a c = true.
Proof. rewrite !version_ltb_spec. lia. Qed.

Lemma version_total a b : a ≠ b → version_ltb b a = false → version_ltb a b = true.
Proof.
  intros Hne Hba%not_true_iff_false. rewrite version_ltb_spec in Hba |- *.
  destruct a as [a1 a2], b as [b1 b2]; simpl in *.
  destruct (decide (a1 = b1)), (decide (a2 = b2)); subst; [done|lia..].
Qed.

(** ** The table stays ordered *)
Lemma edge_insert t from to step from_map a b s :
  edge (<[from := <[to := step]> from_map]> t) a b s →
  (a = from ∧ b = to) ∨ (a = from ∧ from_map !! b = Some s) ∨ edge t a b s.
Proof.
  intros (m & Ha & Hb). destruct (decide (a = from)) as [->|Hne].
  - rewrite lookup_insert_eq in Ha. injection Ha as <-.
    destruct (decide (b = to)) as [->|]; [by left|].
    rewrite lookup_insert_ne in Hb by done. auto.
  - rewrite lookup_insert_ne in Ha by done. right; right. by exists m.
Qed.

Lemma validate_step_ok m from to : validate_step m from to = Ret tt → step_ok from to.
Proof.
  unfold validate_step, step_ok. case_decide; [done|]. case_decide; [done|].
  destruct (version_ltb (current_version m) to); [done|].
  case_decide as Hf; [|intros _; split; [done|left; destruct (decide (from = FUTURE_VERSION)); naive_solver]].
  destruct (version_ltb to from) eqn:E; [done|]. intros _. split; [done|]. right.
  by apply version_total.
Qed.

Lemma add_step_table_ok m from to step m' :
  table_ok (table m) → add_step m from to step = Ret m' → table_ok (table m').
Proof.
  intros Hok. unfold add_step. destruct (validate_step m from to) as [[]|] eqn:E; [|done].
  intros [= <-] a b s [(-> & ->)|[(-> & Hb)|He]]%edge_insert.
  - by eapply validate_step_ok.
  - apply (Hok from b s). exists (default ∅ (table m !! from)). split; [|done].
    destruct (table m !! from); [done|]. simpl in Hb. by rewrite lookup_empty in Hb.
  - by eapply Hok.
Qed.

(** ** Shortest chains *)
(** [l] is a shortest of the chains in [S], and empty when there is none. *)
Definition best (S : list MigrationStep → Prop) (l : list MigrationStep) : Prop :=
  (l = [] ∧ ∀ l', ¬ S l') ∨
  (l ≠ [] ∧ S l ∧ ∀ l', S l' → (length l ≤ length l')%nat).

Lemma best_ext (S T : list MigrationStep → Prop) l : (∀ l', S l' ↔ T l') → best S l → best T l.
Proof.
  intros HST [[-> Hn]|(Hl & Hs & Hm)]; [left|right]; (split; [done|]).
  - intros l' HT. by apply (Hn l'), HST.
  - split; [by apply HST|]. intros l' HT. by apply Hm, HST.
Qed.

Lemma best_shorter (S T : list MigrationStep → Prop) a b :
  b ≠ [] → best S a → best T b → best (λ l, S l ∨ T l) (shorter_chain a b).
Proof.
  intros Hb [[-> Hn]|(Ha & Hs & Hm)] [[-> ?]|(_ & Ht & Hmt)]; try done; right.
  - split; [done|]. split; [by right|]. intros l' [?|?]; [by destruct (Hn l')|by apply Hmt].
  - unfold shorter_chain. destruct a as [|x a]; [done|].
    destruct (Nat.ltb_spec (length b) (length (x :: a))).
    + split; [done|]. split; [by right|]. intros l' [?%Hm|?%Hmt]; lia.
    + split; [done|]. split; [by left|]. intros l' [?%Hm|?%Hmt]; lia.
Qed.

(** The chains whose first step leads to [k]. *)
Definition through (t : Table) (to from k : DataVersion) (l : list MigrationStep) : Prop :=
  ∃ step, edge t from k step ∧
    ((k = to ∧ l = [step]) ∨ (k ≠ to ∧ ∃ tail, l = step :: tail ∧ chain t to k tail)).

Lemma chain_through t to from l : chain t to from l ↔ ∃ k, through t to from k l.
Proof.
  split.
  - destruct 1 as [from step He|from next step tail He Hne Hc].
    + exists to, step. auto.
    + exists next, step. eauto 10.
  - intros (k & step & He & [[-> ->]|(Hne & tail & -> & Hc)]); [by constructor|by econstructor].
Qed.

Lemma edge_inj t from to s s' : edge t from to s → edge t from to s' → s = s'.
Proof. intros (m & E & ?) (m' & E' & ?). congruence. Qed.

(** What the search for [to] answers at [from]. *)
Definition search_spec (t : Table) (to from : DataVersion) (r : outcome (list MigrationStep)) : Prop :=
  match r with
  | Panic why => why = "From disappeared" ∧ dead_end t to from
  | Ret l => ¬ dead_end t to from ∧ best (chain t to from) l
  end.

Lemma best_through_last t to from step :
  edge t from to step → best (through t to from to) [step].
Proof.
  intros He. right. split; [done|]. split; [by exists step; auto|].
  intros l' (s & _ & [[_ ->]|[? _]]); [done..].
Qed.

Lemma best_through_step t to from k step tail :
  k ≠ to → edge t from k step → tail ≠ [] → best (chain t to k) tail →
  best (through t to from k) (step :: tail).
Proof.
  intros Hk He Ht [[-> _]|(_ & Hc & Hm)]; [done|]. right. split; [done|]. split.
  - exists step. eauto 10.
  - intros l' (s & _ & [[? _]|(_ & tl & -> & Hc')]); [done|]. simpl. specialize (Hm tl Hc'). lia.
Qed.

Section Search.
Context `{KeyOrder}.

Lemma elem_of_map_keys m k : k ∈ map_keys m ↔ is_Some (m !! k).
Proof.
  rewrite (map_keys_perm m), list_elem_of_fmap. split.
  - intros ((k' & s) & -> & Hin%elem_of_map_to_list). by exists s.
  - intros [s Hs]. exists (k, s). by rewrite elem_of_map_to_list.
Qed.

(** ** Termination *)
Definition rank (t : Table) (v : DataVersion) : nat :=
  if decide (v = FUTURE_VERSION) then size t
  else size (filter (λ p, version_ltb v p.1 = true) t).

Lemma rank_below (t : Table) v w :
  version_ltb v w = true → is_Some (t !! w) →
  (size (filter (λ p, version_ltb w p.1 = true) t) <
   size (filter (λ p, version_ltb v p.1 = true) t))%nat.
Proof.
  intros Hvw [mw Hw]. apply map_subset_size. split.
  - apply map_subseteq_spec. intros k x.
    rewrite !map_lookup_filter_Some; simpl. intros [Hk Hlt]. eauto using version_ltb_trans.
  - intros Hsub. rewrite map_subseteq_spec in Hsub.
    assert (filter (λ p, version_ltb w p.1 = true) t !! w = Some mw) as [_ E]%map_lookup_filter_Some.
    { apply Hsub, map_lookup_filter_Some. done. }
    simpl in E. by rewrite version_ltb_irrefl in E.
Qed.

Lemma rank_edge t v w s :
  table_ok t → edge t v w s → is_Some (t !! w) → (rank t w < rank t v)%nat.
Proof.
  intros Hok He Hw. destruct (Hok _ _ _ He) as [Hwf Hv]. unfold rank.
  rewrite (decide_False (P := w = FUTURE_VERSION)) by done.
  case_decide as Hvf; [|destruct Hv as [|Hv]; [done|by apply rank_below]].
  destruct Hw as [mw Hw]. apply map_subset_size. split; [apply map_filter_subseteq|].
  intros Hsub. rewrite map_subseteq_spec in Hsub.
  apply Hsub, map_lookup_filter_Some in Hw as [_ E]. simpl in E. by rewrite version_ltb_irrefl in E.
Qed.

Lemma rank_bound t v : (rank t v ≤ size t)%nat.
Proof.
  unfold rank. case_decide; [done|]. apply map_subseteq_size, map_filter_subseteq.
Qed.

Lemma chains_over_Some find from_map to ks sofar :
  (∀ k, k ∈ ks → is_Some (from_map !! k)) →
  (∀ k, k ∈ ks → is_Some (find k)) → is_Some (chains_over find from_map to ks sofar).
Proof.
  revert sofar; induction ks as [|k ks IH]; intros sofar Hm Hf; simpl; [done|].
  destruct (Hm k) as [s ->]; [left|].
  assert (∀ sofar, is_Some (chains_over find from_map to ks sofar)) as IH'.
  { intros. apply IH; intros; [apply Hm|apply Hf]; by right. }
  case_decide; [apply IH'|]. destruct (Hf k) as [[[|? ?]|why] ->]; [left|apply IH'..|done].
Qed.

Lemma find_migration_chain_Some fuel t from to :
  table_ok t → (rank t from + 2 ≤ fuel)%nat → is_Some (find_migration_chain fuel t from to).
Proof.
  intros Hok. revert from; induction fuel as [|fuel IH]; intros from Hf; [lia|]. simpl.
  destruct (t !! from) as [from_map|] eqn:E; [|done].
  apply chains_over_Some; intros k Hk%elem_of_map_keys; [done|].
  destruct Hk as [s Hs]. destruct (t !! k) as [mk|] eqn:Ek.
  - apply IH. assert (rank t k < rank t from)%nat; [|lia].
    apply (rank_edge t from k s); [done|by exists from_map|done].
  - destruct fuel as [|fuel]; [lia|]. simpl. by rewrite Ek.
Qed.

Lemma chain_fuel_enough t from to :
  table_ok t → is_Some (find_migration_chain (chain_fuel t) t from to).
Proof.
  intros Hok. apply find_migration_chain_Some; [done|].
  pose proof (rank_bound t from). unfold chain_fuel. lia.
Qed.

(** ** What the search finds *)
Lemma chains_over_spec find t to from from_map ks done sofar r :
  t !! from = Some from_map →
  (∀ k, k ∈ ks → is_Some (from_map !! k)) →
  (∀ k r, k ∈ ks → k ≠ to → find k = Some r → search_spec t to k r) →
  best (λ l, ∃ k, k ∈ done ∧ through t to from k l) sofar →
  (∀ k, k ∈ done → k ≠ to → ¬ dead_end t to k) →
  chains_over find from_map to ks sofar = Some r →
  match r with
  | Panic why => why = "From disappeared" ∧ ∃ k, k ∈ ks ∧ k ≠ to ∧ dead_end t to k
  | Ret l => (∀ k, k ∈ done ++ ks → k ≠ to → ¬ dead_end t to k) ∧
             best (λ l, ∃ k, k ∈ done ++ ks ∧ through t to from k l) l
  end.
Proof.
  intros Hfrom. revert done sofar; induction ks as [|k ks IH]; intros done sofar Hm Hfind Hb Hd.
  { intros [= <-]. by rewrite app_nil_r. }
  simpl. destruct (Hm k) as [step Hs]; [left|]. rewrite Hs.
  assert (edge t from k step) as He by by exists from_map.
  (* one more key is done *)
  assert (∀ sofar', best (λ l, ∃ k', k' ∈ done ++ [k] ∧ through t to from k' l) sofar' →
    (k ≠ to → ¬ dead_end t to k) → chains_over find from_map to ks sofar' = Some r →
    match r with
    | Panic why => why = "From disappeared" ∧ ∃ k', k' ∈ k :: ks ∧ k' ≠ to ∧ dead_end t to k'
    | Ret l => (∀ k', k' ∈ done ++ k :: ks → k' ≠ to → ¬ dead_end t to k') ∧
               best (λ l, ∃ k', k' ∈ done ++ k :: ks ∧ through t to from k' l) l
    end) as Hnext.
  { intros sofar' Hb' Hk Hr. eapply IH in Hr; [| | |exact Hb'|].
    - rewrite <-app_assoc in Hr. destruct r; [done|]. destruct Hr as (-> & k' & ? & ?).
      split; [done|]. exists k'. split; [by right|done].
    - intros. apply Hm. by right.
    - intros. eapply Hfind; [by right|done..].
    - intros k' [?|Hk'%list_elem_of_singleton]%elem_of_app; [auto|by subst]. }
  assert (∀ l, (∃ k', k' ∈ done ∧ through t to from k' l) ∨ through t to from k l ↔
               ∃ k', k' ∈ done ++ [k] ∧ through t to from k' l) as Hext.
  { intros l. setoid_rewrite elem_of_app. setoid_rewrite list_elem_of_singleton. naive_solver. }
  case_decide as Hk.
  - subst. apply Hnext; [|done]. eapply best_ext; [exact Hext|].
    apply best_shorter; [done|done|by apply best_through_last].
  - destruct (find k) as [[tail|why]|] eqn:Ef; [|intros [= <-]|done].
    + pose proof (Hfind k (Ret tail) ltac:(left) Hk Ef) as [Hnd Ht].
      destruct tail as [|y tail]; apply Hnext; [|done| |done].
      * eapply best_ext; [|exact Hb]. intros l. rewrite <-Hext. split; [by left|].
        intros [?|(s & _ & [[? _]|(_ & tl & -> & Hc)])]; [done..|].
        destruct Ht as [[_ Hn]|[? _]]; [|done]. by destruct (Hn tl).
      * eapply best_ext; [exact Hext|]. apply best_shorter; [done|done|].
        by apply best_through_step.
    + destruct (Hfind k (Panic why) ltac:(left) Hk Ef) as [-> ?].
      split; [done|]. exists k. split; [left|done].
Qed.

Lemma find_migration_chain_spec fuel t from to r :
  find_migration_chain fuel t from to = Some r → search_spec t to from r.
Proof.
  revert from r; induction fuel as [|fuel IH]; intros from r; [done|]. simpl.
  destruct (t !! from) as [from_map|] eqn:E.
  - intros Hr. eapply (chains_over_spec _ t to from _ _ []) in Hr; [|done|..].
    + simpl in Hr. destruct r as [l|why].
      * destruct Hr as [Hd Hb]. split.
        { intros (w & Hv & Hw). destruct Hv as [v|v next step w He Hne Hv]; [congruence|].
          destruct He as (m & Em & Hn). rewrite E in Em. injection Em as <-.
          apply (Hd next); [apply elem_of_map_keys; eauto|done|by exists w]. }
        eapply best_ext; [|exact Hb]. intros l'. rewrite chain_through.
        apply exist_proper. intros k. rewrite elem_of_map_keys. split; [naive_solver|].
        intros Ht. split; [|done]. destruct Ht as (s & (m & Em & Hs) & _).
        rewrite E in Em. injection Em as <-. by exists s.
      * destruct Hr as (-> & k & Hk & Hne & w & Hv & Hw). split; [done|].
        apply elem_of_map_keys in Hk as [s Hs]. exists w. split; [|done].
        eapply visits_next; [by exists from_map|done..].
    + intros k. by rewrite elem_of_map_keys.
    + intros k r' _ _. apply IH.
    + left. split; [done|]. intros l' (k & Hk & _). by apply elem_of_nil in Hk.
    + intros k Hk. by apply elem_of_nil in Hk.
  - intros [= <-]. split; [done|]. exists from. split; [constructor|done].
Qed.
(** More fuel changes nothing. *)
Lemma chains_over_mono find find' from_map to ks sofar r :
  (∀ k r, find k = Some r → find' k = Some r) →
  chains_over find from_map to ks sofar = Some r → chains_over find' from_map to ks sofar = Some r.
Proof.
  intros Hf. revert sofar; induction ks as [|k ks IH]; intros sofar; simpl; [done|].
  destruct (from_map !! k); [|done]. case_decide; [apply IH|].
  destruct (find k) as [q|] eqn:E; [|done]. rewrite (Hf _ _ E).
  destruct q as [[|? ?]|]; [apply IH..|done].
Qed.

Lemma find_migration_chain_mono fuel fuel' t from to r :
  (fuel ≤ fuel')%nat → find_migration_chain fuel t from to = Some r →
  find_migration_chain fuel' t from to = Some r.
Proof.
  revert fuel' from r; induction fuel as [|fuel IH]; intros fuel' from r Hle; [done|].
  destruct fuel' as [|fuel']; [lia|]. simpl. destruct (t !! from); [|done].
  apply chains_over_mono. intros k q. apply IH. lia.
Qed.

(** ** The tables of a running node: steps are added, and [migration] records the
    chains it has found. *)
Inductive built : Migrations → Prop :=
| built_new v : built (Migrations_new v)
| built_add m from to step m' : built m → add_step m from to step = Ret m' → built m'
| built_lookup m from found m' : built m → migration m from = Some (Ret (found, m')) → built m'.

Lemma chain_head_ok t to from l :
  table_ok t → chain t to from l → to ≠ FUTURE_VERSION ∧ (from = FUTURE_VERSION ∨ version_ltb from to = true).
Proof.
  intros Hok Hc. induction Hc as [from step He|from next step tail He Hne Hc IH]; [by eapply Hok|].
  destruct IH as [Hto Hn]. split; [done|]. destruct (Hok _ _ _ He) as [Hf [->|Hlt]]; [by left|].
  right. destruct Hn as [->|Hn]; [done|]. by eapply version_ltb_trans.
Qed.

(** What [migration] does, on each branch. *)
Lemma migration_cases m from :
  table_ok (table m) →
  ∃ r, migration m from = Some r ∧
    match r with
    | Panic why => why = "From disappeared" ∧ dead_end (table m) (current_version m) from
    | Ret (None, m') => m' = m ∧ ∀ l, ¬ chain (table m) (current_version m) from l
    | Ret (Some step, m') =>
        (∃ l, chain (table m) (current_version m) from l ∧
          (∀ l', chain (table m) (current_version m) from l' → (length l ≤ length l')%nat) ∧
          ∀ d, step d = combo_migrate l d) ∧
        table_ok (table m') ∧ migration m' from = Some (Ret (Some step, m'))
    end.
Proof.
  intros Hok. unfold migration. destruct (table m !! from) as [from_map|] eqn:Ef.
  2: { eexists. split; [done|]. split; [done|]. intros l Hc.
       destruct Hc as [? ? (? & E & _)|? ? ? ? (? & E & _) _ _]; congruence. }
  destruct (from_map !! current_version m) as [s|] eqn:Es.
  { eexists. split; [done|]. split; [|by rewrite Ef, Es]. exists [s].
    split; [constructor; by exists from_map|]. split.
    - intros l' Hc. destruct Hc; simpl; lia.
    - intros d. unfold combo_migrate. simpl. by destruct (s d). }
  destruct (chain_fuel_enough (table m) from (current_version m) Hok) as [r Hr]. rewrite Hr.
  apply find_migration_chain_spec in Hr. destruct r as [l|why]; [|by eexists].
  destruct Hr as [Hnd [[-> Hn]|(Hl & Hc & Hm)]].
  { eexists. split; [done|]. by split. }
  destruct l as [|x l]; [done|]. eexists. split; [done|]. split; [by exists (x :: l)|]. split.
  - simpl. intros a b s' [(-> & ->)|[(-> & Hb)|He]]%edge_insert.
    + by eapply chain_head_ok.
    + apply (Hok from b s'). by exists from_map.
    + by eapply Hok.
  - simpl. by rewrite lookup_insert_eq, lookup_insert_eq.
Qed.

Lemma built_table_ok m : built m → table_ok (table m).
Proof.
  induction 1 as [v|m from to step m' _ IH Hadd|m from found m' _ IH Hm].
  - intros from to step (m & E & _). simpl in E; by rewrite lookup_empty in E.
  - by eapply add_step_table_ok.
  - destruct (migration_cases m from IH) as (r & Hr & Hspec). rewrite Hr in Hm.
    injection Hm as ->. destruct found; [apply Hspec|]. by destruct Hspec as [-> _].
Qed.

(** C32: On every table that [add_step] and [migration] build, the search for a chain
    of migration steps ends: some answer is reached within [chain_fuel], two more than
    the number of versions in the table, and more fuel gives the same answer. *)
Theorem find_migration_chain_terminates m from to :
  built m →
  ∃ r, ∀ fuel, (chain_fuel (table m) ≤ fuel)%nat →
    find_migration_chain fuel (table m) from to = Some r.
Proof.
  intros Hok%built_table_ok.
  destruct (chain_fuel_enough (table m) from to Hok) as [r Hr].
  exists r. intros fuel Hf. by eapply find_migration_chain_mono.
Qed.

(** C14: On every table that a running node builds, [migration] returns a step that
    does what a shortest chain of recorded steps to the current version does and
    records it, so that the next lookup answers the same; it returns nothing only
    when there is no such chain; and it panics only when the search meets a version,
    not the current one, that has no steps of its own. *)
Theorem migration_finds_shortest_chain m from :
  built m →
  ∃ r, migration m from = Some r ∧
    match r with
    | Panic why => why = "From disappeared" ∧ dead_end (table m) (current_version m) from
    | Ret (None, m') => m' = m ∧ ∀ l, ¬ chain (table m) (current_version m) from l
    | Ret (Some step, m') =>
        (∃ l, chain (table m) (current_version m) from l ∧
          (∀ l', chain (table m) (current_version m) from l' → (length l ≤ length l')%nat) ∧
          ∀ d, step d = combo_migrate l d) ∧
        table_ok (table m') ∧ migration m' from = Some (Ret (Some step, m'))
    end.
Proof. intros Hb. by apply migration_cases, built_table_ok. Qed.

(** A step that leads to an older version without steps of its own makes the
    lookup panic: with the single step [from → mid] and a newer current version, data
    of version [from] is not refused with [MigrationNotFound]. *)
Theorem unfinished_chain_panics v from mid step m :
  add_step (Migrations_new v) from mid step = Ret m → mid ≠ v →
  migration m from = Some (Panic "From disappeared").
Proof.
  intros Hadd Hne.
  assert (from ≠ mid) as Hfm.
  { intros ->. unfold add_step, validate_step in Hadd.
    case_decide; [done|]. by rewrite decide_True in Hadd. }
  assert (m = mkMigrations v {[from := {[mid := step]}]}) as ->.
  { unfold add_step in Hadd. destruct (validate_step _ from mid) as [[]|]; [|done].
    injection Hadd as <-. simpl. by rewrite lookup_empty. }
  unfold migration. simpl. rewrite lookup_singleton_eq, lookup_singleton_ne by done.
  assert (map_keys {[mid := step]} = [mid]) as Hk.
  { apply Permutation_singleton_r. by rewrite map_keys_perm, map_to_list_singleton. }
  simpl. rewrite Hk. simpl. rewrite lookup_singleton_eq.
  rewrite decide_False by done. by rewrite lookup_singleton_ne.
Qed.
End Search.

(** ** Data that travels *)
Section Travel.
Context `{KeyOrder} {T : Type} `{CodecOk T}.

(** The value that a node with migrations [m] is to see in [v]: [v] was written at the
    current version, or every chain of steps from its version, which is older, brings
    its bytes to the encoding of [d]. *)
Definition carries (m : Migrations) (v : VersionedData) (d : T) : Prop :=
  (vd_version v = current_version m ∧ to_vec d = Ok (vd_bytes v)) ∨
  (version_ltb (vd_version v) (current_version m) = true ∧
   ¬ dead_end (table m) (current_version m) (vd_version v) ∧
   (∃ l, chain (table m) (current_version m) (vd_version v) l) ∧
   ∃ b, to_vec d = Ok b ∧
     ∀ l, chain (table m) (current_version m) (vd_version v) l → combo_migrate l (vd_bytes v) = Ret (Ok b)).

Lemma deserialize_current_ok m (d : T) b : to_vec d = Ok b → deserialize_current m b = Ok d.
Proof.
  intros Hb. destruct (codec_roundtrip d) as (b' & Hb' & _ & Hd).
  assert (b' = b) as -> by congruence. unfold deserialize_current. by rewrite Hd.
Qed.

Lemma versioned_new_carries m (d : T) : ∃ v, versioned_new m d = Ret v ∧ carries m v d.
Proof.
  destruct (codec_roundtrip d) as (b & Hb & _ & _). unfold versioned_new. rewrite Hb.
  eexists. split; [done|]. by left.
Qed.

(** A value arrives: what [VersionedData::new] wrote at the version that is
    current for the receiver, or at an older version whose steps all lead to the
    receiver's encoding of the value, is what [extract] returns. *)
Theorem extract_delivers m v (d : T) :
  built m → carries m v d →
  ∃ m', extract v m = Some (Ret (Ok d, m')) ∧ built m'.
Proof.
  intros Hb [[Hv Hd]|(Hlt & Hnd & [l Hl] & b & Hd & Hall)]; unfold extract.
  - rewrite Hv, version_ltb_irrefl, decide_True by done.
    rewrite (deserialize_current_ok m d) by done. by exists m.
  - assert (version_ltb (current_version m) (vd_version v) = false) as ->.
    { apply not_true_iff_false. intros E.
      pose proof (version_ltb_trans _ _ _ Hlt E) as C. by rewrite version_ltb_irrefl in C. }
    rewrite decide_False by (intros E; rewrite E, version_ltb_irrefl in Hlt; done).
    destruct (migration_cases m (vd_version v)) as (r & Hr & Hspec); [by apply built_table_ok|].
    rewrite Hr. destruct r as [[[step|] m']|why].
    + destruct Hspec as [(l' & Hl' & _ & Hstep) _].
      rewrite Hstep, (Hall l' Hl'). cbn [mbind outcome_bind].
      rewrite (deserialize_current_ok m' d) by done.
      exists m'. split; [done|]. by eapply built_lookup.
    + destruct Hspec as [_ Hn]. by destruct (Hn l).
    + by destruct Hspec as [_ ?].
Qed.
End Travel.

(** ** Concrete tables *)
Definition listed_keys : KeyOrder :=
  {| map_keys m := (map_to_list m).*1; map_keys_perm m := reflexivity _ |}.

Module Samples.
#[local] Existing Instance listed_keys.

Definition byte_codec : Codec Z :=
  {| to_vec x := Ok [x];
     from_slice b := match b with x :: _ => Ok x | [] => Err (mkCborError "EofWhileParsingValue") end |}.
#[local] Existing Instance byte_codec.

#[local] Instance byte_codec_ok : CodecOk Z.
Proof. constructor. intros x. by exists [x]. Defined.

Definition v03 : DataVersion := mkVersion 0 3.
Definition v04 : DataVersion := mkVersion 0 4.
Definition v05 : DataVersion := mkVersion 0 5.

Definition bump : MigrationStep := λ d, mret (Ok (map (Z.add 1) d)).

Definition two_steps : Migrations :=
  mkMigrations v05 {[v03 := {[v04 := bump]}; v04 := {[v05 := bump]}]}.

Lemma two_steps_built : built two_steps.
Proof.
  eapply (built_add (mkMigrations v05 {[v04 := {[v05 := bump]}]}) v03 v04 bump); [|by vm_compute].
  eapply (built_add (Migrations_new v05) v04 v05 bump); [constructor|by vm_compute].
Qed.

Lemma find_migration_chain_terminates_witness :
  built two_steps ∧
  ∃ r, ∀ fuel, (chain_fuel (table two_steps) ≤ fuel)%nat →
    find_migration_chain fuel (table two_steps) v03 v05 = Some r.
Proof.
  split; [apply two_steps_built|].
  apply find_migration_chain_terminates, two_steps_built.
Defined.

Lemma migration_finds_shortest_chain_witness :
  ∃ r, migration two_steps v03 = Some r ∧
    match r with
    | Panic why => why = "From disappeared" ∧ dead_end (table two_steps) v05 v03
    | Ret (None, m') => m' = two_steps ∧ ∀ l, ¬ chain (table two_steps) v05 v03 l
    | Ret (Some step, m') =>
        (∃ l, chain (table two_steps) v05 v03 l ∧
          (∀ l', chain (table two_steps) v05 v03 l' → (length l ≤ length l')%nat) ∧
          ∀ d, step d = combo_migrate l d) ∧
        table_ok (table m') ∧ migration m' v03 = Some (Ret (Some step, m'))
    end.
Proof. exact (migration_finds_shortest_chain two_steps v03 two_steps_built). Defined.

Lemma unfinished_chain_panics_witness :
  ∃ m, add_step (Migrations_new v05) v03 v04 bump = Ret m ∧
    migration m v03 = Some (Panic "From disappeared").
Proof.
  eexists. split; [by vm_compute|].
  apply (unfinished_chain_panics v05 v03 v04 bump); [by vm_compute|done].
Defined.

Lemma two_steps_edges from to step :
  edge (table two_steps) from to step →
  (from = v03 ∧ to = v04 ∨ from = v04 ∧ to = v05) ∧ step = bump.
Proof.
  intros (m & Hm & Hs). simpl in Hm.
  apply lookup_insert_Some in Hm as [[<- <-]|[_ Hm]].
  - apply lookup_singleton_Some in Hs as [<- <-]. auto.
  - apply lookup_singleton_Some in Hm as [<- <-].
    apply lookup_singleton_Some in Hs as [<- <-]. auto.
Qed.

Lemma two_steps_chain l : chain (table two_steps) v05 v03 l → l = [bump; bump].
Proof.
  intros Hc. inversion Hc as [? s He|? next s tail He Hne Hc']; subst.
  { by apply two_steps_edges in He as [[[_ ?]|[? _]] _]. }
  apply two_steps_edges in He as [[[_ ->]|[? _]] ->]; [|done].
  inversion Hc' as [? s' He'|? next' s' tail' He' Hne' _]; subst.
  - by apply two_steps_edges in He' as [_ ->].
  - by apply two_steps_edges in He' as [[[? _]|[_ ?]] _].
Qed.

Lemma two_steps_no_dead_end : ¬ dead_end (table two_steps) v05 v03.
Proof.
  intros (w & Hv & Hw). inversion Hv as [?|? next s ? He Hne Hv']; subst; [done|].
  apply two_steps_edges in He as [[[_ ->]|[? _]] _]; [|done].
  inversion Hv' as [?|? next' s' ? He' Hne' _]; subst; [done|].
  by apply two_steps_edges in He' as [[[? _]|[_ ?]] _].
Qed.

Lemma extract_delivers_witness :
  ∃ m', extract (mkVersioned v03 [5]) two_steps = Some (Ret (Ok 7, m')) ∧ built m'.
Proof.
  apply extract_delivers; [apply two_steps_built|]. right.
  split; [done|]. split; [apply two_steps_no_dead_end|]. split.
  - exists [bump; bump]. eapply (chain_step _ _ _ v04); [by eexists| done |].
    constructor. by eexists.
  - exists [7]. split; [done|]. by intros l ->%two_steps_chain.
Defined.
End Samples.
