(* ===== verification/Payloads.v ===== *)
(** * The payloads of packages and their migrations

    Models the messages that travel in packages ([ClientRequestPayload_0v1] of
    [node/src/sub_lib/proxy_server.rs], [ClientResponsePayload_0v1] and
    [DnsResolveFailure_0v1] of [node/src/sub_lib/proxy_client.rs], [MessageType] of
    [node/src/sub_lib/hopper.rs]), the macro [migrate_value!] of
    [node/src/sub_lib/versioned_data.rs], and the migration of payloads from future
    versions ([node/src/sub_lib/migrations]).

    [serde_cbor::Value] has the constructors that the code looks at; its maps are
    lists of pairs in the order of their keys, without repeated keys. *)

From S2P Require Import Prelude.
From S2P Require Import NodeAddr.
From S2P Require Import NodeRecord.
From S2P Require Import Gossip.
From S2P Require Import GossipAcceptor.
From S2P Require Import Sequencing.
From S2P Require Import Cryptde.
From S2P Require Import Migrations.

(** A SHA-1 digest. *)
Record StreamKey := mkStreamKey { stream_hash : list Z }.

#[export] Instance StreamKey_eq_dec : EqDecision StreamKey.
Proof. solve_decision. Defined.
#[export] Instance StreamKey_countable : Countable StreamKey :=
  inj_countable' stream_hash mkStreamKey (λ k, match k with mkStreamKey _ => eq_refl end).

Inductive ProxyProtocol := HTTP | TLS.

#[export] Instance ProxyProtocol_eq_dec : EqDecision ProxyProtocol.
Proof. solve_decision. Defined.

Record ClientRequestPayload_0v1 := mkRequest {
  crq_stream_key : StreamKey;
  crq_sequenced_packet : SequencedPacket;
  target_hostname : option string;
  target_port : Z;
  protocol : ProxyProtocol;
  originator_public_key : PublicKey
}.

Record ClientResponsePayload_0v1 := mkResponse {
  crp_stream_key : StreamKey;
  crp_sequenced_packet : SequencedPacket
}.

Record DnsResolveFailure_0v1 := mkDnsFailure { dns_stream_key : StreamKey }.

(** The payload of a package, with the version of its format. *)
Inductive MessageType :=
| ClientRequest (vd : VersionedData)
| ClientResponse (vd : VersionedData)
| GossipMessage (vd : VersionedData)
| GossipFailureMessage (vd : VersionedData)
| DnsResolveFailed (vd : VersionedData).

(** ** [serde_cbor::Value] *)
Inductive Value :=
| VBool (b : bool)
| VInteger (n : Z)
| VBytes (b : list Z)
| VText (s : string)
| VArray (vs : list Value)
| VMap (pairs : list (Value * Value))
| VOther (n : Z).

Section Conversions.
Context `{Codec Value}.

Definition value_to_type {T} `{Codec T} (v : Value) : outcome (option T) :=
  serialized ← expect_ok (to_vec v) "Serialization error";
  mret (match from_slice serialized with Err _ => None | Ok t => Some t end).

(** [check_field], for the fields in order *)
Fixpoint missing_fields (fields : list (string * bool)) : list string :=
  match fields with
  | [] => []
  | (name, is_none) :: fields => if is_none then name :: missing_fields fields else missing_fields fields
  end.

Definition not_a_map {T} : outcome (result T StepError) := mret (Err (SemanticError "Expected Value::Map")).

(** *** [ClientRequestPayload_0v1] *)
Context `{Codec StreamKey} `{Codec SequencedPacket} `{Codec (option string)} `{Codec ProxyProtocol}
        `{Codec PublicKey} {u16_codec : Codec Z}.

(** The variables of the loop over the fields. *)
Record RequestFields := mkRequestFields {
  rq_stream_key_opt : option StreamKey;
  rq_sequenced_packet_opt : option SequencedPacket;
  rq_target_hostname_opt : option (option string);
  rq_target_port_opt : option Z;
  rq_protocol_opt : option ProxyProtocol;
  rq_originator_opt : option PublicKey
}.

Definition request_field (f : RequestFields) (kv : Value * Value) : outcome RequestFields :=
  let '(mkRequestFields k p h t r o) := f in
  match kv.1 with
  | VText name =>
      if String.eqb name "stream_key" then
        k ← value_to_type kv.2; mret (mkRequestFields k p h t r o)
      else if String.eqb name "sequenced_packet" then
        p ← value_to_type kv.2; mret (mkRequestFields k p h t r o)
      else if String.eqb name "target_hostname" then
        h ← value_to_type kv.2; mret (mkRequestFields k p h t r o)
      else if String.eqb name "target_port" then
        t ← value_to_type kv.2; mret (mkRequestFields k p h t r o)
      else if String.eqb name "protocol" then
        r ← value_to_type kv.2; mret (mkRequestFields k p h t r o)
      else if String.eqb name "originator_public_key" then
        o ← value_to_type kv.2; mret (mkRequestFields k p h t r o)
      else mret f
  | _ => mret f
  end.

Definition request_from_value (v : Value) : outcome (result ClientRequestPayload_0v1 StepError) :=
  match v with
  | VMap pairs =>
      f ← fold_outcome request_field pairs (mkRequestFields None None None None None None);
      match missing_fields
              [("stream_key", bool_decide (rq_stream_key_opt f = None));
               ("sequenced_packet", bool_decide (rq_sequenced_packet_opt f = None));
               ("target_hostname", bool_decide (rq_target_hostname_opt f = None));
               ("target_port", bool_decide (rq_target_port_opt f = None));
               ("protocol", bool_decide (rq_protocol_opt f = None));
               ("originator_public_key", bool_decide (rq_originator_opt f = None))] with
      | [] =>
          k ← expect (rq_stream_key_opt f) "stream_key disappeared";
          p ← expect (rq_sequenced_packet_opt f) "sequenced_packet disappeared";
          h ← expect (rq_target_hostname_opt f) "target_hostname disappeared";
          t ← expect (rq_target_port_opt f) "target_port disappeared";
          r ← expect (rq_protocol_opt f) "protocol disappeared";
          o ← expect (rq_originator_opt f) "originator_public_key disappeared";
          mret (Ok (mkRequest k p h t r o))
      | _ => Panic "not implemented"
      end
  | _ => not_a_map
  end.

(** *** [ClientResponsePayload_0v1] *)
Definition response_field (f : option StreamKey * option SequencedPacket) (kv : Value * Value) :
    outcome (option StreamKey * option SequencedPacket) :=
  match kv.1 with
  | VText name =>
      if String.eqb name "stream_key" then k ← value_to_type kv.2; mret (k, f.2)
      else if String.eqb name "sequenced_packet" then p ← value_to_type kv.2; mret (f.1, p)
      else mret f
  | _ => mret f
  end.

Definition response_from_value (v : Value) : outcome (result ClientResponsePayload_0v1 StepError) :=
  match v with
  | VMap pairs =>
      f ← fold_outcome response_field pairs (None, None);
      match missing_fields [("stream_key", bool_decide (f.1 = None));
                            ("sequenced_packet", bool_decide (f.2 = None))] with
      | [] =>
          k ← expect f.1 "stream_key disappeared";
          p ← expect f.2 "sequenced_packet disappeared";
          mret (Ok (mkResponse k p))
      | _ => Panic "not implemented"
      end
  | _ => not_a_map
  end.

(** *** [DnsResolveFailure_0v1] *)
Definition dns_failure_field (f : option StreamKey) (kv : Value * Value) : outcome (option StreamKey) :=
  match kv.1 with
  | VText name => if String.eqb name "stream_key" then value_to_type kv.2 else mret f
  | _ => mret f
  end.

Definition dns_failure_from_value (v : Value) : outcome (result DnsResolveFailure_0v1 StepError) :=
  match v with
  | VMap pairs =>
      f ← fold_outcome dns_failure_field pairs None;
      match missing_fields [("stream_key", bool_decide (f = None))] with
      | [] => k ← expect f "stream_key disappeared"; mret (Ok (mkDnsFailure k))
      | _ => Panic "not implemented"
      end
  | _ => not_a_map
  end.

(** *** [GossipFailure_0v1] *)
Definition gossip_failure_from_value (v : Value) : outcome (result GossipFailure_0v1 StepError) :=
  match v with
  | VText name =>
      mret (Ok (if String.eqb name "NoNeighbors" then NoNeighbors
                else if String.eqb name "NoSuitableNeighbors" then NoSuitableNeighbors
                else if String.eqb name "ManualRejection" then ManualRejection
                else UnknownFailure))
  | _ => mret (Err (SemanticError "Expected Value::Text"))
  end.

(** *** [Gossip_0v1] *)
Context `{Codec GossipNodeRecord}.

Definition gnr_from_value (v : Value) : outcome (result GossipNodeRecord StepError) :=
  reserialized ← expect_ok (to_vec v) "Serialization error";
  match from_slice reserialized with
  | Ok gnr => mret (Ok gnr)
  | Err _ => Panic "not implemented"
  end.

Definition push_gnr (s : option StepError * list GossipNodeRecord) (v : Value) :
    outcome (option StepError * list GossipNodeRecord) :=
  r ← gnr_from_value v;
  mret (match s.1, r with
        | Some e, _ => s
        | None, Err e => (Some e, s.2)
        | None, Ok gnr => (None, s.2 ++ [gnr])
        end).

Definition gossip_field (s : option StepError * list GossipNodeRecord) (kv : Value * Value) :
    outcome (option StepError * list GossipNodeRecord) :=
  match kv with
  | (VText field_name, VArray field_value) =>
      if String.eqb field_name "node_records" then fold_outcome push_gnr field_value (s.1, [])
      else mret s
  | _ => mret s
  end.

Definition gossip_from_value (v : Value) : outcome (result Gossip_0v1 StepError) :=
  match v with
  | VMap pairs =>
      s ← fold_outcome gossip_field pairs (None, []);
      mret (match s.1 with Some e => Err e | None => Ok (mkGossip s.2) end)
  | _ => Panic "not implemented"
  end.

(** *** [NodeRecordInner_0v1] *)
Context `{Codec Wallet} `{Codec RatePack}.

Fixpoint public_keys_to_btree_set (field_value : list Value) (output : gset PublicKey) :
    outcome (option (gset PublicKey)) :=
  match field_value with
  | [] => mret (Some output)
  | v :: field_value =>
      k ← value_to_type v;
      match k with
      | None => mret None
      | Some public_key => public_keys_to_btree_set field_value ({[public_key]} ∪ output)
      end
  end.

Record InnerFields := mkInnerFields {
  in_public_key_opt : option PublicKey;
  in_earning_wallet_opt : option Wallet;
  in_rate_pack_opt : option RatePack;
  in_neighbors_opt : option (gset PublicKey);
  in_accepts_connections_opt : option bool;
  in_routes_data_opt : option bool;
  in_version_opt : option Z;
  in_country_code_opt : option string
}.

Definition inner_field (f : InnerFields) (kv : Value * Value) : outcome InnerFields :=
  let '(mkInnerFields k w r n a d v c) := f in
  match kv with
  | (VText name, VMap _) =>
      if String.eqb name "earning_wallet" then
        w ← value_to_type kv.2; mret (mkInnerFields k w r n a d v c)
      else if String.eqb name "rate_pack" then
        r ← value_to_type kv.2; mret (mkInnerFields k w r n a d v c)
      else mret f
  | (VText name, VArray field_value) =>
      if String.eqb name "neighbors" then
        n ← public_keys_to_btree_set field_value ∅; mret (mkInnerFields k w r n a d v c)
      else mret f
  | (VText name, VBytes field_value) =>
      if String.eqb name "public_key" then
        mret (mkInnerFields (Some (mkPublicKey field_value)) w r n a d v c)
      else mret f
  | (VText name, VBool field_value) =>
      if String.eqb name "accepts_connections" then mret (mkInnerFields k w r n (Some field_value) d v c)
      else if String.eqb name "routes_data" then mret (mkInnerFields k w r n a (Some field_value) v c)
      else mret f
  | (VText name, VInteger field_value) =>
      if String.eqb name "version" then
        if field_value <? 0 then mret f
        else if 0xFFFFFFFF <=? field_value then mret f
        else mret (mkInnerFields k w r n a d (Some (u32 field_value)) c)
      else mret f
  | (VText name, VText field_value) =>
      if String.eqb name "country_code" then mret (mkInnerFields k w r n a d v (Some field_value))
      else mret f
  | _ => mret f
  end.

Definition inner_from_value (v : Value) : outcome (result NodeRecordInner_0v1 StepError) :=
  match v with
  | VMap pairs =>
      f ← fold_outcome inner_field pairs (mkInnerFields None None None None None None None None);
      match missing_fields
              [("public_key", bool_decide (in_public_key_opt f = None));
               ("earning_wallet", bool_decide (in_earning_wallet_opt f = None));
               ("rate_pack", bool_decide (in_rate_pack_opt f = None));
               ("neighbors", bool_decide (in_neighbors_opt f = None));
               ("accepts_connections", bool_decide (in_accepts_connections_opt f = None));
               ("routes_data", bool_decide (in_routes_data_opt f = None));
               ("version", bool_decide (in_version_opt f = None));
               ("country_code", bool_decide (in_country_code_opt f = None))] with
      | [] =>
          k ← expect (in_public_key_opt f) "public_key disappeared";
          w ← expect (in_earning_wallet_opt f) "public_key disappeared";
          r ← expect (in_rate_pack_opt f) "public_key disappeared";
          n ← expect (in_neighbors_opt f) "public_key disappeared";
          a ← expect (in_accepts_connections_opt f) "public_key disappeared";
          d ← expect (in_routes_data_opt f) "public_key disappeared";
          v ← expect (in_version_opt f) "public_key disappeared";
          mret (Ok (mkInner k w r n a d v (in_country_code_opt f)))
      | _ => Panic "not implemented"
      end
  | _ => not_a_map
  end.
End Conversions.

(** ** The tables: one step from the future *)
Class FromValue (T : Type) := from_value : Value → outcome (result T StepError).

Section Tables.
Context `{KeyOrder} `{Codec Value} {T : Type} `{Codec T} `{FromValue T}.

(** [migrate_value!] *)
Definition migrate_value (tv : DataVersion) : MigrationStep := λ data,
  match from_slice data with
  | Err _ => mret (Err (StepDeserializationError FUTURE_VERSION tv "Unable to deserialize ... with data ..."))
  | Ok value =>
      r ← from_value value;
      match r with
      | Ok out_item =>
          b ← expect_ok (to_vec (T := T) out_item) "Serialization failed"; mret (Ok b)
      | Err e => mret (Err e)
      end
  end.

(** The current version of every payload. *)
Definition PAYLOAD_CURRENT_VERSION : DataVersion := mkVersion 0 1.

Definition MIGRATIONS : outcome Migrations :=
  v01 ← dv_new 0 1;
  add_step (Migrations_new PAYLOAD_CURRENT_VERSION) FUTURE_VERSION v01 (migrate_value v01).

(** [VersionedData::from] and [TryFrom<VersionedData<T>>]; the search of the table
    has fuel to spare, and finds its step at once. *)
Definition versioned_from (d : T) : outcome VersionedData :=
  m ← MIGRATIONS; versioned_new m d.

Definition try_from_versioned (vd : VersionedData) : outcome (result T MigrationError) :=
  m ← MIGRATIONS;
  match extract (T := T) vd m with
  | Some r => p ← r; mret p.1
  | None => Panic "out of fuel"
  end.
End Tables.
