(* ===== verification/SampleCodecs.v ===== *)
(** * Concrete codecs

    A codec for every countable type, and one for [Value] in which a byte string can
    hold the encoding of any other value.  They show that the laws of [CodecOk] can
    hold, and give the theorems about serialized data concrete inputs. *)

From S2P Require Import Prelude.
From S2P Require Import NodeAddr.
From S2P Require Import NodeRecord.
From S2P Require Import Gossip.
From S2P Require Import Sequencing.
From S2P Require Import Cryptde.
From S2P Require Import Migrations.
From S2P Require Import Payloads.

Definition sample_bytes {T} `{Countable T} (x : T) : list Z := [Z.pos (encode x)].

Definition sample_read {T} `{Countable T} (b : list Z) : result T CborError :=
  match b with
  | [Z.pos p] => match decode p with Some x => Ok x | None => Err (mkCborError "invalid value") end
  | _ => Err (mkCborError "invalid length")
  end.

Definition countable_codec {T} `{Countable T} : Codec T :=
  {| to_vec x := Ok (1 :: sample_bytes x);
     from_slice b := match b with
                     | c :: b => if c =? 1 then sample_read b else Err (mkCborError "invalid tag")
                     | [] => Err (mkCborError "EofWhileParsingValue")
                     end |}.

Lemma countable_codec_ok {T} `{Countable T} : @CodecOk T countable_codec.
Proof.
  constructor. intros x. eexists. split; [done|]. split; [done|]. simpl.
  by rewrite decode_encode.
Qed.

(** ** [Value] *)
Section value_ind.
Context (P : Value → Prop).
Hypothesis Pbool : ∀ b, P (VBool b).
Hypothesis Pint : ∀ n, P (VInteger n).
Hypothesis Pbytes : ∀ b, P (VBytes b).
Hypothesis Ptext : ∀ s, P (VText s).
Hypothesis Parray : ∀ vs, Forall P vs → P (VArray vs).
Hypothesis Pmap : ∀ kvs, Forall (λ kv, P kv.1 ∧ P kv.2) kvs → P (VMap kvs).
Hypothesis Pother : ∀ n, P (VOther n).

Fixpoint value_nested_ind (v : Value) : P v :=
  match v with
  | VBool b => Pbool b
  | VInteger n => Pint n
  | VBytes b => Pbytes b
  | VText s => Ptext s
  | VArray vs =>
      Parray vs ((fix go vs : Forall P vs :=
        match vs with
        | [] => Forall_nil_2 _
        | v :: vs => Forall_cons_2 _ _ _ (value_nested_ind v) (go vs)
        end) vs)
  | VMap kvs =>
      Pmap kvs ((fix go kvs : Forall (λ kv, P kv.1 ∧ P kv.2) kvs :=
        match kvs with
        | [] => Forall_nil_2 _
        | (k, v) :: kvs =>
            Forall_cons_2 _ (k, v) kvs (conj (value_nested_ind k) (value_nested_ind v)) (go kvs)
        end) kvs)
  | VOther n => Pother n
  end.
End value_ind.

Abbreviation tree := (gen_tree (bool + Z + list Z + string)).

Fixpoint value_to_tree (v : Value) : tree :=
  match v with
  | VBool b => GenLeaf (inl (inl (inl b)))
  | VInteger n => GenLeaf (inl (inl (inr n)))
  | VBytes b => GenLeaf (inl (inr b))
  | VText s => GenLeaf (inr s)
  | VArray vs => GenNode 0 (map value_to_tree vs)
  | VMap kvs => GenNode 1 (map (λ kv, GenNode 2 [value_to_tree kv.1; value_to_tree kv.2]) kvs)
  | VOther n => GenNode 3 [GenLeaf (inl (inl (inr n)))]
  end.

Fixpoint tree_to_value (t : tree) : Value :=
  match t with
  | GenLeaf (inl (inl (inl b))) => VBool b
  | GenLeaf (inl (inl (inr n))) => VInteger n
  | GenLeaf (inl (inr b)) => VBytes b
  | GenLeaf (inr s) => VText s
  | GenNode 0 ts => VArray (map tree_to_value ts)
  | GenNode 1 ts =>
      VMap (map (λ t, match t with
                      | GenNode _ [k; v] => (tree_to_value k, tree_to_value v)
                      | _ => (VOther 0, VOther 0)
                      end) ts)
  | GenNode _ [GenLeaf (inl (inl (inr n)))] => VOther n
  | GenNode _ _ => VOther 0
  end.

Lemma tree_value_roundtrip v : tree_to_value (value_to_tree v) = v.
Proof.
  induction v as [| | | |vs IH|kvs IH|] using value_nested_ind; simpl; try done; f_equal.
  - induction IH as [|v vs E _ IH]; simpl; [done|]. by rewrite E, IH.
  - induction IH as [|[k v] kvs [E1 E2] _ IH]; simpl in *; [done|]. by rewrite E1, E2, IH.
Qed.

#[export] Instance Value_eq_dec : EqDecision Value.
Proof.
  intros a b. destruct (decide (value_to_tree a = value_to_tree b)) as [E|E].
  - left. rewrite <-(tree_value_roundtrip a), E. apply tree_value_roundtrip.
  - right. by intros ->.
Defined.

#[export] Instance Value_countable : Countable Value :=
  inj_countable' value_to_tree tree_to_value tree_value_roundtrip.

Definition value_codec : Codec Value :=
  {| to_vec v := match v with VBytes b => Ok (1 :: b) | _ => Ok (0 :: sample_bytes v) end;
     from_slice b := match b with
                     | c :: b => if c =? 1 then Ok (VBytes b) else sample_read b
                     | [] => Err (mkCborError "EofWhileParsingValue")
                     end |}.

Lemma value_codec_ok : @CodecOk Value value_codec.
Proof.
  constructor. intros v. destruct v as [| |b| | | |];
    [| |by exists (1 :: b)|..]; (eexists; split; [done|]; split; [done|]; simpl; by rewrite decode_encode).
Qed.

Lemma value_codec_reads v : (∀ b, v ≠ VBytes b) → @from_slice _ value_codec (0 :: sample_bytes v) = Ok v.
Proof. intros _. simpl. by rewrite decode_encode. Qed.

(** ** The types that travel *)
#[export] Instance SequencedPacket_countable : Countable SequencedPacket :=
  inj_countable' (λ p, (data p, sequence_number p, last_data p)) (λ '(d, n, l), mkPacket d n l)
    (λ p, match p with mkPacket _ _ _ => eq_refl end).

#[export] Instance ProxyProtocol_countable : Countable ProxyProtocol :=
  inj_countable' (λ p, match p with HTTP => true | TLS => false end)
    (λ b : bool, if b then HTTP else TLS) (λ p, match p with HTTP => eq_refl | TLS => eq_refl end).

#[export] Instance ClientRequestPayload_eq_dec : EqDecision ClientRequestPayload_0v1.
Proof. solve_decision. Defined.
#[export] Instance ClientRequestPayload_countable : Countable ClientRequestPayload_0v1 :=
  inj_countable'
    (λ r, (crq_stream_key r, crq_sequenced_packet r, target_hostname r, target_port r, protocol r,
           originator_public_key r))
    (λ '(k, p, h, t, r, o), mkRequest k p h t r o)
    (λ r, match r with mkRequest _ _ _ _ _ _ => eq_refl end).

#[export] Instance Wallet_countable : Countable Wallet :=
  inj_countable'
    (λ w, match w with
          | WalletAddress b => Some (inl (inl b))
          | WalletSecretKey b => Some (inl (inr b))
          | WalletPublicKey b => Some (inr b)
          | WalletUninitialized => None
          end)
    (λ o, match o with
          | Some (inl (inl b)) => WalletAddress b
          | Some (inl (inr b)) => WalletSecretKey b
          | Some (inr b) => WalletPublicKey b
          | None => WalletUninitialized
          end)
    (λ w, match w with
          | WalletAddress _ => eq_refl | WalletSecretKey _ => eq_refl | WalletPublicKey _ => eq_refl
          | WalletUninitialized => eq_refl
          end).

#[export] Instance RatePack_countable : Countable RatePack :=
  inj_countable'
    (λ r, (routing_byte_rate r, routing_service_rate r, exit_byte_rate r, exit_service_rate r))
    (λ '(a, b, c, d), mkRatePack a b c d) (λ r, match r with mkRatePack _ _ _ _ => eq_refl end).

#[export] Instance NodeRecordInner_countable : Countable NodeRecordInner_0v1 :=
  inj_countable'
    (λ i, (inner_public_key i, inner_earning_wallet i, inner_rate_pack i, inner_neighbors i,
           inner_accepts_connections i, inner_routes_data i, inner_version i, inner_country_code_opt i))
    (λ '(k, w, r, n, a, d, v, c), mkInner k w r n a d v c)
    (λ i, match i with mkInner _ _ _ _ _ _ _ _ => eq_refl end).

(** ** Gossip *)
#[export] Instance NodeAddr_countable : Countable NodeAddr :=
  inj_countable' (λ a, (na_ip_addr a, na_ports a)) (λ p, mkNodeAddr p.1 p.2)
    (λ a, match a with mkNodeAddr _ _ => eq_refl end).

#[export] Instance GossipNodeRecord_countable : Countable GossipNodeRecord :=
  inj_countable' (λ g, (gnr_signed_data g, gnr_signature g, gnr_node_addr_opt g)) (λ '(d, s, a), mkGnr d s a)
    (λ g, match g with mkGnr _ _ _ => eq_refl end).

#[export] Instance Gossip_countable : Countable Gossip_0v1 :=
  inj_countable' node_records mkGossip (λ g, match g with mkGossip _ => eq_refl end).
