(* ===== verification/PayloadsFacts.v ===== *)
(** * Facts about payloads

    Payloads of the current version are read back as they were written; payloads of
    future versions are accepted as long as they still have the known fields, and
    make the reader panic when one of them is gone. *)

From S2P Require Import Prelude.
From S2P Require Import NodeAddr.
From S2P Require Import NodeRecord.
From S2P Require Import Gossip.
From S2P Require Import Sequencing.
From S2P Require Import Cryptde.
From S2P Require Import Migrations.
From S2P Require Import MigrationsFacts.
From S2P Require Import Payloads.
From S2P Require Import SampleCodecs.

(** ** Loops over the fields of a map *)
Definition key_is (name : string) (k : Value) : bool :=
  match k with VText n => String.eqb n name | _ => false end.

(** The value that the last field of that name has. *)
Definition last_field {T} (name : string) (conv : Value → option T) (pairs : list (Value * Value))
    (acc : option T) : option T :=
  fold_left (λ acc kv, if key_is name kv.1 then conv kv.2 else acc) pairs acc.

Lemma key_is_spec name k : key_is name k = true ↔ k = VText name.
Proof. destruct k; simpl; try done. rewrite String.eqb_eq. naive_solver. Qed.

Lemma last_field_absent {T} name (conv : Value → option T) pairs acc :
  VText name ∉ pairs.*1 → last_field name conv pairs acc = acc.
Proof.
  revert acc; induction pairs as [|[k v] pairs IH]; intros acc Hn; [done|].
  rewrite fmap_cons, not_elem_of_cons in Hn. destruct Hn as [Hk Hn]. simpl in Hk |- *.
  destruct (key_is name k) eqn:E; [|by apply IH]. by apply key_is_spec in E.
Qed.

Lemma last_field_found {T} name (conv : Value → option T) pairs acc v :
  NoDup pairs.*1 → (VText name, v) ∈ pairs → last_field name conv pairs acc = conv v.
Proof.
  revert acc; induction pairs as [|[k w] pairs IH]; intros acc Hnd Hv; [by apply elem_of_nil in Hv|].
  rewrite fmap_cons, NoDup_cons in Hnd. destruct Hnd as [Hk Hnd]. simpl in Hk.
  apply elem_of_cons in Hv as [[= <- <-]|Hv].
  - change (last_field name conv pairs (if key_is name (VText name) then conv v else acc) = conv v).
    rewrite (proj2 (key_is_spec _ _)) by done. by apply last_field_absent.
  - by apply IH.
Qed.

Section Future.
Context `{HV : CodecOk Value} `{Codec StreamKey} `{Codec SequencedPacket} `{Codec (option string)}
        `{Codec ProxyProtocol} `{Codec PublicKey} {u16_codec : Codec Z}.

(** What [value_to_type] makes of a value. *)
Definition value_as {T} `{Codec T} (v : Value) : option T :=
  match to_vec v with
  | Ok b => match from_slice b with Ok t => Some t | Err _ => None end
  | Err _ => None
  end.

Lemma value_to_type_as {T} `{Codec T} v : value_to_type (T := T) v = Ret (value_as v).
Proof.
  unfold value_to_type, value_as. by destruct (codec_roundtrip v) as (b & -> & _ & _).
Qed.

Ltac field_cases :=
  repeat match goal with
  | |- context [String.eqb ?n ?s] => is_var n; destruct (String.eqb_spec n s); subst
  end; simpl.

(** One turn of the loop over the fields of a request. *)
Lemma request_field_spec f kv :
  returns (request_field f kv) (λ f',
    rq_stream_key_opt f' = (if key_is "stream_key" kv.1 then value_as kv.2 else rq_stream_key_opt f) ∧
    rq_sequenced_packet_opt f' =
      (if key_is "sequenced_packet" kv.1 then value_as kv.2 else rq_sequenced_packet_opt f) ∧
    rq_target_hostname_opt f' =
      (if key_is "target_hostname" kv.1 then value_as kv.2 else rq_target_hostname_opt f) ∧
    rq_target_port_opt f' = (if key_is "target_port" kv.1 then value_as kv.2 else rq_target_port_opt f) ∧
    rq_protocol_opt f' = (if key_is "protocol" kv.1 then value_as kv.2 else rq_protocol_opt f) ∧
    rq_originator_opt f' =
      (if key_is "originator_public_key" kv.1 then value_as kv.2 else rq_originator_opt f)).
Proof.
  destruct f as [k p h t r o], kv as [[]  v]; simpl; try done.
  rewrite !value_to_type_as. simpl. field_cases; auto 10.
Qed.

Lemma request_fields_spec pairs f :
  returns (fold_outcome request_field pairs f) (λ f',
    rq_stream_key_opt f' = last_field "stream_key" value_as pairs (rq_stream_key_opt f) ∧
    rq_sequenced_packet_opt f' =
      last_field "sequenced_packet" value_as pairs (rq_sequenced_packet_opt f) ∧
    rq_target_hostname_opt f' =
      last_field "target_hostname" value_as pairs (rq_target_hostname_opt f) ∧
    rq_target_port_opt f' = last_field "target_port" value_as pairs (rq_target_port_opt f) ∧
    rq_protocol_opt f' = last_field "protocol" value_as pairs (rq_protocol_opt f) ∧
    rq_originator_opt f' =
      last_field "originator_public_key" value_as pairs (rq_originator_opt f)).
Proof.
  revert f; induction pairs as [|kv pairs IH]; intros f; simpl; [auto 10|].
  ret_via (apply request_field_spec). intros f' (E1 & E2 & E3 & E4 & E5 & E6).
  eapply returns_mono; [apply IH|]. intros f''. by rewrite E1, E2, E3, E4, E5, E6.
Qed.

(** A map with the six known fields, whatever else it has, is a request. *)
Lemma request_from_map pairs k p h t r o vk vp vh vt vr vo :
  NoDup pairs.*1 →
  (VText "stream_key", vk) ∈ pairs → value_as vk = Some k →
  (VText "sequenced_packet", vp) ∈ pairs → value_as vp = Some p →
  (VText "target_hostname", vh) ∈ pairs → value_as vh = Some h →
  (VText "target_port", vt) ∈ pairs → value_as vt = Some t →
  (VText "protocol", vr) ∈ pairs → value_as vr = Some r →
  (VText "originator_public_key", vo) ∈ pairs → value_as vo = Some o →
  request_from_value (VMap pairs) = Ret (Ok (mkRequest k p h t r o)).
Proof.
  intros Hnd Hk Ek Hp Ep Hh Eh Ht Et Hr Er Ho Eo. unfold request_from_value.
  destruct (returns_inv _ _ (request_fields_spec pairs (mkRequestFields None None None None None None)))
    as (f & -> & E1 & E2 & E3 & E4 & E5 & E6).
  rewrite (last_field_found _ _ _ _ vk) in E1 by done. rewrite (last_field_found _ _ _ _ vp) in E2 by done.
  rewrite (last_field_found _ _ _ _ vh) in E3 by done. rewrite (last_field_found _ _ _ _ vt) in E4 by done.
  rewrite (last_field_found _ _ _ _ vr) in E5 by done. rewrite (last_field_found _ _ _ _ vo) in E6 by done.
  cbn [mbind outcome_bind]. rewrite E1, E2, E3, E4, E5, E6, Ek, Ep, Eh, Et, Er, Eo. done.
Qed.

(** A map without one of the fields makes the conversion panic. *)
Lemma request_field_gone pairs name :
  name ∈ ["stream_key"; "sequenced_packet"; "target_hostname"; "target_port"; "protocol";
          "originator_public_key"] →
  VText name ∉ pairs.*1 → request_from_value (VMap pairs) = Panic "not implemented".
Proof.
  intros Hname Hn. unfold request_from_value.
  destruct (returns_inv _ _ (request_fields_spec pairs (mkRequestFields None None None None None None)))
    as (f & -> & E1 & E2 & E3 & E4 & E5 & E6).
  cbn [mbind outcome_bind]. simpl in E1, E2, E3, E4, E5, E6.
  assert (∃ x xs, missing_fields
    [("stream_key", bool_decide (rq_stream_key_opt f = None));
     ("sequenced_packet", bool_decide (rq_sequenced_packet_opt f = None));
     ("target_hostname", bool_decide (rq_target_hostname_opt f = None));
     ("target_port", bool_decide (rq_target_port_opt f = None));
     ("protocol", bool_decide (rq_protocol_opt f = None));
     ("originator_public_key", bool_decide (rq_originator_opt f = None))] = x :: xs) as (x & xs & ->);
    [|done].
  rewrite !elem_of_cons, elem_of_nil in Hname.
  destruct Hname as [->|[->|[->|[->|[->|[->|[]]]]]]];
    [rewrite last_field_absent in E1 by done; rewrite E1
    |rewrite last_field_absent in E2 by done; rewrite E2
    |rewrite last_field_absent in E3 by done; rewrite E3
    |rewrite last_field_absent in E4 by done; rewrite E4
    |rewrite last_field_absent in E5 by done; rewrite E5
    |rewrite last_field_absent in E6 by done; rewrite E6];
    simpl; repeat case_bool_decide; eauto.
Qed.

(** The country code of a record is only looked for under the name [country_code]. *)
Context `{Codec Wallet} `{Codec RatePack}.

Lemma public_keys_to_btree_set_returns vs acc : returns (public_keys_to_btree_set vs acc) (λ _, True).
Proof.
  revert acc; induction vs as [|v vs IH]; intros acc; simpl; [done|].
  rewrite value_to_type_as. simpl. destruct (value_as v); [apply IH|done].
Qed.

Lemma inner_field_country f kv :
  returns (inner_field f kv) (λ f',
    kv.1 ≠ VText "country_code" → in_country_code_opt f' = in_country_code_opt f).
Proof.
  destruct f as [k w r n a d v c], kv as [[] x]; try done.
  destruct x; simpl; rewrite ?value_to_type_as; simpl;
    repeat case_match; try done.
  - intros Hne. destruct Hne. f_equal. by apply String.eqb_eq.
  - ret_via (apply public_keys_to_btree_set_returns). done.
Qed.

Lemma inner_fields_country pairs f :
  VText "country_code" ∉ pairs.*1 →
  returns (fold_outcome inner_field pairs f) (λ f', in_country_code_opt f' = in_country_code_opt f).
Proof.
  revert f; induction pairs as [|kv pairs IH]; intros f Hn; simpl; [done|].
  rewrite fmap_cons, not_elem_of_cons in Hn. destruct Hn as [Hk Hn].
  ret_via (apply inner_field_country). intros f' E.
  eapply returns_mono; [by apply IH|]. intros f'' ->. by apply E.
Qed.

Lemma inner_country_gone pairs :
  VText "country_code" ∉ pairs.*1 → inner_from_value (VMap pairs) = Panic "not implemented".
Proof.
  intros Hn. unfold inner_from_value.
  destruct (returns_inv _ _ (inner_fields_country pairs
    (mkInnerFields None None None None None None None None) Hn)) as (f & -> & E).
  cbn [mbind outcome_bind]. simpl in E. rewrite E. simpl.
  repeat case_bool_decide; done.
Qed.
End Future.

(** ** The tables *)
#[export] Instance request_value `{Codec Value} `{Codec StreamKey} `{Codec SequencedPacket}
    `{Codec (option string)} `{Codec ProxyProtocol} `{Codec PublicKey} {u16_codec : Codec Z} :
  FromValue ClientRequestPayload_0v1 := request_from_value.
#[export] Instance inner_value `{Codec Value} `{Codec PublicKey} `{Codec Wallet} `{Codec RatePack} :
  FromValue NodeRecordInner_0v1 := inner_from_value.

Section TableFacts.
Context `{KeyOrder} `{Codec Value} {T : Type} `{HT : CodecOk T} `{FromValue T}.

Definition payload_table : Migrations :=
  mkMigrations PAYLOAD_CURRENT_VERSION
    {[FUTURE_VERSION := {[PAYLOAD_CURRENT_VERSION := migrate_value (T := T) PAYLOAD_CURRENT_VERSION]}]}.

Lemma MIGRATIONS_table : MIGRATIONS (T := T) = Ret payload_table.
Proof. done. Qed.

Lemma payload_table_built : built payload_table.
Proof.
  apply (built_add (Migrations_new PAYLOAD_CURRENT_VERSION) FUTURE_VERSION PAYLOAD_CURRENT_VERSION
           (migrate_value PAYLOAD_CURRENT_VERSION)); [constructor|done].
Qed.

Lemma versioned_roundtrip (d : T) :
  ∃ vd, versioned_from d = Ret vd ∧ try_from_versioned vd = Ret (Ok d).
Proof.
  destruct (codec_roundtrip d) as (b & Hb & _ & Hd). exists (mkVersioned PAYLOAD_CURRENT_VERSION b).
  unfold versioned_from, try_from_versioned. rewrite MIGRATIONS_table. cbn [mbind outcome_bind].
  unfold versioned_new, extract. rewrite Hb. split; [done|]. simpl.
  unfold deserialize_current. simpl. by rewrite Hd.
Qed.

(** Data from the future goes through the only step of the table. *)
Lemma try_from_future vd :
  version_ltb PAYLOAD_CURRENT_VERSION (vd_version vd) = true →
  try_from_versioned (T := T) vd =
    (migrated ← migrate_value (T := T) PAYLOAD_CURRENT_VERSION (vd_bytes vd);
     mret (match migrated with
           | Err e => Err (MigrationFailed e)
           | Ok b => deserialize_current payload_table b
           end)).
Proof.
  intros Hv. unfold try_from_versioned. rewrite MIGRATIONS_table. cbn [mbind outcome_bind].
  unfold extract. simpl current_version. rewrite Hv. rewrite decide_False by done.
  assert (migration payload_table FUTURE_VERSION =
    Some (Ret (Some (migrate_value (T := T) PAYLOAD_CURRENT_VERSION), payload_table))) as -> by done.
  destruct (migrate_value PAYLOAD_CURRENT_VERSION (vd_bytes vd)); done.
Qed.

Lemma try_from_future_ok vd v d :
  version_ltb PAYLOAD_CURRENT_VERSION (vd_version vd) = true →
  from_slice (vd_bytes vd) = Ok v → from_value v = Ret (Ok d) →
  try_from_versioned (T := T) vd = Ret (Ok d).
Proof.
  intros Hv Hb Hd. rewrite try_from_future by done. unfold migrate_value. rewrite Hb, Hd.
  destruct (codec_roundtrip d) as (b & Eb & _ & Ed). simpl. rewrite Eb. simpl.
  unfold deserialize_current. by rewrite Ed.
Qed.

Lemma try_from_future_panics vd v why :
  version_ltb PAYLOAD_CURRENT_VERSION (vd_version vd) = true →
  from_slice (vd_bytes vd) = Ok v → from_value (T := T) v = Panic why →
  try_from_versioned (T := T) vd = Panic why.
Proof.
  intros Hv Hb Hd. rewrite try_from_future by done. unfold migrate_value. by rewrite Hb, Hd.
Qed.
End TableFacts.

(** ** Future payloads *)
Section FuturePayloads.
Context `{KeyOrder} `{HV : CodecOk Value} `{Codec StreamKey} `{Codec SequencedPacket}
        `{Codec (option string)} `{Codec ProxyProtocol} `{Codec PublicKey} {u16_codec : Codec Z}
        `{HR : CodecOk ClientRequestPayload_0v1}.

(** A client request that a node of a later version sent is understood as long as
    it still has the six fields of version 0.1 in a form that can be read, whatever
    fields were added. *)
Theorem future_request_migrates vd pairs k p h t r o vk vp vh vt vr vo :
  version_ltb PAYLOAD_CURRENT_VERSION (vd_version vd) = true →
  from_slice (vd_bytes vd) = Ok (VMap pairs) → NoDup pairs.*1 →
  (VText "stream_key", vk) ∈ pairs → value_as vk = Some k →
  (VText "sequenced_packet", vp) ∈ pairs → value_as vp = Some p →
  (VText "target_hostname", vh) ∈ pairs → value_as vh = Some h →
  (VText "target_port", vt) ∈ pairs → value_as vt = Some t →
  (VText "protocol", vr) ∈ pairs → value_as vr = Some r →
  (VText "originator_public_key", vo) ∈ pairs → value_as vo = Some o →
  try_from_versioned vd = Ret (Ok (mkRequest k p h t r o)).
Proof.
  intros Hv Hb Hnd Hk Ek Hp Ep Hh Eh Ht Et Hr Er Ho Eo.
  eapply try_from_future_ok; [done..|]. eapply request_from_map; done.
Qed.

Context `{Codec Wallet} `{Codec RatePack} `{HI : CodecOk NodeRecordInner_0v1}.

(** A payload of a later version without one of the known fields stops the reader
    with [unimplemented!] instead of being refused: a client request without any one
    of its six fields, and a node record without the field [country_code], which is
    not the name [country_code_opt] under which records of version 0.1 are written. *)
Theorem future_payload_without_field_panics vd pairs :
  version_ltb PAYLOAD_CURRENT_VERSION (vd_version vd) = true →
  from_slice (vd_bytes vd) = Ok (VMap pairs) →
  (∀ name, name ∈ ["stream_key"; "sequenced_packet"; "target_hostname"; "target_port"; "protocol";
                   "originator_public_key"] → VText name ∉ pairs.*1 →
     try_from_versioned (T := ClientRequestPayload_0v1) vd = Panic "not implemented") ∧
  (VText "country_code" ∉ pairs.*1 →
     try_from_versioned (T := NodeRecordInner_0v1) vd = Panic "not implemented").
Proof.
  intros Hv Hb. split.
  - intros name Hin Hn. eapply try_from_future_panics; [done..|]. by eapply request_field_gone.
  - intros Hn. eapply try_from_future_panics; [done..|]. by apply inner_country_gone.
Qed.
End FuturePayloads.

(** ** Concrete payloads *)
Module Samples.
#[local] Existing Instance listed_keys.
#[local] Existing Instances value_codec value_codec_ok countable_codec countable_codec_ok.

Definition sample_packet : SequencedPacket := mkPacket [1; 2; 3] 0 false.

Definition held {T} `{Countable T} (x : T) : Value := VBytes (sample_bytes x).

(** A request of version 0.2 with one field more. *)
Definition future_pairs : list (Value * Value) :=
  [(VText "another_field", VInteger 5);
   (VText "originator_public_key", held (mkPublicKey [7]));
   (VText "protocol", held TLS);
   (VText "sequenced_packet", held sample_packet);
   (VText "stream_key", held (mkStreamKey [9]));
   (VText "target_hostname", held (Some "example.com"));
   (VText "target_port", held 443)].

Definition future_vd (pairs : list (Value * Value)) : VersionedData :=
  mkVersioned (mkVersion 0 2) (0 :: sample_bytes (VMap pairs)).

Lemma value_as_held {T} `{Countable T} (x : T) : value_as (held x) = Some x.
Proof. unfold value_as. simpl. by rewrite decode_encode. Qed.

Lemma future_vd_reads pairs : from_slice (vd_bytes (future_vd pairs)) = Ok (VMap pairs).
Proof. by apply value_codec_reads. Qed.

Lemma future_request_migrates_witness :
  try_from_versioned (future_vd future_pairs) =
    Ret (Ok (mkRequest (mkStreamKey [9]) sample_packet (Some "example.com") 443 TLS (mkPublicKey [7]))).
Proof.
  apply (future_request_migrates _ future_pairs _ _ _ _ _ _
    (held (mkStreamKey [9])) (held sample_packet) (held (Some "example.com")) (held 443) (held TLS)
    (held (mkPublicKey [7])));
    [done|apply future_vd_reads|by refine (bool_decide_unpack (NoDup _) _); vm_compute|..];
    first [apply value_as_held | unfold future_pairs; set_solver].
Defined.

Lemma future_payload_without_field_panics_witness :
  try_from_versioned (T := ClientRequestPayload_0v1) (future_vd []) = Panic "not implemented" ∧
  try_from_versioned (T := NodeRecordInner_0v1) (future_vd [(VText "country_code_opt", VText "AU")]) =
    Panic "not implemented".
Proof.
  split.
  - apply (proj1 (future_payload_without_field_panics (future_vd []) [] eq_refl (future_vd_reads [])) "protocol");
      [set_solver|by apply not_elem_of_nil].
  - apply (proj2 (future_payload_without_field_panics (future_vd [(VText "country_code_opt", VText "AU")])
      _ eq_refl (future_vd_reads _))).
    by intros [=]%list_elem_of_singleton.
Defined.
End Samples.
