(* ===== verification/Hopper.v ===== *)
(** * The Hopper

    Models [node/src/hopper/consuming_service.rs] (packages that leave this node) and
    [node/src/hopper/routing_service.rs] (packages that arrive), with the messages of
    [node/src/sub_lib/dispatcher.rs], [node/src/sub_lib/stream_handler_pool.rs] and
    [node/src/sub_lib/accountant.rs] they use.

    A handler returns the messages it sends to the other actors, in order.  That an
    actor is dead is not modelled, nor is logging.  The time of the clock is the
    argument [now]; the ban cache is the argument [ban_cache]. *)

From S2P Require Import Prelude.
From S2P Require Import NodeAddr.
From S2P Require Import NodeRecord.
From S2P Require Import Gossip.
From S2P Require Import GossipAcceptor.
From S2P Require Import Routing.
From S2P Require Import Sequencing.
From S2P Require Import Cryptde.
From S2P Require Import Routes.
From S2P Require Import Migrations.
From S2P Require Import Payloads.

Inductive Endpoint := Key (k : PublicKey) | Socket (addr : SocketAddr).

Record InboundClientData := mkIbcd {
  timestamp : Z;
  client_addr : SocketAddr;
  reception_port : option Z;
  ibcd_last_data : bool;
  is_clandestine : bool;
  ibcd_sequence_number : option Z;
  ibcd_data : list Z
}.

Definition clone_but_data (now : Z) (ibcd : InboundClientData) : InboundClientData :=
  mkIbcd now (client_addr ibcd) (reception_port ibcd) (ibcd_last_data ibcd) (is_clandestine ibcd)
    (ibcd_sequence_number ibcd) [].

Record TransmitDataMsg := mkTransmit {
  endpoint : Endpoint;
  tx_last_data : bool;
  tx_sequence_number : option Z;
  tx_data : list Z
}.

Record ReportRoutingServiceProvided := mkReport {
  report_time : Z;
  report_paying_wallet : Wallet;
  payload_size : nat;
  service_rate : Z;
  byte_rate : Z
}.

(** A message to another actor. *)
Inductive HopperMessage :=
| ToDispatcher (m : TransmitDataMsg)
| ToHopper (m : InboundClientData)
| ToAccountant (m : ReportRoutingServiceProvided)
| ToProxyClient (m : ExpiredCoresPackage ClientRequestPayload_0v1)
| ToProxyServer (m : ExpiredCoresPackage ClientResponsePayload_0v1)
| ToProxyServerDnsFailure (m : ExpiredCoresPackage DnsResolveFailure_0v1)
| ToNeighborhood (m : ExpiredCoresPackage Gossip_0v1)
| ToNeighborhoodFailure (m : ExpiredCoresPackage GossipFailure_0v1).

#[export] Instance Component_eq_dec : EqDecision Component.
Proof. solve_decision. Defined.

(** The static tables of [sub_lib/migrations]. *)
Class Payload (T : Type) := {
  payload_codec :: Codec T;
  payload_from_value :: FromValue T
}.

Section Hopper.
Context `{Signatures} `{KeyOrder} `{Codec Value} `{Codec LiveHop} `{Codec MessageType}
        `{Codec LiveCoresPackage} `{Codec Z}
        `{Payload ClientRequestPayload_0v1} `{Payload ClientResponsePayload_0v1}
        `{Payload DnsResolveFailure_0v1} `{Payload Gossip_0v1} `{Payload GossipFailure_0v1}.

(** ** [ConsumingService] *)
Definition zero_hop (now : Z) (encrypted_package : CryptData) : list HopperMessage :=
  [ToHopper (mkIbcd now (mkSocketAddr (V4 0x7F000001) 0) None false true None encrypted_package)].

Definition launch_lcp (encrypted_package : CryptData) (next_stop : Endpoint) : list HopperMessage :=
  [ToDispatcher (mkTransmit next_stop false None encrypted_package)].

Definition consume_no_lookup (cryptde : NodeCryptDE) (inc : NoLookupIncipientCoresPackage) :
    outcome (list HopperMessage) :=
  let target_key := nl_public_key inc in
  let target_node_addr := NodeAddr_clone (nl_node_addr inc) in
  r ← from_no_lookup_incipient inc cryptde;
  match r with
  | Ok (live_package, _) =>
      match encodex cryptde target_key live_package with
      | Ok encrypted_package =>
          socket_addr ← NodeAddr_to_socket target_node_addr;
          mret (launch_lcp encrypted_package (Socket socket_addr))
      | Err _ => mret []
      end
  | Err _ => mret []
  end.

Definition consume (now : Z) (cryptde : NodeCryptDE) (inc : IncipientCoresPackage) :
    outcome (list HopperMessage) :=
  r ← from_incipient inc cryptde;
  match r with
  | Ok (live_package, next_hop) =>
      match encodex cryptde (hop_public_key next_hop) live_package with
      | Ok encrypted_package =>
          mret (if decide (hop_public_key next_hop = cd_public_key cryptde)
                then zero_hop now encrypted_package
                else launch_lcp encrypted_package (Key (hop_public_key next_hop)))
      | Err _ => mret []
      end
  | Err _ => mret []
  end.

(** ** [RoutingService] *)
Record RoutingService := mkRoutingService {
  rs_main : NodeCryptDE;
  rs_alias : NodeCryptDE;
  proxy_client_running : bool;
  per_routing_service : Z;
  per_routing_byte : Z;
  is_decentralized : bool
}.

Context (ban_cache : list Wallet).

Definition is_destined_for_here (s : RoutingService) (hop : LiveHop) : bool :=
  bool_decide (hop_public_key hop = cd_public_key (rs_main s)).

Definition route_data_around_again (s : RoutingService) (live_package : LiveCoresPackage)
    (ibcd_but_data : InboundClientData) : outcome (list HopperMessage) :=
  r ← into_next_live live_package (rs_main s);
  match r with
  | Err _ => mret []
  | Ok (_, next_lcp) =>
      payload ← expect_ok (encodex (rs_main s) (cd_public_key (rs_main s)) next_lcp)
                  "Encryption of LiveCoresPackage failed";
      mret [ToHopper (mkIbcd (timestamp ibcd_but_data) (client_addr ibcd_but_data)
                        (reception_port ibcd_but_data) (ibcd_last_data ibcd_but_data)
                        (is_clandestine ibcd_but_data) (ibcd_sequence_number ibcd_but_data) payload)]
  end.

Definition extract_expired_package (s : RoutingService) (immediate_neighbor_addr : SocketAddr)
    (live_package : LiveCoresPackage) (component : Component) :
    outcome (option (ExpiredCoresPackage MessageType)) :=
  let payload_cryptde := match component with ProxyServerC => rs_alias s | _ => rs_main s end in
  r ← to_expired live_package immediate_neighbor_addr (rs_main s) payload_cryptde;
  mret (match r with Ok pkg => Some pkg | Err _ => None end).

(** The package with its payload replaced. *)
Definition with_payload {A B} (pkg : ExpiredCoresPackage A) (payload : B) : ExpiredCoresPackage B :=
  mkExpired _ (immediate_neighbor _ pkg) (paying_wallet _ pkg) (remaining_route _ pkg) payload
    (payload_len _ pkg).

(** [T::try_from(vd)], and what is sent when it succeeds. *)
Definition send_migrated {T} `{Payload T} (pkg : ExpiredCoresPackage MessageType) (vd : VersionedData)
    (to : ExpiredCoresPackage T → HopperMessage) : outcome (list HopperMessage) :=
  r ← try_from_versioned (T := T) vd;
  mret (match r with Ok payload => [to (with_payload pkg payload)] | Err _ => [] end).

Definition route_expired_package (s : RoutingService) (component : Component)
    (pkg : ExpiredCoresPackage MessageType) (payer_owns_secret_key : bool) :
    outcome (list HopperMessage) :=
  match component, ex_payload _ pkg with
  | ProxyClientC, ClientRequest vd =>
      if negb (is_decentralized s) || payer_owns_secret_key then
        if proxy_client_running s then send_migrated pkg vd ToProxyClient else mret []
      else mret []
  | ProxyServerC, ClientResponse vd => send_migrated pkg vd ToProxyServer
  | ProxyServerC, DnsResolveFailed vd => send_migrated pkg vd ToProxyServerDnsFailure
  | NeighborhoodC, GossipMessage vd => send_migrated pkg vd ToNeighborhood
  | NeighborhoodC, GossipFailureMessage vd => send_migrated pkg vd ToNeighborhoodFailure
  | _, _ => mret []
  end.

Definition route_data_to_peripheral_component (s : RoutingService) (component : Component)
    (immediate_neighbor_addr : SocketAddr) (live_package : LiveCoresPackage)
    (payer_owns_secret_key : bool) : outcome (list HopperMessage) :=
  p ← extract_expired_package s immediate_neighbor_addr live_package component;
  match p with
  | None => mret []
  | Some pkg => route_expired_package s component pkg payer_owns_secret_key
  end.

Definition route_data_internally (s : RoutingService) (hop : LiveHop)
    (immediate_neighbor_addr : SocketAddr) (live_package : LiveCoresPackage)
    (ibcd_but_data : InboundClientData) : outcome (list HopperMessage) :=
  if decide (hop_component hop = HopperC) then route_data_around_again s live_package ibcd_but_data
  else
    delinquent ← match hop_payer hop with
                 | None => mret false
                 | Some payer => is_delinquent ban_cache payer
                 end;
    if (delinquent : bool) then mret []
    else
      owns ← payer_owns_secret_key hop (cd_digest (rs_main s));
      route_data_to_peripheral_component s (hop_component hop) immediate_neighbor_addr live_package owns.

Definition to_transmit_data_msg (s : RoutingService) (live_package : LiveCoresPackage)
    (last_data : bool) : outcome (result TransmitDataMsg CryptdecError) :=
  r ← into_next_live live_package (rs_main s);
  mret (match r with
        | Err _ => Err (OtherError "Couldn't get next hop and outgoing LCP from incoming LCP")
        | Ok (next_hop, next_live_package) =>
            match encodex (rs_main s) (hop_public_key next_hop) next_live_package with
            | Err _ => Err (OtherError "Couldn't serialize or encrypt outgoing LCP")
            | Ok enc => Ok (mkTransmit (Key (hop_public_key next_hop)) last_data None enc)
            end
        end).

Definition route_data_externally (now : Z) (s : RoutingService) (live_package : LiveCoresPackage)
    (payer_opt : option Payer) (last_data : bool) : outcome (list HopperMessage) :=
  match payer_opt with
  | None => mret []
  | Some payer =>
      owns ← owns_secret_key payer (cd_digest (rs_main s));
      if negb owns then mret []
      else
        delinquent ← is_delinquent ban_cache payer;
        if (delinquent : bool) then mret []
        else
          let report := ToAccountant (mkReport now (payer_wallet payer)
                          (length (lcp_payload live_package)) (per_routing_service s) (per_routing_byte s)) in
          r ← to_transmit_data_msg s live_package last_data;
          mret (match r with
                | Ok transmit_msg => [report; ToDispatcher transmit_msg]
                | Err _ => [report]
                end)
  end.

Definition route_data (now : Z) (s : RoutingService) (sender_addr : SocketAddr) (hop : LiveHop)
    (live_package : LiveCoresPackage) (last_data : bool) (ibcd_but_data : InboundClientData) :
    outcome (list HopperMessage) :=
  if bool_decide (hop_component hop = HopperC) && negb (is_destined_for_here s hop)
  then route_data_externally now s live_package (hop_payer hop) last_data
  else route_data_internally s hop sender_addr live_package ibcd_but_data.

Definition route (now : Z) (s : RoutingService) (ibcd : InboundClientData) :
    outcome (list HopperMessage) :=
  let ibcd_but_data := clone_but_data now ibcd in
  r ← decodex (T := LiveCoresPackage) (rs_main s) (ibcd_data ibcd);
  match r with
  | Err _ => mret []
  | Ok live_package =>
      h ← next_hop (lcp_route live_package) (rs_main s);
      match h with
      | Err _ => mret []
      | Ok hop =>
          route_data now s (client_addr ibcd) hop live_package (ibcd_last_data ibcd) ibcd_but_data
      end
  end.
End Hopper.
