(* ===== verification/HopperFacts.v ===== *)
(** * Facts about the Hopper

    A package that follows a route made by [round_trip] is relayed by every node on
    the way, each of which reports its service once, reaches the exit node's
    ProxyClient, and the answer sent along the remaining route reaches the
    originator's ProxyServer, which finds the route id in it.  No node relays a
    package without a proof of the paying wallet. *)

From S2P Require Import Prelude.
From S2P Require Import NodeAddr.
From S2P Require Import NodeRecord.
From S2P Require Import Gossip.
From S2P Require Import GossipAcceptor.
From S2P Require Import Routing.
From S2P Require Import Sequencing.
From S2P Require Import Cryptde.
From S2P Require Import Routes.
From S2P Require Import Migrations.
From S2P Require Import MigrationsFacts.
From S2P Require Import Payloads.
From S2P Require Import PayloadsFacts.
From S2P Require Import Hopper.
From S2P Require Import SampleCodecs.

Abbreviation node_key s := (cd_public_key (rs_main s)).

Section Journey.
Context `{SignaturesOk} `{KeyOrder} `{Codec Value} `{HH : CodecOk LiveHop} `{HM : CodecOk MessageType}
        `{HL : CodecOk LiveCoresPackage} `{HZ : CodecOk Z}
        `{Payload ClientRequestPayload_0v1} `{Payload ClientResponsePayload_0v1}
        `{Payload DnsResolveFailure_0v1} `{Payload Gossip_0v1} `{Payload GossipFailure_0v1}.
Context `{CryptNetwork member}.
Context (ban_cache : list Wallet) (now : Z) (peer_of : RoutingService → SocketAddr).
Context (secret contract_address : list Z).

Abbreviation wallet := (WalletSecretKey secret).
Abbreviation payer_address := (WalletAddress (secret_address secret)).
Abbreviation route_at := (route ban_cache now).

(** What a node gets from its neighbor. *)
Definition inbound (s : RoutingService) (d : list Z) : InboundClientData :=
  mkIbcd now (peer_of s) None false true None d.

(** A node of the network whose digest is for the contract the payers sign. *)
Definition node_ok (s : RoutingService) : Prop :=
  member (rs_main s) ∧ member (rs_alias s) ∧
  cd_digest (rs_main s) = create_digest (key_data (node_key s)) contract_address.

(** The hop pays the node [s] with the wallet. *)
Definition pays (s : RoutingService) (h : LiveHop) : Prop :=
  ∃ p, hop_payer h = Some p ∧ payer_wallet p = payer_address ∧
    owns_secret_key p (cd_digest (rs_main s)) = Ret true.

Lemma payer_for_pays s :
  node_ok s →
  ∃ p, payer_for (Some wallet) (node_key s) (Some contract_address) = Ret (Some p) ∧
    payer_wallet p = payer_address ∧ owns_secret_key p (cd_digest (rs_main s)) = Ret true.
Proof.
  intros (_ & _ & Hd). destruct (as_payer_owns secret (node_key s) contract_address) as (p & Hp & Hw & Ho).
  exists p. rewrite Hd. split; [|done]. unfold payer_for. cbn [default from_option id]. by rewrite Hp.
Qed.

Lemma lcp_payload_new r payload : lcp_payload (lcp_new r payload) = payload.
Proof. done. Qed.

(** ** Hops along a path: each names the next node and pays the node that reads it. *)
Inductive along : list RoutingService → list LiveHop → Prop :=
| along_one s : along [s] []
| along_cons s s' path h hs :
    hop_public_key h = node_key s' → pays s h → along (s' :: path) hs → along (s :: s' :: path) (h :: hs).

Lemma hops_over_along s path :
  Forall node_ok (s :: path) →
  ∃ hs, hops_over (Some wallet) (Some contract_address) (windows (map (λ s, node_key s) (s :: path))) = Ret hs ∧
    along (s :: path) hs ∧ Forall (λ h, hop_component h = HopperC) hs.
Proof.
  revert s; induction path as [|s' path IH]; intros s Hok; [by exists []; repeat constructor|].
  inversion Hok as [|? ? Hs Hok']; subst. destruct (IH s' Hok') as (hs & Hhs & Ha & Hc).
  destruct (payer_for_pays s Hs) as (p & Hp & Hw & Ho).
  exists (mkLiveHop (node_key s') (Some p) HopperC :: hs).
  change (windows (map (λ s, node_key s) (s :: s' :: path))) with
    ((node_key s, node_key s') :: windows (map (λ s, node_key s) (s' :: path))).
  cbn [hops_over]. rewrite Hp. cbn [mbind outcome_bind]. rewrite Hhs. split; [done|].
  split; [|by constructor]. constructor; [done| by exists p |done].
Qed.

Lemma hops_back_along c s path :
  Forall node_ok (s :: path) →
  ∃ hs, hops_back (Some wallet) (Some contract_address) c (windows (map (λ s, node_key s) (s :: path))) = Ret hs ∧
    along (s :: path) hs ∧
    match hs with [] => True | h :: hs => hop_component h = c ∧ Forall (λ h, hop_component h = HopperC) hs end.
Proof.
  revert c s; induction path as [|s' path IH]; intros c s Hok; [by exists []; repeat constructor|].
  inversion Hok as [|? ? Hs Hok']; subst. destruct (IH HopperC s' Hok') as (hs & Hhs & Ha & Hc).
  destruct (payer_for_pays s Hs) as (p & Hp & Hw & Ho).
  exists (mkLiveHop (node_key s') (Some p) c :: hs).
  change (windows (map (λ s, node_key s) (s :: s' :: path))) with
    ((node_key s, node_key s') :: windows (map (λ s, node_key s) (s' :: path))).
  cbn [hops_back]. rewrite Hp. cbn [mbind outcome_bind]. rewrite Hhs. split; [done|].
  split; [constructor; [done|by exists p|done]|]. split; [done|].
  destruct hs as [|h hs]; [done|]. destruct Hc. by constructor.
Qed.

(** The last node of the path that starts at [s]. *)
Fixpoint end_of (s : RoutingService) (path : list RoutingService) : RoutingService :=
  match path with [] => s | s' :: path => end_of s' path end.

(** The encrypted hops, and who opens them. *)
Inductive opened : list RoutingService → list LiveHop → list CryptData → Prop :=
| opened_one s : opened [s] [] []
| opened_cons s s' path h hs d ds :
    hop_decode (rs_main s) d = Ret (Ok h) → opened (s' :: path) hs ds →
    opened (s :: s' :: path) (h :: hs) (d :: ds).

Lemma encode_hops_along c s path hs hs' ds' :
  member c → Forall node_ok (s :: path) → along (s :: path) hs →
  encode_hops hs' (node_key (end_of s path)) c = Ok ds' →
  ∃ ds, encode_hops (hs ++ hs') (node_key s) c = Ok (ds ++ ds') ∧ opened (s :: path) hs ds.
Proof.
  intros Hc Hok Ha. remember (s :: path) as all eqn:E. revert s path E Hok.
  induction Ha as [s|s s' path h hs Hk Hp Ha IH]; intros ? ? [= <- <-] Hok Hl.
  { exists []. split; [done|constructor]. }
  inversion Hok as [|? ? Hs Hok']; subst.
  destruct (IH s' path eq_refl Hok' Hl) as (ds & Hds & Ho).
  destruct Hs as (Hm & _ & _).
  destruct (encodex_roundtrip c (rs_main s) h Hc Hm) as (d & Hd & Hr).
  exists (d :: ds). cbn [encode_hops app]. unfold hop_encode. rewrite Hd, Hk, Hds.
  split; [done|]. by constructor.
Qed.

(** ** The way of a package *)
(** The bytes [d] that arrive at the first node of the path make every node before
    the last one report its service and send bytes on to the next node, until [d']
    arrives at the last one. *)
Inductive trip : list RoutingService → list Z → list ReportRoutingServiceProvided → list Z → Prop :=
| trip_here s d : trip [s] d [] d
| trip_next s s' path d r d' rs d'' :
    route_at s (inbound s d) =
      Ret [ToAccountant r; ToDispatcher (mkTransmit (Key (node_key s')) false None d')] →
    trip (s' :: path) d' rs d'' → trip (s :: s' :: path) d (r :: rs) d''.

(** No node is its own successor: the package does not go around again. *)
Inductive steps_out : list RoutingService → Prop :=
| steps_out_one s : steps_out [s]
| steps_out_cons s s' path :
    node_key s' ≠ node_key s → steps_out (s' :: path) → steps_out (s :: s' :: path).

Definition report_of (payload : CryptData) (s : RoutingService) : ReportRoutingServiceProvided :=
  mkReport now payer_address (length payload) (per_routing_service s) (per_routing_byte s).

Lemma pays_not_delinquent p :
  payer_address ∉ ban_cache → payer_wallet p = payer_address →
  is_delinquent ban_cache p = Ret false.
Proof.
  intros Hb Hw. unfold is_delinquent. rewrite Hw. cbn [as_address_wallet wallet_address].
  cbn. by rewrite bool_decide_eq_false_2.
Qed.

(** One relay: the hop is taken off, the node reports, the rest is sent on. *)
Lemma relay_step s s' h d ds payload data :
  payer_address ∉ ban_cache → node_ok s → node_ok s' → node_key s' ≠ node_key s →
  hop_decode (rs_main s) d = Ret (Ok h) → hop_component h = HopperC →
  hop_public_key h = node_key s' → pays s h →
  decodex (rs_main s) data = Ret (Ok (lcp_new (mkRoute (d :: ds)) payload)) →
  ∃ data' g,
    route_at s (inbound s data) =
      Ret [ToAccountant (report_of payload s); ToDispatcher (mkTransmit (Key (node_key s')) false None data')] ∧
    decodex (rs_main s') data' = Ret (Ok (lcp_new (mkRoute (ds ++ [g])) payload)).
Proof.
  intros Hb (Hm & _ & _) (Hm' & _ & _) Hne Hd Hc Hk (p & Hp & Hw & Ho) Hdata.
  set (g := cd_random (rs_main s) (length d)).
  destruct (encodex_roundtrip (rs_main s) (rs_main s') (lcp_new (mkRoute (ds ++ [g])) payload) Hm Hm')
    as (data' & He & Hr).
  exists data', g. split; [|done].
  unfold route. cbn [ibcd_data inbound client_addr ibcd_last_data]. rewrite Hdata.
  cbn [mbind outcome_bind]. unfold next_hop. cbn [lcp_route lcp_new hops]. rewrite Hd.
  cbn [mbind outcome_bind]. unfold route_data, is_destined_for_here.
  rewrite Hc, Hk, bool_decide_eq_true_2 by done. rewrite bool_decide_eq_false_2 by done. cbn [andb negb].
  unfold route_data_externally. rewrite Hp, Ho. cbn [mbind outcome_bind negb].
  rewrite (pays_not_delinquent p) by done. cbn [mbind outcome_bind].
  unfold to_transmit_data_msg, into_next_live, shift. cbn [lcp_route lcp_new hops].
  rewrite Hd. cbn [mbind outcome_bind mret outcome_ret fst snd].
  rewrite !lcp_payload_new. fold g. rewrite Hk, He. by rewrite Hw.
Qed.

(** A package goes along a whole path. *)
Lemma trip_along s path hs ds tail payload data :
  payer_address ∉ ban_cache → Forall node_ok (s :: path) → steps_out (s :: path) →
  along (s :: path) hs → Forall (λ h, hop_component h = HopperC) hs → opened (s :: path) hs ds →
  decodex (rs_main s) data = Ret (Ok (lcp_new (mkRoute (ds ++ tail)) payload)) →
  ∃ data' g,
    trip (s :: path) data (report_of payload <$> removelast (s :: path)) data' ∧
    decodex (rs_main (end_of s path)) data' = Ret (Ok (lcp_new (mkRoute (tail ++ g)) payload)).
Proof.
  intros Hb. revert s hs ds tail data; induction path as [|s' path IH];
    intros s hs ds tail data Hok Hso Ha Hc Hop Hdata.
  { inversion Ha; subst. inversion Hop; subst. exists data, []. rewrite app_nil_r.
    split; [constructor|done]. }
  inversion Ha as [|? ? ? h hs' Hk Hp Ha']; subst. inversion Hop as [|? ? ? ? ? d ds' Hd Hop']; subst.
  inversion Hc as [|? ? Hch Hc']; subst. inversion Hso as [|? ? ? Hne Hso']; subst.
  inversion Hok as [|? ? Hs Hok']; subst. pose proof (Forall_inv Hok') as Hs'.
  destruct (relay_step s s' h d (ds' ++ tail) payload data) as (data1 & g1 & Hroute & Hdata1); try done.
  rewrite <-app_assoc in Hdata1.
  destruct (IH s' hs' ds' (tail ++ [g1]) data1) as (data' & g & Ht & Hd'); try done.
  exists data', (g1 :: g). rewrite <-app_assoc in Hd'. split; [|exact Hd'].
  change (removelast (s :: s' :: path)) with (s :: removelast (s' :: path)). rewrite fmap_cons.
  by eapply trip_next.
Qed.

(** A package leaves the node at which its first hop is encrypted. *)
Lemma consume_leaves s s' h d ds payload :
  member (rs_main s) → member (rs_main s') → node_key s' ≠ node_key s →
  hop_decode (rs_main s) d = Ret (Ok h) → hop_public_key h = node_key s' →
  ∃ data g,
    consume now (rs_main s) (mkIncipient (mkRoute (d :: ds)) payload) =
      Ret [ToDispatcher (mkTransmit (Key (node_key s')) false None data)] ∧
    decodex (rs_main s') data = Ret (Ok (lcp_new (mkRoute (ds ++ [g])) payload)).
Proof.
  intros Hm Hm' Hne Hd Hk.
  set (g := cd_random (rs_main s) (length d)).
  destruct (encodex_roundtrip (rs_main s) (rs_main s') (lcp_new (mkRoute (ds ++ [g])) payload) Hm Hm')
    as (data & He & Hr).
  exists data, g. split; [|done]. unfold consume, from_incipient, shift. cbn [inc_route hops inc_payload].
  rewrite Hd. cbn [mbind outcome_bind mret outcome_ret fst snd]. fold g. rewrite Hk, He.
  by rewrite decide_False.
Qed.

(** A package arrives where its hop names a component other than the Hopper. *)
Lemma arrival s h d ds m payload data :
  payer_address ∉ ban_cache → pays s h → hop_decode (rs_main s) d = Ret (Ok h) →
  hop_component h ≠ HopperC →
  decodex (match hop_component h with ProxyServerC => rs_alias s | _ => rs_main s end) payload = Ret (Ok m) →
  decodex (rs_main s) data = Ret (Ok (lcp_new (mkRoute (d :: ds)) payload)) →
  route_at s (inbound s data) =
    route_expired_package s (hop_component h)
      (mkExpired _ (peer_of s) (Some payer_address) (mkRoute (d :: ds)) m (length payload)) true.
Proof.
  intros Hb (p & Hp & Hw & Ho) Hd Hc Hm Hdata.
  unfold route. cbn [ibcd_data inbound client_addr ibcd_last_data]. rewrite Hdata.
  cbn [mbind outcome_bind]. unfold next_hop. cbn [lcp_route lcp_new hops]. rewrite Hd.
  cbn [mbind outcome_bind]. unfold route_data. rewrite bool_decide_eq_false_2 by done. cbn [andb].
  unfold route_data_internally. rewrite decide_False by done. rewrite Hp.
  rewrite (pays_not_delinquent p) by done. cbn [mbind outcome_bind].
  unfold payer_owns_secret_key. rewrite Hp, Ho. cbn [mbind outcome_bind].
  unfold route_data_to_peripheral_component, extract_expired_package, to_expired, next_hop.
  cbn [lcp_route lcp_new hops]. rewrite Hd, lcp_payload_new. cbn [mbind outcome_bind]. rewrite Hm.
  cbn [mbind outcome_bind mret outcome_ret]. by rewrite Hp; cbn [fmap option_fmap option_map]; rewrite Hw.
Qed.

(** ** Routes *)
Abbreviation keys_of := (map (λ s, node_key s)).

Lemma last_keys s path : last (keys_of (s :: path)) = Some (node_key (end_of s path)).
Proof. revert s; induction path as [|s' path IH]; intros s; [done|]. apply (IH s'). Qed.

(** The parts of the route that [round_trip] makes, and who opens them. *)
Inductive round_trip_parts (o : RoutingService) (over back : list RoutingService)
    (over_to back_to : Component) (id : Z) : Route → Prop :=
| round_trip_made over_hops over_enc back_hops back_enc last_hop last_enc id_enc :
    along (o :: over) over_hops →
    Forall (λ h, hop_component h = HopperC) over_hops →
    opened (o :: over) over_hops over_enc →
    along (end_of o over :: back) back_hops →
    match back_hops with
    | [] => True
    | h :: hs => hop_component h = over_to ∧ Forall (λ h, hop_component h = HopperC) hs
    end →
    opened (end_of o over :: back) back_hops back_enc →
    hop_decode (rs_main (end_of (end_of o over) back)) last_enc = Ret (Ok last_hop) →
    hop_component last_hop = back_to →
    pays (end_of (end_of o over) back) last_hop →
    decodex (rs_main o) id_enc = Ret (Ok id) →
    round_trip_parts o over back over_to back_to id (mkRoute (over_enc ++ back_enc ++ [last_enc; id_enc])).

Lemma end_of_ok s path : Forall node_ok (s :: path) → node_ok (end_of s path).
Proof.
  revert s; induction path as [|s' path IH]; intros s Hok; [by apply Forall_inv in Hok|].
  apply IH. by inversion Hok.
Qed.

Lemma round_trip_construct o over back over_to back_to id :
  Forall node_ok (o :: over) → Forall node_ok back →
  ∃ route,
    round_trip (mkRouteSegment (keys_of (o :: over)) over_to)
      (mkRouteSegment (keys_of (end_of o over :: back)) back_to)
      (rs_main o) (Some wallet) id (Some contract_address) = Ret (Ok route) ∧
    round_trip_parts o over back over_to back_to id route.
Proof.
  intros Hover Hback. set (x := end_of o over). set (b := end_of x back).
  assert (node_ok x) as Hx by by apply end_of_ok.
  assert (Forall node_ok (x :: back)) as Hxback by by constructor.
  assert (node_ok b) as Hb by by apply end_of_ok.
  pose proof (Forall_inv Hover) as Ho. assert (member (rs_main o)) as Hmo by apply Ho.
  destruct (hops_over_along o over Hover) as (hs & Hhs & Ha & Hc).
  destruct (hops_back_along over_to x back Hxback) as (bs & Hbs & Hba & Hbc).
  destruct (payer_for_pays b Hb) as (p & Hp & Hw & Hown).
  set (h := mkLiveHop EMPTY_KEY (Some p) back_to).
  destruct (encodex_roundtrip (rs_main o) (rs_main b) h Hmo (proj1 Hb)) as (d & Hd & Hdr).
  destruct (encodex_roundtrip (rs_main o) (rs_main o) id Hmo Hmo) as (i & Hi & Hir).
  destruct (encode_hops_along (rs_main o) x back bs [h] [d]) as (ds2 & Hds2 & Hop2); try done.
  { cbn [encode_hops]. unfold hop_encode. fold b. by rewrite Hd. }
  destruct (encode_hops_along (rs_main o) o over hs (bs ++ [h]) (ds2 ++ [d])) as (ds1 & Hds1 & Hop1); try done.
  exists (mkRoute (ds1 ++ ds2 ++ [d; i])). split; [|by eapply round_trip_made; try done; exists p].
  unfold round_trip, construct, validate_route_segments. cbn [segment_keys recipient].
  rewrite last_keys. cbn [map]. fold x. rewrite decide_False by tauto.
  rewrite bool_decide_eq_false_2 by done. unfold over_segment. cbn [map] in Hhs. rewrite Hhs.
  cbn [mbind outcome_bind mret outcome_ret]. unfold back_segment. cbn [segment_keys recipient].
  cbn [map] in Hbs. rewrite Hbs. cbn [mbind outcome_bind].
  change (last (node_key x :: keys_of back)) with (last (keys_of (x :: back))). rewrite last_keys. fold b.
  rewrite Hp. cbn [mbind outcome_bind mret outcome_ret head expect]. unfold hops_to_route. fold h.
  rewrite Hds1. unfold encrypt_return_route_id. rewrite Hi. cbn [mbind outcome_bind mret outcome_ret].
  by rewrite <-!app_assoc.
Qed.

(** ** The round trip *)
(** The package [inc] leaves [s] for [next], every node on the path before the last one
    relays it and reports its service, and [data'] arrives at the last one. *)
Definition sent_along (s next : RoutingService) (path : list RoutingService)
    (inc : IncipientCoresPackage) (data' : list Z) : Prop :=
  ∃ data,
    consume now (rs_main s) inc = Ret [ToDispatcher (mkTransmit (Key (node_key next)) false None data)] ∧
    trip (next :: path) data (report_of (inc_payload inc) <$> removelast (next :: path)) data'.

Lemma send_along s next path h hs d ds tail payload :
  payer_address ∉ ban_cache → Forall node_ok (s :: next :: path) → steps_out (s :: next :: path) →
  along (s :: next :: path) (h :: hs) → Forall (λ h, hop_component h = HopperC) hs →
  opened (s :: next :: path) (h :: hs) (d :: ds) →
  ∃ data' g,
    sent_along s next path (mkIncipient (mkRoute (d :: ds ++ tail)) payload) data' ∧
    decodex (rs_main (end_of next path)) data' = Ret (Ok (lcp_new (mkRoute (tail ++ g)) payload)).
Proof.
  intros Hb Hok Hso Ha Hc Hop. inversion Ha as [|? ? ? ? ? Hk _ Ha']; subst.
  inversion Hop as [|? ? ? ? ? ? ? Hd Hop']; subst. inversion Hso as [|? ? ? Hne Hso']; subst.
  inversion Hok as [|? ? Hs Hok']; subst. pose proof (Forall_inv Hok') as Hn.
  destruct (consume_leaves s next h d (ds ++ tail) payload) as (data & g1 & Hcons & Hdata);
    [apply Hs|apply Hn|done..|].
  rewrite <-app_assoc in Hdata.
  destruct (trip_along next path hs ds (tail ++ [g1]) payload data) as (data' & g & Ht & Hd'); try done.
  exists data', (g1 :: g). rewrite <-app_assoc in Hd'. split; [|exact Hd']. by exists data.
Qed.

Lemma payload_made {T} `{Payload T} `{!CodecOk T} (mk : VersionedData → MessageType) c r (d : T) :
  member c → member r →
  ∃ vd payload, versioned_from d = Ret vd ∧ try_from_versioned vd = Ret (Ok d) ∧
    encodex c (cd_public_key r) (mk vd) = Ok payload ∧ decodex r payload = Ret (Ok (mk vd)).
Proof.
  intros Hc Hr. destruct (versioned_roundtrip d) as (vd & Hvd & Htry).
  destruct (encodex_roundtrip c r (mk vd) Hc Hr) as (payload & He & Hd). by exists vd, payload.
Qed.

Context `{HRq : !CodecOk ClientRequestPayload_0v1} `{HRs : !CodecOk ClientResponsePayload_0v1}.

(** A request that [o] sends along [route], by way of [s1] and the nodes [over], reaches
    the ProxyClient of the last of them, with the paying wallet; the response that this
    node sends along the route that came with the request, by way of [b1] and the nodes
    [back], encrypted to the alias key of [o], reaches the ProxyServer of [o], and the
    rest of the route holds [id]. *)
Definition round_trip_works (o s1 : RoutingService) (over : list RoutingService) (b1 : RoutingService)
    (back : list RoutingService) (id : Z) (route : Route) : Prop :=
  let x := end_of s1 over in
  ∀ request response, ∃ vd inc data pkg vd' inc' data' pkg' hop rest,
    versioned_from request = Ret vd ∧
    incipient_new (rs_main o) route (ClientRequest vd) (node_key x) = Ok inc ∧
    sent_along o s1 over inc data ∧
    route_at x (inbound x data) = Ret [ToProxyClient pkg] ∧
    ex_payload _ pkg = request ∧ paying_wallet _ pkg = Some payer_address ∧
    versioned_from response = Ret vd' ∧
    incipient_new (rs_main x) (remaining_route _ pkg) (ClientResponse vd') (cd_public_key (rs_alias o)) = Ok inc' ∧
    sent_along x b1 back inc' data' ∧
    route_at o (inbound o data') = Ret [ToProxyServer pkg'] ∧
    ex_payload _ pkg' = response ∧
    shift (remaining_route _ pkg') (rs_main o) = Ret (Ok hop, rest) ∧
    route_id rest (rs_main o) = Ret (Ok id).

Lemma round_trip_route_works o s1 over b1 back id :
  let x := end_of s1 over in
  payer_address ∉ ban_cache →
  Forall node_ok (o :: s1 :: over) → Forall node_ok (b1 :: back) →
  steps_out (o :: s1 :: over) → steps_out (x :: b1 :: back) → end_of b1 back = o →
  proxy_client_running x = true →
  ∃ route,
    round_trip (mkRouteSegment (keys_of (o :: s1 :: over)) ProxyClientC)
      (mkRouteSegment (keys_of (x :: b1 :: back)) ProxyServerC)
      (rs_main o) (Some wallet) id (Some contract_address) = Ret (Ok route) ∧
    round_trip_works o s1 over b1 back id route.
Proof.
  intros x Hb Hover Hback Hso Hsb Hend Hpc.
  assert (node_ok o) as Ho by by apply Forall_inv in Hover.
  assert (node_ok x) as Hx by (apply end_of_ok; by inversion Hover).
  destruct (round_trip_construct o (s1 :: over) (b1 :: back) ProxyClientC ProxyServerC id Hover Hback)
    as (route & Hroute & Hparts). fold x in Hroute.
  destruct Hparts as [over_hops over_enc back_hops back_enc last_hop last_enc id_enc
    Ha1 Hc1 Hop1 Ha2 Hc2 Hop2 Hlast Hlc Hlp Hid].
  change (end_of o (s1 :: over)) with x in *. change (end_of x (b1 :: back)) with (end_of b1 back) in *.
  rewrite Hend in Hlast, Hlp.
  inversion Ha1 as [|? ? ? h1 hs1 _ _ _]; subst. inversion Hop1 as [|? ? ? ? ? d1 ds1 _ _]; subst.
  inversion Ha2 as [|? ? ? h2 hs2 _ Hp2 _]; subst. inversion Hop2 as [|? ? ? ? ? d2 ds2 Hd2 _]; subst.
  destruct Hc2 as [Hc2 Hcs2]. eexists. split; [exact Hroute|].
  unfold round_trip_works. cbv zeta. fold x. intros request response.
  destruct (payload_made ClientRequest (rs_main (end_of b1 back)) (rs_main x) request) as
    (vd & payload & Hvd & Htry & He & Hd); [apply Ho|apply Hx|].
  destruct (payload_made ClientResponse (rs_main x) (rs_alias (end_of b1 back)) response) as
    (vd' & payload' & Hvd' & Htry' & He' & Hd'); [apply Hx|apply Ho|].
  destruct (send_along (end_of b1 back) s1 over h1 hs1 d1 ds1 ((d2 :: ds2) ++ [last_enc; id_enc]) payload)
    as (data & g & Hsent & Hdata); try done; [by inversion Hc1|].
  rewrite <-app_assoc in Hdata.
  destruct (send_along x b1 back h2 hs2 d2 ds2 ([last_enc; id_enc] ++ g) payload')
    as (data' & g' & Hsent' & Hdata'); try done; [by constructor|].
  eexists vd, _, data, _, vd', _, data', _, last_hop, _. split; [done|]. unfold incipient_new. rewrite He. split; [done|].
  split; [exact Hsent|]. split.
  { rewrite (arrival x h2 d2 (ds2 ++ [last_enc; id_enc] ++ g) (ClientRequest vd) payload);
      [|done|done|done|by rewrite Hc2|by rewrite Hc2|exact Hdata].
    rewrite Hc2. unfold route_expired_package. cbn [ex_payload]. rewrite orb_true_r, Hpc.
    unfold send_migrated. rewrite Htry. reflexivity. }
  split; [done|]. split; [done|]. split; [done|].
  unfold with_payload. cbn [remaining_route immediate_neighbor paying_wallet payload_len].
  rewrite He'. split; [done|]. split; [exact Hsent'|]. split.
  { rewrite (arrival (end_of b1 back) last_hop last_enc (id_enc :: (g ++ g')) (ClientResponse vd') payload');
      [|done|done|done|by rewrite Hlc|by rewrite Hlc|exact Hdata'].
    rewrite Hlc. unfold route_expired_package. cbn [ex_payload]. unfold send_migrated.
    rewrite Htry'. reflexivity. }
  split; [done|]. unfold with_payload, shift. cbn [remaining_route hops]. rewrite Hlast.
  split; [reflexivity|]. unfold route_id. cbn [hops app]. by rewrite Hid.
Qed.

(** A round trip works.  Along a route made by [round_trip], paid by a wallet that
    is not banned, a client request leaves the originator, is relayed by every node on
    the way, each of which reports its service for the payload exactly once, and
    reaches the exit node's ProxyClient with the paying wallet; the response, sent
    along the route that came with the request and encrypted to the originator's alias
    key, reaches the originator's ProxyServer in the same way, and the rest of the
    route holds the return route id. *)
Theorem round_trip_delivers o s1 over b1 back id :
  let x := end_of s1 over in
  payer_address ∉ ban_cache →
  Forall node_ok (o :: s1 :: over) → Forall node_ok (b1 :: back) →
  steps_out (o :: s1 :: over) → steps_out (x :: b1 :: back) → end_of b1 back = o →
  proxy_client_running x = true →
  ∃ route,
    round_trip (mkRouteSegment (keys_of (o :: s1 :: over)) ProxyClientC)
      (mkRouteSegment (keys_of (x :: b1 :: back)) ProxyServerC)
      (rs_main o) (Some wallet) id (Some contract_address) = Ret (Ok route) ∧
    round_trip_works o s1 over b1 back id route.
Proof. apply round_trip_route_works. Qed.

(** ** Gossip: one hop to a neighbor, without payment *)
Context `{HG : !CodecOk Gossip_0v1}.

Lemma gossip_hop_delivers s s' gossip :
  member (rs_main s) → member (rs_main s') → node_key s' ≠ node_key s →
  ∃ route vd inc data pkg,
    one_way (mkRouteSegment [node_key s; node_key s'] NeighborhoodC) (rs_main s) None None = Ret (Ok route) ∧
    versioned_from gossip = Ret vd ∧
    incipient_new (rs_main s) route (GossipMessage vd) (node_key s') = Ok inc ∧
    consume now (rs_main s) inc = Ret [ToDispatcher (mkTransmit (Key (node_key s')) false None data)] ∧
    route_at s' (inbound s' data) = Ret [ToNeighborhood pkg] ∧ ex_payload _ pkg = gossip.
Proof.
  intros Hm Hm' Hne.
  set (h1 := mkLiveHop (node_key s') None HopperC). set (h2 := mkLiveHop EMPTY_KEY None NeighborhoodC).
  destruct (encodex_roundtrip (rs_main s) (rs_main s) h1 Hm Hm) as (d1 & He1 & Hd1).
  destruct (encodex_roundtrip (rs_main s) (rs_main s') h2 Hm Hm') as (d2 & He2 & Hd2).
  destruct (payload_made GossipMessage (rs_main s) (rs_main s') gossip Hm Hm') as
    (vd & payload & Hvd & Htry & He & Hd).
  destruct (consume_leaves s s' h1 d1 [d2] payload) as (data & g & Hcons & Hdata); try done.
  eexists (mkRoute [d1; d2]), vd, _, data, _. split.
  { unfold one_way, construct. cbn [validate_route_segments segment_keys last recipient].
    rewrite bool_decide_eq_true_2 by done. unfold over_segment.
    cbn [windows hops_over payer_for mbind outcome_bind mret outcome_ret last app back_segment head expect].
    unfold hops_to_route. cbn [encode_hops]. unfold hop_encode. fold h1 h2.
    rewrite He1. change (hop_public_key h1) with (node_key s'). by rewrite He2. }
  split; [done|]. unfold incipient_new. rewrite He. split; [done|]. split; [exact Hcons|]. split; [|shelve].
  unfold route. cbn [ibcd_data inbound client_addr ibcd_last_data]. rewrite Hdata.
  cbn [mbind outcome_bind]. unfold next_hop. cbn [lcp_route lcp_new hops app].
  change (hop_decode (rs_main s') d2) with (decodex (T := LiveHop) (rs_main s') d2). rewrite Hd2.
  cbn [mbind outcome_bind]. unfold route_data. rewrite bool_decide_eq_false_2 by done. cbn [andb].
  unfold route_data_internally. rewrite decide_False by done. cbn [hop_payer h2 mbind outcome_bind mret outcome_ret].
  cbn [payer_owns_secret_key hop_payer h2 mbind outcome_bind mret outcome_ret].
  unfold route_data_to_peripheral_component, extract_expired_package, to_expired, next_hop.
  cbn [lcp_route lcp_new hops hop_component h2]. change (hop_decode (rs_main s') d2) with (decodex (T := LiveHop) (rs_main s') d2).
  rewrite Hd2. cbn [mbind outcome_bind]. rewrite lcp_payload_new, Hd. cbn [mbind outcome_bind mret outcome_ret].
  unfold route_expired_package. cbn [ex_payload]. unfold send_migrated. rewrite Htry. reflexivity.
  Unshelve. done.
Qed.
End Journey.

(** ** Service only for those who pay *)
Section Payment.
Context `{Signatures} `{KeyOrder} `{Codec Value} `{Codec LiveHop} `{Codec MessageType}
        `{Codec LiveCoresPackage} `{Codec Z}
        `{Payload ClientRequestPayload_0v1} `{Payload ClientResponsePayload_0v1}
        `{Payload DnsResolveFailure_0v1} `{Payload Gossip_0v1} `{Payload GossipFailure_0v1}.
Context (ban_cache : list Wallet) (now : Z) (s : RoutingService).

(** The payer proves the ownership of a wallet that is not banned. *)
Definition good_payer (p : Payer) : Prop :=
  owns_secret_key p (cd_digest (rs_main s)) = Ret true ∧ is_delinquent ban_cache p = Ret false.

(** The package that came with the data, and the hop of its route that is addressed to
    this node. *)
Definition arrived (ibcd : InboundClientData) (lcp : LiveCoresPackage) (hop : LiveHop) : Prop :=
  decodex (T := LiveCoresPackage) (rs_main s) (ibcd_data ibcd) = Ret (Ok lcp) ∧
  next_hop (lcp_route lcp) (rs_main s) = Ret (Ok hop).

(** This hop of the package holds the payer [p]. *)
Definition paid_for (ibcd : InboundClientData) (lcp : LiveCoresPackage) (p : Payer) : Prop :=
  ∃ hop, arrived ibcd lcp hop ∧ hop_payer hop = Some p ∧ good_payer p.

Definition sends_paid (ibcd : InboundClientData) (msgs : list HopperMessage) : Prop :=
  (∀ m, ToDispatcher m ∈ msgs →
     ∃ lcp p, paid_for ibcd lcp p ∧
       to_transmit_data_msg s lcp (ibcd_last_data ibcd) = Ret (Ok m) ∧
       msgs = [ToAccountant (mkReport now (payer_wallet p) (length (lcp_payload lcp))
                               (per_routing_service s) (per_routing_byte s));
               ToDispatcher m]) ∧
  (∀ pkg, ToProxyClient pkg ∈ msgs → is_decentralized s = true →
     ∃ lcp p, paid_for ibcd lcp p ∧ msgs = [ToProxyClient pkg] ∧
       paying_wallet _ pkg = Some (payer_wallet p) ∧ payload_len _ pkg = length (lcp_payload lcp)).

(** Messages that need no payer. *)
Definition free_message (m : HopperMessage) : Prop :=
  match m with ToDispatcher _ => False | ToProxyClient _ => False | _ => True end.

Lemma free_sends_paid ibcd msgs : Forall free_message msgs → sends_paid ibcd msgs.
Proof.
  intros Hf. rewrite Forall_forall in Hf. split.
  - intros m Hm%Hf. done.
  - intros m Hm%Hf. done.
Qed.

Ltac nothing_sent Hr := injection Hr as <-; by apply free_sends_paid.

Lemma route_data_externally_paid ibcd lcp hop msgs :
  arrived ibcd lcp hop →
  route_data_externally ban_cache now s lcp (hop_payer hop) (ibcd_last_data ibcd) = Ret msgs → sends_paid ibcd msgs.
Proof.
  intros Harr. unfold route_data_externally.
  destruct (hop_payer hop) as [p|] eqn:Ep; [|intros [= <-]; by apply free_sends_paid].
  intros (owns & Ho & Hr)%bind_ret. destruct owns; simpl in Hr; [|nothing_sent Hr].
  apply bind_ret in Hr as (del & Hd & Hr). destruct del; [nothing_sent Hr|].
  apply bind_ret in Hr as (r & Htx & Hr). injection Hr as <-.
  destruct r as [tx|e]; [|apply free_sends_paid; repeat constructor].
  split.
  - intros m [?|[= <-]%list_elem_of_singleton]%elem_of_cons; [done|]. exists lcp, p.
    split_and!; [|done|done]. by exists hop.
  - intros pkg [?|[=]%list_elem_of_singleton]%elem_of_cons; done.
Qed.

Lemma send_migrated_free {T} `{Payload T} ibcd pkg vd (to : ExpiredCoresPackage T → HopperMessage) msgs :
  (∀ x, free_message (to x)) → send_migrated pkg vd to = Ret msgs → sends_paid ibcd msgs.
Proof.
  intros Hto (r & _ & Hr)%bind_ret. injection Hr as <-. apply free_sends_paid.
  destruct r; repeat constructor. apply Hto.
Qed.

Lemma peripheral_paid ibcd hop addr lcp owns msgs d :
  arrived ibcd lcp hop →
  payer_owns_secret_key hop (cd_digest (rs_main s)) = Ret owns →
  match hop_payer hop with None => mret false | Some p => is_delinquent ban_cache p end = Ret d → d = false →
  route_data_to_peripheral_component s (hop_component hop) addr lcp owns = Ret msgs → sends_paid ibcd msgs.
Proof.
  intros Harr Hown Hdel -> (o & Ho & Hr)%bind_ret.
  destruct o as [pkg|]; [|nothing_sent Hr].
  unfold extract_expired_package, to_expired in Ho. rewrite (proj2 Harr) in Ho. cbn [mbind outcome_bind] in Ho.
  apply bind_ret in Ho as (r & Hr' & Ho). apply bind_ret in Hr' as (m & _ & Hm). injection Hm as <-.
  destruct m as [m|e]; [|done]. injection Ho as <-.
  unfold route_expired_package in Hr. cbn [ex_payload] in Hr.
  destruct (hop_component hop), m; try nothing_sent Hr;
    try (by eapply send_migrated_free in Hr).
  destruct (negb (is_decentralized s) || owns) eqn:E; [|nothing_sent Hr].
  destruct (proxy_client_running s); [|nothing_sent Hr].
  apply bind_ret in Hr as (r & _ & Hr). injection Hr as <-.
  destruct r as [request|e]; [|by apply free_sends_paid]. split.
  - intros m [=]%list_elem_of_singleton.
  - intros pkg [= ->]%list_elem_of_singleton Hdec. rewrite Hdec in E. simpl in E. subst owns.
    unfold payer_owns_secret_key in Hown. destruct (hop_payer hop) as [p|] eqn:Ep; [|done].
    exists lcp, p. split_and!; try done. by exists hop.
Qed.

Lemma route_sends_paid ibcd msgs :
  route ban_cache now s ibcd = Ret msgs → sends_paid ibcd msgs.
Proof.
  unfold route. intros (r & Hlcp & Hr)%bind_ret.
  destruct r as [lcp|e]; [|nothing_sent Hr].
  apply bind_ret in Hr as (h & Hh & Hr).
  destruct h as [hop|e]; [|nothing_sent Hr].
  assert (arrived ibcd lcp hop) as Harr by done.
  unfold route_data in Hr. destruct (_ && _); [by eapply route_data_externally_paid|].
  unfold route_data_internally in Hr. case_decide.
  - unfold route_data_around_again in Hr. apply bind_ret in Hr as (r & _ & Hr).
    destruct r as [[? next]|e]; [|nothing_sent Hr].
    apply bind_ret in Hr as (payload & _ & Hr). injection Hr as <-.
    apply free_sends_paid. repeat constructor.
  - apply bind_ret in Hr as (del & Hdel & Hr).
    destruct del; [nothing_sent Hr|].
    apply bind_ret in Hr as (owns & Hown & Hr). by eapply peripheral_paid.
Qed.

End Payment.

(** ** A concrete network *)
Module Samples.
(** Signatures that show the secret they were made with. *)
#[local] Instance shown_signatures : Signatures := {|
  Signature := list Z * list Z;
  EthPublicKey := list Z;
  secret_address k := k;
  public_address k := k;
  sign_with k msg := Ok (k, msg);
  recover sg msg := if decide (sg.2 = msg) then Ok sg.1 else Err "wrong message";
  eth_verify k sg msg := Ok (bool_decide (sg = (k, msg)));
  eth_address k := k;
  keccak256 b := b
|}.

#[local] Instance shown_signatures_ok : SignaturesOk.
Proof.
  constructor; simpl.
  - intros k msg. by exists (k, msg).
  - intros k msg sg [= <-]. exists k. simpl. rewrite decide_True, bool_decide_eq_true_2 by done. done.
Qed.

#[local] Instance Component_countable : Countable Component :=
  inj_countable component_index component_visit_u8 (λ c, match c with NeighborhoodC => eq_refl
    | HopperC => eq_refl | ProxyServerC => eq_refl | ProxyClientC => eq_refl end).

#[local] Instance Payer_eq_dec : EqDecision Payer.
Proof.
  intros [w p] [w' p']. destruct (decide (w = w')), (decide ((p : list Z * list Z) = p'));
    [left; congruence|right; congruence..].
Defined.
#[local] Instance Payer_countable : Countable Payer :=
  inj_countable' (λ p, (payer_wallet p, (proof p : list Z * list Z))) (λ x, mkPayer x.1 x.2)
    (λ p, match p with mkPayer _ _ => eq_refl end).

#[local] Instance LiveHop_eq_dec : EqDecision LiveHop.
Proof. solve_decision. Defined.
#[local] Instance LiveHop_countable : Countable LiveHop :=
  inj_countable' (λ h, (hop_public_key h, hop_payer h, hop_component h)) (λ '(k, p, c), mkLiveHop k p c)
    (λ h, match h with mkLiveHop _ _ _ => eq_refl end).

#[local] Instance Route_eq_dec : EqDecision Route.
Proof. solve_decision. Defined.
#[local] Instance LiveCoresPackage_eq_dec : EqDecision LiveCoresPackage.
Proof. solve_decision. Defined.
#[local] Instance LiveCoresPackage_countable : Countable LiveCoresPackage :=
  inj_countable' (λ l, (lcp_version l, hops (lcp_route l), lcp_payload l)) (λ '(v, r, p), mkLcp v (mkRoute r) p)
    (λ l, match l with mkLcp _ (mkRoute _) _ => eq_refl end).

#[local] Instance VersionedData_eq_dec : EqDecision VersionedData.
Proof. solve_decision. Defined.
#[local] Instance VersionedData_countable : Countable VersionedData :=
  inj_countable' (λ v, (vd_version v, vd_bytes v)) (λ p, mkVersioned p.1 p.2)
    (λ v, match v with mkVersioned _ _ => eq_refl end).

#[local] Instance MessageType_eq_dec : EqDecision MessageType.
Proof. solve_decision. Defined.
#[local] Instance MessageType_countable : Countable MessageType :=
  inj_countable'
    (λ m, match m with
          | ClientRequest v => (0, v) | ClientResponse v => (1, v) | GossipMessage v => (2, v)
          | GossipFailureMessage v => (3, v) | DnsResolveFailed v => (4, v)
          end)
    (λ p, if p.1 =? 0 then ClientRequest p.2 else if p.1 =? 1 then ClientResponse p.2
          else if p.1 =? 2 then GossipMessage p.2 else if p.1 =? 3 then GossipFailureMessage p.2
          else DnsResolveFailed p.2)
    (λ m, match m with
          | ClientRequest _ => eq_refl | ClientResponse _ => eq_refl | GossipMessage _ => eq_refl
          | GossipFailureMessage _ => eq_refl | DnsResolveFailed _ => eq_refl
          end).

#[local] Instance ClientResponse_eq_dec : EqDecision ClientResponsePayload_0v1.
Proof. solve_decision. Defined.
#[local] Instance ClientResponse_countable : Countable ClientResponsePayload_0v1 :=
  inj_countable' (λ r, (crp_stream_key r, crp_sequenced_packet r)) (λ p, mkResponse p.1 p.2)
    (λ r, match r with mkResponse _ _ => eq_refl end).

#[local] Existing Instances listed_keys value_codec value_codec_ok.
#[local] Instance hop_codec : Codec LiveHop := countable_codec.
#[local] Instance hop_codec_ok : CodecOk LiveHop := countable_codec_ok.
#[local] Instance lcp_codec : Codec LiveCoresPackage := countable_codec.
#[local] Instance lcp_codec_ok : CodecOk LiveCoresPackage := countable_codec_ok.
#[local] Instance message_codec : Codec MessageType := countable_codec.
#[local] Instance message_codec_ok : CodecOk MessageType := countable_codec_ok.
#[local] Instance id_codec : Codec Z := countable_codec.
#[local] Instance id_codec_ok : CodecOk Z := countable_codec_ok.

(** Payload types that the sample does not send have no readable form. *)
Definition unreadable {T} : Payload T :=
  {| payload_codec := {| to_vec _ := Err (mkCborError "none"); from_slice _ := Err (mkCborError "none") |};
     payload_from_value _ := mret (Err (SemanticError "none")) |}.
Definition readable {T} `{Countable T} : Payload T :=
  {| payload_codec := countable_codec; payload_from_value _ := mret (Err (SemanticError "none")) |}.

#[local] Instance request_payload : Payload ClientRequestPayload_0v1 := readable.
#[local] Instance response_payload : Payload ClientResponsePayload_0v1 := readable.
#[local] Instance dns_payload : Payload DnsResolveFailure_0v1 := unreadable.
#[local] Instance gossip_payload : Payload Gossip_0v1 := readable.
#[local] Instance gossip_failure_payload : Payload GossipFailure_0v1 := unreadable.
#[local] Instance gossip_payload_ok : CodecOk Gossip_0v1 := countable_codec_ok.
#[local] Instance request_payload_ok : CodecOk ClientRequestPayload_0v1 := countable_codec_ok.
#[local] Instance response_payload_ok : CodecOk ClientResponsePayload_0v1 := countable_codec_ok.

Definition contract : list Z := [7; 7].

(** The node with the public key [[k]] and the alias key [[k + 100]]. *)
Definition node (k : Z) : RoutingService :=
  mkRoutingService (CryptDENull_from (mkPublicKey [k]) (create_digest [k] contract))
    (CryptDENull_from (mkPublicKey [k + 100]) []) true 5 6 true.

Lemma node_is_ok k : node_ok (member := null_member) contract (node k).
Proof.
  split; [by exists (mkPublicKey [k]), (create_digest [k] contract)|].
  split; [by exists (mkPublicKey [k + 100]), []|done].
Qed.

Definition here (s : RoutingService) : SocketAddr := mkSocketAddr (V4 1) 80.

Lemma round_trip_delivers_witness :
  ∃ route,
    round_trip (mkRouteSegment [mkPublicKey [1]; mkPublicKey [2]; mkPublicKey [3]] ProxyClientC)
      (mkRouteSegment [mkPublicKey [3]; mkPublicKey [2]; mkPublicKey [1]] ProxyServerC)
      (rs_main (node 1)) (Some (WalletSecretKey [42])) 77 (Some contract) = Ret (Ok route) ∧
    round_trip_works [] 0 here [42] (node 1) (node 2) [node 3] (node 2) [node 1] 77 route.
Proof.
  apply (round_trip_delivers [] 0 here [42] contract (node 1) (node 2) [node 3] (node 2) [node 1] 77).
  - by apply not_elem_of_nil.
  - repeat constructor; apply node_is_ok.
  - repeat constructor; apply node_is_ok.
  - repeat constructor; done.
  - repeat constructor; done.
  - done.
  - done.
Defined.

(** A package that [node 2] relays to [node 3]. *)
Lemma relayed :
  ∃ ibcd r m, route [] 0 (node 2) ibcd = Ret [ToAccountant r; ToDispatcher m].
Proof.
  destruct (payer_for_pays (member := null_member) [42] contract (node 2) (node_is_ok 2)) as (p & _ & Hw & Ho).
  set (h := mkLiveHop (mkPublicKey [3]) (Some p) HopperC).
  destruct (encodex_roundtrip (member := null_member) (rs_main (node 1)) (rs_main (node 2)) h) as (d & _ & Hd);
    [apply (node_is_ok 1)|apply (node_is_ok 2)|].
  destruct (encodex_roundtrip (member := null_member) (rs_main (node 1)) (rs_main (node 2))
    (lcp_new (mkRoute [d]) [1])) as (data & _ & Hdata); [apply (node_is_ok 1)|apply (node_is_ok 2)|].
  destruct (relay_step (member := null_member) [] 0 here [42] contract (node 2) (node 3) h d [] [1] data)
    as (data' & g & Hr & _); try done; [by apply not_elem_of_nil|apply node_is_ok..|by exists p|].
  by eexists _, _, _.
Qed.

End Samples.
