(* ===== verification/Neighborhood.v ===== *)
(** * The Neighborhood actor

    Models the handlers of [node/src/neighborhood/mod.rs] on top of the database, the
    gossip acceptor and producer, the routing, the connection status and the exit
    preferences: incoming gossip from its bytes to the answer, gossip to the
    neighbors, route queries, the search for a first route, changes of the
    configuration, removed neighbors, unreachable hosts, a new public address and the
    choice of exit locations.

    A handler is a computation on the state of the actor that may panic and sends
    messages to other actors ([prog] of [Actor.v]).  Whether the actor has been bound to the others
    is the field [nb_bound].  Logging, dot graphs and the texts of errors are left out;
    what is stored in the persistent configuration is a message. *)

From S2P Require Import Prelude.
From S2P Require Import Actor.
From S2P Require Import NodeAddr.
From S2P Require Import NodeRecord.
From S2P Require Import NeighborhoodDatabase.
From S2P Require Import Gossip.
From S2P Require Import ExitPreferences.
From S2P Require Import GossipAcceptor.
From S2P Require Import Routing.
From S2P Require Import ConnectionStatus.
From S2P Require Import Sequencing.
From S2P Require Import Cryptde.
From S2P Require Import Routes.
From S2P Require Import Migrations.
From S2P Require Import Payloads.
From S2P Require Import Hopper.

Definition RESPONSE_UNDESIRABILITY_FACTOR : Z := 1000.
Definition DEFAULT_MIN_HOPS : Hops := ThreeHops.

Record RouteQueryMessage := mkRouteQuery {
  target_key_opt : option PublicKey;
  target_component : Component;
  return_component_opt : option Component;
  rq_payload_size : Z;
  rq_hostname_opt : option string
}.

Inductive ExpectedServices :=
| OneWay (services : list ExpectedService)
| RoundTrip (over back : list ExpectedService) (return_route_id : Z).

Record RouteQueryResponse := mkRouteResponse {
  response_route : Route;
  response_services : ExpectedServices
}.

Inductive ConfigChange :=
| UpdateWallets (consuming_wallet : Wallet)
| UpdateMinHops (new_min_hops : Hops)
| UpdatePassword (new_password : string).

Record UiSetExitLocationRequest := mkExitRequest {
  fallback_routing : bool;
  exit_locations : list ExitLocation;
  show_countries : bool
}.

Inductive ExitLocationResponse :=
| ExitCountriesMissing (missing_countries : list string)
| ExitLocationsSet (fallback : bool) (selection : list ExitLocation)
    (countries : option (list string)) (missing_countries : list string).

(** What the actor sends. *)
Inductive NeighborhoodMessage :=
| SendPackage (p : IncipientCoresPackage)
| SendNoLookup (p : NoLookupIncipientCoresPackage)
| SendStatus (e : StatusEffect)
| SendProgress (m : ConnectionProgressMessage)
| SendStart
| SendExitLocations (r : ExitLocationResponse)
| SavePastNeighbors (ds : option (list NodeDescriptor)) (password : string).

(** What does not change after the start. *)
Record NeighborhoodConfig := mkNbConfig {
  nb_signer : CryptDE;
  nb_cryptde : NodeCryptDE;
  nb_bound : bool;
  nb_connected_database : bool;
  nb_zero_hop : bool;
  nb_chain : Z;
  nb_contract : list Z
}.

(** The state of the actor; [nb_pass_targets] belongs to its gossip acceptor,
    [nb_last_dead_node_check] to its gossip producer. *)
Record Neighborhood := mkNeighborhood {
  nb_config : NeighborhoodConfig;
  nb_pass_targets : PassTargets;
  nb_last_dead_node_check : Z;
  nb_db : NeighborhoodDatabase;
  nb_consuming_wallet_opt : option Wallet;
  nb_min_hops : Hops;
  nb_patch_size : nat;
  nb_next_return_route_id : Z;
  nb_status : OverallConnectionStatus;
  nb_password_opt : option string;
  nb_prefs : UserExitPreferences
}.

(** ** Updates of fields *)
Definition set_db (db : NeighborhoodDatabase) (n : Neighborhood) : Neighborhood :=
  mkNeighborhood (nb_config n) (nb_pass_targets n) (nb_last_dead_node_check n) db
    (nb_consuming_wallet_opt n) (nb_min_hops n) (nb_patch_size n) (nb_next_return_route_id n)
    (nb_status n) (nb_password_opt n) (nb_prefs n).

Definition set_last_dead_node_check (last : Z) (n : Neighborhood) : Neighborhood :=
  mkNeighborhood (nb_config n) (nb_pass_targets n) last (nb_db n)
    (nb_consuming_wallet_opt n) (nb_min_hops n) (nb_patch_size n) (nb_next_return_route_id n)
    (nb_status n) (nb_password_opt n) (nb_prefs n).

Definition set_pass_targets (pt : PassTargets) (n : Neighborhood) : Neighborhood :=
  mkNeighborhood (nb_config n) pt (nb_last_dead_node_check n) (nb_db n)
    (nb_consuming_wallet_opt n) (nb_min_hops n) (nb_patch_size n) (nb_next_return_route_id n)
    (nb_status n) (nb_password_opt n) (nb_prefs n).

Definition set_consuming_wallet (w : option Wallet) (n : Neighborhood) : Neighborhood :=
  mkNeighborhood (nb_config n) (nb_pass_targets n) (nb_last_dead_node_check n) (nb_db n)
    w (nb_min_hops n) (nb_patch_size n) (nb_next_return_route_id n)
    (nb_status n) (nb_password_opt n) (nb_prefs n).

Definition set_hops (h : Hops) (patch_size : nat) (n : Neighborhood) : Neighborhood :=
  mkNeighborhood (nb_config n) (nb_pass_targets n) (nb_last_dead_node_check n) (nb_db n)
    (nb_consuming_wallet_opt n) h patch_size (nb_next_return_route_id n)
    (nb_status n) (nb_password_opt n) (nb_prefs n).

Definition set_next_return_route_id (id : Z) (n : Neighborhood) : Neighborhood :=
  mkNeighborhood (nb_config n) (nb_pass_targets n) (nb_last_dead_node_check n) (nb_db n)
    (nb_consuming_wallet_opt n) (nb_min_hops n) (nb_patch_size n) id
    (nb_status n) (nb_password_opt n) (nb_prefs n).

Definition set_status (status : OverallConnectionStatus) (n : Neighborhood) : Neighborhood :=
  mkNeighborhood (nb_config n) (nb_pass_targets n) (nb_last_dead_node_check n) (nb_db n)
    (nb_consuming_wallet_opt n) (nb_min_hops n) (nb_patch_size n) (nb_next_return_route_id n)
    status (nb_password_opt n) (nb_prefs n).

Definition set_password (password : option string) (n : Neighborhood) : Neighborhood :=
  mkNeighborhood (nb_config n) (nb_pass_targets n) (nb_last_dead_node_check n) (nb_db n)
    (nb_consuming_wallet_opt n) (nb_min_hops n) (nb_patch_size n) (nb_next_return_route_id n)
    (nb_status n) password (nb_prefs n).

Definition set_prefs (prefs : UserExitPreferences) (n : Neighborhood) : Neighborhood :=
  mkNeighborhood (nb_config n) (nb_pass_targets n) (nb_last_dead_node_check n) (nb_db n)
    (nb_consuming_wallet_opt n) (nb_min_hops n) (nb_patch_size n) (nb_next_return_route_id n)
    (nb_status n) (nb_password_opt n) prefs.

(** ** Computations of the actor *)
Abbreviation act := (prog Neighborhood NeighborhoodMessage).

(** A message to an actor that [BindMessage] has made known. *)
Definition send_bound (m : NeighborhoodMessage) (why : string) : act unit := λ n,
  if nb_bound (nb_config n) then Ret (tt, n, [m]) else Panic why.

Definition own_cryptde : act NodeCryptDE := gets (λ n, nb_cryptde (nb_config n)).

(** Why a route query is not satisfied. *)
Inductive RouteQueryError :=
| Unroutable (e : RoutingError)
| NoSegmentKeys
| NoConsumingWallet.

Section Handlers.
Context `{HO : HashOrder} `{CBOR : SerdeCbor} `{CL : CountryLookup} `{Signatures} `{KeyOrder}
        `{Codec Value} `{Codec LiveHop} `{Codec MessageType} `{Codec Z}
        `{Payload Gossip_0v1} `{Payload GossipFailure_0v1}.

(** The key of a node as it is read back from a node descriptor. *)
Context (first_contact_key : PublicKey → outcome PublicKey).

(** ** Route queries *)
Definition take_return_route_id : act Z :=
  p ← gets (λ n, advance_return_route_id (nb_next_return_route_id n));
  _ ← modify (set_next_return_route_id p.2);
  mret p.1.

Definition zero_hop_route_response : act RouteQueryResponse :=
  return_route_id ← take_return_route_id;
  cryptde ← own_cryptde;
  let keys := [cd_public_key cryptde; cd_public_key cryptde] in
  r ← lift (round_trip (mkRouteSegment keys ProxyClientC) (mkRouteSegment keys ProxyServerC)
              cryptde None return_route_id None);
  route ← lift (expect_ok r "Couldn't create route");
  mret (mkRouteResponse route
          (RoundTrip [ServiceNothing; ServiceNothing] [ServiceNothing; ServiceNothing] return_route_id)).

Definition compose_route_query_response (over back : RouteSegment) :
    act (result RouteQueryResponse RouteQueryError) :=
  if bool_decide (segment_keys over = []) || bool_decide (segment_keys back = [])
  then mret (Err NoSegmentKeys)
  else
    let has_long_segment := (2 <? length (segment_keys over))%nat || (2 <? length (segment_keys back))%nat in
    wallet_opt ← gets nb_consuming_wallet_opt;
    if bool_decide (wallet_opt = None) && has_long_segment then mret (Err NoConsumingWallet)
    else
      db ← gets nb_db;
      over_services ← lift (make_expected_services db over);
      match over_services with
      | Err e => mret (Err (Unroutable e))
      | Ok expected_request_services =>
          back_services ← lift (make_expected_services db back);
          match back_services with
          | Err e => mret (Err (Unroutable e))
          | Ok expected_response_services =>
              return_route_id ← take_return_route_id;
              cryptde ← own_cryptde;
              contract ← gets (λ n, nb_contract (nb_config n));
              r ← lift (round_trip over back cryptde wallet_opt return_route_id (Some contract));
              route ← lift (expect_ok r "Internal error: bad route");
              mret (Ok (mkRouteResponse route
                (RoundTrip expected_request_services expected_response_services return_route_id)))
          end
      end.

Definition make_round_trip_route (msg : RouteQueryMessage) :
    act (result RouteQueryResponse RouteQueryError) :=
  db ← gets nb_db;
  prefs ← gets nb_prefs;
  cryptde ← own_cryptde;
  hops ← gets (λ n, hops_usize (nb_min_hops n));
  o ← lift (make_route_segment db prefs (cd_public_key cryptde) (target_key_opt msg) hops
              (target_component msg) (rq_payload_size msg) Over (rq_hostname_opt msg));
  match o with
  | Err e => mret (Err (Unroutable e))
  | Ok over =>
      let anticipated_response_payload_len := u64 (rq_payload_size msg * RESPONSE_UNDESIRABILITY_FACTOR) in
      last_key ← lift (expect (last (segment_keys over)) "Empty segment");
      return_component ← lift (expect (return_component_opt msg) "No return component");
      b ← lift (make_route_segment db prefs last_key (Some (cd_public_key cryptde)) hops
                  return_component anticipated_response_payload_len Back (rq_hostname_opt msg));
      match b with
      | Err e => mret (Err (Unroutable e))
      | Ok back => compose_route_query_response over back
      end
  end.

Definition handle_route_query_message (msg : RouteQueryMessage) : act (option RouteQueryResponse) :=
  zero_hop ← gets (λ n, nb_zero_hop (nb_config n));
  if (zero_hop : bool)
  then r ← zero_hop_route_response; mret (Some r)
  else
    r ← make_round_trip_route msg;
    mret (match r with Ok response => Some response | Err _ => None end).

(** The query that checks whether the node is connected. *)
Definition connectivity_query : RouteQueryMessage :=
  mkRouteQuery None ProxyClientC (Some ProxyServerC) 10000 None.

Definition update_stage_and_tell_ui (s : OverallConnectionStage) (why : string) : act unit :=
  status ← gets nb_status;
  bound ← gets (λ n, nb_bound (nb_config n));
  if (bound : bool) then
    let '(status, effects) := update_ocs_stage_and_send_message_to_ui status s in
    _ ← modify (set_status status);
    each (λ e, send (SendStatus e)) effects
  else act_panic why.

Definition search_for_a_new_route : act unit :=
  r ← handle_route_query_message connectivity_query;
  match r with
  | Some _ =>
      _ ← update_stage_and_tell_ui RouteFound "UI was not bound.";
      send_bound SendStart "Accountant was not bound"
  | None => mret tt
  end.

Definition check_connectedness : act unit :=
  status ← gets nb_status;
  if can_make_routes status then mret tt else search_for_a_new_route.

(** ** Packages to other nodes *)
Definition create_single_hop_route (destination : PublicKey) : act Route :=
  cryptde ← own_cryptde;
  r ← lift (one_way (mkRouteSegment [cd_public_key cryptde; destination] NeighborhoodC) cryptde None None);
  lift (expect_ok r "route creation error").

Definition gossip_to_neighbor (neighbor : PublicKey) (gossip : Gossip_0v1) : act unit :=
  route ← create_single_hop_route neighbor;
  cryptde ← own_cryptde;
  vd ← lift (versioned_from gossip);
  package ← lift (expect_ok (incipient_new cryptde route (GossipMessage vd) neighbor)
                    "Key magically disappeared");
  send_bound (SendPackage package) "unbound hopper".

Definition gossip_if_any (now : Z) (neighbor : PublicKey) : act unit :=
  last ← gets nb_last_dead_node_check;
  db ← gets nb_db;
  p ← lift (produce last db neighbor (time_t now));
  let '(gossip_opt, db, last) := p in
  _ ← modify (set_db db);
  _ ← modify (set_last_dead_node_check last);
  match gossip_opt with
  | Some gossip => gossip_to_neighbor neighbor gossip
  | None => mret tt
  end.

Definition gossip_to_neighbors (now : Z) : act unit :=
  signer ← gets (λ n, nb_signer (nb_config n));
  db ← gets nb_db;
  db ← lift (root_mut db (λ r, regenerate_signed_gossip r signer));
  _ ← modify (set_db db);
  root_rec ← lift (root db);
  each (gossip_if_any now) (hash_iter (half_neighbor_keys root_rec)).

Definition send_no_lookup_package (m : MessageType) (target_key : PublicKey)
    (target_node_addr : NodeAddr) : act unit :=
  cryptde ← own_cryptde;
  match no_lookup_new cryptde target_key target_node_addr m with
  | Ok p => send_bound (SendNoLookup p) "No-lookup Hopper is unbound"
  | Err _ => mret tt
  end.

Definition handle_gossip_reply (gossip : Gossip_0v1) (k : PublicKey) (a : NodeAddr) : act unit :=
  vd ← lift (versioned_from gossip); send_no_lookup_package (GossipMessage vd) k a.

Definition handle_gossip_failed (failure : GossipFailure_0v1) (k : PublicKey) (a : NodeAddr) : act unit :=
  vd ← lift (versioned_from failure); send_no_lookup_package (GossipFailureMessage vd) k a.

Definition send_debut_gossip_to_descriptor (gossip : Gossip_0v1) (d : NodeDescriptor) : act unit :=
  node_addr ← lift (expect (nd_node_addr_opt d)
    "Node descriptor without IP Address got through Neighborhood constructor.");
  vd ← lift (versioned_from gossip);
  send_no_lookup_package (GossipMessage vd) (encryption_public_key d) node_addr.

Definition send_debut_gossip_to_all_initial_descriptors : act unit :=
  status ← gets nb_status;
  if bool_decide (progress status = []) then mret tt
  else
    db ← gets nb_db;
    gossip ← lift (produce_debut db);
    each (send_debut_gossip_to_descriptor gossip) (iter_initial_node_descriptors status).

(** ** Exit countries *)
(** [for pub_key in exit_nodes]: the countries of the exits. *)
Definition countries_of (db : NeighborhoodDatabase) (exit_nodes : list PublicKey) : list string :=
  omap (λ k, r ← node_by_key db k; inner_country_code_opt (inner r)) exit_nodes.

Definition init_db_countries : act (list string) :=
  db ← gets nb_db;
  prefs ← gets nb_prefs;
  hops ← gets (λ n, hops_usize (nb_min_hops n));
  exit_nodes ← lift (find_exit_locations db prefs (root_key db) hops);
  mret (dedup (merge_sort String.le (countries_of db exit_nodes))).

Definition with_db_countries (cs : list string) (p : UserExitPreferences) : UserExitPreferences :=
  mkPrefs (exit_countries p) (fallback_preference p) (locations_opt p) cs.

Definition refresh_db_countries : act unit :=
  cs ← init_db_countries;
  modify (λ n, set_prefs (with_db_countries cs (nb_prefs n)) n).

(** All records of the database, the local one included. *)
Definition map_nodes (f : NodeRecord → NodeRecord) (db : NeighborhoodDatabase) : NeighborhoodDatabase :=
  mkDb (this_node db) (f <$> by_public_key db) (by_ip_addr db).

Definition set_country_undesirability_and_exit_countries (locations : list ExitLocation) : act unit :=
  match locations with
  | _ :: _ =>
      prefs ← gets nb_prefs;
      modify (λ n, set_db (map_nodes (assign_nodes_country_undesirability prefs) (nb_db n)) n)
  | [] =>
      _ ← modify (λ n, set_prefs (with_exit_countries (nb_prefs n) []) n);
      modify (λ n, set_db (map_nodes (λ r,
        with_metadata r (with_undesirability (metadata r) ZERO_UNDESIRABILITY)) (nb_db n)) n)
  end.

(** The codes of one location that no known exit has. *)
Definition synchronize_location (l : ExitLocation) : act (list string) :=
  prefs ← gets nb_prefs;
  let '(prefs, missing) := synchronize_exit_countries_and_return_missing prefs (country_codes l) in
  _ ← modify (set_prefs prefs);
  mret missing.

Fixpoint synchronize_locations (ls : list ExitLocation) : act (list string) :=
  match ls with
  | [] => mret []
  | l :: ls =>
      missing ← synchronize_location l;
      rest ← synchronize_locations ls;
      mret (missing ++ rest)
  end.

Definition extract_exit_locations_from_message (msg : UiSetExitLocationRequest) :
    act (list ExitLocation * list string) :=
  _ ← refresh_db_countries;
  missing ← synchronize_locations (exit_locations msg);
  mret (exit_locations msg, missing).

Definition error_message_indicates (prefs : UserExitPreferences) (missing_countries : list string) : bool :=
  let desired_countries := concat (map country_codes (default [] (locations_opt prefs))) in
  if bool_decide (desired_countries = []) && bool_decide (missing_countries = []) then false
  else bool_decide (merge_sort String.le missing_countries = merge_sort String.le desired_countries).

(** [error_message_indicates] leaves the missing countries sorted, unless there are
    none to compare. *)
Definition create_exit_location_response (prefs : UserExitPreferences) (missing_countries : list string)
    (show_countries_flag : bool) : ExitLocationResponse :=
  if error_message_indicates prefs missing_countries then ExitCountriesMissing missing_countries
  else ExitLocationsSet (is_fallback_routing_active prefs) (default [] (locations_opt prefs))
         (if show_countries_flag then Some (db_countries prefs) else None)
         (merge_sort String.le missing_countries).

Definition with_fallback (f : FallbackPreference) (p : UserExitPreferences) : UserExitPreferences :=
  mkPrefs (exit_countries p) f (locations_opt p) (db_countries p).

Definition handle_exit_location_message (msg : UiSetExitLocationRequest) : act unit :=
  p ← extract_exit_locations_from_message msg;
  let '(exit_locations_by_priority, missing_countries) := p in
  let preference :=
    match fallback_routing msg, bool_decide (exit_locations_by_priority = []) with
    | _, true => FallbackNothing
    | true, false => ExitCountryWithFallback
    | false, false => ExitCountryNoFallback
    end in
  _ ← modify (λ n, set_prefs (with_fallback preference (nb_prefs n)) n);
  _ ← (if show_countries msg then mret tt
       else modify (λ n, set_prefs (set_exit_locations_opt (nb_prefs n) exit_locations_by_priority) n));
  db ← gets nb_db;
  _ ← (if (1 <? size (keys db))%nat
       then set_country_undesirability_and_exit_countries exit_locations_by_priority
       else mret tt);
  prefs ← gets nb_prefs;
  send_bound (SendExitLocations (create_exit_location_response prefs missing_countries (show_countries msg)))
    "UI Gateway is unbound".

(** ** Incoming gossip *)
Definition neighbor_keys : act (gset PublicKey) :=
  db ← gets nb_db;
  root_rec ← lift (root db);
  mret (full_neighbor_keys root_rec db).

Definition handle_agrs (now : Z) (agrs : list AccessibleGossipRecord) (gossip_source : SocketAddr) :
    act unit :=
  n ← gets id;
  h ← lift (acceptor_handle (nb_signer (nb_config n)) (nb_db n) (nb_pass_targets n) agrs gossip_source
              (mkNm (get_peer_addrs (nb_status n)) (nb_patch_size n) (Some (nb_prefs n))) now);
  let '(acceptance_result, db, pt, cpms) := h in
  _ ← modify (set_db db);
  _ ← modify (set_pass_targets pt);
  _ ← each (λ m, send (SendProgress m)) cpms;
  match acceptance_result with
  | Accepted => _ ← refresh_db_countries; gossip_to_neighbors now
  | Reply next_debut target_key target_node_addr =>
      hops ← gets nb_min_hops;
      _ ← (if decide (hops = OneHop) then refresh_db_countries else mret tt);
      handle_gossip_reply next_debut target_key target_node_addr
  | Failed failure target_key target_node_addr => handle_gossip_failed failure target_key target_node_addr
  | Ignored => mret tt
  | Ban _ => mret tt
  end.

Definition to_node_descriptors (db : NeighborhoodDatabase) (chain : Z) (ks : list PublicKey) :
    outcome (list NodeDescriptor) :=
  mapM (λ k,
    r ← expect (node_by_key db k) "NodeRecord";
    key ← first_contact_key (public_key r);
    mret (mkNodeDescriptor chain key (node_addr_opt r))) ks.

Definition curate_past_neighbors (before after : gset PublicKey) : act unit :=
  if decide (after ≠ before) then
    password_opt ← gets nb_password_opt;
    match password_opt with
    | Some db_password =>
        db ← gets nb_db;
        chain ← gets (λ n, nb_chain (nb_config n));
        nds ← lift (to_node_descriptors db chain (hash_iter after));
        connected ← gets (λ n, nb_connected_database (nb_config n));
        if (connected : bool)
        then send (SavePastNeighbors (match nds with [] => None | _ => Some nds end) db_password)
        else act_panic "PersistentConfig was not set by StartMessage"
    | None => mret tt
    end
  else mret tt.

Definition handle_database_changes (before after : gset PublicKey) : act unit :=
  _ ← curate_past_neighbors before after; check_connectedness.

Definition handle_gossip_agrs (now : Z) (agrs : list AccessibleGossipRecord) (gossip_source : SocketAddr) :
    act unit :=
  before ← neighbor_keys;
  _ ← handle_agrs now agrs gossip_source;
  after ← neighbor_keys;
  handle_database_changes before after.

Definition handle_gossip (now : Z) (incoming_gossip : Gossip_0v1) (gossip_source : SocketAddr) : act unit :=
  let agrs := omap Agr_try_from_gnr (node_records incoming_gossip) in
  if (length agrs <? length (node_records incoming_gossip))%nat then mret tt
  else
    signer ← gets (λ n, nb_signer (nb_config n));
    if existsb (λ agr, negb (cryptde_verify_signature signer (agr_signed_gossip agr) (agr_signature agr)
                               (inner_public_key (agr_inner agr)))) agrs
    then mret tt
    else handle_gossip_agrs now agrs gossip_source.

(** ** Changes of the neighborhood *)
(** [Handler<RemoveNeighborMessage>] *)
Definition handle_remove_neighbor_message (now : Z) (k : PublicKey) : act unit :=
  db ← gets nb_db;
  r ← lift (remove_neighbor db k);
  match r with
  | Err _ => mret tt
  | Ok (db_changed, db) =>
      _ ← modify (set_db db);
      if (db_changed : bool) then gossip_to_neighbors now else mret tt
  end.

(** [remove_neighbor] of the actor *)
Definition nb_remove_neighbor (now : Z) (k : PublicKey) : act unit :=
  db ← gets nb_db;
  r ← lift (remove_neighbor db k);
  match r with
  | Err _ => act_panic "Node suddenly disappeared"
  | Ok (db_changed, db) =>
      _ ← modify (set_db db);
      if (db_changed : bool) then gossip_to_neighbors now else mret tt
  end.

Definition handle_stream_shutdown_msg (now : Z) (clandestine : bool) (peer : SocketAddr) : act unit :=
  if negb clandestine
  then act_panic "Neighborhood should never get ShutdownStreamMsg about non-clandestine stream"
  else
    db ← gets nb_db;
    match node_by_ip db (sa_ip peer) with
    | None => mret tt
    | Some r => nb_remove_neighbor now (public_key r)
    end.

(** [Handler<UpdateNodeRecordMetadataMessage>] *)
Definition add_unreachable_host (hostname : string) (r : NodeRecord) : NodeRecord :=
  let m := metadata r in
  with_metadata r (mkMetadata (last_update m) (md_node_addr_opt m) ({[hostname]} ∪ unreachable_hosts m)
                     (node_location_opt m) (country_undesirability m)).

Definition handle_update_node_record_metadata (k : PublicKey) (hostname : string) : act unit :=
  db ← gets nb_db;
  r ← lift (expect (node_by_key db k) "No Node Record found for public_key");
  modify (set_db (with_nodes db (<[k := add_unreachable_host hostname r]> (by_public_key db)))).

Definition with_country_code (i : NodeRecordInner_0v1) (c : option string) : NodeRecordInner_0v1 :=
  mkInner (inner_public_key i) (inner_earning_wallet i) (inner_rate_pack i) (inner_neighbors i)
    (inner_accepts_connections i) (inner_routes_data i) (inner_version i) c.

Definition handle_new_ip_location (new_public_ip : IpAddr) : act unit :=
  db ← gets nb_db;
  db ← lift (root_mut db (λ r,
    let location_opt := get_node_location (Some new_public_ip) in
    mret (with_inner (with_metadata r (with_location (metadata r) location_opt))
            (with_country_code (inner r) (country_code <$> location_opt)))));
  modify (set_db db).

Definition handle_new_public_ip (new_ip : IpAddr) : act unit :=
  db ← gets nb_db;
  root_rec ← lift (root db);
  _ ← lift (expect (node_addr_opt root_rec) "Root node");
  db ← lift (new_public_ip db new_ip);
  _ ← modify (set_db db);
  handle_new_ip_location new_ip.

(** ** Configuration *)
Definition calculate_db_patch_size (min_hops : Hops) : nat :=
  if (hops_usize min_hops <=? hops_usize DEFAULT_MIN_HOPS)%nat then hops_usize DEFAULT_MIN_HOPS
  else hops_usize min_hops.

Definition set_min_hops_and_patch_size (new_min_hops : Hops) : act unit :=
  modify (set_hops new_min_hops (calculate_db_patch_size new_min_hops)).

Definition handle_config_change_msg (change : ConfigChange) : act unit :=
  match change with
  | UpdateWallets consuming_wallet =>
      wallet_opt ← gets nb_consuming_wallet_opt;
      if decide (wallet_opt ≠ Some consuming_wallet)
      then modify (set_consuming_wallet (Some consuming_wallet)) else mret tt
  | UpdateMinHops new_min_hops =>
      _ ← set_min_hops_and_patch_size new_min_hops;
      status ← gets nb_status;
      _ ← (if can_make_routes status then update_stage_and_tell_ui ConnectedToNeighbor "UI gateway is dead"
           else mret tt);
      _ ← refresh_db_countries;
      prefs ← gets nb_prefs;
      _ ← match locations_opt prefs with
          | Some exit_locations_by_priority =>
              _ ← synchronize_locations exit_locations_by_priority;
              set_country_undesirability_and_exit_countries exit_locations_by_priority
          | None => mret tt
          end;
      search_for_a_new_route
  | UpdatePassword new_password => modify (set_password (Some new_password))
  end.

(** [value_in_db]: [persistent_config.min_hops()]. *)
Definition validate_or_replace_min_hops_value (value_in_db : Hops) : act unit :=
  connected ← gets (λ n, nb_connected_database (nb_config n));
  if (connected : bool) then
    value_in_neighborhood ← gets nb_min_hops;
    if decide (value_in_neighborhood ≠ value_in_db)
    then modify (λ n, set_hops value_in_db (nb_patch_size n) n) else mret tt
  else mret tt.
End Handlers.
