(* ===== verification/NeighborhoodFacts.v ===== *)
(** * Facts about the Neighborhood actor

    The pieces together: a route query is answered with a route on which a request and
    its response travel through the Hoppers of the network, the services it names are
    those of the nodes on it, and the gossip the actor sends to its neighbors arrives
    at their Neighborhoods. *)

From S2P Require Import Prelude.
From S2P Require Import Actor.
From S2P Require Import NodeAddr.
From S2P Require Import NodeRecord.
From S2P Require Import NeighborhoodDatabase.
From S2P Require Import Gossip.
From S2P Require Import ExitPreferences.
From S2P Require Import GossipAcceptor.
From S2P Require Import Routing.
From S2P Require Import RoutingFacts.
From S2P Require Import ConnectionStatus.
From S2P Require Import Sequencing.
From S2P Require Import Cryptde.
From S2P Require Import Routes.
From S2P Require Import Migrations.
From S2P Require Import MigrationsFacts.
From S2P Require Import Payloads.
From S2P Require Import Hopper.
From S2P Require Import HopperFacts.
From S2P Require Import SampleCodecs.
From S2P Require Import Neighborhood.

(** ** Route queries *)
Section Network.
Context `{HO : HashOrder} `{SignaturesOk} `{KeyOrder} `{Codec Value} `{HH : CodecOk LiveHop}
        `{HM : CodecOk MessageType} `{HL : CodecOk LiveCoresPackage} `{HZ : CodecOk Z}
        `{Payload ClientRequestPayload_0v1} `{Payload ClientResponsePayload_0v1}
        `{Payload DnsResolveFailure_0v1} `{Payload Gossip_0v1} `{Payload GossipFailure_0v1}.
Context `{HRq : !CodecOk ClientRequestPayload_0v1} `{HRs : !CodecOk ClientResponsePayload_0v1}.
Context `{CryptNetwork member}.
Context (ban_cache : list Wallet) (now : Z) (peer_of : RoutingService → SocketAddr).
Context (secret contract_address : list Z).

(** The routing service of the node with a key. *)
Context (net : PublicKey → RoutingService).

Abbreviation own_node n := (net (this_node (nb_db n))).

(** The actor runs in the network [net]: the nodes it knows are nodes of the network,
    and its keys are those of its own node. *)
Record in_network (n : Neighborhood) : Prop := {
  net_db : db_inv (nb_db n);
  net_own : rs_main (own_node n) = nb_cryptde (nb_config n);
  net_nodes k : is_Some (node_by_key (nb_db n) k) →
    node_key (net k) = k ∧ node_ok (member := member) contract_address (net k) ∧ proxy_client_running (net k) = true
}.

Lemma own_key n : in_network n → cd_public_key (nb_cryptde (nb_config n)) = this_node (nb_db n).
Proof.
  intros Hn. rewrite <-(net_own _ Hn). by apply (net_nodes _ Hn), (inv_root _ (net_db _ Hn)).
Qed.

Lemma network_keys n ks :
  in_network n → (∀ k, k ∈ ks → is_Some (node_by_key (nb_db n) k)) →
  map (λ s, node_key s) (net <$> ks) = ks ∧ Forall (node_ok (member := member) contract_address) (net <$> ks).
Proof.
  intros Hn. induction ks as [|k ks IH]; intros Hks; [by split|].
  destruct IH as [IH1 IH2]; [set_solver|]. destruct (net_nodes _ Hn k) as (Hk & Hok & _); [set_solver|].
  split; [|by constructor]. cbn [fmap list_fmap map]. by rewrite Hk, IH1.
Qed.

Lemma distinct_steps_out n k ks :
  in_network n → NoDup (k :: ks) → (∀ k', k' ∈ k :: ks → is_Some (node_by_key (nb_db n) k')) →
  steps_out (net <$> k :: ks).
Proof.
  intros Hn. revert k; induction ks as [|k' ks IH]; intros k Hnd Hks; [constructor|].
  cbn [fmap list_fmap]. constructor.
  - destruct (net_nodes _ Hn k) as (-> & _); [set_solver|].
    destruct (net_nodes _ Hn k') as (-> & _); [set_solver|].
    apply NoDup_cons in Hnd as [Hnd _]. set_solver.
  - apply IH; [by apply NoDup_cons in Hnd as [_ ?]|set_solver].
Qed.

Lemma end_of_net k ks e : last (k :: ks) = Some e → end_of (net k) (net <$> ks) = net e.
Proof.
  revert k; induction ks as [|k' ks IH]; intros k Hl; [by injection Hl as <-|]. by apply IH.
Qed.

(** A segment of a route, as it is found: at least two distinct known nodes. *)
Record good_leg (n : Neighborhood) (first next : PublicKey) (more : list PublicKey) (final : PublicKey) : Prop := {
  leg_known k : k ∈ first :: next :: more → is_Some (node_by_key (nb_db n) k);
  leg_distinct : NoDup (first :: next :: more);
  leg_last : last (next :: more) = Some final;
  leg_long : (hops_usize (nb_min_hops n) ≤ S (length more))%nat
}.

Lemma found_leg n prefs target_opt direction source route :
  route_ok (nb_db n) prefs target_opt direction source (hops_usize (nb_min_hops n)) route →
  ∃ next more final, route = source :: next :: more ∧ good_leg n source next more final ∧
    ∀ t, target_opt = Some t → final = t.
Proof.
  intros (Hr & Hlen & final & Hl & Ht & _).
  destruct (route_valid _ _ _ _ _ Hr) as (_ & Hnd & Hk). pose proof (route_head _ _ _ _ _ Hr) as Hh.
  destruct route as [|k route]; [done|]. injection Hh as ->.
  destruct route as [|next more].
  { exfalso. revert Hlen. simpl. by destruct (nb_min_hops n); simpl; lia. }
  exists next, more, final. split; [done|]. split; [|done]. split; [done|done|done|]. simpl in Hlen. lia.
Qed.

Lemma make_segment_runs n prefs origin target_opt c payload direction hostname_opt :
  in_network n → is_Some (node_by_key (nb_db n) origin) →
  returns (make_route_segment (nb_db n) prefs origin target_opt (hops_usize (nb_min_hops n)) c payload
             direction hostname_opt)
    (λ r, ∀ seg, r = Ok seg → ∃ next more final,
       seg = mkRouteSegment (origin :: next :: more) c ∧ good_leg n origin next more final ∧
       ∀ t, target_opt = Some t → final = t).
Proof.
  intros Hn Ho. unfold make_route_segment. ret_via (apply find_best_route_returns; [apply Hn|done]).
  intros [route|] Hr; ret_step; intros seg [= <-].
  destruct (found_leg _ _ _ _ _ _ (Hr _ eq_refl)) as (next & more & final & -> & Hleg & Ht). by exists next, more, final.
Qed.

(** The state after a route id was taken. *)
Definition advanced (n : Neighborhood) : Neighborhood :=
  set_next_return_route_id (u32 (nb_next_return_route_id n + 1)) n.

(** The answer to a query: a route over at least the required hops to an exit node and
    back, along which request and response travel, with the services of the nodes on
    it and the id by which the response is recognized. *)
Definition answers (n : Neighborhood) (resp : RouteQueryResponse) : Prop :=
  let root := this_node (nb_db n) in
  let id := nb_next_return_route_id n in
  ∃ next over exit_key next' back ss ss',
    good_leg n root next over exit_key ∧ good_leg n exit_key next' back root ∧
    response_services resp = RoundTrip ss ss' id ∧
    Forall2 (service_for (nb_db n) root exit_key) (root :: next :: over) ss ∧
    Forall2 (service_for (nb_db n) exit_key root) (exit_key :: next' :: back) ss' ∧
    round_trip_works ban_cache now peer_of secret (net root) (net next) (net <$> over)
      (net next') (net <$> back) id (response_route resp).

(** What the actor knows of the payment. *)
Record can_pay (n : Neighborhood) : Prop := {
  pay_wallet : nb_consuming_wallet_opt n = Some (WalletSecretKey secret);
  pay_contract : nb_contract (nb_config n) = contract_address;
  pay_not_banned : WalletAddress (secret_address secret) ∉ ban_cache
}.

Lemma legs_work n next over exit_key next' back id :
  in_network n → can_pay n →
  good_leg n (this_node (nb_db n)) next over exit_key →
  good_leg n exit_key next' back (this_node (nb_db n)) →
  let root := this_node (nb_db n) in
  returns (round_trip (mkRouteSegment (root :: next :: over) ProxyClientC)
             (mkRouteSegment (exit_key :: next' :: back) ProxyServerC)
             (nb_cryptde (nb_config n)) (nb_consuming_wallet_opt n) id (Some (nb_contract (nb_config n))))
    (λ r, ∃ route, r = Ok route ∧
       round_trip_works ban_cache now peer_of secret (net root) (net next) (net <$> over)
         (net next') (net <$> back) id route).
Proof.
  intros Hn [Hw Hc Hb] L1 L2 root.
  destruct (network_keys _ _ Hn (leg_known _ _ _ _ _ L1)) as [K1 O1].
  destruct (network_keys _ _ Hn (leg_known _ _ _ _ _ L2)) as [K2 O2].
  pose proof (distinct_steps_out _ _ _ Hn (leg_distinct _ _ _ _ _ L1) (leg_known _ _ _ _ _ L1)) as S1.
  pose proof (distinct_steps_out _ _ _ Hn (leg_distinct _ _ _ _ _ L2) (leg_known _ _ _ _ _ L2)) as S2.
  pose proof (end_of_net _ _ _ (leg_last _ _ _ _ _ L1)) as E1.
  pose proof (end_of_net _ _ _ (leg_last _ _ _ _ _ L2)) as E2.
  cbn [fmap list_fmap] in *. fold root in K1, O1, S1, E2.
  destruct (round_trip_route_works ban_cache now peer_of secret contract_address (net root) (net next)
    (net <$> over) (net next') (net <$> back) id) as (route & Hr & Hworks); rewrite ?E1; try done.
  { by inversion O2. }
  { apply (net_nodes _ Hn). apply (leg_known _ _ _ _ _ L2). set_solver. }
  rewrite E1 in Hr. unfold fmap in *. rewrite K1, K2 in Hr. unfold root in Hr. rewrite (net_own _ Hn) in Hr.
  unfold root. rewrite Hw, Hc, Hr. by exists route.
Qed.

Lemma services_of_leg n first next more final c :
  in_network n → good_leg n first next more final →
  returns (make_expected_services (nb_db n) (mkRouteSegment (first :: next :: more) c))
    (λ res, ∃ ss, res = Ok ss ∧ Forall2 (service_for (nb_db n) first final) (first :: next :: more) ss).
Proof.
  intros Hn L. apply make_expected_services_spec; [apply Hn|done|apply (leg_last _ _ _ _ _ L)|].
  apply (leg_known _ _ _ _ _ L).
Qed.

Lemma compose_answers n next over exit_key next' back :
  in_network n → can_pay n →
  good_leg n (this_node (nb_db n)) next over exit_key →
  good_leg n exit_key next' back (this_node (nb_db n)) →
  runs (compose_route_query_response (mkRouteSegment (this_node (nb_db n) :: next :: over) ProxyClientC)
          (mkRouteSegment (exit_key :: next' :: back) ProxyServerC)) n
    (λ r n' sent, sent = [] ∧ n' = advanced n ∧ ∃ resp, r = Ok resp ∧ answers n resp).
Proof.
  intros Hn Hp L1 L2. unfold compose_route_query_response. cbn [segment_keys].
  rewrite !bool_decide_eq_false_2 by done. cbn [orb].
  apply runs_gets. rewrite bool_decide_eq_false_2 by by rewrite (pay_wallet _ Hp). cbn [andb].
  apply runs_gets, runs_lift. eapply returns_mono; [by apply services_of_leg|]. intros ? (ss & -> & Hss).
  apply runs_lift. eapply returns_mono; [by apply services_of_leg|]. intros ? (ss' & -> & Hss').
  apply runs_bind, runs_gets, runs_modify, runs_ret, runs_gets, runs_gets, runs_lift.
  eapply returns_mono; [by apply (legs_work n)|]. intros ? (route & -> & Hworks).
  apply runs_lift, runs_ret. split; [done|]. split; [done|]. eexists. split; [done|].
  by exists next, over, exit_key, next', back, ss, ss'.
Qed.

Lemma route_query_answers n msg :
  in_network n → can_pay n → nb_zero_hop (nb_config n) = false →
  target_component msg = ProxyClientC → return_component_opt msg = Some ProxyServerC →
  runs (handle_route_query_message msg) n (λ r n' sent, sent = [] ∧
    match r with
    | None => n' = n
    | Some resp => n' = advanced n ∧ answers n resp
    end).
Proof.
  intros Hn Hp Hz Hc Hrc. unfold handle_route_query_message. apply runs_gets. rewrite Hz.
  apply runs_bind. unfold make_round_trip_route. do 4 apply runs_gets. rewrite (own_key _ Hn), Hc.
  apply runs_lift. eapply returns_mono; [apply make_segment_runs; [done|apply Hn]|].
  intros [over|e] Hover; [|by apply runs_ret].
  destruct (Hover _ eq_refl) as (next & more & final & -> & L1 & _). clear Hover. cbn [segment_keys].
  apply runs_lift. change (last (this_node (nb_db n) :: next :: more)) with (last (next :: more)).
  rewrite (leg_last _ _ _ _ _ L1). cbn [expect returns]. rewrite Hrc. apply runs_lift. cbn [expect returns].
  apply runs_lift. eapply returns_mono.
  { apply make_segment_runs; [done|]. apply (leg_known _ _ _ _ _ L1).
    pose proof (leg_last _ _ _ _ _ L1) as Hl. apply last_Some in Hl as [l ->]. set_solver. }
  intros [back|e] Hback; [|by apply runs_ret].
  destruct (Hback _ eq_refl) as (next' & more' & final' & -> & L2 & Ht).
  rewrite (Ht _ eq_refl) in L2. eapply runs_mono; [by apply compose_answers|].
  intros ? ? ? (-> & -> & resp & -> & Hans). by apply runs_ret.
Qed.

(** C5: A route query is answered with a route that works.  When a node of the network
    whose wallet can pay asks its Neighborhood for a route to a ProxyClient and back,
    the query is answered, without a panic and without a message: either there is no
    answer and the state is unchanged; or the answer holds a route over at least the
    required number of hops, through distinct known nodes, and back, along which every
    request travels to the exit node's ProxyClient and its response to the ProxyServer
    of the node, which reads the answer's route id in it, and it holds the services
    that these nodes will charge for. *)
Theorem queried_route_delivers n msg :
  in_network n → can_pay n → nb_zero_hop (nb_config n) = false →
  target_component msg = ProxyClientC → return_component_opt msg = Some ProxyServerC →
  runs (handle_route_query_message msg) n (λ r n' sent, sent = [] ∧
    match r with
    | None => n' = n
    | Some resp => n' = advanced n ∧ answers n resp
    end).
Proof. apply route_query_answers. Qed.

(** ** Gossip to the neighbors *)
Context `{CBOR : SerdeCbor} `{HG : !CodecOk Gossip_0v1}.

(** What the gossip for [k], made from a part of the database [db], tells: the node's
    own record, signed and readable, and records of other nodes than [k]. *)
Definition tells (signer : CryptDE) (db : NeighborhoodDatabase) (k : PublicKey) (g : Gossip_0v1) : Prop :=
  (∃ own gnr, node_by_key db (this_node db) = Some own ∧ gnr ∈ node_records g ∧
     gnr_signed_data gnr = signed_gossip own ∧ gnr_signature gnr = signature own ∧
     NodeRecord.from_slice (gnr_signed_data gnr) = Some (inner own) ∧
     cryptde_verify_signature signer (gnr_signed_data gnr) (gnr_signature gnr)
       (cryptde_public_key signer) = true) ∧
  ∀ gnr, gnr ∈ node_records g → ∃ r, node_by_key db (public_key r) = Some r ∧ public_key r ≠ k ∧
     gnr_signed_data gnr = signed_gossip r ∧ gnr_signature gnr = signature r.

(** A package from the node [root] brings gossip with [P] to the Neighborhood of [k]. *)
Definition brings (root k : PublicKey) (P : Gossip_0v1 → Prop) (pkg : IncipientCoresPackage) : Prop :=
  ∃ data received,
    consume now (rs_main (net root)) pkg =
      Ret [ToDispatcher (mkTransmit (Key k) false None data)] ∧
    route ban_cache now (net k) (inbound now peer_of (net k) data) = Ret [ToNeighborhood received] ∧
    P (ex_payload _ received).

(** The own record of a database is signed and can be read. *)
Definition own_signed (signer : CryptDE) (db : NeighborhoodDatabase) : Prop :=
  ∃ own, node_by_key db (this_node db) = Some own ∧
    NodeRecord.from_slice (signed_gossip own) = Some (inner own) ∧
    cryptde_verify_signature signer (signed_gossip own) (signature own) (cryptde_public_key signer) = true.

(** Gossip made from a part [db] of the signed database [db0]. *)
Lemma produce_tells signer last db0 db k t :
  db_inv db → this_node db = this_node db0 → own_signed signer db0 →
  (∀ k r, node_by_key db k = Some r → node_by_key db0 k = Some r) →
  (∃ own, node_by_key db (this_node db) = Some own ∧ k ∈ half_neighbor_keys own) →
  returns (produce last db k t) (λ '(o, db', _), db_inv db' ∧ this_node db' = this_node db ∧
    (∀ k r, node_by_key db' k = Some r → node_by_key db k = Some r) ∧
    ∃ g, o = Some g ∧ tells signer db0 k g).
Proof.
  intros Hinv Ht (own0 & Hown0 & Hread & Hver) Hsub (own & Hown & Hk).
  assert (own = own0) as -> by (apply Hsub in Hown; rewrite Ht in Hown; congruence).
  destruct (returns_inv _ _ (produce_returns last db k t Hinv)) as ([[o db'] last'] & Hp & Hinv' & Ht' & Ho).
  pose proof (produce_records _ _ _ _ _ _ _ Hinv Hp) as Hrec. rewrite Hp.
  split; [done|]. split; [done|]. split; [done|].
  destruct (inv_root _ Hinv') as [own' Hown']. assert (own' = own0) as -> by (apply Hrec in Hown'; congruence).
  destruct (inv_neighbors _ Hinv' _ _ Hown' Hk) as (target & Htarget & _). rewrite Htarget in Ho.
  destruct Ho as (own' & referenced & gs & ks & Hown'' & Href & -> & Hks & ->).
  assert (own' = own0) as -> by congruence.
  eexists. split; [done|]. split.
  - exists own0, (gnr_of (reveal_node_addr db' own0 target own0) own0).
    split; [done|]. split; [|done]. apply list_elem_of_fmap. eexists. split; [done|].
    apply list_elem_of_omap. exists (this_node db'). split; [|done]. rewrite Hks.
    apply elem_of_elements, elem_of_filter. rewrite elem_of_keys. split; [|by eexists].
    pose proof (elem_of_referenced db' own0 (this_node db') Hown') as Hr. rewrite Href in Hr. simpl in Hr.
    rewrite Hr, (inv_keys _ Hinv' _ _ Hown'). split; [by left|].
    intros <-. by apply (inv_self _ Hinv' _ Hown').
  - intros gnr (r & -> & (k' & Hk' & Hr)%list_elem_of_omap)%list_elem_of_fmap. exists r.
    rewrite (inv_keys _ Hinv' _ _ Hr). rewrite Hks, elem_of_elements, elem_of_filter in Hk'.
    split; [by apply Hsub, Hrec|]. by split; [apply Hk'|].
Qed.

Lemma gossip_to_neighbor_brings n k g :
  in_network n → nb_bound (nb_config n) = true → is_Some (node_by_key (nb_db n) k) → k ≠ this_node (nb_db n) →
  runs (gossip_to_neighbor k g) n (λ _ n' sent, n' = n ∧
    ∃ pkg, sent = [SendPackage pkg] ∧ brings (this_node (nb_db n)) k (eq g) pkg).
Proof.
  intros Hn Hb Hk Hne. destruct (net_nodes _ Hn k Hk) as (Ek & (Mk & _) & _).
  destruct (net_nodes _ Hn _ (inv_root _ (net_db _ Hn))) as (Er & (Mr & _) & _).
  destruct (gossip_hop_delivers ban_cache now peer_of (own_node n) (net k) g)
    as (route & vd & inc & data & received & Hr & Hvd & Hi & Hc & Ha & Hg); [done|done|congruence|].
  rewrite (net_own _ Hn), Ek in Hr, Hi. rewrite Ek in Hc.
  unfold gossip_to_neighbor, create_single_hop_route. apply runs_bind, runs_gets, runs_lift.
  rewrite Hr. cbn [returns]. unfold runs at 1, lift, expect_ok. cbn [returns].
  apply runs_gets, runs_lift. rewrite Hvd. cbn [returns]. apply runs_lift. rewrite Hi. cbn [returns expect_ok].
  unfold runs, send_bound. rewrite Hb. cbn [returns]. split; [done|]. exists inc. split; [done|].
  by exists data, received.
Qed.

(** What holds after gossip for the neighbors [told] was sent, [n0] being the state
    when the own record was signed. *)
Definition gossiped (n0 : Neighborhood) (told : list PublicKey) (n : Neighborhood)
    (sent : list NeighborhoodMessage) : Prop :=
  let root := this_node (nb_db n0) in
  in_network n ∧ nb_config n = nb_config n0 ∧ this_node (nb_db n) = root ∧
  (∀ k r, node_by_key (nb_db n) k = Some r → node_by_key (nb_db n0) k = Some r) ∧
  ∃ pkgs, sent = SendPackage <$> pkgs ∧
    Forall2 (λ k, brings root k (tells (nb_signer (nb_config n0)) (nb_db n0) k)) told pkgs.

Lemma in_network_part n n' :
  in_network n → nb_config n' = nb_config n → this_node (nb_db n') = this_node (nb_db n) →
  db_inv (nb_db n') → (∀ k r, node_by_key (nb_db n') k = Some r → is_Some (node_by_key (nb_db n) k)) →
  in_network n'.
Proof.
  intros Hn Hc Ht Hinv Hsub. split; [done| |].
  - rewrite Ht, Hc. apply (net_own _ Hn).
  - intros k [r Hr]. apply (net_nodes _ Hn). by eapply Hsub.
Qed.

Lemma brings_weaken root k (P Q : Gossip_0v1 → Prop) pkg :
  brings root k P pkg → (∀ g, P g → Q g) → brings root k Q pkg.
Proof. intros (data & received & ? & ? & HP) HPQ. exists data, received. eauto. Qed.

Lemma gossip_if_any_runs t n0 own told k n sent :
  nb_bound (nb_config n0) = true → own_signed (nb_signer (nb_config n0)) (nb_db n0) →
  node_by_key (nb_db n0) (this_node (nb_db n0)) = Some own → k ∈ half_neighbor_keys own →
  gossiped n0 told n sent →
  runs (gossip_if_any t k) n (λ _ n' new, gossiped n0 (told ++ [k]) n' (sent ++ new)).
Proof.
  intros Hb Hs Hown Hk (Hn & Hcfg & Ht & Hsub & pkgs & -> & Hpkgs).
  pose proof (net_db _ Hn) as Hinv. destruct (inv_root _ Hinv) as [own' Hown'].
  assert (own' = own) as -> by (pose proof (Hsub _ _ Hown') as E; rewrite Ht in E; congruence).
  unfold gossip_if_any. apply runs_gets, runs_gets, runs_lift.
  eapply returns_mono; [apply (produce_tells (nb_signer (nb_config n0)) _ (nb_db n0)); try done; by exists own|].
  intros [[o db'] last'] (Hinv' & Ht' & Hsub' & g & -> & Hg).
  apply runs_modify, runs_modify. set (n1 := set_last_dead_node_check _ _).
  assert (in_network n1) as Hn1.
  { apply (in_network_part n); try done. intros k' r Hr. exists r. by apply Hsub'. }
  destruct (inv_root _ Hinv') as [own' Hown'']. pose proof (Hsub' _ _ Hown'') as E. rewrite Ht', Hown' in E.
  injection E as <-. destruct (inv_neighbors _ Hinv' _ _ Hown'' Hk) as (target & Htarget & _).
  eapply runs_mono; [apply (gossip_to_neighbor_brings n1); try done|].
  - cbn. by rewrite Hcfg.
  - intros ->. by apply (inv_self _ Hinv' _ Hown'').
  - intros _ ? ? (-> & pkg & -> & Hpkg). split; [done|]. split; [done|]. split; [cbn; congruence|].
    split; [by intros k' r Hr%Hsub'; apply Hsub|]. exists (pkgs ++ [pkg]). rewrite fmap_app. split; [done|].
    apply Forall2_app; [done|]. constructor; [|constructor]. rewrite <-Ht, <-Ht'.
    eapply brings_weaken; [exact Hpkg|]. by intros ? <-.
Qed.

(** Signing the own record. *)
Lemma signs_own signer db :
  CryptDEOk signer → db_inv db →
  returns (root_mut db (λ r, regenerate_signed_gossip r signer)) (λ db', db_inv db' ∧
    this_node db' = this_node db ∧ own_signed signer db' ∧
    (∀ k r, node_by_key db' k = Some r → is_Some (node_by_key db k)) ∧
    (∀ k, k ≠ this_node db → node_by_key db' k = node_by_key db k) ∧
    ∃ own own', node_by_key db (this_node db) = Some own ∧
      node_by_key db' (this_node db) = Some own' ∧ inner own' = inner own).
Proof.
  intros Hs Hinv. eapply returns_mono; [apply root_mut_inv; [done|]|].
  { intros r _. eapply returns_mono; [by apply regenerate_returns|]. intros r' (Hi & Hm & _ & _).
    unfold same_wiring, public_key, half_neighbor_keys, accepts_connections. by rewrite Hi, Hm. }
  intros db' (Hinv' & Ht & _ & Hother & own & own' & Hown & Hre & Hown').
  pose proof (regenerate_returns own signer) as Hr. rewrite Hre in Hr. destruct Hr as (Hi & _ & Hread & Hver).
  split; [done|]. split; [done|]. split; [|split].
  - exists own'. rewrite Ht. split; [done|]. by rewrite Hi.
  - intros k r Hk. destruct (decide (k = this_node db)) as [->|Hne]; [by eexists|].
    rewrite Hother in Hk by done. by eexists.
  - split; [done|]. by exists own, own'.
Qed.

Lemma gossip_to_neighbors_runs t n own :
  in_network n → CryptDEOk (nb_signer (nb_config n)) → nb_bound (nb_config n) = true →
  node_by_key (nb_db n) (this_node (nb_db n)) = Some own →
  runs (gossip_to_neighbors t) n (λ _ n' sent, ∃ db,
    root_mut (nb_db n) (λ r, regenerate_signed_gossip r (nb_signer (nb_config n))) = Ret db ∧
    gossiped (set_db db n) (hash_iter (half_neighbor_keys own)) n' sent).
Proof.
  intros Hn Hs Hb Hown. unfold gossip_to_neighbors. apply runs_gets, runs_gets, runs_lift.
  destruct (returns_inv _ _ (signs_own _ _ Hs (net_db _ Hn)))
    as (db & Hmut & Hinv & Ht & Hsigned & Hsub & _ & own0 & own' & Hown0 & Hown' & Hi).
  assert (own0 = own) as -> by congruence. rewrite Hmut. cbn [returns].
  apply runs_modify. set (n0 := set_db db n).
  assert (in_network n0) as Hn0 by by apply (in_network_part n).
  apply runs_lift. unfold root. rewrite Ht, Hown'. cbn [expect returns].
  assert (half_neighbor_keys own' = half_neighbor_keys own) as -> by (unfold half_neighbor_keys; by rewrite Hi).
  eapply runs_mono; [apply (runs_each _ _ _ (gossiped n0))|].
  - split; [done|]. split; [done|]. split; [done|]. split; [done|]. by exists [].
  - intros told k n1 sent Hk%elem_of_hash_iter Hg. apply (gossip_if_any_runs t n0 own'); try done.
    + cbn. by rewrite Ht.
    + unfold half_neighbor_keys. by rewrite Hi.
  - intros [] n1 sent Hg. by exists db.
Qed.

(** C27: Gossip to the neighbors arrives.  When the actor of a node of the network tells
    its neighbors what it knows, it does not panic, its database keeps the invariant
    and gains no node, and it sends exactly one package for each of its neighbors, in
    order; each package, taken by the node's own Hopper, goes to that neighbor, whose
    Hopper hands gossip to its Neighborhood which holds the sender's own record, newly
    signed and readable, and otherwise records of the sender's database other than the
    neighbor's own. *)
Theorem gossip_reaches_neighbors t n own :
  in_network n → CryptDEOk (nb_signer (nb_config n)) → nb_bound (nb_config n) = true →
  node_by_key (nb_db n) (this_node (nb_db n)) = Some own →
  runs (gossip_to_neighbors t) n (λ _ n' sent, in_network n' ∧
    (∀ k, is_Some (node_by_key (nb_db n') k) → is_Some (node_by_key (nb_db n) k)) ∧
    ∃ db pkgs, sent = SendPackage <$> pkgs ∧
      root_mut (nb_db n) (λ r, regenerate_signed_gossip r (nb_signer (nb_config n))) = Ret db ∧
      Forall2 (λ k, brings (this_node (nb_db n)) k (tells (nb_signer (nb_config n)) db k))
        (hash_iter (half_neighbor_keys own)) pkgs).
Proof.
  intros Hn Hs Hb Hown. eapply runs_mono; [by apply gossip_to_neighbors_runs|].
  intros [] n' sent (db & Hmut & Hn' & _ & _ & Hsub' & pkgs & -> & Hpkgs).
  pose proof (signs_own _ _ Hs (net_db _ Hn)) as Hsig. rewrite Hmut in Hsig.
  destruct Hsig as (_ & Ht & _ & Hsub & _ & _). split; [done|]. split.
  { intros k [r Hr]. apply Hsub' in Hr. by eapply Hsub. }
  exists db, pkgs. split; [done|]. split; [done|]. cbn in Hpkgs. by rewrite Ht in Hpkgs.
Qed.

(** ** A neighbor that has gone *)
Lemma remove_neighbor_network n k r own :
  in_network n → node_by_key (nb_db n) k = Some r → k ≠ this_node (nb_db n) →
  node_by_key (nb_db n) (this_node (nb_db n)) = Some own → k ∈ half_neighbor_keys own →
  returns (remove_neighbor (nb_db n) k) (λ res, ∃ db, res = Ok (true, db) ∧
    this_node db = this_node (nb_db n) ∧ in_network (set_db db n) ∧
    node_by_key db k = Some (unset_node_addr r) ∧
    ∃ own', node_by_key db (this_node db) = Some own' ∧
      half_neighbor_keys own' = half_neighbor_keys own ∖ {[k]} ∧ version own' = u32 (version own + 1)).
Proof.
  intros Hn Hk Hne Hown Hin. pose proof (remove_neighbor_eq _ _ _ _ Hk Hne Hown) as Heq.
  destruct (returns_inv _ _ (remove_neighbor_spec _ _ _ _ (net_db _ Hn) Hk Hne Hown))
    as (res & Hres & b & db & -> & Hinv & -> & Hk' & Hips & Hown' & Hother).
  rewrite bool_decide_eq_true_2 in * by done.
  assert (this_node db = this_node (nb_db n)) as Ht by (cbv zeta in Heq; rewrite Heq in Hres; by injection Hres as <-).
  rewrite Hres. exists db. split; [done|]. split; [done|]. split; [|by split].
  apply (in_network_part n); try done. intros k' r' Hr'.
  destruct (decide (k' = k)) as [->|]; [by eexists|]. destruct (decide (k' = this_node (nb_db n))) as [->|]; [by eexists|].
  cbn in Hr'. rewrite Hother in Hr' by done. by eexists.
Qed.

(** A neighbor that is gone is dropped and the others are told.  When the stream to
    the address of a neighbor is shut down, the actor does not panic; afterwards the
    neighbor is no longer a neighbor of the node and no address leads to it, the node's
    record has a new version, and every remaining neighbor, and nobody else, is sent
    gossip with that record, which arrives. *)
Theorem stream_shutdown_drops_neighbor t n peer r own :
  in_network n → CryptDEOk (nb_signer (nb_config n)) → nb_bound (nb_config n) = true →
  node_by_key (nb_db n) (this_node (nb_db n)) = Some own →
  node_by_ip (nb_db n) (sa_ip peer) = Some r → public_key r ∈ half_neighbor_keys own →
  runs (handle_stream_shutdown_msg t true peer) n (λ _ n' sent, in_network n' ∧
    (∀ ip, by_ip_addr (nb_db n') !! ip ≠ Some (public_key r)) ∧
    ∃ own' db pkgs, node_by_key (nb_db n') (this_node (nb_db n)) = Some own' ∧
      half_neighbor_keys own' = half_neighbor_keys own ∖ {[public_key r]} ∧
      version own' = u32 (version own + 1) ∧
      node_by_key db (this_node db) = Some own' ∧ sent = SendPackage <$> pkgs ∧
      Forall2 (λ k, brings (this_node (nb_db n)) k (tells (nb_signer (nb_config n)) db k))
        (hash_iter (half_neighbor_keys own')) pkgs).
Proof.
  intros Hn Hs Hb Hown Hip Hin. pose proof (net_db _ Hn) as Hinv.
  unfold handle_stream_shutdown_msg. cbn [negb]. apply runs_gets. rewrite Hip. unfold node_by_ip in Hip.
  destruct (by_ip_addr (nb_db n) !! sa_ip peer) as [k|]; [|done].
  pose proof (inv_keys _ Hinv _ _ Hip) as Hr. rewrite Hr in *.
  assert (k ≠ this_node (nb_db n)) as Hne by (intros ->; by apply (inv_self _ Hinv _ Hown)).
  unfold nb_remove_neighbor. apply runs_gets, runs_lift.
  eapply returns_mono; [by apply remove_neighbor_network|].
  intros ? (db1 & -> & Ht1 & Hn1 & Hk1 & own1 & Hown1 & Hh1 & Hv1). apply runs_modify.
  eapply runs_mono; [by apply (gossip_to_neighbors_runs t (set_db db1 n) own1)|].
  intros [] n' sent (db & Hmut & Hn' & _ & Ht' & Hsub' & pkgs & -> & Hpkgs). split; [done|].
  pose proof (signs_own _ _ Hs (net_db _ Hn1)) as Hsig. cbn in Hmut, Hsig, Hsub', Ht', Hpkgs.
  rewrite Hmut in Hsig. destruct Hsig as (_ & Ht & _ & _ & Hother & own0 & own2 & Hown0 & Hown2 & Hi).
  assert (own0 = own1) as -> by congruence. split.
  { intros ip (r' & Hr' & Ha)%(inv_ips _ (net_db _ Hn')). apply Hsub' in Hr'.
    rewrite Hother, Hk1 in Hr' by congruence. by injection Hr' as <-. }
  destruct (inv_root _ (net_db _ Hn')) as [own3 Hown3]. pose proof (Hsub' _ _ Hown3) as E.
  rewrite Ht', Ht, Hown2 in E. injection E as <-.
  assert (half_neighbor_keys own2 = half_neighbor_keys own1) as Hh2 by (unfold half_neighbor_keys; by rewrite Hi).
  exists own2, db, pkgs. rewrite Hh2. split; [congruence|]. split; [done|].
  split; [unfold version in *; by rewrite Hi|]. split; [by rewrite Ht|]. split; [done|].
  by rewrite Ht, Ht1 in Hpkgs.
Qed.
End Network.

(** ** A concrete actor *)
Module ActorSamples.
#[local] Existing Instances elements_order Samples.shown_signatures Samples.shown_signatures_ok
  listed_keys value_codec Samples.hop_codec Samples.hop_codec_ok Samples.lcp_codec Samples.lcp_codec_ok
  Samples.message_codec Samples.message_codec_ok Samples.id_codec Samples.id_codec_ok
  Samples.request_payload Samples.response_payload Samples.dns_payload Samples.gossip_payload
  Samples.gossip_failure_payload Samples.request_payload_ok Samples.response_payload_ok
  Samples.gossip_payload_ok.

Definition net (k : PublicKey) : RoutingService := Samples.node (default 0 (head (key_data k))).

(** The actor of node 1 in the network of [route_db]. *)
Definition actor : Neighborhood :=
  mkNeighborhood
    (mkNbConfig (sample_cryptde (sample_key 1)) (rs_main (Samples.node 1)) true true false 1 Samples.contract)
    ∅ 1000 route_db (Some (WalletSecretKey [42])) TwoHops 3 77 (mkOcs NotConnected []) None
    UserExitPreferences_new.

Lemma actor_in_network : in_network (member := null_member) Samples.contract net actor.
Proof.
  split; [apply route_db_inv|done|]. intros k [r Hr].
  assert (k ∈ sample_key <$> [1; 2; 3; 4]) as Hk.
  { unfold node_by_key in Hr. cbn [nb_db actor by_public_key route_db] in Hr.
    apply elem_of_list_to_map_2 in Hr. set_solver. }
  apply list_elem_of_fmap in Hk as (z & -> & _). split; [done|]. split; [apply Samples.node_is_ok|done].
Qed.

Lemma actor_can_pay : can_pay [] [42] Samples.contract actor.
Proof. split; [done|done|by apply not_elem_of_nil]. Qed.

Definition query : RouteQueryMessage := mkRouteQuery None ProxyClientC (Some ProxyServerC) 1000 None.

Lemma query_is_answered :
  match handle_route_query_message query actor with Ret (Some _, _, _) => true | _ => false end = true.
Proof. vm_compute. reflexivity. Qed.

Lemma queried_route_delivers_witness :
  ∃ resp, handle_route_query_message query actor = Ret (Some resp, advanced actor, []) ∧
    answers [] 0 Samples.here [42] net actor resp.
Proof.
  pose proof (queried_route_delivers (member := null_member) [] 0 Samples.here [42] Samples.contract net
    actor query actor_in_network actor_can_pay eq_refl eq_refl eq_refl) as Hq.
  pose proof query_is_answered as Ha. unfold runs in Hq. revert Hq Ha.
  destruct (handle_route_query_message query actor) as [[[[resp|] n'] sent]|why]; [|done..].
  intros (-> & -> & Hans) _. by exists resp.
Defined.

(** Node 1 tells its neighbors 2 and 3. *)
#[local] Existing Instance sample_cbor.

Lemma gossip_reaches_neighbors_witness :
  ∃ n' pkg2 pkg3,
    gossip_to_neighbors 1500 actor = Ret (tt, n', [SendPackage pkg2; SendPackage pkg3]) ∧
    in_network (member := null_member) Samples.contract net n'.
Proof.
  pose proof (gossip_reaches_neighbors (member := null_member) [] 0 Samples.here Samples.contract net
    1500 actor (sample_record 1 [2; 3] 7 true) actor_in_network (sample_cryptde_ok _) eq_refl eq_refl) as Hg.
  unfold runs in Hg. destruct (gossip_to_neighbors 1500 actor) as [[[[] n'] sent]|why]; [|done].
  destruct Hg as (Hn & _ & db & pkgs & -> & _ & Hp).
  apply Forall2_length in Hp. assert (length pkgs = 2%nat) as Hl by (rewrite <-Hp; vm_compute; reflexivity).
  destruct pkgs as [|pkg2 [|pkg3 [|]]]; try done. by exists n', pkg2, pkg3.
Defined.

(** The same actor, which knows the addresses of its neighbors. *)
Definition addressed_db : NeighborhoodDatabase :=
  mkDb (sample_key 1) (by_public_key route_db)
    (list_to_map [(V4 16909058, sample_key 2); (V4 16909059, sample_key 3)]).

Lemma addressed_in_network : in_network (member := null_member) Samples.contract net (set_db addressed_db actor).
Proof.
  apply (in_network_part Samples.contract net actor); [apply actor_in_network|done|done| |].
  - apply db_invb_sound. vm_compute. reflexivity.
  - intros k r Hr. by exists r.
Qed.

(** The stream to node 2 is shut down; node 3 is told. *)
Lemma stream_shutdown_drops_neighbor_witness :
  ∃ n' pkg, handle_stream_shutdown_msg 1500 true (mkSocketAddr (V4 16909058) 5002)
      (set_db addressed_db actor) = Ret (tt, n', [SendPackage pkg]) ∧
    ∀ ip, by_ip_addr (nb_db n') !! ip ≠ Some (sample_key 2).
Proof.
  pose proof (stream_shutdown_drops_neighbor (member := null_member) [] 0 Samples.here Samples.contract net
    1500 (set_db addressed_db actor) (mkSocketAddr (V4 16909058) 5002) (sample_record 2 [1; 3] 3 true)
    (sample_record 1 [2; 3] 7 true) addressed_in_network (sample_cryptde_ok _) eq_refl eq_refl eq_refl
    ltac:(apply (bool_decide_unpack _); vm_compute; exact I)) as Hd.
  unfold runs in Hd. destruct (handle_stream_shutdown_msg _ _ _ _) as [[[[] n'] sent]|why]; [|done].
  destruct Hd as (_ & Hips & own' & db & pkgs & _ & Hh & _ & _ & -> & Hp).
  apply Forall2_length in Hp. rewrite Hh in Hp.
  assert (length pkgs = 1%nat) as Hl by (rewrite <-Hp; vm_compute; reflexivity).
  destruct pkgs as [|pkg [|]]; try done. by exists n', pkg.
Defined.
End ActorSamples.
