(* ===== verification/SharedMaps.v ===== *)
(** * Maps shared by the actors

    Models [node/src/sub_lib/bidi_hashmap.rs], two maps that are each other's inverse,
    and [node/src/sub_lib/ttl_hashmap.rs], a map that forgets entries that are not
    used for some time.  [now] is the clock at the moment of the call. *)

From S2P Require Import Prelude.

(** ** BidiHashMap *)
Record BidiHashMap (A B : Type) `{Countable A} `{Countable B} := mkBidi {
  a_to_b : gmap A B;
  b_to_a : gmap B A
}.
Arguments mkBidi {_ _ _ _ _ _} _ _.
Arguments a_to_b {_ _ _ _ _ _} _.
Arguments b_to_a {_ _ _ _ _ _} _.

Section Bidi.
Context {A B : Type} `{Countable A} `{Countable B}.
Implicit Types (m : BidiHashMap A B) (a : A) (b : B).

Definition bidi_new : BidiHashMap A B := mkBidi ∅ ∅.

Definition bidi_insert a b m : BidiHashMap A B := mkBidi (<[a := b]> (a_to_b m)) (<[b := a]> (b_to_a m)).

Definition bidi_len m : nat := size (a_to_b m).

Definition remove_a a m : option B * BidiHashMap A B :=
  match a_to_b m !! a with
  | Some b => (Some b, mkBidi (delete a (a_to_b m)) (delete b (b_to_a m)))
  | None => (None, m)
  end.

Definition remove_b b m : option A * BidiHashMap A B :=
  match b_to_a m !! b with
  | Some a => (Some a, mkBidi (delete a (a_to_b m)) (delete b (b_to_a m)))
  | None => (None, m)
  end.

Definition bidi_is_empty m : bool := bool_decide (a_to_b m = ∅) && bool_decide (b_to_a m = ∅).

(** The two maps are each other's inverse. *)
Definition bidi_ok m : Prop := ∀ a b, a_to_b m !! a = Some b ↔ b_to_a m !! b = Some a.

Lemma bidi_new_ok : bidi_ok bidi_new.
Proof. intros a b. simpl. by rewrite !lookup_empty. Qed.

(** Inserting a pair of which neither half is known; nothing is overwritten. *)
Lemma bidi_insert_ok a b m :
  bidi_ok m → a_to_b m !! a = None → b_to_a m !! b = None → bidi_ok (bidi_insert a b m).
Proof.
  intros Hm Ha Hb a' b'. simpl.
  destruct (decide (a' = a)) as [->|Hna], (decide (b' = b)) as [->|Hnb];
    rewrite ?lookup_insert_eq, ?lookup_insert_ne by done.
  - done.
  - split; [intros [= ->]; done|]. intros E%Hm. congruence.
  - split; [|intros [= ->]; done]. intros E%Hm. congruence.
  - apply Hm.
Qed.

Lemma remove_a_ok a m : bidi_ok m → bidi_ok (remove_a a m).2.
Proof.
  intros Hm. unfold remove_a. destruct (a_to_b m !! a) as [b|] eqn:E; [|done]. intros a' b'. simpl.
  rewrite !lookup_delete_Some, (Hm a' b'). apply Hm in E. split.
  - intros [Hne E']. split; [|done]. intros <-. congruence.
  - intros [Hne E']. split; [|done]. intros <-. apply Hm in E', E. congruence.
Qed.

Lemma remove_b_ok b m : bidi_ok m → bidi_ok (remove_b b m).2.
Proof.
  intros Hm. unfold remove_b. destruct (b_to_a m !! b) as [a|] eqn:E; [|done].
  assert (remove_a a m = (Some b, mkBidi (delete a (a_to_b m)) (delete b (b_to_a m)))) as Hr
    by (unfold remove_a; by rewrite (proj2 (Hm a b) E)).
  pose proof (remove_a_ok a m Hm) as Hok. by rewrite Hr in Hok.
Qed.

Lemma remove_a_lookup a m k :
  a_to_b (remove_a a m).2 !! k = if decide (k = a) then None else a_to_b m !! k.
Proof.
  unfold remove_a. destruct (a_to_b m !! a) as [b|] eqn:E; simpl; case_decide; subst; try done.
  - by rewrite lookup_delete_eq.
  - by rewrite lookup_delete_ne.
Qed.

Lemma remove_a_gone a b m : bidi_ok m → a_to_b m !! a = Some b → b_to_a (remove_a a m).2 !! b = None.
Proof. intros Hm E. unfold remove_a. rewrite E. simpl. by rewrite lookup_delete_eq. Qed.

Lemma bidi_len_inverse m : bidi_ok m → bidi_len m = size (b_to_a m).
Proof.
  intros Hm. unfold bidi_len. rewrite <-!size_dom.
  assert (dom (b_to_a m) = set_map (λ p : A * B, p.2) (map_to_set pair (a_to_b m) : gset (A * B))) as ->.
  { apply set_eq. intros b. rewrite elem_of_map, elem_of_dom. split.
    - intros [a Ha%Hm]. exists (a, b). split; [done|]. by apply elem_of_map_to_set_pair.
    - intros ([a b'] & -> & Hab%elem_of_map_to_set_pair). exists a. by apply Hm. }
  assert (dom (a_to_b m) = set_map (λ p : A * B, p.1) (map_to_set pair (a_to_b m) : gset (A * B))) as ->.
  { apply set_eq. intros a. rewrite elem_of_map, elem_of_dom. split.
    - intros [b Hb]. exists (a, b). split; [done|]. by apply elem_of_map_to_set_pair.
    - intros ([a' b'] & -> & Hab%elem_of_map_to_set_pair). by exists b'. }
  unfold set_map. rewrite !size_list_to_set, !length_fmap; [done| |].
  - apply NoDup_fmap_2_strong; [|apply NoDup_elements].
    intros [a1 b1] [a2 b2] H1 H2 E. simpl in E. subst b2.
    rewrite elem_of_elements, elem_of_map_to_set_pair in H1, H2. apply Hm in H1, H2. congruence.
  - apply NoDup_fmap_2_strong; [|apply NoDup_elements].
    intros [a1 b1] [a2 b2] H1 H2 E. simpl in E. subst a2.
    rewrite elem_of_elements, elem_of_map_to_set_pair in H1, H2. congruence.
Qed.
End Bidi.

(** ** TtlHashMap: the value of a key and when it was last used *)
Record TtlHashMap (K V : Type) `{Countable K} := mkTtl {
  last_check : Z;
  ttl_data : gmap K (V * Z);
  ttl : Z
}.
Arguments mkTtl {_ _ _ _} _ _ _.
Arguments last_check {_ _ _ _} _.
Arguments ttl_data {_ _ _ _} _.
Arguments ttl {_ _ _ _} _.

Section Ttl.
Context {K V : Type} `{Countable K}.
Implicit Types (m : TtlHashMap K V) (k : K).

Definition ttl_new (now ttl : Z) : TtlHashMap K V := mkTtl now ∅ ttl.

(** [later.duration_since(earlier)] *)
Definition duration_since (later earlier : Z) : Z := Z.max 0 (later - earlier).

Definition remove_expired_entries (now : Z) m : TtlHashMap K V :=
  if duration_since now (last_check m) <? ttl m then m
  else mkTtl now (filter (λ e, duration_since now e.2.2 ≤ ttl m) (ttl_data m)) (ttl m).

Definition ttl_insert (now : Z) k (value : V) m : TtlHashMap K V :=
  let m := remove_expired_entries now m in
  mkTtl (last_check m) (<[k := (value, now)]> (ttl_data m)) (ttl m).

Definition ttl_get (now : Z) k m : option V * TtlHashMap K V :=
  let m := remove_expired_entries now m in
  match ttl_data m !! k with
  | Some (result, _) => (Some result, mkTtl (last_check m) (<[k := (result, now)]> (ttl_data m)) (ttl m))
  | None => (None, m)
  end.

(** Nothing in the map had expired at the last check; [t] is the time of the last call. *)
Record ttl_ok (t : Z) m : Prop := {
  ttl_positive : 0 < ttl m;
  ttl_checked : last_check m ≤ t;
  ttl_fresh k v s : ttl_data m !! k = Some (v, s) → s ≤ t ∧ last_check m - s ≤ ttl m
}.

Lemma ttl_new_ok now d : 0 < d → ttl_ok now (ttl_new now d).
Proof. intros Hd. split; [done|done|]. intros k v s. simpl. by rewrite lookup_empty. Qed.

Lemma remove_expired_lookup now m k v s :
  ttl_data (remove_expired_entries now m) !! k = Some (v, s) →
  ttl_data m !! k = Some (v, s).
Proof. unfold remove_expired_entries. destruct (_ <? _); [done|]. simpl. by intros [? _]%map_lookup_filter_Some. Qed.

(** An entry that was used within the time to live survives. *)
Lemma remove_expired_keeps now m k v s :
  ttl_data m !! k = Some (v, s) → now - s ≤ ttl m → 0 < ttl m →
  ttl_data (remove_expired_entries now m) !! k = Some (v, s).
Proof.
  intros Hk Hs Hp. unfold remove_expired_entries. destruct (_ <? _); [done|]. simpl.
  apply map_lookup_filter_Some. split; [done|]. simpl. unfold duration_since. lia.
Qed.

Lemma remove_expired_ok t now m : ttl_ok t m → t ≤ now → ttl_ok now (remove_expired_entries now m).
Proof.
  intros [Hp Hc Hf] Ht. unfold remove_expired_entries. destruct (Z.ltb_spec (duration_since now (last_check m)) (ttl m)).
  - split; [done|lia|]. intros k v s Hk. apply Hf in Hk. lia.
  - split; [done|simpl; lia|]. simpl. intros k v s [Hk Hs]%map_lookup_filter_Some. simpl in Hs.
    unfold duration_since in Hs. apply Hf in Hk. lia.
Qed.

Lemma ttl_insert_ok t now k v m : ttl_ok t m → t ≤ now → ttl_ok now (ttl_insert now k v m).
Proof.
  intros Hm Ht. destruct (remove_expired_ok t now m Hm Ht) as [Hp Hc Hf]. split; [done|done|].
  intros k' v' s. simpl. rewrite lookup_insert. case_decide; [|apply Hf]. intros [= <- <-]. lia.
Qed.

Lemma ttl_get_ok t now k m : ttl_ok t m → t ≤ now → ttl_ok now (ttl_get now k m).2.
Proof.
  intros Hm Ht. pose proof (remove_expired_ok t now m Hm Ht) as Hr. unfold ttl_get.
  destruct (ttl_data (remove_expired_entries now m) !! k) as [[v s]|]; [|done]. destruct Hr as [Hp Hc Hf].
  split; [done|done|]. intros k' v' s'. simpl. rewrite lookup_insert. case_decide; [|apply Hf].
  intros [= <- <-]. lia.
Qed.

(** What was put in or used at [s] is found until [s + ttl], and not at [s + 2 * ttl] or
    later. *)
Lemma ttl_get_found now k v s m :
  ttl_data m !! k = Some (v, s) → 0 < ttl m → now - s ≤ ttl m → (ttl_get now k m).1 = Some v.
Proof.
  intros Hk Hp Hs. unfold ttl_get. by rewrite (remove_expired_keeps now m k v s).
Qed.

Lemma ttl_get_lost t now k v s m :
  ttl_ok t m → t ≤ now → ttl_data m !! k = Some (v, s) → 2 * ttl m ≤ now - s → (ttl_get now k m).1 = None.
Proof.
  intros [Hp Hc Hf] Ht Hk Hs. pose proof (Hf _ _ _ Hk) as [Hst Hcs]. unfold ttl_get.
  destruct (ttl_data (remove_expired_entries now m) !! k) as [[v' s']|] eqn:E; [|done].
  assert (s' = s) as -> by (apply remove_expired_lookup in E; congruence).
  revert E. unfold remove_expired_entries. destruct (Z.ltb_spec (duration_since now (last_check m)) (ttl m)) as [Hl|Hl].
  { unfold duration_since in Hl. lia. }
  simpl. intros [_ Hle]%map_lookup_filter_Some. simpl in Hle. unfold duration_since in Hle. lia.
Qed.

Lemma ttl_insert_get now now' k v m :
  0 < ttl m → now' - now ≤ ttl m → (ttl_get now' k (ttl_insert now k v m)).1 = Some v.
Proof.
  intros Hp Hn. apply (ttl_get_found _ _ _ now); simpl.
  - by rewrite lookup_insert_eq.
  - unfold remove_expired_entries. by destruct (_ <? _).
  - unfold remove_expired_entries. by destruct (_ <? _).
Qed.
End Ttl.

(** ** Limiter: a counter of the iterations that remain; negative is without limit *)
Definition should_continue (iterations_remaining : Z) : bool * Z :=
  if iterations_remaining <? 0 then (true, iterations_remaining)
  else if iterations_remaining =? 0 then (false, iterations_remaining)
  else (true, iterations_remaining - 1).
