(* ===== verification/ProtocolPacks.v ===== *)
(** * Protocol packs of the ProxyServer

    Models [http_protocol_pack.rs], [protocol_pack.rs], [server_impersonator_http.rs],
    [server_impersonator_tls.rs] and [client_request_payload_factory.rs] of
    [node/src/proxy_server/], and the check of host names at the end of its [mod.rs]:
    which host a browser asks for, what it is told when something is wrong, and the
    payload that is made of its data.

    Text is the list of its bytes.  The regular expressions ([regex] crate) and the
    recognition of HTTP methods ([http] crate) are parameters. *)

From stdpp Require Import pretty.
From S2P Require Import Prelude.
From S2P Require Import Bytes.
From S2P Require Import NodeAddr.
From S2P Require Import NodeRecord.
From S2P Require Import Sequencing.
From S2P Require Import Cryptde.
From S2P Require Import Payloads.
From S2P Require Import Hopper.
From S2P Require Import HttpFraming.
From S2P Require Import TlsProtocolPack.

(** What other crates read out of text: the first group of [HOST_PATTERN], whether
    [http::Method::from_bytes] gives [CONNECT], and the third group of the pattern of
    [Hostname::new]. *)
Class WebText := {
  host_pattern : list Z → option (list Z);
  connect_method : list Z → bool;
  hostname_pattern : list Z → option (list Z)
}.

(** ** Text *)
Fixpoint text_of (l : list Z) : string :=
  match l with
  | [] => EmptyString
  | b :: l => String (Ascii.ascii_of_N (Z.to_N b)) (text_of l)
  end.

(** [str::split(c)] *)
Fixpoint split_on (c : Z) (l : list Z) : list (list Z) :=
  match l with
  | [] => [[]]
  | b :: l =>
      match split_on c l with
      | part :: parts => if b =? c then [] :: part :: parts else (b :: part) :: parts
      | [] => []
      end
  end.

(** [str::replace(pattern, to)] of a pattern that is not empty; [skip] bytes of an
    occurrence remain. *)
Fixpoint replace_from (skip : nat) (pattern to l : list Z) : list Z :=
  match l with
  | [] => []
  | b :: l' =>
      match skip with
      | S skip => replace_from skip pattern to l'
      | O =>
          if starts_with l pattern then to ++ replace_from (length pattern - 1) pattern to l'
          else b :: replace_from 0 pattern to l'
      end
  end.
Abbreviation replace := (replace_from 0).

(** [format!("{}", n)] *)
Definition decimal (n : nat) : list Z := bytes (pretty (N.of_nat n)).

Definition parse_u16 (l : list Z) : option Z :=
  let l' := match l with 43 :: l' => l' | _ => l end in
  match l' with
  | [] => None
  | _ => n ← parse_digits l' 0; if n <? 2 ^ 16 then Some n else None
  end.

(** ** [HttpProtocolPack] *)
Definition HTTP_PORT : Z := 80.

Definition port_from_string (port_str : list Z) : option Z := parse_u16 port_str.

Definition host_from_host_name_and_port (host_and_port : list Z) : option Host :=
  match split_on 58 host_and_port with
  | [name] => Some (mkHost name HTTP_PORT)
  | [name; port_str] => port ← port_from_string port_str; Some (mkHost name port)
  | _ => None
  end.

Definition find_header_host (d : list Z) : option Host :=
  idx ← index_of d DOUBLE_CRLF;
  let headers := take (idx + 2) d in
  let needle := CRLF ++ bytes "Host: " in
  i ← index_of headers needle;
  let begin := (i + length needle)%nat in
  n ← index_of (drop begin headers) CRLF;
  let host_header_value := take n (drop begin headers) in
  if valid_utf8 host_header_value then host_from_host_name_and_port host_header_value else None.

Section Packs.
Context `{WebText}.

Definition find_url_host (d : list Z) : option Host :=
  idx ← index_of d CRLF;
  let first_line := take idx d in
  i ← index_of first_line [32];
  let path_begin := (i + 1)%nat in
  n ← index_of (drop path_begin d) [32];
  let path := take n (drop path_begin d) in
  if valid_utf8 path then
    host_name_and_port ← host_pattern path;
    host ← host_from_host_name_and_port host_name_and_port;
    if bool_decide (host_name host = []) then None else Some host
  else None.

Definition http_find_host (d : list Z) : option Host :=
  match find_header_host d with Some host => Some host | None => find_url_host d end.

Fixpoint take_while_not (c : Z) (l : list Z) : list Z :=
  match l with [] => [] | b :: l => if b =? c then [] else b :: take_while_not c l end.

Definition is_connect (d : list Z) : bool := connect_method (take_while_not 32 (take 8 d)).

(** ** [protocol_pack.rs] *)
Definition pack_find_host (p : ProxyProtocol) (d : list Z) : outcome (option Host) :=
  match p with HTTP => mret (http_find_host d) | TLS => tls_find_host d end.

Definition standard_port (p : ProxyProtocol) : Z := match p with HTTP => HTTP_PORT | TLS => TLS_PORT end.

Definition from_standard_port (port : Z) : option ProxyProtocol :=
  if port =? HTTP_PORT then Some HTTP else if port =? TLS_PORT then Some TLS else None.

Inductive PackError := NoOriginPort | NoProtocolForPort (port : Z).

Definition from_ibcd (ibcd : InboundClientData) : result ProxyProtocol PackError :=
  match reception_port ibcd with
  | None => Err NoOriginPort
  | Some origin_port =>
      match from_standard_port origin_port with
      | Some p => Ok p
      | None => Err (NoProtocolForPort origin_port)
      end
  end.

(** ** [ClientRequestPayloadFactoryReal::make] *)
Definition make_request_payload (ibcd : InboundClientData) (stream_key : StreamKey)
    (alias_key : PublicKey) : outcome (option ClientRequestPayload_0v1) :=
  match from_ibcd ibcd, ibcd_sequence_number ibcd with
  | Ok p, Some sequence_number =>
      target_host ← pack_find_host p (ibcd_data ibcd);
      let '(target_hostname_opt, port) :=
        match target_host with
        | Some host => (Some (text_of (host_name host)), host_port host)
        | None => (None, standard_port p)
        end in
      mret (Some (mkRequest stream_key
        (mkPacket (ibcd_data ibcd) sequence_number (ibcd_last_data ibcd))
        target_hostname_opt port p alias_key))
  | _, _ => mret None
  end.
End Packs.

(** ** Answers of the ProxyServer in place of the server *)
Definition LF : list Z := [10].
Definition quoted (l : list Z) : list Z := [34] ++ l ++ [34].

Definition ERROR_TEMPLATE : list Z :=
  bytes "<html>" ++ LF ++ bytes "<body>" ++ LF ++ bytes "<h1>Error {status}</h1>" ++ LF ++
  bytes "<h2>Title: {title}</h2>" ++ LF ++ bytes "<h3>Subtitle: {subtitle}</h3>" ++ LF ++
  bytes "<p>{content}</p>" ++ LF ++ bytes "</body>" ++ LF ++ bytes "</html>" ++ LF.

Definition HTTP_RESPONSE_TEMPLATE : list Z :=
  bytes "HTTP/1.1 {status} Routing Error" ++ CRLF ++ bytes "Content-Type: text/html" ++ CRLF ++
  bytes "Content-Length: {length}" ++ CRLF ++ CRLF ++ bytes "{body}".

Definition make_error_page (status : nat) (title subtitle content : list Z) : list Z :=
  replace (bytes "{content}") content
    (replace (bytes "{subtitle}") subtitle
      (replace (bytes "{title}") title
        (replace (bytes "{status}") (decimal status) ERROR_TEMPLATE))).

Definition make_error_response (status : nat) (title subtitle content : list Z) : list Z :=
  let html := make_error_page status title subtitle content in
  replace (bytes "{body}") html
    (replace (bytes "{length}") (decimal (length html))
      (replace (bytes "{status}") (decimal status) HTTP_RESPONSE_TEMPLATE)).

Definition TLS_INTERNAL_ERROR_ALERT : list Z := [0x15; 0x03; 0x03; 0x00; 0x02; 0x02; 0x50].
Definition TLS_UNRECOGNIZED_NAME_ALERT : list Z := [0x15; 0x03; 0x03; 0x00; 0x02; 0x02; 0x70].

Definition route_query_failure_response (p : ProxyProtocol) (server_name : list Z) : list Z :=
  match p with
  | HTTP =>
      make_error_response 503 (bytes "Routing Problem")
        (bytes "Can't find a route to " ++ server_name)
        (bytes "MASQ can't find a route through the Network yet to a Node that knows where to find " ++
         server_name ++
         bytes ". Maybe later enough will be known about the Network to find that Node, but we can't guarantee it. We're sorry.")
  | TLS => TLS_INTERNAL_ERROR_ALERT
  end.

Definition dns_resolution_failure_response (p : ProxyProtocol) (server_name_opt : option (list Z)) : list Z :=
  match p with
  | HTTP =>
      let '(server_name, quoted_server_name) :=
        match server_name_opt with
        | Some name => (name, quoted name)
        | None => (bytes "<unspecified>", bytes "<unspecified>")
        end in
      make_error_response 503 (bytes "DNS Resolution Problem")
        (bytes "Exit Nodes couldn't resolve " ++ quoted_server_name)
        (bytes "DNS Failure, We have tried multiple Exit Nodes and all have failed to resolve this address " ++
         server_name)
  | TLS => TLS_UNRECOGNIZED_NAME_ALERT
  end.

Definition consuming_wallet_absent (p : ProxyProtocol) : list Z :=
  match p with
  | HTTP =>
      make_error_response 402 (bytes "Consuming Wallet Required")
        (bytes "Can't consume without wallet to pay from")
        (bytes "You're trying to consume routing and exit services from other Nodes, but you haven't specified a consuming wallet from which your Node can pay the bills you're about to incur. Set up a funded consuming wallet and try again.")
  | TLS => TLS_INTERNAL_ERROR_ALERT
  end.

(** ** [IpAddr::from_str]: a parser takes text off the front, or fails *)
Definition decimal_digit (b : Z) : option Z := position_in_range b 48 57.

Fixpoint span_digits (digit : Z → option Z) (l : list Z) : list Z * list Z :=
  match l with
  | [] => ([], [])
  | b :: l' =>
      match digit b with
      | Some d => let '(ds, rest) := span_digits digit l' in (d :: ds, rest)
      | None => ([], l)
      end
  end.

Definition read_number (digit : Z → option Z) (radix : Z) (max_digits : nat) (allow_zero_prefix : bool)
    (limit : Z) (l : list Z) : option (Z * list Z) :=
  let '(ds, rest) := span_digits digit l in
  let value := foldl (λ acc d, acc * radix + d) 0 ds in
  if bool_decide (ds = []) || (max_digits <? length ds)%nat || (limit <=? value) then None
  else if negb allow_zero_prefix && bool_decide (head ds = Some 0) && (1 <? length ds)%nat then None
  else Some (value, rest).

Definition read_char (c : Z) (l : list Z) : option (list Z) :=
  match l with b :: l' => if b =? c then Some l' else None | [] => None end.

Definition read_octet (l : list Z) : option (Z * list Z) := read_number decimal_digit 10 3 false 256 l.
Definition read_hextet (l : list Z) : option (Z * list Z) := read_number evaluate_hex_digit 16 4 true 65536 l.

Definition read_ipv4_addr (l : list Z) : option (Z * list Z) :=
  '(a, l) ← read_octet l; l ← read_char 46 l;
  '(b, l) ← read_octet l; l ← read_char 46 l;
  '(c, l) ← read_octet l; l ← read_char 46 l;
  '(d, l) ← read_octet l;
  Some (((a * 256 + b) * 256 + c) * 256 + d, l).

(** A group after the first needs a colon before it. *)
Definition separated {A} (first : bool) (inner : list Z → option A) (l : list Z) : option A :=
  if first then inner l else l ← read_char 58 l; inner l.

(** At most [limit] groups; whether the last two are an IPv4 address. *)
Fixpoint read_groups (limit : nat) (first : bool) (l : list Z) : list Z * bool * list Z :=
  match limit with
  | O => ([], false, l)
  | S limit' =>
      match (if (1 <=? limit')%nat then separated first read_ipv4_addr l else None) with
      | Some (v4, rest) => ([v4 / 65536; v4 mod 65536], true, rest)
      | None =>
          match separated first read_hextet l with
          | Some (g, rest) =>
              let '(gs, ipv4, rest) := read_groups limit' false rest in (g :: gs, ipv4, rest)
          | None => ([], false, l)
          end
      end
  end.

Definition ipv6_of_groups (gs : list Z) : Z := foldl (λ acc g, acc * 65536 + g) 0 gs.

Definition read_ipv6_addr (l : list Z) : option (Z * list Z) :=
  let '(head, head_ipv4, rest) := read_groups 8 true l in
  if (length head =? 8)%nat then Some (ipv6_of_groups head, rest)
  else if head_ipv4 then None
  else
    rest ← read_char 58 rest; rest ← read_char 58 rest;
    let '(tail, _, rest) := read_groups (8 - (length head + 1)) true rest in
    Some (ipv6_of_groups (head ++ replicate (8 - length head - length tail) 0 ++ tail), rest).

Definition ip_from_str (l : list Z) : option IpAddr :=
  match read_ipv4_addr l with
  | Some (v, rest) => if bool_decide (rest = []) then Some (V4 v) else None
  | None =>
      match read_ipv6_addr l with
      | Some (v, rest) => if bool_decide (rest = []) then Some (V6 v) else None
      | None => None
      end
  end.

(** ** [Hostname] *)
Section Hostnames.
Context `{WebText}.

Definition Hostname_new (raw_url : list Z) : list Z := default raw_url (hostname_pattern raw_url).

Definition validate_ipv4 (addr : Z) : bool := negb (addr =? 0) && negb (addr =? 2130706433).
Definition validate_ipv6 (addr : Z) : bool := negb (addr =? 0) && negb (addr =? 1).
Definition validate_raw_string (name : list Z) : bool := negb (bool_decide (name = bytes "localhost")).

(** Whether the host is not the local one. *)
Definition validate_non_loopback_host (hostname : list Z) : bool :=
  match ip_from_str hostname with
  | Some (V4 addr) => validate_ipv4 addr
  | Some (V6 addr) => validate_ipv6 addr
  | None => validate_raw_string hostname
  end.
End Hostnames.

Example loopback_addresses :
  ip_from_str (bytes "127.0.0.1") = Some (V4 2130706433) ∧ ip_from_str (bytes "::1") = Some (V6 1) ∧
  ip_from_str (bytes "::") = Some (V6 0) ∧ ip_from_str (bytes "1:2::7:8") = Some (V6 (ipv6_of_groups [1;2;0;0;0;0;7;8])) ∧
  ip_from_str (bytes "::ffff:1.2.3.4") = Some (V6 (ipv6_of_groups [0;0;0;0;0;65535;258;772])) ∧
  ip_from_str (bytes "1.2.3.04") = None ∧ ip_from_str (bytes "1:2:3:4:5:6:7:8") = Some (V6 (ipv6_of_groups [1;2;3;4;5;6;7;8])) ∧
  ip_from_str (bytes "example.com") = None ∧ ip_from_str (bytes "1.2.3.4.5") = None.
Proof. vm_compute. done. Qed.
