(* ===== verification/ProxyServer.v ===== *)
(** * The ProxyServer actor

    Models [node/src/proxy_server/mod.rs]: the data a browser sends on its streams is
    packed into requests that travel along routes of the Neighborhood, and responses
    are given back to the stream they belong to; failed name resolutions are retried,
    the services of other nodes are reported to the Accountant.

    A handler is a computation on the state of the actor ([prog] of [Actor.v]).  Its
    messages to other actors and to itself are values of [ProxyMessage]; the future
    that waits for the answer of the Neighborhood is the message [AskRoute], answered
    by [resolve_message].  [now] is the clock during a handler.  Logging and the texts
    of errors are left out.  Stream keys are SHA-1 digests; the hash function and the
    salt of the process are parameters. *)

From S2P Require Import Prelude.
From S2P Require Import Actor.
From S2P Require Import Bytes.
From S2P Require Import SharedMaps.
From S2P Require Import NodeAddr.
From S2P Require Import NodeRecord.
From S2P Require Import Routing.
From S2P Require Import Sequencing.
From S2P Require Import Cryptde.
From S2P Require Import Routes.
From S2P Require Import Migrations.
From S2P Require Import Payloads.
From S2P Require Import Hopper.
From S2P Require Import HttpFraming.
From S2P Require Import TlsProtocolPack.
From S2P Require Import ProtocolPacks.
From S2P Require Import Neighborhood.

#[export] Instance SocketAddr_countable : Countable SocketAddr :=
  inj_countable' (λ a, (sa_ip a, sa_port a)) (λ p, mkSocketAddr p.1 p.2)
    (λ a, match a with mkSocketAddr _ _ => eq_refl end).

#[export] Instance Endpoint_eq_dec : EqDecision Endpoint.
Proof. solve_decision. Defined.

Definition RETURN_ROUTE_TTL : Z := 120.
Definition STREAM_KEY_PURGE_DELAY : Z := 30.

(** ** Messages *)
Record RoutingServiceConsumed := mkRoutingConsumed {
  rsc_earning_wallet : Wallet;
  rsc_service_rate : Z;
  rsc_byte_rate : Z
}.

Record ExitServiceConsumed := mkExitConsumed {
  esc_earning_wallet : Wallet;
  esc_payload_size : nat;
  esc_service_rate : Z;
  esc_byte_rate : Z
}.

Record ReportServicesConsumedMessage := mkConsumed {
  consumed_timestamp : Z;
  consumed_exit : ExitServiceConsumed;
  routing_payload_size : nat;
  consumed_routing : list RoutingServiceConsumed
}.

Record AddReturnRouteMessage := mkReturnRoute {
  rr_return_route_id : Z;
  rr_expected_services : list ExpectedService;
  rr_protocol : ProxyProtocol;
  rr_hostname_opt : option string
}.

Record DNSFailureRetry := mkRetry {
  unsuccessful_request : ClientRequestPayload_0v1;
  retries_left : nat
}.

Record TransmitToHopperArgs := mkArgs {
  args_main_cryptde : NodeCryptDE;
  args_payload : ClientRequestPayload_0v1;
  args_client_addr : SocketAddr;
  args_timestamp : Z;
  args_is_decentralized : bool;
  args_retire_stream_key : bool
}.

Record NonClandestineAttributes := mkNca { nca_reception_port : Z; nca_sequence_number : Z }.
Inductive RemovedStreamType := Clandestine | NonClandestine (nca : NonClandestineAttributes).

Record StreamShutdownMsg := mkShutdown {
  ss_peer_addr : SocketAddr;
  ss_stream_type : RemovedStreamType;
  ss_report_to_counterpart : bool
}.

Inductive ProxyError :=
| NoRouteTo (hostname : string) (stream_key : StreamKey)
| NeighborhoodRefused
| NoPayload
| BadPack (e : PackError)
| MissingConsumingWallet
| LoopbackHost.

Inductive ProxyMessage :=
| ToClient (m : TransmitDataMsg)
| ToHopper (p : IncipientCoresPackage)
| ReportConsumed (r : ReportServicesConsumedMessage)
| AskRoute (args : TransmitToHopperArgs) (query : RouteQueryMessage)
| UpdateUnreachable (k : PublicKey) (hostname : string)
| AddReturnRoute (m : AddReturnRouteMessage)
| AddRouteResult (stream_key : StreamKey) (r : result RouteQueryResponse ProxyError)
| ShutdownStream (m : StreamShutdownMsg)
| SchedulePurge (stream_key : StreamKey) (delay : Z).

(** [SequencedPacket::from(&TransmitDataMsg)]: what the writer of a client's stream gets. *)
Definition packet_of_transmit (m : TransmitDataMsg) : SequencedPacket :=
  mkPacket (tx_data m) (default 0 (tx_sequence_number m)) (tx_last_data m).

(** ** The state *)
Record ProxyServer := mkProxyServer {
  ps_bound : bool;
  ps_main : NodeCryptDE;
  ps_alias : NodeCryptDE;
  ps_is_decentralized : bool;
  consuming_wallet_balance : option Z;
  is_running_in_integration_test : bool;
  keys_and_addrs : BidiHashMap StreamKey SocketAddr;
  tunneled_hosts : gmap StreamKey string;
  dns_failure_retries : gmap StreamKey DNSFailureRetry;
  stream_key_routes : gmap StreamKey RouteQueryResponse;
  stream_key_ttl : gmap StreamKey Z;
  route_ids_to_return_routes : TtlHashMap Z AddReturnRouteMessage;
  browser_proxy_sequence_offset : bool
}.

Definition ProxyServer_new (now : Z) (main alias : NodeCryptDE) (is_decentralized : bool)
    (balance : option Z) (integration_test : bool) : ProxyServer :=
  mkProxyServer false main alias is_decentralized balance integration_test bidi_new ∅ ∅ ∅ ∅
    (ttl_new now RETURN_ROUTE_TTL) false.

(** [Handler<BindMessage>] *)
Definition handle_bind (p : ProxyServer) : ProxyServer :=
  mkProxyServer true (ps_main p) (ps_alias p) (ps_is_decentralized p) (consuming_wallet_balance p)
    (is_running_in_integration_test p) (keys_and_addrs p) (tunneled_hosts p) (dns_failure_retries p)
    (stream_key_routes p) (stream_key_ttl p) (route_ids_to_return_routes p) (browser_proxy_sequence_offset p).

(** The part of the state that changes: *)
Definition set_streams (keys : BidiHashMap StreamKey SocketAddr) (hosts : gmap StreamKey string)
    (routes : gmap StreamKey RouteQueryResponse) (ttls : gmap StreamKey Z) (p : ProxyServer) : ProxyServer :=
  mkProxyServer (ps_bound p) (ps_main p) (ps_alias p) (ps_is_decentralized p)
    (consuming_wallet_balance p) (is_running_in_integration_test p) keys hosts
    (dns_failure_retries p) routes ttls (route_ids_to_return_routes p) (browser_proxy_sequence_offset p).

Definition set_keys (keys : BidiHashMap StreamKey SocketAddr) (p : ProxyServer) : ProxyServer :=
  set_streams keys (tunneled_hosts p) (stream_key_routes p) (stream_key_ttl p) p.
Definition set_hosts (hosts : gmap StreamKey string) (p : ProxyServer) : ProxyServer :=
  set_streams (keys_and_addrs p) hosts (stream_key_routes p) (stream_key_ttl p) p.
Definition set_routes (routes : gmap StreamKey RouteQueryResponse) (p : ProxyServer) : ProxyServer :=
  set_streams (keys_and_addrs p) (tunneled_hosts p) routes (stream_key_ttl p) p.
Definition set_ttls (ttls : gmap StreamKey Z) (p : ProxyServer) : ProxyServer :=
  set_streams (keys_and_addrs p) (tunneled_hosts p) (stream_key_routes p) ttls p.

Definition set_retries (retries : gmap StreamKey DNSFailureRetry) (p : ProxyServer) : ProxyServer :=
  mkProxyServer (ps_bound p) (ps_main p) (ps_alias p) (ps_is_decentralized p)
    (consuming_wallet_balance p) (is_running_in_integration_test p) (keys_and_addrs p) (tunneled_hosts p)
    retries (stream_key_routes p) (stream_key_ttl p) (route_ids_to_return_routes p)
    (browser_proxy_sequence_offset p).

Definition set_return_routes (m : TtlHashMap Z AddReturnRouteMessage) (p : ProxyServer) : ProxyServer :=
  mkProxyServer (ps_bound p) (ps_main p) (ps_alias p) (ps_is_decentralized p)
    (consuming_wallet_balance p) (is_running_in_integration_test p) (keys_and_addrs p) (tunneled_hosts p)
    (dns_failure_retries p) (stream_key_routes p) (stream_key_ttl p) m (browser_proxy_sequence_offset p).

Definition set_sequence_offset (b : bool) (p : ProxyServer) : ProxyServer :=
  mkProxyServer (ps_bound p) (ps_main p) (ps_alias p) (ps_is_decentralized p)
    (consuming_wallet_balance p) (is_running_in_integration_test p) (keys_and_addrs p) (tunneled_hosts p)
    (dns_failure_retries p) (stream_key_routes p) (stream_key_ttl p) (route_ids_to_return_routes p) b.

Abbreviation proxy := (prog ProxyServer ProxyMessage).

(** [self.subs.as_ref().expect(..)] *)
Definition out_subs (why : string) : proxy unit := λ p,
  if ps_bound p then Ret (tt, p, []) else Panic why.

Definition tell (m : ProxyMessage) : proxy unit := _ ← out_subs "unbound in ProxyServer"; send m.

Section Handlers.
Context `{Signatures} `{KeyOrder} `{Codec Value} `{Codec LiveHop} `{Codec MessageType} `{Codec Z}
        `{Payload ClientRequestPayload_0v1} `{WebText}.
Context (sha1 : list Z → list Z) (salt : list Z).

(** ** Streams *)
Definition ip_octets (ip : IpAddr) : list Z :=
  match ip with V4 z => parts 8 4 z | V6 z => parts 8 16 z end.

Definition StreamKey_new (public_key : PublicKey) (client_addr : SocketAddr) : StreamKey :=
  mkStreamKey (sha1 (key_data public_key ++ ip_octets (sa_ip client_addr) ++
                     [Z.land (sa_port client_addr) 0xFF; Z.shiftr (sa_port client_addr) 8] ++ salt)).

Definition find_or_generate_stream_key (client_addr : SocketAddr) : proxy StreamKey :=
  keys ← gets keys_and_addrs;
  match b_to_a keys !! client_addr with
  | Some stream_key => mret stream_key
  | None =>
      main ← gets ps_main;
      let stream_key := StreamKey_new (cd_public_key main) client_addr in
      _ ← modify (λ p, set_keys (bidi_insert stream_key client_addr (keys_and_addrs p)) p);
      mret stream_key
  end.

Definition purge_stream_key (stream_key : StreamKey) : proxy unit :=
  modify (λ p, set_streams (remove_a stream_key (keys_and_addrs p)).2
    (delete stream_key (tunneled_hosts p)) (delete stream_key (stream_key_routes p))
    (delete stream_key (stream_key_ttl p)) p).

Definition remove_dns_failure_retry (stream_key : StreamKey) : proxy (option DNSFailureRetry) :=
  retries ← gets dns_failure_retries;
  _ ← modify (set_retries (delete stream_key retries));
  mret (retries !! stream_key).

(** ** Services of other nodes *)
Definition report_on_routing_services (expected_services : list ExpectedService) : list RoutingServiceConsumed :=
  omap (λ service,
    match service with
    | ServiceRouting _ earning_wallet rp =>
        Some (mkRoutingConsumed earning_wallet (routing_service_rate rp) (routing_byte_rate rp))
    | _ => None
    end) expected_services.

Fixpoint find_exit_service (expected_services : list ExpectedService) (acc : option (Wallet * RatePack)) :
    outcome (option (Wallet * RatePack)) :=
  match expected_services with
  | [] => mret acc
  | service :: rest =>
      match acc, service with
      | Some _, ServiceExit _ _ _ => Panic "Detected more than one exit service in one-way route"
      | None, ServiceExit _ earning_wallet rp => find_exit_service rest (Some (earning_wallet, rp))
      | _, _ => find_exit_service rest acc
      end
  end.

Definition report_on_exit_service (expected_services : list ExpectedService) (payload_size : nat) :
    outcome ExitServiceConsumed :=
  o ← find_exit_service expected_services None;
  match o with
  | Some (earning_wallet, rp) =>
      mret (mkExitConsumed earning_wallet payload_size (exit_service_rate rp) (exit_byte_rate rp))
  | None => Panic "Each route must demand an exit service, but this route has no such demand"
  end.

Definition exit_key_of (expected_services : list ExpectedService) : option PublicKey :=
  head (omap (λ service, match service with ServiceExit k _ _ => Some k | _ => None end) expected_services).

(** ** Requests *)
Definition hostname (payload : ClientRequestPayload_0v1) : string :=
  default "<unknown>" (target_hostname payload).

Definition send_route_failure (payload : ClientRequestPayload_0v1) (source_addr : SocketAddr) : proxy unit :=
  send (ToClient (mkTransmit (Socket source_addr) true (Some 0)
    (route_query_failure_response (protocol payload) (bytes (hostname payload))))).

Definition handle_route_failure (payload : ClientRequestPayload_0v1) (source_addr : SocketAddr) :
    proxy ProxyError :=
  _ ← send_route_failure payload source_addr;
  mret (NoRouteTo (hostname payload) (crq_stream_key payload)).

Definition transmit_to_hopper (args : TransmitToHopperArgs) (route : Route)
    (expected_services : list ExpectedService) : proxy (result unit ProxyError) :=
  let destination_key_opt :=
    if args_is_decentralized args then exit_key_of expected_services
    else Some (cd_public_key (args_main_cryptde args)) in
  let payload := args_payload args in
  match destination_key_opt with
  | None => e ← handle_route_failure payload (args_client_addr args); mret (Err e)
  | Some payload_destination_key =>
      let payload_size := length (data (crq_sequenced_packet payload)) in
      vd ← lift (versioned_from payload);
      pkg ← lift (expect_ok (incipient_new (args_main_cryptde args) route (ClientRequest vd)
                               payload_destination_key) "Key magically disappeared");
      _ ← (if args_is_decentralized args then
             exit ← lift (report_on_exit_service expected_services payload_size);
             send (ReportConsumed (mkConsumed (args_timestamp args) exit (length (inc_payload pkg))
                                     (report_on_routing_services expected_services)))
           else mret tt);
      _ ← send (ToHopper pkg);
      _ ← (if args_retire_stream_key args
           then send (ShutdownStream (mkShutdown (args_client_addr args) (NonClandestine (mkNca 0 0)) false))
           else mret tt);
      mret (Ok tt)
  end.

Definition try_transmit_to_hopper (args : TransmitToHopperArgs) (response : RouteQueryResponse) :
    proxy (result unit ProxyError) :=
  match response_services response with
  | RoundTrip over back return_route_id =>
      _ ← send (AddReturnRoute (mkReturnRoute return_route_id back (protocol (args_payload args))
                                  (target_hostname (args_payload args))));
      transmit_to_hopper args (response_route response) over
  | OneWay _ => act_panic "Expected RoundTrip ExpectedServices but got OneWay"
  end.

(** The answer of the Neighborhood, or its refusal. *)
Definition resolve_message (args : TransmitToHopperArgs)
    (route_result : result (option RouteQueryResponse) unit) : proxy unit :=
  let stream_key := crq_stream_key (args_payload args) in
  r ← match route_result with
      | Ok (Some route_query_response) =>
          r ← try_transmit_to_hopper args route_query_response;
          mret (match r with Ok _ => Ok route_query_response | Err e => Err e end)
      | Ok None => e ← handle_route_failure (args_payload args) (args_client_addr args); mret (Err e)
      | Err _ => mret (Err NeighborhoodRefused)
      end;
  send (AddRouteResult stream_key r).

(** [RouteQueryMessage::data_indefinite_route_request] *)
Definition data_indefinite_route_request (hostname_opt : option string) (payload_size : nat) : RouteQueryMessage :=
  mkRouteQuery None ProxyClientC (Some ProxyServerC) (Z.of_nat payload_size) hostname_opt.

Definition request_route_and_transmit (args : TransmitToHopperArgs) : proxy unit :=
  let pld := args_payload args in
  send (AskRoute args (data_indefinite_route_request (target_hostname pld)
                         (length (data (crq_sequenced_packet pld))))).

Definition TransmitToHopperArgs_new (payload : ClientRequestPayload_0v1) (addr : SocketAddr)
    (time : Z) (retire_stream_key : bool) : proxy TransmitToHopperArgs :=
  _ ← out_subs "unbound in ProxyServer";
  main ← gets ps_main;
  is_decentralized ← gets ps_is_decentralized;
  mret (mkArgs main payload addr time is_decentralized retire_stream_key).

Definition make_payload (ibcd : InboundClientData) (stream_key : StreamKey) :
    proxy (option ClientRequestPayload_0v1) :=
  hosts ← gets tunneled_hosts;
  alias ← gets ps_alias;
  let new_ibcd :=
    match hosts !! stream_key with
    | Some _ => mkIbcd (timestamp ibcd) (client_addr ibcd) (Some 443) (ibcd_last_data ibcd)
                  (is_clandestine ibcd) (ibcd_sequence_number ibcd) (ibcd_data ibcd)
    | None => ibcd
    end in
  payload_opt ← lift (make_request_payload new_ibcd stream_key (cd_public_key alias));
  mret (match payload_opt, hosts !! stream_key with
        | Some payload, Some name =>
            Some (mkRequest (crq_stream_key payload) (crq_sequenced_packet payload) (Some name)
                    (target_port payload) (protocol payload) (originator_public_key payload))
        | payload_opt, _ => payload_opt
        end).

(** Whether the host of the payload is refused. *)
Definition host_refused (integration_test : bool) (payload : ClientRequestPayload_0v1) : bool :=
  if integration_test then false
  else match target_hostname payload with
       | Some name => negb (validate_non_loopback_host (Hostname_new (bytes name)))
       | None => false
       end.

Definition handle_normal_client_data (msg : InboundClientData) (retire_stream_key : bool) :
    proxy (result unit ProxyError) :=
  balance ← gets consuming_wallet_balance;
  is_decentralized ← gets ps_is_decentralized;
  if bool_decide (balance = None) && is_decentralized then
    match from_ibcd msg with
    | Err e => mret (Err (BadPack e))
    | Ok pack =>
        _ ← tell (ToClient (mkTransmit (Socket (client_addr msg)) true (Some 0) (consuming_wallet_absent pack)));
        mret (Err MissingConsumingWallet)
    end
  else
    stream_key ← find_or_generate_stream_key (client_addr msg);
    payload_opt ← make_payload msg stream_key;
    integration_test ← gets is_running_in_integration_test;
    match payload_opt with
    | None => mret (Err NoPayload)
    | Some payload =>
        if host_refused integration_test payload then mret (Err LoopbackHost)
        else
          retries ← gets dns_failure_retries;
          _ ← (if bool_decide (retries !! stream_key = None)
               then modify (set_retries (<[stream_key :=
                      mkRetry payload (if (is_decentralized : bool) then 3 else 0)]> retries))
               else mret tt);
          args ← TransmitToHopperArgs_new payload (client_addr msg) (timestamp msg) retire_stream_key;
          routes ← gets stream_key_routes;
          match routes !! crq_stream_key payload with
          | Some route_query_response => try_transmit_to_hopper args route_query_response
          | None => _ ← request_route_and_transmit args; mret (Ok tt)
          end
    end.

(** [tls_connect]: the tunnel to a host, or a refusal. *)
Definition tls_connect (msg : InboundClientData) : proxy unit :=
  match http_find_host (ibcd_data msg) with
  | Some host =>
      if host_port host =? TLS_PORT then
        stream_key ← find_or_generate_stream_key (client_addr msg);
        _ ← modify (λ p, set_hosts (<[stream_key := text_of (host_name host)]> (tunneled_hosts p)) p);
        tell (ToClient (mkTransmit (Socket (client_addr msg)) false (ibcd_sequence_number msg)
          (bytes "HTTP/1.1 200 OK" ++ DOUBLE_CRLF)))
      else
        tell (ToClient (mkTransmit (Socket (client_addr msg)) true (ibcd_sequence_number msg)
          (bytes "HTTP/1.1 400 Bad Request" ++ CRLF ++ bytes "Content-Length: 0" ++ DOUBLE_CRLF)))
  | None =>
      tell (ToClient (mkTransmit (Socket (client_addr msg)) true (ibcd_sequence_number msg)
        (bytes "HTTP/1.1 400 Bad Request" ++ CRLF ++ bytes "Content-Length: 0" ++ DOUBLE_CRLF)))
  end.

(** [Handler<InboundClientData>] *)
Definition handle_inbound_client_data (msg : InboundClientData) : proxy unit :=
  if is_connect (ibcd_data msg) then
    _ ← tls_connect msg; modify (set_sequence_offset true)
  else
    _ ← handle_normal_client_data msg false; mret tt.

(** [Handler<AddReturnRouteMessage>] *)
Definition handle_add_return_route (now : Z) (msg : AddReturnRouteMessage) : proxy unit :=
  modify (λ p, set_return_routes (ttl_insert now (rr_return_route_id msg) msg (route_ids_to_return_routes p)) p).

(** [Handler<AddRouteResultMessage>] *)
Definition handle_add_route_result (stream_key : StreamKey) (r : result RouteQueryResponse ProxyError) :
    proxy unit :=
  retries ← gets dns_failure_retries;
  match retries !! stream_key with
  | None => act_panic "AddRouteResultMessage Handler: stream key not found within dns_failure_retries"
  | Some _ =>
      match r with
      | Ok route_query_response =>
          modify (λ p, set_routes (<[stream_key := route_query_response]> (stream_key_routes p)) p)
      | Err _ => mret tt
      end
  end.

(** ** Responses *)
Definition get_return_route_info (now : Z) (remaining : Route) : proxy (option AddReturnRouteMessage) :=
  main ← gets ps_main;
  s ← lift (shift remaining main);
  _ ← lift (expect_ok s.1 "Internal error: remaining route in ProxyServer with no hops");
  id ← lift (route_id s.2 main);
  match id with
  | Err _ => mret None
  | Ok return_route_id =>
      known ← gets route_ids_to_return_routes;
      let '(rri, known) := ttl_get now return_route_id known in
      _ ← modify (set_return_routes known);
      mret rri
  end.

(** The exit service, which comes first, unless the node itself was the exit. *)
Fixpoint find_exit_report (exit_size : nat) (services : list ExpectedService) :
    outcome (option ExitServiceConsumed) :=
  match services with
  | [] => mret None
  | ServiceNothing :: services => find_exit_report exit_size services
  | ServiceExit _ wallet rp :: _ =>
      mret (Some (mkExitConsumed wallet exit_size (exit_service_rate rp) (exit_byte_rate rp)))
  | ServiceRouting _ _ _ :: _ => Panic "Return route has to begin with an exit service if not zero hop"
  end.

Definition report_response_services_consumed (now : Z) (info : AddReturnRouteMessage)
    (exit_size routing_size : nat) : proxy unit :=
  o ← lift (find_exit_report exit_size (rr_expected_services info));
  match o with
  | None => mret tt
  | Some exit =>
      tell (ReportConsumed (mkConsumed now exit routing_size
                              (report_on_routing_services (rr_expected_services info))))
  end.

Definition handle_client_response_payload (now : Z) (msg : ExpiredCoresPackage ClientResponsePayload_0v1) :
    proxy unit :=
  let response := ex_payload _ msg in
  let packet := crp_sequenced_packet response in
  let stream_key := crp_stream_key response in
  info_opt ← get_return_route_info now (remaining_route _ msg);
  match info_opt with
  | None => mret tt
  | Some info =>
      _ ← report_response_services_consumed now info (length (data packet)) (payload_len _ msg);
      _ ← remove_dns_failure_retry stream_key;
      ttls ← gets stream_key_ttl;
      match ttls !! stream_key with
      | Some _ => mret tt
      | None =>
          keys ← gets keys_and_addrs;
          match a_to_b keys !! stream_key with
          | None => mret tt
          | Some socket_addr =>
              offset ← gets browser_proxy_sequence_offset;
              _ ← tell (ToClient (mkTransmit (Socket socket_addr) (last_data packet)
                     (Some (u64 (sequence_number packet + Z.b2z offset))) (data packet)));
              if last_data packet then purge_stream_key stream_key else mret tt
          end
      end
  end.

Definition retry_dns_resolution (now : Z) (retry : DNSFailureRetry) (addr : SocketAddr) : proxy unit :=
  args ← TransmitToHopperArgs_new (unsuccessful_request retry) addr now false;
  request_route_and_transmit args.

Definition send_dns_failure_response_to_the_browser (addr : SocketAddr) (p : ProxyProtocol)
    (hostname_opt : option string) : proxy unit :=
  tell (ToClient (mkTransmit (Socket addr) true (Some 0)
    (dns_resolution_failure_response p (bytes <$> hostname_opt)))).

Definition handle_dns_resolve_failure (now : Z) (msg : ExpiredCoresPackage DnsResolveFailure_0v1) : proxy unit :=
  info_opt ← get_return_route_info now (remaining_route _ msg);
  match info_opt with
  | None => mret tt
  | Some info =>
      main ← gets ps_main;
      is_decentralized ← gets ps_is_decentralized;
      exit_public_key ← match exit_key_of (rr_expected_services info) with
        | Some k => mret k
        | None => if (is_decentralized : bool) then act_panic "Internal error: return_route_info has no exit Node"
                  else mret (cd_public_key main)
        end;
      let stream_key := dns_stream_key (ex_payload _ msg) in
      keys ← gets keys_and_addrs;
      match a_to_b keys !! stream_key with
      | None => mret tt
      | Some addr =>
          _ ← match rr_hostname_opt info with
              | Some server_name => tell (UpdateUnreachable exit_public_key server_name)
              | None => mret tt
              end;
          _ ← report_response_services_consumed now info 0 (payload_len _ msg);
          retry_opt ← remove_dns_failure_retry stream_key;
          match retry_opt with
          | None => mret tt
          | Some retry =>
              match retries_left retry with
              | S fewer =>
                  _ ← retry_dns_resolution now retry addr;
                  modify (λ p, set_retries (<[stream_key := mkRetry (unsuccessful_request retry) fewer]>
                                              (dns_failure_retries p)) p)
              | O =>
                  _ ← purge_stream_key stream_key;
                  send_dns_failure_response_to_the_browser addr (rr_protocol info) (rr_hostname_opt info)
              end
          end
      end
  end.

(** ** Streams that end *)
Definition schedule_stream_key_purge (now : Z) (stream_key : StreamKey) : proxy unit :=
  _ ← modify (λ p, set_ttls (<[stream_key := now]> (stream_key_ttl p)) p);
  tell (SchedulePurge stream_key STREAM_KEY_PURGE_DELAY).

Definition ps_handle_stream_shutdown_msg (now : Z) (msg : StreamShutdownMsg) : proxy unit :=
  match ss_stream_type msg with
  | Clandestine => act_panic "ProxyServer should never get ShutdownStreamMsg about clandestine stream"
  | NonClandestine nca =>
      keys ← gets keys_and_addrs;
      match b_to_a keys !! ss_peer_addr msg with
      | None => mret tt
      | Some stream_key =>
          _ ← schedule_stream_key_purge now stream_key;
          if ss_report_to_counterpart msg then
            _ ← handle_normal_client_data
                  (mkIbcd now (ss_peer_addr msg) (Some (nca_reception_port nca)) true false
                     (Some (nca_sequence_number nca)) []) true;
            mret tt
          else mret tt
      end
  end.

(** [Handler<StreamKeyPurge>] *)
Definition handle_stream_key_purge (stream_key : StreamKey) : proxy unit := purge_stream_key stream_key.

(** ** The actor: one event after another *)
Inductive ProxyEvent :=
| EvClientData (msg : InboundClientData)
| EvResponse (msg : ExpiredCoresPackage ClientResponsePayload_0v1)
| EvDnsFailure (msg : ExpiredCoresPackage DnsResolveFailure_0v1)
| EvReturnRoute (msg : AddReturnRouteMessage)
| EvRouteResult (stream_key : StreamKey) (r : result RouteQueryResponse ProxyError)
| EvShutdown (msg : StreamShutdownMsg)
| EvPurge (stream_key : StreamKey).

Definition handle_event (now : Z) (e : ProxyEvent) : proxy unit :=
  match e with
  | EvClientData msg => handle_inbound_client_data msg
  | EvResponse msg => handle_client_response_payload now msg
  | EvDnsFailure msg => handle_dns_resolve_failure now msg
  | EvReturnRoute msg => handle_add_return_route now msg
  | EvRouteResult stream_key r => handle_add_route_result stream_key r
  | EvShutdown msg => ps_handle_stream_shutdown_msg now msg
  | EvPurge stream_key => handle_stream_key_purge stream_key
  end.
End Handlers.
