(* ===== verification/ProxyClient.v ===== *)
(** * The ProxyClient actor: the exit node

    Models [node/src/proxy_client/mod.rs] (the actor), [stream_handler_pool.rs] (the
    streams to servers), [stream_establisher.rs] with [connect_one] of
    [sub_lib/stream_connector.rs] (new streams) and [stream_reader.rs] (what servers
    send); the writer of a stream is in [StreamWriters.v].

    The actor is a computation on its state that sends messages ([prog] of [Actor.v]).
    The pool is a part of that state.  A stream is known by the number of its channels:
    [QueueWrite n p] is a packet put in the channel to its writer, which works as long as
    the writer is there ([open_channels]), [ShutdownReader n] the signal to its reader.  A
    future that is spawned is the message [SpawnFuture]; [run_future] is what it does when
    it is polled, where the answers of the resolver and of the operating system to
    attempts to connect are parameters.  Logging and the texts of errors are left out. *)

From S2P Require Import Prelude.
From S2P Require Import Actor.
From S2P Require Import Bytes.
From S2P Require Import NodeAddr.
From S2P Require Import Sequencing.
From S2P Require Import StreamWriters.
From S2P Require Import Cryptde.
From S2P Require Import Routes.
From S2P Require Import Migrations.
From S2P Require Import Payloads.
From S2P Require Import Hopper.
From S2P Require Import HttpFraming.
From S2P Require Import TlsProtocolPack.
From S2P Require Import ProtocolPacks.

(** ** Messages *)
Record InboundServerData := mkInbound {
  isd_stream_key : StreamKey;
  isd_last_data : bool;
  isd_sequence_number : Z;
  isd_source : SocketAddr;
  isd_data : list Z
}.

Record ReportExitServiceProvidedMessage := mkExitReport {
  er_timestamp : Z;
  er_paying_wallet : Wallet;
  er_payload_size : nat;
  er_service_rate : Z;
  er_byte_rate : Z
}.

Definition error_socket_addr : SocketAddr := mkSocketAddr (V4 0) 0.

(** ** State *)
Record SenderWrapper := mkSender { sender_channel : nat; sender_peer_addr : SocketAddr }.

Record StreamSenders := mkSenders { writer_data : SenderWrapper; reader_shutdown_tx : nat }.

Record StreamHandlerPool := mkPool {
  stream_writer_channels : gmap StreamKey StreamSenders;
  stream_adder_rx : list (StreamKey * StreamSenders);
  stream_killer_rx : list (StreamKey * Z);
  open_channels : gset nat;
  next_channel : nat;
  pool_exit_service_rate : Z;
  pool_exit_byte_rate : Z
}.

Record StreamContext := mkContext {
  return_route : Route;
  payload_destination_key : PublicKey;
  sc_paying_wallet : option Wallet
}.

Record ProxyClient := mkProxyClient {
  pc_main : NodeCryptDE;
  pc_pool : option StreamHandlerPool;
  stream_contexts : gmap StreamKey StreamContext;
  pc_exit_service_rate : Z;
  pc_exit_byte_rate : Z;
  pc_is_decentralized : bool
}.

Definition set_channels (m : gmap StreamKey StreamSenders) (p : StreamHandlerPool) : StreamHandlerPool :=
  mkPool m (stream_adder_rx p) (stream_killer_rx p) (open_channels p) (next_channel p)
    (pool_exit_service_rate p) (pool_exit_byte_rate p).
Definition set_queues (adder : list (StreamKey * StreamSenders)) (killer : list (StreamKey * Z))
    (p : StreamHandlerPool) : StreamHandlerPool :=
  mkPool (stream_writer_channels p) adder killer (open_channels p) (next_channel p)
    (pool_exit_service_rate p) (pool_exit_byte_rate p).
Definition set_open (opened : gset nat) (next : nat) (p : StreamHandlerPool) : StreamHandlerPool :=
  mkPool (stream_writer_channels p) (stream_adder_rx p) (stream_killer_rx p) opened next
    (pool_exit_service_rate p) (pool_exit_byte_rate p).
Definition set_pool (p : StreamHandlerPool) (c : ProxyClient) : ProxyClient :=
  mkProxyClient (pc_main c) (Some p) (stream_contexts c) (pc_exit_service_rate c) (pc_exit_byte_rate c)
    (pc_is_decentralized c).
Definition set_contexts (m : gmap StreamKey StreamContext) (c : ProxyClient) : ProxyClient :=
  mkProxyClient (pc_main c) (pc_pool c) m (pc_exit_service_rate c) (pc_exit_byte_rate c) (pc_is_decentralized c).

(** The future of [make_stream_with_key] *)
Inductive StreamMaker :=
| NoHostname
| HandleIp (ip_addr : IpAddr)
| LookupDns (fqdn : string).

Inductive PoolFuture :=
| WriteFuture (queued : bool) (stream_key : StreamKey) (source : SocketAddr) (payload_size : nat)
    (last_data : bool) (paying_wallet_opt : option Wallet)
| StreamFuture (maker : StreamMaker) (payload : ClientRequestPayload_0v1) (paying_wallet_opt : option Wallet).

Inductive ExitMessage :=
| ExitToHopper (m : IncipientCoresPackage)
| ExitReport (m : ReportExitServiceProvidedMessage)
| ToSelfInbound (m : InboundServerData)
| ToSelfDnsFailure (m : DnsResolveFailure_0v1)
| SpawnFuture (f : PoolFuture)
| SpawnReader (channel : nat) (stream_key : StreamKey) (peer_addr : SocketAddr)
| SpawnWriter (channel : nat) (stream_key : StreamKey) (peer_addr : SocketAddr)
| QueueWrite (channel : nat) (packet : SequencedPacket)
| ShutdownReader (channel : nat).

Abbreviation pool_prog A := (prog StreamHandlerPool ExitMessage A).
Abbreviation exit_prog A := (prog ProxyClient ExitMessage A).

(** ** [StreamHandlerPoolReal] *)
Definition find_stream_with_key (stream_key : StreamKey) : pool_prog (option SenderWrapper) :=
  gets (λ p, writer_data <$> stream_writer_channels p !! stream_key).

(** Whether the packet could be queued *)
Definition queue_write (sequenced_packet : SequencedPacket) (sender_wrapper : SenderWrapper) : pool_prog bool :=
  opened ← gets open_channels;
  if bool_decide (sender_channel sender_wrapper ∈ opened)
  then _ ← send (QueueWrite (sender_channel sender_wrapper) sequenced_packet); mret true
  else mret false.

(** Take the senders of a stream out of the map and signal its reader. *)
Definition remove_stream (stream_key : StreamKey) : pool_prog (option StreamSenders) :=
  senders ← gets (λ p, stream_writer_channels p !! stream_key);
  _ ← modify (λ p, set_channels (delete stream_key (stream_writer_channels p)) p);
  mret senders.

Definition send_shutdown_signal_to_stream_reader (tx : nat) : pool_prog unit := send (ShutdownReader tx).

Definition send_terminating_package (stream_key : StreamKey) (source : SocketAddr) : pool_prog unit :=
  send (ToSelfInbound (mkInbound stream_key true 0 source [])).

Definition clean_up_bad_stream (stream_key : StreamKey) (source : SocketAddr) : pool_prog unit :=
  senders ← remove_stream stream_key;
  _ ← match senders with
      | Some stream_senders => send_shutdown_signal_to_stream_reader (reader_shutdown_tx stream_senders)
      | None => mret tt
      end;
  send_terminating_package stream_key source.

(** What [write_and_tend] does when the packet is queued *)
Definition tend (now : Z) (stream_key : StreamKey) (payload_size : nat) (last_data : bool)
    (paying_wallet_opt : option Wallet) : pool_prog unit :=
  _ ← (if (0 <? payload_size)%nat then
         match paying_wallet_opt with
         | Some wallet =>
             service_rate ← gets pool_exit_service_rate;
             byte_rate ← gets pool_exit_byte_rate;
             send (ExitReport (mkExitReport now wallet payload_size service_rate byte_rate))
         | None => mret tt
         end
       else mret tt);
  if last_data then
    senders ← remove_stream stream_key;
    match senders with
    | Some stream_senders => send_shutdown_signal_to_stream_reader (reader_shutdown_tx stream_senders)
    | None => mret tt
    end
  else mret tt.

(** [SocketAddr::from_str], of which only the address is used *)
Definition read_port (l : list Z) : option (Z * list Z) :=
  l ← read_char 58 l; read_number decimal_digit 10 (length l) true 65536 l.

Definition read_scope_id (l : list Z) : option (list Z) :=
  match read_char 37 l with
  | Some rest => snd <$> read_number decimal_digit 10 (length rest) true (2 ^ 32) rest
  | None => Some l
  end.

Definition socket_ip_from_str (l : list Z) : option IpAddr :=
  match ('(v, l) ← read_ipv4_addr l; '(_, l) ← read_port l; Some (V4 v, l)) with
  | Some (ip, rest) => if bool_decide (rest = []) then Some ip else None
  | None =>
      match (l ← read_char 91 l; '(v, l) ← read_ipv6_addr l; l ← read_scope_id l; l ← read_char 93 l;
             '(_, l) ← read_port l; Some (V6 v, l)) with
      | Some (ip, rest) => if bool_decide (rest = []) then Some ip else None
      | None => None
      end
  end.

Definition parse_ip (hostname : string) : option IpAddr :=
  match socket_ip_from_str (bytes hostname) with
  | Some ip => Some ip
  | None => ip_from_str (bytes hostname)
  end.

Definition make_fqdn (target_hostname : string) : string := String.append target_hostname ".".

Definition make_stream_with_key (payload : ClientRequestPayload_0v1) : StreamMaker :=
  match target_hostname payload with
  | Some target_hostname =>
      match parse_ip target_hostname with
      | Some ip_addr => HandleIp ip_addr
      | None => LookupDns (make_fqdn target_hostname)
      end
  | None => NoHostname
  end.

Definition process_package (payload : ClientRequestPayload_0v1) (paying_wallet_opt : option Wallet) : pool_prog unit :=
  let stream_key := crq_stream_key payload in
  let packet := crq_sequenced_packet payload in
  found ← find_stream_with_key stream_key;
  match found with
  | Some sender_wrapper =>
      queued ← queue_write packet sender_wrapper;
      send (SpawnFuture (WriteFuture queued stream_key (sender_peer_addr sender_wrapper) (length (data packet))
                           (last_data packet) paying_wallet_opt))
  | None =>
      if bool_decide (data packet = []) then mret tt
      else send (SpawnFuture (StreamFuture (make_stream_with_key payload) payload paying_wallet_opt))
  end.

(** *** Housekeeping *)
Definition kill_stream (report : StreamKey * Z) : pool_prog unit :=
  let '(stream_key, sequence_number) := report in
  senders ← remove_stream stream_key;
  match senders with
  | Some stream_senders =>
      _ ← send (ToSelfInbound (mkInbound stream_key true sequence_number
                                 (sender_peer_addr (writer_data stream_senders)) []));
      send_shutdown_signal_to_stream_reader (reader_shutdown_tx stream_senders)
  | None => mret tt
  end.

Definition clean_up_dead_streams : pool_prog unit :=
  reports ← gets stream_killer_rx;
  _ ← modify (λ p, set_queues (stream_adder_rx p) [] p);
  each kill_stream reports.

Definition add_new_streams : pool_prog unit :=
  modify (λ p, set_queues [] (stream_killer_rx p)
                 (set_channels (foldl (λ m '(k, s), <[k := s]> m) (stream_writer_channels p) (stream_adder_rx p)) p)).

Definition do_housekeeping : pool_prog unit := _ ← clean_up_dead_streams; add_new_streams.

(** [process_package] of the trait *)
Definition pool_process_package (payload : ClientRequestPayload_0v1) (paying_wallet_opt : option Wallet) : pool_prog unit :=
  _ ← do_housekeeping; process_package payload paying_wallet_opt.

(** ** New streams *)

(** An attempt to connect: it fails, or there is a stream, whose remote address the
    operating system gives if the stream still exists. *)
Inductive ConnectResult := Connected (peer_addr : option SocketAddr) | ConnectFailed (kind : ErrorKind).

Definition WILDCARD : IpAddr := V4 0.

Definition filter_wildcard_ips (ip_addrs : list IpAddr) : list IpAddr := filter (λ ip, ip ≠ WILDCARD) ip_addrs.

Section Establish.
Context (now : Z) (lookup_ip : string → result (list IpAddr) unit) (connect : SocketAddr → ConnectResult).

Fixpoint connect_one (ip_addrs : list IpAddr) (target_port : Z) (last_error : ErrorKind) :
    outcome (result SocketAddr ErrorKind) :=
  match ip_addrs with
  | [] => mret (Err last_error)
  | ip_addr :: ip_addrs =>
      match connect (mkSocketAddr ip_addr target_port) with
      | Connected (Some peer_addr) => mret (Ok peer_addr)
      | Connected None => Panic "Stream could not be split"
      | ConnectFailed kind => connect_one ip_addrs target_port kind
      end
  end.

Definition establish_stream (payload : ClientRequestPayload_0v1) (ip_addrs : list IpAddr) :
    pool_prog (result SenderWrapper ErrorKind) :=
  connection_info ← lift (connect_one ip_addrs (target_port payload) OtherKind);
  match connection_info with
  | Err e => mret (Err e)
  | Ok peer_addr =>
      n ← gets next_channel;
      let sender := mkSender n peer_addr in
      _ ← send (SpawnReader n (crq_stream_key payload) peer_addr);
      _ ← send (SpawnWriter n (crq_stream_key payload) peer_addr);
      _ ← modify (λ p, set_open ({[n]} ∪ open_channels p) (S n)
                         (set_queues (stream_adder_rx p ++ [(crq_stream_key payload, mkSenders sender n)])
                            (stream_killer_rx p) p));
      mret (Ok sender)
  end.

Definition handle_lookup_ip (payload : ClientRequestPayload_0v1) (lookup_result : result (list IpAddr) unit) :
    pool_prog (result SenderWrapper ErrorKind) :=
  match lookup_result with
  | Err _ => mret (Err OtherKind)
  | Ok ip_addrs =>
      let filtered_ip_addrs := filter_wildcard_ips ip_addrs in
      if bool_decide (filtered_ip_addrs = []) then mret (Err NotFound)
      else
        r ← establish_stream payload filtered_ip_addrs;
        mret (match r with Ok sender => Ok sender | Err _ => Err OtherKind end)
  end.

(** The future of [make_stream_with_key]; a stream for a name that fails is told. *)
Definition make_stream (maker : StreamMaker) (payload : ClientRequestPayload_0v1) : pool_prog (option SenderWrapper) :=
  match maker with
  | NoHostname => mret None
  | HandleIp ip_addr =>
      r ← establish_stream payload [ip_addr];
      mret (match r with Ok sender => Some sender | Err _ => None end)
  | LookupDns fqdn =>
      r ← handle_lookup_ip payload (lookup_ip fqdn);
      match r with
      | Ok sender => mret (Some sender)
      | Err _ => _ ← send (ToSelfDnsFailure (mkDnsFailure (crq_stream_key payload))); mret None
      end
  end.

Definition run_future (f : PoolFuture) : pool_prog unit :=
  match f with
  | WriteFuture true stream_key _ payload_size last_data paying_wallet_opt =>
      tend now stream_key payload_size last_data paying_wallet_opt
  | WriteFuture false stream_key source _ _ _ => clean_up_bad_stream stream_key source
  | StreamFuture maker payload paying_wallet_opt =>
      let stream_key := crq_stream_key payload in
      let packet := crq_sequenced_packet payload in
      made ← make_stream maker payload;
      match made with
      | None => clean_up_bad_stream stream_key error_socket_addr
      | Some sender_wrapper =>
          queued ← queue_write packet sender_wrapper;
          if queued : bool then tend now stream_key (length (data packet)) (last_data packet) paying_wallet_opt
          else clean_up_bad_stream stream_key error_socket_addr
      end
  end.
End Establish.

(** ** [ProxyClient] *)
Definition on_pool {A} (m : pool_prog A) : exit_prog A := λ c,
  match pc_pool c with
  | None => Panic "StreamHandlerPool unbound"
  | Some p =>
      match m p with
      | Ret (a, p, sent) => Ret (a, set_pool p c, sent)
      | Panic why => Panic why
      end
  end.

Definition ProxyClient_new (cryptde : NodeCryptDE) (dns_servers : list SocketAddr) (service_rate byte_rate : Z)
    (is_decentralized : bool) : outcome ProxyClient :=
  if bool_decide (dns_servers = [])
  then Panic "ProxyClient requires at least one DNS server IP address after the --dns-servers parameter"
  else mret (mkProxyClient cryptde None ∅ service_rate byte_rate is_decentralized).

Definition pc_handle_bind_message : exit_prog unit :=
  modify (λ c, set_pool (mkPool ∅ [] [] ∅ 0 (pc_exit_service_rate c) (pc_exit_byte_rate c)) c).

Section Handlers.
Context `{Codec Value} `{Codec MessageType} `{Payload ClientResponsePayload_0v1} `{Payload DnsResolveFailure_0v1}.

Definition handle_client_request (msg : ExpiredCoresPackage ClientRequestPayload_0v1) : exit_prog unit :=
  let payload := ex_payload _ msg in
  is_decentralized ← gets pc_is_decentralized;
  if bool_decide (is_Some (paying_wallet _ msg)) || negb is_decentralized then
    pool ← gets pc_pool;
    match pool with
    | None => act_panic "StreamHandlerPool unbound"
    | Some _ =>
        let latest_stream_context :=
          mkContext (remaining_route _ msg) (originator_public_key payload) (paying_wallet _ msg) in
        _ ← modify (λ c, set_contexts (<[crq_stream_key payload := latest_stream_context]> (stream_contexts c)) c);
        on_pool (pool_process_package payload (paying_wallet _ msg))
    end
  else mret tt.

(** Whether the response could be packed *)
Definition send_response_to_hopper (msg : InboundServerData) (stream_context : StreamContext) : exit_prog bool :=
  vd ← lift (versioned_from (mkResponse (isd_stream_key msg)
                               (mkPacket (isd_data msg) (isd_sequence_number msg) (isd_last_data msg))));
  cryptde ← gets pc_main;
  match incipient_new cryptde (return_route stream_context) (ClientResponse vd)
          (payload_destination_key stream_context) with
  | Err _ => mret false
  | Ok icp => _ ← send (ExitToHopper icp); mret true
  end.

Definition report_response_exit_to_accountant (now : Z) (stream_context : StreamContext) (msg_data_len : nat) :
    exit_prog unit :=
  match sc_paying_wallet stream_context with
  | Some paying_wallet =>
      service_rate ← gets pc_exit_service_rate;
      byte_rate ← gets pc_exit_byte_rate;
      send (ExitReport (mkExitReport now paying_wallet msg_data_len service_rate byte_rate))
  | None => mret tt
  end.

Definition handle_inbound_server_data (now : Z) (msg : InboundServerData) : exit_prog unit :=
  context ← gets (λ c, stream_contexts c !! isd_stream_key msg);
  match context with
  | None => mret tt
  | Some stream_context =>
      ok ← send_response_to_hopper msg stream_context;
      if negb ok then mret tt
      else
        _ ← report_response_exit_to_accountant now stream_context (length (isd_data msg));
        if isd_last_data msg
        then modify (λ c, set_contexts (delete (isd_stream_key msg) (stream_contexts c)) c)
        else mret tt
  end.

Definition pc_handle_dns_resolve_failure (msg : DnsResolveFailure_0v1) : exit_prog unit :=
  context ← gets (λ c, stream_contexts c !! dns_stream_key msg);
  match context with
  | None => mret tt
  | Some stream_context =>
      vd ← lift (versioned_from msg);
      cryptde ← gets pc_main;
      match incipient_new cryptde (return_route stream_context) (DnsResolveFailed vd)
              (payload_destination_key stream_context) with
      | Err _ => act_panic "Failed to create IncipientCoresPackage"
      | Ok package =>
          _ ← send (ExitToHopper package);
          modify (λ c, set_contexts (delete (dns_stream_key msg) (stream_contexts c)) c)
      end
  end.
End Handlers.

(** ** [StreamReader] *)

(** The environment of the reader, one item per turn of the loop: a shutdown signal, or
    what [poll_read] gives.  When the script has run out, the stream is not ready. *)
Inductive ReadTurn :=
| ShutdownSignal
| ReadAnswer (r : result (Async (list Z)) ErrorKind).

Record StreamReader := mkReader {
  sr_stream_key : StreamKey;
  sr_peer_addr : SocketAddr;
  sr_sequencer : Sequencer;
  sr_turns : list ReadTurn
}.

Inductive ReaderMessage := ReadInbound (m : InboundServerData) | KillStream (stream_key : StreamKey) (sequence_number : Z).

Definition StreamReader_new (stream_key : StreamKey) (peer_addr : SocketAddr) (turns : list ReadTurn) : StreamReader :=
  mkReader stream_key peer_addr Sequencer_new turns.

Definition reader_next_sequence_number : prog StreamReader ReaderMessage Z :=
  n ← gets (λ r, next_sequence_number (sr_sequencer r));
  _ ← modify (λ r, mkReader (sr_stream_key r) (sr_peer_addr r) n.2 (sr_turns r));
  mret n.1.

Definition reader_shutdown : prog StreamReader ReaderMessage unit :=
  k ← gets sr_stream_key; n ← reader_next_sequence_number; send (KillStream k n).

Definition send_inbound_server_data (data : list Z) (last_data : bool) : prog StreamReader ReaderMessage unit :=
  k ← gets sr_stream_key;
  n ← reader_next_sequence_number;
  peer_addr ← gets sr_peer_addr;
  send (ReadInbound (mkInbound k last_data n peer_addr data)).

(** The result of [poll]: [Ok (Ready _)], [Ok NotReady] or [Err _] *)
Fixpoint reader_loop (turns : list ReadTurn) : prog StreamReader ReaderMessage (result (Async unit) unit) :=
  match turns with
  | [] => mret (Ok NotReady)
  | turn :: turns =>
      _ ← modify (λ r, mkReader (sr_stream_key r) (sr_peer_addr r) (sr_sequencer r) turns);
      match turn with
      | ShutdownSignal => mret (Ok (Ready tt))
      | ReadAnswer (Ok NotReady) => mret (Ok NotReady)
      | ReadAnswer (Ok (Ready [])) => _ ← reader_shutdown; mret (Ok (Ready tt))
      | ReadAnswer (Ok (Ready chunk)) => _ ← send_inbound_server_data chunk false; reader_loop turns
      | ReadAnswer (Err kind) =>
          if indicates_dead_stream kind then _ ← reader_shutdown; mret (Err tt) else reader_loop turns
      end
  end.

Definition reader_poll : prog StreamReader ReaderMessage (result (Async unit) unit) :=
  turns ← gets sr_turns; reader_loop turns.
