(* ===== verification/ProxyClientFacts.v ===== *)
(** * The exit node serves requests

    What the ProxyClient does with requests, with the data of servers and with failures:
    the packets of a stream reach one server in the order in which they come, what the
    server sends is numbered and passed on to the originator, every service is reported,
    and a host that cannot be reached is told once. *)

From S2P Require Import Prelude.
From S2P Require Import Actor.
From S2P Require Import Bytes.
From S2P Require Import NodeAddr.
From S2P Require Import Sequencing.
From S2P Require Import StreamWriters.
From S2P Require Import Cryptde.
From S2P Require Import Routes.
From S2P Require Import Migrations.
From S2P Require Import Payloads.
From S2P Require Import Hopper.
From S2P Require Import ProtocolPacks.
From S2P Require Import ProxyClient.

(** ** The pool *)

(** The senders of a stream after housekeeping *)
Definition kept_channels (p : StreamHandlerPool) : gmap StreamKey StreamSenders :=
  foldl (λ m '(k, s), <[k := s]> m)
    (foldl (λ m r, delete r.1 m) (stream_writer_channels p) (stream_killer_rx p)) (stream_adder_rx p).

Definition kept_pool (p : StreamHandlerPool) : StreamHandlerPool := set_queues [] [] (set_channels (kept_channels p) p).

(** The messages about the streams that servers have ended *)
Fixpoint killed (m : gmap StreamKey StreamSenders) (reports : list (StreamKey * Z)) : list ExitMessage :=
  match reports with
  | [] => []
  | (k, n) :: reports =>
      match m !! k with
      | Some s =>
          [ToSelfInbound (mkInbound k true n (sender_peer_addr (writer_data s)) []);
           ShutdownReader (reader_shutdown_tx s)]
      | None => []
      end ++ killed (delete k m) reports
  end.

Lemma remove_stream_eq k p :
  remove_stream k p =
  Ret (stream_writer_channels p !! k, set_channels (delete k (stream_writer_channels p)) p, []).
Proof. done. Qed.

Lemma kill_streams_eq reports p :
  each kill_stream reports p =
  Ret (tt, set_channels (foldl (λ m r, delete r.1 m) (stream_writer_channels p) reports) p,
       killed (stream_writer_channels p) reports).
Proof.
  revert p. induction reports as [|[k n] reports IH]; intros p; [by destruct p|].
  cbn [each foldl fst killed].
  assert (kill_stream (k, n) p = Ret (tt, set_channels (delete k (stream_writer_channels p)) p,
    match stream_writer_channels p !! k with
    | Some s => [ToSelfInbound (mkInbound k true n (sender_peer_addr (writer_data s)) []);
                 ShutdownReader (reader_shutdown_tx s)]
    | None => []
    end)) as E.
  { unfold kill_stream, mbind, prog_bind. rewrite remove_stream_eq. by destruct (_ !! k). }
  unfold mbind at 1, prog_bind at 1. by rewrite E, IH.
Qed.

Lemma do_housekeeping_eq p :
  do_housekeeping p = Ret (tt, kept_pool p, killed (stream_writer_channels p) (stream_killer_rx p)).
Proof.
  unfold do_housekeeping, clean_up_dead_streams, add_new_streams. unfold mbind, prog_bind. cbn.
  rewrite kill_streams_eq. cbn. by rewrite app_nil_r.
Qed.

Lemma process_package_known payload wallet p s :
  stream_writer_channels p !! crq_stream_key payload = Some s →
  let packet := crq_sequenced_packet payload in
  let n := sender_channel (writer_data s) in
  process_package payload wallet p =
  Ret (tt, p,
       (if bool_decide (n ∈ open_channels p) then [QueueWrite n packet] else []) ++
       [SpawnFuture (WriteFuture (bool_decide (n ∈ open_channels p)) (crq_stream_key payload)
          (sender_peer_addr (writer_data s)) (length (data packet)) (last_data packet) wallet)]).
Proof.
  intros Hs. cbv zeta. unfold process_package, find_stream_with_key, queue_write, mbind, prog_bind. cbn. rewrite Hs. cbn.
  by destruct (bool_decide _).
Qed.

Lemma process_package_unknown payload wallet p :
  stream_writer_channels p !! crq_stream_key payload = None → data (crq_sequenced_packet payload) ≠ [] →
  process_package payload wallet p =
  Ret (tt, p, [SpawnFuture (StreamFuture (make_stream_with_key payload) payload wallet)]).
Proof.
  intros Hs Hd. unfold process_package, find_stream_with_key, mbind, prog_bind. cbn. rewrite Hs. cbn.
  by rewrite bool_decide_eq_false_2.
Qed.

(** The pool never panics when a package comes; only housekeeping ends streams. *)
Lemma pool_process_package_returns payload wallet p :
  ∃ sent, pool_process_package payload wallet p =
    Ret (tt, kept_pool p, killed (stream_writer_channels p) (stream_killer_rx p) ++ sent) ∧
    ∀ x, ToSelfInbound x ∉ sent.
Proof.
  unfold pool_process_package, mbind, prog_bind. rewrite do_housekeeping_eq.
  destruct (stream_writer_channels (kept_pool p) !! crq_stream_key payload) as [s|] eqn:Es.
  { rewrite (process_package_known _ _ _ s Es). eexists. split; [done|]. destruct (bool_decide _); set_solver. }
  destruct (decide (data (crq_sequenced_packet payload) = [])) as [Hd|Hd].
  - unfold process_package, find_stream_with_key, mbind, prog_bind. cbn -[kept_pool]. rewrite Es. cbn -[kept_pool].
    rewrite bool_decide_eq_true_2 by done. exists []. split; [done|set_solver].
  - rewrite process_package_unknown by done. eexists. split; [done|set_solver].
Qed.

(** ** The actor *)
Section Actor.
Context `{Codec Value} `{Codec MessageType} `{Payload ClientResponsePayload_0v1} `{Payload DnsResolveFailure_0v1}.

Definition context_of (msg : ExpiredCoresPackage ClientRequestPayload_0v1) : StreamContext :=
  mkContext (remaining_route _ msg) (originator_public_key (ex_payload _ msg)) (paying_wallet _ msg).

(** A request is refused only by a node of the network that is not paid. *)
Definition accepted (c : ProxyClient) (msg : ExpiredCoresPackage ClientRequestPayload_0v1) : Prop :=
  is_Some (paying_wallet _ msg) ∨ pc_is_decentralized c = false.

Lemma handle_client_request_eq c p msg p' sent :
  accepted c msg → pc_pool c = Some p →
  pool_process_package (ex_payload _ msg) (paying_wallet _ msg) p = Ret (tt, p', sent) →
  handle_client_request msg c =
  Ret (tt, set_pool p' (set_contexts (<[crq_stream_key (ex_payload _ msg) := context_of msg]> (stream_contexts c)) c), sent).
Proof.
  intros Hacc Hp Hrun. unfold handle_client_request, mbind, prog_bind. cbn.
  assert (bool_decide (is_Some (paying_wallet _ msg)) || negb (pc_is_decentralized c) = true) as ->.
  { destruct Hacc as [Hw| ->]; [by rewrite bool_decide_eq_true_2|apply orb_true_r]. }
  cbn. rewrite Hp. cbn. unfold on_pool. cbn. by rewrite Hp, Hrun.
Qed.

(** The package of a response on its way to the originator *)
Definition packs (cryptde : NodeCryptDE) (ctx : StreamContext) (response : ClientResponsePayload_0v1)
    (pkg : IncipientCoresPackage) : Prop :=
  ∃ vd, versioned_from response = Ret vd ∧
    incipient_new cryptde (return_route ctx) (ClientResponse vd) (payload_destination_key ctx) = Ok pkg.

Definition response_of (msg : InboundServerData) : ClientResponsePayload_0v1 :=
  mkResponse (isd_stream_key msg) (mkPacket (isd_data msg) (isd_sequence_number msg) (isd_last_data msg)).

(** The report of a service for a paying wallet *)
Definition exit_report (now : Z) (c : ProxyClient) (wallet : option Wallet) (size : nat) : list ExitMessage :=
  match wallet with
  | Some w => [ExitReport (mkExitReport now w size (pc_exit_service_rate c) (pc_exit_byte_rate c))]
  | None => []
  end.

Lemma handle_inbound_server_data_eq now msg c ctx pkg :
  stream_contexts c !! isd_stream_key msg = Some ctx → packs (pc_main c) ctx (response_of msg) pkg →
  handle_inbound_server_data now msg c =
  Ret (tt, if isd_last_data msg then set_contexts (delete (isd_stream_key msg) (stream_contexts c)) c else c,
       ExitToHopper pkg :: exit_report now c (sc_paying_wallet ctx) (length (isd_data msg))).
Proof.
  intros Hctx (vd & Hvd & Hpkg). unfold handle_inbound_server_data, mbind, prog_bind. cbn. rewrite Hctx.
  unfold send_response_to_hopper, mbind, prog_bind. fold (response_of msg). rewrite Hvd. cbn. rewrite Hpkg. cbn.
  unfold report_response_exit_to_accountant. destruct (sc_paying_wallet ctx); cbn; by destruct (isd_last_data msg).
Qed.

Lemma handle_inbound_unknown now msg c :
  stream_contexts c !! isd_stream_key msg = None → handle_inbound_server_data now msg c = Ret (tt, c, []).
Proof. intros Hctx. unfold handle_inbound_server_data, mbind, prog_bind. cbn. by rewrite Hctx. Qed.

(** ** Runs of the actor

    What can happen at an exit node, in any order: messages to the actor, a future that
    is polled (with the answers of resolver and network at that time), the report of a
    reader that its stream has ended, and the end of a writer. *)
Inductive ExitEvent :=
| EvRequest (msg : ExpiredCoresPackage ClientRequestPayload_0v1)
| EvInbound (now : Z) (msg : InboundServerData)
| EvDnsFailure (msg : DnsResolveFailure_0v1)
| EvFuture (now : Z) (lookup_ip : string → result (list IpAddr) unit) (connect : SocketAddr → ConnectResult)
    (f : PoolFuture)
| EvServerEnds (stream_key : StreamKey) (sequence_number : Z)
| EvWriterEnds (channel : nat).

Definition change_pool (f : StreamHandlerPool → StreamHandlerPool) : exit_prog unit := on_pool (modify f).

Definition exit_event (e : ExitEvent) : exit_prog unit :=
  match e with
  | EvRequest msg => handle_client_request msg
  | EvInbound now msg => handle_inbound_server_data now msg
  | EvDnsFailure msg => pc_handle_dns_resolve_failure msg
  | EvFuture now lookup_ip connect f => on_pool (run_future now lookup_ip connect f)
  | EvServerEnds k n => change_pool (λ p, set_queues (stream_adder_rx p) (stream_killer_rx p ++ [(k, n)]) p)
  | EvWriterEnds n => change_pool (λ p, set_open (open_channels p ∖ {[n]}) (next_channel p) p)
  end.

Definition exit_run (es : list ExitEvent) : exit_prog unit := each exit_event es.

(** The payload whose packet an event writes to a server *)
Definition event_payload (e : ExitEvent) : option ClientRequestPayload_0v1 :=
  match e with
  | EvRequest msg => Some (ex_payload _ msg)
  | EvFuture _ _ _ (StreamFuture _ payload _) => Some payload
  | _ => None
  end.
End Actor.

(** *** Channels belong to streams *)

(** The channels spawned by [sent], with the stream each is for *)
Definition spawned (sent : list ExitMessage) : list (nat * StreamKey) :=
  omap (λ m, match m with SpawnWriter n k _ => Some (n, k) | _ => None end) sent.

Definition queued (sent : list ExitMessage) : list (nat * SequencedPacket) :=
  omap (λ m, match m with QueueWrite n packet => Some (n, packet) | _ => None end) sent.

(** Every channel was spawned once, and every stream has the channels spawned for it. *)
Record pool_ok (owners : list (nat * StreamKey)) (p : StreamHandlerPool) : Prop := {
  po_fresh : ∀ n k, (n, k) ∈ owners → (n < next_channel p)%nat;
  po_once : NoDup owners.*1;
  po_known : ∀ k s, stream_writer_channels p !! k = Some s → (sender_channel (writer_data s), k) ∈ owners;
  po_added : ∀ k s, (k, s) ∈ stream_adder_rx p → (sender_channel (writer_data s), k) ∈ owners
}.

(** What an event with the packet of [payload] may do to the channels *)
Definition own_packets (owners : list (nat * StreamKey)) (payload : option ClientRequestPayload_0v1)
    (sent : list ExitMessage) : Prop :=
  ∀ n packet, (n, packet) ∈ queued sent →
    ∃ req, payload = Some req ∧ packet = crq_sequenced_packet req ∧ (n, crq_stream_key req) ∈ owners.

Definition pool_step_ok (owners : list (nat * StreamKey)) (payload : option ClientRequestPayload_0v1)
    (p : StreamHandlerPool) (sent : list ExitMessage) : Prop :=
  pool_ok (owners ++ spawned sent) p ∧ own_packets (owners ++ spawned sent) payload sent.

Lemma spawned_app l1 l2 : spawned (l1 ++ l2) = spawned l1 ++ spawned l2.
Proof. apply omap_app. Qed.
Lemma queued_app l1 l2 : queued (l1 ++ l2) = queued l1 ++ queued l2.
Proof. apply omap_app. Qed.

(** Messages that neither open a channel nor write to one *)
Definition quiet (sent : list ExitMessage) : Prop := spawned sent = [] ∧ queued sent = [].

Lemma quiet_app l1 l2 : quiet l1 → quiet l2 → quiet (l1 ++ l2).
Proof. intros [E1 E2] [E3 E4]. split; [rewrite spawned_app, E1, E3|rewrite queued_app, E2, E4]; done. Qed.

(** No stream is added, and none gets another channel. *)
Record shrinks (p p' : StreamHandlerPool) : Prop := {
  sh_next : next_channel p' = next_channel p;
  sh_known k s : stream_writer_channels p' !! k = Some s →
    stream_writer_channels p !! k = Some s ∨ (k, s) ∈ stream_adder_rx p;
  sh_added x : x ∈ stream_adder_rx p' → x ∈ stream_adder_rx p
}.

Lemma shrinks_ok owners payload p p' sent :
  pool_ok owners p → shrinks p p' → quiet sent → pool_step_ok owners payload p' sent.
Proof.
  intros [H1 H2 H3 H4] [Hn Hk Ha] [Eo Eq]. unfold pool_step_ok, own_packets. rewrite Eo, Eq, app_nil_r. split.
  - split; [|done| |].
    + intros n k Hin. rewrite Hn. by eapply H1.
    + intros k s Hs. destruct (Hk k s Hs) as [Hs'|Hs']; [by apply H3|by apply H4].
    + intros k s Hs. apply H4, Ha, Hs.
  - intros n packet Hin. by apply not_elem_of_nil in Hin.
Qed.

Definition shutdown_of (o : option StreamSenders) : list ExitMessage :=
  match o with Some s => [ShutdownReader (reader_shutdown_tx s)] | None => [] end.

Definition drop_stream (k : StreamKey) (p : StreamHandlerPool) : StreamHandlerPool :=
  set_channels (delete k (stream_writer_channels p)) p.

Lemma clean_up_bad_stream_eq k source p :
  clean_up_bad_stream k source p =
  Ret (tt, drop_stream k p,
       shutdown_of (stream_writer_channels p !! k) ++ [ToSelfInbound (mkInbound k true 0 source [])]).
Proof.
  unfold clean_up_bad_stream, mbind, prog_bind. rewrite remove_stream_eq. by destruct (_ !! k).
Qed.

Definition pool_report (now : Z) (p : StreamHandlerPool) (wallet : option Wallet) (size : nat) : list ExitMessage :=
  match wallet with
  | Some w =>
      if (0 <? size)%nat
      then [ExitReport (mkExitReport now w size (pool_exit_service_rate p) (pool_exit_byte_rate p))] else []
  | None => []
  end.

Lemma tend_eq now k size last wallet p :
  tend now k size last wallet p =
  Ret (tt, if last : bool then drop_stream k p else p,
       pool_report now p wallet size ++ if last then shutdown_of (stream_writer_channels p !! k) else []).
Proof.
  unfold tend, pool_report, mbind, prog_bind.
  destruct (0 <? size)%nat, wallet as [w|], last; cbn; try done;
    rewrite remove_stream_eq; by destruct (stream_writer_channels p !! k).
Qed.

Lemma quiet_shutdown o : quiet (shutdown_of o).
Proof. by destruct o. Qed.
Lemma quiet_report now p wallet size : quiet (pool_report now p wallet size).
Proof. unfold pool_report. destruct wallet; [|done]. by destruct (0 <? size)%nat. Qed.
Lemma quiet_killed m reports : quiet (killed m reports).
Proof.
  revert m. induction reports as [|[k n] reports IH]; intros m; [done|]. cbn [killed].
  apply quiet_app; [by destruct (m !! k)|apply IH].
Qed.

Lemma shrinks_drop k p : shrinks p (drop_stream k p).
Proof. split; [done| |done]. cbn. intros k' s [_ Hs]%lookup_delete_Some. by left. Qed.

Lemma shrinks_refl p : shrinks p p.
Proof. split; auto. Qed.

Lemma deleted_subseteq {V} (m : gmap StreamKey V) (l : list (StreamKey * Z)) : foldl (λ m r, delete r.1 m) m l ⊆ m.
Proof.
  revert m. induction l as [|[k n] l IH]; intros m; [done|]. cbn. etrans; [apply IH|apply delete_subseteq].
Qed.

Lemma inserted_lookup {V} (m : gmap StreamKey V) (l : list (StreamKey * V)) k v :
  foldl (λ m '(k, s), <[k := s]> m) m l !! k = Some v → m !! k = Some v ∨ (k, v) ∈ l.
Proof.
  revert m. induction l as [|[k' v'] l IH]; intros m; cbn; [by left|]. intros [Hm|Hin]%IH; [|right; by right].
  destruct (decide (k = k')) as [->|Hne].
  - rewrite lookup_insert_eq in Hm. injection Hm as ->. right. by left.
  - rewrite lookup_insert_ne in Hm by done. by left.
Qed.

Lemma shrinks_kept p : shrinks p (kept_pool p).
Proof.
  split; [done| |by intros x Hx%not_elem_of_nil]. cbn. intros k s [Hm|Hin]%inserted_lookup; [left|by right].
  by eapply lookup_weaken, deleted_subseteq.
Qed.

(** *** New streams *)
Definition added_stream (payload : ClientRequestPayload_0v1) (peer_addr : SocketAddr) (p : StreamHandlerPool) :
    StreamHandlerPool :=
  let n := next_channel p in
  set_open ({[n]} ∪ open_channels p) (S n)
    (set_queues (stream_adder_rx p ++ [(crq_stream_key payload, mkSenders (mkSender n peer_addr) n)])
       (stream_killer_rx p) p).

Definition spawned_stream (payload : ClientRequestPayload_0v1) (peer_addr : SocketAddr) (p : StreamHandlerPool) :
    list ExitMessage :=
  [SpawnReader (next_channel p) (crq_stream_key payload) peer_addr;
   SpawnWriter (next_channel p) (crq_stream_key payload) peer_addr].

Lemma establish_stream_eq connect payload ips p :
  establish_stream connect payload ips p =
  match connect_one connect ips (target_port payload) OtherKind with
  | Ret (Ok peer) => Ret (Ok (mkSender (next_channel p) peer), added_stream payload peer p, spawned_stream payload peer p)
  | Ret (Err e) => Ret (Err e, p, [])
  | Panic why => Panic why
  end.
Proof.
  unfold establish_stream, mbind, prog_bind, lift. by destruct (connect_one _ _ _ _) as [[peer|e]|why].
Qed.

(** The addresses that are tried for a host *)
Definition addresses (lookup_ip : string → result (list IpAddr) unit) (maker : StreamMaker) : list IpAddr :=
  match maker with
  | NoHostname => []
  | HandleIp ip => [ip]
  | LookupDns fqdn => match lookup_ip fqdn with Ok ips => filter_wildcard_ips ips | Err _ => [] end
  end.

Definition told_failure (maker : StreamMaker) (k : StreamKey) : list ExitMessage :=
  match maker with LookupDns _ => [ToSelfDnsFailure (mkDnsFailure k)] | _ => [] end.

Lemma make_stream_eq lookup_ip connect maker payload p :
  make_stream lookup_ip connect maker payload p =
  match connect_one connect (addresses lookup_ip maker) (target_port payload) OtherKind with
  | Ret (Ok peer) =>
      Ret (Some (mkSender (next_channel p) peer), added_stream payload peer p, spawned_stream payload peer p)
  | Ret (Err e) => Ret (None, p, told_failure maker (crq_stream_key payload))
  | Panic why => Panic why
  end.
Proof.
  destruct maker as [|ip|fqdn]; cbn [make_stream addresses told_failure].
  - done.
  - unfold mbind, prog_bind. rewrite establish_stream_eq. by destruct (connect_one _ _ _ _) as [[peer|e]|why].
  - unfold handle_lookup_ip. destruct (lookup_ip fqdn) as [ips|]; [|done].
    destruct (decide (filter_wildcard_ips ips = [])) as [->|Hne]; [done|].
    rewrite bool_decide_eq_false_2 by done. unfold mbind, prog_bind. rewrite establish_stream_eq.
    by destruct (connect_one _ _ _ _) as [[peer|e]|why].
Qed.

(** A future for a new stream: it is spawned, and the packet is queued and reported; or
    there is no stream, and the stream is ended. *)
Lemma stream_future_eq now lookup_ip connect maker payload wallet p :
  let k := crq_stream_key payload in
  let packet := crq_sequenced_packet payload in
  run_future now lookup_ip connect (StreamFuture maker payload wallet) p =
  match connect_one connect (addresses lookup_ip maker) (target_port payload) OtherKind with
  | Ret (Ok peer) =>
      let p' := added_stream payload peer p in
      Ret (tt, if last_data packet then drop_stream k p' else p',
           spawned_stream payload peer p ++ [QueueWrite (next_channel p) packet] ++
           pool_report now p wallet (length (data packet)) ++
           if last_data packet then shutdown_of (stream_writer_channels p !! k) else [])
  | Ret (Err e) =>
      Ret (tt, drop_stream k p,
           told_failure maker k ++ shutdown_of (stream_writer_channels p !! k) ++
           [ToSelfInbound (mkInbound k true 0 error_socket_addr [])])
  | Panic why => Panic why
  end.
Proof.
  cbv zeta. cbn [run_future]. unfold mbind, prog_bind. rewrite make_stream_eq.
  destruct (connect_one _ _ _ _) as [[peer|e]|why]; [| |done].
  - unfold queue_write, mbind, prog_bind. cbn [gets sender_channel]. rewrite bool_decide_eq_true_2 by set_solver.
    cbn [send mret prog_ret app]. rewrite tend_eq. done.
  - by rewrite clean_up_bad_stream_eq.
Qed.

Lemma elem_of_snoc {A} (x y : A) l : x ∈ l ++ [y] ↔ x ∈ l ∨ x = y.
Proof. rewrite elem_of_app, list_elem_of_singleton. done. Qed.

Lemma added_stream_ok owners payload peer p :
  pool_ok owners p → pool_ok (owners ++ [(next_channel p, crq_stream_key payload)]) (added_stream payload peer p).
Proof.
  intros [H1 H2 H3 H4]. split.
  - intros n k [Hin|[= -> ->]]%elem_of_snoc; cbn; [|lia]. specialize (H1 n k Hin). lia.
  - rewrite fmap_app. apply NoDup_app. split; [done|]. split; [|by apply NoDup_singleton].
    intros n ([n' k] & -> & Hin)%list_elem_of_fmap Heq%list_elem_of_singleton. cbn in Heq. specialize (H1 _ _ Hin). lia.
  - intros k s Hs. apply elem_of_snoc. left. by apply H3.
  - cbn. intros k s [Hin|[= -> ->]]%elem_of_snoc; apply elem_of_snoc; [left; by apply H4|by right].
Qed.

Lemma run_future_ok now lookup_ip connect f owners p :
  pool_ok owners p →
  ensures (run_future now lookup_ip connect f) p (λ _ p' sent,
    pool_step_ok owners (match f with StreamFuture _ payload _ => Some payload | _ => None end) p' sent).
Proof.
  intros Hok a p' sent. destruct f as [[|] k source size last wallet|maker payload wallet].
  - cbn [run_future]. rewrite tend_eq. intros [= <- <- <-].
    apply (shrinks_ok _ _ p); [done|destruct last; [apply shrinks_drop|apply shrinks_refl]|].
    apply quiet_app; [apply quiet_report|]. destruct last; [apply quiet_shutdown|done].
  - cbn [run_future]. rewrite clean_up_bad_stream_eq. intros [= <- <- <-].
    apply (shrinks_ok _ _ p); [done|apply shrinks_drop|]. by apply quiet_app; [apply quiet_shutdown|].
  - rewrite stream_future_eq. cbv zeta. destruct (connect_one _ _ _ _) as [[peer|e]|why]; [| |done]; intros [= <- <- <-].
    + set (rest := pool_report _ _ _ _ ++ _).
      assert (quiet rest) as [Eo Eq].
      { apply quiet_app; [apply quiet_report|]. destruct (last_data _); [apply quiet_shutdown|done]. }
      unfold pool_step_ok, own_packets.
      cbn [spawned queued omap list_omap]. fold (spawned rest). fold (queued rest).
      rewrite Eo, Eq.
      pose proof (added_stream_ok owners payload peer p Hok) as Hadd. split.
      * destruct (last_data _); [|done]. destruct (shrinks_ok _ None _ _ [] Hadd (shrinks_drop (crq_stream_key payload) _))
          as [Hd _]; [done|]. by rewrite app_nil_r in Hd.
      * intros n packet [= -> ->]%list_elem_of_singleton. exists payload. split; [done|]. split; [done|]. apply elem_of_snoc. by right.
    + apply (shrinks_ok _ _ p); [done|apply shrinks_drop|]. apply quiet_app; [by destruct maker|].
      by apply quiet_app; [apply quiet_shutdown|].
Qed.

Lemma known_traffic (b : bool) n packet f :
  spawned ((if b then [QueueWrite n packet] else []) ++ [SpawnFuture f]) = [] ∧
  queued ((if b then [QueueWrite n packet] else []) ++ [SpawnFuture f]) = if b then [(n, packet)] else [].
Proof. by destruct b. Qed.

Lemma pool_process_package_ok payload wallet owners p :
  pool_ok owners p →
  ensures (pool_process_package payload wallet) p (λ _ p' sent, pool_step_ok owners (Some payload) p' sent).
Proof.
  intros Hok a p' sent. unfold pool_process_package, mbind, prog_bind. rewrite do_housekeeping_eq.
  pose proof (quiet_killed (stream_writer_channels p) (stream_killer_rx p)) as [Eo Eq].
  assert (pool_ok owners (kept_pool p)) as Hkept.
  { destruct (shrinks_ok owners None p (kept_pool p) [] Hok (shrinks_kept p)) as [Hk _]; [done|].
    by rewrite app_nil_r in Hk. }
  destruct (stream_writer_channels (kept_pool p) !! crq_stream_key payload) as [s|] eqn:Es.
  - rewrite (process_package_known _ _ _ s Es). cbv zeta. intros [= <- <- <-].
    unfold pool_step_ok, own_packets. rewrite spawned_app, queued_app, Eo, Eq.
    match goal with |- context [(if ?b then [QueueWrite ?n ?packet] else []) ++ [SpawnFuture ?f]] =>
      destruct (known_traffic b n packet f) as [-> ->] end.
    rewrite app_nil_r. split; [done|]. intros n packet Hin. cbn [app] in Hin.
    destruct (bool_decide _); [|by apply not_elem_of_nil in Hin].
    apply list_elem_of_singleton in Hin as [= -> ->]. exists payload. split; [done|]. split; [done|].
    by apply (po_known _ _ Hkept).
  - destruct (decide (data (crq_sequenced_packet payload) = [])) as [Hd|Hd].
    + unfold process_package, find_stream_with_key, mbind, prog_bind. cbn -[kept_pool]. rewrite Es. cbn -[kept_pool].
      rewrite bool_decide_eq_true_2 by done. intros [= <- <- <-]. rewrite app_nil_r.
      by apply (shrinks_ok _ _ p); [|apply shrinks_kept|].
    + rewrite process_package_unknown by done. intros [= <- <- <-].
      apply (shrinks_ok _ _ p); [done|apply shrinks_kept|by apply quiet_app].
Qed.

(** *** The packets of a stream stay in order *)
Lemma NoDup_fst_inj {A B} (l : list (A * B)) a b1 b2 : NoDup l.*1 → (a, b1) ∈ l → (a, b2) ∈ l → b1 = b2.
Proof.
  induction l as [|[x y] l IH]; [by intros _ Hin%not_elem_of_nil|]. cbn. intros [Hx Hl]%NoDup_cons.
  intros [[= -> ->]|Hin1]%elem_of_cons [[= E]|Hin2]%elem_of_cons; subst.
  - done.
  - destruct Hx. by apply (list_elem_of_fmap_2 fst) in Hin2.
  - destruct Hx. by apply (list_elem_of_fmap_2 fst) in Hin1.
  - by apply IH.
Qed.

Section Kept.
Context {V : Type}.
Implicit Types (m : gmap StreamKey V).

Lemma deleted_lookup m (l : list (StreamKey * Z)) k : k ∉ l.*1 → foldl (λ m r, delete r.1 m) m l !! k = m !! k.
Proof.
  revert m. induction l as [|[k' n] l IH]; intros m Hk; [done|]. apply not_elem_of_cons in Hk as [Hne Hk].
  cbn. rewrite IH by done. by apply lookup_delete_ne.
Qed.

Lemma inserted_congr m m' (l : list (StreamKey * V)) k :
  m !! k = m' !! k → foldl (λ m '(k, s), <[k := s]> m) m l !! k = foldl (λ m '(k, s), <[k := s]> m) m' l !! k.
Proof.
  revert m m'. induction l as [|[k' v] l IH]; intros m m' E; [done|]. cbn. apply IH.
  destruct (decide (k = k')) as [->|Hne]; [by rewrite !lookup_insert_eq|by rewrite !lookup_insert_ne].
Qed.
End Kept.

(** The stream [k] has the channel [n], and its writer is there. *)
Record stream_on (k : StreamKey) (n : nat) (p : StreamHandlerPool) : Prop := {
  so_known : ∃ s, kept_channels p !! k = Some s ∧ sender_channel (writer_data s) = n;
  so_open : n ∈ open_channels p;
  so_alive : k ∉ (stream_killer_rx p).*1
}.

Lemma stream_on_congr k n p p' :
  stream_on k n p → stream_writer_channels p' !! k = stream_writer_channels p !! k →
  stream_adder_rx p' = stream_adder_rx p → n ∈ open_channels p' → k ∉ (stream_killer_rx p').*1 → stream_on k n p'.
Proof.
  intros [(s & Hs & Hn) _ Ha] Em El Ho Hk. split; [|done|done]. exists s. split; [|done]. rewrite <-Hs.
  unfold kept_channels. rewrite El. apply inserted_congr. by rewrite !deleted_lookup.
Qed.

Lemma stream_on_drop k k' n p : stream_on k n p → k ≠ k' → stream_on k n (drop_stream k' p).
Proof.
  intros Hp Hk. eapply stream_on_congr; [exact Hp|cbn; by apply lookup_delete_ne|done|apply Hp|apply Hp].
Qed.

Lemma stream_on_kept k n p : stream_on k n p → stream_on k n (kept_pool p).
Proof. intros [Hs Ho Ha]. split; [|done|by apply not_elem_of_nil]. exact Hs. Qed.

Lemma stream_on_added k n payload peer p :
  stream_on k n p → crq_stream_key payload ≠ k → stream_on k n (added_stream payload peer p).
Proof.
  intros [(s & Hs & Hn) Ho Ha] Hk. split; [|cbn; set_solver|done]. exists s. split; [|done].
  unfold kept_channels in *. cbn. rewrite foldl_app. cbn. by rewrite lookup_insert_ne.
Qed.

Lemma stream_on_owner k n owners p : stream_on k n p → pool_ok owners p → (n, k) ∈ owners.
Proof.
  intros [(s & Hs & <-) _ _] Hok. apply inserted_lookup in Hs as [Hs|Hs]; [|by apply (po_added _ _ Hok)].
  apply (po_known _ _ Hok). by eapply lookup_weaken, deleted_subseteq.
Qed.

(** The packets written to a channel *)
Definition writes (n : nat) (sent : list ExitMessage) : list SequencedPacket :=
  (filter (λ x, x.1 = n) (queued sent)).*2.

Lemma writes_app n l1 l2 : writes n (l1 ++ l2) = writes n l1 ++ writes n l2.
Proof. unfold writes. by rewrite queued_app, filter_app, fmap_app. Qed.

Lemma writes_quiet n sent : quiet sent → writes n sent = [].
Proof. intros [_ Eq]. unfold writes. by rewrite Eq. Qed.

Lemma writes_queue n n' packet sent :
  writes n (QueueWrite n' packet :: sent) = (if decide (n' = n) then [packet] else []) ++ writes n sent.
Proof.
  unfold writes. change (queued (QueueWrite n' packet :: sent)) with ((n', packet) :: queued sent).
  rewrite filter_cons. cbn [fst]. by destruct (decide (n' = n)).
Qed.

(** A package for the stream, or for another one *)
Lemma package_in_order k n owners payload wallet p a p' sent :
  stream_on k n p → pool_ok owners p → pool_process_package payload wallet p = Ret (a, p', sent) →
  stream_on k n p' ∧
  writes n sent = if decide (crq_stream_key payload = k) then [crq_sequenced_packet payload] else [].
Proof.
  intros Hp Hok. destruct (pool_process_package_returns payload wallet p) as (sent' & E & _). rewrite E.
  intros [= <- <- <-]. pose proof (stream_on_kept _ _ _ Hp) as Hkept. split; [done|].
  rewrite writes_app, (writes_quiet n (killed _ _)) by apply quiet_killed. cbn [app].
  unfold pool_process_package, mbind, prog_bind in E. rewrite do_housekeeping_eq in E.
  destruct (stream_writer_channels (kept_pool p) !! crq_stream_key payload) as [s|] eqn:Es.
  - rewrite (process_package_known _ _ _ s Es) in E. cbv zeta in E.
    match type of E with Ret (_, _, _ ++ ?x) = _ => assert (sent' = x) as -> end.
    { injection E as E. by apply app_inv_head in E. }
    rewrite writes_app, (writes_quiet n [SpawnFuture _]), app_nil_r by done.
    destruct (decide (crq_stream_key payload = k)) as [<-|Hne].
    + destruct Hkept as [(s' & Hs' & Hn) Ho _]. change (stream_writer_channels (kept_pool p)) with (kept_channels p) in Es.
      destruct Hp as [(s2 & Hs2 & Hn2) Ho2 _]. assert (s2 = s) as -> by congruence. rewrite Hn2.
      rewrite bool_decide_eq_true_2 by done. rewrite writes_queue, decide_True by done. done.
    + case_bool_decide; [|done]. rewrite writes_queue. rewrite decide_False; [done|]. intros En.
      pose proof (stream_on_owner _ _ _ _ Hp Hok) as M1.
      assert ((n, crq_stream_key payload) ∈ owners) as M2.
      { rewrite <-En. apply inserted_lookup in Es as [Es|Es]; [|by apply (po_added _ _ Hok)].
        apply (po_known _ _ Hok). by eapply lookup_weaken, deleted_subseteq. }
      destruct Hne. apply (NoDup_fst_inj _ _ _ _ (po_once _ _ Hok) M2 M1).
  - assert (crq_stream_key payload ≠ k) as Hne.
    { intros <-. destruct Hp as [(s & Hs & _) _ _]. change (stream_writer_channels (kept_pool p)) with (kept_channels p) in Es.
      congruence. }
    rewrite decide_False by done. apply writes_quiet.
    destruct (decide (data (crq_sequenced_packet payload) = [])) as [Hd|Hd].
    + unfold process_package, find_stream_with_key, mbind, prog_bind in E. cbn -[kept_pool] in E. rewrite Es in E.
      cbn -[kept_pool] in E. rewrite bool_decide_eq_true_2 in E by done. injection E as E.
      by apply app_inv_head in E as <-.
    + rewrite process_package_unknown in E by done. injection E as E. by apply app_inv_head in E as <-.
Qed.

(** A future that does not end the stream *)
Definition future_ends (k : StreamKey) (f : PoolFuture) : Prop :=
  match f with
  | WriteFuture ok k' _ _ last _ => k' = k ∧ (ok = false ∨ last = true)
  | StreamFuture _ payload _ => crq_stream_key payload = k
  end.

Lemma future_in_order now lookup_ip connect f k n owners p a p' sent :
  stream_on k n p → pool_ok owners p → ¬ future_ends k f →
  run_future now lookup_ip connect f p = Ret (a, p', sent) → stream_on k n p' ∧ writes n sent = [].
Proof.
  intros Hp Hok Hne. destruct f as [[|] k' source size last wallet|maker payload wallet]; cbn in Hne.
  - cbn [run_future]. rewrite tend_eq. intros [= <- <- <-]. split.
    + destruct last; [apply stream_on_drop; [done|naive_solver]|done].
    + apply writes_quiet, quiet_app; [apply quiet_report|]. destruct last; [apply quiet_shutdown|done].
  - cbn [run_future]. rewrite clean_up_bad_stream_eq. intros [= <- <- <-]. split; [apply stream_on_drop; naive_solver|].
    apply writes_quiet. by apply quiet_app; [apply quiet_shutdown|].
  - rewrite stream_future_eq. cbv zeta. destruct (connect_one _ _ _ _) as [[peer|e]|why]; [| |done]; intros [= <- <- <-].
    + split.
      { pose proof (stream_on_added k n payload peer p Hp Hne) as Hadd.
        destruct (last_data _); [by apply stream_on_drop|done]. }
      pose proof (po_fresh _ _ Hok _ _ (stream_on_owner _ _ _ _ Hp Hok)) as Hfresh.
      set (rest := pool_report _ _ _ _ ++ _).
      change (writes n (QueueWrite (next_channel p) (crq_sequenced_packet payload) :: rest) = []).
      rewrite writes_queue, decide_False by lia. apply writes_quiet, quiet_app; [apply quiet_report|].
      destruct (last_data _); [apply quiet_shutdown|done].
    + split; [by apply stream_on_drop|]. apply writes_quiet, quiet_app; [by destruct maker|].
      by apply quiet_app; [apply quiet_shutdown|].
Qed.

Section Runs.
Context `{Codec Value} `{Codec MessageType} `{Payload ClientResponsePayload_0v1} `{Payload DnsResolveFailure_0v1}.

Definition client_ok (owners : list (nat * StreamKey)) (c : ProxyClient) : Prop :=
  ∃ p, pc_pool c = Some p ∧ pool_ok owners p.

Definition client_step_ok (owners : list (nat * StreamKey)) (payload : option ClientRequestPayload_0v1)
    (c : ProxyClient) (sent : list ExitMessage) : Prop :=
  client_ok (owners ++ spawned sent) c ∧ own_packets (owners ++ spawned sent) payload sent.

Lemma on_pool_ok {A} (m : pool_prog A) owners payload c :
  (∀ p, pool_ok owners p → ensures m p (λ _ p' sent, pool_step_ok owners payload p' sent)) →
  client_ok owners c → ensures (on_pool m) c (λ _ c' sent, client_step_ok owners payload c' sent).
Proof.
  intros Hm (p & Ep & Hp) a c' sent. unfold on_pool. rewrite Ep.
  destruct (m p) as [[[x p'] sent']|why] eqn:Em; [|done]. intros [= <- <- <-].
  destruct (Hm p Hp _ _ _ Em) as [Hnew Hown]. split; [|done]. by exists p'.
Qed.

Lemma quiet_step_ok owners payload c c' sent :
  client_ok owners c → pc_pool c' = pc_pool c → quiet sent → client_step_ok owners payload c' sent.
Proof.
  intros (p & Hp & Hok) Ep [Eo Eq]. unfold client_step_ok, own_packets. rewrite Eo, Eq, app_nil_r. split.
  - exists p. split; [congruence|done].
  - intros n packet Hin. by apply not_elem_of_nil in Hin.
Qed.

Lemma change_pool_ok f owners payload c :
  (∀ p, shrinks p (f p)) → client_ok owners c →
  ensures (change_pool f) c (λ _ c' sent, client_step_ok owners payload c' sent).
Proof.
  intros Hf. apply on_pool_ok. intros p Hp a p' sent [= <- <- <-]. by apply (shrinks_ok _ _ p).
Qed.

Lemma handle_inbound_server_data_quiet now msg c :
  ensures (handle_inbound_server_data now msg) c (λ _ c' sent,
    pc_pool c' = pc_pool c ∧ pc_is_decentralized c' = pc_is_decentralized c ∧ quiet sent).
Proof.
  intros a c' sent. unfold handle_inbound_server_data, send_response_to_hopper, report_response_exit_to_accountant,
    mbind, prog_bind. cbn -[versioned_from]. destruct (stream_contexts c !! _) as [ctx|]; [|by intros [= <- <- <-]].
  unfold lift. match goal with |- context [versioned_from ?d] => destruct (versioned_from d) as [vd|] end; [|done]. cbn.
  destruct (incipient_new _ _ _ _) as [icp|e]; cbn; [|by intros [= <- <- <-]].
  destruct (sc_paying_wallet ctx) as [w|], (isd_last_data msg); cbn; by intros [= <- <- <-].
Qed.

Lemma handle_dns_failure_quiet msg c :
  ensures (pc_handle_dns_resolve_failure msg) c (λ _ c' sent,
    pc_pool c' = pc_pool c ∧ pc_is_decentralized c' = pc_is_decentralized c ∧ quiet sent).
Proof.
  intros a c' sent. unfold pc_handle_dns_resolve_failure, mbind, prog_bind. cbn -[versioned_from].
  destruct (stream_contexts c !! _) as [ctx|]; [|by intros [= <- <- <-]].
  unfold lift. match goal with |- context [versioned_from ?d] => destruct (versioned_from d) as [vd|] end; [|done]. cbn.
  destruct (incipient_new _ _ _ _) as [icp|e]; cbn; [|done]. by intros [= <- <- <-].
Qed.

Lemma exit_event_ok e owners c :
  client_ok owners c → ensures (exit_event e) c (λ _ c' sent, client_step_ok owners (event_payload e) c' sent).
Proof.
  intros Hc. destruct e as [msg|now msg|msg|now lookup connect f|k n|n]; cbn [exit_event].
  - intros a c' sent. unfold handle_client_request, mbind, prog_bind. cbn.
    destruct (_ || _); [|intros [= <- <- <-]; by apply (quiet_step_ok _ _ c)].
    destruct Hc as (p & Ep & Hp). rewrite Ep. cbn.
    destruct (on_pool _ _) as [[[[] c1] sent1]|] eqn:E; [|done]. intros [= <- <- <-]. revert E.
    apply (on_pool_ok (pool_process_package (ex_payload _ msg) (paying_wallet _ msg))).
    + intros p' Hp'. by apply pool_process_package_ok.
    + by exists p.
  - intros a c' sent E. destruct (handle_inbound_server_data_quiet _ _ _ _ _ _ E) as (? & _ & ?). by apply (quiet_step_ok _ _ c).
  - intros a c' sent E. destruct (handle_dns_failure_quiet _ _ _ _ _ E) as (? & _ & ?). by apply (quiet_step_ok _ _ c).
  - apply on_pool_ok; [|done]. intros p Hp. pose proof (run_future_ok now lookup connect f owners p Hp) as Hrun. destruct f; exact Hrun.
  - apply change_pool_ok; [|done]. intros p. split; auto.
  - apply change_pool_ok; [|done]. intros p. split; auto.
Qed.

(** Reachable states, with the messages of every event *)
Inductive exit_reach (c : ProxyClient) : list (ExitEvent * list ExitMessage) → ProxyClient → Prop :=
| reach_nil : exit_reach c [] c
| reach_event tr c1 e c2 sent :
    exit_reach c tr c1 → exit_event e c1 = Ret (tt, c2, sent) → exit_reach c (tr ++ [(e, sent)]) c2.

Definition all_sent (tr : list (ExitEvent * list ExitMessage)) : list ExitMessage := concat tr.*2.

Lemma all_sent_snoc tr e sent : all_sent (tr ++ [(e, sent)]) = all_sent tr ++ sent.
Proof. unfold all_sent. rewrite fmap_app, concat_app. cbn. by rewrite app_nil_r. Qed.

Lemma exit_reach_ok c tr c' :
  exit_reach c tr c' → client_ok [] c →
  client_ok (spawned (all_sent tr)) c' ∧
  ∀ e sent, (e, sent) ∈ tr → own_packets (spawned (all_sent tr)) (event_payload e) sent.
Proof.
  intros Hr Hc. induction Hr as [|tr c1 e c2 sent Hr [IH1 IH2] He]; [split; [done|set_solver]|].
  rewrite all_sent_snoc, spawned_app. destruct (exit_event_ok e _ _ IH1 _ _ _ He) as [Hok Hown]. split; [done|].
  intros e' sent' [Hin|[= -> ->]]%elem_of_snoc; [|done]. intros n packet Hq.
  destruct (IH2 _ _ Hin n packet Hq) as (req & E & Ep & Hn). exists req. split_and!; [done|done|]. apply elem_of_app. by left.
Qed.

Lemma elem_of_spawned n k sent : (n, k) ∈ spawned sent ↔ ∃ a, SpawnWriter n k a ∈ sent.
Proof.
  unfold spawned. rewrite list_elem_of_omap. split.
  - intros (m & Hm & E). destruct m; simplify_eq/=. by eexists.
  - intros (a & Ha). by exists (SpawnWriter n k a).
Qed.

Lemma elem_of_queued n packet sent : (n, packet) ∈ queued sent ↔ QueueWrite n packet ∈ sent.
Proof.
  unfold queued. rewrite list_elem_of_omap. split.
  - intros (m & Hm & E). by destruct m; simplify_eq/=.
  - intros Hm. by exists (QueueWrite n packet).
Qed.

Lemma bound_client_ok c0 c : pc_handle_bind_message c0 = Ret (tt, c, []) → client_ok [] c.
Proof.
  intros [= <-]. eexists. split; [done|]. split; cbn; [by intros n k Hin%not_elem_of_nil|by apply NoDup_nil_2|done|].
  by intros k s Hin%not_elem_of_nil.
Qed.

(** C18: An exit node never mixes streams.  Whatever requests, failures and ends of streams
    an exit node sees after its start, in whatever order its futures run and whatever the
    resolver and the network answer: a connection to a server is spawned for one stream, and
    a packet is only ever written to a connection that was spawned for the stream of the
    request it came in. *)
Theorem exit_streams_do_not_mix c0 c tr c' :
  pc_handle_bind_message c0 = Ret (tt, c, []) → exit_reach c tr c' →
  (∀ n k1 a1 k2 a2, SpawnWriter n k1 a1 ∈ all_sent tr → SpawnWriter n k2 a2 ∈ all_sent tr → k1 = k2) ∧
  (∀ e sent n packet, (e, sent) ∈ tr → QueueWrite n packet ∈ sent →
     ∃ payload a, event_payload e = Some payload ∧ packet = crq_sequenced_packet payload ∧
       SpawnWriter n (crq_stream_key payload) a ∈ all_sent tr).
Proof.
  intros Hb Hr. destruct (exit_reach_ok _ _ _ Hr (bound_client_ok _ _ Hb)) as [Hok Hown]. split.
  - intros n k1 a1 k2 a2 S1 S2. destruct Hok as (p & _ & Hp).
    assert ((n, k1) ∈ spawned (all_sent tr)) as M1 by (apply elem_of_spawned; by eexists).
    assert ((n, k2) ∈ spawned (all_sent tr)) as M2 by (apply elem_of_spawned; by eexists).
    apply (NoDup_fst_inj _ _ _ _ (po_once _ _ Hp) M1 M2).
  - intros e sent n packet Hin Hq%elem_of_queued.
    destruct (Hown _ _ Hin n packet Hq) as (req & E & Epk & Hn). apply elem_of_spawned in Hn as [a Ha]. by exists req, a.
Qed.

(** The events that end the stream [k] with the channel [n] *)
Definition ends_stream (k : StreamKey) (n : nat) (e : ExitEvent) : Prop :=
  match e with
  | EvFuture _ _ _ f => future_ends k f
  | EvServerEnds k' _ => k' = k
  | EvWriterEnds n' => n' = n
  | _ => False
  end.

(** The packets that come for the stream, in requests that are not refused *)
Definition packets_for (k : StreamKey) (decentralized : bool) (e : ExitEvent) : list SequencedPacket :=
  match e with
  | EvRequest msg =>
      if decide (crq_stream_key (ex_payload _ msg) = k) then
        if bool_decide (is_Some (paying_wallet _ msg)) || negb decentralized
        then [crq_sequenced_packet (ex_payload _ msg)] else []
      else []
  | _ => []
  end.

Definition client_stream_on (k : StreamKey) (n : nat) (c : ProxyClient) : Prop :=
  ∃ p, pc_pool c = Some p ∧ stream_on k n p.

Lemma on_pool_inv {A} (m : pool_prog A) c a c' sent :
  on_pool m c = Ret (a, c', sent) →
  ∃ p p', pc_pool c = Some p ∧ m p = Ret (a, p', sent) ∧ c' = set_pool p' c.
Proof.
  unfold on_pool. destruct (pc_pool c) as [p|] eqn:Ep; [|done]. destruct (m p) as [[[x p'] s]|] eqn:Em; [|done].
  intros [= <- <- <-]. by exists p, p'.
Qed.

Lemma event_in_order k n owners e c c' sent :
  client_stream_on k n c → client_ok owners c → ¬ ends_stream k n e → exit_event e c = Ret (tt, c', sent) →
  client_stream_on k n c' ∧ pc_is_decentralized c' = pc_is_decentralized c ∧
  writes n sent = packets_for k (pc_is_decentralized c) e.
Proof.
  intros (p & Ep & Hp) (p0 & Ep0 & Hok) Hne. assert (p0 = p) as -> by congruence. clear Ep0.
  assert (∀ c1 sent1, pc_pool c1 = pc_pool c → pc_is_decentralized c1 = pc_is_decentralized c → quiet sent1 →
    client_stream_on k n c1 ∧ pc_is_decentralized c1 = pc_is_decentralized c ∧ writes n sent1 = []) as Hquiet.
  { intros c1 sent1 E1 E2 Hq. split; [exists p; split; [congruence|done]|]. split; [done|by apply writes_quiet]. }
  assert (∀ m, on_pool (modify m) c = Ret (tt, c', sent) → stream_on k n (m p) →
    client_stream_on k n c' ∧ pc_is_decentralized c' = pc_is_decentralized c ∧ writes n sent = []) as Hchange.
  { intros m E Hm. unfold on_pool in E. rewrite Ep in E. injection E as <- <-. split; [by exists (m p)|done]. }
  destruct e as [msg|now msg|msg|now lookup connect f|k' sn|n']; cbn [exit_event packets_for]; cbn in Hne.
  - unfold handle_client_request, mbind, prog_bind. cbn.
    destruct (_ || negb (pc_is_decentralized c)).
    2:{ intros [= <- <-]. destruct (decide _); by apply Hquiet. }
    rewrite Ep. cbn. destruct (on_pool _ _) as [[[[] c1] sent1]|] eqn:E; [|done]. intros [= <- <-].
    apply on_pool_inv in E as (p1 & p' & Ep1 & E & ->). cbn in Ep1. assert (p1 = p) as -> by congruence.
    destruct (package_in_order _ _ _ _ _ _ _ _ _ Hp Hok E) as [Hp' Hw]. split; [by exists p'|]. split; [done|].
    rewrite Hw. by destruct (decide _).
  - intros E. destruct (handle_inbound_server_data_quiet _ _ _ _ _ _ E) as (? & ? & ?). by apply Hquiet.
  - intros E. destruct (handle_dns_failure_quiet _ _ _ _ _ E) as (? & ? & ?). by apply Hquiet.
  - intros E. apply on_pool_inv in E as (p1 & p' & Ep1 & E & ->). assert (p1 = p) as -> by congruence.
    destruct (future_in_order _ _ _ _ _ _ _ _ _ _ _ Hp Hok Hne E) as [Hp' Hw]. split; [by exists p'|done].
  - intros E. apply (Hchange _ E). destruct Hp as [Hk Ho Ha].
    eapply stream_on_congr; [by split|done|done|done|]. cbn. rewrite fmap_app. cbn. intros [Hin|Hin]%elem_of_snoc; done.
  - intros E. apply (Hchange _ E). eapply stream_on_congr; [exact Hp|done|done| |apply Hp]. cbn.
    apply elem_of_difference. split; [apply Hp|]. set_solver.
Qed.

Lemma run_in_order k n owners c tr c' :
  client_stream_on k n c → client_ok owners c → exit_reach c tr c' → Forall (λ x, ¬ ends_stream k n x.1) tr →
  client_stream_on k n c' ∧ client_ok (owners ++ spawned (all_sent tr)) c' ∧
  pc_is_decentralized c' = pc_is_decentralized c ∧
  writes n (all_sent tr) = concat ((λ x, packets_for k (pc_is_decentralized c) x.1) <$> tr).
Proof.
  intros Hs Hok Hr Hne. induction Hr as [|tr c1 e c2 sent Hr IH He]; [by rewrite app_nil_r|].
  apply Forall_app in Hne as [Hne [He' _]%Forall_cons]. destruct (IH Hne) as (Hs1 & Hok1 & Hd & Hw). clear IH.
  destruct (event_in_order _ _ _ _ _ _ _ Hs1 Hok1 He' He) as (Hs2 & Hd2 & Hw2).
  destruct (exit_event_ok e _ _ Hok1 _ _ _ He) as [Hok2 _].
  split; [done|]. rewrite all_sent_snoc, spawned_app, app_assoc. split; [done|]. split; [congruence|].
  rewrite writes_app, Hw, Hw2, Hd, fmap_app, concat_app. cbn. by rewrite app_nil_r.
Qed.

(** C19: The packets of a stream reach one server, in the order in which they come.  When a
    stream has a connection, then for any events that follow and do not end it - requests on
    this and on other streams, futures, failures and ends of other streams in any order - the
    packets put into the connection are exactly those of the requests on that stream that are
    not refused, each once and in the order of the requests, and the stream keeps its
    connection. *)
Theorem exit_stream_in_order c0 c tr c1 k n tr' c2 :
  pc_handle_bind_message c0 = Ret (tt, c, []) → exit_reach c tr c1 → client_stream_on k n c1 →
  exit_reach c1 tr' c2 → Forall (λ x, ¬ ends_stream k n x.1) tr' →
  writes n (all_sent tr') = concat ((λ x, packets_for k (pc_is_decentralized c1) x.1) <$> tr') ∧
  client_stream_on k n c2.
Proof.
  intros Hb Hr Hs Hr' Hne. destruct (exit_reach_ok _ _ _ Hr (bound_client_ok _ _ Hb)) as [Hok _].
  destruct (run_in_order _ _ _ _ _ _ Hs Hok Hr' Hne) as (Hs2 & _ & _ & Hw). done.
Qed.
End Runs.
