(* ===== verification/ExitService.v ===== *)
(** * What the exit node promises

    A host that cannot be reached is told once; what a server sends is numbered without a
    gap, passed on to the originator and charged; and what is lost when a server ends a
    stream early, or when a stream is asked for twice before it exists. *)

From S2P Require Import Prelude.
From S2P Require Import Actor.
From S2P Require Import Bytes.
From S2P Require Import NodeAddr.
From S2P Require Import Sequencing.
From S2P Require Import StreamWriters.
From S2P Require Import Cryptde.
From S2P Require Import Routes.
From S2P Require Import Migrations.
From S2P Require Import Payloads.
From S2P Require Import PayloadsFacts.
From S2P Require Import Hopper.
From S2P Require Import ProtocolPacks.
From S2P Require Import ProxyClient.
From S2P Require Import ProxyClientFacts.

Lemma connect_one_fails connect ips port e :
  (∀ ip, ip ∈ ips → ∃ kind, connect (mkSocketAddr ip port) = ConnectFailed kind) →
  ∃ e', connect_one connect ips port e = Ret (Err e').
Proof.
  revert e. induction ips as [|ip ips IH]; intros e Hc; cbn; [by eexists|].
  destruct (Hc ip) as [kind ->]; [by left|]. apply IH. intros ip' Hin. apply Hc. by right.
Qed.

Lemma each_app {S M A} (body : A → prog S M unit) l1 l2 s :
  each body (l1 ++ l2) s = (_ ← each body l1; each body l2) s.
Proof.
  revert s. induction l1 as [|x l1 IH]; intros s.
  - cbn. unfold mbind, prog_bind, mret, prog_ret. by destruct (each body l2 s) as [[[[] ?] ?]|].
  - cbn [each app]. unfold mbind, prog_bind in *. destruct (body x s) as [[[[] s1] sent1]|]; [|done]. rewrite IH.
    destruct (each body l1 s1) as [[[[] s2] sent2]|]; [|done].
    destruct (each body l2 s2) as [[[[] s3] sent3]|]; [|done]. by rewrite app_assoc.
Qed.

(** ** What a reader sends *)

(** The chunks that are read in one call of [poll], and whether the server ended the stream *)
Fixpoint read_chunks (turns : list ReadTurn) : list (list Z) * bool :=
  match turns with
  | ReadAnswer (Ok (Ready [])) :: _ => ([], true)
  | ReadAnswer (Ok (Ready chunk)) :: turns => let '(chunks, ended) := read_chunks turns in (chunk :: chunks, ended)
  | ReadAnswer (Err kind) :: turns => if indicates_dead_stream kind then ([], true) else read_chunks turns
  | _ => ([], false)
  end.

(** Chunks as messages, numbered from [n] on *)
Fixpoint numbered (k : StreamKey) (peer : SocketAddr) (n : Z) (chunks : list (list Z)) : list InboundServerData :=
  match chunks with
  | [] => []
  | chunk :: chunks => mkInbound k false n peer chunk :: numbered k peer (n + 1) chunks
  end.

Lemma send_inbound_eq data last k peer n rest :
  0 ≤ n < 2 ^ 64 - 1 →
  send_inbound_server_data data last (mkReader k peer (mkSequencer n) rest) =
  Ret (tt, mkReader k peer (mkSequencer (n + 1)) rest, [ReadInbound (mkInbound k last n peer data)]).
Proof.
  intros Hn. transitivity (Ret (tt, mkReader k peer (mkSequencer (u64 (n + 1))) rest,
    [ReadInbound (mkInbound k last n peer data)])); [done|]. do 5 f_equal. apply Z.mod_small. lia.
Qed.

Lemma reader_loop_eq turns k peer n rest :
  let chunks := (read_chunks turns).1 in
  0 ≤ n → n + Z.of_nat (length chunks) < 2 ^ 64 →
  ∃ res r', reader_loop turns (mkReader k peer (mkSequencer n) rest) =
    Ret (res, r', (ReadInbound <$> numbered k peer n chunks) ++
       if (read_chunks turns).2 then [KillStream k (n + Z.of_nat (length chunks))] else []).
Proof.
  cbv zeta. revert n rest. induction turns as [|turn turns IH]; intros n rest Hn Hlen; [cbn; by do 2 eexists|].
  cbn [reader_loop]. unfold mbind at 1, prog_bind at 1. cbn [modify sr_stream_key sr_peer_addr sr_sequencer].
  destruct turn as [|[[[|b chunk]|]|kind]]; cbn [read_chunks] in *; try (cbn; by do 2 eexists).
  - cbn. rewrite Z.add_0_r. by do 2 eexists.
  - destruct (read_chunks turns) as [chunks ended]. cbn [fst snd length] in *.
    destruct (IH (n + 1) turns) as (res & r' & E); [lia|lia|]. unfold mbind, prog_bind. rewrite send_inbound_eq by lia. rewrite E. do 2 eexists. cbn. do 3 f_equal.
    destruct ended; [|done]. do 3 f_equal. lia.
  - destruct (indicates_dead_stream kind).
    + cbn. rewrite Z.add_0_r. by do 2 eexists.
    + destruct (IH n turns) as (res & r' & E); [done|done|]. rewrite E. by do 2 eexists.
Qed.

(** ** The end of a stream is passed on at the next package, if the stream is known *)
Lemma killed_snoc m l k n s :
  k ∉ l.*1 → m !! k = Some s →
  killed m (l ++ [(k, n)]) =
  killed m l ++ [ToSelfInbound (mkInbound k true n (sender_peer_addr (writer_data s)) []); ShutdownReader (reader_shutdown_tx s)].
Proof.
  revert m. induction l as [|[k' n'] l IH]; intros m Hk Hm; cbn; [by rewrite Hm|].
  apply not_elem_of_cons in Hk as [Hne Hk]. rewrite <-app_assoc. f_equal. apply IH; [done|]. by rewrite lookup_delete_ne.
Qed.

Section Service.
Context `{KeyOrder} `{Codec Value} `{CodecOk MessageType} `{Payload ClientResponsePayload_0v1} `{Payload DnsResolveFailure_0v1}.
Context `{!CodecOk ClientResponsePayload_0v1} `{!CodecOk DnsResolveFailure_0v1} `{CryptNetwork member}.

(** [o] can read the message in a package. *)
Definition readable {T} `{Payload T} (o : NodeCryptDE) (pkg : IncipientCoresPackage) (mk : VersionedData → MessageType) (d : T) : Prop :=
  ∃ vd, decodex o (inc_payload pkg) = Ret (Ok (mk vd)) ∧ try_from_versioned vd = Ret (Ok d).

Lemma package_made {T} `{Payload T} `{!CodecOk T} (mk : VersionedData → MessageType) cryptde o route (d : T) :
  member cryptde → member o →
  ∃ vd pkg, versioned_from d = Ret vd ∧ incipient_new cryptde route (mk vd) (cd_public_key o) = Ok pkg ∧
    inc_route pkg = route ∧ readable o pkg mk d.
Proof.
  intros Hc Ho. destruct (versioned_roundtrip d) as (vd & Hvd & Htry).
  destruct (encodex_roundtrip cryptde o (mk vd) Hc Ho) as (payload & He & Hd).
  exists vd, (mkIncipient route payload). unfold incipient_new. rewrite He. split_and!; [done|done|done|]. by exists vd.
Qed.

(** C21: A host that cannot be reached is told once, and costs nothing.  Let a request on a
    new stream name a host whose name cannot be resolved, or none of whose addresses accepts
    a connection.  The ProxyClient starts one future; it ends with the message that the name
    could not be resolved and with an empty last packet.  The first becomes a package along
    the return route of the request, which the originator can read and which tells the
    failure of that stream; with it the stream is forgotten, so that the second is ignored:
    nothing is reported to the Accountant, and nothing else is sent.  (A comment at the
    place where the future fails says that an empty response goes back to the browser; on
    this path the code sends the failure instead, and the empty packet goes nowhere.) *)
Theorem unreachable_host_is_told_once c p msg o fqdn now lookup_ip connect :
  let payload := ex_payload _ msg in
  let k := crq_stream_key payload in
  accepted c msg → pc_pool c = Some p → kept_channels p !! k = None →
  data (crq_sequenced_packet payload) ≠ [] → make_stream_with_key payload = LookupDns fqdn →
  (∀ ip, ip ∈ addresses lookup_ip (LookupDns fqdn) →
     ∃ kind, connect (mkSocketAddr ip (target_port payload)) = ConnectFailed kind) →
  member (pc_main c) → member o → originator_public_key payload = cd_public_key o →
  let f := StreamFuture (LookupDns fqdn) payload (paying_wallet _ msg) in
  let last := mkInbound k true 0 error_socket_addr [] in
  ∃ c1 c2 c3 pkg,
    handle_client_request msg c =
      Ret (tt, c1, killed (stream_writer_channels p) (stream_killer_rx p) ++ [SpawnFuture f]) ∧
    on_pool (run_future now lookup_ip connect f) c1 =
      Ret (tt, c2, [ToSelfDnsFailure (mkDnsFailure k); ToSelfInbound last]) ∧
    pc_handle_dns_resolve_failure (mkDnsFailure k) c2 = Ret (tt, c3, [ExitToHopper pkg]) ∧
    inc_route pkg = remaining_route _ msg ∧ readable o pkg DnsResolveFailed (mkDnsFailure k) ∧
    ∀ now', handle_inbound_server_data now' last c3 = Ret (tt, c3, []).
Proof.
  intros payload k Hacc Hp Hk Hd Hm Hfail Hc Ho Horig f last.
  assert (pool_process_package payload (paying_wallet _ msg) p =
    Ret (tt, kept_pool p, killed (stream_writer_channels p) (stream_killer_rx p) ++ [SpawnFuture f])) as Hrun.
  { unfold pool_process_package, mbind, prog_bind. rewrite do_housekeeping_eq, process_package_unknown by done.
    by rewrite Hm. }
  destruct (connect_one_fails _ _ _ OtherKind Hfail) as [e He].
  destruct (package_made DnsResolveFailed (pc_main c) o (remaining_route _ msg) (mkDnsFailure k) Hc Ho)
    as (vd & pkg & Hvd & Hpkg & Hroute & Hread).
  do 3 eexists. exists pkg. split; [by eapply handle_client_request_eq|]. split.
  { unfold on_pool. cbn [pc_pool set_pool set_contexts]. unfold f. rewrite stream_future_eq. fold payload. rewrite He.
    fold k. change (stream_writer_channels (kept_pool p)) with (kept_channels p). rewrite Hk. done. }
  split.
  { unfold pc_handle_dns_resolve_failure, mbind, prog_bind. cbn -[versioned_from]. fold payload. fold k.
    rewrite lookup_insert_eq. unfold lift. rewrite Hvd. cbn. fold payload. by rewrite Horig, Hpkg. }
  split; [done|]. split; [done|]. intros now'. apply handle_inbound_unknown. cbn. apply lookup_delete_eq.
Qed.

(** A package of the response, for the originator *)
Definition response_package (o : NodeCryptDE) (ctx : StreamContext) (pkg : IncipientCoresPackage)
    (msg : InboundServerData) : Prop :=
  inc_route pkg = return_route ctx ∧ readable o pkg ClientResponse (response_of msg).

Definition passed_on (now : Z) (c : ProxyClient) (ctx : StreamContext) (pkg : IncipientCoresPackage)
    (msg : InboundServerData) : list ExitMessage :=
  ExitToHopper pkg :: exit_report now c (sc_paying_wallet ctx) (length (isd_data msg)).

Lemma pass_on_one o ctx now c msg :
  stream_contexts c !! isd_stream_key msg = Some ctx → member (pc_main c) → member o →
  payload_destination_key ctx = cd_public_key o →
  ∃ pkg, response_package o ctx pkg msg ∧
    handle_inbound_server_data now msg c =
    Ret (tt, if isd_last_data msg then set_contexts (delete (isd_stream_key msg) (stream_contexts c)) c else c,
         passed_on now c ctx pkg msg).
Proof.
  intros Hctx Hc Ho Hk.
  destruct (package_made ClientResponse (pc_main c) o (return_route ctx) (response_of msg) Hc Ho)
    as (vd & pkg & Hvd & Hpkg & Hroute & Hread).
  exists pkg. split; [done|]. apply handle_inbound_server_data_eq; [done|]. exists vd. by rewrite Hk.
Qed.

Lemma pass_on_chunks o ctx now c k peer n chunks :
  stream_contexts c !! k = Some ctx → member (pc_main c) → member o → payload_destination_key ctx = cd_public_key o →
  ∃ pkgs, Forall2 (response_package o ctx) pkgs (numbered k peer n chunks) ∧
    exit_run (EvInbound now <$> numbered k peer n chunks) c =
    Ret (tt, c, concat (zip_with (passed_on now c ctx) pkgs (numbered k peer n chunks))).
Proof.
  intros Hctx Hc Ho Hk. revert n. induction chunks as [|chunk chunks IH]; intros n; [by exists []|].
  cbn [numbered]. destruct (pass_on_one o ctx now c (mkInbound k false n peer chunk) Hctx Hc Ho Hk) as (pkg & Hpkg & E).
  destruct (IH (n + 1)) as (pkgs & Hpkgs & Es). exists (pkg :: pkgs). split; [by constructor|].
  unfold exit_run in *. rewrite fmap_cons. cbn [each exit_event]. unfold mbind, prog_bind. rewrite E. cbn [isd_last_data].
  rewrite Es. done.
Qed.

(** C20: What a server sends is passed on to the originator, in numbered packets, and paid
    for.  Let a server send any chunks and end the stream.  The reader of the stream numbers
    the chunks from 0 on and reports the next number with the end.  If the stream is known to
    the pool, the next package that comes, whatever stream it is for, makes the pool send an
    empty last packet with that number.  The ProxyClient packs each of these, in the same
    order, into a package along the return route of the stream, which the originator can
    read; it reports the size of each to the Accountant for the paying wallet, at the rates
    of the node; and with the last it forgets the stream. *)
Theorem server_data_is_passed_on c p ctx o k s turns now :
  let chunks := (read_chunks turns).1 in
  let n := Z.of_nat (length chunks) in
  let peer := sender_peer_addr (writer_data s) in
  let last := mkInbound k true n peer [] in
  let msgs := numbered k peer 0 chunks ++ [last] in
  (read_chunks turns).2 = true → n < 2 ^ 64 →
  pc_pool c = Some p → stream_writer_channels p !! k = Some s → k ∉ (stream_killer_rx p).*1 →
  stream_contexts c !! k = Some ctx → payload_destination_key ctx = cd_public_key o →
  member (pc_main c) → member o →
  (∃ res r', reader_poll (StreamReader_new k peer turns) =
     Ret (res, r', (ReadInbound <$> numbered k peer 0 chunks) ++ [KillStream k n])) ∧
  (∃ c1 reports, exit_event (EvServerEnds k n) c = Ret (tt, c1, []) ∧
     ∀ msg, accepted c1 msg → ∃ c2 more,
       handle_client_request msg c1 = Ret (tt, c2, reports ++ [ToSelfInbound last] ++ more)) ∧
  (∃ pkgs, Forall2 (response_package o ctx) pkgs msgs ∧
     exit_run (EvInbound now <$> msgs) c =
     Ret (tt, set_contexts (delete k (stream_contexts c)) c, concat (zip_with (passed_on now c ctx) pkgs msgs))).
Proof.
  intros chunks n peer last msgs Hend Hn Hp Hs Hk Hctx Ho Hc Hmo. split_and!.
  - destruct (reader_loop_eq turns k peer 0 turns) as (res & r' & E); [lia|done|]. rewrite Hend in E.
    exists res, r'. unfold reader_poll, StreamReader_new, Sequencer_new, mbind, prog_bind. cbn [gets sr_turns]. by rewrite E.
  - eexists _, (killed (stream_writer_channels p) (stream_killer_rx p)). split.
    { cbn. unfold change_pool, on_pool. rewrite Hp. done. }
    intros msg Hacc.
    destruct (pool_process_package_returns (ex_payload _ msg) (paying_wallet _ msg)
      (set_queues (stream_adder_rx p) (stream_killer_rx p ++ [(k, n)]) p)) as (more & E & _).
    cbn [stream_writer_channels set_queues stream_killer_rx] in E. rewrite (killed_snoc _ _ _ _ s) in E by done.
    eexists _, (ShutdownReader (reader_shutdown_tx s) :: more).
    erewrite handle_client_request_eq; [|exact Hacc|done|exact E]. by rewrite <-app_assoc.
  - destruct (pass_on_chunks o ctx now c k peer 0 chunks Hctx Hc Hmo Ho) as (pkgs & Hpkgs & E).
    destruct (pass_on_one o ctx now c last Hctx Hc Hmo Ho) as (pkg & Hpkg & E').
    exists (pkgs ++ [pkg]). split; [apply Forall2_app; [done|by constructor]|]. unfold exit_run in *. unfold msgs.
    rewrite fmap_app, each_app. unfold mbind at 1, prog_bind at 1. rewrite E. cbn [fmap list_fmap each exit_event].
    unfold mbind, prog_bind. rewrite E'. cbn [mret prog_ret isd_last_data last isd_stream_key].
    rewrite zip_with_app by (by apply Forall2_length in Hpkgs). rewrite concat_app. cbn. by rewrite !app_nil_r.
Qed.

(** ** What is lost *)

Lemma killed_other m l k n : m !! k = None → (∀ x, ToSelfInbound x ∈ killed m (l ++ [(k, n)]) → isd_stream_key x ≠ k).
Proof.
  revert m. induction l as [|[k' n'] l IH]; intros m Hk x; cbn [killed app].
  - rewrite Hk. cbn. by intros Hx%not_elem_of_nil.
  - intros [Hx|Hx]%elem_of_app.
    + destruct (m !! k') as [s|] eqn:Es; [|by apply not_elem_of_nil in Hx]. set_unfold. destruct Hx as [[= ->]|[|]]; [|done|done].
      cbn. congruence.
    + eapply IH; [|exact Hx]. by apply lookup_delete_None; right.
Qed.

Lemma added_lookup {V} (m : gmap StreamKey V) l k v :
  is_Some (foldl (λ m '(k, s), <[k := s]> m) m (l ++ [(k, v)]) !! k).
Proof. rewrite foldl_app. cbn. rewrite lookup_insert_eq. by eexists. Qed.

(** C39: The end of a new stream can get lost.  A new stream is known to the pool only from the
    next package on, and with that package the pool first looks at the ends of streams and
    only then adds the new ones.  If the server ends the stream before another package comes -
    it answers one request and closes -, the report of the end is thrown away because the
    stream is not known yet, and then the ended stream is added: no last packet is sent for
    it, the report does not come again, and the stream and its context stay. *)
Theorem early_end_is_lost c p maker payload wallet now lookup_ip connect peer n msg :
  let k := crq_stream_key payload in
  pc_pool c = Some p → stream_writer_channels p !! k = None →
  connect_one connect (addresses lookup_ip maker) (target_port payload) OtherKind = Ret (Ok peer) →
  last_data (crq_sequenced_packet payload) = false → accepted c msg →
  ∃ c1 c2 c3 p3 sent1 sent3,
    exit_event (EvFuture now lookup_ip connect (StreamFuture maker payload wallet)) c = Ret (tt, c1, sent1) ∧
    exit_event (EvServerEnds k n) c1 = Ret (tt, c2, []) ∧
    exit_event (EvRequest msg) c2 = Ret (tt, c3, sent3) ∧
    (∀ x, ToSelfInbound x ∈ sent1 ++ sent3 → isd_stream_key x ≠ k) ∧
    (crq_stream_key (ex_payload _ msg) ≠ k → stream_contexts c3 !! k = stream_contexts c !! k) ∧
    pc_pool c3 = Some p3 ∧ stream_killer_rx p3 = [] ∧ is_Some (stream_writer_channels p3 !! k).
Proof.
  intros k Hp Hk Hconn Hlast Hacc.
  set (p1 := added_stream payload peer p).
  set (p2 := set_queues (stream_adder_rx p1) (stream_killer_rx p1 ++ [(k, n)]) p1).
  destruct (pool_process_package_returns (ex_payload _ msg) (paying_wallet _ msg) p2) as (more & E & Hmore).
  do 3 eexists. exists (kept_pool p2). do 2 eexists. split_and!.
  - cbn [exit_event]. unfold on_pool. rewrite Hp, stream_future_eq, Hconn. cbv zeta. by rewrite Hlast.
  - done.
  - cbn [exit_event]. eapply handle_client_request_eq; [exact Hacc|done|exact E].
  - intros x Hx. rewrite !elem_of_app in Hx. destruct Hx as [Hx|[Hx|Hx]].
    + exfalso. unfold spawned_stream, pool_report in Hx. destruct wallet; [destruct (0 <? _)%nat|]; set_solver.
    + by apply (killed_other _ _ _ _ Hk) in Hx.
    + by apply Hmore in Hx.
  - intros Hne. cbn. by rewrite lookup_insert_ne.
  - done.
  - done.
  - cbn. apply added_lookup.
Qed.
End Service.
