(* ===== verification/ExitSamples.v ===== *)
(** * A concrete exit node

    Instances of the theorems about the ProxyClient, and two requests for a stream that
    does not exist yet. *)

From S2P Require Import Prelude.
From S2P Require Import Actor.
From S2P Require Import Bytes.
From S2P Require Import NodeAddr.
From S2P Require Import NodeRecord.
From S2P Require Import Sequencing.
From S2P Require Import StreamWriters.
From S2P Require Import Cryptde.
From S2P Require Import Routes.
From S2P Require Import Migrations.
From S2P Require Import MigrationsFacts.
From S2P Require Import Payloads.
From S2P Require Import SampleCodecs.
From S2P Require Import PayloadsFacts.
From S2P Require Import Hopper.
From S2P Require Import HopperFacts.
From S2P Require Import ProxyClient.
From S2P Require Import ProxyClientFacts.
From S2P Require Import ExitService.

Module ExitSamples.
#[local] Existing Instances listed_keys value_codec Samples.message_codec Samples.message_codec_ok
  Samples.response_payload Samples.response_payload_ok.

#[local] Instance DnsResolveFailure_eq_dec : EqDecision DnsResolveFailure_0v1.
Proof. solve_decision. Defined.
#[local] Instance DnsResolveFailure_countable : Countable DnsResolveFailure_0v1 :=
  inj_countable' dns_stream_key mkDnsFailure (λ d, match d with mkDnsFailure _ => eq_refl end).
#[local] Instance dns_payload : Payload DnsResolveFailure_0v1 := Samples.readable.
#[local] Instance dns_payload_ok : CodecOk DnsResolveFailure_0v1 := countable_codec_ok.

Definition exit_cryptde : NodeCryptDE := rs_main (Samples.node 2).
Definition originator : NodeCryptDE := rs_alias (Samples.node 1).
Definition payer : Wallet := WalletAddress [42].

Definition client0 : ProxyClient := mkProxyClient exit_cryptde None ∅ 7 3 true.
Definition pool0 : StreamHandlerPool := mkPool ∅ [] [] ∅ 0 7 3.
Definition client1 : ProxyClient := set_pool pool0 client0.

Definition key1 : StreamKey := mkStreamKey [1].
Definition key2 : StreamKey := mkStreamKey [2].
Definition packet1 : SequencedPacket := mkPacket [10; 11] 0 false.
Definition packet2 : SequencedPacket := mkPacket [12] 1 false.

Definition request (k : StreamKey) (packet : SequencedPacket) (host : string) : ClientRequestPayload_0v1 :=
  mkRequest k packet (Some host) 80 HTTP (cd_public_key originator).
Definition package (payload : ClientRequestPayload_0v1) : ExpiredCoresPackage ClientRequestPayload_0v1 :=
  mkExpired _ (mkSocketAddr (V4 1) 1) (Some payer) (mkRoute [[5]]) payload 10.

Definition server : SocketAddr := mkSocketAddr (V4 16909060) 80.
Definition resolves (_ : string) : result (list IpAddr) unit := Ok [V4 0; V4 16909060].
Definition resolves_not (_ : string) : result (list IpAddr) unit := Err tt.
Definition connects (a : SocketAddr) : ConnectResult := Connected (Some a).

Definition request1 : ClientRequestPayload_0v1 := request key1 packet1 "host.test".
Definition future1 : PoolFuture := StreamFuture (LookupDns "host.test.") request1 (Some payer).
Definition events1 : list ExitEvent := [EvRequest (package request1); EvFuture 100 resolves connects future1].
Definition events2 : list ExitEvent := [EvRequest (package (request key1 packet2 "host.test"))].

Lemma exit_member : null_member exit_cryptde.
Proof. by do 2 eexists. Defined.
Lemma originator_member : null_member originator.
Proof. by do 2 eexists. Defined.

Lemma bound : pc_handle_bind_message client0 = Ret (tt, client1, []).
Proof. reflexivity. Defined.

(** The events of a run, one after the other *)
Fixpoint trace (es : list ExitEvent) (c : ProxyClient) : outcome (list (ExitEvent * list ExitMessage) * ProxyClient) :=
  match es with
  | [] => mret ([], c)
  | e :: es =>
      match exit_event e c with
      | Ret (_, c, sent) => '(tr, c) ← trace es c; mret ((e, sent) :: tr, c)
      | Panic why => Panic why
      end
  end.

Lemma reach_cons c e c1 sent tr c2 :
  exit_event e c = Ret (tt, c1, sent) → exit_reach c1 tr c2 → exit_reach c ((e, sent) :: tr) c2.
Proof.
  intros He Hr. induction Hr as [|tr c2 e' c3 sent' Hr IH He']; [apply (reach_event c [] c); [constructor|done]|].
  change ((e, sent) :: tr ++ [(e', sent')]) with (((e, sent) :: tr) ++ [(e', sent')]). by eapply reach_event.
Qed.

Lemma trace_reach es c tr c' : trace es c = Ret (tr, c') → exit_reach c tr c'.
Proof.
  revert c tr. induction es as [|e es IH]; intros c tr; cbn; [intros [= <- <-]; constructor|].
  destruct (exit_event e c) as [[[[] c1] sent]|] eqn:E; [|done].
  destruct (trace es c1) as [[tr1 c2]|] eqn:Et; [|done]. intros [= <- <-]. eapply reach_cons; [exact E|by apply IH].
Qed.

Definition sent_by (es : list ExitEvent) (c : ProxyClient) : list ExitMessage :=
  match trace es c with Ret (tr, _) => all_sent tr | Panic _ => [] end.

(** The wildcard address is passed over; the request is written and reported. *)
Example request_is_written :
  sent_by events1 client1 =
  [SpawnFuture future1; SpawnReader 0 key1 server; SpawnWriter 0 key1 server; QueueWrite 0 packet1;
   ExitReport (mkExitReport 100 payer 2 7 3)].
Proof. reflexivity. Qed.

(** The request is written to the connection that was opened for it. *)
Lemma exit_streams_do_not_mix_witness :
  ∃ tr c', trace events1 client1 = Ret (tr, c') ∧
    ∀ e sent n packet, (e, sent) ∈ tr → QueueWrite n packet ∈ sent →
      ∃ payload a, event_payload e = Some payload ∧ packet = crq_sequenced_packet payload ∧
        SpawnWriter n (crq_stream_key payload) a ∈ all_sent tr.
Proof.
  destruct (trace events1 client1) as [[tr c']|why] eqn:E; [|discriminate E]. exists tr, c'. split; [reflexivity|].
  exact (proj2 (exit_streams_do_not_mix client0 client1 tr c' bound (trace_reach _ _ _ _ E))).
Defined.

(** The next packet of the stream goes the same way. *)
Lemma exit_stream_in_order_witness :
  ∃ tr c1 tr' c2, trace events1 client1 = Ret (tr, c1) ∧ trace events2 c1 = Ret (tr', c2) ∧
    writes 0 (all_sent tr') = [packet2] ∧ client_stream_on key1 0 c2.
Proof.
  destruct (trace events1 client1) as [[tr c1]|why] eqn:E; [|discriminate E].
  assert (client_stream_on key1 0 c1) as Hs.
  { cbn in E. injection E as _ <-. eexists. split; [reflexivity|]. split; [by eexists|set_solver|set_solver]. }
  destruct (trace events2 c1) as [[tr' c2]|why] eqn:E2; [|cbn in E; injection E as _ <-; discriminate E2].
  exists tr, c1, tr', c2. split; [reflexivity|]. split; [exact E2|].
  destruct (exit_stream_in_order client0 client1 tr c1 key1 0 tr' c2 bound (trace_reach _ _ _ _ E) Hs
    (trace_reach _ _ _ _ E2)) as [Hw Hs2].
  - cbn in E. injection E as _ <-. cbn in E2. injection E2 as <- _. repeat constructor. intros [].
  - split; [|exact Hs2]. rewrite Hw. cbn in E. injection E as _ <-. cbn in E2. injection E2 as <- _. reflexivity.
Defined.

Lemma unreachable_host_is_told_once_witness :
  ∃ c1 c2 c3 pkg,
    handle_client_request (package request1) client1 = Ret (tt, c1, [SpawnFuture future1]) ∧
    on_pool (run_future 100 resolves_not connects future1) c1 =
      Ret (tt, c2, [ToSelfDnsFailure (mkDnsFailure key1); ToSelfInbound (mkInbound key1 true 0 error_socket_addr [])]) ∧
    pc_handle_dns_resolve_failure (mkDnsFailure key1) c2 = Ret (tt, c3, [ExitToHopper pkg]) ∧
    inc_route pkg = mkRoute [[5]].
Proof.
  destruct (unreachable_host_is_told_once (member := null_member) client1 pool0 (package request1) originator "host.test." 100
    resolves_not connects) as (c1 & c2 & c3 & pkg & E1 & E2 & E3 & E4 & _);
    [left; by eexists|reflexivity|reflexivity|discriminate|reflexivity|by intros ip []%not_elem_of_nil|exact exit_member|
     exact originator_member|reflexivity|].
  exists c1, c2, c3, pkg. split; [exact E1|]. split; [exact E2|]. split; [exact E3|exact E4].
Defined.

(** A server that sends three bytes in two chunks and ends the stream *)
Definition turns : list ReadTurn :=
  [ReadAnswer (Ok (Ready [1; 2])); ReadAnswer (Err Interrupted); ReadAnswer (Ok (Ready [3])); ReadAnswer (Ok (Ready []))].
Definition senders1 : StreamSenders := mkSenders (mkSender 0 server) 0.
Definition context1 : StreamContext := mkContext (mkRoute [[5]]) (cd_public_key originator) (Some payer).
Definition serving : ProxyClient :=
  set_contexts {[key1 := context1]} (set_pool (mkPool {[key1 := senders1]} [] [] {[0%nat]} 1 7 3) client0).

Lemma server_data_is_passed_on_witness :
  ∃ pkgs,
    Forall2 (response_package originator context1) pkgs
      [mkInbound key1 false 0 server [1; 2]; mkInbound key1 false 1 server [3]; mkInbound key1 true 2 server []] ∧
    length pkgs = 3%nat.
Proof.
  destruct (server_data_is_passed_on (member := null_member) serving (mkPool {[key1 := senders1]} [] [] {[0%nat]} 1 7 3)
    context1 originator key1 senders1 turns 100) as (_ & _ & pkgs & Hpkgs & _);
    [reflexivity|reflexivity|reflexivity|reflexivity|by intros []%not_elem_of_nil|reflexivity|reflexivity|exact exit_member|
     exact originator_member|].
  exists pkgs. split; [exact Hpkgs|]. apply Forall2_length in Hpkgs. exact Hpkgs.
Defined.

Lemma early_end_is_lost_witness :
  ∃ c1 c2 c3 sent1 sent3,
    exit_event (EvFuture 100 resolves connects future1) client1 = Ret (tt, c1, sent1) ∧
    exit_event (EvServerEnds key1 1) c1 = Ret (tt, c2, []) ∧
    exit_event (EvRequest (package (request key2 packet1 "other.test"))) c2 = Ret (tt, c3, sent3) ∧
    ∀ x, ToSelfInbound x ∈ sent1 ++ sent3 → isd_stream_key x ≠ key1.
Proof.
  destruct (early_end_is_lost client1 pool0 (LookupDns "host.test.") request1 (Some payer) 100 resolves connects server 1
    (package (request key2 packet1 "other.test"))) as (c1 & c2 & c3 & p3 & sent1 & sent3 & E1 & E2 & E3 & E4 & _);
    [reflexivity|reflexivity|reflexivity|reflexivity|left; by eexists|].
  exists c1, c2, c3, sent1, sent3. split; [exact E1|]. split; [exact E2|]. split; [exact E3|exact E4].
Defined.

(** Two packets of a new stream that come before the name is resolved: the stream gets two
    connections, each with one of the packets.  The writer of the second connection waits for
    the packet with the number 0, which went to the first. *)
Example flurry_opens_two_connections :
  let two := request key1 packet2 "host.test" in
  sent_by [EvRequest (package request1); EvRequest (package two); EvFuture 100 resolves connects future1;
           EvFuture 100 resolves connects (StreamFuture (LookupDns "host.test.") two (Some payer))] client1 =
  [SpawnFuture future1; SpawnFuture (StreamFuture (LookupDns "host.test.") two (Some payer));
   SpawnReader 0 key1 server; SpawnWriter 0 key1 server; QueueWrite 0 packet1; ExitReport (mkExitReport 100 payer 2 7 3);
   SpawnReader 1 key1 server; SpawnWriter 1 key1 server; QueueWrite 1 packet2; ExitReport (mkExitReport 100 payer 1 7 3)] ∧
  (sb_poll (sb_push SequenceBuffer_new packet2)).1 = None.
Proof. split; reflexivity. Qed.
End ExitSamples.
