(* ===== verification/ProxyServerFacts.v ===== *)
(** * Facts about the ProxyServer

    The round trip of a browser's request through the ProxyServer, the Neighborhood and
    the Hoppers of the network; the retries of failed name resolutions; the invariant
    of the streams; and three sequences of events that end badly. *)

From S2P Require Import Prelude.
From S2P Require Import Actor.
From S2P Require Import Bytes.
From S2P Require Import SharedMaps.
From S2P Require Import NodeAddr.
From S2P Require Import NodeRecord.
From S2P Require Import NeighborhoodDatabase.
From S2P Require Import Gossip.
From S2P Require Import ExitPreferences.
From S2P Require Import GossipAcceptor.
From S2P Require Import Routing.
From S2P Require Import RoutingFacts.
From S2P Require Import ConnectionStatus.
From S2P Require Import Sequencing.
From S2P Require Import Cryptde.
From S2P Require Import Routes.
From S2P Require Import Migrations.
From S2P Require Import MigrationsFacts.
From S2P Require Import Payloads.
From S2P Require Import Hopper.
From S2P Require Import HopperFacts.
From S2P Require Import SampleCodecs.
From S2P Require Import HttpFraming.
From S2P Require Import TlsProtocolPack.
From S2P Require Import ProtocolPacks.
From S2P Require Import Neighborhood.
From S2P Require Import NeighborhoodFacts.
From S2P Require Import ProxyServer.
From S2P Require Import ProxyClient.
From S2P Require Import ProxyClientFacts.

(** ** The services on a route *)
Section Services.
Context (db : NeighborhoodDatabase) (o e : PublicKey).

Lemma service_elsewhere k s :
  service_for db o e k s → k ≠ e → k ≠ o ∨ o = this_node db →
  match s with ServiceExit _ _ _ => False | _ => True end.
Proof.
  intros (r & _ & ->) He Ho. repeat case_decide; naive_solver.
Qed.

Lemma service_exit s :
  service_for db o e e s → e ≠ this_node db →
  ∃ r, node_by_key db e = Some r ∧ s = ServiceExit e (earning_wallet r) (rate_pack r).
Proof.
  intros (r & Hr & ->) He. exists r. split; [done|]. rewrite decide_False by done. by rewrite decide_True by by right.
Qed.

(** Nodes other than the ends of a route give no exit service. *)
Lemma no_exit_service ks ss acc :
  Forall2 (service_for db o e) ks ss → e ∉ ks → o = this_node db →
  find_exit_service ss acc = Ret acc ∧ exit_key_of ss = None.
Proof.
  induction 1 as [|k s ks ss Hs _ IH]; intros He Ho; [done|].
  destruct IH as [IH1 IH2]; [set_solver|done|]. unfold exit_key_of in *. cbn [omap list_omap].
  assert (k ≠ e) as Hke by set_solver. pose proof (service_elsewhere k s Hs Hke (or_intror Ho)) as Hno.
  destruct s as [| |]; [|done|]; cbn [find_exit_service]; destruct acc; by split.
Qed.

(** The way over: the last node gives the only exit service. *)
Lemma exit_service_found ks ss :
  Forall2 (service_for db o e) ks ss → NoDup ks → e ∈ ks → e ≠ this_node db → o = this_node db →
  ∃ r, node_by_key db e = Some r ∧ exit_key_of ss = Some e ∧
    find_exit_service ss None = Ret (Some (earning_wallet r, rate_pack r)).
Proof.
  induction 1 as [|k s ks ss Hs Hss IH]; intros Hnd Hin He Ho; [by apply not_elem_of_nil in Hin|].
  apply NoDup_cons in Hnd as [Hk Hnd]. destruct (decide (k = e)) as [->|Hne].
  - destruct (service_exit s Hs He) as (r & Hr & ->). exists r. split; [done|]. split; [done|].
    cbn [find_exit_service]. apply (no_exit_service ks ss); [done|done|done].
  - destruct IH as (r & Hr & Hx & Hf); [done|set_solver|done|done|]. exists r. split; [done|].
    pose proof (service_elsewhere k s Hs Hne (or_intror Ho)) as Hno. unfold exit_key_of in *. cbn [omap list_omap].
    by destruct s.
Qed.

End Services.

(** The way back: the first node gives the exit service. *)
Lemma exit_report_found db e root ks ss size :
  Forall2 (service_for db e root) (e :: ks) ss → e ≠ this_node db →
  ∃ r, node_by_key db e = Some r ∧ find_exit_report size ss =
    Ret (Some (mkExitConsumed (earning_wallet r) size (exit_service_rate (rate_pack r))
                 (exit_byte_rate (rate_pack r)))) ∧ exit_key_of ss = Some e.
Proof.
  intros Hss He. inversion Hss as [|? s ? ss' (r & Hr & Hs) _]; subst. exists r. split; [done|].
  rewrite decide_False by done. by rewrite decide_True by by left.
Qed.

(** ** Handlers, step by step *)
Section Steps.
Context `{Signatures} `{KeyOrder} `{Codec Value} `{Codec LiveHop} `{Codec MessageType} `{Codec Z}
        `{Payload ClientRequestPayload_0v1} `{WebText}.
Context (sha1 : list Z → list Z) (salt : list Z).
Implicit Types (p : ProxyServer) (k : StreamKey).

Lemma runs_tell {B} m (f : unit → proxy B) p P :
  ps_bound p = true → runs (f tt) p (λ b p' sent, P b p' (m :: sent)) → runs (tell m ≫= f) p P.
Proof. intros Hb Hf. apply runs_bind. unfold tell, runs, out_subs, mbind, prog_bind. by rewrite Hb. Qed.

Lemma runs_tell_last m p (P : unit → ProxyServer → list ProxyMessage → Prop) :
  ps_bound p = true → P tt p [m] → runs (tell m) p P.
Proof. intros Hb HP. unfold tell, runs, out_subs, mbind, prog_bind. by rewrite Hb. Qed.

(** The stream of a client, and the state when it has one. *)
Definition stream_key_for p (addr : SocketAddr) : StreamKey :=
  default (StreamKey_new sha1 salt (cd_public_key (ps_main p)) addr) (b_to_a (keys_and_addrs p) !! addr).

Definition with_stream p (addr : SocketAddr) : ProxyServer :=
  match b_to_a (keys_and_addrs p) !! addr with
  | Some _ => p
  | None => set_keys (bidi_insert (stream_key_for p addr) addr (keys_and_addrs p)) p
  end.

Lemma runs_stream_key {B} addr (f : StreamKey → proxy B) p P :
  runs (f (stream_key_for p addr)) (with_stream p addr) P →
  runs (find_or_generate_stream_key sha1 salt addr ≫= f) p P.
Proof.
  intros Hf. apply runs_bind. unfold find_or_generate_stream_key. apply runs_gets.
  unfold with_stream, stream_key_for in *. destruct (b_to_a (keys_and_addrs p) !! addr); [done|].
  by apply runs_gets, runs_modify.
Qed.

(** The payload that is made of a client's data. *)
Definition request_of p (msg : InboundClientData) (payload : ClientRequestPayload_0v1) : Prop :=
  make_payload msg (stream_key_for p (client_addr msg)) (with_stream p (client_addr msg)) =
    Ret (Some payload, with_stream p (client_addr msg), []) ∧
  host_refused (is_running_in_integration_test p) payload = false.

Lemma payload_keys msg k p payload p' sent :
  make_payload msg k p = Ret (Some payload, p', sent) →
  crq_stream_key payload = k ∧ originator_public_key payload = cd_public_key (ps_alias p).
Proof.
  unfold make_payload, gets, lift, mbind, prog_bind. simpl.
  destruct (make_request_payload _ _ _) as [o|] eqn:E; [|done]. simpl. intros [= Ho _ _].
  assert (∀ req, o = Some req → crq_stream_key req = k ∧ originator_public_key req = cd_public_key (ps_alias p)) as Hreq.
  { intros req ->. revert E. unfold make_request_payload. destruct (from_ibcd _); [|done].
    destruct (ibcd_sequence_number _); [|done]. destruct (pack_find_host _ _) as [t|]; [|done]. simpl.
    destruct (match t with Some _ => _ | None => _ end) as [h port]. by intros [= <-]. }
  destruct o as [req|]; [|by destruct (tunneled_hosts p !! k)].
  destruct (Hreq req eq_refl). by destruct (tunneled_hosts p !! k); injection Ho as <-.
Qed.

(** The state when a request has been sent off for the first time. *)
Definition with_retry p k (payload : ClientRequestPayload_0v1) : ProxyServer :=
  if bool_decide (dns_failure_retries p !! k = None)
  then set_retries (<[k := mkRetry payload (if ps_is_decentralized p then 3 else 0)]> (dns_failure_retries p)) p
  else p.

(** A node that is connected and whose user pays. *)
Record serving p : Prop := {
  sv_bound : ps_bound p = true;
  sv_decentralized : ps_is_decentralized p = true;
  sv_wallet : consuming_wallet_balance p ≠ None;
  sv_ttl : ttl (route_ids_to_return_routes p) = RETURN_ROUTE_TTL
}.

Lemma serving_stream p addr : serving p → serving (with_stream p addr).
Proof. intros [? ? ? ?]. unfold with_stream. by destruct (b_to_a _ !! _). Qed.

(** Data on a stream that has no route yet. *)
Lemma request_asks_for_route p msg payload :
  let addr := client_addr msg in
  let k := stream_key_for p addr in
  serving p → is_connect (ibcd_data msg) = false → request_of p msg payload →
  stream_key_routes p !! k = None →
  runs (handle_inbound_client_data sha1 salt msg) p (λ _ p' sent,
    p' = with_retry (with_stream p addr) k payload ∧
    sent = [AskRoute (mkArgs (ps_main p) payload addr (timestamp msg) true false)
              (data_indefinite_route_request (target_hostname payload)
                 (length (data (crq_sequenced_packet payload))))]).
Proof.
  intros addr k Hs Hc [Hp Hr] Hroute. destruct (payload_keys _ _ _ _ _ _ Hp) as [Hk _]. fold addr k in Hp, Hk.
  destruct (serving_stream p addr Hs) as [Hb Hd Hw _]. set (p1 := with_stream p addr) in *.
  assert (ps_main p1 = ps_main p ∧ stream_key_routes p1 = stream_key_routes p ∧
    is_running_in_integration_test p1 = is_running_in_integration_test p) as (Hm & Hrt & Ht)
    by (unfold p1, with_stream; by destruct (b_to_a _ !! _)).
  unfold handle_inbound_client_data. rewrite Hc. apply runs_bind. unfold handle_normal_client_data.
  do 2 apply runs_gets. rewrite bool_decide_eq_false_2 by apply Hs. cbn [andb].
  apply runs_stream_key. fold addr k p1. apply runs_bind. unfold runs at 1. rewrite Hp. cbn [returns].
  apply runs_gets. rewrite Ht, Hr. apply runs_gets. apply runs_bind.
  apply (runs_mono _ _ (λ _ p' sent, p' = with_retry p1 k payload ∧ sent = [])).
  { unfold with_retry. rewrite (sv_decentralized _ Hs), Hd. by destruct (bool_decide _). }
  intros [] p2 ? [-> ->]. set (p2 := with_retry p1 k payload).
  assert (ps_bound p2 = true ∧ ps_main p2 = ps_main p1 ∧ ps_is_decentralized p2 = true ∧
    stream_key_routes p2 = stream_key_routes p1) as (Hb2 & Hm2 & Hd2 & Hrt2)
    by (unfold p2, with_retry; by destruct (bool_decide _)).
  apply runs_bind. unfold TransmitToHopperArgs_new. apply runs_bind. unfold out_subs, runs at 1. rewrite Hb2.
  cbn [returns]. apply runs_gets, runs_gets, runs_ret, runs_gets. rewrite Hrt2, Hrt, Hk, Hroute.
  unfold request_route_and_transmit. cbn [args_payload]. apply runs_send, runs_ret, runs_ret.
  split; [done|]. by rewrite Hm2, Hm, Hd2.
Qed.

(** The Neighborhood has answered. *)
Lemma route_is_used p args resp over back id e w rp vd pkg :
  args_is_decentralized args = true → args_retire_stream_key args = false →
  response_services resp = RoundTrip over back id →
  exit_key_of over = Some e → find_exit_service over None = Ret (Some (w, rp)) →
  versioned_from (args_payload args) = Ret vd →
  incipient_new (args_main_cryptde args) (response_route resp) (ClientRequest vd) e = Ok pkg →
  let size := length (data (crq_sequenced_packet (args_payload args))) in
  runs (resolve_message args (Ok (Some resp))) p (λ _ p' sent, p' = p ∧
    sent =
      [AddReturnRoute (mkReturnRoute id back (protocol (args_payload args)) (target_hostname (args_payload args)));
       ReportConsumed (mkConsumed (args_timestamp args)
         (mkExitConsumed w size (exit_service_rate rp) (exit_byte_rate rp)) (length (inc_payload pkg))
         (report_on_routing_services over));
       ToHopper pkg;
       AddRouteResult (crq_stream_key (args_payload args)) (Ok resp)]).
Proof.
  intros Hd Hr Hresp He Hf Hvd Hpkg size. unfold resolve_message. apply runs_bind, runs_bind.
  unfold try_transmit_to_hopper. rewrite Hresp. apply runs_send.
  unfold transmit_to_hopper. rewrite Hd, He. apply runs_lift. rewrite Hvd. cbn [returns].
  apply runs_lift. rewrite Hpkg. cbn [expect_ok returns]. apply runs_bind, runs_lift.
  unfold report_on_exit_service. rewrite Hf. cbn [mbind outcome_bind returns mret outcome_ret].
  unfold runs at 1, send. cbn [returns]. apply runs_send. rewrite Hr. apply runs_bind, runs_ret, runs_ret, runs_ret.
  unfold runs. cbn [returns]. done.
Qed.

(** The return route of a package is known. *)
Definition return_route_known (now : Z) p (remaining : Route) (info : AddReturnRouteMessage) : Prop :=
  ∃ hop rest id s, shift remaining (ps_main p) = Ret (Ok hop, rest) ∧
    route_id rest (ps_main p) = Ret (Ok id) ∧
    ttl_data (route_ids_to_return_routes p) !! id = Some (info, s) ∧
    now - s ≤ ttl (route_ids_to_return_routes p) ∧ 0 < ttl (route_ids_to_return_routes p).

(** The return routes after one was used. *)
Definition route_used (now : Z) p p' : Prop :=
  ∃ id, p' = set_return_routes (ttl_get now id (route_ids_to_return_routes p)).2 p.

Lemma runs_return_route {B} now remaining info (f : option AddReturnRouteMessage → proxy B) p P :
  return_route_known now p remaining info →
  (∀ p', route_used now p p' → runs (f (Some info)) p' P) →
  runs (get_return_route_info now remaining ≫= f) p P.
Proof.
  intros (hop & rest & id & s & Hs & Hid & Hk & Ht & Hpos) Hf. apply runs_bind.
  unfold get_return_route_info. apply runs_gets, runs_lift. rewrite Hs. cbn [returns fst snd].
  apply runs_lift. cbn [expect_ok returns]. apply runs_lift. rewrite Hid. cbn [returns].
  apply runs_gets. pose proof (ttl_get_found now id info s _ Hk Hpos Ht) as Hg.
  destruct (ttl_get now id (route_ids_to_return_routes p)) as [o known] eqn:E. simpl in Hg. subst o.
  apply runs_modify, runs_ret. apply Hf. exists id. by rewrite E.
Qed.

Definition without_retry k p : ProxyServer := set_retries (delete k (dns_failure_retries p)) p.

Definition purged k p : ProxyServer :=
  set_streams (remove_a k (keys_and_addrs p)).2 (delete k (tunneled_hosts p))
    (delete k (stream_key_routes p)) (delete k (stream_key_ttl p)) p.

(** A response for a stream that is open. *)
Lemma response_is_delivered now (pkg : ExpiredCoresPackage ClientResponsePayload_0v1) p info exit addr :
  let k := crp_stream_key (ex_payload _ pkg) in
  let packet := crp_sequenced_packet (ex_payload _ pkg) in
  ps_bound p = true → return_route_known now p (remaining_route _ pkg) info →
  find_exit_report (length (data packet)) (rr_expected_services info) = Ret (Some exit) →
  stream_key_ttl p !! k = None → a_to_b (keys_and_addrs p) !! k = Some addr →
  runs (handle_client_response_payload now pkg) p (λ _ p' sent,
    (∃ q, route_used now p q ∧
       p' = if last_data packet then purged k (without_retry k q) else without_retry k q) ∧
    sent =
      [ReportConsumed (mkConsumed now exit (payload_len _ pkg)
         (report_on_routing_services (rr_expected_services info)));
       ToClient (mkTransmit (Socket addr) (last_data packet)
         (Some (u64 (sequence_number packet + Z.b2z (browser_proxy_sequence_offset p)))) (data packet))]).
Proof.
  intros k packet Hb Hrr Hx Ht Ha. unfold handle_client_response_payload.
  apply (runs_return_route _ _ info); [done|]. intros q [id ->]. set (q := set_return_routes _ p).
  apply runs_bind. unfold report_response_services_consumed. apply runs_lift. fold packet. rewrite Hx. cbn [returns].
  apply runs_tell_last; [done|]. apply runs_bind. unfold remove_dns_failure_retry.
  apply runs_gets, runs_modify, runs_ret, runs_gets. cbn [stream_key_ttl set_retries q set_return_routes]. fold k. rewrite Ht.
  apply runs_gets. cbn [keys_and_addrs set_retries q set_return_routes]. rewrite Ha.
  apply runs_gets, runs_tell; [done|]. fold packet.
  destruct (last_data packet); unfold runs, purge_stream_key, modify; cbn [returns mret prog_ret];
    (split; [|done]); exists q; by split; [exists id|].
Qed.

(** ** Failed name resolutions *)
Abbreviation failure_key msg := (dns_stream_key (ex_payload DnsResolveFailure_0v1 msg)).

Definition unreachable_report (e : PublicKey) (hostname_opt : option string) : list ProxyMessage :=
  match hostname_opt with Some name => [UpdateUnreachable e name] | None => [] end.

(** What the last message of a failure is: another attempt, or the news for the browser. *)
Definition retry_or_tell (now : Z) p (addr : SocketAddr) (info : AddReturnRouteMessage)
    (retry : DNSFailureRetry) : ProxyMessage :=
  match retries_left retry with
  | S _ =>
      let req := unsuccessful_request retry in
      AskRoute (mkArgs (ps_main p) req addr now (ps_is_decentralized p) false)
        (data_indefinite_route_request (target_hostname req) (length (data (crq_sequenced_packet req))))
  | O => ToClient (mkTransmit (Socket addr) true (Some 0)
           (dns_resolution_failure_response (rr_protocol info) (bytes <$> rr_hostname_opt info)))
  end.

Definition after_failure k (retry : DNSFailureRetry) q : ProxyServer :=
  match retries_left retry with
  | S fewer => set_retries (<[k := mkRetry (unsuccessful_request retry) fewer]> (delete k (dns_failure_retries q)))
                 (without_retry k q)
  | O => purged k (without_retry k q)
  end.

Lemma dns_failure_step now (msg : ExpiredCoresPackage DnsResolveFailure_0v1) p info e exit addr retry :
  let k := failure_key msg in
  ps_bound p = true → return_route_known now p (remaining_route _ msg) info →
  exit_key_of (rr_expected_services info) = Some e →
  find_exit_report 0 (rr_expected_services info) = Ret (Some exit) →
  a_to_b (keys_and_addrs p) !! k = Some addr → dns_failure_retries p !! k = Some retry →
  runs (handle_dns_resolve_failure now msg) p (λ _ p' sent,
    (∃ q, route_used now p q ∧ p' = after_failure k retry q) ∧
    sent = unreachable_report e (rr_hostname_opt info) ++
      [ReportConsumed (mkConsumed now exit (payload_len _ msg)
         (report_on_routing_services (rr_expected_services info)));
       retry_or_tell now p addr info retry]).
Proof.
  intros k Hb Hrr He Hx Ha Hr. unfold handle_dns_resolve_failure.
  apply (runs_return_route _ _ info); [done|]. intros q [id Hq]. do 2 apply runs_gets. rewrite He.
  apply runs_bind, runs_ret, runs_gets.
  assert (keys_and_addrs q = keys_and_addrs p ∧ ps_bound q = true ∧ dns_failure_retries q = dns_failure_retries p ∧
    ps_main q = ps_main p ∧ ps_is_decentralized q = ps_is_decentralized p) as (Hqk & Hqb & Hqr & Hqm & Hqd) by by subst q.
  fold k. rewrite Hqk, Ha. apply runs_bind.
  apply (runs_mono _ _ (λ _ p' sent, p' = q ∧ sent = unreachable_report e (rr_hostname_opt info))).
  { destruct (rr_hostname_opt info); [by apply runs_tell_last|done]. }
  intros [] ? ? [-> ->]. apply runs_bind. unfold report_response_services_consumed. apply runs_lift. rewrite Hx. cbn [returns].
  apply runs_tell_last; [done|]. apply runs_bind. unfold remove_dns_failure_retry.
  apply runs_gets, runs_modify, runs_ret. rewrite Hqr, Hr. unfold retry_or_tell, after_failure.
  destruct (retries_left retry) as [|fewer].
  - apply runs_bind. unfold purge_stream_key, runs at 1, modify. cbn [returns].
    apply runs_tell_last; [done|]. split; [|done]. exists q. split; [by exists id|].
    unfold without_retry. by rewrite Hqr.
  - apply runs_bind. unfold retry_dns_resolution, TransmitToHopperArgs_new. apply runs_bind, runs_bind.
    unfold out_subs, runs at 1. cbn [ps_bound set_retries]. rewrite Hqb. cbn [returns].
    apply runs_gets, runs_gets, runs_ret. unfold request_route_and_transmit, runs, send, modify. cbn [returns].
    split; [|by cbn; rewrite Hqm, Hqd]. exists q. split; [by exists id|]. unfold without_retry. by rewrite Hqr.
Qed.

(** The requests that are sent again, and what clients are told. *)
Definition asked (sent : list ProxyMessage) : list ClientRequestPayload_0v1 :=
  omap (λ m, match m with AskRoute args _ => Some (args_payload args) | _ => None end) sent.
Definition told (sent : list ProxyMessage) : list TransmitDataMsg :=
  omap (λ m, match m with ToClient m => Some m | _ => None end) sent.

Lemma asked_app l l' : asked (l ++ l') = asked l ++ asked l'.
Proof. apply omap_app. Qed.
Lemma told_app l l' : told (l ++ l') = told l ++ told l'.
Proof. apply omap_app. Qed.

(** Both messages of the ProxyServer to itself have been handled. *)
Lemma route_is_kept p k info resp t :
  is_Some (dns_failure_retries p !! k) →
  runs (_ ← handle_add_return_route t info; handle_add_route_result k (Ok resp)) p (λ _ p' sent,
    sent = [] ∧ p' = set_routes (<[k := resp]> (stream_key_routes p))
                 (set_return_routes (ttl_insert t (rr_return_route_id info) info (route_ids_to_return_routes p)) p)).
Proof.
  intros [retry Hr]. unfold handle_add_return_route. apply runs_modify.
  unfold handle_add_route_result. apply runs_gets. cbn [dns_failure_retries set_return_routes]. by rewrite Hr.
Qed.

(** The packages that are sent off. *)
Definition dispatched (sent : list ProxyMessage) : list IncipientCoresPackage :=
  omap (λ m, match m with ToHopper pkg => Some pkg | _ => None end) sent.

Lemma dispatched_app l l' : dispatched (l ++ l') = dispatched l ++ dispatched l'.
Proof. apply omap_app. Qed.

(** A computation, with the messages that it sends. *)
Definition heard {A} (m : proxy A) : proxy (list ProxyMessage) := λ p,
  match m p with Ret (_, p', sent) => Ret (sent, p', sent) | Panic why => Panic why end.

Lemma runs_heard {A B} (m : proxy A) (f : list ProxyMessage → proxy B) p P :
  runs m p (λ _ p' sent, runs (f sent) p' (λ b p'' new, P b p'' (sent ++ new))) → runs (heard m ≫= f) p P.
Proof.
  intros Hm. apply runs_bind. unfold runs at 1, heard. unfold runs at 1 in Hm.
  destruct (m p) as [[[a p'] sent]|]; done.
Qed.

(** The ProxyServer handles, at the time [t], what it has sent to itself. *)
Definition own_messages (t : Z) (sent : list ProxyMessage) : proxy unit :=
  each (λ m, match m with
             | AddReturnRoute info => handle_add_return_route t info
             | AddRouteResult k res => handle_add_route_result k res
             | _ => mret tt
             end) sent.

(** Every query for a route among the messages is answered with [resp], and the
    ProxyServer handles what it sends to itself thereupon. *)
Definition answered (t : Z) (resp : RouteQueryResponse) (sent : list ProxyMessage) : proxy unit :=
  each (λ m, match m with
             | AskRoute args _ => new ← heard (resolve_message args (Ok (Some resp))); own_messages t new
             | _ => mret tt
             end) sent.

(** Another attempt: the answer of the Neighborhood, the time at which its return route is
    added, and the failure that comes back, with its time. *)
Record Attempt := mkAttempt {
  at_response : RouteQueryResponse;
  at_added : Z;
  at_failure : Z * ExpiredCoresPackage DnsResolveFailure_0v1
}.

(** A failure arrives; then, as long as there are attempts, its queries for a route are
    answered and the next failure arrives. *)
Fixpoint failing (f : Z * ExpiredCoresPackage DnsResolveFailure_0v1) (attempts : list Attempt) : proxy unit :=
  sent ← heard (handle_dns_resolve_failure f.1 f.2);
  match attempts with
  | [] => mret tt
  | a :: attempts => _ ← answered (at_added a) (at_response a) sent; failing (at_failure a) attempts
  end.

(** The answer has a route to an exit node and back with the return route id [id], along
    which [pkg] is the package of the request [req]. *)
Definition usable (main : NodeCryptDE) (req : ClientRequestPayload_0v1) (resp : RouteQueryResponse) (id : Z)
    (pkg : IncipientCoresPackage) : Prop :=
  ∃ over back e w rp vd e' exit,
    response_services resp = RoundTrip over back id ∧
    exit_key_of over = Some e ∧ find_exit_service over None = Ret (Some (w, rp)) ∧
    versioned_from req = Ret vd ∧ incipient_new main (response_route resp) (ClientRequest vd) e = Ok pkg ∧
    exit_key_of back = Some e' ∧ find_exit_report 0 back = Ret (Some exit).

(** The failure of an attempt comes over the return route of this attempt, before that
    expires. *)
Record attempt_fails (main : NodeCryptDE) (req : ClientRequestPayload_0v1) (a : Attempt)
    (pkg : IncipientCoresPackage) : Prop := {
  af_key : failure_key (at_failure a).2 = crq_stream_key req;
  af_time : (at_failure a).1 ≤ at_added a + RETURN_ROUTE_TTL;
  af_route : ∃ id hop rest, usable main req (at_response a) id pkg ∧
    shift (remaining_route _ (at_failure a).2) main = Ret (Ok hop, rest) ∧
    route_id rest main = Ret (Ok id)
}.

(** A failure of the request [req], over a return route that is known. *)
Record fails_over p (req : ClientRequestPayload_0v1) (f : Z * ExpiredCoresPackage DnsResolveFailure_0v1)
    (info : AddReturnRouteMessage) : Prop := {
  fo_key : failure_key f.2 = crq_stream_key req;
  fo_route : return_route_known f.1 p (remaining_route _ f.2) info;
  fo_protocol : rr_protocol info = protocol req;
  fo_hostname : rr_hostname_opt info = target_hostname req;
  fo_exit : ∃ e, exit_key_of (rr_expected_services info) = Some e;
  fo_report : ∃ exit, find_exit_report 0 (rr_expected_services info) = Ret (Some exit)
}.

Lemma ttl_get_ttl now id (m : TtlHashMap Z AddReturnRouteMessage) : ttl (ttl_get now id m).2 = ttl m.
Proof.
  unfold ttl_get, remove_expired_entries. destruct (_ <? _), (_ !! id) as [[? ?]|]; done.
Qed.

Lemma ttl_insert_ttl now id v (m : TtlHashMap Z AddReturnRouteMessage) : ttl (ttl_insert now id v m) = ttl m.
Proof. unfold ttl_insert, remove_expired_entries. by destruct (_ <? _). Qed.

(** A query is answered: the request is sent off along the route, which is kept. *)
Lemma answered_sends t p addr now req resp id pkg q :
  is_Some (dns_failure_retries p !! crq_stream_key req) → usable (ps_main p) req resp id pkg →
  ∃ back, (∃ e, exit_key_of back = Some e) ∧ (∃ exit, find_exit_report 0 back = Ret (Some exit)) ∧
  let info := mkReturnRoute id back (protocol req) (target_hostname req) in
  runs (answered t resp [AskRoute (mkArgs (ps_main p) req addr now true false) q]) p (λ _ p' sent,
    dispatched sent = [pkg] ∧ asked sent = [] ∧ told sent = [] ∧
    p' = set_routes (<[crq_stream_key req := resp]> (stream_key_routes p))
           (set_return_routes (ttl_insert t id info (route_ids_to_return_routes p)) p)).
Proof.
  intros Hr (over & back & e & w & rp & vd & e' & exit & Hresp & He & Hf & Hvd & Hpkg & He' & Hx).
  exists back. split; [by exists e'|]. split; [by exists exit|]. intros info. unfold answered. cbn [each].
  apply runs_bind, runs_heard. eapply runs_mono; [by apply (route_is_used p _ resp over back id e w rp vd pkg)|].
  intros [] ? ? [-> ->]. cbn [args_payload args_timestamp]. unfold own_messages. cbn [each].
  pose proof (route_is_kept p (crq_stream_key req) info resp t Hr) as Hkept.
  destruct (runs_inv _ _ _ Hkept) as ([] & p' & sent' & Hrun & -> & ->). clear Hkept. revert Hrun.
  unfold runs, mbind, prog_bind. fold info.
  destruct (handle_add_return_route t info p) as [[[[] p1] s1]|]; [|done]. cbn.
  destruct (handle_add_route_result (crq_stream_key req) (Ok resp) p1) as [[[[] p2] s2]|]; [|done].
  intros [= -> [-> ->]%app_nil]. cbn. by split_and!.
Qed.
Lemma answered_after_failure t resp e hostname_opt used args q p P :
  runs (answered t resp [AskRoute args q]) p P →
  runs (answered t resp (unreachable_report e hostname_opt ++ [ReportConsumed used; AskRoute args q])) p P.
Proof.
  intros Hr. unfold answered in *. destruct hostname_opt; cbn [app unreachable_report each]; by repeat apply runs_bind, runs_ret.
Qed.

(** What a failure of the stream leaves as it was. *)
Lemma after_failure_keeps now p k retry q :
  route_used now p q → retries_left retry ≠ O →
  let p' := after_failure k retry q in
  ps_bound p' = ps_bound p ∧ ps_is_decentralized p' = ps_is_decentralized p ∧ ps_main p' = ps_main p ∧
  keys_and_addrs p' = keys_and_addrs p ∧
  ttl (route_ids_to_return_routes p') = ttl (route_ids_to_return_routes p) ∧
  dns_failure_retries p' !! k = Some (mkRetry (unsuccessful_request retry) (pred (retries_left retry))).
Proof.
  intros [id ->] Hleft. unfold after_failure. destruct (retries_left retry) as [|fewer]; [done|].
  cbn. by rewrite ttl_get_ttl, lookup_insert_eq.
Qed.

(** The failure of an attempt is known, once its return route has been added. *)
Lemma next_failure_known p p' req a back id hop rest :
  let info := mkReturnRoute id back (protocol req) (target_hostname req) in
  ttl (route_ids_to_return_routes p) = RETURN_ROUTE_TTL →
  route_ids_to_return_routes p' = ttl_insert (at_added a) id info (route_ids_to_return_routes p) →
  failure_key (at_failure a).2 = crq_stream_key req → (at_failure a).1 ≤ at_added a + RETURN_ROUTE_TTL →
  shift (remaining_route _ (at_failure a).2) (ps_main p') = Ret (Ok hop, rest) →
  route_id rest (ps_main p') = Ret (Ok id) →
  (∃ e, exit_key_of back = Some e) → (∃ exit, find_exit_report 0 back = Ret (Some exit)) →
  fails_over p' req (at_failure a) info.
Proof.
  intros info Hl Hroutes Hk Ht Hs Hid He Hx. split; try done. exists hop, rest, id, (at_added a).
  rewrite Hroutes, ttl_insert_ttl, Hl. split; [done|]. split; [done|]. split; [cbn; by rewrite lookup_insert_eq|].
  unfold RETURN_ROUTE_TTL in *. lia.
Qed.

(** A stream of the client at [addr] whose request [req] has [n] retries left. *)
Record retrying p (addr : SocketAddr) (req : ClientRequestPayload_0v1) (n : nat) : Prop := {
  rt_bound : ps_bound p = true;
  rt_decentralized : ps_is_decentralized p = true;
  rt_ttl : ttl (route_ids_to_return_routes p) = RETURN_ROUTE_TTL;
  rt_addr : a_to_b (keys_and_addrs p) !! crq_stream_key req = Some addr;
  rt_retries : dns_failure_retries p !! crq_stream_key req = Some (mkRetry req n)
}.

(** The stream [k] and all that belongs to it is forgotten. *)
Definition forgotten k p : Prop :=
  a_to_b (keys_and_addrs p) !! k = None ∧ dns_failure_retries p !! k = None ∧
  stream_key_routes p !! k = None ∧ tunneled_hosts p !! k = None ∧ stream_key_ttl p !! k = None.

(** The news for the browser that the name in [req] cannot be resolved. *)
Definition failure_news (addr : SocketAddr) (req : ClientRequestPayload_0v1) : TransmitDataMsg :=
  mkTransmit (Socket addr) true (Some 0)
    (dns_resolution_failure_response (protocol req) (bytes <$> target_hostname req)).

Lemma unreachable_report_quiet e hostname_opt :
  let sent := unreachable_report e hostname_opt in asked sent = [] ∧ told sent = [] ∧ dispatched sent = [].
Proof. by destruct hostname_opt. Qed.

Lemma last_failure_is_told p addr req f info :
  retrying p addr req 0 → fails_over p req f info →
  runs (handle_dns_resolve_failure f.1 f.2) p (λ _ p' sent,
    asked sent = [] ∧ dispatched sent = [] ∧ told sent = [failure_news addr req] ∧
    (∃ before, sent = before ++ [ToClient (failure_news addr req)]) ∧ forgotten (crq_stream_key req) p').
Proof.
  intros [Hb Hd Hl Ha Hr] [Hkey Hroute Hprot Hhost [e He] [exit Hx]]. rewrite <-Hkey in *.
  eapply runs_mono; [by apply (dns_failure_step f.1 f.2 p info e exit addr)|].
  intros [] p' ? [(q & Hq & ->) ->]. unfold retry_or_tell. cbn [retries_left]. rewrite Hprot, Hhost.
  destruct (unreachable_report_quiet e (target_hostname req)) as (Hra & Hrt & Hrd).
  rewrite asked_app, told_app, dispatched_app, Hra, Hrt, Hrd. split_and!; try done.
  - eexists (_ ++ [_]). by rewrite <-app_assoc.
  - unfold forgotten, after_failure. cbn. by rewrite remove_a_lookup, decide_True, !lookup_delete_eq.
Qed.

Lemma failure_is_retried p addr req n f info a pkg :
  retrying p addr req (S n) → fails_over p req f info → attempt_fails (ps_main p) req a pkg →
  runs (handle_dns_resolve_failure f.1 f.2) p (λ _ p1 sent1,
    runs (answered (at_added a) (at_response a) sent1) p1 (λ _ p2 sent2,
      asked (sent1 ++ sent2) = [req] ∧ dispatched (sent1 ++ sent2) = [pkg] ∧ told (sent1 ++ sent2) = [] ∧
      ps_main p2 = ps_main p ∧ retrying p2 addr req n ∧ ∃ info', fails_over p2 req (at_failure a) info')).
Proof.
  intros [Hb Hd Hl Ha Hr] [Hkey Hroute Hprot Hhost [e He] [exit Hx]].
  intros [Hak Hat (id & hop & rest & Huse & Hs & Hid)]. rewrite <-Hkey in *.
  eapply runs_mono; [by apply (dns_failure_step f.1 f.2 p info e exit addr)|]. rewrite Hkey in *.
  intros [] p' ? [(q & Hq & ->) ->]. unfold retry_or_tell. cbn [retries_left unsuccessful_request].
  destruct (unreachable_report_quiet e (rr_hostname_opt info)) as (Hra & Hrt & Hrd).
  destruct (after_failure_keeps f.1 p (crq_stream_key req) (mkRetry req (S n)) q Hq ltac:(done))
    as (Hb1 & Hd1 & Hm1 & Ha1 & Hl1 & Hr1). set (p1 := after_failure _ _ q) in *.
  rewrite <-Hm1 in Huse, Hs, Hid |- *. rewrite Hd.
  edestruct (answered_sends (at_added a) p1 addr f.1 req (at_response a) id pkg) as (back & He' & Hx' & Hans);
    [by rewrite Hr1|done|]. cbv zeta in Hans.
  apply answered_after_failure. eapply runs_mono; [apply Hans|].
  intros [] p2 new (Hnd & Hna & Hnt & ->).
  rewrite !asked_app, !told_app, !dispatched_app, Hra, Hrt, Hrd, Hna, Hnt, Hnd.
  split_and!; try done.
  - split; [by rewrite <-Hb1 in Hb|by rewrite <-Hd1 in Hd| |by rewrite <-Ha1 in Ha|done].
    transitivity (ttl (route_ids_to_return_routes p1)); [exact (ttl_insert_ttl _ _ _ _)|congruence].
  - eexists. eapply (next_failure_known p1); try done. congruence.
Qed.

(** C17: Name resolution is retried over new routes, and the browser hears of it at last.
    Let the request of a stream of a decentralized node have [n] retries left, [n] being
    the number of attempts that follow, and let an exit node report, over a return route
    that is known, that it cannot resolve the name.  Each time such a failure arrives and
    retries are left, the ProxyServer asks for a route, and when the Neighborhood has
    answered with one that leads to an exit node and back, it sends the request off again
    along that route and keeps its return route, over which the next failure arrives before
    that route expires.  Then no handler panics, the ProxyServer asks exactly [n] times for
    a route and sends off exactly [n] packages, each of them the same request along the
    route of its answer; after the last failure, and only then, it tells the browser on
    that stream, once and with a last packet, that the name cannot be resolved, and has
    forgotten the stream.  The steps follow each other without other events of the
    ProxyServer in between. *)
Theorem dns_failures_are_retried_and_told p addr req f info attempts pkgs :
  retrying p addr req (length attempts) → fails_over p req f info →
  Forall2 (attempt_fails (ps_main p) req) attempts pkgs →
  runs (failing f attempts) p (λ _ p' sent,
    asked sent = replicate (length attempts) req ∧ dispatched sent = pkgs ∧
    told sent = [failure_news addr req] ∧
    (∃ before, sent = before ++ [ToClient (failure_news addr req)]) ∧
    forgotten (crq_stream_key req) p').
Proof.
  revert p f info pkgs.
  induction attempts as [|a attempts IH]; intros p f info pkgs Hp Hf Hat; cbn [failing]; apply runs_heard.
  - apply Forall2_nil_inv_l in Hat as ->. eapply runs_mono; [by eapply last_failure_is_told|].
    intros [] p' sent Hsent. apply runs_ret. by rewrite app_nil_r.
  - apply Forall2_cons_inv_l in Hat as (pkg & pkgs' & Ha & Hrest & ->).
    eapply runs_mono; [by eapply failure_is_retried|]. intros [] p1 sent1 Hans.
    apply runs_bind. eapply runs_mono; [apply Hans|].
    intros [] p2 sent2 (Hsa & Hsd & Hst & Hm & Hp2 & info' & Hf2). rewrite <-Hm in Hrest.
    eapply runs_mono; [by eapply IH|]. intros [] p3 sent3 (Hta & Htd & Htt & (before & Hb) & Hgone).
    rewrite app_assoc, asked_app, told_app, dispatched_app, Hsa, Hsd, Hst, Hta, Htd, Htt.
    split_and!; try done. exists ((sent1 ++ sent2) ++ before). rewrite Hb. by rewrite app_assoc.
Qed.
End Steps.

(** ** The round trip of a request *)
Section Browsing.
Context `{HO : HashOrder} `{SignaturesOk} `{KeyOrder} `{Codec Value} `{HH : CodecOk LiveHop}
        `{HM : CodecOk MessageType} `{HL : CodecOk LiveCoresPackage} `{HZ : CodecOk Z}
        `{Payload ClientRequestPayload_0v1} `{Payload ClientResponsePayload_0v1}
        `{Payload DnsResolveFailure_0v1} `{Payload Gossip_0v1} `{Payload GossipFailure_0v1}.
Context `{HRq : !CodecOk ClientRequestPayload_0v1} `{HRs : !CodecOk ClientResponsePayload_0v1}.
Context `{CryptNetwork member} `{WebText}.
Context (ban_cache : list Wallet) (now : Z) (peer_of : RoutingService → SocketAddr).
Context (secret contract_address : list Z) (net : PublicKey → RoutingService).
Context (sha1 : list Z → list Z) (salt : list Z).

Abbreviation own_node n := (net (this_node (nb_db n))).
Abbreviation travels := (sent_along ban_cache now peer_of secret).
Abbreviation arrives s d := (route ban_cache now s (inbound now peer_of s d)).

(** The ProxyClient of the exit node, when it gets [received], remembers the stream; when
    the server sends the packet of [response] on it, then it sends [reply] and reports the
    service for the paying wallet, whatever it did in between. *)
Definition client_serves (x : RoutingService) (received : ExpiredCoresPackage ClientRequestPayload_0v1)
    (response : ClientResponsePayload_0v1) (reply : IncipientCoresPackage) : Prop :=
  let k := crp_stream_key response in
  let packet := crp_sequenced_packet response in
  ∀ c pool, pc_main c = rs_main x → pc_pool c = Some pool →
  ∃ c1 sent1, handle_client_request received c = Ret (tt, c1, sent1) ∧
  ∀ now' c2 source, pc_main c2 = rs_main x → stream_contexts c2 !! k = stream_contexts c1 !! k →
  ∃ c3, handle_inbound_server_data now'
          (mkInbound k (last_data packet) (sequence_number packet) source (data packet)) c2 =
        Ret (tt, c3, [ExitToHopper reply;
          ExitReport (mkExitReport now' (WalletAddress (secret_address secret)) (length (data packet))
            (pc_exit_service_rate c2) (pc_exit_byte_rate c2))]).

(** The package [pkg] that leaves [o] travels over [s1] and the nodes [over], the last of
    which is [x], whose ProxyClient gets [request], paid by the wallet of [secret]; the
    [response] of the server that this ProxyClient sends to the originator travels back over
    [b1] and the nodes [back], and the Hopper of [o] gives [arrived] to the ProxyServer. *)
Definition carried (o s1 : RoutingService) (over : list RoutingService) (x b1 : RoutingService)
    (back : list RoutingService) (pkg : IncipientCoresPackage) (request : ClientRequestPayload_0v1)
    (response : ClientResponsePayload_0v1) (arrived : ExpiredCoresPackage ClientResponsePayload_0v1) : Prop :=
  ∃ sent received reply sent',
    travels o s1 over pkg sent ∧
    arrives x sent = Ret [ToProxyClient received] ∧
    ex_payload _ received = request ∧ paying_wallet _ received = Some (WalletAddress (secret_address secret)) ∧
    client_serves x received response reply ∧
    travels x b1 back reply sent' ∧
    arrives o sent' = Ret [ToProxyServer arrived] ∧ ex_payload _ arrived = response.

(** The journey that the answer [resp] of the Neighborhood plans: through known, distinct
    nodes to the exit node [e] and through such nodes back, with the services that each of
    them charges for. *)
Record planned (n : Neighborhood) (resp : RouteQueryResponse) (next : PublicKey) (over : list PublicKey)
    (e next' : PublicKey) (back : list PublicKey) (ss ss' : list ExpectedService) : Prop := {
  pl_over : good_leg n (this_node (nb_db n)) next over e;
  pl_back : good_leg n e next' back (this_node (nb_db n));
  pl_services : response_services resp = RoundTrip ss ss' (nb_next_return_route_id n);
  pl_over_services :
    Forall2 (service_for (nb_db n) (this_node (nb_db n)) e) (this_node (nb_db n) :: next :: over) ss;
  pl_back_services :
    Forall2 (service_for (nb_db n) e (this_node (nb_db n))) (e :: next' :: back) ss'
}.

(** The exit service of the node with the record [r] for data of the given size. *)
Definition exit_use (r : NodeRecord) (size : nat) : ExitServiceConsumed :=
  mkExitConsumed (earning_wallet r) size (exit_service_rate (rate_pack r)) (exit_byte_rate (rate_pack r)).

Lemma client_serves_reply x received response vd reply :
  paying_wallet _ received = Some (WalletAddress (secret_address secret)) → versioned_from response = Ret vd →
  incipient_new (rs_main x) (remaining_route _ received) (ClientResponse vd)
    (originator_public_key (ex_payload _ received)) = Ok reply →
  crp_stream_key response = crq_stream_key (ex_payload _ received) → client_serves x received response reply.
Proof.
  intros Hw Hvd Hrep Hk c pool Hc Hp.
  destruct (pool_process_package_returns (ex_payload _ received) (paying_wallet _ received) pool) as (more & E & _).
  do 2 eexists. split; [eapply handle_client_request_eq; [left; rewrite Hw; by eexists|exact Hp|exact E]|].
  intros now' c2 source Hc2 Hctx. cbn in Hctx. rewrite Hk, lookup_insert_eq in Hctx. eexists.
  rewrite (handle_inbound_server_data_eq now' _ c2 (context_of received) reply); [cbn; by rewrite Hw|by cbn; rewrite Hk|].
  exists vd. rewrite Hc2. split; [|exact Hrep]. destruct response as [k []]. exact Hvd.
Qed.

(** The ProxyServer and the Neighborhood are of the same node. *)
Record same_node (n : Neighborhood) (p : ProxyServer) : Prop := {
  sn_main : ps_main p = nb_cryptde (nb_config n);
  sn_alias : cd_public_key (ps_alias p) = cd_public_key (rs_alias (own_node n))
}.

(** The answer to a route query is usable by the ProxyServer of the node. *)
Lemma answer_is_usable n resp :
  in_network (member := member) contract_address net n →
  answers ban_cache now peer_of secret net n resp →
  ∃ next over e next' back ss ss' r,
    planned n resp next over e next' back ss ss' ∧
    node_by_key (nb_db n) e = Some r ∧ exit_key_of ss = Some e ∧
    find_exit_service ss None = Ret (Some (earning_wallet r, rate_pack r)) ∧
    (∀ size, find_exit_report size ss' = Ret (Some (exit_use r size))) ∧ exit_key_of ss' = Some e ∧
    ∀ request, originator_public_key request = cd_public_key (rs_alias (own_node n)) →
    ∃ vd pkg, versioned_from request = Ret vd ∧
      incipient_new (rs_main (own_node n)) (response_route resp) (ClientRequest vd) e = Ok pkg ∧
      ∀ response, crp_stream_key response = crq_stream_key request → ∃ arrived hop rest,
        carried (own_node n) (net next) (net <$> over) (net e) (net next') (net <$> back)
          pkg request response arrived ∧
        shift (remaining_route _ arrived) (rs_main (own_node n)) = Ret (Ok hop, rest) ∧
        route_id rest (rs_main (own_node n)) = Ret (Ok (nb_next_return_route_id n)).
Proof.
  intros Hn (next & over & e & next' & back & ss & ss' & L1 & L2 & Hresp & Hss & Hss' & Hw).
  set (root := this_node (nb_db n)) in *.
  assert (e ∈ next :: over) as Hin.
  { pose proof (leg_last _ _ _ _ _ L1) as Hl. apply last_Some in Hl as [l ->]. set_solver. }
  assert (e ≠ root) as Hne.
  { pose proof (leg_distinct _ _ _ _ _ L1) as Hnd. apply NoDup_cons in Hnd as [Hnd _]. by intros ->. }
  destruct (exit_service_found _ root e _ _ Hss (leg_distinct _ _ _ _ _ L1)) as (r & Hr & Hk & Hf);
    [by right|done|done|].
  exists next, over, e, next', back, ss, ss', r. split; [done|]. split; [done|]. split; [done|]. split; [done|]. split.
  { intros size. destruct (exit_report_found _ e root _ _ size Hss' Hne) as (r' & Hr' & -> & _). by simplify_eq. }
  split; [by destruct (exit_report_found _ e root _ _ 0 Hss' Hne) as (r' & _ & _ & ?)|].
  intros request Ho.
  assert (end_of (net next) (net <$> over) = net e) as Ex by by apply end_of_net, (leg_last _ _ _ _ _ L1).
  assert (node_key (net e) = e) as Ek by by apply (net_nodes _ _ _ Hn); exists r.
  unfold round_trip_works in Hw. rewrite Ex, Ek in Hw.
  destruct (Hw request (mkResponse (crq_stream_key request) (mkPacket [] 0 false)))
    as (vd & pkg & _ & _ & _ & _ & _ & _ & _ & _ & Hvd & Hpkg & _).
  exists vd, pkg. split; [done|]. split; [done|]. intros response Hkey.
  destruct (Hw request response) as (vd1 & pkg1 & sent & received & vd' & reply & sent' & arrived & hop & rest &
    Hvd1 & Hpkg1 & Htr & Har & Hreq & Hpay & Hvd' & Hrep & Htr' & Har' & Hres & Hsh & Hid).
  assert (vd1 = vd) as -> by congruence. assert (pkg1 = pkg) as -> by congruence.
  exists arrived, hop, rest. split; [|done]. exists sent, received, reply, sent'.
  split_and!; try done. eapply client_serves_reply; [done|exact Hvd'| |by rewrite Hreq].
  by rewrite Hreq, Ho.
Qed.

(** An answer of the Neighborhood is what a retry needs. *)
Lemma answers_are_usable n p resp req :
  in_network (member := member) contract_address net n → same_node n p →
  answers ban_cache now peer_of secret net n resp → originator_public_key req = cd_public_key (ps_alias p) →
  ∃ pkg, usable (ps_main p) req resp (nb_next_return_route_id n) pkg.
Proof.
  intros Hn Hsn Hans Ho.
  destruct (answer_is_usable n resp Hn Hans)
    as (next & over & e & next' & back & ss & ss' & r & Hplan & _ & He & Hf & Hx & He' & Hcarry).
  destruct (Hcarry req) as (vd & pkg & Hvd & Hpkg & _); [by rewrite Ho, (sn_alias _ _ Hsn)|].
  rewrite (net_own _ _ _ Hn), <-(sn_main _ _ Hsn) in Hpkg. exists pkg.
  exists ss, ss', e, (earning_wallet r), (rate_pack r), vd, e, (exit_use r 0).
  pose proof (pl_services _ _ _ _ _ _ _ _ _ Hplan). by split_and!.
Qed.

Lemma new_stream_known p addr :
  bidi_ok (keys_and_addrs p) →
  a_to_b (keys_and_addrs (with_stream sha1 salt p addr)) !! stream_key_for sha1 salt p addr = Some addr.
Proof.
  intros Hok. unfold with_stream, stream_key_for. destruct (b_to_a (keys_and_addrs p) !! addr) as [k|] eqn:E.
  - simpl. by apply Hok.
  - simpl. by rewrite lookup_insert_eq.
Qed.

(** A response comes back while the return route is remembered. *)
Lemma kept_route_delivers p k info resp t t' arrived packet hop rest exit addr :
  ps_bound p = true → ttl (route_ids_to_return_routes p) = RETURN_ROUTE_TTL →
  t' ≤ t + RETURN_ROUTE_TTL → ex_payload _ arrived = mkResponse k packet →
  shift (remaining_route _ arrived) (ps_main p) = Ret (Ok hop, rest) →
  route_id rest (ps_main p) = Ret (Ok (rr_return_route_id info)) →
  find_exit_report (length (data packet)) (rr_expected_services info) = Ret (Some exit) →
  stream_key_ttl p !! k = None → a_to_b (keys_and_addrs p) !! k = Some addr →
  let p2 := set_routes (<[k := resp]> (stream_key_routes p))
              (set_return_routes (ttl_insert t (rr_return_route_id info) info (route_ids_to_return_routes p)) p) in
  ∃ p3, handle_client_response_payload t' arrived p2 =
    Ret (tt, p3, [ReportConsumed (mkConsumed t' exit (payload_len _ arrived)
                    (report_on_routing_services (rr_expected_services info)));
      ToClient (mkTransmit (Socket addr) (last_data packet)
        (Some (u64 (sequence_number packet + Z.b2z (browser_proxy_sequence_offset p)))) (data packet))]).
Proof.
  intros Hb Hl Ht Hex Hsh Hid Hx Httl Ha p2.
  pose proof (response_is_delivered t' arrived p2 info exit addr) as Hdel. cbv zeta in Hdel. rewrite Hex in Hdel.
  ospecialize (Hdel _ _ _ _ _); [done| |done|done|done|].
  - exists hop, rest, (rr_return_route_id info), t. split; [done|]. split; [done|].
    split; [cbn; by rewrite lookup_insert_eq|]. cbn.
    assert (ttl (remove_expired_entries t (route_ids_to_return_routes p)) = RETURN_ROUTE_TTL) as ->
      by (unfold remove_expired_entries; by destruct (_ <? _)). unfold RETURN_ROUTE_TTL in *. lia.
  - destruct (runs_inv _ _ _ Hdel) as ([] & p3 & ? & Hev & _ & ->). by eexists.
Qed.

(** C3: A browser's request makes its round trip.  On a node of the network whose user
    can pay, let a browser send the data of a request on a stream that has no route.
    The ProxyServer asks for a route.  When the Neighborhood of the node answers, the
    answer plans a journey through distinct nodes of the node's database to an exit node
    and through such nodes back, each way over at least the required hops, and the
    ProxyServer sends one package and one report of the services it consumes: of the exit
    node's wallet, by its rates and the size of the request, and of every routing node on
    the way.  The package travels through the Hoppers of exactly these nodes to the exit
    node, whose ProxyClient gets exactly the request, with the address of the paying
    wallet.  Whatever packet a server sends to the exit node on that stream, the
    ProxyClient reports it for the paying wallet and sends it back; it travels through the
    Hoppers of the planned nodes to the node, and as long as the return route has not
    expired, its ProxyServer reports the services consumed, of the exit node for the size
    of the packet and of the routing nodes on the way back, and hands the packet,
    unchanged but for the sequence offset, to the socket of that browser. *)
Theorem browser_request_round_trip p n msg payload t :
  let addr := client_addr msg in
  let k := stream_key_for sha1 salt p addr in
  in_network (member := member) contract_address net n →
  can_pay ban_cache secret contract_address n → nb_zero_hop (nb_config n) = false →
  serving p → same_node n p → bidi_ok (keys_and_addrs p) →
  is_connect (ibcd_data msg) = false → request_of sha1 salt p msg payload →
  stream_key_routes p !! k = None → stream_key_ttl p !! k = None →
  ∃ p1 args query,
    handle_inbound_client_data sha1 salt msg p = Ret (tt, p1, [AskRoute args query]) ∧
    ∀ resp n', handle_route_query_message query n = Ret (Some resp, n', []) →
    ∃ next over e next' back ss ss' r pkg p2,
      let info := mkReturnRoute (nb_next_return_route_id n) ss' (protocol payload) (target_hostname payload) in
      planned n resp next over e next' back ss ss' ∧ node_by_key (nb_db n) e = Some r ∧
      resolve_message args (Ok (Some resp)) p1 =
        Ret (tt, p1,
          [AddReturnRoute info;
           ReportConsumed (mkConsumed (timestamp msg) (exit_use r (length (data (crq_sequenced_packet payload))))
             (length (inc_payload pkg)) (report_on_routing_services ss));
           ToHopper pkg;
           AddRouteResult k (Ok resp)]) ∧
      (_ ← handle_add_return_route t info; handle_add_route_result k (Ok resp)) p1 = Ret (tt, p2, []) ∧
      ∀ packet t', t' ≤ t + RETURN_ROUTE_TTL →
      ∃ arrived p3,
        carried (own_node n) (net next) (net <$> over) (net e) (net next') (net <$> back)
          pkg payload (mkResponse k packet) arrived ∧
        handle_client_response_payload t' arrived p2 =
          Ret (tt, p3,
            [ReportConsumed (mkConsumed t' (exit_use r (length (data packet))) (payload_len _ arrived)
               (report_on_routing_services ss'));
             ToClient (mkTransmit (Socket addr) (last_data packet)
              (Some (u64 (sequence_number packet + Z.b2z (browser_proxy_sequence_offset p)))) (data packet))]).
Proof.
  intros addr k Hn Hpay Hz Hs Hsn Hok Hc Hreq Hroute Httl.
  destruct (runs_inv _ _ _ (request_asks_for_route sha1 salt p msg payload Hs Hc Hreq Hroute))
    as ([] & p1 & ? & Hev1 & Hp1 & ->). fold addr k in Hev1, Hp1.
  do 3 eexists. split; [exact Hev1|]. intros resp n' Hq. set (args := mkArgs _ _ _ _ _ _) in *.
  set (query := data_indefinite_route_request _ _) in *.
  pose proof (route_query_answers ban_cache now peer_of secret contract_address net n query Hn Hpay Hz
    eq_refl eq_refl) as Ha. unfold runs in Ha. rewrite Hq in Ha. destruct Ha as (_ & _ & Hans).
  destruct (answer_is_usable n resp Hn Hans)
    as (next & over & e & next' & back & ss & ss' & r & Hplan & Hr & He & Hf & Hx & _ & Hcarry).
  pose proof (pl_services _ _ _ _ _ _ _ _ _ Hplan) as Hresp.
  destruct (payload_keys _ _ _ _ _ _ (proj1 Hreq)) as [Hk Horig]. fold addr k in Hk.
  assert (ps_alias (with_stream sha1 salt p addr) = ps_alias p) as Hal
    by (unfold with_stream; by destruct (b_to_a _ !! _)).
  fold addr in Horig. rewrite Hal, (sn_alias _ _ Hsn) in Horig.
  destruct (Hcarry payload Horig) as (vd & pkg & Hvd & Hpkg & Hback).
  rewrite (net_own _ _ _ Hn), <-(sn_main _ _ Hsn) in Hpkg.
  destruct (runs_inv _ _ _ (route_is_used p1 args resp ss ss' _ e _ _ vd pkg eq_refl eq_refl Hresp He Hf Hvd Hpkg))
    as ([] & ? & ? & Hev2 & -> & ->). cbn [args_payload args] in Hev2. rewrite Hk in Hev2.
  assert (is_Some (dns_failure_retries p1 !! k)) as Hretry.
  { rewrite Hp1. unfold with_retry. case_bool_decide as Hb; simpl; [by rewrite lookup_insert_eq|].
    by apply not_eq_None_Some in Hb. }
  set (info := mkReturnRoute _ _ _ _) in *.
  destruct (runs_inv _ _ _ (route_is_kept p1 k info resp t Hretry)) as ([] & p2 & ? & Hev3 & -> & Hp2).
  exists next, over, e, next', back, ss, ss', r, pkg, p2. cbv zeta. fold info.
  split; [exact Hplan|]. split; [exact Hr|]. split; [exact Hev2|]. split; [exact Hev3|]. intros packet t' Ht.
  destruct (Hback (mkResponse k packet)) as (arrived & hop & rest & Hcar & Hsh & Hid); [by rewrite Hk|].
  assert (ex_payload _ arrived = mkResponse k packet) as Hex
    by (destruct Hcar as (? & ? & ? & ? & Hcar); apply Hcar).
  assert (ps_bound p1 = true ∧ ps_main p1 = ps_main p ∧ stream_key_ttl p1 = stream_key_ttl p ∧
    keys_and_addrs p1 = keys_and_addrs (with_stream sha1 salt p addr) ∧
    ttl (route_ids_to_return_routes p1) = RETURN_ROUTE_TTL ∧
    browser_proxy_sequence_offset p1 = browser_proxy_sequence_offset p) as (Hb1 & Hm1 & Ht1 & Hk1 & Hl1 & Ho1).
  { rewrite Hp1. destruct Hs as [? ? ? ?]. unfold with_retry, with_stream.
    by destruct (bool_decide _), (b_to_a _ !! _). }
  edestruct (kept_route_delivers p1 k info resp t t' arrived packet hop rest) as (p3 & Hev4);
    [exact Hb1|exact Hl1|exact Ht|exact Hex|..];
     [by rewrite Hm1, (sn_main _ _ Hsn), <-(net_own _ _ _ Hn)|by rewrite Hm1, (sn_main _ _ Hsn), <-(net_own _ _ _ Hn)|apply Hx|..].
  - by rewrite Ht1.
  - rewrite Hk1. by apply new_stream_known.
  - exists arrived, p3. split; [exact Hcar|]. by rewrite Hp2, Hev4, Ho1.
Qed.
End Browsing.

(** ** The streams of the actor *)
Section Streams.
Context `{Signatures} `{KeyOrder} `{Codec Value} `{Codec LiveHop} `{Codec MessageType} `{Codec Z}
        `{Payload ClientRequestPayload_0v1} `{WebText}.
Context (sha1 : list Z → list Z) (salt : list Z) (main : NodeCryptDE).
Implicit Types (p : ProxyServer) (k : StreamKey).

Abbreviation key_of := (StreamKey_new sha1 salt (cd_public_key main)).

(** An address of the width of its kind. *)
Definition socket_addr_ok (a : SocketAddr) : Prop :=
  match sa_ip a with V4 z => 0 ≤ z < 2 ^ 32 | V6 z => 0 ≤ z < 2 ^ 128 end ∧ 0 ≤ sa_port a < 2 ^ 16.

(** No two clients have the same stream key. *)
Context (distinct_keys : ∀ a a', socket_addr_ok a → socket_addr_ok a' → key_of a = key_of a' → a = a').

Record streams_ok (t : Z) p : Prop := {
  so_main : ps_main p = main;
  so_keys : bidi_ok (keys_and_addrs p);
  so_made k addr : a_to_b (keys_and_addrs p) !! k = Some addr → k = key_of addr ∧ socket_addr_ok addr;
  so_hosts k : is_Some (tunneled_hosts p !! k) → is_Some (a_to_b (keys_and_addrs p) !! k);
  so_closing k : is_Some (stream_key_ttl p !! k) → is_Some (a_to_b (keys_and_addrs p) !! k);
  so_routes : ttl_ok t (route_ids_to_return_routes p)
}.

(** What the invariant speaks of is the same. *)
Definition same_streams p p' : Prop :=
  ps_main p' = ps_main p ∧ keys_and_addrs p' = keys_and_addrs p ∧ tunneled_hosts p' = tunneled_hosts p ∧
  stream_key_ttl p' = stream_key_ttl p ∧ route_ids_to_return_routes p' = route_ids_to_return_routes p.

Lemma same_streams_ok t p p' : same_streams p p' → streams_ok t p → streams_ok t p'.
Proof.
  intros (Em & Ek & Eh & Et & Er) [? ? ? ? ? ?]. split; by rewrite ?Em, ?Ek, ?Eh, ?Et, ?Er.
Qed.

Lemma new_streams_ok t alias d b i : streams_ok t (ProxyServer_new t main alias d b i).
Proof.
  split; simpl; [done|apply bidi_new_ok| | | |by apply ttl_new_ok];
    intros k; rewrite lookup_empty; [done|by intros [? ?]..].
Qed.

Abbreviation keeps t m := (λ p, streams_ok t p → ensures m p (λ _ p' _, streams_ok t p')).

Lemma purge_keeps t k p : streams_ok t p → streams_ok t (purged k p).
Proof.
  intros [Hm Hk Hmade Hh Hc Hr]. split; simpl; try done.
  - by apply remove_a_ok.
  - intros k' addr. rewrite remove_a_lookup. case_decide; [done|apply Hmade].
  - intros k' [h [Hne Hl]%lookup_delete_Some]. rewrite remove_a_lookup, decide_False by done. apply Hh. by exists h.
  - intros k' [h [Hne Hl]%lookup_delete_Some]. rewrite remove_a_lookup, decide_False by done. apply Hc. by exists h.
Qed.

Lemma insert_known (X : Type) (m : gmap StreamKey X) k x (known : StreamKey → Prop) :
  (∀ k, is_Some (m !! k) → known k) → known k → ∀ k', is_Some (<[k := x]> m !! k') → known k'.
Proof.
  intros Hm Hk k' [y Hy]. rewrite lookup_insert in Hy. case_decide; [by subst|]. apply Hm. by exists y.
Qed.

(** A client has one stream, and keeps it. *)
Lemma stream_keeps t addr p :
  socket_addr_ok addr → streams_ok t p → ensures (find_or_generate_stream_key sha1 salt addr) p (λ k p' sent,
    streams_ok t p' ∧ a_to_b (keys_and_addrs p') !! k = Some addr ∧ sent = []).
Proof.
  intros Hok Hp. destruct Hp as [Hm Hk Hmade Hh Hc Hr]. unfold find_or_generate_stream_key.
  do 2 ens_step. destruct (b_to_a (keys_and_addrs p) !! addr) as [k|] eqn:Hb.
  { ens_step. split; [done|]. split; [|done]. by apply Hk. }
  do 2 ens_step. rewrite Hm. do 3 ens_step. split; [|by simpl; rewrite lookup_insert_eq].
  assert (a_to_b (keys_and_addrs p) !! key_of addr = None) as Hnew.
  { destruct (a_to_b (keys_and_addrs p) !! key_of addr) as [addr'|] eqn:Ha; [|done].
    destruct (Hmade _ _ Ha) as [E Hok']. apply distinct_keys in E as <-; [|done..]. apply Hk in Ha. congruence. }
  split; simpl; try done.
  - by apply bidi_insert_ok.
  - intros k' addr'. rewrite lookup_insert. case_decide; [by intros [= <-]; subst|apply Hmade].
  - intros k' Hl. rewrite lookup_insert. case_decide; [done|]. by apply Hh.
  - intros k' Hl. rewrite lookup_insert. case_decide; [done|]. by apply Hc.
Qed.

(** *** Steps that leave the state alone *)
Definition still {A} (m : proxy A) : Prop := ∀ p, ensures m p (λ _ p' _, p' = p).

Lemma ensures_out_subs why p (P : unit → ProxyServer → list ProxyMessage → Prop) :
  P tt p [] → ensures (out_subs why) p P.
Proof. intros HP ? ? ?. unfold out_subs. destruct (ps_bound p); [|done]. by intros [= <- <- <-]. Qed.

Lemma ensures_tell m p (P : unit → ProxyServer → list ProxyMessage → Prop) : P tt p [m] → ensures (tell m) p P.
Proof. intros HP. unfold tell. ens_step. apply ensures_out_subs. by ens_step. Qed.

Lemma ensures_still {A B} (m : proxy A) (f : A → proxy B) p (Q : B → ProxyServer → Prop) :
  still m → (∀ a, ensures (f a) p (λ b p' _, Q b p')) → ensures (m ≫= f) p (λ b p' _, Q b p').
Proof. intros Hm Hf. ens_step. eapply ensures_mono; [apply Hm|]. by intros a ? ? ->. Qed.

Ltac still_tac :=
  repeat match goal with
  | |- ensures (tell _) _ _ => apply ensures_tell
  | |- ensures (out_subs _) _ _ => apply ensures_out_subs
  | |- ensures (match ?x with _ => _ end) _ _ => destruct x
  | |- ensures (if ?b then _ else _) _ _ => destruct b
  | |- ensures (let _ := _ in _) _ _ => cbv zeta
  | |- _ => ens_step
  | |- _ = _ => reflexivity
  end.

Lemma still_args payload addr t r : still (TransmitToHopperArgs_new payload addr t r).
Proof. intros p. unfold TransmitToHopperArgs_new. still_tac. Qed.

Lemma still_payload msg k : still (make_payload msg k).
Proof. intros p. unfold make_payload. still_tac. Qed.

Lemma still_request args : still (request_route_and_transmit args).
Proof. intros p. unfold request_route_and_transmit. still_tac. Qed.

Lemma still_transmit args resp : still (try_transmit_to_hopper args resp).
Proof.
  intros p. unfold try_transmit_to_hopper, transmit_to_hopper, handle_route_failure, send_route_failure. still_tac.
Qed.

Lemma still_report t info n n' : still (report_response_services_consumed t info n n').
Proof. intros p. unfold report_response_services_consumed. still_tac. Qed.

(** *** Every handler keeps the invariant *)
Lemma normal_data_keeps t msg r p :
  socket_addr_ok (client_addr msg) → streams_ok t p → ensures (handle_normal_client_data sha1 salt msg r) p (λ _ p' _, streams_ok t p').
Proof.
  intros Hok Hp. unfold handle_normal_client_data. do 4 ens_step.
  destruct (_ && _).
  { destruct (from_ibcd msg); [|by ens_step]. ens_step. apply ensures_tell. by ens_step. }
  ens_step. eapply ensures_mono; [by apply stream_keeps|]. intros k p1 ? (Hp1 & _ & _).
  apply ensures_still; [apply still_payload|]. intros o. do 2 ens_step.
  destruct o as [payload|]; [|by ens_step]. destruct (host_refused _ _); [by ens_step|]. do 2 ens_step. ens_step.
  apply (ensures_mono _ _ (λ _ p' _, same_streams p1 p')).
  { destruct (bool_decide _); by ens_step. }
  intros [] p2 ? Hs%(same_streams_ok t); [|done]. apply ensures_still; [apply still_args|]. intros args. do 2 ens_step.
  destruct (stream_key_routes p2 !! crq_stream_key payload) as [resp|].
  - eapply ensures_mono; [apply still_transmit|]. by intros ? ? ? ->.
  - apply ensures_still; [apply still_request|]. intros []. by ens_step.
Qed.

Lemma known_keeps_host t k h p :
  is_Some (a_to_b (keys_and_addrs p) !! k) → streams_ok t p →
  streams_ok t (set_hosts (<[k := h]> (tunneled_hosts p)) p).
Proof. intros Hk [Hm Hb Hmade Hh Hc Hr]. split; try done. simpl. by apply insert_known. Qed.

Lemma known_keeps_ttl t k h p :
  is_Some (a_to_b (keys_and_addrs p) !! k) → streams_ok t p →
  streams_ok t (set_ttls (<[k := h]> (stream_key_ttl p)) p).
Proof. intros Hk [Hm Hb Hmade Hh Hc Hr]. split; try done. simpl. by apply insert_known. Qed.

Lemma client_data_keeps t msg p :
  socket_addr_ok (client_addr msg) → streams_ok t p → ensures (handle_inbound_client_data sha1 salt msg) p (λ _ p' _, streams_ok t p').
Proof.
  intros Hok Hp. unfold handle_inbound_client_data. destruct (is_connect _).
  2:{ ens_step. eapply ensures_mono; [by apply normal_data_keeps|]. intros ? ? ? ?. by ens_step. }
  ens_step. apply (ensures_mono _ _ (λ _ p' _, streams_ok t p')).
  2:{ intros [] p' ? Hp'. ens_step. by apply (same_streams_ok t p'). }
  unfold tls_connect. destruct (http_find_host _) as [host|]; [|by apply ensures_tell].
  destruct (host_port host =? TLS_PORT); [|by apply ensures_tell].
  ens_step. eapply ensures_mono; [by apply stream_keeps|]. intros k p1 ? (Hp1 & Hk & _).
  do 2 ens_step. apply ensures_tell. by apply known_keeps_host; [eexists|].
Qed.

Lemma return_route_keeps t now remaining p :
  streams_ok t p → t ≤ now → ensures (get_return_route_info now remaining) p (λ _ p' _, streams_ok now p').
Proof.
  intros Hp Ht. destruct Hp as [Hm Hk Hmade Hh Hc Hr].
  assert (∀ known, ttl_ok now known → streams_ok now (set_return_routes known p)) as Hset by (intros known Hok; by split).
  assert (ttl_ok now (route_ids_to_return_routes p)) as Hnow.
  { destruct Hr as [Hp1 Hp2 Hp3]. split; [done|lia|]. intros k v s E. apply Hp3 in E. lia. }
  unfold get_return_route_info. do 3 ens_step. ens_step. do 2 ens_step. do 2 ens_step.
  destruct a1 as [id|e]; [|by ens_step].
  do 2 ens_step. pose proof (ttl_get_ok t now id _ Hr Ht) as Hg.
  destruct (ttl_get now id (route_ids_to_return_routes p)) as [o known]. do 3 ens_step. by apply Hset.
Qed.

Lemma remove_retry_keeps t k p :
  streams_ok t p → ensures (remove_dns_failure_retry k) p (λ _ p' _, streams_ok t p').
Proof. intros Hp. unfold remove_dns_failure_retry. do 5 ens_step. by apply (same_streams_ok t p). Qed.

Lemma response_keeps t now msg p :
  streams_ok t p → t ≤ now → ensures (handle_client_response_payload now msg) p (λ _ p' _, streams_ok now p').
Proof.
  intros Hp Ht. unfold handle_client_response_payload. ens_step.
  eapply ensures_mono; [by eapply return_route_keeps|]. intros [info|] p1 ? Hp1; [|by ens_step].
  apply ensures_still; [apply still_report|]. intros []. ens_step.
  eapply ensures_mono; [by apply remove_retry_keeps|]. intros o p2 ? Hp2. do 2 ens_step.
  destruct (stream_key_ttl p2 !! _); [by ens_step|]. do 2 ens_step.
  destruct (a_to_b _ !! _) as [addr|]; [|by ens_step]. do 2 ens_step. ens_step. apply ensures_tell.
  destruct (last_data _); [|by ens_step]. unfold purge_stream_key. ens_step. by apply purge_keeps.
Qed.

Lemma dns_failure_keeps t now msg p :
  streams_ok t p → t ≤ now → ensures (handle_dns_resolve_failure now msg) p (λ _ p' _, streams_ok now p').
Proof.
  intros Hp Ht. unfold handle_dns_resolve_failure. ens_step.
  eapply ensures_mono; [by eapply return_route_keeps|]. intros [info|] p1 ? Hp1; [|by ens_step].
  do 4 ens_step. apply ensures_still; [intros q; still_tac|]. intros exit. do 2 ens_step.
  destruct (a_to_b _ !! _) as [addr|]; [|by ens_step].
  apply ensures_still; [intros q; still_tac|]. intros []. apply ensures_still; [apply still_report|]. intros [].
  ens_step. eapply ensures_mono; [by apply remove_retry_keeps|]. intros o p2 ? Hp2.
  destruct o as [retry|]; [|by ens_step]. destruct (retries_left retry) as [|fewer].
  - ens_step. unfold purge_stream_key. ens_step. unfold send_dns_failure_response_to_the_browser.
    apply ensures_tell. by apply purge_keeps.
  - apply ensures_still.
    { intros q. unfold retry_dns_resolution. ens_step. eapply ensures_mono; [apply still_args|]. intros args ? ? ->.
      eapply ensures_mono; [apply still_request|]. done. }
    intros []. ens_step. by apply (same_streams_ok now p2).
Qed.

Lemma shutdown_keeps t now msg p :
  streams_ok t p → ensures (ps_handle_stream_shutdown_msg sha1 salt now msg) p (λ _ p' _, streams_ok t p').
Proof.
  intros Hp. unfold ps_handle_stream_shutdown_msg. destruct (ss_stream_type msg) as [|nca]; [by ens_step|].
  do 2 ens_step. destruct (b_to_a _ !! _) as [k|] eqn:Hk; [|by ens_step]. ens_step.
  apply (ensures_mono _ _ (λ _ p' _, streams_ok t p')).
  { unfold schedule_stream_key_purge. do 2 ens_step. apply ensures_tell. apply known_keeps_ttl; [|done].
    eexists. by apply (so_keys _ _ Hp). }
  intros [] p1 ? Hp1. destruct (ss_report_to_counterpart msg); [|by ens_step]. ens_step.
  apply (so_keys _ _ Hp), (so_made _ _ Hp) in Hk as [_ Hok].
  eapply ensures_mono; [by apply normal_data_keeps|]. intros ? ? ? ?. by ens_step.
Qed.

Lemma streams_ok_later t now p : streams_ok t p → t ≤ now → streams_ok now p.
Proof.
  intros [Hm Hk Hmade Hh Hc [Hp1 Hp2 Hp3]] Ht. split; try done. split; [done|lia|].
  intros k v s E. apply Hp3 in E. lia.
Qed.

(** The addresses of clients are of their width. *)
Definition event_ok (e : ProxyEvent) : Prop :=
  match e with EvClientData msg => socket_addr_ok (client_addr msg) | _ => True end.

Lemma event_keeps t now e p :
  event_ok e → streams_ok t p → t ≤ now → ensures (handle_event sha1 salt now e) p (λ _ p' _, streams_ok now p').
Proof.
  intros Hok Hp Ht. pose proof (streams_ok_later _ _ _ Hp Ht) as Hp'. destruct e; cbn [handle_event].
  - by apply client_data_keeps.
  - by apply (response_keeps t).
  - by apply (dns_failure_keeps t).
  - unfold handle_add_return_route. ens_step. destruct Hp as [Hm Hk Hmade Hh Hc Hr]. split; try done.
    by apply (ttl_insert_ok t).
  - unfold handle_add_route_result. do 2 ens_step. destruct (dns_failure_retries p !! _); [|by ens_step].
    destruct r; ens_step; [|done]. by apply (same_streams_ok now p).
  - by apply shutdown_keeps.
  - unfold handle_stream_key_purge, purge_stream_key. ens_step. by apply purge_keeps.
Qed.

(** The events that the actor handles, with their times. *)
Inductive reaches : Z → ProxyServer → Z → ProxyServer → Prop :=
| reaches_here t p : reaches t p t p
| reaches_next t p now e p1 sent t' p' :
    t ≤ now → event_ok e → handle_event sha1 salt now e p = Ret (tt, p1, sent) →
    reaches now p1 t' p' → reaches t p t' p'.

Lemma reachable_streams_ok t p t' p' : reaches t p t' p' → streams_ok t p → streams_ok t' p'.
Proof.
  induction 1 as [|t p now e p1 sent t' p' Ht Hok He _ IH]; [done|]. intros Hp. apply IH.
  by apply (event_keeps t now e p Hok Hp Ht _ _ _ He).
Qed.

(** A package from an exit node makes the ProxyServer speak to the client of its
    stream key only. *)
Lemma response_to_own_client t now msg p :
  streams_ok t p → t ≤ now →
  ensures (handle_client_response_payload now msg) p (λ _ _ sent, ∀ m, ToClient m ∈ sent →
    ∃ addr, endpoint m = Socket addr ∧ key_of addr = crp_stream_key (ex_payload _ msg) ∧
      tx_data m = data (crp_sequenced_packet (ex_payload _ msg))).
Proof.
  intros Hp Ht. unfold handle_client_response_payload. ens_step.
  assert (∀ q, ensures (get_return_route_info now (remaining_route _ msg)) q (λ _ _ sent, sent = [])) as Hquiet.
  { intros q. unfold get_return_route_info. do 3 ens_step. ens_step. do 2 ens_step. do 2 ens_step.
    destruct a1; [|by ens_step]. do 2 ens_step. destruct (ttl_get _ _ _). by do 3 ens_step. }
  intros o p1 sent Hrun. rewrite (Hquiet _ _ _ _ Hrun).
  pose proof (return_route_keeps t now _ p Hp Ht _ _ _ Hrun) as Hp1. cbn [app].
  destruct o as [info|]; [|ens_step; set_solver]. ens_step.
  apply (ensures_mono _ _ (λ _ p' sent, p' = p1 ∧ ∀ m, ToClient m ∉ sent)).
  { unfold report_response_services_consumed. ens_step. ens_step. destruct a as [x|].
    - apply ensures_tell. split; [done|]. set_solver.
    - ens_step. split; [done|]. set_solver. }
  intros [] ? sent1 [-> Hs1]. ens_step.
  apply (ensures_mono _ _ (λ _ p' sent, keys_and_addrs p' = keys_and_addrs p1 ∧ sent = [])).
  { unfold remove_dns_failure_retry. by do 5 ens_step. }
  intros o p2 ? [Hk2 ->]. do 2 ens_step. cbn [app]. destruct (stream_key_ttl p2 !! _); [ens_step; set_solver|].
  do 2 ens_step. rewrite Hk2. destruct (a_to_b _ !! _) as [addr|] eqn:Ha; [|ens_step; set_solver].
  do 2 ens_step. ens_step. apply ensures_tell.
  apply (ensures_mono _ _ (λ _ _ sent, sent = [])).
  { destruct (last_data _); [unfold purge_stream_key|]; by ens_step. }
  intros [] p3 ? -> m Hm. assert (m = mkTransmit (Socket addr) (last_data (crp_sequenced_packet (ex_payload _ msg)))
    (Some (u64 (sequence_number (crp_sequenced_packet (ex_payload _ msg)) + Z.b2z (browser_proxy_sequence_offset p2))))
    (data (crp_sequenced_packet (ex_payload _ msg)))) as ->.
  { specialize (Hs1 m). set_solver. }
  exists addr. split; [done|]. split; [|done]. symmetry. by apply (so_made _ _ Hp1) in Ha as [-> _].
Qed.

Lemma bind_streams_ok t p : streams_ok t p → streams_ok t (handle_bind p).
Proof. by apply same_streams_ok. Qed.

(** C16: Responses reach only the client they are for.  Whatever the actor has handled
    since its start, when a package with a response arrives, the ProxyServer sends data
    to no client but the one whose address has the stream key of the response, and the
    data is that of the response. *)
Theorem responses_reach_own_client t0 alias d b i t p now msg p' sent :
  reaches t0 (handle_bind (ProxyServer_new t0 main alias d b i)) t p → t ≤ now →
  handle_client_response_payload now msg p = Ret (tt, p', sent) →
  ∀ m, ToClient m ∈ sent → ∃ addr, endpoint m = Socket addr ∧
    key_of addr = crp_stream_key (ex_payload _ msg) ∧ tx_data m = data (crp_sequenced_packet (ex_payload _ msg)).
Proof.
  intros Hr Ht Hh. apply (response_to_own_client t now msg p) with (a := tt) (s' := p') (sent := sent); try done.
  apply (reachable_streams_ok _ _ _ _ Hr), bind_streams_ok, new_streams_ok.
Qed.
End Streams.

(** ** Sequences of events that end badly *)
Section Trouble.
Context `{Signatures} `{KeyOrder} `{Codec Value} `{Codec LiveHop} `{Codec MessageType} `{Codec Z}
        `{Payload ClientRequestPayload_0v1} `{WebText}.
Context (sha1 : list Z → list Z) (salt : list Z).
Implicit Types (p : ProxyServer) (k : StreamKey).

(** A route that comes late stops the node.  When a response arrives on a stream,
    the entry for name resolution failures of that stream is removed; if the answer to
    another route query for the stream is handled after that, whether it is a route or an
    error, the ProxyServer panics. *)
Theorem late_route_result_panics now (msg : ExpiredCoresPackage ClientResponsePayload_0v1) p info p' sent r :
  return_route_known now p (remaining_route _ msg) info →
  handle_client_response_payload now msg p = Ret (tt, p', sent) →
  ∃ why, handle_add_route_result (crp_stream_key (ex_payload _ msg)) r p' = Panic why.
Proof.
  intros Hk Hrun. set (k := crp_stream_key (ex_payload _ msg)).
  cut (ensures (handle_client_response_payload now msg) p (λ _ p' _, dns_failure_retries p' !! k = None)).
  { intros Hn. specialize (Hn _ _ _ Hrun). simpl in Hn. eexists. unfold handle_add_route_result, gets, mbind, prog_bind. simpl. by rewrite Hn. }
  unfold handle_client_response_payload. ens_step.
  apply (ensures_mono _ _ (λ o _ _, o = Some info)).
  { destruct Hk as (hop & rest & id & s & Hs & Hid & Hd & Ht & Hpos).
    pose proof (ttl_get_found now id info s _ Hd Hpos Ht) as Hg. intros o q sent0.
    unfold get_return_route_info, gets, lift, modify, mbind, prog_bind. rewrite Hs. simpl. rewrite Hid. simpl.
    destruct (ttl_get now id _) as [o' known]. simpl in Hg. subst o'. by intros [= <- _ _]. }
  intros ? q ? ->. fold k. ens_step.
  eapply ensures_mono; [apply still_report|]. intros [] ? ? ->. ens_step.
  apply (ensures_mono _ _ (λ _ p' _, dns_failure_retries p' !! k = None)).
  { unfold remove_dns_failure_retry. do 5 ens_step. simpl. by rewrite lookup_delete_eq. }
  intros o p2 ? Hp2. do 2 ens_step. destruct (stream_key_ttl p2 !! k); [by ens_step|]. do 2 ens_step.
  destruct (a_to_b _ !! k); [|by ens_step]. do 2 ens_step. ens_step. apply ensures_tell.
  destruct (last_data _); [unfold purge_stream_key|]; by ens_step.
Qed.

(** *** After a CONNECT *)
(** What the writer of the stream to [addr] gets. *)
Definition packets_to (addr : SocketAddr) (sent : list ProxyMessage) : list SequencedPacket :=
  omap (λ m, match m with
             | ToClient m => if decide (endpoint m = Socket addr) then Some (packet_of_transmit m) else None
             | _ => None
             end) sent.

Lemma packets_to_app addr l l' : packets_to addr (l ++ l') = packets_to addr l ++ packets_to addr l'.
Proof. apply omap_app. Qed.

(** A buffer that gets no packet with the number 0 gives nothing. *)
Lemma buffer_waits_for_first ps :
  Forall (λ q, 0 < sequence_number q) ps → (sb_poll (foldl sb_push SequenceBuffer_new ps)).1 = None.
Proof.
  intros Hps.
  assert (∀ b, next_expected_sequence_number b = 0 → Forall (λ q, 0 < sequence_number q) (buffer b) →
    let b' := foldl sb_push b ps in
    next_expected_sequence_number b' = 0 ∧ Forall (λ q, 0 < sequence_number q) (buffer b')) as Hfold.
  { induction Hps as [|q ps Hq _ IH]; intros b Hb HF; [done|]. simpl. apply IH; unfold sb_push;
      destruct (_ && _); simpl; try done. by rewrite heap_push_Permutation; constructor. }
  destruct (Hfold SequenceBuffer_new eq_refl (Forall_nil_2 _)) as [Hn HF]. unfold sb_poll.
  destruct (buffer _) as [|q rest]; [done|]. rewrite decide_False; [done|]. rewrite Hn. inversion HF; lia.
Qed.

(** A packet of a response, whose number can still grow. *)
Definition response_number_ok (msg : ExpiredCoresPackage ClientResponsePayload_0v1) : Prop :=
  0 ≤ sequence_number (crp_sequenced_packet (ex_payload _ msg)) < 2 ^ 64 - 1.

Lemma response_is_shifted now msg p :
  browser_proxy_sequence_offset p = true → response_number_ok msg →
  ensures (handle_client_response_payload now msg) p (λ _ p' sent,
    browser_proxy_sequence_offset p' = true ∧ ∀ addr, Forall (λ q, 0 < sequence_number q) (packets_to addr sent)).
Proof.
  intros Ho Hs. unfold handle_client_response_payload. ens_step.
  apply (ensures_mono _ _ (λ _ p' sent, browser_proxy_sequence_offset p' = true ∧ sent = [])).
  { unfold get_return_route_info. do 3 ens_step. ens_step. do 2 ens_step. do 2 ens_step.
    destruct a1; [|by ens_step]. do 2 ens_step. destruct (ttl_get _ _ _). by do 3 ens_step. }
  intros [info|] p1 ? [Ho1 ->]; [|ens_step; by split; [|intros; constructor]]. ens_step.
  apply (ensures_mono _ _ (λ _ p' sent, p' = p1 ∧ ∀ addr, packets_to addr sent = [])).
  { unfold report_response_services_consumed. ens_step. ens_step. by destruct a; [apply ensures_tell|ens_step]. }
  intros [] ? sent1 [-> Hs1]. ens_step.
  apply (ensures_mono _ _ (λ _ p' sent, browser_proxy_sequence_offset p' = true ∧ sent = [])).
  { unfold remove_dns_failure_retry. by do 5 ens_step. }
  intros o p2 ? [Ho2 ->].
  assert (∀ sent2, (∀ addr, Forall (λ q, 0 < sequence_number q) (packets_to addr sent2)) →
    ∀ addr, Forall (λ q, 0 < sequence_number q) (packets_to addr (sent1 ++ sent2))) as Hadd
    by (intros sent2 H2' addr; rewrite packets_to_app, Hs1; apply H2').
  do 2 ens_step. cbn [app]. destruct (stream_key_ttl p2 !! _); [ens_step; split; [done|]; apply Hadd; intros ?; exact (Forall_nil_2 _)|].
  do 2 ens_step. destruct (a_to_b _ !! _) as [addr|]; [|ens_step; split; [done|]; apply Hadd; intros ?; exact (Forall_nil_2 _)].
  do 2 ens_step. rewrite Ho2. ens_step. apply ensures_tell.
  apply (ensures_mono _ _ (λ _ p' sent, browser_proxy_sequence_offset p' = true ∧ sent = [])).
  { destruct (last_data _); [unfold purge_stream_key|]; by ens_step. }
  intros [] p3 ? [Ho3 ->]. split; [done|]. apply Hadd. intros addr'. unfold packets_to. cbn.
  case_decide; [|constructor]. constructor; [|constructor]. simpl.
  unfold response_number_ok in Hs. unfold u64, wrap. rewrite Z.mod_small; lia.
Qed.

Lemma connect_speaks_to_client msg p :
  is_connect (ibcd_data msg) = true →
  ensures (handle_inbound_client_data sha1 salt msg) p (λ _ p' sent,
    browser_proxy_sequence_offset p' = true ∧ ∀ addr, addr ≠ client_addr msg → packets_to addr sent = []).
Proof.
  intros Hc. unfold handle_inbound_client_data. rewrite Hc. ens_step.
  apply (ensures_mono _ _ (λ _ _ sent, ∀ addr, addr ≠ client_addr msg → packets_to addr sent = [])).
  2:{ intros [] p' sent Hs. ens_step. split; [done|]. intros addr Hne. rewrite app_nil_r. by apply Hs. }
  assert (∀ last n d addr, addr ≠ client_addr msg →
    packets_to addr [ToClient (mkTransmit (Socket (client_addr msg)) last n d)] = []) as Hone.
  { intros last n d addr Hne. unfold packets_to. cbn. by rewrite decide_False by congruence. }
  unfold tls_connect. destruct (http_find_host _) as [host|]; [|apply ensures_tell; apply Hone].
  destruct (host_port host =? TLS_PORT); [|apply ensures_tell; apply Hone].
  ens_step. apply (ensures_mono _ _ (λ _ _ sent, sent = [])).
  { unfold find_or_generate_stream_key. do 2 ens_step. destruct (b_to_a _ !! _); [by ens_step|].
    by do 5 ens_step. }
  intros k p1 ? ->. do 2 ens_step. apply ensures_tell. apply Hone.
Qed.

(** C40: A CONNECT on one stream stalls another.  The ProxyServer handles a CONNECT from
    one client and next, with no other events in between, any number of responses of exit
    nodes, for whatever streams and with any packet numbers below 2^64 - 1.  Let another
    client have a stream whose sequence buffer is new and gets exactly what the ProxyServer
    sends to that client from the CONNECT on.  Then the buffer never gives out a packet:
    the offset meant for the tunnel is added to the numbers of all streams, so that no
    packet of a response has the number 0, for which the buffer waits. *)
Theorem connect_stalls_other_streams msg p p1 sent0 responses p2 sent addr :
  is_connect (ibcd_data msg) = true → addr ≠ client_addr msg →
  handle_inbound_client_data sha1 salt msg p = Ret (tt, p1, sent0) →
  Forall (λ r, response_number_ok r.2) responses →
  each (λ r, handle_client_response_payload r.1 r.2) responses p1 = Ret (tt, p2, sent) →
  (sb_poll (foldl sb_push SequenceBuffer_new (packets_to addr (sent0 ++ sent)))).1 = None.
Proof.
  intros Hc Hne Hrun Hok Heach. apply buffer_waits_for_first. rewrite packets_to_app.
  destruct (connect_speaks_to_client msg p Hc _ _ _ Hrun) as [Ho Hs0]. rewrite Hs0 by done. cbn [app].
  clear Hrun. revert p1 sent Ho Heach. induction Hok as [|[now r] responses Hr _ IH]; intros q sent Ho; cbn [each].
  { intros [= _ <-]. constructor. }
  unfold mbind, prog_bind. cbn [fst snd]. destruct (handle_client_response_payload now r q) as [[[[] q1] s1]|] eqn:E; [|done].
  destruct (response_is_shifted now r q Ho Hr _ _ _ E) as [Ho1 Hs1].
  destruct (each _ responses q1) as [[[[] q2] s2]|] eqn:E2; [|done]. intros [= <- <-].
  rewrite packets_to_app. apply Forall_app. split; [done|]. by eapply IH.
Qed.
End Trouble.

(** ** A concrete proxy *)
Module ProxySamples.
#[local] Existing Instances elements_order Samples.shown_signatures Samples.shown_signatures_ok
  listed_keys value_codec Samples.hop_codec Samples.hop_codec_ok Samples.lcp_codec Samples.lcp_codec_ok
  Samples.message_codec Samples.message_codec_ok Samples.id_codec Samples.id_codec_ok
  Samples.request_payload Samples.response_payload Samples.dns_payload Samples.gossip_payload
  Samples.gossip_failure_payload Samples.request_payload_ok Samples.response_payload_ok
  Samples.gossip_payload_ok.

#[local] Instance plain_web_text : WebText := {|
  host_pattern l := Some l;
  connect_method b := bool_decide (b = bytes "CONNECT");
  hostname_pattern _ := None
|}.

Definition main : NodeCryptDE := rs_main (Samples.node 1).
Definition alias : NodeCryptDE := rs_alias (Samples.node 1).
Definition hash (l : list Z) : list Z := l.
Definition salt : list Z := [9].

Definition proxy0 : ProxyServer := handle_bind (ProxyServer_new 0 main alias true (Some 5) false).
Definition client : SocketAddr := mkSocketAddr (V4 2130706433) 5000.
Definition other_client : SocketAddr := mkSocketAddr (V4 2130706433) 5001.
Definition client_key : StreamKey := StreamKey_new hash salt (cd_public_key main) client.

Definition get_request : list Z :=
  bytes "GET / HTTP/1.1" ++ CRLF ++ bytes "Host: host.test" ++ DOUBLE_CRLF.
Definition client_data : InboundClientData := mkIbcd 1 client (Some 80) false false (Some 0) get_request.
Definition request : ClientRequestPayload_0v1 :=
  mkRequest client_key (mkPacket get_request 0 false) (Some "host.test") 80 HTTP (cd_public_key alias).

Lemma keys_distinct a a' :
  socket_addr_ok a → socket_addr_ok a' →
  StreamKey_new hash salt (cd_public_key main) a = StreamKey_new hash salt (cd_public_key main) a' → a = a'.
Proof.
  destruct a as [ip port], a' as [ip' port']. intros [Hip Hport] [Hip' Hport'] E%(f_equal stream_hash).
  cbn [sa_ip sa_port stream_hash StreamKey_new] in *. unfold hash in E. apply app_inv_head in E.
  assert (∀ w (l l' : list Z) x y x' y', length l = w → length l' = w →
    l ++ [x; y] ++ salt = l' ++ [x'; y'] ++ salt → l = l' ∧ x = x' ∧ y = y') as Hsplit.
  { intros w l l' x y x' y' Hl Hl' E'. apply app_inj_1 in E' as [-> [= -> ->]]; [done|congruence]. }
  assert (Z.land port 255 = Z.land port' 255 → Z.shiftr port 8 = Z.shiftr port' 8 → port = port') as Hp.
  { change 255 with (Z.ones 8). rewrite !Z.land_ones, !Z.shiftr_div_pow2 by lia. change (2 ^ 8) with 256.
    intros Em Ed. rewrite (Z.div_mod port 256), (Z.div_mod port' 256) by lia. congruence. }
  unfold ip_octets in E. destruct ip as [z|z], ip' as [z'|z'].
  - apply (Hsplit 4%nat) in E as (Ez & Ex & Ey); [|by rewrite length_parts..].
    apply (f_equal (from_parts 8)) in Ez. rewrite !from_parts_parts, !Z.mod_small in Ez by done. subst. f_equal. by apply Hp.
  - apply (f_equal length) in E. rewrite !length_app, !length_parts in E. done.
  - apply (f_equal length) in E. rewrite !length_app, !length_parts in E. done.
  - apply (Hsplit 16%nat) in E as (Ez & Ex & Ey); [|by rewrite length_parts..].
    apply (f_equal (from_parts 8)) in Ez. rewrite !from_parts_parts, !Z.mod_small in Ez by done. subst. f_equal. by apply Hp.
Qed.

Lemma proxy0_serving : serving proxy0.
Proof. by split. Qed.

Lemma request_is_made : request_of hash salt proxy0 client_data request.
Proof. split; [|vm_compute]; reflexivity. Qed.

Definition query : RouteQueryMessage :=
  data_indefinite_route_request (Some "host.test") (length get_request).

Lemma proxy_query_is_answered :
  match handle_route_query_message query ActorSamples.actor with Ret (Some _, _, []) => true | _ => false end = true.
Proof. vm_compute. reflexivity. Qed.

Lemma proxy_asks : match handle_inbound_client_data hash salt client_data proxy0 with
                   | Ret (_, _, [AskRoute _ q]) => q = query | _ => False end.
Proof. vm_compute. reflexivity. Qed.

(** The request goes around, and the first packet of the response is handed to the client. *)
Lemma browser_request_round_trip_witness :
  ∃ resp next over e next' back ss ss' r pkg arrived p2 p3,
    planned ActorSamples.actor resp next over e next' back ss ss' ∧
    carried [] 0 Samples.here [42] (ActorSamples.net (sample_key 1)) (ActorSamples.net next)
      (ActorSamples.net <$> over) (ActorSamples.net e) (ActorSamples.net next') (ActorSamples.net <$> back)
      pkg request (mkResponse client_key (mkPacket [1; 2; 3] 0 false)) arrived ∧
    handle_client_response_payload 100 arrived p2 =
      Ret (tt, p3, [ReportConsumed (mkConsumed 100 (exit_use r 3) (payload_len _ arrived)
                      (report_on_routing_services ss'));
                    ToClient (mkTransmit (Socket client) false (Some 0) [1; 2; 3])]).
Proof.
  destruct (browser_request_round_trip (member := null_member) [] 0 Samples.here [42] Samples.contract
    ActorSamples.net hash salt proxy0 ActorSamples.actor client_data request 50
    ActorSamples.actor_in_network ActorSamples.actor_can_pay eq_refl proxy0_serving
    ltac:(split; reflexivity) bidi_new_ok ltac:(vm_compute; reflexivity) request_is_made
    ltac:(vm_compute; reflexivity) ltac:(vm_compute; reflexivity)) as (p1 & args & q & Hask & Hrest).
  assert (q = query) as -> by (pose proof proxy_asks as Hq; rewrite Hask in Hq; exact Hq).
  pose proof proxy_query_is_answered as Ha.
  destruct (handle_route_query_message query ActorSamples.actor) as [[[[resp|] n'] [|]]|] eqn:Hq; try discriminate Ha.
  destruct (Hrest resp n' eq_refl)
    as (next & over & e & next' & back & ss & ss' & r & pkg & p2 & Hplan & _ & _ & _ & Hresp).
  destruct (Hresp (mkPacket [1; 2; 3] 0 false) 100 ltac:(unfold RETURN_ROUTE_TTL; lia))
    as (arrived & p3 & Hcar & Hh).
  exists resp, next, over, e, next', back, ss, ss', r, pkg, arrived, p2, p3.
  split; [exact Hplan|]. split; [exact Hcar|exact Hh].
Defined.

(** *** Responses that arrive *)
Definition sealed {T} `{Codec T} (x : T) : CryptData :=
  match encodex main (cd_public_key main) x with Ok d => d | Err _ => [] end.

(** What remains of a route at its end: the last hop and the return route id. *)
Definition last_hops (id : Z) : Route :=
  mkRoute [sealed (mkLiveHop EMPTY_KEY None ProxyServerC); sealed id].

Definition return_route : AddReturnRouteMessage :=
  mkReturnRoute 77 [ServiceExit (sample_key 4) (WalletAddress [4]) sample_rates; ServiceNothing] HTTP (Some "host.test").

Definition response_with (number : Z) : ExpiredCoresPackage ClientResponsePayload_0v1 :=
  mkExpired _ client None (last_hops 77) (mkResponse client_key (mkPacket [1; 2; 3] number false)) 30.

Definition dns_failure : ExpiredCoresPackage DnsResolveFailure_0v1 :=
  mkExpired _ client None (last_hops 77) (mkDnsFailure client_key) 30.

(** The state after an event, if the event does not stop the node. *)
Definition after (now : Z) (e : ProxyEvent) (p : ProxyServer) : ProxyServer :=
  match handle_event hash salt now e p with Ret (_, p', _) => p' | Panic _ => p end.

Definition proxy1 : ProxyServer := after 1 (EvClientData client_data) proxy0.
Definition proxy2 : ProxyServer := after 2 (EvReturnRoute return_route) proxy1.

Lemma proxy2_reached : reaches hash salt 0 proxy0 2 proxy2.
Proof.
  eapply (reaches_next _ _ _ _ 1 (EvClientData client_data) proxy1); [lia|vm_compute; done|reflexivity|].
  eapply (reaches_next _ _ _ _ 2 (EvReturnRoute return_route) proxy2); [lia|done|reflexivity|]. constructor.
Qed.

Lemma route_known t : 2 ≤ t ≤ 122 → return_route_known t proxy2 (last_hops 77) return_route.
Proof.
  intros Ht. eexists _, _, 77, 2. split; [vm_compute; reflexivity|]. split; [vm_compute; reflexivity|].
  split; [vm_compute; reflexivity|]. change (ttl (route_ids_to_return_routes proxy2)) with 120. lia.
Qed.

Lemma responses_reach_own_client_witness :
  ∃ p' used, handle_client_response_payload 3 (response_with 0) proxy2 =
      Ret (tt, p', [ReportConsumed used; ToClient (mkTransmit (Socket client) false (Some 0) [1; 2; 3])]) ∧
    ∃ addr, Socket client = Socket addr ∧ StreamKey_new hash salt (cd_public_key main) addr = client_key.
Proof.
  assert (∃ p' used, handle_client_response_payload 3 (response_with 0) proxy2 =
    Ret (tt, p', [ReportConsumed used; ToClient (mkTransmit (Socket client) false (Some 0) [1; 2; 3])]))
    as (p' & used & Hrun) by (do 2 eexists; reflexivity).
  exists p', used. split; [exact Hrun|].
  destruct (responses_reach_own_client hash salt main keys_distinct 0 alias true (Some 5) false 2 proxy2 3
    (response_with 0) p' _ proxy2_reached ltac:(lia) Hrun (mkTransmit (Socket client) false (Some 0) [1; 2; 3])
    ltac:(set_solver)) as (addr & Haddr & Hkey & _). by exists addr.
Defined.

Lemma late_route_result_panics_witness :
  ∃ p' sent why, handle_client_response_payload 3 (response_with 0) proxy2 = Ret (tt, p', sent) ∧
    handle_add_route_result client_key (Err NeighborhoodRefused) p' = Panic why.
Proof.
  assert (∃ p' sent, handle_client_response_payload 3 (response_with 0) proxy2 = Ret (tt, p', sent))
    as (p' & sent & Hrun) by (do 2 eexists; reflexivity).
  destruct (late_route_result_panics 3 (response_with 0) proxy2 return_route p' sent (Err NeighborhoodRefused)
    (route_known 3 ltac:(lia)) Hrun) as (why & Hpanic). by exists p', sent, why.
Defined.

(** Another client opens a tunnel; then the response arrives in two packets. *)
Definition connect : InboundClientData :=
  mkIbcd 3 other_client (Some 80) false false (Some 0)
    (bytes "CONNECT tunnel.test:443 HTTP/1.1" ++ CRLF ++ bytes "Host: tunnel.test:443" ++ DOUBLE_CRLF).

Lemma connect_stalls_other_streams_witness :
  ∃ p3 sent0 p4 sent,
    handle_inbound_client_data hash salt connect proxy2 = Ret (tt, p3, sent0) ∧
    each (λ r, handle_client_response_payload r.1 r.2) [(4, response_with 0); (5, response_with 1)] p3 =
      Ret (tt, p4, sent) ∧
    length (packets_to client (sent0 ++ sent)) = 2%nat ∧
    (sb_poll (foldl sb_push SequenceBuffer_new (packets_to client (sent0 ++ sent)))).1 = None.
Proof.
  set (p3 := after 3 (EvClientData connect) proxy2).
  assert (∃ sent0, handle_inbound_client_data hash salt connect proxy2 = Ret (tt, p3, sent0) ∧
    packets_to client sent0 = []) as (sent0 & Hc & H0) by (eexists; split; reflexivity).
  assert (∃ p4 sent, each (λ r, handle_client_response_payload r.1 r.2) [(4, response_with 0); (5, response_with 1)] p3 =
    Ret (tt, p4, sent) ∧ length (packets_to client sent) = 2%nat)
    as (p4 & sent & Hr & Hl) by (do 2 eexists; split; reflexivity).
  exists p3, sent0, p4, sent. split; [exact Hc|]. split; [exact Hr|].
  split; [by rewrite packets_to_app, H0|].
  apply (connect_stalls_other_streams hash salt connect proxy2 p3 sent0
    [(4, response_with 0); (5, response_with 1)] p4 sent client); [reflexivity|done|exact Hc| |exact Hr].
  repeat constructor; done.
Defined.

(** Three more answers of the Neighborhood, and a failure over each of them. *)
Definition ask (n : Neighborhood) : option RouteQueryResponse * Neighborhood :=
  match handle_route_query_message query n with Ret (answer, n', _) => (answer, n') | Panic _ => (None, n) end.

Definition no_answer : RouteQueryResponse := mkRouteResponse (mkRoute []) (OneWay []).

Definition attempt_of (n : Neighborhood) (t : Z) : Attempt :=
  mkAttempt (default no_answer (ask n).1) t
    (t + 50, mkExpired _ client None (last_hops (nb_next_return_route_id n)) (mkDnsFailure client_key) 30).

(** The actor of the sample network, whatever the next return route id is. *)
Record sample_actor (n : Neighborhood) : Prop := {
  sa_network : in_network (member := null_member) Samples.contract ActorSamples.net n;
  sa_pays : can_pay [] [42] Samples.contract n;
  sa_hops : nb_zero_hop (nb_config n) = false;
  sa_node : same_node ActorSamples.net n proxy2;
  sa_answers : match handle_route_query_message query n with Ret (Some _, _, _) => true | _ => false end = true;
  sa_id : route_id (mkRoute [sealed (nb_next_return_route_id n)]) main = Ret (Ok (nb_next_return_route_id n))
}.

Lemma sample_answer n :
  sample_actor n → (ask n).2 = advanced n ∧
    ∀ t, ∃ pkg, attempt_fails main request (attempt_of n t) pkg.
Proof.
  intros [Hn Hp Hz Hs Ha Hid]. unfold attempt_of, ask.
  pose proof (route_query_answers [] 0 Samples.here [42] Samples.contract ActorSamples.net n query Hn Hp Hz
    eq_refl eq_refl) as Hr. unfold runs in Hr.
  destruct (handle_route_query_message query n) as [[[[resp|] n'] sent]|]; [|discriminate Ha..].
  destruct Hr as (_ & -> & Hans). split; [done|]. intros t.
  destruct (answers_are_usable (member := null_member) [] 0 Samples.here [42] Samples.contract ActorSamples.net hash salt n proxy2 resp request Hn Hs Hans)
    as (pkg & Hu); [reflexivity|].
  exists pkg. split; [done|unfold RETURN_ROUTE_TTL; cbn; lia|].
  eexists (nb_next_return_route_id n), _, _. split; [exact Hu|]. split; [reflexivity|exact Hid].
Qed.

Lemma sample_actor_advanced n :
  sample_actor n →
  match handle_route_query_message query (advanced n) with Ret (Some _, _, _) => true | _ => false end = true →
  route_id (mkRoute [sealed (nb_next_return_route_id (advanced n))]) main = Ret (Ok (nb_next_return_route_id (advanced n))) →
  sample_actor (advanced n).
Proof.
  intros [Hn [] Hz [] _ _] Ha Hid. split; [|by split|done|by split|done|done].
  by apply (in_network_part Samples.contract ActorSamples.net n); [|done|done|apply (net_db _ _ _ Hn)|intros k r Hk; exists r].
Qed.

Lemma actor_sample : sample_actor ActorSamples.actor.
Proof.
  split; [apply ActorSamples.actor_in_network|apply ActorSamples.actor_can_pay|done|by split|
    vm_compute; reflexivity|vm_compute; reflexivity].
Qed.
Lemma actor2_sample : sample_actor (advanced ActorSamples.actor).
Proof. apply sample_actor_advanced; [apply actor_sample|vm_compute; reflexivity..]. Qed.
Lemma actor3_sample : sample_actor (advanced (advanced ActorSamples.actor)).
Proof. apply sample_actor_advanced; [apply actor2_sample|vm_compute; reflexivity..]. Qed.


(** The name is tried over three more routes; every failure takes 50 seconds. *)
Definition sample_attempts : list Attempt :=
  [attempt_of ActorSamples.actor 10; attempt_of (advanced ActorSamples.actor) 100;
   attempt_of (advanced (advanced ActorSamples.actor)) 200].

Lemma dns_failures_are_retried_and_told_witness :
  ∃ p' sent,
    failing (3, dns_failure) sample_attempts proxy2 = Ret (tt, p', sent) ∧
    asked sent = [request; request; request] ∧ length (dispatched sent) = 3%nat ∧ length (told sent) = 1%nat.
Proof.
  destruct (proj2 (sample_answer _ actor_sample) 10) as [pkg1 H1].
  destruct (proj2 (sample_answer _ actor2_sample) 100) as [pkg2 H2].
  destruct (proj2 (sample_answer _ actor3_sample) 200) as [pkg3 H3].
  destruct (runs_inv _ _ _ (dns_failures_are_retried_and_told proxy2 client request (3, dns_failure) return_route
    sample_attempts [pkg1; pkg2; pkg3] ltac:(split; vm_compute; reflexivity)
    ltac:(split; [reflexivity|exact (route_known 3 ltac:(lia))|reflexivity|reflexivity|by eexists|by eexists])
    ltac:(constructor; [exact H1|constructor; [exact H2|constructor; [exact H3|constructor]]])))
    as ([] & p' & sent & Hrun & Ha & Hd & Ht & _).
  exists p', sent. split; [exact Hrun|]. split; [exact Ha|]. split; [by rewrite Hd|by rewrite Ht].
Defined.
End ProxySamples.
