(* ===== verification/Sql.v ===== *)
(** * The database as the node sees it

    The node keeps its accounts in an SQLite database and changes them with SQL
    statements that are written in the source.  A statement is modelled as what it
    does to the tables: a table is the list of its rows in the order of insertion, a
    [where] clause a decidable predicate on rows, a [set] clause a function on rows.

    The engine itself is third-party code.  What the node relies on is: a statement
    is carried out as a whole or not at all, it reports the number of rows it changed,
    a sum of integers that does not fit in 64 bits is a REAL, and a STRICT table does
    not take such a REAL in an INTEGER column and reports the error 3091
    ([SqlDatatypeConstraint]).  Besides, a statement may fail for reasons of the engine
    (a full disk, a lock): [faults] lists whether the coming statements do, and beyond
    its end none does.  Statements are prepared without error. *)

From S2P Require Import Prelude.
From S2P Require Import Actor.

Inductive SqlError := SqlDatatypeConstraint | SqlUniqueConstraint | SqlNoRows | SqlFailure.

#[export] Instance SqlError_eq_dec : EqDecision SqlError.
Proof. solve_decision. Defined.

(** ** Integers of the database *)
Definition in_i64 (z : Z) : bool := (- 2 ^ 63 <=? z) && (z <? 2 ^ 63).

(** The values that the node's own SQL functions meet. *)
Inductive SqlValue := SqlNull | SqlInteger (z : Z) | SqlReal | SqlText (s : string).

Definition sql_sum (z : Z) : SqlValue := if in_i64 z then SqlInteger z else SqlReal.

(** What an INTEGER column of a STRICT table takes. *)
Definition strict_integer (v : SqlValue) : option Z :=
  match v with SqlInteger z => Some z | _ => None end.

(** ** Statements on the rows of a table *)
Section Rows.
Context {R : Type}.

(** [update ... set ... where ...] *)
Fixpoint sql_update (p : R → bool) (f : R → option R) (rows : list R) : result (nat * list R) SqlError :=
  match rows with
  | [] => Ok (0%nat, [])
  | r :: rows =>
      match sql_update p f rows with
      | Err e => Err e
      | Ok (n, rows') =>
          if p r
          then match f r with Some r' => Ok (S n, r' :: rows') | None => Err SqlDatatypeConstraint end
          else Ok (n, r :: rows')
      end
  end.

(** [insert into ... values ... on conflict do update set ...]: [new] is inserted unless
    a row with its key is there. *)
Definition sql_upsert (conflict : R → bool) (f : R → option R) (new : R) (rows : list R) :
    result (nat * list R) SqlError :=
  if existsb conflict rows then sql_update conflict f rows else Ok (1%nat, rows ++ [new]).

(** [delete from ... where ...] *)
Definition sql_delete (p : R → bool) (rows : list R) : nat * list R :=
  (length (filter (λ r, p r = true) rows), filter (λ r, p r = false) rows).

Definition sql_select (p : R → bool) (rows : list R) : list R := filter (λ r, p r = true) rows.
End Rows.

(** ** Connections *)
Record Conn (T : Type) := mkConn { tables : T; faults : list bool }.
Arguments mkConn {_} _ _.
Arguments tables {_} _.
Arguments faults {_} _.

(** Code that works on a database: it may panic and sends no messages. *)
Abbreviation dao T := (prog (Conn T) Empty_set).

Section Connections.
Context {T : Type}.

Definition statement (A : Type) : Type := T → result (A * T) SqlError.

(** [Statement::execute] *)
Definition sql_execute {A} (st : statement A) : dao T (result A SqlError) := λ c,
  match faults c with
  | true :: fs => Ret (Err SqlFailure, mkConn (tables c) fs, [])
  | _ =>
      match st (tables c) with
      | Ok (a, t) => Ret (Ok a, mkConn t (tail (faults c)), [])
      | Err e => Ret (Err e, mkConn (tables c) (tail (faults c)), [])
      end
  end.

(** [Statement::query_map], with the mapped rows collected *)
Definition sql_query {A} (q : T → A) : dao T (result A SqlError) := sql_execute (λ t, Ok (q t, t)).

(** A query whose failure is a panic. *)
Definition sql_query_or_panic {A} (q : T → A) (why : string) : dao T A :=
  rows ← sql_query q; lift (expect_ok rows why).
End Connections.

(** ** Lemmas *)
Lemma in_i64_true z : in_i64 z = true ↔ - 2 ^ 63 ≤ z < 2 ^ 63.
Proof. unfold in_i64. rewrite andb_true_iff, Z.leb_le, Z.ltb_lt. done. Qed.

Lemma in_i64_false z : in_i64 z = false ↔ z < - 2 ^ 63 ∨ 2 ^ 63 ≤ z.
Proof. unfold in_i64. rewrite andb_false_iff, Z.leb_gt, Z.ltb_ge. done. Qed.

Lemma as_i64_range z : in_i64 z = true → as_i64 z = z.
Proof.
  rewrite in_i64_true. intros H. unfold as_i64. destruct (Z.le_gt_cases 0 z) as [Hz|Hz].
  - rewrite Z.mod_small by lia. by rewrite (proj2 (Z.ltb_lt _ _)) by lia.
  - rewrite <-(Z.mod_unique z (2 ^ 64) (-1) (z + 2 ^ 64)) by lia.
    rewrite (proj2 (Z.ltb_ge _ _)) by lia. lia.
Qed.

Section UpdateFacts.
Context {R : Type}.
Implicit Types (p : R → bool) (rows : list R).

(** An update changes the rows that its predicate selects, in place. *)
Lemma sql_update_total p f (g : R → R) rows :
  (∀ r, r ∈ rows → p r = true → f r = Some (g r)) →
  sql_update p f rows = Ok (length (sql_select p rows), (λ r, if p r then g r else r) <$> rows).
Proof.
  unfold sql_select. induction rows as [|r rows IH]; intros Hf; [done|]. cbn [sql_update].
  rewrite IH by (intros; apply Hf; [by right|done]). rewrite filter_cons, fmap_cons.
  destruct (p r) eqn:E; [rewrite (Hf r), decide_True by (done || left)|rewrite decide_False]; done.
Qed.

Lemma sql_update_ok p (f : R → R) rows :
  sql_update p (λ r, Some (f r)) rows =
    Ok (length (sql_select p rows), (λ r, if p r then f r else r) <$> rows).
Proof. by apply sql_update_total. Qed.

Lemma sql_update_none p f rows :
  (∀ r, r ∈ rows → p r = false) → sql_update p f rows = Ok (0%nat, rows).
Proof.
  induction rows as [|r rows IH]; intros H; [done|]. cbn.
  rewrite IH by (intros; apply H; by right). by rewrite (H r) by left.
Qed.

(** One row is selected. *)
Lemma sql_update_one p f l1 r l2 :
  p r = true → (∀ r', r' ∈ l1 ++ l2 → p r' = false) →
  sql_update p f (l1 ++ r :: l2) =
    match f r with Some r' => Ok (1%nat, l1 ++ r' :: l2) | None => Err SqlDatatypeConstraint end.
Proof.
  intros Hr Hother. induction l1 as [|x l1 IH]; cbn [app sql_update].
  - rewrite (sql_update_none p f l2), Hr by (intros; by apply Hother). by destruct (f r).
  - rewrite IH by set_solver. rewrite (Hother x) by (cbn; left). by destruct (f r).
Qed.

Lemma sql_select_none p rows : (∀ r, r ∈ rows → p r = false) → sql_select p rows = [].
Proof.
  induction rows as [|r rows IH]; intros H; [done|]. unfold sql_select. rewrite filter_cons_False.
  - apply IH. intros. apply H. by right.
  - rewrite (H r) by left. done.
Qed.

Lemma sql_select_all p rows : (∀ r, r ∈ rows → p r = true) → sql_select p rows = rows.
Proof.
  unfold sql_select. induction rows as [|r rows IH]; intros H; [done|].
  rewrite filter_cons_True, IH by set_solver. done.
Qed.

Lemma elem_of_sql_select p rows r : r ∈ sql_select p rows ↔ p r = true ∧ r ∈ rows.
Proof. unfold sql_select. rewrite list_elem_of_filter. done. Qed.

Lemma sql_select_ext p q rows : (∀ r, r ∈ rows → p r = q r) → sql_select p rows = sql_select q rows.
Proof.
  unfold sql_select. induction rows as [|r rows IH]; intros Hpq; [done|].
  rewrite !filter_cons, (Hpq r), IH by set_solver. done.
Qed.

Lemma sql_select_select p q rows : sql_select q (sql_select p rows) = sql_select (λ r, p r && q r) rows.
Proof.
  unfold sql_select. induction rows as [|r rows IH]; [done|]. rewrite !(filter_cons _ r).
  destruct (p r); cbn [andb]; [rewrite decide_True, filter_cons, IH by done|rewrite !decide_False by done]; done.
Qed.

Lemma sql_select_fmap {Q} (f : Q → R) p (l : list Q) : sql_select p (f <$> l) = f <$> sql_select (λ x, p (f x)) l.
Proof.
  unfold sql_select. induction l as [|x l IH]; [done|]. rewrite fmap_cons, !filter_cons, IH. by case_decide.
Qed.

Lemma sql_select_one p l1 r l2 :
  p r = true → (∀ r', r' ∈ l1 ++ l2 → p r' = false) → sql_select p (l1 ++ r :: l2) = [r].
Proof.
  intros Hr Hother. unfold sql_select. rewrite filter_app, filter_cons_True by done.
  fold (sql_select p l1). fold (sql_select p l2). rewrite !sql_select_none; set_solver.
Qed.

(** A row with a key that only it has. *)
Lemma split_by_key {K} (key : R → K) rows r :
  NoDup (key <$> rows) → r ∈ rows →
  ∃ l1 l2, rows = l1 ++ r :: l2 ∧ ∀ r', r' ∈ l1 ++ l2 → key r' ≠ key r.
Proof.
  intros Hnd (l1 & l2 & ->)%list_elem_of_split. exists l1, l2. split; [done|]. intros r' Hr' E.
  rewrite fmap_app, fmap_cons in Hnd. apply NoDup_app in Hnd as (_ & H12 & [Hnot _]%NoDup_cons).
  apply elem_of_app in Hr' as [Hin|Hin].
  - apply (H12 (key r')); [by apply list_elem_of_fmap_2|rewrite E; left].
  - apply Hnot. rewrite <-E. by apply list_elem_of_fmap_2.
Qed.
End UpdateFacts.

(** A connection whose engine works, if [h] holds. *)
Definition works {T} (h : Prop) (c : Conn T) : Prop := h → faults c = [].

Section ConnectionFacts.
Context {T : Type} (h : Prop).
Implicit Types (c : Conn T).

Lemma endures_sql_execute {A} (st : statement A) c P :
  works h c →
  match st (tables c) with
  | Ok (a, t) => ∀ c', works h c' → tables c' = t → P (Ok a) c' []
  | Err e => ∀ c', works h c' → tables c' = tables c → P (Err e) c' []
  end →
  (¬ h → ∀ c', tables c' = tables c → P (Err SqlFailure) c' []) →
  endures h (sql_execute st) c P.
Proof.
  intros Hw Hst Hfault. unfold endures, sql_execute.
  assert (works h (mkConn (tables c) (tail (faults c)))) as Hw' by (intros Hh; cbn; by rewrite Hw).
  destruct (faults c) as [|[] fs] eqn:E.
  - destruct (st (tables c)) as [[a t]|e]; by apply Hst.
  - apply Hfault; [|done]. intros Hh. specialize (Hw Hh). congruence.
  - destruct (st (tables c)) as [[a t]|e]; by apply Hst.
Qed.

Lemma endures_query_or_panic {A} (q : T → A) why c (P : A → Conn T → list Empty_set → Prop) :
  works h c → (∀ c', works h c' → tables c' = tables c → P (q (tables c)) c' []) →
  endures h (sql_query_or_panic q why) c P.
Proof.
  intros Hw HP. unfold sql_query_or_panic, sql_query. end_step. apply endures_sql_execute; [done| |].
  - intros c' Hc' E. cbn. by apply HP.
  - intros Hh c' E. done.
Qed.
End ConnectionFacts.
