(* ===== verification/BigInt.v ===== *)
(** * Amounts of money and their form in the database

    Models the conversions of [node/src/accountant/mod.rs],
    [node/src/accountant/db_big_integer/big_int_divider.rs] and
    [node/src/accountant/db_big_integer/big_int_db_processor.rs].

    A balance in wei is an [i128]; a database column holds 64 bits.  A balance is
    therefore divided into two columns: the low 63 bits and the rest.  Balances are
    changed inside the database by adding column by column; when the sum of the low
    columns overflows, the database refuses the statement and the node adds with the
    carry itself.  [execute_adds] shows that this is addition of the whole numbers. *)

From S2P Require Import Prelude.
From S2P Require Import Actor.
From S2P Require Import Sql.

(** ** Conversions between integer types *)
Inductive int_type := I64 | U64 | I128 | U128.

Definition in_type (t : int_type) (z : Z) : bool :=
  match t with
  | I64 => in_i64 z
  | U64 => (0 <=? z) && (z <? 2 ^ 64)
  | I128 => (- 2 ^ 127 <=? z) && (z <? 2 ^ 127)
  | U128 => (0 <=? z) && (z <? 2 ^ 128)
  end.

(** [S::try_from] *)
Definition sign_conversion (t : int_type) (num : Z) : result Z Z :=
  if in_type t num then Ok num else Err num.

Definition checked_conversion (t : int_type) (num : Z) : outcome Z :=
  match sign_conversion t num with
  | Ok z => mret z
  | Err _ => Panic "Overflow detected with ...: cannot be converted"
  end.

Definition WEIS_IN_GWEI : Z := 1000000000.

(** From a 64-bit to a 128-bit type, so the product fits. *)
Definition gwei_to_wei (gwei : Z) : Z := gwei * WEIS_IN_GWEI.

Definition wei_to_gwei (t : int_type) (wei : Z) : outcome Z :=
  checked_conversion t (wei `quot` WEIS_IN_GWEI).

(** The cast [x as i128], and the wrap-around of [i128] arithmetic. *)
Definition as_i128 (z : Z) : Z :=
  let r := z mod 2 ^ 128 in if r <? 2 ^ 127 then r else r - 2 ^ 128.

(** ** [BigIntDivider] *)
Definition LOW_MASK : Z := 0x7FFFFFFFFFFFFFFF.

Definition deconstruct_range_check (num : Z) : outcome unit :=
  let top_two_bits := Z.land (Z.shiftr num 126) 3 in
  if top_two_bits =? 1 then Panic "Dividing big integer for special database storage: ... is too big"
  else if top_two_bits =? 2 then Panic "Dividing big integer for special database storage: ... is too small"
  else mret tt.

Definition deconstruct_high_bytes (num : Z) : outcome Z :=
  _ ← deconstruct_range_check num; mret (as_i64 (Z.shiftr num 63)).

Definition deconstruct_low_bytes (num : Z) : Z := as_i64 (Z.land num LOW_MASK).

Definition deconstruct (num : Z) : outcome (Z * Z) :=
  high ← deconstruct_high_bytes num; mret (high, deconstruct_low_bytes num).

Definition forbidden_low_bytes_negativity_check (low_bytes : Z) : outcome unit :=
  if low_bytes <? 0
  then Panic "Reconstituting big integer from special database storage: the second, lower integer is signed"
  else mret tt.

Definition reconstitute (high_bytes low_bytes : Z) : outcome Z :=
  _ ← forbidden_low_bytes_negativity_check low_bytes;
  mret (Z.lor (as_i128 (Z.shiftl high_bytes 63)) low_bytes).

(** The functions [slope_drop_high_bytes] and [slope_drop_low_bytes] that the node adds
    to the database: [common_arg_distillation] and what is returned of its value. *)
Definition get_i64_from_args (v : SqlValue) : result Z string :=
  match v with SqlInteger z => Ok z | _ => Err "argument takes only i64" end.

Definition common_arg_distillation (start slope time : SqlValue) : result Z string :=
  match get_i64_from_args start with
  | Err e => Err e
  | Ok start_point_to_decrease_from_gwei =>
      match get_i64_from_args slope with
      | Err e => Err e
      | Ok slope =>
          match get_i64_from_args time with
          | Err e => Err e
          | Ok time_parameter =>
              match slope <? 0, 0 <? time_parameter with
              | true, true =>
                  Ok (as_i128 (gwei_to_wei start_point_to_decrease_from_gwei
                               + as_i128 (slope * time_parameter)))
              | false, _ => Err "Nonnegative slope; delinquency slope must be negative, since debts must become more delinquent over time."
              | _, _ => Err "Negative time parameter; debt age cannot go negative."
              end
          end
      end
  end.

Definition slope_drop_high_bytes (start slope time : SqlValue) : outcome (result Z string) :=
  match common_arg_distillation start slope time with
  | Err e => mret (Err e)
  | Ok num => high ← deconstruct_high_bytes num; mret (Ok high)
  end.

Definition slope_drop_low_bytes (start slope time : SqlValue) : outcome (result Z string) :=
  match common_arg_distillation start slope time with
  | Err e => mret (Err e)
  | Ok num => mret (Ok (deconstruct_low_bytes num))
  end.

(** ** [BigIntDbProcessorReal] *)
Inductive WeiChangeDirection := Addition | Subtraction.

Record WeiChange := mkWeiChange { amount_to_change : Z; direction : WeiChangeDirection }.

Record WeiChangeAsHighAndLowBytes := mkWeiBytes { high_bytes : Z; low_bytes : Z }.

Definition wei_change_from (wei_change : WeiChange) : outcome WeiChangeAsHighAndLowBytes :=
  size_checked_amount ← checked_conversion I128 (amount_to_change wei_change);
  let oriented_amount :=
    match direction wei_change with
    | Addition => size_checked_amount
    | Subtraction => - size_checked_amount
    end in
  '(high, low) ← deconstruct oriented_amount;
  mret (mkWeiBytes high low).

Inductive BigIntDatabaseError := General | RowChangeMismatch (detected_count_changed : nat).

Section Processor.
Context {T : Type}.

(** [BigIntSqlConfig]: the statements with the parameters other than the wei change
    filled in; [select_sql] gives the two columns of the rows with the key. *)
Record BigIntSqlConfig := mkBigIntSqlConfig {
  main_sql : WeiChangeAsHighAndLowBytes → @statement T nat;
  overflow_update_clause : WeiChangeAsHighAndLowBytes → @statement T nat;
  select_sql : T → list (Z * Z);
  wei_change_params : WeiChangeAsHighAndLowBytes
}.

Definition correct_bytes (former_high_bytes former_low_bytes : Z)
    (requested_wei_change : WeiChangeAsHighAndLowBytes) : Z * Z :=
  (as_i64 (as_i64 (former_high_bytes + high_bytes requested_wei_change) + 1),
   as_i64 (Z.land (former_low_bytes + low_bytes requested_wei_change) LOW_MASK)).

Definition execute_update (config : BigIntSqlConfig) (bytes : WeiChangeAsHighAndLowBytes) : dao T unit :=
  res ← sql_execute (overflow_update_clause config bytes);
  rows_changed ← lift (expect_ok res "Logic problem in params selection for the SQL taking values with an already compensated overflow");
  if decide (rows_changed = 1%nat) then mret tt
  else act_panic "Broken code: this code was written to handle one changed row a time".

Definition update_with_overflow (config : BigIntSqlConfig) : dao T (result unit BigIntDatabaseError) :=
  row ← sql_execute (λ t,
    match select_sql config t with [] => Err SqlNoRows | row :: _ => Ok (row, t) end);
  match row with
  | Ok (former_high_bytes, former_low_bytes) =>
      let '(high, low) := correct_bytes former_high_bytes former_low_bytes (wei_change_params config) in
      _ ← execute_update config (mkWeiBytes high low);
      mret (Ok tt)
  | Err _ => mret (Err General)
  end.

Definition processor_execute (config : BigIntSqlConfig) : dao T (result unit BigIntDatabaseError) :=
  res ← sql_execute (main_sql config (wei_change_params config));
  match res with
  | Ok 1%nat => mret (Ok tt)
  | Ok detected_count_changed => mret (Err (RowChangeMismatch detected_count_changed))
  | Err SqlDatatypeConstraint => update_with_overflow config
  | Err _ => mret (Err General)
  end.
End Processor.
Arguments BigIntSqlConfig : clear implicits.

(** ** The number that two columns stand for *)
Definition joined (high low : Z) : Z := high * 2 ^ 63 + low.

(** Columns as [deconstruct] writes them. *)
Definition divided (high low : Z) : Prop := - 2 ^ 63 ≤ high < 2 ^ 63 ∧ 0 ≤ low < 2 ^ 63.

Definition storable (num : Z) : Prop := - 2 ^ 126 ≤ num < 2 ^ 126.

(** Pairs of columns are compared as the numbers they stand for. *)
Definition divided_gtb (h1 l1 h2 l2 : Z) : bool := (h2 <? h1) || ((h1 =? h2) && (l2 <? l1)).
Definition divided_geb (h1 l1 h2 l2 : Z) : bool := (h2 <? h1) || ((h1 =? h2) && (l2 <=? l1)).

Lemma joined_gt h1 l1 h2 l2 :
  divided h1 l1 → divided h2 l2 → divided_gtb h1 l1 h2 l2 = (joined h2 l2 <? joined h1 l1).
Proof.
  intros [? ?] [? ?]. unfold divided_gtb, joined. apply eq_bool_prop_intro.
  rewrite orb_True, andb_True, !Is_true_true, !Z.ltb_lt, Z.eqb_eq. nia.
Qed.

Lemma joined_ge h1 l1 h2 l2 :
  divided h1 l1 → divided h2 l2 → divided_geb h1 l1 h2 l2 = (joined h2 l2 <=? joined h1 l1).
Proof.
  intros [? ?] [? ?]. unfold divided_geb, joined. apply eq_bool_prop_intro.
  rewrite orb_True, andb_True, !Is_true_true, Z.ltb_lt, !Z.leb_le, Z.eqb_eq. nia.
Qed.

Lemma joined_inj h1 l1 h2 l2 :
  divided h1 l1 → divided h2 l2 → joined h1 l1 = joined h2 l2 → h1 = h2 ∧ l1 = l2.
Proof. unfold divided, joined. intros. nia. Qed.

Lemma divided_storable h l : divided h l → storable (joined h l).
Proof. unfold divided, joined, storable. nia. Qed.

Lemma low_mask_mod z : Z.land z LOW_MASK = z mod 2 ^ 63.
Proof. change LOW_MASK with (Z.ones 63). by apply Z.land_ones. Qed.

Lemma deconstruct_range_check_ok num :
  storable num → deconstruct_range_check num = mret tt.
Proof.
  intros [H1 H2]. unfold deconstruct_range_check. change 3 with (Z.ones 2).
  rewrite Z.land_ones, Z.shiftr_div_pow2 by lia.
  assert (num / 2 ^ 126 = 0 ∨ num / 2 ^ 126 = -1) as [-> | ->]; [|done..].
  destruct (Z.le_gt_cases 0 num).
  - left. by apply Z.div_small.
  - right. symmetry. apply (Z.div_unique num (2 ^ 126) (-1) (num + 2 ^ 126)); lia.
Qed.

(** Dividing a number and putting it together again gives the number. *)
Lemma deconstruct_spec num :
  storable num → ∃ h l, deconstruct num = mret (h, l) ∧ divided h l ∧ joined h l = num.
Proof.
  intros Hn. exists (num / 2 ^ 63), (num mod 2 ^ 63).
  assert (divided (num / 2 ^ 63) (num mod 2 ^ 63)) as Hd.
  { destruct Hn. split; [|by apply Z.mod_pos_bound].
    pose proof (Z.div_mod num (2 ^ 63)). pose proof (Z.mod_pos_bound num (2 ^ 63)). lia. }
  split; [|split; [done|]].
  - unfold deconstruct, deconstruct_high_bytes. rewrite deconstruct_range_check_ok by done. cbn.
    unfold deconstruct_low_bytes. rewrite low_mask_mod, Z.shiftr_div_pow2 by lia.
    rewrite !as_i64_range; [done|..]; apply in_i64_true; unfold divided in Hd; lia.
  - unfold joined. pose proof (Z.div_mod num (2 ^ 63)). lia.
Qed.

Lemma deconstruct_out_of_range num :
  - 2 ^ 127 ≤ num < 2 ^ 127 → ¬ storable num → ∃ why, deconstruct num = Panic why.
Proof.
  unfold storable. intros Hr Hn. unfold deconstruct, deconstruct_high_bytes, deconstruct_range_check.
  change 3 with (Z.ones 2). rewrite Z.land_ones, (Z.shiftr_div_pow2 num 126) by lia.
  assert (num / 2 ^ 126 = 1 ∨ num / 2 ^ 126 = -2) as [-> | ->]; [|by eexists..].
  destruct (Z.le_gt_cases 0 num).
  - left. symmetry. apply (Z.div_unique num (2 ^ 126) 1 (num - 2 ^ 126)); lia.
  - right. symmetry. apply (Z.div_unique num (2 ^ 126) (-2) (num + 2 * 2 ^ 126)); lia.
Qed.

Lemma as_i128_range z : - 2 ^ 127 ≤ z < 2 ^ 127 → as_i128 z = z.
Proof.
  intros H. unfold as_i128. destruct (Z.le_gt_cases 0 z) as [Hz|Hz].
  - rewrite Z.mod_small by lia. by rewrite (proj2 (Z.ltb_lt _ _)) by lia.
  - rewrite <-(Z.mod_unique z (2 ^ 128) (-1) (z + 2 ^ 128)) by lia.
    rewrite (proj2 (Z.ltb_ge _ _)) by lia. lia.
Qed.

Lemma reconstitute_spec h l : divided h l → reconstitute h l = mret (joined h l).
Proof.
  intros [Hh Hl]. unfold reconstitute, forbidden_low_bytes_negativity_check.
  rewrite (proj2 (Z.ltb_ge _ _)) by lia. cbn. f_equal. unfold joined.
  rewrite Z.shiftl_mul_pow2, as_i128_range by lia.
  assert (Z.land (h * 2 ^ 63) l = 0) as Hland; [|by rewrite <-Z.lxor_lor, Z.add_nocarry_lxor].
  apply Z.bits_inj'. intros n Hn. rewrite Z.land_spec, Z.bits_0. destruct (Z.lt_ge_cases n 63).
  - by rewrite Z.mul_pow2_bits_low.
  - rewrite <-(Z.mod_small l (2 ^ 63)) by lia.
    rewrite Z.mod_pow2_bits_high by lia. by rewrite andb_false_r.
Qed.

Lemma in_type_u128 z : 0 ≤ z < 2 ^ 127 → in_type U128 z = true.
Proof. intros. cbn. rewrite (proj2 (Z.leb_le _ _)), (proj2 (Z.ltb_lt _ _)) by lia. done. Qed.

Lemma checked_conversion_ok t z : in_type t z = true → checked_conversion t z = mret z.
Proof. unfold checked_conversion, sign_conversion. by intros ->. Qed.

Lemma checked_conversion_inv t z z' : checked_conversion t z = Ret z' → z' = z ∧ in_type t z = true.
Proof. unfold checked_conversion, sign_conversion. by destruct (in_type t z); [intros [= <-]|]. Qed.

(** The change that a direction and an amount ask for. *)
Definition oriented (w : WeiChange) : Z :=
  match direction w with Addition => amount_to_change w | Subtraction => - amount_to_change w end.

Lemma wei_change_from_spec w :
  0 ≤ amount_to_change w < 2 ^ 126 →
  ∃ b, wei_change_from w = mret b ∧ divided (high_bytes b) (low_bytes b) ∧
    joined (high_bytes b) (low_bytes b) = oriented w.
Proof.
  intros H. destruct (deconstruct_spec (oriented w)) as (h & l & E & Hd & Hj).
  { unfold storable, oriented. destruct (direction w); lia. }
  exists (mkWeiBytes h l). split; [|done]. unfold wei_change_from.
  rewrite checked_conversion_ok.
  2:{ cbn. rewrite (proj2 (Z.leb_le _ _)), (proj2 (Z.ltb_lt _ _)) by lia. done. }
  cbn. unfold oriented in E. by destruct (direction w); rewrite E.
Qed.

(** Adding column by column, with the carry where the database refuses the sum. *)
Definition add_columns (h l : Z) (b : WeiChangeAsHighAndLowBytes) : option (Z * Z) :=
  h' ← strict_integer (sql_sum (h + high_bytes b));
  l' ← strict_integer (sql_sum (l + low_bytes b));
  Some (h', l').

Lemma strict_sum z : strict_integer (sql_sum z) = if in_i64 z then Some z else None.
Proof. unfold sql_sum. by destruct (in_i64 z). Qed.

Lemma add_columns_spec h l b :
  divided h l → divided (high_bytes b) (low_bytes b) →
  storable (joined h l + joined (high_bytes b) (low_bytes b)) →
  let '(h', l') := default (correct_bytes h l b) (add_columns h l b) in
  divided h' l' ∧ joined h' l' = joined h l + joined (high_bytes b) (low_bytes b).
Proof.
  destruct b as [dh dl]. cbn. unfold divided, storable, joined, add_columns, correct_bytes. cbn.
  intros [Hh Hl] [Hdh Hdl] Hs. rewrite !strict_sum. destruct (in_i64 (l + dl)) eqn:El.
  - apply in_i64_true in El. rewrite (proj2 (in_i64_true (h + dh))) by lia. cbn. lia.
  - apply in_i64_false in El. destruct (in_i64 (h + dh)) eqn:Eh; cbn.
    all: rewrite low_mask_mod, <-(Z.mod_unique (l + dl) (2 ^ 63) 1 (l + dl - 2 ^ 63)) by lia.
    all: rewrite (as_i64_range (l + dl - 2 ^ 63)) by (apply in_i64_true; lia).
    + rewrite (as_i64_range (h + dh)) by done. apply in_i64_true in Eh.
      rewrite as_i64_range by (apply in_i64_true; lia). lia.
    + apply in_i64_false in Eh. assert (h + dh = - 2 ^ 63 - 1) as -> by lia.
      change (as_i64 (as_i64 (- 2 ^ 63 - 1) + 1)) with (- 2 ^ 63). lia.
Qed.

(** C31: Amounts survive the database.  An [i128] amount of less than 2^126 either way is
    divided into two columns of 64 bits, the lower one not negative, and is put together
    again as it was; columns are compared in the database as the amounts are.  Any larger
    amount is refused with a panic instead of being cut. *)
Theorem wei_division_roundtrip num :
  - 2 ^ 127 ≤ num < 2 ^ 127 →
  if decide (- 2 ^ 126 ≤ num < 2 ^ 126)
  then ∃ high low, deconstruct num = Ret (high, low) ∧ in_i64 high = true ∧ 0 ≤ low < 2 ^ 63 ∧
         reconstitute high low = Ret num ∧
         ∀ num' high' low', - 2 ^ 126 ≤ num' < 2 ^ 126 → deconstruct num' = Ret (high', low') →
           (high' <? high) || ((high =? high') && (low' <? low)) = (num' <? num)
  else ∃ why, deconstruct num = Panic why.
Proof.
  intros Hr. case_decide as Hs; [|by apply deconstruct_out_of_range].
  destruct (deconstruct_spec num Hs) as (h & l & E & Hd & Hj). exists h, l. split; [done|].
  split; [by apply in_i64_true, Hd|]. split; [apply Hd|]. split; [rewrite reconstitute_spec by done; by rewrite Hj|].
  intros num' h' l' Hs' E'. destruct (deconstruct_spec num' Hs') as (h1 & l1 & E1 & Hd1 & Hj1).
  rewrite E1 in E'. injection E' as <- <-. rewrite <-Hj, <-Hj1. by apply joined_gt.
Qed.

Lemma wei_division_roundtrip_witness :
  ∃ high low, deconstruct (-5) = Ret (high, low) ∧ reconstitute high low = Ret (-5).
Proof.
  pose proof (wei_division_roundtrip (-5)) as Hrt. rewrite decide_True in Hrt by lia.
  destruct Hrt as (high & low & E & _ & _ & Er & _); [lia|]. by exists high, low.
Defined.

(** ** What the processor does to a row

    [focused config t h l put] says that the statements of [config] concern one row of
    the tables [t], with the columns [h] and [l]; [put] replaces these. *)
Definition focused {T} (config : BigIntSqlConfig T) (t : T) (h l : Z) (put : Z * Z → T) : Prop :=
  let b := wei_change_params config in
  main_sql config b t =
    match add_columns h l b with Some hl => Ok (1%nat, put hl) | None => Err SqlDatatypeConstraint end ∧
  select_sql config t = [(h, l)] ∧
  ∀ hl, overflow_update_clause config (mkWeiBytes hl.1 hl.2) t = Ok (1%nat, put hl).

(** Addition of the whole numbers; a failing engine leaves the tables as they are. *)
Lemma execute_adds {T} h (config : BigIntSqlConfig T) (c : Conn T) hi lo put P :
  works h c → focused config (tables c) hi lo put →
  divided hi lo → divided (high_bytes (wei_change_params config)) (low_bytes (wei_change_params config)) →
  storable (joined hi lo + joined (high_bytes (wei_change_params config)) (low_bytes (wei_change_params config))) →
  (∀ hi' lo' c', works h c' → divided hi' lo' →
     joined hi' lo' = joined hi lo + joined (high_bytes (wei_change_params config)) (low_bytes (wei_change_params config)) →
     tables c' = put (hi', lo') → P (Ok tt) c' []) →
  (¬ h → ∀ c', tables c' = tables c → P (Err General) c' []) →
  endures h (processor_execute config) c P.
Proof.
  intros Hw (Hmain & Hsel & Hover) Hd Hdb Hs HP HE.
  pose proof (add_columns_spec hi lo _ Hd Hdb Hs) as Hadd. unfold processor_execute.
  end_step. apply endures_sql_execute; [done| |intros Hh c' E; by apply endures_ret, HE].
  rewrite Hmain. destruct (add_columns hi lo (wei_change_params config)) as [[hi' lo']|];
    cbn [default id] in Hadd; intros c1 Hw1 E1.
  { apply endures_ret. by eapply HP; [|apply Hadd..|]. }
  unfold update_with_overflow. end_step.
  apply endures_sql_execute; [done| |intros Hh c' E; apply endures_ret, HE; congruence].
  rewrite E1, Hsel. intros c2 Hw2 E2.
  destruct (correct_bytes hi lo (wei_change_params config)) as [hi' lo'].
  specialize (Hover (hi', lo')). cbn [fst snd] in Hover. unfold execute_update.
  end_step. end_step. apply endures_sql_execute; [done| |by intros Hh c' E].
  rewrite E2, Hover. intros c3 Hw3 E3. cbn. by eapply HP; [|apply Hadd..|].
Qed.
