(* ===== verification/Thresholds.v ===== *)
(** * Debts and the thresholds for paying them

    Models [PaymentThresholds] of [node/src/sub_lib/accountant.rs], [ThresholdUtils] of
    [node/src/accountant/db_access_objects/utils.rs], the gauge of
    [node/src/accountant/scanners/scanners_utils.rs], the choice of debts to pay in
    [node/src/accountant/scanners/mod.rs] and the check of the thresholds in
    [node/src/node_configurator/unprivileged_parse_args_configuration.rs].

    The limit up to which a debt is left alone falls along a line from
    [debt_threshold_gwei], at the age [maturity_threshold_sec], to
    [permanent_debt_allowed_gwei], [threshold_interval_sec] later.  Points in time are
    whole seconds since 1970: what is read from the database is, and ages are
    truncated to seconds. *)

From S2P Require Import Prelude.
From S2P Require Import NodeAddr.
From S2P Require Import Sql.
From S2P Require Import BigInt.

Record PaymentThresholds := mkThresholds {
  debt_threshold_gwei : Z;
  maturity_threshold_sec : Z;
  payment_grace_period_sec : Z;
  permanent_debt_allowed_gwei : Z;
  threshold_interval_sec : Z;
  unban_below_gwei : Z
}.

#[export] Instance PaymentThresholds_eq_dec : EqDecision PaymentThresholds.
Proof. solve_decision. Defined.

Definition U64_MAX : Z := 2 ^ 64 - 1.

Definition DEFAULT_PAYMENT_THRESHOLDS : PaymentThresholds :=
  mkThresholds U64_MAX 1200 1200 U64_MAX 21600 U64_MAX.

Definition sugg_and_grace (pt : PaymentThresholds) (now : Z) : outcome Z :=
  maturity ← checked_conversion I64 (maturity_threshold_sec pt);
  grace ← checked_conversion I64 (payment_grace_period_sec pt);
  mret (as_i64 (as_i64 (now - maturity) - grace)).

Definition check_payment_thresholds (pt : PaymentThresholds) : result unit string :=
  if debt_threshold_gwei pt <=? permanent_debt_allowed_gwei pt
  then Err "Value of DebtThresholdGwei must be bigger than PermanentDebtAllowedGwei"
  else if 10 ^ 9 <? threshold_interval_sec pt
  then Err "Value of ThresholdIntervalSec must not exceed 1,000,000,000 s"
  else Ok tt.

(** ** Time *)

(** [SystemTime::duration_since], in seconds *)
Definition duration_since (now earlier : Z) : result Z Z :=
  if earlier <=? now then Ok (now - earlier) else Err (earlier - now).

(** The epoch is 0. *)
Definition to_time_t (system_time : Z) : outcome Z :=
  match duration_since system_time 0 with
  | Ok secs => expect_ok (sign_conversion I64 secs) "MASQNode has expired"
  | Err _ => Panic "Must be wrong, moment way far in the past"
  end.

(** [time_t as u64], added to the epoch *)
Definition from_time_t (time_t : Z) : Z := u64 time_t.

(** ** [ThresholdUtils] *)
Definition slope (pt : PaymentThresholds) : outcome Z :=
  if threshold_interval_sec pt =? 0 then Panic "attempt to divide by zero"
  else mret ((gwei_to_wei (permanent_debt_allowed_gwei pt) - gwei_to_wei (debt_threshold_gwei pt))
             `quot` threshold_interval_sec pt).

Definition compute_theoretical_interception_with_y_axis (m maturity_threshold_sec debt_threshold_wei : Z) : Z :=
  as_i128 (debt_threshold_wei - as_i128 (maturity_threshold_sec * m)).

Definition qualifies_for_permanent_debt_limit (debt_age_s : Z) (pt : PaymentThresholds) : bool :=
  u64 (maturity_threshold_sec pt + threshold_interval_sec pt) <? debt_age_s.

Definition calculate_finite_debt_limit_by_age (pt : PaymentThresholds) (debt_age_s : Z) : outcome Z :=
  if qualifies_for_permanent_debt_limit debt_age_s pt
  then mret (gwei_to_wei (permanent_debt_allowed_gwei pt))
  else
    m ← slope pt;
    let b := compute_theoretical_interception_with_y_axis m (maturity_threshold_sec pt)
               (gwei_to_wei (debt_threshold_gwei pt)) in
    let y := as_i128 (as_i128 (m * debt_age_s) + b) in
    mret (wrap 128 y).

(** ** [PayableThresholdsGaugeReal] *)
Definition is_innocent_age (age limit : Z) : bool := age <=? limit.
Definition is_innocent_balance (balance limit : Z) : bool := balance <=? limit.
Definition calculate_payout_threshold_in_gwei (pt : PaymentThresholds) (debt_age : Z) : outcome Z :=
  calculate_finite_debt_limit_by_age pt debt_age.

(** ** Accounts that the node owes money to *)

(** [PendingPayableId]; the hash of a transaction is a number. *)
Record PendingPayableId := mkPendingId { pid_rowid : Z; pid_hash : Z }.

Record PayableAccount := mkPayableAccount {
  pa_wallet : Wallet;
  pa_balance_wei : Z;
  pa_last_paid_timestamp : Z;
  pa_pending_payable_opt : option PendingPayableId
}.

Definition payable_exceeded_threshold (pt : PaymentThresholds) (payable : PayableAccount) (now : Z) :
    outcome (option Z) :=
  debt_age ← expect_ok (duration_since now (pa_last_paid_timestamp payable)) "Internal error";
  if is_innocent_age debt_age (maturity_threshold_sec pt) then mret None
  else if is_innocent_balance (pa_balance_wei payable) (gwei_to_wei (permanent_debt_allowed_gwei pt))
  then mret None
  else
    threshold ← calculate_payout_threshold_in_gwei pt debt_age;
    mret (if threshold <? pa_balance_wei payable then Some threshold else None).

(** ** The line *)

(** Thresholds that the configurator accepts; an interval of 0, which would divide by
    zero, and a period of over 130 years are left out. *)
Record sound_thresholds (pt : PaymentThresholds) : Prop := {
  sound_checked : check_payment_thresholds pt = Ok tt;
  sound_debt : debt_threshold_gwei pt < 2 ^ 64;
  sound_permanent : 0 ≤ permanent_debt_allowed_gwei pt;
  sound_interval : 0 < threshold_interval_sec pt;
  sound_maturity : 0 ≤ maturity_threshold_sec pt;
  sound_period : maturity_threshold_sec pt + threshold_interval_sec pt ≤ 2 ^ 32
}.

(** By how much the limit falls in a second. *)
Definition decline (pt : PaymentThresholds) : Z :=
  (gwei_to_wei (debt_threshold_gwei pt) - gwei_to_wei (permanent_debt_allowed_gwei pt))
    / threshold_interval_sec pt.

(** The limit for a debt of the given age. *)
Definition debt_limit (pt : PaymentThresholds) (age : Z) : Z :=
  if maturity_threshold_sec pt + threshold_interval_sec pt <? age
  then gwei_to_wei (permanent_debt_allowed_gwei pt)
  else gwei_to_wei (debt_threshold_gwei pt) - decline pt * (age - maturity_threshold_sec pt).

Section Line.
Context (pt : PaymentThresholds) (Hpt : sound_thresholds pt).

Lemma sound_order : permanent_debt_allowed_gwei pt < debt_threshold_gwei pt.
Proof.
  destruct Hpt as [Hc _ _ _ _ _]. unfold check_payment_thresholds in Hc.
  destruct (Z.leb_spec (debt_threshold_gwei pt) (permanent_debt_allowed_gwei pt)); [done|lia].
Qed.

Lemma sound_short : threshold_interval_sec pt ≤ 10 ^ 9.
Proof.
  destruct Hpt as [Hc _ _ _ _ _]. unfold check_payment_thresholds in Hc.
  destruct (debt_threshold_gwei pt <=? permanent_debt_allowed_gwei pt); [done|].
  by destruct (Z.ltb_spec (10 ^ 9) (threshold_interval_sec pt)).
Qed.

Lemma decline_bounds :
  0 < decline pt < 2 ^ 94 ∧
  decline pt * threshold_interval_sec pt
    ≤ gwei_to_wei (debt_threshold_gwei pt) - gwei_to_wei (permanent_debt_allowed_gwei pt).
Proof.
  pose proof sound_order. pose proof sound_short. destruct Hpt as [_ Hd Hp Hi Hm _].
  unfold decline, gwei_to_wei, WEIS_IN_GWEI in *.
  set (d := debt_threshold_gwei pt * 1000000000 - permanent_debt_allowed_gwei pt * 1000000000) in *.
  assert (1000000000 ≤ d < 2 ^ 94) by lia.
  pose proof (Z.mul_div_le d _ Hi). pose proof (Z.div_str_pos d (threshold_interval_sec pt)).
  pose proof (Z.div_le_upper_bound d (threshold_interval_sec pt) d). nia.
Qed.

Lemma slope_is_decline : slope pt = mret (- decline pt).
Proof.
  pose proof sound_order. destruct Hpt as [_ Hd Hp Hi Hm _]. unfold slope, decline.
  rewrite (proj2 (Z.eqb_neq _ _)) by lia. f_equal.
  replace (gwei_to_wei (permanent_debt_allowed_gwei pt) - gwei_to_wei (debt_threshold_gwei pt))
    with (- (gwei_to_wei (debt_threshold_gwei pt) - gwei_to_wei (permanent_debt_allowed_gwei pt))) by lia.
  rewrite Z.quot_opp_l by lia. f_equal. apply Z.quot_div_nonneg; [|lia].
  unfold gwei_to_wei, WEIS_IN_GWEI. lia.
Qed.

Lemma debt_limit_bounds age :
  maturity_threshold_sec pt ≤ age →
  gwei_to_wei (permanent_debt_allowed_gwei pt) ≤ debt_limit pt age ≤ gwei_to_wei (debt_threshold_gwei pt).
Proof.
  intros Ha. pose proof sound_order. pose proof decline_bounds. destruct Hpt as [_ _ Hp Hi _ _].
  unfold debt_limit. destruct (Z.ltb_spec (maturity_threshold_sec pt + threshold_interval_sec pt) age).
  - unfold gwei_to_wei, WEIS_IN_GWEI. lia.
  - nia.
Qed.

(** The limit falls with the age of the debt. *)
Lemma debt_limit_antitone age age' :
  maturity_threshold_sec pt ≤ age ≤ age' → debt_limit pt age' ≤ debt_limit pt age.
Proof.
  intros Ha. pose proof (debt_limit_bounds age). pose proof decline_bounds. unfold debt_limit in *.
  destruct (Z.ltb_spec (maturity_threshold_sec pt + threshold_interval_sec pt) age'); [lia|].
  rewrite (proj2 (Z.ltb_ge _ age)) by lia. nia.
Qed.

Lemma calculate_finite_debt_limit_by_age_spec age :
  maturity_threshold_sec pt ≤ age →
  calculate_finite_debt_limit_by_age pt age = mret (debt_limit pt age).
Proof.
  intros Ha. pose proof (debt_limit_bounds age Ha) as Hb. pose proof decline_bounds as [Hd _].
  unfold calculate_finite_debt_limit_by_age, qualifies_for_permanent_debt_limit.
  pose proof sound_order. destruct Hpt as [_ Hu Hp Hi Hm Hs]. rewrite wrap_small by (unfold in_width; lia).
  unfold debt_limit in *.
  destruct (Z.ltb_spec (maturity_threshold_sec pt + threshold_interval_sec pt) age); [done|].
  rewrite slope_is_decline. cbn. f_equal.
  unfold compute_theoretical_interception_with_y_axis, gwei_to_wei, WEIS_IN_GWEI in *.
  set (d := decline pt) in *. set (m := maturity_threshold_sec pt) in *.
  assert (0 ≤ d * age ≤ 2 ^ 126 ∧ 0 ≤ d * m ≤ 2 ^ 126) as [Hda Hdm] by nia.
  replace (m * - d) with (- (d * m)) by lia. replace (- d * age) with (- (d * age)) by lia.
  replace (d * (age - m)) with (d * age - d * m) in * by lia.
  rewrite (as_i128_range (- (d * m))), (as_i128_range (- (d * age))) by lia.
  rewrite (as_i128_range (_ - - _)), as_i128_range by lia.
  rewrite wrap_small by (unfold in_width; lia). lia.
Qed.
End Line.

(** A debt of the given age and amount is due. *)
Definition due (pt : PaymentThresholds) (age wei : Z) : bool :=
  (maturity_threshold_sec pt <? age) && (debt_limit pt age <? wei).

Lemma payable_exceeded_threshold_spec pt p t :
  sound_thresholds pt → pa_last_paid_timestamp p ≤ t →
  payable_exceeded_threshold pt p t =
    Ret (if due pt (t - pa_last_paid_timestamp p) (pa_balance_wei p)
         then Some (debt_limit pt (t - pa_last_paid_timestamp p)) else None).
Proof.
  intros Hpt Ht. unfold payable_exceeded_threshold, duration_since, due.
  rewrite (proj2 (Z.leb_le (pa_last_paid_timestamp p) t) Ht). cbn.
  unfold is_innocent_age, is_innocent_balance. set (a := t - pa_last_paid_timestamp p).
  destruct (Z.leb_spec a (maturity_threshold_sec pt)) as [Ha|Ha];
    [by rewrite (proj2 (Z.ltb_ge _ _))|].
  rewrite (proj2 (Z.ltb_lt _ _)) by done. cbn.
  pose proof (debt_limit_bounds pt Hpt a).
  destruct (Z.leb_spec (pa_balance_wei p) (gwei_to_wei (permanent_debt_allowed_gwei pt))).
  { by rewrite (proj2 (Z.ltb_ge _ _)) by lia. }
  unfold calculate_payout_threshold_in_gwei.
  by rewrite (calculate_finite_debt_limit_by_age_spec pt Hpt) by lia.
Qed.

(** C30: The debts that are paid.  With thresholds that the configurator accepts, an
    interval that is not 0 and maturity time and interval of together at most 2^32
    seconds, a debt is chosen for payment exactly if it is older than [maturity_threshold_sec] and
    exceeds the limit for its age; the limit lies between the permanently allowed debt
    and the debt threshold, and never rises: a debt that is chosen stays so for as long
    as it is not paid, whether it grows or not. *)
Theorem overdue_debts_are_chosen pt payable now :
  sound_thresholds pt → pa_last_paid_timestamp payable ≤ now →
  let age := now - pa_last_paid_timestamp payable in
  payable_exceeded_threshold pt payable now =
    Ret (if (maturity_threshold_sec pt <? age) && (debt_limit pt age <? pa_balance_wei payable)
         then Some (debt_limit pt age) else None) ∧
  (maturity_threshold_sec pt < age →
     gwei_to_wei (permanent_debt_allowed_gwei pt) ≤ debt_limit pt age ≤ gwei_to_wei (debt_threshold_gwei pt)) ∧
  ∀ later grown,
    now ≤ later → pa_balance_wei payable ≤ pa_balance_wei grown →
    pa_last_paid_timestamp grown = pa_last_paid_timestamp payable →
    payable_exceeded_threshold pt payable now ≠ Ret None →
    ∃ limit, payable_exceeded_threshold pt grown later = Ret (Some limit).
Proof.
  intros Hpt Ht age. split; [by apply payable_exceeded_threshold_spec|].
  split; [intros; apply debt_limit_bounds; [done|lia]|].
  intros later grown Hl Hb Hlast. rewrite !payable_exceeded_threshold_spec by (done || lia).
  unfold due. rewrite Hlast. fold age.
  set (age' := later - pa_last_paid_timestamp payable). assert (age ≤ age') by lia.
  destruct (Z.ltb_spec (maturity_threshold_sec pt) age); [|done].
  destruct (Z.ltb_spec (debt_limit pt age) (pa_balance_wei payable)); [|done]. intros _.
  pose proof (debt_limit_antitone pt Hpt age age').
  rewrite (proj2 (Z.ltb_lt _ age')), (proj2 (Z.ltb_lt _ (pa_balance_wei grown))) by lia. by eexists.
Qed.
