(* ===== verification/ConfigStore.v ===== *)
(** * The configuration in the database

    Models the configuration table ([node/src/db_config/config_dao.rs]), the typed layer
    on it ([node/src/db_config/typed_config_layer.rs]) and those settings of
    [node/src/db_config/persistent_configuration.rs] that the Accountant and the
    BlockchainBridge use.  Encrypted settings are not modelled. *)

From S2P Require Import Prelude.
From S2P Require Import Actor.
From S2P Require Import Sql.
From Stdlib Require Import Ascii String.
#[local] Open Scope string_scope.
#[local] Open Scope Z_scope.

(** ** Decimal numbers: [u64::to_string] and [str::parse::<u64>] *)
Definition digit_char (d : Z) : ascii := ascii_of_nat (48 + Z.to_nat d).

Fixpoint decimal_digits (fuel : nat) (n : Z) (s : string) : string :=
  match fuel with
  | O => s
  | S fuel =>
      let s' := String (digit_char (n mod 10)) s in
      if n / 10 =? 0 then s' else decimal_digits fuel (n / 10) s'
  end.

(** Twenty digits are enough for 64 bits. *)
Definition u64_to_string (n : Z) : string := decimal_digits 20 n "".

Definition char_digit (c : ascii) : option Z :=
  let n := nat_of_ascii c in
  if ((48 <=? n) && (n <=? 57))%nat then Some (Z.of_nat (n - 48)) else None.

Fixpoint parse_decimal (s : string) (acc : Z) : option Z :=
  match s with
  | "" => Some acc
  | String c s =>
      d ← char_digit c;
      if acc * 10 + d <? 2 ^ 64 then parse_decimal s (acc * 10 + d) else None
  end.

(** A leading [+] is allowed; an empty number is not. *)
Definition parse_u64 (s : string) : option Z :=
  let s' := match s with String "+" s' => s' | _ => s end in
  match s' with "" => None | _ => parse_decimal s' 0 end.

(** ** [ConfigDaoReal] *)
Inductive ConfigDaoError := ConfigNotPresent | ConfigTransactionError | ConfigDatabaseError.

Record ConfigDaoRecord := mkConfigRecord {
  cfg_name : string;
  cfg_value_opt : option string;
  cfg_encrypted : bool
}.

Section Dao.
Context {T : Type} (config : T → list ConfigDaoRecord) (set_config : list ConfigDaoRecord → T → T).

(** [select name, value, encrypted from config where name = ?] *)
Definition config_get (name : string) : dao T (result ConfigDaoRecord ConfigDaoError) :=
  row ← sql_execute (λ t,
    match sql_select (λ r, bool_decide (cfg_name r = name)) (config t) with
    | [] => Err SqlNoRows
    | r :: _ => Ok (r, t)
    end);
  mret match row with
       | Ok record => Ok record
       | Err SqlNoRows => Err ConfigNotPresent
       | Err _ => Err ConfigDatabaseError
       end.

Definition handle_update_execution (res : result nat SqlError) : result unit ConfigDaoError :=
  match res with
  | Ok O => Err ConfigNotPresent
  | Ok _ => Ok tt
  | Err _ => Err ConfigDatabaseError
  end.

(** [update config set value = ? where name = ?] *)
Definition config_set (name : string) (value : option string) : dao T (result unit ConfigDaoError) :=
  res ← sql_execute (λ t,
    match sql_update (λ r, bool_decide (cfg_name r = name))
            (λ r, Some (mkConfigRecord (cfg_name r) value (cfg_encrypted r))) (config t) with
    | Ok (n, rows) => Ok (n, set_config rows t)
    | Err e => Err e
    end);
  mret (handle_update_execution res).

(** ** The typed layer *)
Inductive TypedConfigLayerError :=
| BadNumberFormat (s : string)
| BadHexFormat (s : string)
| BadCombinedParamsFormat (s : string).

Definition decode_u64 (string_opt : option string) : result (option Z) TypedConfigLayerError :=
  match string_opt with
  | None => Ok None
  | Some string =>
      match parse_u64 string with
      | None => Err (BadNumberFormat string)
      | Some number => Ok (Some number)
      end
  end.

Definition encode_u64 (value_opt : option Z) : result (option string) TypedConfigLayerError :=
  match value_opt with
  | None => Ok None
  | Some number => Ok (Some (u64_to_string number))
  end.

(** ** [PersistentConfigurationReal]

    As in [ConfigDaoError], an error of the database does not carry its text. *)
Inductive PersistentConfigError :=
| PcNotPresent
| PcPasswordError
| PcTransactionError
| PcDatabaseError
| PcBadPortNumber (s : string)
| PcBadNumberFormat (s : string)
| PcBadHexFormat (s : string)
| PcBadCoupledParamsFormat (s : string)
| PcBadMnemonicSeed (seed : list Z)
| PcBadDerivationPathFormat (s : string)
| PcBadAddressFormat (s : string)
| PcInvalidUrl (s : string)
| PcCollision (s : string)
| PcUninterpretableValue (s : string).

Definition pc_error_from_typed (e : TypedConfigLayerError) : PersistentConfigError :=
  match e with
  | BadHexFormat msg => PcBadHexFormat msg
  | BadNumberFormat msg => PcBadNumberFormat msg
  | BadCombinedParamsFormat msg => PcBadCoupledParamsFormat msg
  end.

Definition pc_error_from (e : ConfigDaoError) : PersistentConfigError :=
  match e with
  | ConfigNotPresent => PcNotPresent
  | ConfigTransactionError => PcTransactionError
  | ConfigDatabaseError => PcDatabaseError
  end.

Definition get_record (name : string) : dao T (result ConfigDaoRecord ConfigDaoError) :=
  record ← config_get name;
  match record with
  | Ok r =>
      if decide (cfg_name r = name) then mret (Ok r)
      else act_panic "ConfigDao (or more likely ConfigDaoMock) returned record for ... when asked for ..."
  | Err e => mret (Err e)
  end.

(** [decode_u64(self.get(name)?)?] *)
Definition get_u64 (name : string) : dao T (result (option Z) PersistentConfigError) :=
  record ← get_record name;
  mret match record with
       | Err e => Err (pc_error_from e)
       | Ok record =>
           match decode_u64 (cfg_value_opt record) with
           | Ok v => Ok v
           | Err e => Err (pc_error_from_typed e)
           end
       end.

(** [self.dao.set(name, encode_u64(value_opt)?)?] *)
Definition set_u64 (name : string) (value_opt : option Z) : dao T (result unit PersistentConfigError) :=
  match encode_u64 value_opt with
  | Err e => mret (Err (pc_error_from_typed e))
  | Ok value =>
      res ← config_set name value;
      mret match res with Ok _ => Ok tt | Err e => Err (pc_error_from e) end
  end.

Definition start_block : dao T (result (option Z) PersistentConfigError) := get_u64 "start_block".
Definition set_start_block : option Z → dao T (result unit PersistentConfigError) := set_u64 "start_block".
Definition max_block_count : dao T (result (option Z) PersistentConfigError) := get_u64 "max_block_count".
Definition set_max_block_count : option Z → dao T (result unit PersistentConfigError) := set_u64 "max_block_count".

(** In the transaction of someone else; the value is written with [to_string]. *)
Definition set_start_block_from_txn (value_opt : option Z) : dao T (result unit PersistentConfigError) :=
  res ← config_set "start_block" (u64_to_string <$> value_opt);
  mret match res with Ok _ => Ok tt | Err e => Err (pc_error_from e) end.
End Dao.

(** ** Numbers survive the table *)
Lemma char_digit_char d : 0 ≤ d < 10 → char_digit (digit_char d) = Some d.
Proof.
  intros Hd. unfold char_digit, digit_char. rewrite nat_ascii_embedding by lia.
  rewrite (proj2 (Nat.leb_le _ _)), (proj2 (Nat.leb_le _ _)) by lia. cbn. f_equal. lia.
Qed.

Lemma parse_decimal_digits fuel n s :
  0 ≤ n < 2 ^ 64 → n < 10 ^ Z.of_nat fuel → (0 < fuel)%nat →
  parse_decimal (decimal_digits fuel n s) 0 = parse_decimal s n.
Proof.
  revert n s. induction fuel as [|fuel IH]; intros n s Hn Hf Hpos; [lia|].
  cbn [decimal_digits]. pose proof (Z.mod_pos_bound n 10). pose proof (Z.div_mod n 10).
  assert (∀ k, 0 ≤ k → k * 10 + n mod 10 = n →
    parse_decimal (String (digit_char (n mod 10)) s) k = parse_decimal s n) as Hstep.
  { intros k Hk E. cbn. rewrite char_digit_char by lia. cbn. rewrite E.
    by rewrite (proj2 (Z.ltb_lt _ _)) by lia. }
  destruct (Z.eqb_spec (n / 10) 0) as [E|E].
  { apply Hstep; lia. }
  rewrite IH.
  - apply Hstep; [|lia]. apply Z.div_pos; lia.
  - pose proof (Z.div_pos n 10). lia.
  - apply Z.div_lt_upper_bound; [lia|]. rewrite Nat2Z.inj_succ, Z.pow_succ_r in Hf by lia. lia.
  - destruct fuel; [|lia]. change (10 ^ Z.of_nat 1) with 10 in Hf.
    exfalso. apply E. apply Z.div_small. lia.
Qed.

Lemma decimal_digits_first fuel n s :
  0 ≤ n → (0 < fuel)%nat → ∃ d s', decimal_digits fuel n s = String (digit_char d) s' ∧ 0 ≤ d < 10.
Proof.
  revert n s. induction fuel as [|fuel IH]; intros n s Hn Hf; [lia|]. cbn [decimal_digits].
  pose proof (Z.mod_pos_bound n 10). destruct (n / 10 =? 0); [by eauto with lia|].
  destruct fuel; [cbn; by eauto with lia|]. apply IH; [|lia]. apply Z.div_pos; lia.
Qed.

Lemma parse_u64_to_string n : 0 ≤ n < 2 ^ 64 → parse_u64 (u64_to_string n) = Some n.
Proof.
  intros Hn. unfold parse_u64, u64_to_string.
  pose proof (parse_decimal_digits 20 n "" Hn) as Hp.
  destruct (decimal_digits_first 20 n "") as (d & s' & E & Hd); [lia..|]. rewrite E in *.
  assert (digit_char d ≠ "+"%char) as Hne.
  { intros Heq. apply (f_equal nat_of_ascii) in Heq. unfold digit_char in Heq.
    rewrite nat_ascii_embedding in Heq by lia. change (nat_of_ascii "+") with 43%nat in Heq. lia. }
  assert (match String (digit_char d) s' with String "+" s0 => s0 | _ => String (digit_char d) s' end
          = String (digit_char d) s') as ->.
  { clear -Hne. destruct (digit_char d) as [[] [] [] [] [] [] [] []]; done. }
  rewrite Hp by lia. done.
Qed.

Lemma decode_encode_u64 v :
  (∀ n, v = Some n → 0 ≤ n < 2 ^ 64) → ∃ s, encode_u64 v = Ok s ∧ decode_u64 s = Ok v.
Proof.
  intros Hv. destruct v as [n|]; eexists; (split; [reflexivity|]); [|done].
  unfold decode_u64. by rewrite parse_u64_to_string by auto.
Qed.
