(* ===== verification/AccountantDb.v ===== *)
(** * The accounts in the database

    Models [node/src/accountant/db_access_objects]: the tables of debts
    ([payable_dao.rs]), of transactions under way ([pending_payable_dao.rs]), of claims
    ([receivable_dao.rs]) and of banned wallets ([banned_dao.rs]), and every operation on
    them that the Accountant uses, apart from the reports for the user.

    A wallet is stored by its address: the text in the database is the address in
    hexadecimal digits, and is read back as a wallet of that address.  Hashes of
    transactions are numbers.  The cache of the banned wallets, a static variable of the
    node, is kept beside the tables. *)

From S2P Require Import Prelude.
From S2P Require Import Actor.
From S2P Require Import NodeAddr.
From S2P Require Import NodeRecord.
From S2P Require Import Cryptde.
From S2P Require Import Sql.
From S2P Require Import BigInt.
From S2P Require Import Thresholds.
From S2P Require Import ConfigStore.

(** ** Rows and tables *)
Record PayableRow := mkPayableRow {
  pr_wallet_address : list Z;
  pr_balance_high_b : Z;
  pr_balance_low_b : Z;
  pr_last_paid_timestamp : Z;
  pr_pending_payable_rowid : option Z
}.

Record FingerprintRow := mkFingerprintRow {
  fr_rowid : Z;
  fr_transaction_hash : Z;
  fr_amount_high_b : Z;
  fr_amount_low_b : Z;
  fr_payable_timestamp : Z;
  fr_attempt : Z;
  fr_process_error : option string
}.

Record ReceivableRow := mkReceivableRow {
  rr_wallet_address : list Z;
  rr_balance_high_b : Z;
  rr_balance_low_b : Z;
  rr_last_received_timestamp : Z
}.

(** The tables, and [BAN_CACHE]. *)
Record Books := mkBooks {
  payable : list PayableRow;
  pending_payable : list FingerprintRow;
  receivable : list ReceivableRow;
  banned : list (list Z);
  config : list ConfigDaoRecord;
  ban_cache : list Wallet
}.

Definition set_payable (l : list PayableRow) (b : Books) : Books :=
  mkBooks l (pending_payable b) (receivable b) (banned b) (config b) (ban_cache b).
Definition set_pending_payable (l : list FingerprintRow) (b : Books) : Books :=
  mkBooks (payable b) l (receivable b) (banned b) (config b) (ban_cache b).
Definition set_receivable (l : list ReceivableRow) (b : Books) : Books :=
  mkBooks (payable b) (pending_payable b) l (banned b) (config b) (ban_cache b).
Definition set_banned (l : list (list Z)) (b : Books) : Books :=
  mkBooks (payable b) (pending_payable b) (receivable b) l (config b) (ban_cache b).
Definition set_config (l : list ConfigDaoRecord) (b : Books) : Books :=
  mkBooks (payable b) (pending_payable b) (receivable b) (banned b) l (ban_cache b).
Definition set_ban_cache (l : list Wallet) (b : Books) : Books :=
  mkBooks (payable b) (pending_payable b) (receivable b) (banned b) (config b) l.

Abbreviation books A := (dao Books A).

(** A statement on one table. *)
Definition on_table {R} (get : Books → list R) (set : list R → Books → Books)
    (st : list R → result (nat * list R) SqlError) : @statement Books nat := λ b,
  match st (get b) with Ok (n, rows) => Ok (n, set rows b) | Err e => Err e end.

(** ** Data *)
Inductive PayableDaoError := PayableSignConversion (amount : Z) | PayableRusqliteError.
Inductive ReceivableDaoError := ReceivableSignConversion (amount : Z) | ReceivableConfigurationError | ReceivableRusqliteError.
Inductive PendingPayableDaoError := InsertionFailed | UpdateFailed | RecordDeletion | ErrorMarkFailed.

Record PendingPayable := mkPendingPayable { pp_recipient_wallet : Wallet; pp_hash : Z }.
Record HashAndAmount := mkHashAndAmount { ha_hash : Z; ha_amount : Z }.

Record PendingPayableFingerprint := mkFingerprint {
  fgp_rowid : Z;
  fgp_timestamp : Z;
  fgp_hash : Z;
  fgp_attempt : Z;
  fgp_amount : Z;
  fgp_process_error : option string
}.

Record TransactionHashes := mkTransactionHashes {
  rowid_results : list (Z * Z);
  no_rowid_results : list Z
}.

Record ReceivableAccount := mkReceivableAccount {
  ra_wallet : Wallet;
  ra_balance_wei : Z;
  ra_last_received_timestamp : Z
}.

Record BlockchainTransaction := mkTransaction {
  block_number : Z;
  tx_from : Wallet;
  wei_amount : Z
}.

Section Daos.
Context `{Signatures}.

(** ** [PayableDaoReal] *)
Definition has_payable_address (address : list Z) (r : PayableRow) : bool :=
  bool_decide (pr_wallet_address r = address).
Definition has_pending_rowid (rowid : Z) (r : PayableRow) : bool :=
  bool_decide (pr_pending_payable_rowid r = Some rowid).

Definition payable_columns (r : PayableRow) : Z * Z := (pr_balance_high_b r, pr_balance_low_b r).
Definition with_payable_balance (hl : Z * Z) (r : PayableRow) : PayableRow :=
  mkPayableRow (pr_wallet_address r) hl.1 hl.2 (pr_last_paid_timestamp r) (pr_pending_payable_rowid r).
Definition with_payment (hl : Z * Z) (last_paid : Z) (r : PayableRow) : PayableRow :=
  mkPayableRow (pr_wallet_address r) hl.1 hl.2 last_paid None.

(** [insert into payable ... on conflict (wallet_address) do update set balance_high_b =
    balance_high_b + :balance_high_b, ...] *)
Definition payable_upsert (address : list Z) (last_paid_timestamp : Z) (b : WeiChangeAsHighAndLowBytes)
    (rows : list PayableRow) : result (nat * list PayableRow) SqlError :=
  sql_upsert (has_payable_address address)
    (λ r, hl ← add_columns (pr_balance_high_b r) (pr_balance_low_b r) b; Some (with_payable_balance hl r))
    (mkPayableRow address (high_bytes b) (low_bytes b) last_paid_timestamp None) rows.

Definition payable_charge_config (address : list Z) (last_paid_timestamp : Z)
    (wei : WeiChangeAsHighAndLowBytes) : BigIntSqlConfig Books :=
  mkBigIntSqlConfig
    (λ b, on_table payable set_payable (payable_upsert address last_paid_timestamp b))
    (λ b, on_table payable set_payable
       (sql_update (has_payable_address address) (λ r, Some (with_payable_balance (high_bytes b, low_bytes b) r))))
    (λ t, payable_columns <$> sql_select (has_payable_address address) (payable t))
    wei.

Definition payable_dao_error {A} (r : result A BigIntDatabaseError) : result unit PayableDaoError :=
  match r with Ok _ => Ok tt | Err _ => Err PayableRusqliteError end.

Definition more_money_payable (timestamp : Z) (wallet : Wallet) (amount : Z) :
    books (result unit PayableDaoError) :=
  last_paid_timestamp ← lift (to_time_t timestamp);
  wei ← lift (wei_change_from (mkWeiChange amount Addition));
  address ← lift (wallet_address wallet);
  res ← processor_execute (payable_charge_config address last_paid_timestamp wei);
  mret (payable_dao_error res).

(** [case when wallet_address = ... then ... end]: the first clause that fits *)
Fixpoint case_expression (wallets_and_rowids : list (list Z * Z)) (address : list Z) : option Z :=
  match wallets_and_rowids with
  | [] => None
  | (a, rowid) :: l => if decide (address = a) then Some rowid else case_expression l address
  end.

Definition mark_pending_clause (wallets_and_rowids : list (list Z * Z)) (r : PayableRow) : option PayableRow :=
  match case_expression wallets_and_rowids (pr_wallet_address r) with
  | Some rowid =>
      rowid ← strict_integer (sql_sum rowid);
      Some (mkPayableRow (pr_wallet_address r) (pr_balance_high_b r) (pr_balance_low_b r)
              (pr_last_paid_timestamp r) (Some rowid))
  | None => Some r
  end.

Definition mark_pending_where (wallets_and_rowids : list (list Z * Z)) (r : PayableRow) : bool :=
  bool_decide (pr_pending_payable_rowid r = None) &&
  bool_decide (pr_wallet_address r ∈ wallets_and_rowids.*1).

(** [execute_command]: every updated row returns its new rowid, which is not null. *)
Definition mark_pending_payables_rowids (wallets_and_rowids : list (Wallet * Z)) :
    books (result unit PayableDaoError) :=
  if decide (wallets_and_rowids = []) then
    act_panic "broken code: empty input is not permit to enter this method"
  else
    pairs ← lift (map_outcome (λ '(w, rowid), a ← wallet_address w; mret (a, rowid)) wallets_and_rowids);
    res ← sql_execute (on_table payable set_payable
                         (sql_update (mark_pending_where pairs) (mark_pending_clause pairs)));
    match res with
    | Ok rows_affected =>
        if decide (rows_affected = length wallets_and_rowids) then mret (Ok tt)
        else act_panic "Marking pending payable rowid for wallets ... affected ... rows but expected ..."
    | Err _ => mret (Err PayableRusqliteError)
    end.

Definition payment_config (rowid last_paid : Z) (wei : WeiChangeAsHighAndLowBytes) : BigIntSqlConfig Books :=
  mkBigIntSqlConfig
    (λ b, on_table payable set_payable
       (sql_update (has_pending_rowid rowid)
          (λ r, hl ← add_columns (pr_balance_high_b r) (pr_balance_low_b r) b; Some (with_payment hl last_paid r))))
    (λ b, on_table payable set_payable
       (sql_update (has_pending_rowid rowid) (λ r, Some (with_payment (high_bytes b, low_bytes b) last_paid r))))
    (λ t, payable_columns <$> sql_select (has_pending_rowid rowid) (payable t))
    wei.

Definition transaction_confirmed (fingerprint : PendingPayableFingerprint) : books (result unit PayableDaoError) :=
  i64_rowid ← lift (checked_conversion I64 (fgp_rowid fingerprint));
  last_paid ← lift (to_time_t (fgp_timestamp fingerprint));
  wei ← lift (wei_change_from (mkWeiChange (fgp_amount fingerprint) Subtraction));
  res ← processor_execute (payment_config i64_rowid last_paid wei);
  mret (payable_dao_error res).

(** [try_for_each]: the first error ends it; what was done before stays. *)
Fixpoint transactions_confirmed (confirmed_payables : list PendingPayableFingerprint) :
    books (result unit PayableDaoError) :=
  match confirmed_payables with
  | [] => mret (Ok tt)
  | fingerprint :: l =>
      res ← transaction_confirmed fingerprint;
      match res with
      | Ok _ => transactions_confirmed l
      | Err e => mret (Err e)
      end
  end.

Definition payable_account_of_row (r : PayableRow) : outcome PayableAccount :=
  balance ← reconstitute (pr_balance_high_b r) (pr_balance_low_b r);
  balance_wei ← checked_conversion U128 balance;
  mret (mkPayableAccount (WalletAddress (pr_wallet_address r)) balance_wei
          (from_time_t (pr_last_paid_timestamp r)) None).

(** [... where pending_payable_rowid is null] *)
Definition non_pending_payables : books (list PayableAccount) :=
  rows ← sql_query_or_panic
    (λ b, sql_select (λ r, bool_decide (pr_pending_payable_rowid r = None)) (payable b)) "Database is corrupt";
  lift (map_outcome payable_account_of_row rows).

(** [sum_i128_values_from_table]; the sum wraps around. *)
Definition sum_i128 (l : list Z) : Z := foldl (λ acc x, as_i128 (acc + x)) 0 l.

Definition payable_total : books Z :=
  rows ← sql_query_or_panic (λ b, payable_columns <$> payable b) "select query failed";
  values ← lift (map_outcome (λ '(high, low),
    big_int ← reconstitute high low;
    if high <? 0 then Panic "database corrupted: found negative value in payable table" else mret big_int) rows);
  lift (expect_ok (sign_conversion U128 (sum_i128 values)) "database corrupted: negative sum in payable table").

(** ** [PendingPayableDaoReal] *)
Definition fingerprints_rowids (hashes : list Z) : books TransactionHashes :=
  all_found_records ← sql_query_or_panic
    (λ b, (λ r, (fr_rowid r, fr_transaction_hash r)) <$>
            sql_select (λ r, bool_decide (fr_transaction_hash r ∈ hashes)) (pending_payable b)) "map query failed";
  mret (mkTransactionHashes all_found_records
          (filter (λ hash, hash ∉ all_found_records.*2) hashes)).

Definition fingerprint_of_row (r : FingerprintRow) : outcome PendingPayableFingerprint :=
  if (fr_attempt r <? 0) || (2 ^ 16 <=? fr_attempt r) then Panic "database is corrupt"
  else
    amount ← reconstitute (fr_amount_high_b r) (fr_amount_low_b r);
    amount ← checked_conversion U128 amount;
    mret (mkFingerprint (fr_rowid r) (from_time_t (fr_payable_timestamp r)) (fr_transaction_hash r)
            (fr_attempt r) amount None).

(** [... where process_error is null] *)
Definition return_all_errorless_fingerprints : books (list PendingPayableFingerprint) :=
  rows ← sql_query_or_panic
    (λ b, sql_select (λ r, bool_decide (fr_process_error r = None)) (pending_payable b)) "rusqlite failure";
  lift (map_outcome fingerprint_of_row rows).

(** SQLite gives a new row the rowid behind the largest one. *)
Definition next_rowid (rows : list FingerprintRow) : Z := 1 + foldr (λ r, Z.max (fr_rowid r)) 0 rows.

(** A row of the [values] clause: hash, columns of the amount, time *)
Fixpoint insert_fingerprints (values : list (Z * (Z * Z) * Z)) (rows : list FingerprintRow) :
    result (list FingerprintRow) SqlError :=
  match values with
  | [] => Ok rows
  | (hash, (high, low), time_t) :: values =>
      if bool_decide (hash ∈ fr_transaction_hash <$> rows) then Err SqlUniqueConstraint
      else insert_fingerprints values (rows ++ [mkFingerprintRow (next_rowid rows) hash high low time_t 1 None])
  end.

Definition values_clause_for_fingerprints_to_insert (hashes_and_amounts : list HashAndAmount)
    (batch_wide_timestamp : Z) : outcome (list (Z * (Z * Z) * Z)) :=
  time_t ← to_time_t batch_wide_timestamp;
  map_outcome (λ ha,
    amount_checked ← checked_conversion I128 (ha_amount ha);
    hl ← deconstruct amount_checked;
    mret (ha_hash ha, hl, time_t)) hashes_and_amounts.

(** Without values the statement cannot be prepared. *)
Definition insert_new_fingerprints (hashes_and_amounts : list HashAndAmount) (batch_wide_timestamp : Z) :
    books (result unit PendingPayableDaoError) :=
  values ← lift (values_clause_for_fingerprints_to_insert hashes_and_amounts batch_wide_timestamp);
  if decide (values = []) then act_panic "Internal error"
  else
    res ← sql_execute (λ b,
      match insert_fingerprints values (pending_payable b) with
      | Ok rows => Ok (length values, set_pending_payable rows b)
      | Err e => Err e
      end);
    match res with
    | Ok x => if decide (x = length hashes_and_amounts) then mret (Ok tt)
              else act_panic "expected ... changed rows but got ..."
    | Err _ => mret (Err InsertionFailed)
    end.

Definition has_rowid (ids : list Z) (r : FingerprintRow) : bool := bool_decide (fr_rowid r ∈ ids).

(** A statement on the fingerprints with the given ids; a different number of rows is a panic. *)
Definition change_fingerprints (ids : list Z)
    (st : list FingerprintRow → result (nat * list FingerprintRow) SqlError)
    (mismatch : string) (error : PendingPayableDaoError) : books (result unit PendingPayableDaoError) :=
  res ← sql_execute (on_table pending_payable set_pending_payable st);
  match res with
  | Ok num => if decide (num = length ids) then mret (Ok tt) else act_panic mismatch
  | Err _ => mret (Err error)
  end.

Definition delete_fingerprints (ids : list Z) : books (result unit PendingPayableDaoError) :=
  change_fingerprints ids (λ rows, Ok (sql_delete (has_rowid ids) rows))
    "deleting fingerprint, expected ... rows to be changed, but the actual number is ..." RecordDeletion.

Definition increment_scan_attempts (ids : list Z) : books (result unit PendingPayableDaoError) :=
  change_fingerprints ids
    (sql_update (has_rowid ids) (λ r, Some (mkFingerprintRow (fr_rowid r) (fr_transaction_hash r)
       (fr_amount_high_b r) (fr_amount_low_b r) (fr_payable_timestamp r) (fr_attempt r + 1) (fr_process_error r))))
    "Database corrupt: updating fingerprints: expected to update ... rows but did ..." UpdateFailed.

Definition mark_failures (ids : list Z) : books (result unit PendingPayableDaoError) :=
  change_fingerprints ids
    (sql_update (has_rowid ids) (λ r, Some (mkFingerprintRow (fr_rowid r) (fr_transaction_hash r)
       (fr_amount_high_b r) (fr_amount_low_b r) (fr_payable_timestamp r) (fr_attempt r) (Some "ERROR"))))
    "Database corrupt: marking failure at fingerprints: expected to change ... rows but did ..." ErrorMarkFailed.

(** ** [ReceivableDaoReal] *)
Definition has_receivable_address (address : list Z) (r : ReceivableRow) : bool :=
  bool_decide (rr_wallet_address r = address).
Definition receivable_columns (r : ReceivableRow) : Z * Z := (rr_balance_high_b r, rr_balance_low_b r).
Definition with_receivable_balance (hl : Z * Z) (r : ReceivableRow) : ReceivableRow :=
  mkReceivableRow (rr_wallet_address r) hl.1 hl.2 (rr_last_received_timestamp r).
Definition with_receipt (hl : Z * Z) (last_received : Z) (r : ReceivableRow) : ReceivableRow :=
  mkReceivableRow (rr_wallet_address r) hl.1 hl.2 last_received.

Definition receivable_upsert (address : list Z) (last_received_timestamp : Z) (b : WeiChangeAsHighAndLowBytes)
    (rows : list ReceivableRow) : result (nat * list ReceivableRow) SqlError :=
  sql_upsert (has_receivable_address address)
    (λ r, hl ← add_columns (rr_balance_high_b r) (rr_balance_low_b r) b; Some (with_receivable_balance hl r))
    (mkReceivableRow address (high_bytes b) (low_bytes b) last_received_timestamp) rows.

Definition receivable_charge_config (address : list Z) (last_received_timestamp : Z)
    (wei : WeiChangeAsHighAndLowBytes) : BigIntSqlConfig Books :=
  mkBigIntSqlConfig
    (λ b, on_table receivable set_receivable (receivable_upsert address last_received_timestamp b))
    (λ b, on_table receivable set_receivable
       (sql_update (has_receivable_address address)
          (λ r, Some (with_receivable_balance (high_bytes b, low_bytes b) r))))
    (λ t, receivable_columns <$> sql_select (has_receivable_address address) (receivable t))
    wei.

Definition more_money_receivable (timestamp : Z) (wallet : Wallet) (amount : Z) :
    books (result unit ReceivableDaoError) :=
  last_received_timestamp ← lift (to_time_t timestamp);
  wei ← lift (wei_change_from (mkWeiChange amount Addition));
  address ← lift (wallet_address wallet);
  res ← processor_execute (receivable_charge_config address last_received_timestamp wei);
  mret (match res with Ok _ => Ok tt | Err _ => Err ReceivableRusqliteError end).

(** *** Transactions: a working copy of the database, which [commit] makes the database *)
Definition Transaction : Type := Conn Books.

Definition begin_transaction : books (result Transaction SqlError) :=
  res ← sql_query (λ _, tt);
  match res with
  | Ok _ => c ← gets (λ c, c); mret (Ok c)
  | Err e => mret (Err e)
  end.

Definition commit (txn : Transaction) : books (result unit SqlError) := λ c,
  match sql_query (λ _, tt) txn with
  | Ret (Ok _, txn, _) => Ret (Ok tt, txn, [])
  | Ret (Err e, txn, _) => Ret (Err e, mkConn (tables c) (faults txn), [])
  | Panic why => Panic why
  end.

(** Run database code on the working copy. *)
Definition within {A} (txn : Transaction) (m : books A) : outcome (A * Transaction) :=
  match m txn with Ret (a, txn', _) => Ret (a, txn') | Panic why => Panic why end.

Definition receipt_config (address : list Z) (last_received : Z) (wei : WeiChangeAsHighAndLowBytes) :
    BigIntSqlConfig Books :=
  mkBigIntSqlConfig
    (λ b, on_table receivable set_receivable
       (sql_update (has_receivable_address address)
          (λ r, hl ← add_columns (rr_balance_high_b r) (rr_balance_low_b r) b; Some (with_receipt hl last_received r))))
    (λ b, on_table receivable set_receivable
       (sql_update (has_receivable_address address)
          (λ r, Some (with_receipt (high_bytes b, low_bytes b) last_received r))))
    (λ t, receivable_columns <$> sql_select (has_receivable_address address) (receivable t))
    wei.

Definition is_row_present (wallet : Wallet) : books bool :=
  address ← lift (wallet_address wallet);
  sql_query_or_panic (λ b, existsb (has_receivable_address address) (receivable b)) "checking on a row failed".

(** A payment from a wallet without an account is passed over. *)
Definition verify_possibly_unknown_wallet (suspect : BlockchainTransaction) : books (result unit ReceivableDaoError) :=
  present ← is_row_present (tx_from suspect);
  mret (if present : bool then Err ReceivableRusqliteError else Ok tt).

Definition process_received_payment (timestamp : Z) (received_payment : BlockchainTransaction) :
    books (result unit ReceivableDaoError) :=
  last_received_timestamp ← lift (to_time_t timestamp);
  wei ← lift (wei_change_from (mkWeiChange (wei_amount received_payment) Subtraction));
  address ← lift (wallet_address (tx_from received_payment));
  res ← processor_execute (receipt_config address last_received_timestamp wei);
  match res with
  | Ok _ => mret (Ok tt)
  | Err General => mret (Err ReceivableRusqliteError)
  | Err (RowChangeMismatch _) => verify_possibly_unknown_wallet received_payment
  end.

Fixpoint process_received_payments (timestamp : Z) (received_payments : list BlockchainTransaction) :
    books (result unit ReceivableDaoError) :=
  match received_payments with
  | [] => mret (Ok tt)
  | received_payment :: l =>
      res ← process_received_payment timestamp received_payment;
      match res with
      | Ok _ => process_received_payments timestamp l
      | Err e => mret (Err e)
      end
  end.

(** The transaction is returned without having been committed. *)
Definition more_money_received (timestamp : Z) (received_payments : list BlockchainTransaction) :
    books Transaction :=
  begun ← begin_transaction;
  match begun with
  | Ok txn =>
      '(res, txn) ← lift (within txn (process_received_payments timestamp received_payments));
      match res with
      | Ok _ => mret txn
      | Err _ => act_panic "Database corruption suspected during accounting newly received payments"
      end
  | Err _ => act_panic "Database corruption suspected during accounting newly received payments"
  end.

Definition create_receivable_account (r : ReceivableRow) : outcome ReceivableAccount :=
  balance_wei ← reconstitute (rr_balance_high_b r) (rr_balance_low_b r);
  mret (mkReceivableAccount (WalletAddress (rr_wallet_address r)) balance_wei
          (from_time_t (rr_last_received_timestamp r))).

(** The parameters of the query for delinquencies. *)
Record DelinquencyParams := mkDelinquencyParams {
  dq_debt_threshold : Z;
  dq_slope : Z;
  dq_sugg_and_grace : Z;
  dq_permanent_debt_allowed_high_b : Z;
  dq_permanent_debt_allowed_low_b : Z
}.

Definition delinquency_params (now : Z) (pt : PaymentThresholds) : outcome DelinquencyParams :=
  slope ← slope pt;
  '(permanent_high, permanent_low) ← deconstruct (gwei_to_wei (permanent_debt_allowed_gwei pt));
  debt_threshold ← checked_conversion I64 (debt_threshold_gwei pt);
  time_t ← to_time_t now;
  sugg_and_grace ← sugg_and_grace pt time_t;
  mret (mkDelinquencyParams debt_threshold (as_i64 slope) sugg_and_grace permanent_high permanent_low).

(** An error of a function of the query makes the query fail, which is a panic. *)
Definition sql_function (res : outcome (result Z string)) : outcome Z :=
  r ← res; expect_ok r "discovered an error from a preceding operation when flattening produced Result structures".

(** The [where] clause of [new_delinquencies] for one row *)
Definition newly_delinquent (p : DelinquencyParams) (banned : list (list Z)) (r : ReceivableRow) : outcome bool :=
  if rr_last_received_timestamp r <? dq_sugg_and_grace p then
    let time := sql_sum (dq_sugg_and_grace p - rr_last_received_timestamp r) in
    drop_high ← sql_function (slope_drop_high_bytes (SqlInteger (dq_debt_threshold p)) (SqlInteger (dq_slope p)) time);
    drop_low ← sql_function (slope_drop_low_bytes (SqlInteger (dq_debt_threshold p)) (SqlInteger (dq_slope p)) time);
    mret (((drop_high <? rr_balance_high_b r)
           || ((rr_balance_high_b r =? drop_high) && (drop_low <? rr_balance_low_b r)))
          && ((dq_permanent_debt_allowed_high_b p <? rr_balance_high_b r)
              || ((rr_balance_high_b r =? 0) && (dq_permanent_debt_allowed_low_b p <? rr_balance_low_b r)))
          && bool_decide (rr_wallet_address r ∉ banned))
  else mret false.

Definition new_delinquencies (now : Z) (pt : PaymentThresholds) : books (list ReceivableAccount) :=
  p ← lift (delinquency_params now pt);
  '(rows, banned) ← sql_query_or_panic (λ b, (receivable b, banned b))
    "Couldn't retrieve new delinquencies: database corruption";
  selected ← lift (filter_outcome (newly_delinquent p banned) rows);
  lift (map_outcome create_receivable_account selected).

(** The [where] clause of [paid_delinquencies]; the join is with the banned wallets. *)
Definition paid_delinquent (unban_balance_high_b unban_balance_low_b : Z) (banned : list (list Z))
    (r : ReceivableRow) : bool :=
  bool_decide (rr_wallet_address r ∈ banned)
  && ((rr_balance_high_b r <? unban_balance_high_b)
      || ((rr_balance_high_b r =? unban_balance_high_b) && (rr_balance_low_b r <=? unban_balance_low_b))).

Definition paid_delinquencies (pt : PaymentThresholds) : books (list ReceivableAccount) :=
  '(unban_high, unban_low) ← lift (deconstruct (unban_below_gwei pt * WEIS_IN_GWEI));
  rows ← sql_query_or_panic (λ b, sql_select (paid_delinquent unban_high unban_low (banned b)) (receivable b))
    "Couldn't retrieve new delinquencies: database corruption";
  lift (map_outcome create_receivable_account rows).

Definition receivable_total : books Z :=
  rows ← sql_query_or_panic (λ b, receivable_columns <$> receivable b) "select query failed";
  values ← lift (map_outcome (λ '(high, low), reconstitute high low) rows);
  mret (sum_i128 values).

Definition receivable_account_status (wallet : Wallet) : books (option ReceivableAccount) :=
  address ← lift (wallet_address wallet);
  rows ← sql_query_or_panic (λ b, sql_select (has_receivable_address address) (receivable b)) "Database is corrupt";
  lift match rows with
       | [] => mret None
       | r :: _ => a ← create_receivable_account r; mret (Some a)
       end.

(** ** [BannedDaoReal] and [BannedCache] *)
Definition cache_insert (wallet : Wallet) : books unit :=
  w ← lift (as_address_wallet wallet);
  modify (λ c, mkConn (set_ban_cache
    (if decide (w ∈ ban_cache (tables c)) then ban_cache (tables c) else w :: ban_cache (tables c)) (tables c))
    (faults c)).

Definition cache_remove (wallet : Wallet) : books unit :=
  w ← lift (as_address_wallet wallet);
  modify (λ c, mkConn (set_ban_cache (filter (λ w', w' ≠ w) (ban_cache (tables c))) (tables c)) (faults c)).

Definition cache_is_banned (wallet : Wallet) : books bool :=
  w ← lift (as_address_wallet wallet);
  gets (λ c, bool_decide (w ∈ ban_cache (tables c))).

(** [BannedCacheLoaderReal::load] *)
Definition load_ban_cache : books unit :=
  rows ← sql_query_or_panic banned "Failed to query banned table";
  each (λ address, cache_insert (WalletAddress address)) rows.

Definition ban_list : books (list Wallet) :=
  rows ← sql_query_or_panic banned "Couldn't retrieve delinquency-ban list: database corrupt";
  mret (WalletAddress <$> rows).

Definition ban (wallet : Wallet) : books unit :=
  already ← cache_is_banned wallet;
  if already : bool then mret tt
  else
    address ← lift (wallet_address wallet);
    res ← sql_execute (λ b,
      if decide (address ∈ banned b) then Err SqlUniqueConstraint
      else Ok (1%nat, set_banned (banned b ++ [address]) b));
    match res with
    | Ok _ | Err SqlUniqueConstraint => cache_insert wallet
    | Err _ => act_panic "Could not initiate delinquency ban for ... because of database corruption"
    end.

Definition unban (wallet : Wallet) : books unit :=
  already ← cache_is_banned wallet;
  if already : bool then
    address ← lift (wallet_address wallet);
    res ← sql_execute (on_table banned set_banned (λ rows, Ok (sql_delete (λ a, bool_decide (a = address)) rows)));
    match res with
    | Ok _ => cache_remove wallet
    | Err _ => act_panic "Could not terminate delinquency ban for ... because of database corruption"
    end
  else mret tt.
End Daos.
