(* ===== verification/AccountantDbFacts.v ===== *)
(** * The accounts as a ledger

    The tables of [AccountantDb.v] are a form of a ledger: for every address the money
    owed to it ([debts]) or by it ([claims]).  The lemmas of this file say what each
    operation of the access objects does to the ledger, for tables that satisfy
    [payables_ok] and [receivables_ok], and that it does not panic as long as the engine
    works ([endures]). *)

From S2P Require Import Prelude.
From S2P Require Import Actor.
From S2P Require Import NodeAddr.
From S2P Require Import NodeRecord.
From S2P Require Import Cryptde.
From S2P Require Import Sql.
From S2P Require Import BigInt.
From S2P Require Import Thresholds.
From S2P Require Import ConfigStore.
From S2P Require Import AccountantDb.

(** ** Tables as maps *)
Section Table.
Context {R V : Type} (key : R → list Z) (val : R → V).

Definition table_map (rows : list R) : gmap (list Z) V :=
  list_to_map ((λ r, (key r, val r)) <$> rows).

Lemma table_map_keys (rows : list R) : ((λ r, (key r, val r)) <$> rows).*1 = key <$> rows.
Proof. rewrite <-list_fmap_compose. done. Qed.

Lemma table_map_Some rows a v :
  NoDup (key <$> rows) → table_map rows !! a = Some v ↔ ∃ r, r ∈ rows ∧ key r = a ∧ val r = v.
Proof.
  intros Hnd. unfold table_map. rewrite <-elem_of_list_to_map by by rewrite table_map_keys.
  rewrite list_elem_of_fmap. split; intros (r & ?); exists r; naive_solver.
Qed.

Lemma table_map_None rows a : table_map rows !! a = None ↔ a ∉ key <$> rows.
Proof. unfold table_map. rewrite <-not_elem_of_list_to_map. by rewrite table_map_keys. Qed.

Lemma table_map_middle l1 r l2 :
  NoDup (key <$> l1 ++ r :: l2) → table_map (l1 ++ r :: l2) = <[key r := val r]> (table_map (l1 ++ l2)).
Proof.
  intros Hnd. unfold table_map. rewrite !fmap_app, fmap_cons, !list_to_map_app, list_to_map_cons.
  rewrite insert_union_r; [done|]. apply not_elem_of_list_to_map. rewrite table_map_keys.
  rewrite fmap_app, fmap_cons in Hnd. apply NoDup_app in Hnd as (_ & H12 & _).
  intros Hin. apply (H12 _ Hin). left.
Qed.

(** Replacing a row by one with the same key. *)
Lemma table_map_replace l1 r r' l2 :
  NoDup (key <$> l1 ++ r :: l2) → key r' = key r →
  table_map (l1 ++ r' :: l2) = <[key r := val r']> (table_map (l1 ++ r :: l2)).
Proof.
  intros Hnd E. rewrite (table_map_middle l1 r l2), insert_insert_eq by done.
  rewrite <-E. apply table_map_middle. by rewrite fmap_app, fmap_cons, E in *.
Qed.

Lemma table_map_append rows r :
  key r ∉ key <$> rows → NoDup (key <$> rows) → table_map (rows ++ [r]) = <[key r := val r]> (table_map rows).
Proof.
  intros Hr Hnd. rewrite <-(app_nil_r rows) at 2. apply table_map_middle.
  rewrite fmap_app. apply NoDup_app. split; [done|]. split; [set_solver|]. apply NoDup_singleton.
Qed.

(** Changing rows in place. *)
Lemma table_map_update (F : R → R) (G : list Z → V → V) rows :
  NoDup (key <$> rows) → (∀ r, key (F r) = key r) → (∀ r, r ∈ rows → val (F r) = G (key r) (val r)) →
  table_map (F <$> rows) = map_imap (λ a v, Some (G a v)) (table_map rows).
Proof.
  intros Hnd Hkey Hval.
  assert (key <$> (F <$> rows) = key <$> rows) as Hkeys.
  { rewrite <-list_fmap_compose. apply list_fmap_ext. intros ? r _. apply Hkey. }
  apply map_eq. intros a. rewrite map_lookup_imap. destruct (table_map rows !! a) as [v|] eqn:E; cbn.
  - apply table_map_Some in E as (r & Hr & <- & <-); [|done]. apply table_map_Some; [by rewrite Hkeys|].
    exists (F r). split; [by apply list_elem_of_fmap_2|]. by rewrite Hkey, Hval.
  - apply table_map_None in E. apply table_map_None. by rewrite Hkeys.
Qed.
End Table.

(** ** Sums *)
Definition sum_wei {A} (f : A → Z) (l : list A) : Z := foldr (λ x total, f x + total) 0 l.

Lemma sum_wei_cons {A} (f : A → Z) x l : sum_wei f (x :: l) = f x + sum_wei f l.
Proof. done. Qed.

Lemma sum_wei_nonneg {A} (f : A → Z) l : (∀ x, x ∈ l → 0 ≤ f x) → 0 ≤ sum_wei f l.
Proof.
  induction l as [|x l IH]; intros Hf; [done|]. cbn. fold (sum_wei f l).
  pose proof (Hf x (list_elem_of_here _ _)). assert (0 ≤ sum_wei f l); [|lia].
  apply IH. intros y Hy. apply Hf. by right.
Qed.

Lemma sum_wei_app {A} (f : A → Z) l1 l2 : sum_wei f (l1 ++ l2) = sum_wei f l1 + sum_wei f l2.
Proof. induction l1 as [|x l1 IH]; [done|]. cbn. fold (sum_wei f (l1 ++ l2)) (sum_wei f l1). rewrite IH. lia. Qed.

Lemma wrap_add_r w a b : wrap w (a + wrap w b) = wrap w (a + b).
Proof. apply Zplus_mod_idemp_r. Qed.

Lemma foldl_wrap_sum {A} (f : A → Z) l total :
  in_width 128 total → foldl (λ t x, wrap 128 (t + f x)) total l = wrap 128 (total + sum_wei f l).
Proof.
  revert total. induction l as [|x l IH]; intros total Ht; cbn [foldl].
  - cbn. by rewrite Z.add_0_r, wrap_small.
  - rewrite IH, sum_wei_cons by by apply wrap_in_width. unfold wrap. rewrite Zplus_mod_idemp_l. f_equal. lia.
Qed.

Lemma filter_outcome_select {A} (p : A → outcome bool) (q : A → bool) l :
  (∀ x, x ∈ l → p x = Ret (q x)) → filter_outcome p l = Ret (sql_select q l).
Proof. apply filter_outcome_ret. Qed.

(** ** The ledger *)
Record Debt := mkDebt {
  debt_wei : Z;
  debt_since : Z;
  debt_payment : option Z
}.

Record Claim := mkClaim { claim_wei : Z; claim_since : Z }.

Definition debt_of_row (r : PayableRow) : Debt :=
  mkDebt (joined (pr_balance_high_b r) (pr_balance_low_b r)) (pr_last_paid_timestamp r)
    (pr_pending_payable_rowid r).
Definition claim_of_row (r : ReceivableRow) : Claim :=
  mkClaim (joined (rr_balance_high_b r) (rr_balance_low_b r)) (rr_last_received_timestamp r).

Definition debts (rows : list PayableRow) : gmap (list Z) Debt := table_map pr_wallet_address debt_of_row rows.
Definition claims (rows : list ReceivableRow) : gmap (list Z) Claim := table_map rr_wallet_address claim_of_row rows.

(** The money owed to, or by, an address. *)
Definition owed (L : gmap (list Z) Debt) (a : list Z) : Z := default 0 (debt_wei <$> L !! a).
Definition claimed (L : gmap (list Z) Claim) (a : list Z) : Z := default 0 (claim_wei <$> L !! a).

Definition charge_debt (a : list Z) (now amount : Z) (L : gmap (list Z) Debt) : gmap (list Z) Debt :=
  <[a := match L !! a with
         | Some d => mkDebt (debt_wei d + amount) (debt_since d) (debt_payment d)
         | None => mkDebt amount now None
         end]> L.
Definition charge_claim (a : list Z) (now amount : Z) (L : gmap (list Z) Claim) : gmap (list Z) Claim :=
  <[a := match L !! a with
         | Some d => mkClaim (claim_wei d + amount) (claim_since d)
         | None => mkClaim amount now
         end]> L.

(** A payment of [amount] to [a] is over. *)
Definition settle_debt (a : list Z) (paid_at amount : Z) (L : gmap (list Z) Debt) : gmap (list Z) Debt :=
  alter (λ d, mkDebt (debt_wei d - amount) paid_at None) a L.
(** A payment from [a] has arrived. *)
Definition settle_claim (a : list Z) (now amount : Z) (L : gmap (list Z) Claim) : gmap (list Z) Claim :=
  alter (λ d, mkClaim (claim_wei d - amount) now) a L.

(** ** Invariants of the tables *)
Definition time_ok (t : Z) : Prop := 0 ≤ t < 2 ^ 63.

Record payable_row_ok (r : PayableRow) : Prop := {
  pro_divided : divided (pr_balance_high_b r) (pr_balance_low_b r);
  pro_time : time_ok (pr_last_paid_timestamp r)
}.

(** Addresses are keys, and no two debts are paid by the same transaction. *)
Record payables_ok (rows : list PayableRow) : Prop := {
  po_keys : NoDup (pr_wallet_address <$> rows);
  po_rowids : NoDup (omap pr_pending_payable_rowid rows);
  po_rows : Forall payable_row_ok rows
}.

Record receivable_row_ok (r : ReceivableRow) : Prop := {
  rro_divided : divided (rr_balance_high_b r) (rr_balance_low_b r);
  rro_time : time_ok (rr_last_received_timestamp r)
}.

Record receivables_ok (rows : list ReceivableRow) : Prop := {
  ro_keys : NoDup (rr_wallet_address <$> rows);
  ro_rows : Forall receivable_row_ok rows
}.

Lemma to_time_t_ok t : time_ok t → to_time_t t = Ret t.
Proof.
  intros [? ?]. unfold to_time_t, duration_since. rewrite (proj2 (Z.leb_le _ _)) by lia.
  rewrite Z.sub_0_r. unfold sign_conversion, in_type. by rewrite (proj2 (in_i64_true t)) by lia.
Qed.

Lemma from_time_t_ok t : time_ok t → from_time_t t = t.
Proof. intros [? ?]. apply wrap_small. split; lia. Qed.

(** ** One row of a table *)
Section Focus.
Context {R : Type} (get : Books → list R) (set : list R → Books → Books).
Context (sel : R → bool) (cols : R → Z * Z) (put : Z * Z → R → R).

Definition add_clause (b : WeiChangeAsHighAndLowBytes) (r : R) : option R :=
  hl ← add_columns (cols r).1 (cols r).2 b; Some (put hl r).

Lemma focused_row (config : BigIntSqlConfig Books) t l1 r l2 :
  get t = l1 ++ r :: l2 → sel r = true → (∀ r', r' ∈ l1 ++ l2 → sel r' = false) →
  main_sql config (wei_change_params config) t =
    on_table get set (sql_update sel (add_clause (wei_change_params config))) t →
  (∀ b, overflow_update_clause config b t =
     on_table get set (sql_update sel (λ r, Some (put (high_bytes b, low_bytes b) r))) t) →
  select_sql config t = cols <$> sql_select sel (get t) →
  focused config t (cols r).1 (cols r).2 (λ hl, set (l1 ++ put hl r :: l2) t).
Proof.
  intros Hget Hr Hother Hmain Hover Hsel. unfold focused. rewrite Hmain, Hsel, Hget. split_and!.
  - unfold on_table. rewrite Hget, sql_update_one by done. unfold add_clause.
    by destruct (add_columns (cols r).1 (cols r).2 (wei_change_params config)).
  - rewrite sql_select_one by done. cbn. by destruct (cols r).
  - intros [hi lo]. rewrite Hover. unfold on_table. by rewrite Hget, sql_update_one.
Qed.

(** The processor on a row that the statements select. *)
Lemma execute_on_row h (config : BigIntSqlConfig Books) c l1 r l2 delta P :
  works h c →
  get (tables c) = l1 ++ r :: l2 → sel r = true → (∀ r', r' ∈ l1 ++ l2 → sel r' = false) →
  main_sql config (wei_change_params config) (tables c) =
    on_table get set (sql_update sel (add_clause (wei_change_params config))) (tables c) →
  (∀ b, overflow_update_clause config b (tables c) =
     on_table get set (sql_update sel (λ r, Some (put (high_bytes b, low_bytes b) r))) (tables c)) →
  select_sql config (tables c) = cols <$> sql_select sel (get (tables c)) →
  divided (cols r).1 (cols r).2 →
  divided (high_bytes (wei_change_params config)) (low_bytes (wei_change_params config)) →
  joined (high_bytes (wei_change_params config)) (low_bytes (wei_change_params config)) = delta →
  storable (joined (cols r).1 (cols r).2 + delta) →
  (∀ hl c', works h c' → divided hl.1 hl.2 → joined hl.1 hl.2 = joined (cols r).1 (cols r).2 + delta →
     tables c' = set (l1 ++ put hl r :: l2) (tables c) → P (Ok tt) c' []) →
  (¬ h → ∀ c', tables c' = tables c → P (Err General) c' []) →
  endures h (processor_execute config) c P.
Proof.
  intros Hw Hget Hr Hother Hmain Hover Hsel Hd Hdb Hdelta Hs HP HE.
  eapply execute_adds; [done|by eapply focused_row|done|done|by rewrite Hdelta| |done].
  intros hi lo c' Hw' Hd' Hj E. rewrite Hdelta in Hj. by apply (HP (hi, lo)).
Qed.

(** The processor with a statement that inserts [new] if no row has its key. *)
Lemma execute_upsert h (key : R → list Z) a new (config : BigIntSqlConfig Books) c delta P :
  works h c →
  NoDup (key <$> get (tables c)) → (∀ r, sel r = bool_decide (key r = a)) →
  (∀ r, r ∈ get (tables c) → key r = a →
     divided (cols r).1 (cols r).2 ∧ storable (joined (cols r).1 (cols r).2 + delta)) →
  main_sql config (wei_change_params config) (tables c) =
    on_table get set (sql_upsert sel (add_clause (wei_change_params config)) new) (tables c) →
  (∀ b, overflow_update_clause config b (tables c) =
     on_table get set (sql_update sel (λ r, Some (put (high_bytes b, low_bytes b) r))) (tables c)) →
  select_sql config (tables c) = cols <$> sql_select sel (get (tables c)) →
  divided (high_bytes (wei_change_params config)) (low_bytes (wei_change_params config)) →
  joined (high_bytes (wei_change_params config)) (low_bytes (wei_change_params config)) = delta →
  (∀ l1 r l2 hl c', get (tables c) = l1 ++ r :: l2 → key r = a → works h c' →
     divided hl.1 hl.2 → joined hl.1 hl.2 = joined (cols r).1 (cols r).2 + delta →
     tables c' = set (l1 ++ put hl r :: l2) (tables c) → P (Ok tt) c' []) →
  (∀ c', a ∉ key <$> get (tables c) → works h c' →
     tables c' = set (get (tables c) ++ [new]) (tables c) → P (Ok tt) c' []) →
  (¬ h → ∀ c', tables c' = tables c → P (Err General) c' []) →
  endures h (processor_execute config) c P.
Proof.
  intros Hw Hk Hsel Hrows Hmain Hover Hselect Hdb Hdelta Hchange Hinsert HE.
  assert (existsb sel (get (tables c)) = bool_decide (a ∈ key <$> get (tables c))) as Hex.
  { apply eq_bool_prop_intro. rewrite bool_decide_spec, Is_true_true, existsb_exists, list_elem_of_fmap.
    setoid_rewrite Hsel. setoid_rewrite bool_decide_eq_true.
    split; intros (r & ? & ?); exists r; rewrite ?list_elem_of_In in *; naive_solver. }
  unfold on_table, sql_upsert in Hmain. rewrite Hex in Hmain. case_bool_decide as Hin.
  - apply list_elem_of_fmap in Hin as (r & -> & Hr).
    destruct (split_by_key key _ r Hk Hr) as (l1 & l2 & E & Hother).
    destruct (Hrows r Hr eq_refl) as [Hd Hs].
    eapply (execute_on_row h _ _ l1 r l2 delta); try done.
    + rewrite Hsel. by apply bool_decide_eq_true.
    + intros r' Hr'. rewrite Hsel. apply bool_decide_eq_false. by apply Hother.
    + intros hl c' Hw' Hd' Hj Etab. by eapply Hchange.
  - unfold processor_execute. end_step. apply endures_sql_execute; [done| |].
    + rewrite Hmain. intros c' Hw' Etab. end_step. by apply Hinsert.
    + intros Hh c' Etab. end_step. by apply HE.
Qed.
End Focus.

Section DaoFacts.
Context `{Signatures} (h : Prop).
Implicit Types (c : Conn Books).

(** The bytes of a change, and what they stand for. *)
Lemma wei_change_ok amount dir :
  0 ≤ amount < 2 ^ 126 →
  ∃ b, wei_change_from (mkWeiChange amount dir) = Ret b ∧ divided (high_bytes b) (low_bytes b) ∧
    joined (high_bytes b) (low_bytes b) = oriented (mkWeiChange amount dir).
Proof. intros Ha. by destruct (wei_change_from_spec (mkWeiChange amount dir)) as (b & ? & ? & ?); [|exists b]. Qed.

(** *** Debts *)
Lemma payables_ok_row rows r : payables_ok rows → r ∈ rows → payable_row_ok r.
Proof. intros [_ _ Hr] Hin. by eapply Forall_forall in Hr. Qed.

Lemma owed_storable rows a : payables_ok rows → storable (owed (debts rows) a).
Proof.
  intros Hok. destruct (debts rows !! a) as [d|] eqn:E; unfold owed; rewrite E; [|by split].
  apply table_map_Some in E as (r & Hr & _ & <-); [|apply Hok].
  apply divided_storable. by apply (payables_ok_row rows).
Qed.

(** Replacing a row by one for the same address keeps the invariant. *)
Lemma payables_ok_replace l1 r r' l2 :
  payables_ok (l1 ++ r :: l2) → pr_wallet_address r' = pr_wallet_address r → payable_row_ok r' →
  (pr_pending_payable_rowid r' = pr_pending_payable_rowid r ∨ pr_pending_payable_rowid r' = None) →
  payables_ok (l1 ++ r' :: l2).
Proof.
  intros [Hk Hp Hr] E Hr' Hrow. split.
  - by rewrite fmap_app, fmap_cons, E in *.
  - rewrite omap_app in *. cbn in *. destruct Hrow as [-> | ->]; [done|].
    destruct (pr_pending_payable_rowid r); [|done].
    eapply sublist_NoDup; [exact Hp|]. by apply sublist_app; [done|apply sublist_cons].
  - apply Forall_app in Hr as [H1 [_ H2]%Forall_cons]. apply Forall_app. split; [done|]. by constructor.
Qed.

Lemma payables_ok_append rows r :
  payables_ok rows → pr_wallet_address r ∉ pr_wallet_address <$> rows → payable_row_ok r →
  pr_pending_payable_rowid r = None → payables_ok (rows ++ [r]).
Proof.
  intros [Hk Hp Hr] Hnew Hok Hnone. split.
  - rewrite fmap_app. apply NoDup_app. split; [done|]. split; [set_solver|apply NoDup_singleton].
  - rewrite omap_app. cbn. rewrite Hnone, app_nil_r. done.
  - apply Forall_app. split; [done|]. by constructor.
Qed.

(** A charge is added to the debt to its wallet. *)
Lemma more_money_payable_charges c timestamp wallet amount a P :
  works h c → payables_ok (payable (tables c)) → time_ok timestamp →
  wallet_address wallet = Ret a → 0 ≤ amount < 2 ^ 126 →
  storable (owed (debts (payable (tables c))) a + amount) →
  (∀ rows c', works h c' → tables c' = set_payable rows (tables c) → payables_ok rows →
     debts rows = charge_debt a timestamp amount (debts (payable (tables c))) → P (Ok tt) c' []) →
  (¬ h → ∀ c', tables c' = tables c → P (Err PayableRusqliteError) c' []) →
  endures h (more_money_payable timestamp wallet amount) c P.
Proof.
  intros Hw Hok Ht Ha Hamt Hs HP HE. unfold more_money_payable.
  end_step. end_step. rewrite to_time_t_ok by done. cbn.
  destruct (wei_change_ok amount Addition Hamt) as (b & Hb & Hdb & Hjb). cbn in Hjb.
  end_step. end_step. rewrite Hb. cbn. end_step. end_step. rewrite Ha. cbn.
  pose proof (po_keys _ Hok) as Hk. end_step.
  eapply (execute_upsert payable set_payable (has_payable_address a) payable_columns with_payable_balance
            h pr_wallet_address a); try done.
  - intros r Hr <-. pose proof (payables_ok_row _ _ Hok Hr) as [Hdr Htr]. split; [done|].
    unfold owed, debts in Hs. rewrite (proj2 (table_map_Some _ _ _ _ _ Hk)) in Hs by by exists r. done.
  - intros l1 r l2 hl c' E Hra Hw' Hd' Hj Etab. end_step. rewrite E in Hok, Hk.
    assert (payable_row_ok r) as Hrow by (eapply payables_ok_row; [done|set_solver]).
    eapply HP; [done|exact Etab| |].
    + apply (payables_ok_replace _ r); [done|done|by split; [|apply Hrow]|by left].
    + unfold debts. rewrite (table_map_replace _ _ l1 r) by done. unfold charge_debt. rewrite E, Hra.
      rewrite (proj2 (table_map_Some _ debt_of_row _ a (debt_of_row r) Hk)) by (exists r; set_solver).
      f_equal. unfold debt_of_row. cbn. by rewrite Hj.
  - intros c' Hnew Hw' Etab. end_step. eapply HP; [done|exact Etab| |].
    + by apply payables_ok_append; [done|done|split|].
    + unfold debts. rewrite table_map_append by done. unfold charge_debt.
      rewrite (proj2 (table_map_None _ _ _ _)) by done. f_equal. unfold debt_of_row. cbn. by rewrite Hjb.
Qed.

(** A row in payment is found by the rowid of its transaction. *)
Lemma split_by_rowid rows r rowid :
  payables_ok rows → r ∈ rows → pr_pending_payable_rowid r = Some rowid →
  ∃ l1 l2, rows = l1 ++ r :: l2 ∧ has_pending_rowid rowid r = true ∧
    ∀ r', r' ∈ l1 ++ l2 → has_pending_rowid rowid r' = false.
Proof.
  intros [_ Hp _] (l1 & l2 & ->)%list_elem_of_split E. exists l1, l2. split; [done|].
  split; [by apply bool_decide_eq_true|]. intros r' Hr'. apply bool_decide_eq_false. intros E'.
  rewrite omap_app in Hp. cbn in Hp. rewrite E in Hp.
  apply NoDup_app in Hp as (_ & H12 & [Hnot _]%NoDup_cons).
  apply elem_of_app in Hr' as [Hin|Hin].
  - apply (H12 rowid); [|left]. apply list_elem_of_omap. by exists r'.
  - apply Hnot. apply list_elem_of_omap. by exists r'.
Qed.

(** A confirmed transaction is subtracted from the debt that it pays. *)
Lemma transaction_confirmed_settles c fgp r P :
  works h c → payables_ok (payable (tables c)) → r ∈ payable (tables c) →
  pr_pending_payable_rowid r = Some (fgp_rowid fgp) → in_i64 (fgp_rowid fgp) = true →
  time_ok (fgp_timestamp fgp) → 0 ≤ fgp_amount fgp < 2 ^ 126 →
  storable (debt_wei (debt_of_row r) - fgp_amount fgp) →
  (∀ rows c', works h c' → tables c' = set_payable rows (tables c) → payables_ok rows →
     debts rows = settle_debt (pr_wallet_address r) (fgp_timestamp fgp) (fgp_amount fgp)
                    (debts (payable (tables c))) → P (Ok tt) c' []) →
  (¬ h → ∀ c', tables c' = tables c → P (Err PayableRusqliteError) c' []) →
  endures h (transaction_confirmed fgp) c P.
Proof.
  intros Hw Hok Hr Hrow Hi Ht Hamt Hs HP HE. unfold transaction_confirmed.
  end_step. end_step. rewrite checked_conversion_ok by done. cbn.
  end_step. end_step. rewrite to_time_t_ok by done. cbn.
  destruct (wei_change_ok _ Subtraction Hamt) as (b & Hb & Hdb & Hjb). cbn in Hjb.
  end_step. end_step. rewrite Hb. cbn. pose proof (po_keys _ Hok) as Hk.
  destruct (split_by_rowid _ r _ Hok Hr Hrow) as (l1 & l2 & E & Hsel & Hother).
  pose proof (payables_ok_row _ _ Hok Hr) as [Hdr Htr].
  end_step. eapply (execute_on_row payable set_payable (has_pending_rowid (fgp_rowid fgp)) payable_columns
    (λ hl, with_payment hl (fgp_timestamp fgp)) h _ _ l1 r l2 (- fgp_amount fgp)); try done.
  - intros hl c' Hw' Hd' Hj Etab. end_step. rewrite E in Hok, Hk. eapply HP; [done|exact Etab| |].
    + apply (payables_ok_replace _ r); [done|done|by split|by right].
    + unfold debts. rewrite (table_map_replace _ _ l1 r) by done. unfold settle_debt.
      apply map_eq. intros a. rewrite E. destruct (decide (a = pr_wallet_address r)) as [->|Hne].
      * rewrite lookup_insert_eq, lookup_alter_eq.
        rewrite (proj2 (table_map_Some _ debt_of_row _ _ (debt_of_row r) Hk)) by (exists r; set_solver).
        cbn. f_equal. unfold debt_of_row. cbn. f_equal. rewrite Hj. cbn. lia.
      * by rewrite lookup_insert_ne, lookup_alter_ne.
Qed.
End DaoFacts.
