(* ===== verification/ClaimsFacts.v ===== *)
(** * Claims, payments received and delinquent debtors

    What the operations of [receivable_dao.rs] and [banned_dao.rs] do to the ledger:
    charges and payments, the search for delinquent debtors, and the ban, which is kept
    both in a table and in a cache that the Hopper consults. *)

From S2P Require Import Prelude.
From S2P Require Import Actor.
From S2P Require Import NodeAddr.
From S2P Require Import NodeRecord.
From S2P Require Import Cryptde.
From S2P Require Import Sql.
From S2P Require Import BigInt.
From S2P Require Import Thresholds.
From S2P Require Import ConfigStore.
From S2P Require Import AccountantDb.
From S2P Require Import AccountantDbFacts.

(** ** Rows *)
Lemma receivables_ok_row rows r : receivables_ok rows → r ∈ rows → receivable_row_ok r.
Proof. intros [_ Hr] Hin. by eapply Forall_forall in Hr. Qed.

Lemma receivables_ok_replace l1 r r' l2 :
  receivables_ok (l1 ++ r :: l2) → rr_wallet_address r' = rr_wallet_address r → receivable_row_ok r' →
  receivables_ok (l1 ++ r' :: l2).
Proof.
  intros [Hk Hr] E Hr'. split; [by rewrite fmap_app, fmap_cons, E in *|].
  apply Forall_app in Hr as [H1 [_ H2]%Forall_cons]. apply Forall_app. split; [done|]. by constructor.
Qed.

Lemma receivables_ok_append rows r :
  receivables_ok rows → rr_wallet_address r ∉ rr_wallet_address <$> rows → receivable_row_ok r →
  receivables_ok (rows ++ [r]).
Proof.
  intros [Hk Hr] Hnew Hok. split.
  - rewrite fmap_app. apply NoDup_app. split; [done|]. split; [set_solver|apply NoDup_singleton].
  - apply Forall_app. split; [done|]. by constructor.
Qed.

Lemma claims_row rows r :
  receivables_ok rows → r ∈ rows → claims rows !! rr_wallet_address r = Some (claim_of_row r).
Proof. intros Hok Hr. apply table_map_Some; [apply Hok|]. by exists r. Qed.

Lemma claimed_row rows r :
  receivables_ok rows → r ∈ rows →
  claimed (claims rows) (rr_wallet_address r) = joined (rr_balance_high_b r) (rr_balance_low_b r).
Proof. intros Hok Hr. unfold claimed. by rewrite claims_row. Qed.

Lemma claimed_storable rows a : receivables_ok rows → storable (claimed (claims rows) a).
Proof.
  intros Hok. destruct (claims rows !! a) as [cl|] eqn:E; unfold claimed; rewrite E; [|by split].
  apply table_map_Some in E as (r & Hr & _ & <-); [|apply Hok].
  apply divided_storable. by apply (receivables_ok_row rows).
Qed.

Section ClaimFacts.
Context `{Signatures} (h : Prop).
Implicit Types (c : Conn Books).

(** A charge is added to the claim on its wallet. *)
Lemma more_money_receivable_charges c timestamp wallet amount a P :
  works h c → receivables_ok (receivable (tables c)) → time_ok timestamp →
  wallet_address wallet = Ret a → 0 ≤ amount < 2 ^ 126 →
  storable (claimed (claims (receivable (tables c))) a + amount) →
  (∀ rows c', works h c' → tables c' = set_receivable rows (tables c) → receivables_ok rows →
     claims rows = charge_claim a timestamp amount (claims (receivable (tables c))) → P (Ok tt) c' []) →
  (¬ h → ∀ c', tables c' = tables c → P (Err ReceivableRusqliteError) c' []) →
  endures h (more_money_receivable timestamp wallet amount) c P.
Proof.
  intros Hw Hok Ht Ha Hamt Hs HP HE. unfold more_money_receivable.
  end_step. end_step. rewrite to_time_t_ok by done. cbn.
  destruct (wei_change_ok amount Addition Hamt) as (b & Hb & Hdb & Hjb). cbn in Hjb.
  end_step. end_step. rewrite Hb. cbn. end_step. end_step. rewrite Ha. cbn.
  pose proof (ro_keys _ Hok) as Hk. end_step.
  eapply (execute_upsert receivable set_receivable (has_receivable_address a) receivable_columns
            with_receivable_balance h rr_wallet_address a); try done.
  - intros r Hr <-. rewrite (claimed_row _ _ Hok Hr) in Hs.
    split; [by apply (receivables_ok_row _ _ Hok Hr)|done].
  - intros l1 r l2 hl c' E Hra Hw' Hd' Hj Etab. end_step. rewrite E in Hok, Hk.
    assert (r ∈ l1 ++ r :: l2) as Hin by set_solver.
    pose proof (receivables_ok_row _ _ Hok Hin) as Hrow. eapply HP; [done|exact Etab| |].
    + apply (receivables_ok_replace _ r); [done|done|by split; [|apply Hrow]].
    + unfold claims at 1. rewrite (table_map_replace _ _ l1 r) by done. unfold charge_claim.
      rewrite E, <-Hra, (claims_row _ _ Hok Hin). unfold claim_of_row. cbn. by rewrite Hj.
  - intros c' Hnew Hw' Etab. end_step. eapply HP; [done|exact Etab| |].
    + by apply receivables_ok_append; [done|done|split].
    + unfold claims. rewrite table_map_append by done. unfold charge_claim.
      rewrite (proj2 (table_map_None _ _ _ _)) by done. f_equal. unfold claim_of_row. cbn. by rewrite Hjb.
Qed.

(** ** Payments received *)

(** A payment is subtracted from the claim on its sender; one from a wallet without an
    account changes nothing. *)
Lemma process_received_payment_settles c timestamp tx a P :
  works h c → receivables_ok (receivable (tables c)) → time_ok timestamp →
  wallet_address (tx_from tx) = Ret a → 0 ≤ wei_amount tx < 2 ^ 126 →
  storable (claimed (claims (receivable (tables c))) a - wei_amount tx) →
  (∀ rows c', works h c' → tables c' = set_receivable rows (tables c) → receivables_ok rows →
     claims rows = settle_claim a timestamp (wei_amount tx) (claims (receivable (tables c))) → P (Ok tt) c' []) →
  (¬ h → ∀ c', tables c' = tables c → P (Err ReceivableRusqliteError) c' []) →
  endures h (process_received_payment timestamp tx) c P.
Proof.
  intros Hw Hok Ht Ha Hamt Hs HP HE. unfold process_received_payment.
  end_step. end_step. rewrite to_time_t_ok by done. cbn.
  destruct (wei_change_ok _ Subtraction Hamt) as (b & Hb & Hdb & Hjb). cbn in Hjb.
  end_step. end_step. rewrite Hb. cbn. end_step. end_step. rewrite Ha. cbn.
  pose proof (ro_keys _ Hok) as Hk. end_step.
  destruct (decide (a ∈ rr_wallet_address <$> receivable (tables c))) as [Hin|Hnot].
  - apply list_elem_of_fmap in Hin as (r & -> & Hr).
    destruct (split_by_key _ _ _ Hk Hr) as (l1 & l2 & E & Hother).
    pose proof (receivables_ok_row _ _ Hok Hr) as [Hdr _]. rewrite (claimed_row _ _ Hok Hr) in Hs.
    eapply (execute_on_row receivable set_receivable (has_receivable_address (rr_wallet_address r))
      receivable_columns (λ hl, with_receipt hl timestamp) h _ _ l1 r l2 (- wei_amount tx)); try done.
    + by apply bool_decide_eq_true.
    + intros r' Hr'. apply bool_decide_eq_false. by apply Hother.
    + intros hl c' Hw' Hd' Hj Etab. end_step. rewrite E in Hok, Hk.
      assert (r ∈ l1 ++ r :: l2) as Hin by set_solver. eapply HP; [done|exact Etab| |].
      * apply (receivables_ok_replace _ r); [done|done|by split].
      * unfold claims at 1. rewrite (table_map_replace _ _ l1 r) by done. unfold settle_claim.
        apply map_eq. intros a. rewrite E. destruct (decide (a = rr_wallet_address r)) as [->|Hne].
        -- rewrite lookup_insert_eq, lookup_alter_eq, (claims_row _ _ Hok Hin). cbn.
           f_equal. unfold claim_of_row. cbn. f_equal. rewrite Hj. cbn. lia.
        -- by rewrite lookup_insert_ne, lookup_alter_ne.
  - assert (∀ r, r ∈ receivable (tables c) → has_receivable_address a r = false) as Hnone.
    { intros r Hr. apply bool_decide_eq_false. intros <-. apply Hnot. by apply list_elem_of_fmap_2. }
    unfold processor_execute. end_step. apply endures_sql_execute; [done| |].
    + cbn. unfold on_table. rewrite sql_update_none by done. intros c' Hw' E. end_step.
      unfold verify_possibly_unknown_wallet, is_row_present.
      end_step. end_step. end_step. rewrite Ha. cbn.
      apply endures_query_or_panic; [done|]. intros c'' Hw'' E'.
      assert (existsb (has_receivable_address a) (receivable (tables c')) = false) as Hex.
      { rewrite E. cbn. apply not_true_iff_false. rewrite existsb_exists. intros (r & Hr & Ht').
        rewrite (Hnone r) in Ht' by by apply list_elem_of_In. done. }
      rewrite Hex. eapply (HP (receivable (tables c))); [done|by rewrite E', E|done|].
      unfold settle_claim, claims. rewrite alter_id; [done|].
      by rewrite (proj2 (table_map_None _ _ _ _)).
    + intros Hh c' E. end_step. by apply HE.
Qed.

(** The payments in turn.  A sender without an address is an error of the code. *)
Definition sender (tx : BlockchainTransaction) : list Z :=
  match wallet_address (tx_from tx) with Ret a => a | Panic _ => [] end.

Definition settle_claims (now : Z) (txs : list BlockchainTransaction) (L : gmap (list Z) Claim) :
    gmap (list Z) Claim :=
  foldl (λ L tx, settle_claim (sender tx) now (wei_amount tx) L) L txs.

Lemma claimed_settle a now amount L b :
  claimed (settle_claim a now amount L) b = claimed L b - (if decide (a = b ∧ is_Some (L !! a)) then amount else 0).
Proof.
  unfold claimed, settle_claim. destruct (decide (a = b)) as [<-|Hne].
  - rewrite lookup_alter_eq. destruct (L !! a); cbn.
    + rewrite decide_True by done. done.
    + rewrite decide_False; [done|]. intros [_ [? [=]]].
  - rewrite lookup_alter_ne by done. rewrite decide_False by tauto. lia.
Qed.

Lemma process_received_payments_settle timestamp txs c P :
  works h c → receivables_ok (receivable (tables c)) → time_ok timestamp →
  (∀ tx, tx ∈ txs → wallet_address (tx_from tx) = Ret (sender tx) ∧ 0 ≤ wei_amount tx) →
  sum_wei wei_amount txs < 2 ^ 126 →
  (∀ a, sum_wei wei_amount txs - 2 ^ 126 ≤ claimed (claims (receivable (tables c))) a) →
  (∀ rows c', works h c' → tables c' = set_receivable rows (tables c) → receivables_ok rows →
     claims rows = settle_claims timestamp txs (claims (receivable (tables c))) → P (Ok tt) c' []) →
  (¬ h → ∀ c', P (Err ReceivableRusqliteError) c' []) →
  endures h (process_received_payments timestamp txs) c P.
Proof.
  revert c P. induction txs as [|tx txs IH]; intros c P Hw Hok Ht Htxs Hsum Hlow HP HE.
  { apply (endures_ret h (Ok tt)). by apply (HP (receivable (tables c))); [|destruct (tables c)| |]. }
  cbn [process_received_payments sum_wei foldr] in *. fold (sum_wei wei_amount txs) in *.
  destruct (Htxs tx (list_elem_of_here _ _)) as [Ha Hamt].
  assert (0 ≤ sum_wei wei_amount txs).
  { apply sum_wei_nonneg. intros x Hx. apply (Htxs x). by right. }
  pose proof (claimed_storable _ (sender tx) Hok) as [_ Hup]. pose proof (Hlow (sender tx)).
  end_step. apply (process_received_payment_settles c timestamp tx (sender tx)); [done..|lia|split; lia| |].
  - intros rows c1 Hw1 E1 Hok1 Hc1. apply IH; try done.
    + by rewrite E1.
    + intros x Hx. apply Htxs. by right.
    + lia.
    + intros a. rewrite E1. cbn [receivable set_receivable]. rewrite Hc1, claimed_settle. pose proof (Hlow a). case_decide; lia.
    + intros rows' c2 Hw2 E2 Hok2 Hc2. eapply (HP rows'); [done| |done|].
      * by rewrite E2, E1.
      * rewrite Hc2, E1. cbn [receivable set_receivable]. by rewrite Hc1.
  - intros Hh c1 _. end_step. by apply HE.
Qed.

(** The payments are entered in a transaction; the database waits for its commit. *)
Lemma more_money_received_settles timestamp txs c P :
  works h c → receivables_ok (receivable (tables c)) → time_ok timestamp →
  (∀ tx, tx ∈ txs → wallet_address (tx_from tx) = Ret (sender tx) ∧ 0 ≤ wei_amount tx) →
  sum_wei wei_amount txs < 2 ^ 126 →
  (∀ a, sum_wei wei_amount txs - 2 ^ 126 ≤ claimed (claims (receivable (tables c))) a) →
  (∀ rows txn c', works h c' → works h txn → tables c' = tables c →
     tables txn = set_receivable rows (tables c) → receivables_ok rows →
     claims rows = settle_claims timestamp txs (claims (receivable (tables c))) → P txn c' []) →
  endures h (more_money_received timestamp txs) c P.
Proof.
  intros Hw Hok Ht Htxs Hsum Hlow HP. unfold more_money_received, begin_transaction. end_step. end_step.
  apply endures_sql_execute; [done| |intros Hh c' E; end_step; by end_step].
  intros c1 Hw1 E1. end_step. end_step. end_step. cbn. end_step. unfold endures, lift, within.
  assert (endures h (process_received_payments timestamp txs) c1 (λ r txn sent, sent = [] ∧
    (r = Ok tt → works h txn ∧ ∃ rows, tables txn = set_receivable rows (tables c) ∧
      receivables_ok rows ∧ claims rows = settle_claims timestamp txs (claims (receivable (tables c)))) ∧
      (r ≠ Ok tt → ¬ h))) as Hend.
  { apply process_received_payments_settle; rewrite ?E1; try done.
    intros rows c' Hw' E' Hok' Hc'. split; [done|]. split; [|done]. intros _. split; [done|]. by exists rows. }
  unfold endures in Hend. destruct (process_received_payments timestamp txs c1) as [[[r txn] sent]|]; [|done].
  destruct Hend as (_ & HOk & HErr). destruct r as [[]|e].
  - destruct (HOk eq_refl) as (Hwt & rows & ? & ? & ?). cbn. by eapply HP.
  - cbn. by apply HErr.
Qed.

(** ** Delinquent debtors *)

(** For how long a payment has been overdue. *)
Definition overdue (pt : PaymentThresholds) (now : Z) (cl : Claim) : Z :=
  now - maturity_threshold_sec pt - payment_grace_period_sec pt - claim_since cl.

(** A debtor is delinquent who is behind with a payment, and owes more than what is
    permanently allowed and more than the limit, which falls by the second. *)
Definition delinquent (pt : PaymentThresholds) (now : Z) (cl : Claim) : bool :=
  (0 <? overdue pt now cl)
  && (gwei_to_wei (debt_threshold_gwei pt) - decline pt * overdue pt now cl <? claim_wei cl)
  && (gwei_to_wei (permanent_debt_allowed_gwei pt) <? claim_wei cl).

(** Thresholds for which the query is exact: less than 2^63 gwei for the debt threshold,
    less than 2^63 wei for the permanently allowed debt and for the decline in a second. *)
Record exact_thresholds (pt : PaymentThresholds) : Prop := {
  exact_sound : sound_thresholds pt;
  exact_debt : debt_threshold_gwei pt < 2 ^ 63;
  exact_permanent : gwei_to_wei (permanent_debt_allowed_gwei pt) < 2 ^ 63;
  exact_decline : decline pt ≤ 2 ^ 63;
  exact_grace : 0 ≤ payment_grace_period_sec pt < 2 ^ 62;
  exact_unban : 0 ≤ unban_below_gwei pt < 2 ^ 64
}.

Lemma sugg_and_grace_spec pt now :
  exact_thresholds pt → time_ok now →
  sugg_and_grace pt now = Ret (now - maturity_threshold_sec pt - payment_grace_period_sec pt).
Proof.
  intros [[_ _ _ Hi Hm Hp] _ _ _ Hg _] [Ht1 Ht2]. unfold sugg_and_grace.
  rewrite (checked_conversion_ok I64 (maturity_threshold_sec pt)) by (apply in_i64_true; lia). cbn.
  rewrite checked_conversion_ok by (apply in_i64_true; lia). cbn.
  rewrite (as_i64_range (now - _)) by (apply in_i64_true; lia).
  by rewrite as_i64_range by (apply in_i64_true; lia).
Qed.

Lemma delinquency_params_spec pt now :
  exact_thresholds pt → time_ok now →
  delinquency_params now pt = Ret (mkDelinquencyParams (debt_threshold_gwei pt) (- decline pt)
    (now - maturity_threshold_sec pt - payment_grace_period_sec pt)
    0 (gwei_to_wei (permanent_debt_allowed_gwei pt))).
Proof.
  intros Hpt Ht. unfold delinquency_params. pose proof Hpt as [Hs Hd Hp Hdec Hg _].
  pose proof (decline_bounds pt Hs) as [Hdb _]. pose proof (sound_order pt Hs).
  rewrite slope_is_decline by done. run_outcome.
  assert (0 ≤ gwei_to_wei (permanent_debt_allowed_gwei pt)).
  { unfold gwei_to_wei, WEIS_IN_GWEI. destruct Hs. lia. }
  destruct (deconstruct_spec (gwei_to_wei (permanent_debt_allowed_gwei pt))) as (hi & lo & E & Hdiv & Hj);
    [split; lia|].
  destruct (joined_inj hi lo 0 (gwei_to_wei (permanent_debt_allowed_gwei pt))) as [-> ->];
    [done|split; lia|unfold joined in *; lia|].
  rewrite E. run_outcome.
  rewrite checked_conversion_ok by (apply in_i64_true; destruct Hs; lia). run_outcome.
  rewrite to_time_t_ok by done. run_outcome.
  rewrite sugg_and_grace_spec by done. run_outcome.
  rewrite (as_i64_range (- decline pt)) by (apply in_i64_true; lia). done.
Qed.

(** The two functions of the query on the line that falls from the threshold. *)
Lemma slope_drop_spec pt time :
  exact_thresholds pt → 0 < time < 2 ^ 63 →
  ∃ hi lo, divided hi lo ∧ joined hi lo = gwei_to_wei (debt_threshold_gwei pt) - decline pt * time ∧
    sql_function (slope_drop_high_bytes (SqlInteger (debt_threshold_gwei pt)) (SqlInteger (- decline pt)) (SqlInteger time))
      = Ret hi ∧
    sql_function (slope_drop_low_bytes (SqlInteger (debt_threshold_gwei pt)) (SqlInteger (- decline pt)) (SqlInteger time))
      = Ret lo.
Proof.
  intros Hpt Htime. pose proof Hpt as [Hs Hd Hp Hdec Hg _].
  pose proof (decline_bounds pt Hs) as [Hdb _]. pose proof (sound_order pt Hs).
  assert (0 ≤ gwei_to_wei (debt_threshold_gwei pt) < 2 ^ 94).
  { unfold gwei_to_wei, WEIS_IN_GWEI. destruct Hs. lia. }
  assert (0 ≤ decline pt * time ≤ 2 ^ 63 * (2 ^ 63 - 1)) by nia.
  set (num := gwei_to_wei (debt_threshold_gwei pt) - decline pt * time).
  destruct (deconstruct_spec num) as (hi & lo & E & Hdiv & Hj); [unfold num; split; lia|].
  assert (common_arg_distillation (SqlInteger (debt_threshold_gwei pt)) (SqlInteger (- decline pt))
            (SqlInteger time) = Ok num) as Hnum.
  { unfold common_arg_distillation. cbn [get_i64_from_args].
    rewrite (proj2 (Z.ltb_lt (- decline pt) 0)), (proj2 (Z.ltb_lt 0 time)) by lia.
    replace (- decline pt * time) with (- (decline pt * time)) by lia.
    rewrite (as_i128_range (- _)), as_i128_range by lia. by rewrite Z.add_opp_r. }
  exists hi, lo. split; [done|]. split; [done|]. unfold slope_drop_high_bytes, slope_drop_low_bytes.
  rewrite !Hnum. unfold deconstruct in E. destruct (deconstruct_high_bytes num); [|done].
  injection E as <- <-. done.
Qed.

Lemma newly_delinquent_spec pt now banned r :
  exact_thresholds pt → time_ok now → receivable_row_ok r →
  ∃ p, delinquency_params now pt = Ret p ∧
    newly_delinquent p banned r =
      Ret (delinquent pt now (claim_of_row r) && bool_decide (rr_wallet_address r ∉ banned)).
Proof.
  intros Hpt Ht [Hdiv Htr]. eexists. split; [by apply delinquency_params_spec|].
  unfold newly_delinquent, delinquent, overdue.
  cbn [dq_sugg_and_grace dq_debt_threshold dq_slope dq_permanent_debt_allowed_high_b
       dq_permanent_debt_allowed_low_b claim_since claim_wei claim_of_row].
  set (sg := now - maturity_threshold_sec pt - payment_grace_period_sec pt).
  set (time := sg - rr_last_received_timestamp r).
  pose proof Hpt as [Hs Hd Hp Hdec Hg _]. pose proof (sound_order pt Hs).
  assert (0 ≤ maturity_threshold_sec pt) by apply Hs. destruct Ht as [Ht1 Ht2], Htr as [Htr1 Htr2].
  destruct (Z.ltb_spec (rr_last_received_timestamp r) sg).
  2:{ by rewrite (proj2 (Z.ltb_ge 0 time)) by lia. }
  assert (0 < time < 2 ^ 63) as Htime by lia. rewrite (proj2 (Z.ltb_lt 0 time)) by lia.
  unfold sql_sum. fold time. rewrite (proj2 (in_i64_true time)) by lia.
  destruct (slope_drop_spec pt time Hpt Htime) as (hi & lo & Hd2 & Hj2 & Ehi & Elo).
  rewrite Ehi. run_outcome. rewrite Elo. run_outcome. f_equal.
  fold (divided_gtb (rr_balance_high_b r) (rr_balance_low_b r) hi lo).
  assert (0 ≤ gwei_to_wei (permanent_debt_allowed_gwei pt)).
  { unfold gwei_to_wei, WEIS_IN_GWEI. destruct Hs. lia. }
  fold (divided_gtb (rr_balance_high_b r) (rr_balance_low_b r) 0 (gwei_to_wei (permanent_debt_allowed_gwei pt))).
  rewrite !joined_gt by (first [done|split; lia]). rewrite Hj2.
  unfold joined at 2. by rewrite Z.mul_0_l, Z.add_0_l.
Qed.

Definition account_of_row (r : ReceivableRow) : ReceivableAccount :=
  mkReceivableAccount (WalletAddress (rr_wallet_address r)) (joined (rr_balance_high_b r) (rr_balance_low_b r))
    (rr_last_received_timestamp r).

Lemma create_receivable_account_spec r :
  receivable_row_ok r → create_receivable_account r = Ret (account_of_row r).
Proof.
  intros [Hd Ht]. unfold create_receivable_account. rewrite reconstitute_spec by done. run_outcome.
  by rewrite from_time_t_ok.
Qed.

(** The search finds exactly the delinquent debtors that are not banned. *)
Lemma new_delinquencies_spec now pt c P :
  works h c → receivables_ok (receivable (tables c)) → exact_thresholds pt → time_ok now →
  (∀ c', works h c' → tables c' = tables c →
     P (account_of_row <$> sql_select (λ r, delinquent pt now (claim_of_row r) &&
          bool_decide (rr_wallet_address r ∉ banned (tables c))) (receivable (tables c))) c' []) →
  endures h (new_delinquencies now pt) c P.
Proof.
  intros Hw Hok Hpt Ht HP. unfold new_delinquencies.
  end_step. end_step. rewrite delinquency_params_spec by done. cbn [returns].
  end_step. apply endures_query_or_panic; [done|]. intros c' Hw' E'. cbn beta iota.
  end_step. end_step.
  rewrite (filter_outcome_select _ (λ r, delinquent pt now (claim_of_row r) &&
    bool_decide (rr_wallet_address r ∉ banned (tables c)))).
  2:{ intros r Hr. destruct (newly_delinquent_spec pt now (banned (tables c)) r) as (p & Ep & En);
        [done|done|by apply (receivables_ok_row _ _ Hok)|].
      rewrite delinquency_params_spec in Ep by done. injection Ep as <-. done. }
  cbn [returns]. end_step. rewrite (map_outcome_ret _ account_of_row).
  2:{ intros r Hr. apply create_receivable_account_spec.
      apply (receivables_ok_row _ _ Hok). by apply elem_of_sql_select in Hr as [_ ?]. }
  cbn [returns app]. by apply HP.
Qed.

Definition reformed (pt : PaymentThresholds) (cl : Claim) : bool :=
  claim_wei cl <=? gwei_to_wei (unban_below_gwei pt).

(** The search for banned debtors that have paid. *)
Lemma paid_delinquencies_spec pt c P :
  works h c → receivables_ok (receivable (tables c)) → exact_thresholds pt →
  (∀ c', works h c' → tables c' = tables c →
     P (account_of_row <$> sql_select (λ r, bool_decide (rr_wallet_address r ∈ banned (tables c)) &&
          reformed pt (claim_of_row r)) (receivable (tables c))) c' []) →
  endures h (paid_delinquencies pt) c P.
Proof.
  intros Hw Hok Hpt HP. unfold paid_delinquencies. pose proof Hpt as [_ _ _ _ _ Hu].
  destruct (deconstruct_spec (unban_below_gwei pt * WEIS_IN_GWEI)) as (hi & lo & E & Hdiv & Hj);
    [unfold WEIS_IN_GWEI; split; lia|].
  end_step. end_step. rewrite E. cbn [returns mret outcome_ret].
  end_step. apply endures_query_or_panic; [done|]. intros c' Hw' E'. cbn beta iota. end_step.
  rewrite (sql_select_ext _ (λ r, bool_decide (rr_wallet_address r ∈ banned (tables c)) &&
    reformed pt (claim_of_row r))).
  2:{ intros r Hr. unfold paid_delinquent, reformed. f_equal. rewrite (Z.eqb_sym _ hi).
      fold (divided_geb hi lo (rr_balance_high_b r) (rr_balance_low_b r)).
      rewrite joined_ge, Hj by (try done; by apply (receivables_ok_row _ _ Hok)). done. }
  rewrite (map_outcome_ret _ account_of_row).
  2:{ intros r Hr. apply create_receivable_account_spec.
      apply (receivables_ok_row _ _ Hok). by apply elem_of_sql_select in Hr as [_ ?]. }
  cbn [returns app]. by apply HP.
Qed.
End ClaimFacts.

(** ** Bans *)

(** The cache holds what the table holds. *)
Record bans_ok (b : Books) : Prop := {
  bans_unique : NoDup (banned b);
  bans_cached w : w ∈ ban_cache b ↔ w ∈ WalletAddress <$> banned b
}.

(** Books that differ in the bans at most. *)
Definition rebanned (b b' : Books) : Prop :=
  payable b' = payable b ∧ pending_payable b' = pending_payable b ∧ receivable b' = receivable b ∧
  config b' = config b.

#[export] Instance rebanned_po : PreOrder rebanned.
Proof.
  split; [done|]. unfold rebanned. intros b1 b2 b3 (? & ? & ? & ?) (? & ? & ? & ?).
  split_and!; by etrans.
Qed.

Section BanFacts.
Context `{Signatures} (h : Prop).
Implicit Types (c : Conn Books).

Lemma address_of_address a : as_address_wallet (WalletAddress a) = Ret (WalletAddress a).
Proof. done. Qed.

Lemma endures_cache_is_banned c a P :
  bans_ok (tables c) → P (bool_decide (a ∈ banned (tables c))) c [] →
  endures h (cache_is_banned (WalletAddress a)) c P.
Proof.
  intros [_ Hc] HP. unfold cache_is_banned. end_step. end_step. rewrite address_of_address. cbn [returns].
  end_step. erewrite bool_decide_ext; [exact HP|]. rewrite Hc. set_solver.
Qed.

Lemma ban_spec c a P :
  works h c → bans_ok (tables c) →
  (∀ c', works h c' → bans_ok (tables c') → rebanned (tables c) (tables c') →
     (∀ x, x ∈ banned (tables c') ↔ x ∈ banned (tables c) ∨ x = a) → P tt c' []) →
  endures h (ban (WalletAddress a)) c P.
Proof.
  intros Hw Hok HP. unfold ban. end_step. apply endures_cache_is_banned; [done|].
  case_bool_decide as Hin; cbn [app].
  { end_step. apply HP; [done|done|done|]. set_solver. }
  end_step. end_step. cbn [wallet_address returns mret outcome_ret].
  end_step. apply endures_sql_execute; [done| |intros Hh c' E; by apply endures_panic].
  rewrite decide_False by done. intros c' Hw' E'. cbn beta iota.
  unfold cache_insert. end_step. end_step. rewrite address_of_address. cbn [returns]. end_step.
  rewrite E'. cbn [ban_cache set_banned app].
  rewrite decide_False by (rewrite (bans_cached _ Hok); set_solver).
  destruct Hok as [Hnd Hc]. apply HP; [by intros ?; apply Hw'| |done|set_solver].
  split; cbn [tables banned ban_cache set_ban_cache set_banned].
  - apply NoDup_app. split; [done|]. split; [set_solver|apply NoDup_singleton].
  - intros w. rewrite elem_of_cons, Hc, fmap_app. set_solver.
Qed.

Lemma unban_spec c a P :
  works h c → bans_ok (tables c) →
  (∀ c', works h c' → bans_ok (tables c') → rebanned (tables c) (tables c') →
     (∀ x, x ∈ banned (tables c') ↔ x ∈ banned (tables c) ∧ x ≠ a) → P tt c' []) →
  endures h (unban (WalletAddress a)) c P.
Proof.
  intros Hw Hok HP. unfold unban. end_step. apply endures_cache_is_banned; [done|].
  case_bool_decide as Hin; cbn [app].
  2:{ end_step. apply HP; [done|done|done|]. set_solver. }
  end_step. end_step. cbn [wallet_address returns mret outcome_ret].
  end_step. apply endures_sql_execute; [done| |intros Hh c' E; by apply endures_panic].
  intros c' Hw' E'. cbn beta iota. destruct Hok as [Hnd Hc].
  unfold cache_remove. end_step. end_step. rewrite address_of_address. cbn [returns]. end_step.
  rewrite E'. cbn [ban_cache set_banned app].
  assert (∀ x, x ∈ filter (λ r, bool_decide (r = a) = false) (banned (tables c)) ↔ x ∈ banned (tables c) ∧ x ≠ a)
    as Hrest by (intros x; rewrite list_elem_of_filter, bool_decide_eq_false; tauto).
  apply HP; [by intros ?; apply Hw'| |done|apply Hrest].
  split; cbn [tables banned ban_cache set_ban_cache set_banned].
  - by apply NoDup_filter.
  - intros w. rewrite list_elem_of_filter, Hc, !list_elem_of_fmap. setoid_rewrite Hrest. naive_solver.
Qed.
End BanFacts.
