(* ===== verification/FingerprintFacts.v ===== *)
(** * Payments under way

    What the operations of [pending_payable_dao.rs] do to the fingerprints of
    transactions, and how a debt is marked as being paid and later settled
    ([payable_dao.rs]). *)

From S2P Require Import Prelude.
From S2P Require Import Actor.
From S2P Require Import NodeAddr.
From S2P Require Import NodeRecord.
From S2P Require Import Cryptde.
From S2P Require Import Sql.
From S2P Require Import BigInt.
From S2P Require Import Thresholds.
From S2P Require Import ConfigStore.
From S2P Require Import AccountantDb.
From S2P Require Import AccountantDbFacts.

#[export] Instance FingerprintRow_eq_dec : EqDecision FingerprintRow.
Proof. solve_decision. Defined.

(** ** Fingerprints *)
Definition fingerprint_amount (r : FingerprintRow) : Z := joined (fr_amount_high_b r) (fr_amount_low_b r).

Record fingerprint_row_ok (r : FingerprintRow) : Prop := {
  fro_divided : divided (fr_amount_high_b r) (fr_amount_low_b r);
  fro_amount : 0 ≤ fingerprint_amount r;
  fro_time : time_ok (fr_payable_timestamp r);
  fro_rowid : 0 < fr_rowid r < 2 ^ 63
}.

(** The attempts are read as a [u16]. *)
Definition attempts_fit (r : FingerprintRow) : Prop := 0 ≤ fr_attempt r < 2 ^ 16.

Record fingerprints_ok (rows : list FingerprintRow) : Prop := {
  fo_rowids : NoDup (fr_rowid <$> rows);
  fo_hashes : NoDup (fr_transaction_hash <$> rows);
  fo_rows : Forall fingerprint_row_ok rows
}.

Definition fingerprint_view (r : FingerprintRow) : PendingPayableFingerprint :=
  mkFingerprint (fr_rowid r) (fr_payable_timestamp r) (fr_transaction_hash r) (fr_attempt r)
    (fingerprint_amount r) None.

Definition errorless (r : FingerprintRow) : bool := bool_decide (fr_process_error r = None).

Lemma fingerprints_ok_row rows r : fingerprints_ok rows → r ∈ rows → fingerprint_row_ok r.
Proof. intros [_ _ Hr] Hin. by eapply Forall_forall in Hr. Qed.

Lemma fingerprint_of_row_spec r :
  fingerprint_row_ok r → attempts_fit r → fingerprint_of_row r = Ret (fingerprint_view r).
Proof.
  intros [Hd Ha Ht _] [Hat1 Hat2]. unfold fingerprint_of_row.
  rewrite (proj2 (Z.ltb_ge _ _)), (proj2 (Z.leb_gt _ _)) by lia. cbn [orb].
  rewrite reconstitute_spec by done. run_outcome. fold (fingerprint_amount r).
  rewrite checked_conversion_ok.
  - run_outcome. by rewrite from_time_t_ok.
  - apply in_type_u128. pose proof (divided_storable _ _ Hd) as [_ ?].
    unfold fingerprint_amount in *. lia.
Qed.

(** *** Inserting *)
Lemma next_rowid_above rows r : r ∈ rows → fr_rowid r < next_rowid rows.
Proof.
  unfold next_rowid. induction rows as [|x rows IH]; [by intros ?%elem_of_nil|].
  cbn. intros [->|Hr]%elem_of_cons; [lia|]. specialize (IH Hr). lia.
Qed.

Lemma next_rowid_pos rows : 0 < next_rowid rows.
Proof. unfold next_rowid. induction rows; cbn in *; lia. Qed.

Lemma next_rowid_append rows r : fr_rowid r = next_rowid rows → next_rowid (rows ++ [r]) = next_rowid rows + 1.
Proof.
  intros E. enough (next_rowid rows ≤ fr_rowid r →
    foldr (λ r, Z.max (fr_rowid r)) 0 (rows ++ [r]) = Z.max (fr_rowid r) 0) as Hmax.
  { pose proof (next_rowid_pos rows). unfold next_rowid at 1. rewrite Hmax by lia. lia. }
  clear E. unfold next_rowid. induction rows as [|x rows IH]; intros Hle; [done|].
  cbn in *. rewrite IH by lia. lia.
Qed.

(** The rows that are inserted: the rowids follow one another. *)
Fixpoint new_fingerprints (rowid : Z) (values : list (Z * (Z * Z) * Z)) : list FingerprintRow :=
  match values with
  | [] => []
  | (hash, (high, low), time_t) :: values =>
      mkFingerprintRow rowid hash high low time_t 1 None :: new_fingerprints (rowid + 1) values
  end.

Lemma insert_fingerprints_spec values rows :
  NoDup values.*1.*1 → (∀ x, x ∈ values.*1.*1 → x ∉ fr_transaction_hash <$> rows) →
  insert_fingerprints values rows = Ok (rows ++ new_fingerprints (next_rowid rows) values).
Proof.
  revert rows. induction values as [|[[hash [hi lo]] t] values IH]; intros rows Hnd Hnew.
  { cbn. by rewrite app_nil_r. }
  cbn [insert_fingerprints new_fingerprints]. cbn in Hnd. apply NoDup_cons in Hnd as [Hx Hnd].
  rewrite bool_decide_eq_false_2 by (apply Hnew; cbn; left).
  rewrite IH.
  - rewrite next_rowid_append by done. by rewrite <-app_assoc.
  - done.
  - intros x Hin. rewrite fmap_app, not_elem_of_app. split; [apply Hnew; by right|].
    cbn. by intros ->%list_elem_of_singleton.
Qed.

Lemma new_fingerprints_rowids rowid values r :
  r ∈ new_fingerprints rowid values → rowid ≤ fr_rowid r < rowid + Z.of_nat (length values).
Proof.
  revert rowid. induction values as [|[[hash [hi lo]] t] values IH]; intros rowid; cbn [new_fingerprints length].
  { by intros ?%elem_of_nil. }
  intros [->|Hr]%elem_of_cons; [cbn; lia|]. specialize (IH _ Hr). lia.
Qed.

Lemma new_fingerprints_hashes rowid values : fr_transaction_hash <$> new_fingerprints rowid values = values.*1.*1.
Proof.
  revert rowid. induction values as [|[[hash [hi lo]] t] values IH]; intros rowid; [done|].
  cbn. f_equal. apply IH.
Qed.

Lemma new_fingerprints_NoDup rowid values : NoDup (fr_rowid <$> new_fingerprints rowid values).
Proof.
  revert rowid. induction values as [|[[hash [hi lo]] t] values IH]; intros rowid; [constructor|].
  cbn. constructor; [|apply IH].
  intros (r & E & Hr)%list_elem_of_fmap. apply new_fingerprints_rowids in Hr. cbn in E. lia.
Qed.

(** A row that an announced transaction leaves. *)
Record seeded (ts : Z) (ha : HashAndAmount) (r : FingerprintRow) : Prop := {
  seed_hash : fr_transaction_hash r = ha_hash ha;
  seed_amount : fingerprint_amount r = ha_amount ha;
  seed_time : fr_payable_timestamp r = ts;
  seed_attempt : fr_attempt r = 1;
  seed_errorless : fr_process_error r = None;
  seed_divided : divided (fr_amount_high_b r) (fr_amount_low_b r)
}.

Lemma values_clause_spec ts has :
  time_ok ts → (∀ ha, ha ∈ has → 0 ≤ ha_amount ha < 2 ^ 126) →
  ∃ values, values_clause_for_fingerprints_to_insert has ts = Ret values ∧
    values.*1.*1 = ha_hash <$> has ∧ ∀ rowid, Forall2 (seeded ts) has (new_fingerprints rowid values).
Proof.
  intros Ht Hhas. unfold values_clause_for_fingerprints_to_insert. rewrite to_time_t_ok by done. run_outcome.
  induction has as [|ha has IH]; [exists []; by repeat split|].
  destruct IH as (values & E & Eh & Hf); [intros; apply Hhas; by right|].
  assert (0 ≤ ha_amount ha < 2 ^ 126) as Hamt by (apply Hhas; left).
  destruct (deconstruct_spec (ha_amount ha)) as (hi & lo & Ed & Hd & Hj); [split; lia|].
  exists ((ha_hash ha, (hi, lo), ts) :: values). split_and!.
  - cbn [map_outcome]. rewrite checked_conversion_ok.
    + run_outcome. rewrite Ed. run_outcome. by rewrite E.
    + cbn. rewrite (proj2 (Z.leb_le _ _)), (proj2 (Z.ltb_lt _ _)) by lia. done.
  - cbn. by rewrite Eh.
  - intros rowid. cbn. constructor; [by split|apply Hf].
Qed.

Lemma list_filter_iff_in {A} (P Q : A → Prop) `{∀ x, Decision (P x), ∀ x, Decision (Q x)} (l : list A) :
  (∀ x, x ∈ l → P x ↔ Q x) → filter P l = filter Q l.
Proof.
  induction l as [|x l IH]; intros Hpq; [done|]. rewrite !filter_cons, IH by (intros; apply Hpq; by right).
  destruct (Hpq x (list_elem_of_here _ _)). repeat case_decide; tauto.
Qed.

Section FingerprintFacts.
Context `{Signatures} (h : Prop).
Implicit Types (c : Conn Books).

Lemma fingerprints_ok_append ts has rows rowid values :
  fingerprints_ok rows → time_ok ts → (∀ ha, ha ∈ has → 0 ≤ ha_amount ha < 2 ^ 126) →
  rowid = next_rowid rows → rowid + Z.of_nat (length values) ≤ 2 ^ 63 →
  NoDup (ha_hash <$> has) → (∀ ha, ha ∈ has → ha_hash ha ∉ fr_transaction_hash <$> rows) →
  values.*1.*1 = ha_hash <$> has → Forall2 (seeded ts) has (new_fingerprints rowid values) →
  fingerprints_ok (rows ++ new_fingerprints rowid values).
Proof.
  intros [Hr Hh Hrows] Ht Hhas -> Hmax Hnd Hnew Ev Hf. split.
  - rewrite fmap_app. apply NoDup_app. split; [done|]. split; [|apply new_fingerprints_NoDup].
    intros x (r & -> & Hin)%list_elem_of_fmap (r' & E & Hin')%list_elem_of_fmap.
    apply next_rowid_above in Hin. apply new_fingerprints_rowids in Hin'. lia.
  - rewrite fmap_app, new_fingerprints_hashes, Ev. apply NoDup_app. split; [done|]. split; [|done].
    intros x Hx (ha & -> & Hin)%list_elem_of_fmap. by apply (Hnew ha).
  - apply Forall_app. split; [done|]. apply Forall_forall. intros r Hin.
    pose proof (new_fingerprints_rowids _ _ _ Hin). pose proof (next_rowid_pos rows).
    apply list_elem_of_lookup in Hin as (i & Hi).
    destruct (Forall2_lookup_r _ _ _ _ _ Hf Hi) as (ha & Hha & [? Ea Et _ _ ?]).
    apply list_elem_of_lookup_2 in Hha. split; [done|rewrite Ea; by apply Hhas|by rewrite Et|lia].
Qed.

(** The transactions of a batch are recorded. *)
Lemma insert_new_fingerprints_spec c ts has P :
  works h c → fingerprints_ok (pending_payable (tables c)) → time_ok ts → has ≠ [] →
  (∀ ha, ha ∈ has → 0 ≤ ha_amount ha < 2 ^ 126) →
  NoDup (ha_hash <$> has) →
  (∀ ha, ha ∈ has → ha_hash ha ∉ fr_transaction_hash <$> pending_payable (tables c)) →
  next_rowid (pending_payable (tables c)) + Z.of_nat (length has) ≤ 2 ^ 63 →
  (∀ new c', works h c' → tables c' = set_pending_payable (pending_payable (tables c) ++ new) (tables c) →
     fingerprints_ok (pending_payable (tables c) ++ new) → Forall2 (seeded ts) has new → P (Ok tt) c' []) →
  (¬ h → ∀ c', tables c' = tables c → P (Err InsertionFailed) c' []) →
  endures h (insert_new_fingerprints has ts) c P.
Proof.
  intros Hw Hok Ht Hne Hhas Hnd Hnew Hmax HP HE. unfold insert_new_fingerprints.
  destruct (values_clause_spec ts has Ht Hhas) as (values & Ev & Eh & Hf).
  assert (length values = length has) as Hlen.
  { apply (f_equal length) in Eh. by rewrite !length_fmap in Eh. }
  end_step. end_step. rewrite Ev. cbn [returns]. rewrite decide_False by (intros ->; by destruct has).
  end_step. apply endures_sql_execute; [done| |intros Hh c' E; end_step; by apply HE].
  rewrite insert_fingerprints_spec.
  - intros c' Hw' E'. cbn beta iota. rewrite decide_True by done. end_step.
    eapply HP; [done|exact E'| |done]. by eapply fingerprints_ok_append; try done; rewrite Hlen.
  - by rewrite Eh.
  - rewrite Eh. by intros x (ha & -> & Hin)%list_elem_of_fmap; apply Hnew.
Qed.

(** *** Changing and deleting *)
Lemma selected_count ids rows :
  NoDup (fr_rowid <$> rows) → NoDup ids → (∀ i, i ∈ ids → i ∈ fr_rowid <$> rows) →
  length (sql_select (has_rowid ids) rows) = length ids.
Proof.
  intros Hr Hi Hin. rewrite <-(length_fmap fr_rowid). apply Permutation_length, NoDup_Permutation.
  - by apply NoDup_fmap_filter.
  - done.
  - intros x. rewrite list_elem_of_fmap. setoid_rewrite elem_of_sql_select. split.
    + intros (r & -> & Hx & _). by apply bool_decide_eq_true in Hx.
    + intros Hx. destruct (proj1 (list_elem_of_fmap _ _ _) (Hin x Hx)) as (r & -> & Hrow).
      exists r. split; [done|]. by split; [apply bool_decide_eq_true|].
Qed.

Lemma change_fingerprints_spec c ids st rows mismatch error P :
  works h c → st (pending_payable (tables c)) = Ok (length ids, rows) →
  (∀ c', works h c' → tables c' = set_pending_payable rows (tables c) → P (Ok tt) c' []) →
  (¬ h → ∀ c', tables c' = tables c → P (Err error) c' []) →
  endures h (change_fingerprints ids st mismatch error) c P.
Proof.
  intros Hw Est HP HE. unfold change_fingerprints. end_step.
  apply endures_sql_execute; [done| |intros Hh c' E; end_step; by apply HE].
  unfold on_table. rewrite Est. intros c' Hw' E'. cbn beta iota. rewrite decide_True by done. end_step. by apply HP.
Qed.

Definition retried (r : FingerprintRow) : FingerprintRow :=
  mkFingerprintRow (fr_rowid r) (fr_transaction_hash r) (fr_amount_high_b r) (fr_amount_low_b r)
    (fr_payable_timestamp r) (fr_attempt r + 1) (fr_process_error r).
Definition given_up (r : FingerprintRow) : FingerprintRow :=
  mkFingerprintRow (fr_rowid r) (fr_transaction_hash r) (fr_amount_high_b r) (fr_amount_low_b r)
    (fr_payable_timestamp r) (fr_attempt r) (Some "ERROR"%string).

Section Change.
Context (c : Conn Books) (ids : list Z) (P : result unit PendingPayableDaoError → Conn Books → list Empty_set → Prop).
Context (Hw : works h c) (Hok : fingerprints_ok (pending_payable (tables c))) (Hids : NoDup ids).
Context (Hin : ∀ i, i ∈ ids → i ∈ fr_rowid <$> pending_payable (tables c)).

Lemma delete_fingerprints_spec :
  (∀ c', works h c' →
     tables c' = set_pending_payable (sql_select (λ r, negb (has_rowid ids r)) (pending_payable (tables c))) (tables c) →
     P (Ok tt) c' []) →
  (¬ h → ∀ c', tables c' = tables c → P (Err RecordDeletion) c' []) →
  endures h (delete_fingerprints ids) c P.
Proof.
  intros HP HE. eapply change_fingerprints_spec; [done| |exact HP|done]. unfold sql_delete.
  fold (sql_select (has_rowid ids) (pending_payable (tables c))).
  rewrite selected_count by (done || apply Hok). do 2 f_equal.
  unfold sql_select. apply list_filter_iff. intros r. by rewrite negb_true_iff.
Qed.

Lemma increment_scan_attempts_spec :
  (∀ c', works h c' →
     tables c' = set_pending_payable ((λ r, if has_rowid ids r then retried r else r) <$> pending_payable (tables c))
                   (tables c) → P (Ok tt) c' []) →
  (¬ h → ∀ c', tables c' = tables c → P (Err UpdateFailed) c' []) →
  endures h (increment_scan_attempts ids) c P.
Proof.
  intros HP HE. eapply change_fingerprints_spec; [done| |exact HP|done].
  rewrite (sql_update_ok _ retried), selected_count by (done || apply Hok). done.
Qed.

Lemma mark_failures_spec :
  (∀ c', works h c' →
     tables c' = set_pending_payable ((λ r, if has_rowid ids r then given_up r else r) <$> pending_payable (tables c))
                   (tables c) → P (Ok tt) c' []) →
  (¬ h → ∀ c', tables c' = tables c → P (Err ErrorMarkFailed) c' []) →
  endures h (mark_failures ids) c P.
Proof.
  intros HP HE. eapply change_fingerprints_spec; [done| |exact HP|done].
  rewrite (sql_update_ok _ given_up), selected_count by (done || apply Hok). done.
Qed.
End Change.

(** *** Searching *)
Lemma fingerprints_rowids_spec c hashes P :
  works h c →
  (∀ c', works h c' → tables c' = tables c →
     P (mkTransactionHashes
          ((λ r, (fr_rowid r, fr_transaction_hash r)) <$>
             sql_select (λ r, bool_decide (fr_transaction_hash r ∈ hashes)) (pending_payable (tables c)))
          (filter (λ x, x ∉ fr_transaction_hash <$> pending_payable (tables c)) hashes)) c' []) →
  endures h (fingerprints_rowids hashes) c P.
Proof.
  intros Hw HP. unfold fingerprints_rowids. end_step. apply endures_query_or_panic; [done|].
  intros c' Hw' E'. end_step. cbn [app].
  erewrite (list_filter_iff_in _ (λ x, x ∉ fr_transaction_hash <$> pending_payable (tables c))); [by apply HP|].
  intros x Hx. rewrite <-list_fmap_compose. cbn. rewrite !list_elem_of_fmap. setoid_rewrite elem_of_sql_select.
  setoid_rewrite bool_decide_eq_true. naive_solver.
Qed.

Lemma return_all_errorless_fingerprints_spec c P :
  works h c → fingerprints_ok (pending_payable (tables c)) →
  (∀ r, r ∈ pending_payable (tables c) → errorless r = true → attempts_fit r) →
  (∀ c', works h c' → tables c' = tables c →
     P (fingerprint_view <$> sql_select errorless (pending_payable (tables c))) c' []) →
  endures h return_all_errorless_fingerprints c P.
Proof.
  intros Hw Hok Hfit HP. unfold return_all_errorless_fingerprints. end_step.
  apply endures_query_or_panic; [done|]. intros c' Hw' E'. end_step.
  fold errorless. rewrite (map_outcome_ret _ fingerprint_view); [by apply HP|].
  intros r [He Hr]%elem_of_sql_select. apply fingerprint_of_row_spec; [by eapply fingerprints_ok_row|by apply Hfit].
Qed.
End FingerprintFacts.

(** ** Debts in payment *)

(** The debts to the given addresses are being paid by the given transactions. *)
Definition mark_debts (ps : list (list Z * Z)) (L : gmap (list Z) Debt) : gmap (list Z) Debt :=
  map_imap (λ a d, Some match (list_to_map ps : gmap (list Z) Z) !! a with
                        | Some rowid => mkDebt (debt_wei d) (debt_since d) (Some rowid)
                        | None => d
                        end) L.

Lemma case_expression_spec ps a : case_expression ps a = (list_to_map ps : gmap (list Z) Z) !! a.
Proof.
  induction ps as [|[a' i] ps IH]; [done|]. cbn [case_expression list_to_map foldr].
  destruct (decide (a = a')) as [->|Hne]; [by rewrite lookup_insert_eq|]. by rewrite lookup_insert_ne.
Qed.

Definition with_rowid (rowid : Z) (r : PayableRow) : PayableRow :=
  mkPayableRow (pr_wallet_address r) (pr_balance_high_b r) (pr_balance_low_b r) (pr_last_paid_timestamp r) (Some rowid).

Definition marked_row (ps : list (list Z * Z)) (r : PayableRow) : PayableRow :=
  match (list_to_map ps : gmap (list Z) Z) !! pr_wallet_address r with
  | Some rowid => with_rowid rowid r
  | None => r
  end.

Lemma marked_row_address ps r : pr_wallet_address (marked_row ps r) = pr_wallet_address r.
Proof. unfold marked_row. by destruct (_ !! _). Qed.

Section Marking.
Context (rows : list PayableRow) (ps : list (list Z * Z)) (Hok : payables_ok rows).
Context (Ha : NoDup ps.*1) (Hi : NoDup ps.*2).
Context (Hps : ∀ a i, (a, i) ∈ ps →
  0 < i < 2 ^ 63 ∧ (∃ r, r ∈ rows ∧ pr_wallet_address r = a ∧ pr_pending_payable_rowid r = None) ∧
  ∀ r, r ∈ rows → pr_pending_payable_rowid r ≠ Some i).

Lemma marked_pair a i : (list_to_map ps : gmap (list Z) Z) !! a = Some i ↔ (a, i) ∈ ps.
Proof. symmetry. by apply elem_of_list_to_map. Qed.

Lemma marked_was_free r i : r ∈ rows → (pr_wallet_address r, i) ∈ ps → pr_pending_payable_rowid r = None.
Proof.
  intros Hr (_ & (r' & Hr' & E & Hnone) & _)%Hps.
  by rewrite <-(NoDup_fmap_inj_on _ _ r' r (po_keys _ Hok) Hr' Hr E).
Qed.

Lemma marking_updates :
  sql_update (mark_pending_where ps) (mark_pending_clause ps) rows = Ok (length ps, marked_row ps <$> rows).
Proof.
  rewrite (sql_update_total _ _ (marked_row ps)).
  - f_equal. f_equal.
    + rewrite <-(length_fmap pr_wallet_address), <-(length_fmap fst ps).
      apply Permutation_length, NoDup_Permutation; [by apply NoDup_fmap_filter, Hok|done|].
      intros a. rewrite list_elem_of_fmap. setoid_rewrite elem_of_sql_select. unfold mark_pending_where.
      setoid_rewrite andb_true_iff. setoid_rewrite bool_decide_eq_true. split.
      * by intros (r & -> & [_ Hin] & _).
      * intros Hin. pose proof Hin as ([a' i] & -> & Hp)%list_elem_of_fmap. cbn in *.
        destruct (Hps _ _ Hp) as (_ & (r & Hr & <- & Hnone) & _). by exists r.
    + apply list_fmap_ext. intros k r Hk%list_elem_of_lookup_2.
      unfold mark_pending_where, marked_row. destruct (_ !! _) as [i|] eqn:E; [|by destruct (_ && _)].
      apply marked_pair in E. rewrite (marked_was_free r i) by done.
      rewrite (bool_decide_eq_true_2 (_ ∈ ps.*1)); [done|]. by apply (list_elem_of_fmap_2 fst _ (_, i)).
  - intros r Hr [Hnone Hin]%andb_true_iff. unfold mark_pending_clause, marked_row. rewrite case_expression_spec.
    destruct (_ !! _) as [i|] eqn:E; [|done]. apply marked_pair in E.
    rewrite strict_sum, (proj2 (in_i64_true i)) by (destruct (Hps _ _ E); lia). done.
Qed.

Lemma marking_rowids_distinct : NoDup (omap pr_pending_payable_rowid (marked_row ps <$> rows)).
Proof.
  destruct Hok as [Hk Hp _]. assert (∀ r, r ∈ rows → r ∈ rows) as Hsub by done. revert Hsub Hk Hp.
  generalize rows at 1 3 4 5. intros l. induction l as [|r l IH]; intros Hsub Hk Hp; [constructor|].
  cbn in Hk. apply NoDup_cons in Hk as [Hrk Hk].
  assert (NoDup (omap pr_pending_payable_rowid l)) as Hl.
  { eapply sublist_NoDup; [exact Hp|]. cbn. destruct (pr_pending_payable_rowid r); [by apply sublist_cons|done]. }
  specialize (IH (λ r Hr, Hsub r (list_elem_of_further _ _ _ Hr)) Hk Hl). cbn.
  destruct (pr_pending_payable_rowid (marked_row ps r)) as [i|] eqn:Ei; [|done]. constructor; [|done].
  intros (r' & Hr' & Ei')%list_elem_of_omap. apply list_elem_of_fmap in Hr' as (r2 & -> & Hr2).
  assert (r ∈ rows ∧ r2 ∈ rows) as [Hr Hr2'] by (split; apply Hsub; [left|by right]).
  unfold marked_row in Ei, Ei'.
  destruct (_ !! pr_wallet_address r) as [i1|] eqn:E1, (_ !! pr_wallet_address r2) as [i2|] eqn:E2; cbn in Ei, Ei';
    simplify_eq; try apply marked_pair in E1; try apply marked_pair in E2.
  - apply Hrk. apply list_elem_of_fmap. exists r2. split; [|done].
    exact (f_equal fst (NoDup_fmap_inj_on snd ps _ _ Hi E1 E2 eq_refl)).
  - destruct (Hps _ _ E1) as (_ & _ & Hfree). by apply (Hfree r2).
  - destruct (Hps _ _ E2) as (_ & _ & Hfree). by apply (Hfree r).
  - cbn in Hp. rewrite Ei in Hp. apply NoDup_cons in Hp as [Hnot _]. apply Hnot.
    apply list_elem_of_omap. by exists r2.
Qed.

Lemma marking_ok : payables_ok (marked_row ps <$> rows) ∧ debts (marked_row ps <$> rows) = mark_debts ps (debts rows).
Proof.
  split; [split|].
  - rewrite <-list_fmap_compose. erewrite list_fmap_ext; [apply Hok|]. intros k r _. apply marked_row_address.
  - apply marking_rowids_distinct.
  - apply Forall_fmap, (Forall_impl _ _ _ (po_rows _ Hok)). intros r [? ?]. unfold compose, marked_row.
    by destruct (_ !! _).
  - apply table_map_update; [apply Hok|apply marked_row_address|]. intros r _. unfold marked_row.
    by destruct (_ !! _).
Qed.
End Marking.

(** A debt to [a] that the transaction of a fingerprint pays. *)
Definition in_payment (L : gmap (list Z) Debt) (a : list Z) (fgp : PendingPayableFingerprint) : Prop :=
  ∃ d, L !! a = Some d ∧ debt_payment d = Some (fgp_rowid fgp) ∧ fgp_amount fgp ≤ debt_wei d.

Definition settle_debts (paid : list (list Z * PendingPayableFingerprint)) (L : gmap (list Z) Debt) :
    gmap (list Z) Debt :=
  foldl (λ L '(a, fgp), settle_debt a (fgp_timestamp fgp) (fgp_amount fgp) L) L paid.

Section PaymentFacts.
Context `{Signatures} (h : Prop).
Implicit Types (c : Conn Books).

Lemma mark_pending_payables_rowids_spec c l ps P :
  works h c → payables_ok (payable (tables c)) → ps ≠ [] →
  map_outcome (λ '(w, rowid), a ← wallet_address w; mret (a, rowid)) l = Ret ps → length l = length ps →
  NoDup ps.*1 → NoDup ps.*2 →
  (∀ a i, (a, i) ∈ ps → 0 < i < 2 ^ 63 ∧
     (∃ d, debts (payable (tables c)) !! a = Some d ∧ debt_payment d = None) ∧
     ∀ a' d, debts (payable (tables c)) !! a' = Some d → debt_payment d ≠ Some i) →
  (∀ rows c', works h c' → tables c' = set_payable rows (tables c) → payables_ok rows →
     debts rows = mark_debts ps (debts (payable (tables c))) → P (Ok tt) c' []) →
  (¬ h → ∀ c', tables c' = tables c → P (Err PayableRusqliteError) c' []) →
  endures h (mark_pending_payables_rowids l) c P.
Proof.
  intros Hw Hok Hne El Hlen Ha Hi Hps HP HE. unfold mark_pending_payables_rowids.
  rewrite decide_False by (intros ->; by destruct ps).
  end_step. end_step. rewrite El. cbn [returns]. end_step.
  assert (∀ a i, (a, i) ∈ ps → 0 < i < 2 ^ 63 ∧
    (∃ r, r ∈ payable (tables c) ∧ pr_wallet_address r = a ∧ pr_pending_payable_rowid r = None) ∧
    ∀ r, r ∈ payable (tables c) → pr_pending_payable_rowid r ≠ Some i) as Hrows.
  { intros a i Hin. destruct (Hps a i Hin) as (Hb & (d & Hd & Hnone) & Hfree). split; [done|]. split.
    - apply table_map_Some in Hd as (r & Hr & Hra & <-); [|apply Hok]. by exists r.
    - intros r Hr E. apply (Hfree (pr_wallet_address r) (debt_of_row r)); [|done].
      apply table_map_Some; [apply Hok|]. by exists r. }
  apply endures_sql_execute; [done| |intros Hh c' E; end_step; by apply HE].
  unfold on_table. rewrite marking_updates by done. intros c' Hw' E'. cbn beta iota.
  rewrite decide_True by done. end_step.
  destruct (marking_ok (payable (tables c)) ps Hok Ha Hi Hrows) as [Hok' Hd']. by eapply HP.
Qed.

(** Confirmed transactions settle the debts that they pay. *)
Lemma transactions_confirmed_settle c paid P :
  works h c → payables_ok (payable (tables c)) →
  NoDup (fgp_rowid <$> paid.*2) →
  (∀ a fgp, (a, fgp) ∈ paid → in_payment (debts (payable (tables c))) a fgp ∧
     0 < fgp_rowid fgp < 2 ^ 63 ∧ time_ok (fgp_timestamp fgp) ∧ 0 ≤ fgp_amount fgp) →
  (∀ rows c', works h c' → tables c' = set_payable rows (tables c) → payables_ok rows →
     debts rows = settle_debts paid (debts (payable (tables c))) → P (Ok tt) c' []) →
  (¬ h → ∀ c', P (Err PayableRusqliteError) c' []) →
  endures h (transactions_confirmed paid.*2) c P.
Proof.
  revert c P. induction paid as [|[a fgp] paid IH]; intros c P Hw Hok Hnd Hpaid HP HE.
  { apply (endures_ret h (Ok tt)). by apply (HP (payable (tables c))); [|destruct (tables c)| |]. }
  cbn [fmap list_fmap snd transactions_confirmed] in *. apply NoDup_cons in Hnd as [Hnew Hnd].
  destruct (Hpaid a fgp (list_elem_of_here _ _)) as ((d & Hd & Hrow & Hle) & Hid & Ht & Hamt).
  pose proof Hd as (r & Hr & <- & <-)%table_map_Some; [|apply Hok].
  pose proof (divided_storable _ _ (pro_divided _ (payables_ok_row _ _ Hok Hr))) as Hst.
  cbn in Hrow, Hle. unfold storable in Hst.
  end_step. apply (transaction_confirmed_settles h c fgp r); try done.
  { apply in_i64_true. lia. } { lia. } { unfold storable, debt_of_row. cbn. lia. }
  2:{ intros Hh c' _. end_step. by apply HE. }
  intros rows c1 Hw1 E1 Hok1 Hd1. apply IH; [done|by rewrite E1|done| | |done].
  - intros a' fgp' Hin. destruct (Hpaid a' fgp' (list_elem_of_further _ _ _ Hin)) as ((d' & Hd' & Hrow' & Hle') & Hrest).
    split; [|done]. exists d'. split; [|done]. rewrite E1. cbn [payable set_payable]. rewrite Hd1.
    unfold settle_debt. rewrite lookup_alter_ne; [done|]. intros <-. apply Hnew.
    rewrite Hd in Hd'. simplify_eq. cbn in Hrow'. rewrite Hrow in Hrow'. injection Hrow' as ->.
    apply list_elem_of_fmap_2. by apply (list_elem_of_fmap_2 snd _ (pr_wallet_address r, fgp')).
  - intros rows' c2 Hw2 E2 Hok2 Hd2. eapply (HP rows'); [done|by rewrite E2, E1|done|].
    rewrite Hd2, E1. cbn [payable set_payable]. by rewrite Hd1.
Qed.
End PaymentFacts.
