(* ===== verification/FinancialQueries.v ===== *)
(** * Reports about the accounts

    Models what the user is told about the accounts: [CustomQuery] and the conversions of
    [node/src/accountant/db_access_objects/utils.rs], the [custom_query] methods of
    [payable_dao.rs] and [receivable_dao.rs], the checks of
    [node/src/accountant/financials.rs] and the functions from [compute_financials] to
    [process_queries_of_records] of [node/src/accountant/mod.rs], with the messages of
    [pulsemesh_lib/src/messages.rs].

    Rows that an [order by] clause does not tell apart come in some order of the engine;
    here it is the one that sorting leaves them in. *)

From S2P Require Import Prelude.
From S2P Require Import Actor.
From S2P Require Import NodeAddr.
From S2P Require Import NodeRecord.
From S2P Require Import Cryptde.
From S2P Require Import Sql.
From S2P Require Import BigInt.
From S2P Require Import Thresholds.
From S2P Require Import ConfigStore.
From S2P Require Import AccountantDb.

(** ** Messages *)
Inductive TopRecordsOrdering := ByAge | ByBalance.
Record TopRecordsConfig := mkTopRecords { top_count : Z; top_ordered_by : TopRecordsOrdering }.

Record RangeQuery := mkRangeQuery {
  rq_min_age_s : Z;
  rq_max_age_s : Z;
  rq_min_amount_gwei : Z;
  rq_max_amount_gwei : Z
}.

Record CustomQueries := mkCustomQueries { cq_payable_opt : option RangeQuery; cq_receivable_opt : option RangeQuery }.

Record UiFinancialsRequest := mkFinancialsRequest {
  stats_required : bool;
  top_records_opt : option TopRecordsConfig;
  custom_queries_opt : option CustomQueries
}.

(** Wallets and hashes are written as text; here they are the bytes and the number. *)
Record UiPayableAccount := mkUiPayable {
  up_wallet : list Z;
  up_age_s : Z;
  up_balance_gwei : Z;
  up_pending_payable_hash_opt : option Z
}.
Record UiReceivableAccount := mkUiReceivable { ur_wallet : list Z; ur_age_s : Z; ur_balance_gwei : Z }.

Record UiFinancialStatistics := mkUiStatistics {
  total_unpaid_and_pending_payable_gwei : Z;
  total_paid_payable_gwei : Z;
  total_unpaid_receivable_gwei : Z;
  total_paid_receivable_gwei : Z
}.

Record QueryResults := mkQueryResults {
  qr_payable_opt : option (list UiPayableAccount);
  qr_receivable_opt : option (list UiReceivableAccount)
}.

Record UiFinancialsResponse := mkFinancialsResponse {
  stats_opt : option UiFinancialStatistics;
  query_results_opt : option QueryResults
}.

(** The error payloads of the reports; the texts are left out. *)
Inductive FinancialsError :=
| RequestWithNoValues
| RequestWithMutuallyExclusiveParams
| ValueExceedsAllowedLimit (param_name : string).

Record FinancialStatistics := mkStatistics { total_paid_payable_wei : Z; total_paid_receivable_wei : Z }.

(** ** [CustomQuery] *)
Inductive CustomQuery :=
| TopRecords (count : Z) (ordered_by : TopRecordsOrdering)
| CustomRange (min_age_s max_age_s min_amount_gwei max_amount_gwei timestamp : Z).

Definition custom_query_from_top (c : TopRecordsConfig) : CustomQuery :=
  TopRecords (top_count c) (top_ordered_by c).
Definition custom_query_from_range (now : Z) (q : RangeQuery) : CustomQuery :=
  CustomRange (rq_min_age_s q) (rq_max_age_s q) (rq_min_amount_gwei q) (rq_max_amount_gwei q) now.

(** The parameters [:min_timestamp] and [:max_timestamp] *)
Definition set_age_constraints (min_age max_age timestamp : Z) : outcome (Z * Z) :=
  now ← to_time_t timestamp;
  max_age ← checked_conversion I64 max_age;
  min_age ← checked_conversion I64 min_age;
  mret (as_i64 (now - max_age), as_i64 (now - min_age)).

(** The columns of the smallest and of the largest amount *)
Definition set_wei_constraints (min_amount max_amount : Z) : outcome ((Z * Z) * (Z * Z)) :=
  min_b ← deconstruct (min_amount * WEIS_IN_GWEI);
  max_b ← deconstruct (max_amount * WEIS_IN_GWEI);
  mret (min_b, max_b).

(** ** Selection and order, for rows with the columns of a balance and a time *)
Section Select.
Context {R : Type} (cols : R → Z * Z) (time : R → Z).

(** [(balance_high_b > 0) or ((balance_high_b = 0) and (balance_low_b >= 1000000000))] *)
Definition at_least_one_gwei (r : R) : bool :=
  (0 <? (cols r).1) || (((cols r).1 =? 0) && (1000000000 <=? (cols r).2)).

(** [(balance_high_b < -1) or ((balance_high_b = -1) and (balance_low_b <= 9223372035854775807))] *)
Definition below_minus_one_gwei (r : R) : bool :=
  ((cols r).1 <? -1) || (((cols r).1 =? -1) && ((cols r).2 <=? 9223372035854775807)).

(** The [where] clause of a range *)
Definition in_range (ages : Z * Z) (amounts : (Z * Z) * (Z * Z)) (r : R) : bool :=
  (time r <=? ages.2) && (ages.1 <=? time r)
  && divided_geb (cols r).1 (cols r).2 amounts.1.1 amounts.1.2
  && divided_geb amounts.2.1 amounts.2.2 (cols r).1 (cols r).2.

(** [balance_high_b desc, balance_low_b desc, time asc] and [time asc, balance_high_b desc,
    balance_low_b desc] *)
Definition balance_first (r1 r2 : R) : Prop :=
  divided_gtb (cols r1).1 (cols r1).2 (cols r2).1 (cols r2).2 = true ∨
  cols r1 = cols r2 ∧ time r1 ≤ time r2.
Definition age_first (r1 r2 : R) : Prop :=
  time r1 < time r2 ∨
  time r1 = time r2 ∧ divided_geb (cols r1).1 (cols r1).2 (cols r2).1 (cols r2).2 = true.

#[export] Instance balance_first_dec r1 r2 : Decision (balance_first r1 r2).
Proof. unfold balance_first. apply _. Defined.
#[export] Instance age_first_dec r1 r2 : Decision (age_first r1 r2).
Proof. unfold age_first. apply _. Defined.

Definition order_top (ordered_by : TopRecordsOrdering) (rows : list R) : list R :=
  match ordered_by with
  | ByAge => merge_sort age_first rows
  | ByBalance => merge_sort balance_first rows
  end.

(** [CustomQuery::query], up to the conversion of the rows *)
Definition query_rows (range_resolution : R → bool) (q : CustomQuery) (rows : list R) : outcome (list R) :=
  match q with
  | TopRecords count ordered_by =>
      mret (take (Z.to_nat count) (order_top ordered_by (sql_select at_least_one_gwei rows)))
  | CustomRange min_age max_age min_amount max_amount timestamp =>
      ages ← set_age_constraints min_age max_age timestamp;
      amounts ← set_wei_constraints min_amount max_amount;
      mret (merge_sort balance_first
              (sql_select (λ r, in_range ages amounts r && range_resolution r) rows))
  end.
End Select.

Definition non_empty {A} (l : list A) : option (list A) := match l with [] => None | _ => Some l end.

(** ** [custom_query] of the debts: joined with the transactions under way *)
Definition pending_hash (fingerprints : list FingerprintRow) (rowid : Z) : option Z :=
  fr_transaction_hash <$> head (sql_select (λ f, bool_decide (fr_rowid f = rowid)) fingerprints).

Definition create_payable_account (fingerprints : list FingerprintRow) (r : PayableRow) : outcome PayableAccount :=
  balance ← reconstitute (pr_balance_high_b r) (pr_balance_low_b r);
  balance_wei ← checked_conversion U128 balance;
  pending ← match pr_pending_payable_rowid r with
            | None => mret None
            | Some rowid =>
                hash ← expect (pending_hash fingerprints rowid) "database corrupt; missing hash but existing rowid";
                mret (Some (mkPendingId rowid hash))
            end;
  mret (mkPayableAccount (WalletAddress (pr_wallet_address r)) balance_wei
          (from_time_t (pr_last_paid_timestamp r)) pending).

Definition payable_custom_query (q : CustomQuery) : books (option (list PayableAccount)) :=
  '(rows, fingerprints) ← sql_query_or_panic (λ b, (payable b, pending_payable b)) "database corrupt";
  rows ← lift (query_rows payable_columns pr_last_paid_timestamp (at_least_one_gwei payable_columns) q rows);
  accounts ← lift (map_outcome (create_payable_account fingerprints) rows);
  mret (non_empty accounts).

(** ** [custom_query] of the claims *)
Definition receivable_resolution (r : ReceivableRow) : bool :=
  at_least_one_gwei receivable_columns r || below_minus_one_gwei receivable_columns r.

Definition receivable_custom_query (q : CustomQuery) : books (option (list ReceivableAccount)) :=
  rows ← sql_query_or_panic receivable "database corrupt";
  rows ← lift (query_rows receivable_columns rr_last_received_timestamp receivable_resolution q rows);
  accounts ← lift (map_outcome create_receivable_account rows);
  mret (non_empty accounts).

(** ** The form for the user *)
Definition to_age (now timestamp : Z) : outcome Z :=
  n ← to_time_t now; t ← to_time_t timestamp; mret (u64 (as_i64 (n - t))).

Section Remap.
Context `{Signatures}.

Definition remap_payable_account (now : Z) (account : PayableAccount) : outcome UiPayableAccount :=
  wallet ← wallet_address (pa_wallet account);
  age ← to_age now (pa_last_paid_timestamp account);
  let gwei := u64 (pa_balance_wei account `quot` WEIS_IN_GWEI) in
  if 0 <? gwei
  then mret (mkUiPayable wallet age gwei (pid_hash <$> pa_pending_payable_opt account))
  else Panic "Broken code: PayableAccount with less than 1 gwei passed through db query constraints".

Definition remap_receivable_account (now : Z) (account : ReceivableAccount) : outcome UiReceivableAccount :=
  wallet ← wallet_address (ra_wallet account);
  age ← to_age now (ra_last_received_timestamp account);
  let gwei := as_i64 (ra_balance_wei account `quot` WEIS_IN_GWEI) in
  if gwei =? 0
  then Panic "Broken code: ReceivableAccount with balance between 1 or -1 and 0 gwei passed through db query constraints"
  else mret (mkUiReceivable wallet age gwei).

Definition remap_opt {A B} (f : A → outcome B) (o : option (list A)) : outcome (option (list B)) :=
  match o with None => mret None | Some l => l ← map_outcome f l; mret (Some l) end.

Definition request_payable_accounts_by_specific_mode (now : Z) (mode : CustomQuery) :
    books (option (list UiPayableAccount)) :=
  accounts ← payable_custom_query mode; lift (remap_opt (remap_payable_account now) accounts).

Definition request_receivable_accounts_by_specific_mode (now : Z) (mode : CustomQuery) :
    books (option (list UiReceivableAccount)) :=
  accounts ← receivable_custom_query mode; lift (remap_opt (remap_receivable_account now) accounts).

(** ** The checks of a request *)
Definition fits_in_0_to_i64max_for_u64 (num : Z) : bool :=
  if 0 <=? num then num <=? 2 ^ 63 - 1 else true.

Definition check_query_is_within_tech_limits (q : CustomQuery) : outcome (result unit FinancialsError) :=
  match q with
  | CustomRange min_age_s max_age_s min_amount_gwei max_amount_gwei _ =>
      mret (if negb (min_age_s <=? 2 ^ 63 - 1) then Err (ValueExceedsAllowedLimit "Min age")
            else if negb (max_age_s <=? 2 ^ 63 - 1) then Err (ValueExceedsAllowedLimit "Max age")
            else if negb (fits_in_0_to_i64max_for_u64 min_amount_gwei) then Err (ValueExceedsAllowedLimit "Min amount")
            else if negb (fits_in_0_to_i64max_for_u64 max_amount_gwei) then Err (ValueExceedsAllowedLimit "Max amount")
            else Ok tt)
  | TopRecords _ _ => Panic "Broken code: only range query belongs in here"
  end.

Definition financials_entry_check (msg : UiFinancialsRequest) : result unit FinancialsError :=
  if negb (stats_required msg) && bool_decide (top_records_opt msg = None) && bool_decide (custom_queries_opt msg = None)
  then Err RequestWithNoValues
  else if bool_decide (top_records_opt msg ≠ None) && bool_decide (custom_queries_opt msg ≠ None)
  then Err RequestWithMutuallyExclusiveParams
  else Ok tt.

(** ** The report *)
Definition process_stats (financial_statistics : FinancialStatistics) (msg : UiFinancialsRequest) :
    books (option UiFinancialStatistics) :=
  if stats_required msg then
    payable_wei ← payable_total;
    unpaid_payable ← lift (wei_to_gwei U64 payable_wei);
    paid_payable ← lift (wei_to_gwei U64 (total_paid_payable_wei financial_statistics));
    receivable_wei ← receivable_total;
    unpaid_receivable ← lift (wei_to_gwei I64 receivable_wei);
    paid_receivable ← lift (wei_to_gwei U64 (total_paid_receivable_wei financial_statistics));
    mret (Some (mkUiStatistics unpaid_payable paid_payable unpaid_receivable paid_receivable))
  else mret None.

Definition process_top_records_query (now : Z) (msg : UiFinancialsRequest) : books (option QueryResults) :=
  match top_records_opt msg with
  | None => mret None
  | Some config =>
      payable ← request_payable_accounts_by_specific_mode now (custom_query_from_top config);
      receivable ← request_receivable_accounts_by_specific_mode now (custom_query_from_top config);
      mret (Some (mkQueryResults (Some (default [] payable)) (Some (default [] receivable))))
  end.

(** One of the two tables in a request with ranges *)
Definition process_range {A} (now : Z) (request : CustomQuery → books (option (list A)))
    (query_specs_opt : option RangeQuery) : books (result (option (list A)) FinancialsError) :=
  match query_specs_opt with
  | None => mret (Ok None)
  | Some query_specs =>
      let query := custom_query_from_range now query_specs in
      checked ← lift (check_query_is_within_tech_limits query);
      match checked with
      | Err e => mret (Err e)
      | Ok _ => accounts ← request query; mret (Ok accounts)
      end
  end.

Definition process_custom_queries (now : Z) (msg : UiFinancialsRequest) :
    books (result (option QueryResults) FinancialsError) :=
  match custom_queries_opt msg with
  | None => mret (Ok None)
  | Some specs =>
      payable ← process_range now (request_payable_accounts_by_specific_mode now) (cq_payable_opt specs);
      match payable with
      | Err e => mret (Err e)
      | Ok payable_opt =>
          receivable ← process_range now (request_receivable_accounts_by_specific_mode now) (cq_receivable_opt specs);
          match receivable with
          | Err e => mret (Err e)
          | Ok receivable_opt => mret (Ok (Some (mkQueryResults payable_opt receivable_opt)))
          end
      end
  end.

Definition process_queries_of_records (now : Z) (msg : UiFinancialsRequest) :
    books (result (option QueryResults) FinancialsError) :=
  top_records_opt ← process_top_records_query now msg;
  custom ← process_custom_queries now msg;
  mret match custom with
       | Err e => Err e
       | Ok custom_query_records_opt =>
           Ok (match top_records_opt with Some r => Some r | None => custom_query_records_opt end)
       end.

Definition compute_financials (now : Z) (financial_statistics : FinancialStatistics) (msg : UiFinancialsRequest) :
    books (result UiFinancialsResponse FinancialsError) :=
  match financials_entry_check msg with
  | Err e => mret (Err e)
  | Ok _ =>
      stats_opt ← process_stats financial_statistics msg;
      results ← process_queries_of_records now msg;
      mret match results with
           | Err e => Err e
           | Ok query_results_opt => Ok (mkFinancialsResponse stats_opt query_results_opt)
           end
  end.
End Remap.
