(* ===== verification/Scanners.v ===== *)
(** * The scanners of the Accountant

    Models [node/src/accountant/scanners/mod.rs] and
    [node/src/accountant/scanners/scanners_utils.rs]: the search for debts to pay, for
    transactions to confirm, for payments received and for delinquent debtors, with the
    messages that the Accountant and the BlockchainBridge exchange about them.

    The three scanners work on the same database and the same statistics, which are kept
    in the state [Accountant]; a scanner's own state is when its scan began.  The
    obfuscated list of debts that travels with a scan is the list itself.  Logging is not
    modelled. *)

From S2P Require Import Prelude.
From S2P Require Import Actor.
From S2P Require Import NodeAddr.
From S2P Require Import NodeRecord.
From S2P Require Import Cryptde.
From S2P Require Import Sql.
From S2P Require Import BigInt.
From S2P Require Import Thresholds.
From S2P Require Import ConfigStore.
From S2P Require Import AccountantDb.
From S2P Require Import FinancialQueries.

(** ** Messages *)
Record ResponseSkeleton := mkSkeleton { client_id : Z; context_id : Z }.

Inductive ScanType := Payables | Receivables | PendingPayables.

#[export] Instance ScanType_eq_dec : EqDecision ScanType.
Proof. solve_decision. Defined.

Inductive Chain :=
| PulseMainnet | EthMainnet | EthRopsten | PolyMainnet | PolyAmoy | BaseMainnet | BaseSepolia | Dev.

(** [BlockchainAgentWeb3] *)
Record BlockchainAgent := mkAgent {
  gas_price_wei : Z;
  gas_limit_const_part : Z;
  agent_consuming_wallet : Wallet;
  transaction_fee_balance_in_minor_units : Z;
  masq_token_balance_in_minor_units : Z;
  agent_chain : Chain
}.

Record QualifiedPayablesMessage := mkQualifiedPayables {
  qp_protected_qualified_payables : list PayableAccount;
  qp_consuming_wallet : Wallet;
  qp_response_skeleton_opt : option ResponseSkeleton
}.

Record BlockchainAgentWithContextMessage := mkAgentWithContext {
  ac_protected_qualified_payables : list PayableAccount;
  ac_agent : BlockchainAgent;
  ac_response_skeleton_opt : option ResponseSkeleton
}.

Record OutboundPaymentsInstructions := mkOutbound {
  affordable_accounts : list PayableAccount;
  op_agent : BlockchainAgent;
  op_response_skeleton_opt : option ResponseSkeleton
}.

Inductive BlockchainError :=
| InvalidUrl | InvalidAddress | InvalidResponse | QueryFailed (msg : string) | UninitializedInterface.

Inductive PayableTransactionError :=
| MissingConsumingWallet
| GasPriceQueryFailed (e : BlockchainError)
| TransactionID (e : BlockchainError)
| UnusableWallet (msg : string)
| Signing (msg : string)
| Sending (msg : string) (hashes : list Z)
| UninitializedBlockchainInterface.

(** [ProcessedPayableFallible]; of [RpcPayableFailure] the error of the call is left out. *)
Inductive ProcessedPayableFallible :=
| Correct (p : PendingPayable)
| Failed (recipient_wallet : Wallet) (hash : Z).

Record SentPayables := mkSentPayables {
  payment_procedure_result : result (list ProcessedPayableFallible) PayableTransactionError;
  sp_response_skeleton_opt : option ResponseSkeleton
}.

Record RequestTransactionReceipts := mkRequestReceipts {
  rt_pending_payable : list PendingPayableFingerprint;
  rt_response_skeleton_opt : option ResponseSkeleton
}.

Inductive TxStatus := TxFailed | TxPending | TxSucceeded (block_hash block_number : Z).
Inductive TransactionReceiptResult := RpcResponse (transaction_hash : Z) (status : TxStatus) | LocalError (msg : string).

Record ReportTransactionReceipts := mkReportReceipts {
  fingerprints_with_receipts : list (TransactionReceiptResult * PendingPayableFingerprint);
  tr_response_skeleton_opt : option ResponseSkeleton
}.

Record RetrieveTransactions := mkRetrieve {
  rx_recipient : Wallet;
  rx_response_skeleton_opt : option ResponseSkeleton
}.

Inductive BlockMarker := Uninitialized | Value (n : Z).

Record ReceivedPayments := mkReceived {
  rp_timestamp : Z;
  new_start_block : BlockMarker;
  rp_transactions : list BlockchainTransaction;
  rp_response_skeleton_opt : option ResponseSkeleton
}.

(** What the user interface is sent. *)
Inductive UiBody :=
| UiScanResponse
| UiScanError (scan_type : ScanType) (msg : string)
| UiFinancials (response : result UiFinancialsResponse FinancialsError).

Record NodeToUiMessage := mkToUi { ui_client_id : Z; ui_context_id : Z; ui_body : UiBody }.

Definition scan_response (skeleton : ResponseSkeleton) : NodeToUiMessage :=
  mkToUi (client_id skeleton) (context_id skeleton) UiScanResponse.

(** ** The state *)
Record Accountant := mkAccountant {
  suppress_initial_scans : bool;
  consuming_wallet_opt : option Wallet;
  earning_wallet : Wallet;
  conn : Conn Books;
  payables_initiated_at : option Z;
  pending_payables_initiated_at : option Z;
  receivables_initiated_at : option Z;
  payment_thresholds : PaymentThresholds;
  when_pending_too_long_sec : Z;
  scan_intervals : ScanType → Z;
  financial_statistics : FinancialStatistics;
  bound : bool
}.

Definition set_conn (c : Conn Books) (a : Accountant) : Accountant :=
  mkAccountant (suppress_initial_scans a) (consuming_wallet_opt a) (earning_wallet a) c
    (payables_initiated_at a) (pending_payables_initiated_at a) (receivables_initiated_at a)
    (payment_thresholds a) (when_pending_too_long_sec a) (scan_intervals a) (financial_statistics a) (bound a).

Definition set_statistics (f : FinancialStatistics) (a : Accountant) : Accountant :=
  mkAccountant (suppress_initial_scans a) (consuming_wallet_opt a) (earning_wallet a) (conn a)
    (payables_initiated_at a) (pending_payables_initiated_at a) (receivables_initiated_at a)
    (payment_thresholds a) (when_pending_too_long_sec a) (scan_intervals a) f (bound a).

Definition set_wallets (consuming : option Wallet) (earning : Wallet) (a : Accountant) : Accountant :=
  mkAccountant (suppress_initial_scans a) consuming earning (conn a)
    (payables_initiated_at a) (pending_payables_initiated_at a) (receivables_initiated_at a)
    (payment_thresholds a) (when_pending_too_long_sec a) (scan_intervals a) (financial_statistics a) (bound a).

Definition set_bound (a : Accountant) : Accountant :=
  mkAccountant (suppress_initial_scans a) (consuming_wallet_opt a) (earning_wallet a) (conn a)
    (payables_initiated_at a) (pending_payables_initiated_at a) (receivables_initiated_at a)
    (payment_thresholds a) (when_pending_too_long_sec a) (scan_intervals a) (financial_statistics a) true.

(** [ScannerCommon::initiated_at_opt] of the three scanners *)
Definition scan_started_at (scan_type : ScanType) (a : Accountant) : option Z :=
  match scan_type with
  | Payables => payables_initiated_at a
  | PendingPayables => pending_payables_initiated_at a
  | Receivables => receivables_initiated_at a
  end.

Definition set_started_at (scan_type : ScanType) (t : option Z) (a : Accountant) : Accountant :=
  mkAccountant (suppress_initial_scans a) (consuming_wallet_opt a) (earning_wallet a) (conn a)
    (if decide (scan_type = Payables) then t else payables_initiated_at a)
    (if decide (scan_type = PendingPayables) then t else pending_payables_initiated_at a)
    (if decide (scan_type = Receivables) then t else receivables_initiated_at a)
    (payment_thresholds a) (when_pending_too_long_sec a) (scan_intervals a) (financial_statistics a) (bound a).

(** What the Accountant sends: to the BlockchainBridge, to the user interface, and to
    itself, now or later. *)
Inductive AccountantMessage :=
| ToBridgeQualifiedPayables (m : QualifiedPayablesMessage)
| ToBridgeOutboundPayments (m : OutboundPaymentsInstructions)
| ToBridgeRequestReceipts (m : RequestTransactionReceipts)
| ToBridgeRetrieveTransactions (m : RetrieveTransactions)
| ToUiGateway (m : NodeToUiMessage)
| NotifySelf (scan_type : ScanType)
| NotifySelfLater (scan_type : ScanType) (interval : Z).

Abbreviation acc A := (prog Accountant AccountantMessage A).

(** Database code on the Accountant's connection. *)
Definition on_db {A} (m : books A) : acc A := λ s,
  match m (conn s) with
  | Ret (a, c, _) => Ret (a, set_conn c s, [])
  | Panic why => Panic why
  end.

Inductive BeginScanError :=
| NothingToProcess
| NoConsumingWalletFound
| ScanAlreadyRunning (timestamp : Z)
| CalledFromNullScanner.

(** ** What the scanners share: [time_marking_methods] and [ScannerCommon] *)
Definition mark_as_started (scan_type : ScanType) (timestamp : Z) : acc unit :=
  modify (set_started_at scan_type (Some timestamp)).

(** [signal_scanner_completion] *)
Definition mark_as_ended (scan_type : ScanType) (now : Z) : acc unit :=
  started ← gets (scan_started_at scan_type);
  _ ← modify (set_started_at scan_type None);
  match started with
  | Some timestamp =>
      _ ← lift (expect_ok (duration_since now timestamp) "Unable to calculate elapsed time for the scan.");
      mret tt
  | None => mret tt
  end.

Section Scanners.
Context `{Signatures}.

(** ** [PayableScanner] *)
Definition sniff_out_alarming_payables (pt : PaymentThresholds) (now : Z)
    (non_pending_payables : list PayableAccount) : outcome (list PayableAccount) :=
  filter_outcome (λ account,
    threshold ← payable_exceeded_threshold pt account now;
    mret (match threshold with Some _ => true | None => false end)) non_pending_payables.

Definition payable_begin_scan (consuming_wallet : Wallet) (timestamp : Z)
    (response_skeleton_opt : option ResponseSkeleton) : acc (result QualifiedPayablesMessage BeginScanError) :=
  started ← gets (scan_started_at Payables);
  match started with
  | Some t => mret (Err (ScanAlreadyRunning t))
  | None =>
      _ ← mark_as_started Payables timestamp;
      all_non_pending_payables ← on_db non_pending_payables;
      pt ← gets payment_thresholds;
      qualified_payables ← lift (sniff_out_alarming_payables pt timestamp all_non_pending_payables);
      match qualified_payables with
      | [] => _ ← mark_as_ended Payables timestamp; mret (Err NothingToProcess)
      | _ => mret (Ok (mkQualifiedPayables qualified_payables consuming_wallet response_skeleton_opt))
      end
  end.

Inductive PayableTransactingErrorEnum :=
| LocallyCausedError (e : PayableTransactionError)
| RemotelyCausedErrors (hashes : list Z).

(** [separate_rpc_results], in the order of the responses *)
Definition separate_rpc_results (batch_request_responses : list ProcessedPayableFallible) :
    list PendingPayable * option (list Z) :=
  let oks := omap (λ r, match r with Correct p => Some p | Failed _ _ => None end) batch_request_responses in
  let errs := omap (λ r, match r with Correct _ => None | Failed _ hash => Some hash end) batch_request_responses in
  (oks, non_empty errs).

Definition separate_errors (sent_payables : SentPayables) :
    outcome (list PendingPayable * option PayableTransactingErrorEnum) :=
  match payment_procedure_result sent_payables with
  | Ok individual_batch_responses =>
      if decide (length individual_batch_responses = 0%nat)
      then Panic "Broken code: An empty vector of processed payments claiming to be an Ok value"
      else
        let '(oks, err_hashes_opt) := separate_rpc_results individual_batch_responses in
        mret (oks, RemotelyCausedErrors <$> err_hashes_opt)
  | Err e => mret ([], Some (LocallyCausedError e))
  end.

Record PendingPayableMetadata := mkMetadata {
  md_recipient : Wallet;
  md_hash : Z;
  md_rowid_opt : option Z
}.

(** [sent_payables_hashmap.remove(&hash).expect(...)] for every hash in turn *)
Fixpoint take_wallets (ids : list (option Z * Z)) (sent_payables_hashmap : gmap Z Wallet) :
    outcome (list PendingPayableMetadata * gmap Z Wallet) :=
  match ids with
  | [] => mret ([], sent_payables_hashmap)
  | (rowid_opt, hash) :: ids =>
      wallet ← expect (sent_payables_hashmap !! hash) "expect transaction hash, but it disappear";
      '(l, m) ← take_wallets ids (delete hash sent_payables_hashmap);
      mret (mkMetadata wallet hash rowid_opt :: l, m)
  end.

Definition separate_existent_and_nonexistent_fingerprints (sent_payables : list PendingPayable) :
    acc (list PendingPayableMetadata * list PendingPayableMetadata) :=
  let hashes := pp_hash <$> sent_payables in
  let sent_payables_hashmap :=
    foldl (λ m p, <[pp_hash p := pp_recipient_wallet p]> m) (∅ : gmap Z Wallet) sent_payables in
  transaction_hashes ← on_db (fingerprints_rowids hashes);
  let hashes_from_db : gset Z :=
    list_to_set ((rowid_results transaction_hashes).*2 ++ no_rowid_results transaction_hashes) in
  if decide ((list_to_set hashes : gset Z) = hashes_from_db) then
    '(with_rowid, m) ← lift (take_wallets ((λ '(rowid, hash), (Some rowid, hash)) <$> rowid_results transaction_hashes)
                               sent_payables_hashmap);
    '(without_rowid, _) ← lift (take_wallets ((λ hash, (None, hash)) <$> no_rowid_results transaction_hashes) m);
    mret (with_rowid, without_rowid)
  else act_panic "Inconsistency in two maps, they cannot be matched by hashes.".

Definition ready_data_for_supply (existent : list PendingPayableMetadata) : outcome (list (Wallet * Z)) :=
  map_outcome (λ m, rowid ← expect (md_rowid_opt m) "rowid"; mret (md_recipient m, rowid)) existent.

Definition mark_pending_payable (sent_payments : list PendingPayable) : acc unit :=
  '(existent, nonexistent) ← separate_existent_and_nonexistent_fingerprints sent_payments;
  mark_pp_input_data ← lift (ready_data_for_supply existent);
  _ ← match mark_pp_input_data with
      | [] => mret tt
      | _ =>
          res ← on_db (mark_pending_payables_rowids mark_pp_input_data);
          match res with
          | Ok _ => mret tt
          | Err _ => act_panic "Unable to create a mark in the payable table for wallets ..."
          end
      end;
  match nonexistent with
  | [] => mret tt
  | _ => act_panic "Expected pending payable fingerprints for ... were not found; system unreliable"
  end.

Definition discard_failed_transactions_with_possible_fingerprints (hashes_of_failed : list Z) : acc unit :=
  existent_and_nonexistent ← on_db (fingerprints_rowids hashes_of_failed);
  _ ← match rowid_results existent_and_nonexistent with
      | [] => mret tt
      | rowid_results =>
          res ← on_db (delete_fingerprints rowid_results.*1);
          match res with
          | Ok _ => mret tt
          | Err _ => act_panic "Database corrupt: payable fingerprint deletion for transactions ... failed"
          end
      end;
  match no_rowid_results existent_and_nonexistent with
  | [] => mret tt
  | _ => act_panic "Ran into failed transactions ... with missing fingerprints. System no longer reliable"
  end.

Definition handle_sent_payable_errors (err_opt : option PayableTransactingErrorEnum) : acc unit :=
  match err_opt with
  | Some (LocallyCausedError (Sending _ hashes)) | Some (RemotelyCausedErrors hashes) =>
      discard_failed_transactions_with_possible_fingerprints hashes
  | _ => mret tt
  end.

Definition payable_finish_scan (now : Z) (message : SentPayables) : acc (option NodeToUiMessage) :=
  '(sent_payables, err_opt) ← lift (separate_errors message);
  _ ← (if decide (length sent_payables = 0%nat) then mret tt else mark_pending_payable sent_payables);
  _ ← handle_sent_payable_errors err_opt;
  _ ← mark_as_ended Payables now;
  mret (scan_response <$> sp_response_skeleton_opt message).

(** *** [PaymentAdjusterReal] and [SolvencySensitivePaymentInstructor] *)
Inductive Adjustment := MasqToken | TransactionFeeCurrency (limiting_count : Z) | BothAdjusted.

Definition search_for_indispensable_adjustment (msg : BlockchainAgentWithContextMessage) : option Adjustment := None.

Definition adjust_payments (msg : BlockchainAgentWithContextMessage) (adjustment : Adjustment) :
    outcome OutboundPaymentsInstructions :=
  Panic "this function is dead until the card GH-711 is played".

Definition try_skipping_payment_adjustment (msg : BlockchainAgentWithContextMessage) :
    OutboundPaymentsInstructions + Adjustment :=
  match search_for_indispensable_adjustment msg with
  | None =>
      inl (mkOutbound (ac_protected_qualified_payables msg) (ac_agent msg) (ac_response_skeleton_opt msg))
  | Some adjustment => inr adjustment
  end.

(** ** [PendingPayableScanner] *)
Definition pending_payable_begin_scan (timestamp : Z) (response_skeleton_opt : option ResponseSkeleton) :
    acc (result RequestTransactionReceipts BeginScanError) :=
  started ← gets (scan_started_at PendingPayables);
  match started with
  | Some t => mret (Err (ScanAlreadyRunning t))
  | None =>
      _ ← mark_as_started PendingPayables timestamp;
      filtered_pending_payable ← on_db return_all_errorless_fingerprints;
      match filtered_pending_payable with
      | [] => _ ← mark_as_ended PendingPayables timestamp; mret (Err NothingToProcess)
      | _ => mret (Ok (mkRequestReceipts filtered_pending_payable response_skeleton_opt))
      end
  end.

Record PendingPayableScanReport := mkScanReport {
  still_pending : list PendingPayableId;
  failures : list PendingPayableId;
  confirmed : list PendingPayableFingerprint
}.

Definition pending_id_from (f : PendingPayableFingerprint) : PendingPayableId :=
  mkPendingId (fgp_rowid f) (fgp_hash f).

Definition handle_none_receipt (scan_report : PendingPayableScanReport) (payable : PendingPayableFingerprint) :
    PendingPayableScanReport :=
  mkScanReport (still_pending scan_report ++ [mkPendingId (fgp_rowid payable) (fgp_hash payable)])
    (failures scan_report) (confirmed scan_report).

Definition handle_status_with_failure (scan_report : PendingPayableScanReport)
    (fingerprint : PendingPayableFingerprint) : PendingPayableScanReport :=
  mkScanReport (still_pending scan_report) (failures scan_report ++ [pending_id_from fingerprint])
    (confirmed scan_report).

Definition handle_status_with_success (scan_report : PendingPayableScanReport)
    (fingerprint : PendingPayableFingerprint) : PendingPayableScanReport :=
  mkScanReport (still_pending scan_report) (failures scan_report) (confirmed scan_report ++ [fingerprint]).

(** Not called by the scanner. *)
Definition handle_none_status (now : Z) (scan_report : PendingPayableScanReport)
    (fingerprint : PendingPayableFingerprint) (max_pending_interval : Z) : outcome PendingPayableScanReport :=
  elapsed ← expect_ok (duration_since now (fgp_timestamp fingerprint)) "we should be older now";
  mret (if max_pending_interval <? elapsed
        then mkScanReport (still_pending scan_report) (failures scan_report ++ [pending_id_from fingerprint])
               (confirmed scan_report)
        else mkScanReport (still_pending scan_report ++ [pending_id_from fingerprint]) (failures scan_report)
               (confirmed scan_report)).

Definition handle_receipts_for_pending_transactions (msg : ReportTransactionReceipts) : PendingPayableScanReport :=
  foldl (λ report '(receipt_result, fingerprint),
    match receipt_result with
    | RpcResponse _ TxPending => handle_none_receipt report fingerprint
    | RpcResponse _ TxFailed => handle_status_with_failure report fingerprint
    | RpcResponse _ (TxSucceeded _ _) => handle_status_with_success report fingerprint
    | LocalError _ => handle_none_receipt report fingerprint
    end) (mkScanReport [] [] []) (fingerprints_with_receipts msg).

(** A change of some fingerprints, if there are any; a failure is a panic. *)
Definition update_fingerprints (ids : list PendingPayableId)
    (change : list Z → books (result unit PendingPayableDaoError)) (why : string) : acc unit :=
  match ids with
  | [] => mret tt
  | _ =>
      res ← on_db (change (pid_rowid <$> ids));
      match res with Ok _ => mret tt | Err _ => act_panic why end
  end.

Definition update_remaining_fingerprints (ids : list PendingPayableId) : acc unit :=
  update_fingerprints ids increment_scan_attempts "Failure on incrementing scan attempts for fingerprints of ...".

Definition cancel_failed_transactions (ids : list PendingPayableId) : acc unit :=
  update_fingerprints ids mark_failures
    "Unsuccessful attempt for transactions ... to mark fatal error at payable fingerprint; database unreliable".

(** [u128] addition, wrapping *)
Definition add_to_the_total_of_paid_payable (fingerprints : list PendingPayableFingerprint) : acc unit :=
  modify (λ s, set_statistics (mkStatistics
    (foldl (λ total f, wrap 128 (total + fgp_amount f)) (total_paid_payable_wei (financial_statistics s)) fingerprints)
    (total_paid_receivable_wei (financial_statistics s))) s).

Definition confirm_transactions (fingerprints : list PendingPayableFingerprint) : acc unit :=
  match fingerprints with
  | [] => mret tt
  | _ =>
      res ← on_db (transactions_confirmed fingerprints);
      match res with
      | Err _ => act_panic "Unable to cast confirmed pending payables ... into adjustment in the corresponding payable records"
      | Ok _ =>
          _ ← add_to_the_total_of_paid_payable fingerprints;
          res ← on_db (delete_fingerprints (fgp_rowid <$> fingerprints));
          match res with
          | Err _ => act_panic "Unable to delete payable fingerprints ... of verified transactions"
          | Ok _ => mret tt
          end
      end
  end.

Definition process_transactions_by_reported_state (scan_report : PendingPayableScanReport) : acc unit :=
  _ ← confirm_transactions (confirmed scan_report);
  _ ← cancel_failed_transactions (failures scan_report);
  update_remaining_fingerprints (still_pending scan_report).

Definition pending_payable_finish_scan (now : Z) (message : ReportTransactionReceipts) : acc (option NodeToUiMessage) :=
  _ ← match fingerprints_with_receipts message with
      | [] => mret tt
      | _ => process_transactions_by_reported_state (handle_receipts_for_pending_transactions message)
      end;
  _ ← mark_as_ended PendingPayables now;
  mret (scan_response <$> tr_response_skeleton_opt message).

(** ** [ReceivableScanner] *)

(** The amount and the age are only for the log, but the amount is converted. *)
Definition balance_and_age (time : Z) (account : ReceivableAccount) : outcome (Z * Z) :=
  balance ← wei_to_gwei I64 (ra_balance_wei account);
  mret (balance, match duration_since time (ra_last_received_timestamp account) with Ok age => age | Err _ => 0 end).

Definition find_and_ban_delinquents (timestamp : Z) : acc unit :=
  pt ← gets payment_thresholds;
  accounts ← on_db (new_delinquencies timestamp pt);
  each (λ account, _ ← on_db (ban (ra_wallet account)); _ ← lift (balance_and_age timestamp account); mret tt) accounts.

Definition find_and_unban_reformed_nodes (timestamp : Z) : acc unit :=
  pt ← gets payment_thresholds;
  accounts ← on_db (paid_delinquencies pt);
  each (λ account, _ ← on_db (unban (ra_wallet account)); _ ← lift (balance_and_age timestamp account); mret tt) accounts.

Definition scan_for_delinquencies (timestamp : Z) : acc unit :=
  _ ← find_and_ban_delinquents timestamp;
  find_and_unban_reformed_nodes timestamp.

Definition receivable_begin_scan (earning_wallet : Wallet) (timestamp : Z)
    (response_skeleton_opt : option ResponseSkeleton) : acc (result RetrieveTransactions BeginScanError) :=
  started ← gets (scan_started_at Receivables);
  match started with
  | Some t => mret (Err (ScanAlreadyRunning t))
  | None =>
      _ ← mark_as_started Receivables timestamp;
      _ ← scan_for_delinquencies timestamp;
      mret (Ok (mkRetrieve earning_wallet response_skeleton_opt))
  end.

Definition handle_new_received_payments (msg : ReceivedPayments) : acc unit :=
  match rp_transactions msg with
  | [] =>
      match new_start_block msg with
      | Value start_block_number =>
          res ← on_db (set_start_block config set_config (Some start_block_number));
          match res with
          | Ok _ => mret tt
          | Err _ => act_panic "Attempt to set new start block failed"
          end
      | Uninitialized => mret tt
      end
  | transactions =>
      txn ← on_db (more_money_received (rp_timestamp msg) transactions);
      match new_start_block msg with
      | Value start_block_number =>
          '(res, txn) ← lift (within txn (set_start_block_from_txn config set_config (Some start_block_number)));
          match res with
          | Err _ => act_panic "Attempt to set new start block failed"
          | Ok _ =>
              committed ← on_db (commit txn);
              match committed with
              | Err _ => act_panic "Commit of received transactions failed"
              | Ok _ =>
                  let total_newly_paid_receivable :=
                    foldl (λ so_far now, wrap 128 (so_far + wei_amount now)) 0 transactions in
                  modify (λ s, set_statistics (mkStatistics (total_paid_payable_wei (financial_statistics s))
                    (wrap 128 (total_paid_receivable_wei (financial_statistics s) + total_newly_paid_receivable))) s)
              end
          end
      | Uninitialized => act_panic "Failed to get start_block while transactions were present"
      end
  end.

Definition receivable_finish_scan (now : Z) (msg : ReceivedPayments) : acc (option NodeToUiMessage) :=
  _ ← handle_new_received_payments msg;
  _ ← mark_as_ended Receivables now;
  mret (scan_response <$> rp_response_skeleton_opt msg).
End Scanners.
