(* ===== verification/Accountant.v ===== *)
(** * The Accountant actor

    Models [node/src/accountant/mod.rs]: the services that this node has provided and
    consumed are charged to the accounts, the scans are begun, on a schedule or when the
    user asks for one, their results are taken in, and the user gets reports.

    A handler is a computation on the state [Accountant] of [Scanners.v]; what it sends
    is a list of [AccountantMessage].  [now] is the clock during a handler.  That a
    recipient is dead is not modelled; that the actor is not yet bound is. *)

From S2P Require Import Prelude.
From S2P Require Import Actor.
From S2P Require Import NodeAddr.
From S2P Require Import NodeRecord.
From S2P Require Import Cryptde.
From S2P Require Import Hopper.
From S2P Require Import ProxyServer.
From S2P Require Import ProxyClient.
From S2P Require Import Sql.
From S2P Require Import BigInt.
From S2P Require Import Thresholds.
From S2P Require Import ConfigStore.
From S2P Require Import AccountantDb.
From S2P Require Import FinancialQueries.
From S2P Require Import Scanners.

Definition DEFAULT_PENDING_TOO_LONG_SEC : Z := 21600.

(** ** Messages *)
Record ScanError := mkScanError {
  se_scan_type : ScanType;
  se_response_skeleton_opt : option ResponseSkeleton;
  se_msg : string
}.

Record PendingPayableFingerprintSeeds := mkSeeds {
  batch_wide_timestamp : Z;
  hashes_and_balances : list HashAndAmount
}.

Record WalletPair := mkWalletPair { wp_consuming_wallet : Wallet; wp_earning_wallet : Wallet }.

(** [ConfigChange]; the other changes do not concern the Accountant. *)
Inductive AccountantConfigChange := ChangeWallets (wallet_pair : WalletPair) | ChangeOfOthers.

(** [MessageBody] of a message of the user, decoded *)
Inductive UiRequest :=
| FinancialsRequest (request : UiFinancialsRequest)
| ScanRequest (scan_type : ScanType)
| CrashRequest (actor : string) (panic_message : string)
| OtherRequest.

Record NodeFromUiMessage := mkFromUi { fu_client_id : Z; fu_context_id : Z; fu_request : UiRequest }.

Section Handlers.
Context `{Signatures}.

(** ** Sending *)
Definition send_bound (why : string) (m : AccountantMessage) : acc unit :=
  is_bound ← gets bound;
  if is_bound : bool then send m else act_panic why.

Definition send_to_ui (m : option NodeToUiMessage) : acc unit :=
  match m with
  | Some m => send_bound "UIGateway is not bound" (ToUiGateway m)
  | None => mret tt
  end.

(** [Accountant::new]; the scanners are idle. *)
Definition Accountant_new (suppress_initial_scans : bool) (consuming_wallet_opt : option Wallet)
    (earning_wallet : Wallet) (books : Books) (payment_thresholds_opt : option PaymentThresholds)
    (scan_intervals_opt : option (ScanType → Z)) (when_pending_too_long_sec : Z) : outcome Accountant :=
  payment_thresholds ← expect payment_thresholds_opt "Payment thresholds";
  scan_intervals ← expect scan_intervals_opt "Scan Intervals";
  mret (mkAccountant suppress_initial_scans consuming_wallet_opt earning_wallet (mkConn books [])
          None None None payment_thresholds when_pending_too_long_sec scan_intervals (mkStatistics 0 0) false).

Definition handle_bind_message : acc unit := modify set_bound.

Definition acc_handle_config_change_msg (change : AccountantConfigChange) : acc unit :=
  match change with
  | ChangeWallets wallet_pair =>
      modify (λ s, set_wallets (Some (wp_consuming_wallet wallet_pair)) (wp_earning_wallet wallet_pair) s)
  | ChangeOfOthers => mret tt
  end.

(** ** Charges *)
Definition our_wallet (wallet : Wallet) : acc bool :=
  consuming ← gets consuming_wallet_opt;
  earning ← gets Scanners.earning_wallet;
  lift (
    is_consuming ←
      match consuming with
      | Some consuming =>
          c ← wallet_address consuming; w ← wallet_address wallet; mret (bool_decide (c = w))
      | None => mret false
      end;
    if is_consuming : bool then mret true
    else w ← wallet_address wallet; e ← wallet_address earning; mret (bool_decide (w = e))).

(** [u128] arithmetic on 64-bit values does not overflow. *)
Definition total_charge (service_rate byte_rate : Z) (payload_size : nat) : Z :=
  service_rate + byte_rate * Z.of_nat payload_size.

Definition record_service_provided (service_rate byte_rate timestamp : Z) (payload_size : nat) (wallet : Wallet) :
    acc unit :=
  ours ← our_wallet wallet;
  if ours : bool then mret tt
  else
    res ← on_db (more_money_receivable timestamp wallet (total_charge service_rate byte_rate payload_size));
    match res with
    | Ok _ => mret tt
    | Err (ReceivableSignConversion _) => mret tt
    | Err _ => act_panic "Recording services provided for ... but has hit fatal database error"
    end.

Definition record_service_consumed (service_rate byte_rate timestamp : Z) (payload_size : nat) (wallet : Wallet) :
    acc unit :=
  ours ← our_wallet wallet;
  if ours : bool then mret tt
  else
    res ← on_db (more_money_payable timestamp wallet (total_charge service_rate byte_rate payload_size));
    match res with
    | Ok _ => mret tt
    | Err (PayableSignConversion _) => mret tt
    | Err _ => act_panic "Recording services consumed from ... but has hit fatal database error"
    end.

Definition handle_report_routing_service_provided_message (msg : ReportRoutingServiceProvided) : acc unit :=
  record_service_provided (service_rate msg) (byte_rate msg) (report_time msg) (payload_size msg)
    (report_paying_wallet msg).

Definition handle_report_exit_service_provided_message (msg : ReportExitServiceProvidedMessage) : acc unit :=
  record_service_provided (er_service_rate msg) (er_byte_rate msg) (er_timestamp msg) (er_payload_size msg)
    (er_paying_wallet msg).

Definition handle_report_services_consumed_message (msg : ReportServicesConsumedMessage) : acc unit :=
  _ ← record_service_consumed (esc_service_rate (consumed_exit msg)) (esc_byte_rate (consumed_exit msg))
        (consumed_timestamp msg) (esc_payload_size (consumed_exit msg)) (esc_earning_wallet (consumed_exit msg));
  each (λ routing_service,
    record_service_consumed (rsc_service_rate routing_service) (rsc_byte_rate routing_service)
      (consumed_timestamp msg) (routing_payload_size msg) (rsc_earning_wallet routing_service))
    (consumed_routing msg).

(** ** Scans *)

(** [BeginScanError::handle_error] writes to the log, apart from the error of a scanner
    that is used in tests only. *)
Definition handle_begin_error (e : BeginScanError) : acc unit :=
  match e with
  | CalledFromNullScanner => act_panic "Null Scanner shouldn't be running inside production code."
  | _ => mret tt
  end.

Definition handle_request_of_scan_for_payable (now : Z) (response_skeleton_opt : option ResponseSkeleton) : acc unit :=
  consuming ← gets consuming_wallet_opt;
  res ← match consuming with
        | Some consuming_wallet => payable_begin_scan consuming_wallet now response_skeleton_opt
        | None => mret (Err NoConsumingWalletFound)
        end;
  match res with
  | Ok scan_message => send_bound "BlockchainBridge is unbound" (ToBridgeQualifiedPayables scan_message)
  | Err e => handle_begin_error e
  end.

Definition handle_request_of_scan_for_pending_payable (now : Z) (response_skeleton_opt : option ResponseSkeleton) :
    acc unit :=
  consuming ← gets consuming_wallet_opt;
  res ← match consuming with
        | Some _ => pending_payable_begin_scan now response_skeleton_opt
        | None => mret (Err NoConsumingWalletFound)
        end;
  match res with
  | Ok scan_message => send_bound "BlockchainBridge is unbound" (ToBridgeRequestReceipts scan_message)
  | Err e => handle_begin_error e
  end.

Definition handle_request_of_scan_for_receivable (now : Z) (response_skeleton_opt : option ResponseSkeleton) :
    acc unit :=
  earning ← gets Scanners.earning_wallet;
  res ← receivable_begin_scan earning now response_skeleton_opt;
  match res with
  | Ok scan_message => send_bound "BlockchainBridge is unbound" (ToBridgeRetrieveTransactions scan_message)
  | Err e => handle_begin_error e
  end.

Definition handle_request_of_scan (now : Z) (scan_type : ScanType) (response_skeleton_opt : option ResponseSkeleton) :
    acc unit :=
  match scan_type with
  | Payables => handle_request_of_scan_for_payable now response_skeleton_opt
  | PendingPayables => handle_request_of_scan_for_pending_payable now response_skeleton_opt
  | Receivables => handle_request_of_scan_for_receivable now response_skeleton_opt
  end.

Definition schedule_next_scan (scan_type : ScanType) : acc unit :=
  intervals ← gets scan_intervals; send (NotifySelfLater scan_type (intervals scan_type)).

(** [ScanForPayables], [ScanForPendingPayables] and [ScanForReceivables] *)
Definition handle_scan_for (now : Z) (scan_type : ScanType) (response_skeleton_opt : option ResponseSkeleton) :
    acc unit :=
  _ ← handle_request_of_scan now scan_type response_skeleton_opt;
  schedule_next_scan scan_type.

Definition handle_externally_triggered_scan (now : Z) (scan_type : ScanType) (response_skeleton : ResponseSkeleton) :
    acc unit :=
  handle_request_of_scan now scan_type (Some response_skeleton).

Definition acc_handle_start_message : acc unit :=
  suppressed ← gets suppress_initial_scans;
  if suppressed : bool then mret tt
  else
    _ ← send (NotifySelf PendingPayables);
    _ ← send (NotifySelf Payables);
    send (NotifySelf Receivables).

Definition handle_received_payments (now : Z) (msg : ReceivedPayments) : acc unit :=
  node_to_ui_msg ← receivable_finish_scan now msg; send_to_ui node_to_ui_msg.

Definition handle_sent_payables (now : Z) (msg : SentPayables) : acc unit :=
  node_to_ui_msg ← payable_finish_scan now msg; send_to_ui node_to_ui_msg.

Definition handle_report_transaction_receipts (now : Z) (msg : ReportTransactionReceipts) : acc unit :=
  node_to_ui_msg ← pending_payable_finish_scan now msg; send_to_ui node_to_ui_msg.

Definition handle_scan_error (now : Z) (scan_error : ScanError) : acc unit :=
  _ ← mark_as_ended (se_scan_type scan_error) now;
  match se_response_skeleton_opt scan_error with
  | Some response_skeleton =>
      send_to_ui (Some (mkToUi (client_id response_skeleton) (context_id response_skeleton)
                          (UiScanError (se_scan_type scan_error) (se_msg scan_error))))
  | None => mret tt
  end.

Definition handle_payable_payment_setup (msg : BlockchainAgentWithContextMessage) : acc unit :=
  blockchain_bridge_instructions ←
    match try_skipping_payment_adjustment msg with
    | inl finalized_msg => mret finalized_msg
    | inr adjustment => lift (adjust_payments msg adjustment)
    end;
  send_bound "BlockchainBridge is unbound" (ToBridgeOutboundPayments blockchain_bridge_instructions).

(** An error is only logged. *)
Definition handle_new_pending_payable_fingerprints (msg : PendingPayableFingerprintSeeds) : acc unit :=
  _ ← on_db (insert_new_fingerprints (hashes_and_balances msg) (batch_wide_timestamp msg));
  mret tt.

(** ** The user *)
Definition handle_financials (now : Z) (msg : UiFinancialsRequest) (client_id context_id : Z) : acc unit :=
  statistics ← gets financial_statistics;
  body ← on_db (compute_financials now statistics msg);
  send_bound "UiGateway not bound" (ToUiGateway (mkToUi client_id context_id (UiFinancials body))).

(** [crashable] is a setting for tests. *)
Definition handle_node_from_ui_message (now : Z) (crashable : bool) (msg : NodeFromUiMessage) : acc unit :=
  match fu_request msg with
  | FinancialsRequest request => handle_financials now request (fu_client_id msg) (fu_context_id msg)
  | ScanRequest scan_type =>
      handle_externally_triggered_scan now scan_type (mkSkeleton (fu_client_id msg) (fu_context_id msg))
  | CrashRequest actor panic_message =>
      if crashable && bool_decide (actor = "ACCOUNTANT"%string) then act_panic panic_message else mret tt
  | OtherRequest => mret tt
  end.

(** ** All messages *)
Inductive AccountantEvent :=
| EvBind
| EvStart
| EvConfigChange (change : AccountantConfigChange)
| EvRoutingProvided (m : ReportRoutingServiceProvided)
| EvExitProvided (m : ReportExitServiceProvidedMessage)
| EvConsumed (m : ReportServicesConsumedMessage)
| EvScanFor (scan_type : ScanType) (skeleton : option ResponseSkeleton)
| EvPaymentSetup (m : BlockchainAgentWithContextMessage)
| EvSeeds (m : PendingPayableFingerprintSeeds)
| EvSent (m : SentPayables)
| EvReceipts (m : ReportTransactionReceipts)
| EvReceived (m : ReceivedPayments)
| EvScanError (e : ScanError)
| EvFromUi (m : NodeFromUiMessage).

Definition handle_accountant_event (now : Z) (ev : AccountantEvent) : acc unit :=
  match ev with
  | EvBind => handle_bind_message
  | EvStart => acc_handle_start_message
  | EvConfigChange change => acc_handle_config_change_msg change
  | EvRoutingProvided m => handle_report_routing_service_provided_message m
  | EvExitProvided m => handle_report_exit_service_provided_message m
  | EvConsumed m => handle_report_services_consumed_message m
  | EvScanFor scan_type skeleton => handle_scan_for now scan_type skeleton
  | EvPaymentSetup m => handle_payable_payment_setup m
  | EvSeeds m => handle_new_pending_payable_fingerprints m
  | EvSent m => handle_sent_payables now m
  | EvReceipts m => handle_report_transaction_receipts now m
  | EvReceived m => handle_received_payments now m
  | EvScanError e => handle_scan_error now e
  | EvFromUi m => handle_node_from_ui_message now false m
  end.
End Handlers.

(** ** How a scan begins: its time has come, or the user asks for it. *)
Inductive Trigger := ByTimer | ByUser (skeleton : ResponseSkeleton).

Definition scan_request (scan_type : ScanType) (tr : Trigger) : AccountantEvent :=
  match tr with
  | ByTimer => EvScanFor scan_type None
  | ByUser sk => EvFromUi (mkFromUi (client_id sk) (context_id sk) (ScanRequest scan_type))
  end.

Definition trigger_skeleton (tr : Trigger) : option ResponseSkeleton :=
  match tr with ByTimer => None | ByUser sk => Some sk end.

(** A scan that was due is scheduled again, a user gets an answer. *)
Definition next_scan (tr : Trigger) (scan_type : ScanType) (s : Accountant) : list AccountantMessage :=
  match tr with ByTimer => [NotifySelfLater scan_type (scan_intervals s scan_type)] | ByUser _ => [] end.

Definition scan_answer (tr : Trigger) : list AccountantMessage :=
  match tr with ByTimer => [] | ByUser sk => [ToUiGateway (scan_response sk)] end.
