(* ===== verification/AccountantFacts.v ===== *)
(** * The Accountant keeps the books

    What the handlers of [Accountant.v] do to the ledger of [AccountantDbFacts.v]:
    services are charged, payments that arrive are entered, delinquent debtors are
    banned. *)

From S2P Require Import Prelude.
From S2P Require Import Actor.
From S2P Require Import NodeAddr.
From S2P Require Import NodeRecord.
From S2P Require Import Cryptde.
From S2P Require Import Hopper.
From S2P Require Import ProxyServer.
From S2P Require Import Sql.
From S2P Require Import BigInt.
From S2P Require Import Thresholds.
From S2P Require Import ConfigStore.
From S2P Require Import AccountantDb.
From S2P Require Import AccountantDbFacts.
From S2P Require Import ClaimsFacts.
From S2P Require Import FinancialQueries.
From S2P Require Import Scanners.
From S2P Require Import ProxyClient.
From S2P Require Import Accountant.

Lemma endures_on_db {A} h (m : books A) s (P : A → Accountant → list AccountantMessage → Prop) :
  endures h m (conn s) (λ a c _, P a (set_conn c s) []) → endures h (on_db m) s P.
Proof. unfold endures, on_db. by destruct (m (conn s)) as [[[a c] sent]|]. Qed.

Lemma set_conn_conn s : set_conn (conn s) s = s.
Proof. by destruct s. Qed.

Lemma endures_scan_request `{Signatures} h now scan_type tr s P :
  endures h (handle_request_of_scan now scan_type (trigger_skeleton tr)) s
    (λ _ s' sent, P tt s' (sent ++ next_scan tr scan_type s')) →
  endures h (handle_accountant_event now (scan_request scan_type tr)) s P.
Proof.
  intros Hscan. destruct tr as [|[cl ctx]]; cbn [scan_request handle_accountant_event next_scan] in *.
  - unfold handle_scan_for. end_step. eapply endures_mono; [exact Hscan|]. intros [] s' sent HP.
    unfold schedule_next_scan. end_step. end_step. end_step. exact HP.
  - cbn. eapply endures_mono; [exact Hscan|]. intros [] s' sent HP. by rewrite app_nil_r in HP.
Qed.

Lemma ensures_scan_request `{Signatures} now scan_type tr s :
  ensures (handle_request_of_scan now scan_type (trigger_skeleton tr)) s (λ _ _ _, False) →
  ensures (handle_accountant_event now (scan_request scan_type tr)) s (λ _ _ _, False).
Proof.
  intros Hscan. destruct tr as [|[cl ctx]]; [|exact Hscan].
  cbn [scan_request handle_accountant_event]. unfold handle_scan_for. ens_step.
  intros [] s' sent E. by destruct (Hscan _ _ _ E).
Qed.

(** ** Charges *)
Inductive Side := Provided | Consumed.

Record Charge := mkCharge { ch_side : Side; ch_wallet : Wallet; ch_time : Z; ch_amount : Z }.

(** What an event reports: a service costs its rate, and the rate per byte. *)
Definition charges_of (ev : AccountantEvent) : list Charge :=
  match ev with
  | EvRoutingProvided m =>
      [mkCharge Provided (report_paying_wallet m) (report_time m)
         (service_rate m + byte_rate m * Z.of_nat (payload_size m))]
  | EvExitProvided m =>
      [mkCharge Provided (er_paying_wallet m) (er_timestamp m)
         (er_service_rate m + er_byte_rate m * Z.of_nat (er_payload_size m))]
  | EvConsumed m =>
      mkCharge Consumed (esc_earning_wallet (consumed_exit m)) (consumed_timestamp m)
        (esc_service_rate (consumed_exit m)
         + esc_byte_rate (consumed_exit m) * Z.of_nat (esc_payload_size (consumed_exit m)))
      :: ((λ r, mkCharge Consumed (rsc_earning_wallet r) (consumed_timestamp m)
                  (rsc_service_rate r + rsc_byte_rate r * Z.of_nat (routing_payload_size m)))
          <$> consumed_routing m)
  | _ => []
  end.

Definition is_report (ev : AccountantEvent) : bool :=
  match ev with EvRoutingProvided _ | EvExitProvided _ | EvConsumed _ => true | _ => false end.

Section Booking.
Context `{Signatures} (h : Prop).

Definition address_of (w : Wallet) : list Z := match wallet_address w with Ret a => a | Panic _ => [] end.
Definition has_address (w : Wallet) : Prop := wallet_address w = Ret (address_of w).

(** The wallets of this node. *)
Definition ours (s : Accountant) (a : list Z) : bool :=
  match consuming_wallet_opt s with Some w => bool_decide (address_of w = a) | None => false end
  || bool_decide (a = address_of (earning_wallet s)).

Definition wallets_ok (s : Accountant) : Prop :=
  (∀ w, consuming_wallet_opt s = Some w → has_address w) ∧ has_address (earning_wallet s).

(** The charges of one side to one address, other than to this node itself *)
#[export] Instance Side_eq_dec : EqDecision Side.
Proof. solve_decision. Defined.

Definition charge_to (s : Accountant) (side : Side) (a : list Z) (ch : Charge) : Z :=
  if bool_decide (ch_side ch = side ∧ address_of (ch_wallet ch) = a) && negb (ours s a) then ch_amount ch else 0.
Definition charged (s : Accountant) (side : Side) (a : list Z) (l : list Charge) : Z :=
  sum_wei (charge_to s side a) l.

Abbreviation Ledger := (gmap (list Z) Debt * gmap (list Z) Claim)%type.

Definition book (s : Accountant) (L : Ledger) (ch : Charge) : Ledger :=
  let a := address_of (ch_wallet ch) in
  if ours s a then L
  else match ch_side ch with
       | Provided => (L.1, charge_claim a (ch_time ch) (ch_amount ch) L.2)
       | Consumed => (charge_debt a (ch_time ch) (ch_amount ch) L.1, L.2)
       end.

Definition ledger (s : Accountant) : Ledger :=
  (debts (payable (tables (conn s))), claims (receivable (tables (conn s)))).

(** The tables of debts and claims hold the ledger [L]; the rest is as in [s]. *)
Definition booked (s : Accountant) (L : Ledger) (s' : Accountant) : Prop :=
  ∃ p r c', s' = set_conn c' s ∧ works h c' ∧ tables c' = set_receivable r (set_payable p (tables (conn s))) ∧
    payables_ok p ∧ receivables_ok r ∧ (debts p, claims r) = L.

Lemma owed_charge a now amount L b :
  owed (charge_debt a now amount L) b = owed L b + if bool_decide (a = b) then amount else 0.
Proof.
  unfold owed, charge_debt. case_bool_decide as E; [subst b|by rewrite lookup_insert_ne, Z.add_0_r].
  rewrite lookup_insert_eq. by destruct (L !! a).
Qed.

Lemma claimed_charge a now amount L b :
  claimed (charge_claim a now amount L) b = claimed L b + if bool_decide (a = b) then amount else 0.
Proof.
  unfold claimed, charge_claim. case_bool_decide as E; [subst b|by rewrite lookup_insert_ne, Z.add_0_r].
  rewrite lookup_insert_eq. by destruct (L !! a).
Qed.

Lemma booked_totals s l L a :
  owed (foldl (book s) L l).1 a = owed L.1 a + charged s Consumed a l ∧
  claimed (foldl (book s) L l).2 a = claimed L.2 a + charged s Provided a l.
Proof.
  revert L. induction l as [|ch l IH]; intros L; [cbn; lia|]. cbn [foldl].
  destruct (IH (book s L ch)) as [-> ->]. unfold charged. cbn [sum_wei foldr].
  fold (sum_wei (charge_to s Consumed a) l) (sum_wei (charge_to s Provided a) l).
  enough (owed (book s L ch).1 a = owed L.1 a + charge_to s Consumed a ch ∧
          claimed (book s L ch).2 a = claimed L.2 a + charge_to s Provided a ch) by lia.
  unfold book, charge_to. set (b := address_of (ch_wallet ch)).
  destruct (decide (b = a)) as [->|Hne].
  - destruct (ours s a), (ch_side ch); cbn; rewrite ?owed_charge, ?claimed_charge, ?andb_false_r;
      repeat case_bool_decide; try (exfalso; naive_solver congruence); cbn; lia.
  - rewrite !(bool_decide_eq_false_2 (_ ∧ _)) by naive_solver.
    destruct (ours s b), (ch_side ch); cbn; rewrite ?owed_charge, ?claimed_charge, ?bool_decide_eq_false_2 by done; lia.
Qed.

Lemma our_wallet_spec s w P :
  wallets_ok s → has_address w → P (ours s (address_of w)) s [] → endures h (our_wallet w) s P.
Proof.
  intros [Hc He] Hw HP. unfold our_wallet. end_step. end_step. end_step. end_step. end_step. cbn [app].
  unfold ours in HP. unfold has_address in He, Hw. destruct (consuming_wallet_opt s) as [cw|].
  - specialize (Hc cw eq_refl). unfold has_address in Hc. rewrite Hc. run_outcome. rewrite Hw. run_outcome.
    case_bool_decide; [done|]. run_outcome. rewrite He. run_outcome. done.
  - rewrite Hw. run_outcome. rewrite He. run_outcome. done.
Qed.

Record charge_fits (L : Ledger) (ch : Charge) : Prop := {
  cf_wallet : has_address (ch_wallet ch);
  cf_time : time_ok (ch_time ch);
  cf_amount : 0 ≤ ch_amount ch < 2 ^ 126;
  cf_owed : owed L.1 (address_of (ch_wallet ch)) + ch_amount ch < 2 ^ 126;
  cf_claimed : claimed L.2 (address_of (ch_wallet ch)) + ch_amount ch < 2 ^ 126
}.

Record ledger_ok (s : Accountant) : Prop := {
  lo_works : works h (conn s);
  lo_payables : payables_ok (payable (tables (conn s)));
  lo_receivables : receivables_ok (receivable (tables (conn s)));
  lo_wallets : wallets_ok s
}.

Lemma booked_refl s : ledger_ok s → booked s (ledger s) s.
Proof.
  intros []. eexists _, _, (conn s). split; [by rewrite set_conn_conn|]. split; [done|].
  split; [|done]. by destruct (tables (conn s)).
Qed.

Lemma booked_ok s L s' : wallets_ok s → booked s L s' → ledger_ok s' ∧ ledger s' = L ∧ ∀ a, ours s' a = ours s a.
Proof.
  intros Hw (p & r & c' & -> & Hw' & E & Hp & Hr & <-). split; [split; [done|..]|split].
  - cbn. by rewrite E.
  - cbn. by rewrite E.
  - done.
  - unfold ledger. cbn. by rewrite E.
  - done.
Qed.

Lemma booked_trans s L s1 L' s2 : booked s L s1 → booked s1 L' s2 → booked s L' s2.
Proof.
  intros (p & r & c1 & -> & _ & E1 & _) (p' & r' & c2 & -> & Hw2 & E2 & Hp & Hr & <-).
  exists p', r', c2. cbn in E2. rewrite E1 in E2. by rewrite E2.
Qed.

Lemma record_service_provided_books s service byte time size w P :
  ledger_ok s →
  charge_fits (ledger s) (mkCharge Provided w time (service + byte * Z.of_nat size)) →
  (∀ s', booked s (book s (ledger s) (mkCharge Provided w time (service + byte * Z.of_nat size))) s' → P tt s' []) →
  endures h (record_service_provided service byte time size w) s P.
Proof.
  intros Hok [Hw Ht Ha Ho Hc] HP. cbn in *. unfold record_service_provided. end_step.
  apply our_wallet_spec; [apply Hok|done|]. cbn [app].
  destruct (ours s (address_of w)) eqn:E.
  { end_step. apply HP. unfold book. cbn. rewrite E. by apply booked_refl. }
  pose proof (claimed_storable _ (address_of w) (lo_receivables _ Hok)). unfold storable in *.
  end_step. apply endures_on_db. apply (more_money_receivable_charges h (conn s) _ _ _ (address_of w));
    [apply Hok|apply Hok|done|exact Hw|exact Ha|unfold total_charge; split; lia| |].
  - intros rows c' Hw' E' Hr' Hc'. end_step. apply HP. unfold book. cbn. rewrite E.
    exists (payable (tables (conn s))), rows, c'. split; [done|]. split; [done|].
    split; [rewrite E'; by destruct (tables (conn s))|]. split; [apply Hok|]. split; [done|].
    unfold total_charge in Hc'. by rewrite Hc'.
  - intros Hh c' _. end_step. done.
Qed.

Lemma record_service_consumed_books s service byte time size w P :
  ledger_ok s →
  charge_fits (ledger s) (mkCharge Consumed w time (service + byte * Z.of_nat size)) →
  (∀ s', booked s (book s (ledger s) (mkCharge Consumed w time (service + byte * Z.of_nat size))) s' → P tt s' []) →
  endures h (record_service_consumed service byte time size w) s P.
Proof.
  intros Hok [Hw Ht Ha Ho Hc] HP. cbn in *. unfold record_service_consumed. end_step.
  apply our_wallet_spec; [apply Hok|done|]. cbn [app].
  destruct (ours s (address_of w)) eqn:E.
  { end_step. apply HP. unfold book. cbn. rewrite E. by apply booked_refl. }
  pose proof (owed_storable _ (address_of w) (lo_payables _ Hok)). unfold storable in *.
  end_step. apply endures_on_db. apply (more_money_payable_charges h (conn s) _ _ _ (address_of w));
    [apply Hok|apply Hok|done|exact Hw|exact Ha|unfold total_charge; split; lia| |].
  - intros rows c' Hw' E' Hr' Hc'. end_step. apply HP. unfold book. cbn. rewrite E.
    exists rows, (receivable (tables (conn s))), c'. split; [done|]. split; [done|].
    split; [rewrite E'; by destruct (tables (conn s))|]. split; [done|]. split; [apply Hok|].
    unfold total_charge in Hc'. by rewrite Hc'.
  - intros Hh c' _. end_step. done.
Qed.

(** There is room for all of the charges. *)
Record room (L : Ledger) (l : list Charge) : Prop := {
  room_each ch : ch ∈ l → has_address (ch_wallet ch) ∧ time_ok (ch_time ch) ∧ 0 ≤ ch_amount ch;
  room_total : sum_wei ch_amount l < 2 ^ 126;
  room_owed a : owed L.1 a + sum_wei ch_amount l < 2 ^ 126;
  room_claimed a : claimed L.2 a + sum_wei ch_amount l < 2 ^ 126
}.

Lemma charged_bounds s side a l :
  (∀ ch, ch ∈ l → 0 ≤ ch_amount ch) → 0 ≤ charged s side a l ≤ sum_wei ch_amount l.
Proof.
  induction l as [|ch l IH]; intros Hl; [done|]. unfold charged in *. cbn.
  fold (sum_wei (charge_to s side a) l) (sum_wei ch_amount l).
  pose proof (Hl ch (list_elem_of_here _ _)). destruct IH; [intros; apply Hl; by right|].
  unfold charge_to at 1 3. destruct (_ && _); lia.
Qed.

Lemma room_fits s L l1 ch l2 : room L (l1 ++ ch :: l2) → charge_fits (foldl (book s) L l1) ch.
Proof.
  intros [He Ht Ho Hc]. rewrite sum_wei_app in *. cbn in *. fold (sum_wei ch_amount l2) in *.
  destruct (He ch) as (? & ? & ?); [set_solver|].
  assert (0 ≤ sum_wei ch_amount l1 ∧ 0 ≤ sum_wei ch_amount l2) as [? ?].
  { split; apply sum_wei_nonneg; intros x Hx; apply He; set_solver. }
  set (a := address_of (ch_wallet ch)).
  destruct (booked_totals s l1 L a) as [Eo Ec]. specialize (Ho a). specialize (Hc a).
  destruct (charged_bounds s Consumed a l1), (charged_bounds s Provided a l1);
    try (intros; apply He; set_solver).
  split; [done|done|lia|fold a; rewrite Eo; lia|fold a; rewrite Ec; lia].
Qed.

Lemma book_ext s s' L l : (∀ a, ours s' a = ours s a) → foldl (book s') L l = foldl (book s) L l.
Proof.
  intros Ho. revert L. induction l as [|ch l IH]; intros L; [done|]. cbn. rewrite IH. f_equal.
  unfold book. by rewrite Ho.
Qed.

(** One more charge on top of what is booked. *)
Lemma booked_step s L l1 ch l2 s1 :
  wallets_ok s → room L (l1 ++ ch :: l2) → booked s (foldl (book s) L l1) s1 →
  ledger_ok s1 ∧ charge_fits (ledger s1) ch ∧
  ∀ s2, booked s1 (book s1 (ledger s1) ch) s2 → booked s (foldl (book s) L (l1 ++ [ch])) s2.
Proof.
  intros Hw Hroom Hb. destruct (booked_ok _ _ _ Hw Hb) as (Hok & El & Ho). split; [done|].
  rewrite El. split; [by eapply room_fits|]. intros s2 Hb2. rewrite foldl_app. cbn [foldl].
  eapply booked_trans; [done|]. revert Hb2. unfold book. by rewrite Ho.
Qed.

Lemma event_books now s L l1 ev l2 s1 P :
  wallets_ok s → is_report ev = true → room L (l1 ++ charges_of ev ++ l2) → booked s (foldl (book s) L l1) s1 →
  (∀ s2, booked s (foldl (book s) L (l1 ++ charges_of ev)) s2 → P tt s2 []) →
  endures h (handle_accountant_event now ev) s1 P.
Proof.
  intros Hw Hrep Hroom Hb HP. destruct ev; try done; cbn [charges_of handle_accountant_event] in *.
  - destruct (booked_step _ _ _ _ _ _ Hw Hroom Hb) as (Hok & Hfit & Hnext).
    apply record_service_provided_books; auto.
  - destruct (booked_step _ _ _ _ _ _ Hw Hroom Hb) as (Hok & Hfit & Hnext).
    apply record_service_provided_books; auto.
  - destruct (booked_step _ _ _ _ _ _ Hw Hroom Hb) as (Hok & Hfit & Hnext).
    unfold handle_report_services_consumed_message. end_step.
    apply record_service_consumed_books; [done|done|]. intros s2 Hb2%Hnext. clear s1 Hb Hok Hfit Hnext.
    cbn [app]. rewrite cons_middle, app_assoc in HP.
    rewrite <-app_comm_cons, cons_middle, app_assoc in Hroom. set (l := l1 ++ _) in *.
    set (charge := λ r : RoutingServiceConsumed, _) in *.
    eapply endures_mono; [apply (endures_each h _ _ _ (λ done s3 sent, sent = [] ∧
      booked s (foldl (book s) L (l ++ (charge <$> done))) s3))|].
    + by rewrite app_nil_r.
    + intros done x todo s3 sent Hl [-> Hb3].
      rewrite Hl, fmap_app, fmap_cons, <-(app_assoc (charge <$> done)), <-app_comm_cons, (app_assoc l) in Hroom.
      destruct (booked_step _ _ _ _ _ _ Hw Hroom Hb3) as (Hok & Hfit & Hnext).
      apply record_service_consumed_books; [done|done|]. intros s4 Hb4%Hnext. split; [done|].
      rewrite fmap_app, app_assoc. done.
    + intros [] s3 sent [-> Hb3]. by apply HP.
Qed.
End Booking.

(** ** The books after any reports *)
Definition run_accountant `{Signatures} (evs : list (Z * AccountantEvent)) : acc unit :=
  each (λ '(now, ev), handle_accountant_event now ev) evs.

(** C6: Every service is charged once.  Whatever services this node reports, provided or
    consumed and in whatever order, each is added to the account of the wallet that pays or
    earns: its rate, and its rate per byte for every byte.  Wallets of this node are not
    charged.  The balance of every account is then what it was and all the charges to it;
    nothing else is changed and no message is sent.  The Accountant does not panic as long
    as the database works. *)
Theorem services_are_charged `{Signatures} s evs :
  payables_ok (payable (tables (conn s))) → receivables_ok (receivable (tables (conn s))) → wallets_ok s →
  Forall (λ ev, is_report ev = true) evs.*2 →
  let charges := concat (charges_of <$> evs.*2) in
  room (ledger s) charges →
  endures (faults (conn s) = []) (run_accountant evs) s (λ _ s' sent,
    sent = [] ∧ booked (faults (conn s) = []) s (foldl (book s) (ledger s) charges) s' ∧
    ∀ a, owed (ledger s').1 a = owed (ledger s).1 a + charged s Consumed a charges ∧
         claimed (ledger s').2 a = claimed (ledger s).2 a + charged s Provided a charges).
Proof.
  intros Hp Hr Hw Hrep charges Hroom. set (h := faults (conn s) = []).
  eapply endures_mono; [apply (endures_each h _ _ _ (λ done s' sent, sent = [] ∧
    booked h s (foldl (book s) (ledger s) (concat (charges_of <$> done.*2))) s'))|].
  - split; [done|]. apply booked_refl. split; [by intros ?|done..].
  - intros done [now ev] todo s1 sent -> [-> Hb]. rewrite !fmap_app, !fmap_cons, !concat_app in *.
    cbn [snd concat] in *. unfold charges in Hroom. rewrite !fmap_app, !fmap_cons, !concat_app in Hroom.
    apply Forall_app in Hrep as [_ [Hev _]%Forall_cons].
    eapply event_books; [done|done|done|done|]. intros s2 Hb2. split; [done|]. cbn. by rewrite app_nil_r.
  - intros [] s' sent [-> Hb]. split; [done|]. split; [done|]. intros a.
    destruct (booked_ok h _ _ _ Hw Hb) as (_ & -> & _). apply booked_totals.
Qed.
