(* ===== verification/ReceivableScanFacts.v ===== *)
(** * Payments received and debtors banned

    What the scan for payments received does: at its begin the delinquent debtors are
    banned and those that have paid are admitted again, and with its result the payments
    are entered and the block to begin with the next time is stored. *)

From S2P Require Import Prelude.
From S2P Require Import Actor.
From S2P Require Import NodeAddr.
From S2P Require Import NodeRecord.
From S2P Require Import Cryptde.
From S2P Require Import Gossip.
From S2P Require Import GossipAcceptor.
From S2P Require Import Routes.
From S2P Require Import Migrations.
From S2P Require Import Payloads.
From S2P Require Import Hopper.
From S2P Require Import HopperFacts.
From S2P Require Import Sql.
From S2P Require Import BigInt.
From S2P Require Import Thresholds.
From S2P Require Import ConfigStore.
From S2P Require Import AccountantDb.
From S2P Require Import AccountantDbFacts.
From S2P Require Import ClaimsFacts.
From S2P Require Import FinancialQueries.
From S2P Require Import Scanners.
From S2P Require Import Accountant.
From S2P Require Import AccountantFacts.

(** ** Settings *)
Definition with_setting (name : string) (v : option string) (rows : list ConfigDaoRecord) : list ConfigDaoRecord :=
  (λ r, if bool_decide (cfg_name r = name) then mkConfigRecord (cfg_name r) v (cfg_encrypted r) else r) <$> rows.

Section Settings.
Context (h : Prop).
Implicit Types (c : Conn Books).

Lemma config_set_spec c name v P :
  works h c → name ∈ cfg_name <$> config (tables c) →
  (∀ c', works h c' → tables c' = set_config (with_setting name v (config (tables c))) (tables c) → P (Ok tt) c' []) →
  (¬ h → ∀ c', tables c' = tables c → P (Err ConfigDatabaseError) c' []) →
  endures h (config_set config set_config name v) c P.
Proof.
  intros Hw Hin HP HE. unfold config_set. end_step.
  apply endures_sql_execute; [done| |intros Hh c' E; end_step; by apply HE].
  rewrite sql_update_ok. intros c' Hw' E'. end_step. cbn [app].
  assert (length (sql_select (λ r, bool_decide (cfg_name r = name)) (config (tables c))) ≠ 0%nat) as Hlen.
  { apply list_elem_of_fmap in Hin as (r & -> & Hr). intros Hnil%nil_length_inv.
    assert (r ∈ sql_select (λ r', bool_decide (cfg_name r' = cfg_name r)) (config (tables c))) as Hs.
    { apply elem_of_sql_select. by rewrite bool_decide_eq_true_2. }
    rewrite Hnil in Hs. by apply elem_of_nil in Hs. }
  unfold handle_update_execution. destruct (length _); [done|]. by apply HP.
Qed.

(** What was stored is read. *)
Lemma start_block_stored c n P :
  works h c → (∃ rows, config (tables c) = with_setting "start_block" (Some (u64_to_string n)) rows ∧
    ("start_block"%string ∈ cfg_name <$> rows)) →
  0 ≤ n < 2 ^ 64 →
  (∀ c', works h c' → tables c' = tables c → P (Ok (Some n)) c' []) →
  (¬ h → ∀ c', P (Err PcDatabaseError) c' []) →
  endures h (start_block config) c P.
Proof.
  intros Hw (rows & Erows & Hin) Hn HP HE. unfold start_block, get_u64, get_record, config_get. end_step. end_step. end_step.
  assert (∃ r l, sql_select (λ r, bool_decide (cfg_name r = "start_block"%string)) (config (tables c)) = r :: l ∧
    cfg_name r = "start_block"%string ∧ cfg_value_opt r = Some (u64_to_string n)) as (r & l & Esel & En & Ev).
  { rewrite Erows. unfold sql_select, with_setting. clear -Hin.
    induction rows as [|r rows IH]; [by apply elem_of_nil in Hin|]. rewrite fmap_cons, filter_cons.
    destruct (decide (cfg_name r = "start_block"%string)) as [E|Hne].
    - rewrite (bool_decide_eq_true_2 (cfg_name r = _) E), decide_True by by apply bool_decide_eq_true_2.
      eexists _, _. by split; [reflexivity|].
    - rewrite (bool_decide_eq_false_2 (cfg_name r = _) Hne), decide_False by by rewrite bool_decide_eq_false_2.
      apply IH. rewrite fmap_cons in Hin. by apply elem_of_cons in Hin as [?|?]. }
  apply endures_sql_execute; [done| |intros Hh c' E; repeat end_step; by apply HE].
  rewrite Esel. intros c' Hw' E'. end_step. rewrite decide_True by done. repeat end_step. cbn [app]. rewrite Ev.
  unfold decode_u64. rewrite parse_u64_to_string by done. by apply HP.
Qed.
End Settings.

(** ** Payments *)
Section Payments.
Context `{Signatures}.

Definition paid_by (a : list Z) (txs : list BlockchainTransaction) : Z :=
  sum_wei (λ tx, if bool_decide (sender tx = a) then wei_amount tx else 0) txs.

Lemma claimed_settle_claims now txs L a :
  claimed (settle_claims now txs L) a = claimed L a - (if decide (is_Some (L !! a)) then paid_by a txs else 0).
Proof.
  revert L. induction txs as [|tx txs IH]; intros L; [cbn; case_decide; lia|].
  unfold settle_claims, paid_by. rewrite sum_wei_cons. cbn [foldl].
  fold (settle_claims now txs (settle_claim (sender tx) now (wei_amount tx) L)). fold (paid_by a txs).
  rewrite IH, claimed_settle.
  assert (is_Some (settle_claim (sender tx) now (wei_amount tx) L !! a) ↔ is_Some (L !! a)) as Hiff
    by apply lookup_alter_is_Some.
  case_bool_decide as E; repeat case_decide; first [lia|exfalso; naive_solver].
Qed.

Lemma mark_as_ended_spec h scan_type now s P :
  (∀ t, scan_started_at scan_type s = Some t → t ≤ now) →
  P tt (set_started_at scan_type None s) [] → endures h (mark_as_ended scan_type now) s P.
Proof.
  intros Ht HP. unfold mark_as_ended. end_step. end_step. end_step. end_step.
  destruct (scan_started_at scan_type s) as [t|]; cbn [app]; end_step; [|done].
  end_step. unfold duration_since. rewrite (proj2 (Z.leb_le t now)) by by apply Ht. done.
Qed.

Lemma send_to_ui_spec h m s P :
  (m ≠ None → bound s = true) →
  P tt s match m with Some m => [ToUiGateway m] | None => [] end → endures h (send_to_ui m) s P.
Proof.
  intros Hb HP. unfold send_to_ui, send_bound. destruct m as [m|]; [|by end_step].
  end_step. end_step. rewrite Hb by done. by end_step.
Qed.

Lemma endures_within {A B} h txn (m : books A) (f : A * Transaction → acc B) s P :
  endures h m txn (λ a txn' _, endures h (f (a, txn')) s P) → endures h (lift (within txn m) ≫= f) s P.
Proof.
  intros Hm. end_step. unfold endures, lift, within in *. destruct (m txn) as [[[a txn'] sent]|]; [|done].
  exact Hm.
Qed.

Lemma commit_spec h txn c P :
  works h txn →
  (∀ c', works h c' → tables c' = tables txn → P (Ok tt) c' []) → (¬ h → ∀ e c', P (Err e) c' []) →
  endures h (commit txn) c P.
Proof.
  intros Hw HP HE.
  assert (endures h (sql_query (λ _, tt)) txn (λ r txn' _,
    match r with Ok _ => works h txn' ∧ tables txn' = tables txn | Err _ => ¬ h end)) as Hq
    by by apply endures_sql_execute.
  unfold endures, commit in *. destruct (sql_query (λ _, tt) txn) as [[[r txn'] sent]|]; [|done].
  destruct r; [|by apply HE]. destruct Hq. by apply HP.
Qed.

(** Everything about a batch of payments is written, or nothing of it. *)
Lemma handle_new_received_payments_spec h s ts n txs sk P :
  works h (conn s) → receivables_ok (receivable (tables (conn s))) → time_ok ts → txs ≠ [] →
  (∀ tx, tx ∈ txs → wallet_address (tx_from tx) = Ret (sender tx) ∧ 0 ≤ wei_amount tx) →
  sum_wei wei_amount txs < 2 ^ 126 →
  (∀ a, sum_wei wei_amount txs - 2 ^ 126 ≤ claimed (claims (receivable (tables (conn s)))) a) →
  ("start_block"%string ∈ cfg_name <$> config (tables (conn s))) →
  (∀ rows c', works h c' →
     tables c' = set_config (with_setting "start_block" (Some (u64_to_string n)) (config (tables (conn s))))
                   (set_receivable rows (tables (conn s))) →
     receivables_ok rows → claims rows = settle_claims ts txs (claims (receivable (tables (conn s)))) →
     P tt (set_statistics (mkStatistics (total_paid_payable_wei (financial_statistics s))
             (wrap 128 (total_paid_receivable_wei (financial_statistics s) + sum_wei wei_amount txs)))
             (set_conn c' s)) []) →
  endures h (handle_new_received_payments (mkReceived ts (Value n) txs sk)) s P.
Proof.
  intros Hw Hok Hts Hne Htxs Hsum Hlow Hcfg HP. unfold handle_new_received_payments.
  cbn [rp_transactions new_start_block rp_timestamp]. destruct txs as [|tx txs']; [done|]. set (txs := tx :: txs') in *.
  end_step. apply endures_on_db. apply more_money_received_settles; try done.
  intros rows txn c1 Hw1 Hwt E1 Et Hok' Hcl. apply endures_within.
  unfold set_start_block_from_txn. end_step. apply config_set_spec; [done|by rewrite Et| |].
  2:{ intros Hh c' _. end_step. by end_step. }
  intros txn' Hwt' Et'. end_step. cbn beta iota. end_step. apply endures_on_db. apply commit_spec; [done| |].
  2:{ intros Hh e c'. by end_step. }
  intros c2 Hw2 E2. end_step. cbn [app].
  rewrite (foldl_wrap_sum wei_amount txs 0), Z.add_0_l, wrap_add_r by done.
  assert (∀ c, set_conn c2 (set_conn c s) = set_conn c2 s) as Hset by done. rewrite Hset.
  eapply HP; [done| |done|done]. rewrite E2, Et', Et. done.
Qed.
(** *** One transaction *)

(** All that a report of payments writes: the payments, then the block to go on with. *)
Definition entering (ts n : Z) (txs : list BlockchainTransaction) : books (result unit string) :=
  res ← process_received_payments ts txs;
  match res with
  | Err _ => mret (Err "Database corruption suspected during accounting newly received payments")
  | Ok _ =>
      res ← set_start_block_from_txn config set_config (Some n);
      mret (match res with Err _ => Err "Attempt to set new start block failed" | Ok _ => Ok tt end)
  end.

(** Write to a working copy of the database and make it the database at once. *)
Definition in_transaction (writes : books (result unit string)) : acc unit :=
  begun ← on_db begin_transaction;
  match begun with
  | Err _ => act_panic "Database corruption suspected during accounting newly received payments"
  | Ok txn =>
      '(written, txn) ← lift (within txn writes);
      match written with
      | Err why => act_panic why
      | Ok _ =>
          committed ← on_db (commit txn);
          match committed with
          | Err _ => act_panic "Commit of received transactions failed"
          | Ok _ => mret tt
          end
      end
  end.

Definition count_received (txs : list BlockchainTransaction) : acc unit :=
  modify (λ s, set_statistics (mkStatistics (total_paid_payable_wei (financial_statistics s))
    (wrap 128 (total_paid_receivable_wei (financial_statistics s)
               + foldl (λ so_far now, wrap 128 (so_far + wei_amount now)) 0 txs))) s).

(** What the database holds at each step of [in_transaction writes]: as before until the
    commit, and after it all that was written, or as before. *)
Definition all_or_nothing (writes : books (result unit string)) (s : Accountant) : Prop :=
  ∀ begun s1 sent, on_db begin_transaction s = Ret (begun, s1, sent) →
    tables (conn s1) = tables (conn s) ∧
    ∀ txn written txn', begun = Ok txn → within txn writes = Ret (written, txn') →
      ∀ r s2 sent', on_db (commit txn') s1 = Ret (r, s2, sent') →
        tables (conn s2) = match r with Ok _ => tables txn' | Err _ => tables (conn s) end.

Lemma sql_query_tables {A} (f : Books → A) c r c' sent : sql_query f c = Ret (r, c', sent) → tables c' = tables c.
Proof.
  unfold sql_query, sql_execute. destruct (faults c) as [|[] fs]; by intros [= _ <- _].
Qed.

Lemma transaction_all_or_nothing writes s : all_or_nothing writes s.
Proof.
  intros begun s1 sent Hb.
  assert (tables (conn s1) = tables (conn s)) as Hs1.
  { revert Hb. unfold on_db, begin_transaction, mbind, prog_bind.
    destruct (sql_query (λ _, tt) (conn s)) as [[[r c] l]|] eqn:E; [|done].
    apply sql_query_tables in E. destruct r; cbn; intros [= <- <- <-]; done. }
  split; [done|]. intros txn written txn' _ _ r s2 sent'. unfold on_db, commit.
  destruct (sql_query (λ _, tt) txn') as [[[q c] l]|] eqn:E; [|done].
  apply sql_query_tables in E. destruct q; intros [= <- <- <-]; done.
Qed.

Lemma payments_in_one_transaction s ts n txs sk :
  txs ≠ [] →
  handle_new_received_payments (mkReceived ts (Value n) txs sk) s =
    (_ ← in_transaction (entering ts n txs); count_received txs) s.
Proof.
  intros Hne. unfold handle_new_received_payments. cbn [rp_transactions new_start_block rp_timestamp].
  destruct txs as [|tx txs']; [done|]. cbv iota. set (txs := tx :: txs'). clearbody txs.
  unfold in_transaction, more_money_received, entering, on_db, within, lift, count_received, act_panic, modify.
  unfold mbind, prog_bind, mret, prog_ret.
  destruct (begin_transaction (conn s)) as [[[[txn|e] c1] l1]|]; cbn; [|reflexivity..].
  destruct (process_received_payments ts txs txn) as [[[[[]|e] txn1] l2]|]; cbn; [|reflexivity..].
  destruct (set_start_block_from_txn config set_config (Some n) txn1) as [[[[[]|e] txn2] l3]|]; cbn; [|reflexivity..].
  destruct (commit txn2 c1) as [[[[[]|e] c2] l4]|]; cbn; reflexivity.
Qed.

Lemma received_in_one_transaction s now ts n txs sk :
  txs ≠ [] →
  handle_accountant_event now (EvReceived (mkReceived ts (Value n) txs sk)) s =
    (_ ← in_transaction (entering ts n txs); _ ← count_received txs;
     _ ← mark_as_ended Receivables now; send_to_ui (scan_response <$> sk)) s.
Proof.
  intros Hne. cbn [handle_accountant_event]. unfold handle_received_payments, receivable_finish_scan.
  pose proof (payments_in_one_transaction s ts n txs sk Hne) as E. revert E.
  unfold mbind, prog_bind, mret, prog_ret. cbn [rp_response_skeleton_opt]. intros ->.
  destruct (in_transaction (entering ts n txs) s) as [[[[] s1] l1]|]; [|done].
  destruct (count_received txs s1) as [[[[] s2] l2]|]; [|done].
  destruct (mark_as_ended Receivables now s2) as [[[[] s3] l3]|]; [|done].
  destruct (send_to_ui (scan_response <$> sk) s3) as [[[[] s4] l4]|]; [|done].
  by rewrite app_nil_r, !app_assoc.
Qed.
End Payments.

(** C10: A report of payments is entered completely, in one transaction.  When the
    BlockchainBridge reports payments from the blocks before [n], the Accountant begins a
    transaction, writes the payments and the block [n] to its working copy, commits, and
    only then counts the total, ends the scan and answers: at every step the database
    holds either what it held before or, after the commit, all that was written.  If the
    handler returns, every claim is reduced by what its debtor has paid according to the
    report, a payment from a wallet without an account changes no claim, the block [n] is
    stored and is read when the next payments are fetched, the total of payments grows by
    all of them, the scan is over and the user who asked for it gets an answer.  The
    Accountant does not panic as long as the database works. *)
Theorem payments_are_entered `{Signatures} s now ts n txs sk :
  receivables_ok (receivable (tables (conn s))) → time_ok ts → txs ≠ [] →
  (∀ tx, tx ∈ txs → wallet_address (tx_from tx) = Ret (sender tx) ∧ 0 ≤ wei_amount tx) →
  sum_wei wei_amount txs < 2 ^ 126 →
  (∀ a, sum_wei wei_amount txs - 2 ^ 126 ≤ claimed (claims (receivable (tables (conn s)))) a) →
  ("start_block"%string ∈ cfg_name <$> config (tables (conn s))) → 0 ≤ n < 2 ^ 64 → bound s = true →
  (∀ t, scan_started_at Receivables s = Some t → t ≤ now) →
  handle_accountant_event now (EvReceived (mkReceived ts (Value n) txs sk)) s =
    (_ ← in_transaction (entering ts n txs); _ ← count_received txs;
     _ ← mark_as_ended Receivables now; send_to_ui (scan_response <$> sk)) s ∧
  all_or_nothing (entering ts n txs) s ∧
  endures (faults (conn s) = []) (handle_accountant_event now (EvReceived (mkReceived ts (Value n) txs sk))) s
    (λ _ s' sent,
      receivables_ok (receivable (tables (conn s'))) ∧
      (∀ a, is_Some (claims (receivable (tables (conn s'))) !! a) ↔ is_Some (claims (receivable (tables (conn s))) !! a)) ∧
      (∀ a cl, claims (receivable (tables (conn s))) !! a = Some cl →
         claimed (claims (receivable (tables (conn s')))) a = claim_wei cl - paid_by a txs) ∧
      payable (tables (conn s')) = payable (tables (conn s)) ∧
      banned (tables (conn s')) = banned (tables (conn s)) ∧
      (faults (conn s) = [] → runs (start_block config) (conn s') (λ r _ _, r = Ok (Some n))) ∧
      total_paid_receivable_wei (financial_statistics s') =
        wrap 128 (total_paid_receivable_wei (financial_statistics s) + sum_wei wei_amount txs) ∧
      scan_started_at Receivables s' = None ∧
      sent = match sk with Some sk => [ToUiGateway (scan_response sk)] | None => [] end).
Proof.
  intros Hok Hts Hne Htxs Hsum Hlow Hcfg Hn Hb Hstart.
  split; [by apply received_in_one_transaction|]. split; [apply transaction_all_or_nothing|].
  set (h := faults (conn s) = []).
  assert (works h (conn s)) as Hw by by intros ?.
  cbn [handle_accountant_event]. unfold handle_received_payments, receivable_finish_scan. end_step. end_step.
  apply handle_new_received_payments_spec; try done. intros rows c' Hw' E' Hok' Hcl'.
  end_step. apply mark_as_ended_spec; [done|]. end_step. cbn [app rp_response_skeleton_opt].
  apply send_to_ui_spec; [by destruct sk|].
  cbn [conn set_conn set_started_at set_statistics]. rewrite E'.
  cbn [receivable payable banned set_config set_receivable]. split_and!; try done.
  - intros a. rewrite Hcl'. clear. unfold settle_claims. generalize (claims (receivable (tables (conn s)))).
    induction txs as [|tx txs IH]; intros L; [done|]. cbn. rewrite IH. apply lookup_alter_is_Some.
  - intros a cl Ha. rewrite Hcl', claimed_settle_claims, decide_True by done. unfold claimed. by rewrite Ha.
  - intros Hh. apply (endures_runs h); [done|]. apply (start_block_stored h _ n); [done| |done|done|done].
    exists (config (tables (conn s))). by rewrite E'.
  - by destruct sk.
Qed.

(** ** Delinquent debtors *)
Section Delinquents.
Context `{Signatures} (h : Prop).

(** The amount in gwei fits in 64 bits, for the log. *)
Definition loggable (wei : Z) : Prop := Z.abs wei < 2 ^ 63 * WEIS_IN_GWEI.

Lemma balance_and_age_spec now account : loggable (ra_balance_wei account) → ∃ r, balance_and_age now account = Ret r.
Proof.
  unfold loggable, WEIS_IN_GWEI. intros Hlog. unfold balance_and_age, wei_to_gwei, WEIS_IN_GWEI.
  rewrite checked_conversion_ok; [by eexists|]. apply in_i64_true.
  pose proof (Z.quot_abs (ra_balance_wei account) 1000000000) as Hq.
  rewrite Z.quot_div_nonneg in Hq by lia.
  pose proof (Z.div_lt_upper_bound (Z.abs (ra_balance_wei account)) (Z.abs 1000000000) (2 ^ 63)). lia.
Qed.

(** A change of the bans of the given accounts, one after the other. *)
Lemma each_ban_spec (rows : list ReceivableRow) (change : Wallet → books unit) (R : list (list Z) → list Z → Prop) now s P :
  works h (conn s) → bans_ok (tables (conn s)) →
  (∀ r, r ∈ rows → loggable (joined (rr_balance_high_b r) (rr_balance_low_b r))) →
  (∀ x, R [] x ↔ x ∈ banned (tables (conn s))) →
  (∀ done a c Q, works h c → bans_ok (tables c) → (∀ x, x ∈ banned (tables c) ↔ R done x) →
     (∀ c', works h c' → bans_ok (tables c') → rebanned (tables c) (tables c') →
        (∀ x, x ∈ banned (tables c') ↔ R (done ++ [a]) x) → Q tt c' []) →
     endures h (change (WalletAddress a)) c Q) →
  (∀ c', works h c' → bans_ok (tables c') → rebanned (tables (conn s)) (tables c') →
     (∀ x, x ∈ banned (tables c') ↔ R (rr_wallet_address <$> rows) x) → P tt (set_conn c' s) []) →
  endures h (each (λ account, _ ← on_db (change (ra_wallet account)); _ ← lift (balance_and_age now account); mret tt)
               (account_of_row <$> rows)) s P.
Proof.
  intros Hw Hb Hlog H0 Hchange HP. eapply endures_mono.
  - apply (endures_each h _ _ _ (λ done s' sent, sent = [] ∧ ∃ c', s' = set_conn c' s ∧ works h c' ∧
      bans_ok (tables c') ∧ rebanned (tables (conn s)) (tables c') ∧
      ∀ x, x ∈ banned (tables c') ↔ R (rr_wallet_address <$> take (length done) rows) x)).
    + split; [done|]. exists (conn s). rewrite set_conn_conn. split_and!; try done.
    + intros done account todo s1 sent Hl (-> & c1 & -> & Hw1 & Hb1 & Hre & Hx).
      assert (rows !! length done = Some (default (mkReceivableRow [] 0 0 0) (rows !! length done)) ∧
        account = account_of_row (default (mkReceivableRow [] 0 0 0) (rows !! length done))) as [Hr ->].
      { assert ((account_of_row <$> rows) !! length done = Some account) as Hl'
          by (rewrite Hl, lookup_app_r, Nat.sub_diag by done; done).
        rewrite list_lookup_fmap in Hl'. by destruct (rows !! length done); simplify_eq/=. }
      set (r := default _ _) in *. cbn [app]. end_step. apply endures_on_db. cbn [ra_wallet account_of_row conn set_conn].
      apply (Hchange (rr_wallet_address <$> take (length done) rows)); [done|done|done|].
      intros c2 Hw2 Hb2 Hre2 Hx2. end_step. end_step.
      destruct (balance_and_age_spec now (account_of_row r)) as (v & ->);
        [by apply (Hlog r), (list_elem_of_lookup_2 _ (length done))|].
      cbn [returns]. end_step. split; [done|]. exists c2. split_and!; try done.
      * by etrans.
      * intros x. rewrite length_app, Nat.add_1_r, (take_S_r _ _ r), fmap_app by done. apply Hx2.
  - intros [] s' sent (-> & c' & -> & ? & ? & ? & Hx). apply HP; try done. intros x. rewrite Hx.
    by rewrite length_fmap, firstn_all.
Qed.

(** The bans after the search for delinquents and for those that have paid. *)
Definition banned_after (pt : PaymentThresholds) (now : Z) (C : gmap (list Z) Claim) (b : list (list Z)) (a : list Z) : Prop :=
  (a ∈ b ∨ ∃ cl, C !! a = Some cl ∧ delinquent pt now cl = true) ∧
  ¬ ∃ cl, C !! a = Some cl ∧ reformed pt cl = true.

Lemma exists_eq_Some {A} (x : A) (Q : A → Prop) : (∃ y, Some x = Some y ∧ Q y) ↔ Q x.
Proof. split; [by intros (y & [= <-] & ?)|by exists x]. Qed.

Lemma exists_eq_None {A} (Q : A → Prop) : (∃ y, None = Some y ∧ Q y) ↔ False.
Proof. split; [by intros (y & ? & ?)|done]. Qed.

Lemma claims_select rows (q : list Z → Claim → bool) a :
  receivables_ok rows →
  a ∈ rr_wallet_address <$> sql_select (λ r, q (rr_wallet_address r) (claim_of_row r)) rows ↔
    ∃ cl, claims rows !! a = Some cl ∧ q a cl = true.
Proof.
  intros Hok. rewrite list_elem_of_fmap. setoid_rewrite elem_of_sql_select. split.
  - intros (r & -> & Hp & Hr). exists (claim_of_row r). by rewrite claims_row.
  - intros (cl & (r & Hr & <- & <-)%table_map_Some & Hp); [|apply Hok]. by exists r.
Qed.

Lemma scan_for_delinquencies_spec now s P :
  works h (conn s) → receivables_ok (receivable (tables (conn s))) → bans_ok (tables (conn s)) →
  exact_thresholds (payment_thresholds s) → time_ok now →
  (∀ a cl, claims (receivable (tables (conn s))) !! a = Some cl → loggable (claim_wei cl)) →
  (∀ c', works h c' → bans_ok (tables c') → rebanned (tables (conn s)) (tables c') →
     (∀ a, a ∈ banned (tables c') ↔
        banned_after (payment_thresholds s) now (claims (receivable (tables (conn s)))) (banned (tables (conn s))) a) →
     P tt (set_conn c' s) []) →
  endures h (scan_for_delinquencies now) s P.
Proof.
  intros Hw Hok Hb Hpt Ht Hlog HP. unfold scan_for_delinquencies, find_and_ban_delinquents, find_and_unban_reformed_nodes.
  assert (∀ r, r ∈ receivable (tables (conn s)) → loggable (joined (rr_balance_high_b r) (rr_balance_low_b r))) as Hlog'.
  { intros r Hr. apply (Hlog (rr_wallet_address r) (claim_of_row r)). by apply claims_row. }
  end_step. end_step. end_step. end_step. apply endures_on_db. apply new_delinquencies_spec; try done.
  intros c1 Hw1 E1. set (p1 := λ r, delinquent _ _ _ && _).
  apply (each_ban_spec _ ban (λ done x, x ∈ banned (tables (conn s)) ∨ x ∈ done)).
  { done. } { cbn. by rewrite E1. } { intros r [_ Hr]%elem_of_sql_select. by apply Hlog'. }
  { cbn. rewrite E1. set_solver. }
  { intros done a c Q Hwc Hbc Hx HQ. apply ban_spec; [done|done|]. intros c' ? ? ? Hx'. apply HQ; [done..|].
    intros x. rewrite Hx', Hx. set_solver. }
  cbn [conn set_conn]. rewrite E1. intros c2 Hw2 Hb2 Hre2 Hx2. end_step. end_step. end_step. apply endures_on_db.
  assert (receivable (tables c2) = receivable (tables (conn s))) as Hr2 by apply Hre2.
  apply paid_delinquencies_spec; cbn [conn set_conn]; [done|by rewrite Hr2|done|]. rewrite Hr2. intros c3 Hw3 E3.
  set (p2 := λ r, bool_decide _ && _). cbn [app].
  apply (each_ban_spec _ unban (λ done x, x ∈ banned (tables c2) ∧ x ∉ done)).
  { done. } { cbn. by rewrite E3. } { intros r [_ Hr]%elem_of_sql_select. by apply Hlog'. }
  { cbn. rewrite E3. set_solver. }
  { intros done a c Q Hwc Hbc Hx HQ. apply unban_spec; [done|done|]. intros c' ? ? ? Hx'. apply HQ; [done..|].
    intros x. rewrite Hx', Hx. set_solver. }
  cbn [conn set_conn]. rewrite E3.
  intros c4 Hw4 Hb4 Hre4 Hx4.
  change (set_conn c4 (set_conn c3 (set_conn c2 (set_conn c1 s)))) with (set_conn c4 s).
  apply HP; [done|done|by etrans|]. intros a.
  assert (a ∈ rr_wallet_address <$> sql_select p1 (receivable (tables (conn s))) ↔
    ∃ cl, claims (receivable (tables (conn s))) !! a = Some cl ∧
      delinquent (payment_thresholds s) now cl && bool_decide (a ∉ banned (tables (conn s))) = true) as Hs1
    by exact (claims_select _ (λ a cl, delinquent (payment_thresholds s) now cl &&
                 bool_decide (a ∉ banned (tables (conn s)))) a Hok).
  assert (a ∈ rr_wallet_address <$> sql_select p2 (receivable (tables (conn s))) ↔
    ∃ cl, claims (receivable (tables (conn s))) !! a = Some cl ∧
      bool_decide (a ∈ banned (tables c2)) && reformed (payment_thresholds s) cl = true) as Hs2
    by exact (claims_select _ (λ a cl, bool_decide (a ∈ banned (tables c2)) &&
                 reformed (payment_thresholds s) cl) a Hok).
  rewrite Hx4, Hs2.
  pose proof (Hx2 a) as Hx2a. rewrite Hs1 in Hx2a. unfold banned_after.
  destruct (claims (receivable (tables (conn s))) !! a) as [cl|].
  - rewrite !(exists_eq_Some cl) in *. rewrite !andb_true_iff, !bool_decide_eq_true in *.
    destruct (decide (a ∈ banned (tables (conn s)))); tauto.
  - rewrite !exists_eq_None in *. tauto.
Qed.
End Delinquents.

Section NotServed.
Context `{Signatures} `{KeyOrder} `{Codec Payloads.Value} `{Codec LiveHop} `{Codec MessageType}
        `{Codec LiveCoresPackage} `{Codec Z}
        `{Payload ClientRequestPayload_0v1} `{Payload ClientResponsePayload_0v1}
        `{Payload DnsResolveFailure_0v1} `{Payload Gossip_0v1} `{Payload GossipFailure_0v1}.

Lemma good_payer_not_banned b rs p a :
  bans_ok b → good_payer (ban_cache b) rs p → wallet_address (payer_wallet p) = Ret a → a ∉ banned b.
Proof.
  intros [_ Hc] [_ Hd] Ha Hin. unfold is_delinquent, as_address_wallet in Hd. rewrite Ha in Hd.
  revert Hd. run_outcome. rewrite bool_decide_eq_true_2; [done|]. apply Hc. by apply list_elem_of_fmap_2.
Qed.

Lemma paid_for_not_banned b rs ibcd lcp p a :
  bans_ok b → paid_for (ban_cache b) rs ibcd lcp p → wallet_address (payer_wallet p) = Ret a → a ∉ banned b.
Proof. intros Hb (hop & _ & _ & Hgood). exact (good_payer_not_banned _ _ _ _ Hb Hgood). Qed.

(** C7: Who does not pay is not served.  The scan for payments bans exactly the debtors
    that are delinquent, by the limit for the age of their debt, admits exactly those
    again whose debt is at most the level for lifting a ban, and touches no account; it
    asks the BlockchainBridge for the payments.  From then on the Hopper passes data on,
    with the report of the service to that payer's account, or hands a request of that
    payer to the ProxyClient, only when the hop of the arrived package that is addressed
    to this node holds a payer whose wallet is not among those to be banned.  This is for
    thresholds the configurator accepts and within what the query computes exactly: a
    permitted permanent debt below 2^63 wei (above it, the query takes the upper half of the debt against 0 and not
    against that of the permitted debt, so that smaller debts are banned and larger ones
    spared), a debt threshold below 2^63 gwei, a line that falls by at most 2^63 wei in a
    second over an interval that is not 0, maturity time and interval of together at most
    2^32 seconds and a grace period below 2^62 seconds; and for debts below 2^63 gwei, which the log line can
    show.  A debt of exactly the level for lifting a ban lifts it, where the interface
    document asks for less than that level. *)
Theorem delinquents_are_not_served s now tr :
  receivables_ok (receivable (tables (conn s))) → bans_ok (tables (conn s)) →
  exact_thresholds (payment_thresholds s) → time_ok now → bound s = true → scan_started_at Receivables s = None →
  (∀ a cl, claims (receivable (tables (conn s))) !! a = Some cl → loggable (claim_wei cl)) →
  let to_be_banned := banned_after (payment_thresholds s) now (claims (receivable (tables (conn s))))
                        (banned (tables (conn s))) in
  endures (faults (conn s) = []) (handle_accountant_event now (scan_request Receivables tr)) s (λ _ s' sent,
    (∀ a, a ∈ banned (tables (conn s')) ↔ to_be_banned a) ∧ bans_ok (tables (conn s')) ∧
    receivable (tables (conn s')) = receivable (tables (conn s)) ∧
    payable (tables (conn s')) = payable (tables (conn s)) ∧
    scan_started_at Receivables s' = Some now ∧
    sent = ToBridgeRetrieveTransactions (mkRetrieve (earning_wallet s) (trigger_skeleton tr))
             :: next_scan tr Receivables s ∧
    ∀ t rs ibcd msgs, route (ban_cache (tables (conn s'))) t rs ibcd = Ret msgs →
      (∀ m, ToDispatcher m ∈ msgs → ∃ lcp p, paid_for (ban_cache (tables (conn s'))) rs ibcd lcp p ∧
         msgs = [ToAccountant (mkReport t (payer_wallet p) (length (lcp_payload lcp))
                                 (per_routing_service rs) (per_routing_byte rs));
                 ToDispatcher m] ∧
         ∀ a, wallet_address (payer_wallet p) = Ret a → ¬ to_be_banned a) ∧
      (∀ pkg, ToProxyClient pkg ∈ msgs → is_decentralized rs = true → ∃ lcp p,
         paid_for (ban_cache (tables (conn s'))) rs ibcd lcp p ∧ paying_wallet _ pkg = Some (payer_wallet p) ∧
         ∀ a, wallet_address (payer_wallet p) = Ret a → ¬ to_be_banned a)).
Proof.
  intros Hok Hb Hpt Ht Hbound Hidle Hlog to_be_banned. set (h := faults (conn s) = []).
  assert (works h (conn s)) as Hw by by intros ?.
  apply endures_scan_request. unfold handle_request_of_scan, handle_request_of_scan_for_receivable, receivable_begin_scan.
  end_step. end_step. end_step. end_step. end_step. rewrite Hidle. cbn [app].
  unfold mark_as_started. end_step. end_step. cbn [app]. end_step.
  apply scan_for_delinquencies_spec; try done. intros c' Hw' Hb' (Hp' & _ & Hr' & _) Hx'. end_step. cbn [app].
  unfold send_bound. end_step. end_step. cbn [bound set_conn set_started_at]. rewrite Hbound. end_step.
  cbn [conn set_conn set_started_at scan_intervals scan_started_at app receivables_initiated_at].
  split_and!; try done. intros t rs ibcd msgs Hr. destruct (route_sends_paid _ _ _ _ _ Hr) as [Hd Hpc]. split.
  - intros m Hm. destruct (Hd m Hm) as (lcp & p & Hfor & _ & Emsgs). exists lcp, p. split_and!; [done..|].
    intros a Ha Hban. apply (paid_for_not_banned _ _ _ _ _ _ Hb' Hfor Ha). by apply Hx'.
  - intros pkg Hpkg Hdec. destruct (Hpc pkg Hpkg Hdec) as (lcp & p & Hfor & _ & Epay & _).
    exists lcp, p. split_and!; [done..|].
    intros a Ha Hban. apply (paid_for_not_banned _ _ _ _ _ _ Hb' Hfor Ha). by apply Hx'.
Qed.
End NotServed.
