(* ===== verification/PayableScanFacts.v ===== *)
(** * The scan for debts to pay

    Which debts a scan hands to the BlockchainBridge, and what becomes of the debts when
    it reports which payments were sent. *)

From S2P Require Import Prelude.
From S2P Require Import Actor.
From S2P Require Import NodeAddr.
From S2P Require Import NodeRecord.
From S2P Require Import Cryptde.
From S2P Require Import Sql.
From S2P Require Import BigInt.
From S2P Require Import Thresholds.
From S2P Require Import ConfigStore.
From S2P Require Import AccountantDb.
From S2P Require Import AccountantDbFacts.
From S2P Require Import FingerprintFacts.
From S2P Require Import FinancialQueries.
From S2P Require Import Scanners.
From S2P Require Import Accountant.
From S2P Require Import AccountantFacts.
From S2P Require Import ReceivableScanFacts.

(** ** The choice *)
Definition debt_account (r : PayableRow) : PayableAccount :=
  mkPayableAccount (WalletAddress (pr_wallet_address r)) (debt_wei (debt_of_row r)) (pr_last_paid_timestamp r) None.

(** The debts that are due and not being paid. *)
Definition to_pay (pt : PaymentThresholds) (now : Z) (r : PayableRow) : bool :=
  bool_decide (pr_pending_payable_rowid r = None) && due pt (now - pr_last_paid_timestamp r) (debt_wei (debt_of_row r)).

Section PayableScan.
Context `{Signatures} (h : Prop).

Lemma payable_account_of_row_spec r :
  payable_row_ok r → 0 ≤ debt_wei (debt_of_row r) → payable_account_of_row r = Ret (debt_account r).
Proof.
  intros [Hd Ht] Hpos. unfold payable_account_of_row. rewrite reconstitute_spec by done. run_outcome.
  cbn [debt_wei debt_of_row] in Hpos. pose proof (divided_storable _ _ Hd) as [_ ?].
  rewrite checked_conversion_ok by (apply in_type_u128; lia). run_outcome. by rewrite from_time_t_ok.
Qed.

(** What a scan needs of the debts: amounts that are not negative, times that are past. *)
Definition payable_debts (now : Z) (rows : list PayableRow) : Prop :=
  ∀ r, r ∈ rows → 0 ≤ debt_wei (debt_of_row r) ∧ pr_last_paid_timestamp r ≤ now.

Lemma payable_begin_scan_spec s w now sk P :
  works h (conn s) → payables_ok (payable (tables (conn s))) → payable_debts now (payable (tables (conn s))) →
  sound_thresholds (payment_thresholds s) → scan_started_at Payables s = None →
  let chosen := sql_select (to_pay (payment_thresholds s) now) (payable (tables (conn s))) in
  (∀ c', works h c' → tables c' = tables (conn s) →
     if decide (chosen = []) then P (Err NothingToProcess) (set_conn c' s) []
     else P (Ok (mkQualifiedPayables (debt_account <$> chosen) w sk))
            (set_started_at Payables (Some now) (set_conn c' s)) []) →
  endures h (payable_begin_scan w now sk) s P.
Proof.
  intros Hw Hok Hrows Hpt Hidle chosen HP. unfold payable_begin_scan. end_step. end_step. rewrite Hidle.
  cbn [app]. unfold mark_as_started. end_step. end_step. end_step. apply endures_on_db.
  unfold non_pending_payables. end_step. apply endures_query_or_panic; [done|]. intros c' Hw' E'.
  cbn [conn set_started_at] in *. end_step.
  rewrite (map_outcome_ret _ debt_account).
  2:{ intros r [_ Hr]%elem_of_sql_select. apply payable_account_of_row_spec; [by eapply payables_ok_row|by apply Hrows]. }
  cbn [returns]. end_step. end_step. end_step. end_step. unfold sniff_out_alarming_payables.
  cbn [payment_thresholds set_conn set_started_at].
  rewrite (filter_outcome_select _ (λ p, due (payment_thresholds s) (now - pa_last_paid_timestamp p) (pa_balance_wei p))).
  2:{ intros p (r & -> & [_ Hr]%elem_of_sql_select)%list_elem_of_fmap.
      rewrite payable_exceeded_threshold_spec by (done || apply (Hrows r Hr)). run_outcome. by destruct (due _ _ _). }
  cbn [returns]. rewrite sql_select_fmap, sql_select_select. cbn [app].
  specialize (HP c' Hw' E'). unfold chosen in HP.
  change (sql_select _ (payable (tables (conn s))))
    with (sql_select (to_pay (payment_thresholds s) now) (payable (tables (conn s)))).
  destruct (sql_select (to_pay (payment_thresholds s) now) (payable (tables (conn s)))) as [|r l]; cbn [fmap list_fmap].
  - rewrite decide_True in HP by done. end_step. apply mark_as_ended_spec; [by intros t [= <-]|].
    end_step. cbn [app]. revert HP. by destruct s; cbn in *; subst.
  - rewrite decide_False in HP by done. end_step. done.
Qed.

(** ** Payments that were sent *)
Lemma foldl_insert_lookup {A} (key : A → Z) (val : A → Wallet) l (m : gmap Z Wallet) k :
  (k ∉ key <$> l → foldl (λ m x, <[key x := val x]> m) m l !! k = m !! k) ∧
  (NoDup (key <$> l) → ∀ x, x ∈ l → key x = k → foldl (λ m x, <[key x := val x]> m) m l !! k = Some (val x)).
Proof.
  revert m. induction l as [|y l IH]; intros m; cbn [foldl fmap list_fmap].
  { split; [done|]. by intros _ x ?%elem_of_nil. }
  destruct (IH (<[key y := val y]> m)) as [IH1 IH2]. split.
  - intros [Hne Hnot]%not_elem_of_cons. by rewrite IH1, lookup_insert_ne.
  - intros [Hnot Hnd]%NoDup_cons x [->|Hx]%elem_of_cons E; [|by apply IH2].
    rewrite IH1 by by rewrite <-E. rewrite E. by rewrite lookup_insert_eq.
Qed.

Lemma take_wallets_spec ids m (w : Z → Wallet) :
  NoDup ids.*2 → (∀ x, x ∈ ids.*2 → m !! x = Some (w x)) →
  ∃ m', take_wallets ids m = Ret ((λ '(i, x), mkMetadata (w x) x i) <$> ids, m').
Proof.
  revert m. induction ids as [|[i x] ids IH]; intros m Hnd Hm; [by eexists|].
  cbn [take_wallets fmap list_fmap snd] in *. apply NoDup_cons in Hnd as [Hx Hnd].
  rewrite (Hm x) by left. cbn [expect]. run_outcome.
  destruct (IH (delete x m)) as (m' & ->); [done| |by eexists].
  intros y Hy. rewrite lookup_delete_ne by by intros ->. apply Hm. by right.
Qed.

(** Debts with the transactions that pay them. *)
Record batch_ok (s : Accountant) (l : list (PayableRow * FingerprintRow)) : Prop := {
  bo_pending rf : rf ∈ l → rf.2 ∈ pending_payable (tables (conn s));
  bo_distinct : NoDup (fr_transaction_hash <$> l.*2)
}.

Definition payment_of (rf : PayableRow * FingerprintRow) : PendingPayable :=
  mkPendingPayable (WalletAddress (pr_wallet_address rf.1)) (fr_transaction_hash rf.2).
Definition mark_of (rf : PayableRow * FingerprintRow) : list Z * Z := (pr_wallet_address rf.1, fr_rowid rf.2).

Lemma batch_hash_inj s l f rf :
  fingerprints_ok (pending_payable (tables (conn s))) → batch_ok s l → f ∈ pending_payable (tables (conn s)) →
  rf ∈ l → fr_transaction_hash f = fr_transaction_hash rf.2 → f = rf.2.
Proof.
  intros Hok Hb Hf Hrf E. by eapply (NoDup_fmap_inj_on fr_transaction_hash); [apply Hok|done|by apply (bo_pending s l)|].
Qed.

(** The address that the transaction with the given hash pays. *)
Definition address_for (l : list (PayableRow * FingerprintRow)) (x : Z) : list Z :=
  default [] ((list_to_map ((λ rf, (fr_transaction_hash rf.2, pr_wallet_address rf.1)) <$> l) : gmap Z (list Z)) !! x).

Definition sent_rows (s : Accountant) (l : list (PayableRow * FingerprintRow)) : list FingerprintRow :=
  sql_select (λ f, bool_decide (fr_transaction_hash f ∈ pp_hash <$> (payment_of <$> l))) (pending_payable (tables (conn s))).

Lemma address_for_spec s l rf : batch_ok s l → rf ∈ l → address_for l (fr_transaction_hash rf.2) = pr_wallet_address rf.1.
Proof.
  intros [_ Hnd] Hrf. unfold address_for. erewrite elem_of_list_to_map_1; [done| |].
  - rewrite <-list_fmap_compose. by rewrite <-list_fmap_compose in Hnd.
  - by apply (list_elem_of_fmap_2 (λ rf, (fr_transaction_hash rf.2, pr_wallet_address rf.1)) _ rf).
Qed.

Lemma elem_of_sent_rows s l f :
  fingerprints_ok (pending_payable (tables (conn s))) → batch_ok s l →
  f ∈ sent_rows s l ↔ ∃ rf, rf ∈ l ∧ f = rf.2.
Proof.
  intros Hok Hb. unfold sent_rows. rewrite elem_of_sql_select, bool_decide_eq_true, <-list_fmap_compose, list_elem_of_fmap.
  split.
  - intros [(rf & E & Hrf) Hf]. exists rf. split; [done|]. by eapply batch_hash_inj.
  - intros (rf & Hrf & ->). split; [by exists rf|by apply (bo_pending s l)].
Qed.

Lemma sent_rows_marks s l :
  fingerprints_ok (pending_payable (tables (conn s))) → batch_ok s l →
  (λ f, (address_for l (fr_transaction_hash f), fr_rowid f)) <$> sent_rows s l ≡ₚ mark_of <$> l.
Proof.
  intros Hok Hb. assert (NoDup (sent_rows s l)) as Hnd.
  { apply NoDup_filter, (NoDup_fmap_1 fr_rowid), Hok. }
  assert (NoDup l.*2) as Hnd2 by (apply (NoDup_fmap_1 fr_transaction_hash), Hb).
  assert (sent_rows s l ≡ₚ l.*2) as Hperm.
  { apply NoDup_Permutation; [done|done|]. intros f. rewrite elem_of_sent_rows by done.
    rewrite list_elem_of_fmap. naive_solver. }
  rewrite Hperm, <-list_fmap_compose. apply reflexive_eq, list_fmap_ext. intros i rf Hi%list_elem_of_lookup_2.
  unfold mark_of. cbn. by rewrite (address_for_spec s).
Qed.

Lemma separate_fingerprints_spec s l P :
  works h (conn s) → fingerprints_ok (pending_payable (tables (conn s))) → batch_ok s l →
  (∀ c', works h c' → tables c' = tables (conn s) →
     P ((λ f, mkMetadata (WalletAddress (address_for l (fr_transaction_hash f))) (fr_transaction_hash f) (Some (fr_rowid f)))
          <$> sent_rows s l, []) (set_conn c' s) []) →
  endures h (separate_existent_and_nonexistent_fingerprints (payment_of <$> l)) s P.
Proof.
  intros Hw Hok Hb HP. unfold separate_existent_and_nonexistent_fingerprints. end_step. apply endures_on_db.
  apply fingerprints_rowids_spec; [done|]. intros c' Hw' E'. fold (sent_rows s l).
  cbn [rowid_results no_rowid_results].
  assert (∀ x, x ∈ pp_hash <$> (payment_of <$> l) ↔ ∃ rf, rf ∈ l ∧ x = fr_transaction_hash rf.2) as Hhashes.
  { intros x. rewrite <-list_fmap_compose, list_elem_of_fmap. naive_solver. }
  assert (filter (λ x, x ∉ fr_transaction_hash <$> pending_payable (tables (conn s))) (pp_hash <$> (payment_of <$> l)) = [])
    as ->.
  { apply elem_of_nil_inv. intros x [Hnot (rf & Hrf & ->)%Hhashes]%list_elem_of_filter. apply Hnot.
    apply list_elem_of_fmap_2. by apply (bo_pending s l). }
  rewrite app_nil_r, <-!list_fmap_compose. unfold compose. cbn [snd fst].
  rewrite decide_True.
  2:{ apply set_eq. intros x. rewrite !elem_of_list_to_set. split.
      - intros (rf & -> & Hrf)%list_elem_of_fmap. apply list_elem_of_fmap. exists rf.2. split; [done|].
        apply elem_of_sent_rows; [done|done|by exists rf].
      - intros (f & -> & (rf & Hrf & ->)%elem_of_sent_rows)%list_elem_of_fmap; [|done..]. apply list_elem_of_fmap.
        by exists rf. }
  destruct (take_wallets_spec ((λ f, (Some (fr_rowid f), fr_transaction_hash f)) <$> sent_rows s l)
    (foldl (λ m p, <[pp_hash p := pp_recipient_wallet p]> m) ∅ (payment_of <$> l))
    (λ x, WalletAddress (address_for l x))) as (m' & Em).
  { rewrite <-list_fmap_compose. apply NoDup_fmap_filter, Hok. }
  { intros x. rewrite <-list_fmap_compose. intros (f & -> & (rf & Hrf & ->)%elem_of_sent_rows)%list_elem_of_fmap; [|done..].
    cbn. rewrite (address_for_spec s) by done.
    erewrite (proj2 (foldl_insert_lookup pp_hash pp_recipient_wallet _ _ _) _ (payment_of rf)); try done.
    by apply list_elem_of_fmap_2.
    Unshelve. rewrite <-list_fmap_compose. destruct Hb as [_ Hnd]. by rewrite <-list_fmap_compose in Hnd. }
  end_step. end_step. rewrite Em. cbn [returns]. end_step. end_step. cbn [take_wallets fmap list_fmap].
  apply (returns_ret ([], m')). end_step. cbn [app]. rewrite <-list_fmap_compose. by apply HP.
Qed.

Lemma mark_debts_perm ps ps' L : NoDup ps.*1 → ps ≡ₚ ps' → mark_debts ps L = mark_debts ps' L.
Proof. intros Hnd Hp. unfold mark_debts. by rewrite (list_to_map_proper ps ps' Hnd Hp). Qed.

(** Debts that may be marked as being paid by the transactions. *)
Record markable (s : Accountant) (l : list (PayableRow * FingerprintRow)) : Prop := {
  ma_batch : batch_ok s l;
  ma_addresses : NoDup (pr_wallet_address <$> l.*1);
  ma_free rf : rf ∈ l → ∃ d, debts (payable (tables (conn s))) !! pr_wallet_address rf.1 = Some d ∧ debt_payment d = None;
  ma_unused rf a d : rf ∈ l → debts (payable (tables (conn s))) !! a = Some d → debt_payment d ≠ Some (fr_rowid rf.2)
}.

Lemma markable_marks s l :
  fingerprints_ok (pending_payable (tables (conn s))) → markable s l →
  let ps := (λ f, (address_for l (fr_transaction_hash f), fr_rowid f)) <$> sent_rows s l in
  NoDup ps.*1 ∧ NoDup ps.*2 ∧
  (∀ a i, (a, i) ∈ ps → 0 < i < 2 ^ 63 ∧
     (∃ d, debts (payable (tables (conn s))) !! a = Some d ∧ debt_payment d = None) ∧
     ∀ a' d, debts (payable (tables (conn s))) !! a' = Some d → debt_payment d ≠ Some i) ∧
  ps ≡ₚ mark_of <$> l.
Proof.
  intros Hok [Hb Ha Hfree Hun] ps. pose proof (sent_rows_marks s l Hok Hb) as Hp. fold ps in Hp. split_and!.
  - rewrite Hp, <-list_fmap_compose. by rewrite <-list_fmap_compose in Ha.
  - unfold ps. rewrite <-list_fmap_compose. apply NoDup_fmap_filter, Hok.
  - intros a i Hin. rewrite Hp in Hin. apply list_elem_of_fmap in Hin as (rf & [= -> ->] & Hrf).
    split; [|split; [by apply Hfree|intros a' d; by apply Hun]].
    eapply fro_rowid, fingerprints_ok_row; [done|]. by apply (bo_pending s l).
  - done.
Qed.

Lemma mark_pending_payable_spec s l P :
  works h (conn s) → payables_ok (payable (tables (conn s))) → fingerprints_ok (pending_payable (tables (conn s))) →
  markable s l → l ≠ [] →
  (∀ rows c', works h c' → tables c' = set_payable rows (tables (conn s)) → payables_ok rows →
     debts rows = mark_debts (mark_of <$> l) (debts (payable (tables (conn s)))) → P tt (set_conn c' s) []) →
  endures h (mark_pending_payable (payment_of <$> l)) s P.
Proof.
  intros Hw Hok Hf Hm Hne HP. unfold mark_pending_payable. end_step.
  apply separate_fingerprints_spec; [done|done|apply Hm|]. intros c1 Hw1 E1. cbn beta iota. end_step. end_step.
  unfold ready_data_for_supply.
  rewrite (map_outcome_ret _ (λ m, (md_recipient m, default 0 (md_rowid_opt m))))
    by by intros m (f & -> & _)%list_elem_of_fmap.
  cbn [returns]. rewrite <-list_fmap_compose. unfold compose. cbn [md_recipient md_rowid_opt default].
  destruct (markable_marks s l Hf Hm) as (Ha & Hi & Hps & Hperm).
  set (ps := _ <$> sent_rows s l) in Ha, Hi, Hps, Hperm.
  assert (sent_rows s l ≠ []) as Hne'.
  { intros E. unfold ps in Hperm. rewrite E in Hperm. apply Permutation_nil_l in Hperm. by destruct l. }
  end_step. set (data := _ <$> sent_rows s l). assert (data ≠ []) as Hdata by by destruct (sent_rows s l).
  destruct data as [|d0 data'] eqn:Ed; [done|]. rewrite <-Ed. clear Hdata. end_step. apply endures_on_db.
  apply (mark_pending_payables_rowids_spec h _ _ ps); cbn [conn set_conn]; rewrite ?E1; try done.
  - intros E. unfold ps in E. by destruct (sent_rows s l).
  - unfold data, ps. rewrite (map_outcome_ret _ (λ wi, (address_of wi.1, wi.2))).
    + by rewrite <-list_fmap_compose.
    + by intros wi (f & -> & _)%list_elem_of_fmap.
  - unfold data, ps. by rewrite !length_fmap.
  - intros rows c2 Hw2 E2 Hok2 Hd2. end_step. end_step. cbn [app].
    change (set_conn c2 (set_conn c1 s)) with (set_conn c2 s).
    eapply HP; [done|done|done|]. rewrite Hd2. by apply mark_debts_perm.
Qed.

(** Failed transactions leave no fingerprint. *)
Lemma discard_failed_spec s (fs : list FingerprintRow) P :
  works h (conn s) → fingerprints_ok (pending_payable (tables (conn s))) →
  (∀ f, f ∈ fs → f ∈ pending_payable (tables (conn s))) →
  (∀ c', works h c' →
     tables c' = set_pending_payable (sql_select (λ f, bool_decide (f ∉ fs)) (pending_payable (tables (conn s))))
                   (tables (conn s)) → P tt (set_conn c' s) []) →
  endures h (discard_failed_transactions_with_possible_fingerprints (fr_transaction_hash <$> fs)) s P.
Proof.
  intros Hw Hok Hfs HP. unfold discard_failed_transactions_with_possible_fingerprints.
  set (rows := pending_payable (tables (conn s))) in *.
  assert (∀ f, f ∈ rows → fr_transaction_hash f ∈ fr_transaction_hash <$> fs ↔ f ∈ fs) as Hinj.
  { intros f Hf. split; [|apply list_elem_of_fmap_2]. intros (f' & E & Hf')%list_elem_of_fmap.
    by rewrite (NoDup_fmap_inj_on fr_transaction_hash rows f f') by (done || apply Hok || by apply Hfs). }
  end_step. apply endures_on_db. apply fingerprints_rowids_spec; [done|]. intros c1 Hw1 E1. fold rows.
  cbn [rowid_results no_rowid_results].
  assert (filter (λ x, x ∉ fr_transaction_hash <$> rows) (fr_transaction_hash <$> fs) = []) as ->.
  { apply elem_of_nil_inv. intros x [Hnot (f & -> & Hf)%list_elem_of_fmap]%list_elem_of_filter. apply Hnot.
    by apply list_elem_of_fmap_2, Hfs. }
  rewrite (sql_select_ext _ (λ f, bool_decide (f ∈ fs))) by (intros f Hf; by apply bool_decide_ext, Hinj).
  set (found := sql_select _ rows).
  assert (∀ f, f ∈ rows → f ∉ fs ↔ has_rowid (fr_rowid <$> found) f = false) as Hkeep.
  { intros f Hf. unfold has_rowid. rewrite bool_decide_eq_false, list_elem_of_fmap. split.
    - intros Hnot (f' & E & [Hf'%bool_decide_eq_true Hrow]%elem_of_sql_select). apply Hnot.
      by rewrite (NoDup_fmap_inj_on fr_rowid rows f f') by (done || apply Hok).
    - intros Hnot Hin. apply Hnot. exists f. split; [done|]. apply elem_of_sql_select. by rewrite bool_decide_eq_true_2. }
  set (rr := (λ r, (fr_rowid r, fr_transaction_hash r)) <$> found).
  assert (rr.*1 = fr_rowid <$> found) as Hids by (unfold rr; by rewrite <-list_fmap_compose).
  end_step. destruct rr as [|x rr'] eqn:Er.
  - end_step. end_step. cbn [app]. apply HP; [done|]. rewrite E1, sql_select_all; [by destruct (tables (conn s))|].
    intros f Hf. apply bool_decide_eq_true, Hkeep; [done|]. rewrite <-Hids. by apply bool_decide_eq_false, not_elem_of_nil.
  - end_step. apply endures_on_db. rewrite Hids. apply delete_fingerprints_spec; cbn [conn set_conn]; rewrite ?E1; try done.
    + apply NoDup_fmap_filter, Hok.
    + intros i (f & -> & [_ Hf]%elem_of_sql_select)%list_elem_of_fmap. by apply list_elem_of_fmap_2.
    + intros c2 Hw2 E2. end_step. end_step. cbn [app]. apply HP; [done|]. rewrite E2. f_equal.
      apply sql_select_ext. intros f Hf. pose proof (Hkeep f Hf) as Hk. fold rows in Hk.
      symmetry.
      destruct (has_rowid _ f); cbn; [apply bool_decide_eq_false|apply bool_decide_eq_true]; naive_solver.
Qed.

(** A batch with what became of each transaction. *)
Abbreviation Batch := (list (PayableRow * FingerprintRow * bool)).

Definition response_of (x : PayableRow * FingerprintRow * bool) : ProcessedPayableFallible :=
  if x.2 then Correct (payment_of x.1)
  else Failed (WalletAddress (pr_wallet_address x.1.1)) (fr_transaction_hash x.1.2).
Definition accepted (b : Batch) : list (PayableRow * FingerprintRow) := (sql_select snd b).*1.
Definition refused (b : Batch) : list FingerprintRow := (sql_select (λ x, negb x.2) b).*1.*2.

Lemma separate_rpc_results_spec b :
  separate_rpc_results (response_of <$> b) =
    (payment_of <$> accepted b, non_empty (fr_transaction_hash <$> refused b)).
Proof.
  unfold separate_rpc_results, accepted, refused. f_equal; [|f_equal].
  - induction b as [|[rf []] b IH]; [done|..]; cbn; by rewrite IH.
  - induction b as [|[rf []] b IH]; [done|..]; cbn; by rewrite IH.
Qed.

Lemma mark_debts_nil L : mark_debts [] L = L.
Proof.
  unfold mark_debts. apply map_eq. intros a. rewrite map_lookup_imap. by destruct (L !! a).
Qed.

Lemma mark_accepted_spec s l P :
  works h (conn s) → payables_ok (payable (tables (conn s))) → fingerprints_ok (pending_payable (tables (conn s))) →
  markable s l →
  (∀ rows c', works h c' → tables c' = set_payable rows (tables (conn s)) → payables_ok rows →
     debts rows = mark_debts (mark_of <$> l) (debts (payable (tables (conn s)))) → P tt (set_conn c' s) []) →
  endures h (if decide (length (payment_of <$> l) = 0%nat) then mret tt else mark_pending_payable (payment_of <$> l)) s P.
Proof.
  intros Hw Hok Hf Hm HP. case_decide as Hl.
  - rewrite length_fmap in Hl. apply nil_length_inv in Hl as ->. end_step. rewrite <-(set_conn_conn s).
    eapply (HP (payable (tables (conn s)))); [done|by destruct (tables (conn s))|done|]. symmetry. apply mark_debts_nil.
  - apply mark_pending_payable_spec; try done. by intros ->.
Qed.

Lemma discard_refused_spec s (fs : list FingerprintRow) P :
  works h (conn s) → fingerprints_ok (pending_payable (tables (conn s))) →
  (∀ f, f ∈ fs → f ∈ pending_payable (tables (conn s))) →
  (∀ c', works h c' →
     tables c' = set_pending_payable (sql_select (λ f, bool_decide (f ∉ fs)) (pending_payable (tables (conn s))))
                   (tables (conn s)) → P tt (set_conn c' s) []) →
  endures h (handle_sent_payable_errors (RemotelyCausedErrors <$> non_empty (fr_transaction_hash <$> fs))) s P.
Proof.
  intros Hw Hok Hfs HP. destruct fs as [|f fs]; [|by apply discard_failed_spec].
  apply (endures_ret h tt). rewrite <-(set_conn_conn s). apply HP; [done|].
  rewrite sql_select_all; [by destruct (tables (conn s))|]. intros f _. by apply bool_decide_eq_true, not_elem_of_nil.
Qed.

Lemma payable_finish_scan_spec s now b sk P :
  works h (conn s) → payables_ok (payable (tables (conn s))) → fingerprints_ok (pending_payable (tables (conn s))) →
  b ≠ [] → markable s (accepted b) → (∀ f, f ∈ refused b → f ∈ pending_payable (tables (conn s))) →
  (∀ t, scan_started_at Payables s = Some t → t ≤ now) →
  (∀ rows c', works h c' → payables_ok rows →
     debts rows = mark_debts (mark_of <$> accepted b) (debts (payable (tables (conn s)))) →
     tables c' = set_pending_payable (sql_select (λ f, bool_decide (f ∉ refused b)) (pending_payable (tables (conn s))))
                   (set_payable rows (tables (conn s))) →
     P (scan_response <$> sk) (set_started_at Payables None (set_conn c' s)) []) →
  endures h (payable_finish_scan now (mkSentPayables (Ok (response_of <$> b)) sk)) s P.
Proof.
  intros Hw Hok Hf Hne Hm Href Hstart HP. unfold payable_finish_scan, separate_errors.
  cbn [payment_procedure_result sp_response_skeleton_opt]. rewrite decide_False by (rewrite length_fmap; by destruct b).
  rewrite separate_rpc_results_spec. end_step. end_step. apply returns_ret. end_step.
  apply mark_accepted_spec; [done..|]. intros rows c1 Hw1 E1 Hok1 Hd1. end_step.
  apply discard_refused_spec; cbn [conn set_conn]; rewrite ?E1; [done..|]. intros c2 Hw2 E2. end_step.
  apply mark_as_ended_spec; [done|]. end_step. cbn [app].
  change (set_conn c2 (set_conn c1 s)) with (set_conn c2 s). by eapply HP.
Qed.
End PayableScan.
