(* ===== verification/ReceiptFacts.v ===== *)
(** * Receipts of transactions

    What becomes of debts and fingerprints when the receipts of the transactions under way
    have been fetched: confirmed transactions settle the debts they pay, failed ones are
    marked, the others are looked for again. *)

From S2P Require Import Prelude.
From S2P Require Import Actor.
From S2P Require Import NodeAddr.
From S2P Require Import NodeRecord.
From S2P Require Import Cryptde.
From S2P Require Import Sql.
From S2P Require Import BigInt.
From S2P Require Import Thresholds.
From S2P Require Import ConfigStore.
From S2P Require Import AccountantDb.
From S2P Require Import AccountantDbFacts.
From S2P Require Import FingerprintFacts.
From S2P Require Import FinancialQueries.
From S2P Require Import Scanners.
From S2P Require Import Accountant.
From S2P Require Import AccountantFacts.
From S2P Require Import ReceivableScanFacts.

(** ** Verdicts *)
Inductive Verdict := Confirmed | Rejected | Undecided.

#[export] Instance Verdict_eq_dec : EqDecision Verdict.
Proof. solve_decision. Defined.

Definition verdict (res : TransactionReceiptResult) : Verdict :=
  match res with
  | RpcResponse _ (TxSucceeded _ _) => Confirmed
  | RpcResponse _ TxFailed => Rejected
  | RpcResponse _ TxPending | LocalError _ => Undecided
  end.

(** Receipts with the rows of the fingerprints they are for. *)
Abbreviation Receipts := (list (TransactionReceiptResult * FingerprintRow)).

Definition with_verdict (v : Verdict) (l : Receipts) : list FingerprintRow :=
  (sql_select (λ x, bool_decide (verdict x.1 = v)) l).*2.

Definition reported (l : Receipts) : list (TransactionReceiptResult * PendingPayableFingerprint) :=
  (λ x, (x.1, fingerprint_view x.2)) <$> l.

Lemma elem_of_with_verdict v l r : r ∈ with_verdict v l ↔ ∃ x, x ∈ l ∧ verdict x.1 = v ∧ r = x.2.
Proof.
  unfold with_verdict. rewrite list_elem_of_fmap. setoid_rewrite elem_of_sql_select. setoid_rewrite bool_decide_eq_true.
  naive_solver.
Qed.

Lemma handle_receipts_spec l sk :
  handle_receipts_for_pending_transactions (mkReportReceipts (reported l) sk) =
    mkScanReport (pending_id_from <$> (fingerprint_view <$> with_verdict Undecided l))
      (pending_id_from <$> (fingerprint_view <$> with_verdict Rejected l))
      (fingerprint_view <$> with_verdict Confirmed l).
Proof.
  unfold handle_receipts_for_pending_transactions. cbn [fingerprints_with_receipts].
  enough (∀ a b c, foldl (λ report '(receipt_result, fingerprint),
    match receipt_result with
    | RpcResponse _ TxPending => handle_none_receipt report fingerprint
    | RpcResponse _ TxFailed => handle_status_with_failure report fingerprint
    | RpcResponse _ (TxSucceeded _ _) => handle_status_with_success report fingerprint
    | LocalError _ => handle_none_receipt report fingerprint
    end) (mkScanReport a b c) (reported l) =
    mkScanReport (a ++ (pending_id_from <$> (fingerprint_view <$> with_verdict Undecided l)))
      (b ++ (pending_id_from <$> (fingerprint_view <$> with_verdict Rejected l)))
      (c ++ (fingerprint_view <$> with_verdict Confirmed l))) as Hfold by apply Hfold.
  induction l as [|[[x []|x] r] l IH]; intros a b c; [cbn; by rewrite !app_nil_r|..]; cbn;
    unfold handle_none_receipt, handle_status_with_failure, handle_status_with_success; cbn;
    rewrite IH; by rewrite <-?app_assoc.
Qed.

Lemma with_verdict_NoDup v l : NoDup (fr_rowid <$> l.*2) → NoDup (fr_rowid <$> with_verdict v l).
Proof.
  unfold with_verdict. rewrite <-!list_fmap_compose. apply NoDup_fmap_filter.
Qed.

(** The fingerprints after a scan. *)
Definition after_receipts (l : Receipts) (rows : list FingerprintRow) : list FingerprintRow :=
  (λ r, if bool_decide (r ∈ with_verdict Undecided l) then retried r
        else if bool_decide (r ∈ with_verdict Rejected l) then given_up r else r)
  <$> sql_select (λ r, bool_decide (r ∉ with_verdict Confirmed l)) rows.

Section ReceiptFacts.
Context `{Signatures} (h : Prop).

Lemma has_rowid_select rows sub r :
  fingerprints_ok rows → (∀ x, x ∈ sub → x ∈ rows) → r ∈ rows →
  has_rowid (fr_rowid <$> sub) r = bool_decide (r ∈ sub).
Proof.
  intros Hok Hsub Hr. apply bool_decide_ext. split; [|apply list_elem_of_fmap_2].
  intros (r' & E & Hr')%list_elem_of_fmap.
  by rewrite (NoDup_fmap_inj_on fr_rowid rows r r') by (done || apply Hok || by apply Hsub).
Qed.

(** Fingerprints that keep their rowid and hash. *)
Lemma fingerprints_ok_change rows (f : FingerprintRow → FingerprintRow) :
  fingerprints_ok rows →
  (∀ r, fr_rowid (f r) = fr_rowid r ∧ fr_transaction_hash (f r) = fr_transaction_hash r ∧
        (fingerprint_row_ok r → fingerprint_row_ok (f r))) →
  fingerprints_ok (f <$> rows).
Proof.
  intros [Hr Hh Hrows] Hf. split.
  - rewrite <-list_fmap_compose. by rewrite (list_fmap_ext (fr_rowid ∘ f) fr_rowid rows) by (intros i r _; apply Hf).
  - rewrite <-list_fmap_compose. by rewrite (list_fmap_ext (fr_transaction_hash ∘ f) fr_transaction_hash rows)
      by (intros i r _; apply Hf).
  - apply Forall_fmap, (Forall_impl _ _ _ Hrows). intros r. apply Hf.
Qed.

Lemma fingerprints_ok_select rows p : fingerprints_ok rows → fingerprints_ok (sql_select p rows).
Proof.
  intros [Hr Hh Hrows]. split; [by apply NoDup_fmap_filter..|]. apply Forall_forall.
  intros r [_ Hin]%elem_of_sql_select. by eapply Forall_forall in Hrows.
Qed.

Definition payees (payee : FingerprintRow → list Z) (rows : list FingerprintRow) :
    list (list Z * PendingPayableFingerprint) := (λ r, (payee r, fingerprint_view r)) <$> rows.

Definition add_paid (amount : Z) (f : FinancialStatistics) : FinancialStatistics :=
  mkStatistics (wrap 128 (total_paid_payable_wei f + amount)) (total_paid_receivable_wei f).

Lemma confirm_transactions_spec s payee rows P :
  works h (conn s) → payables_ok (payable (tables (conn s))) → fingerprints_ok (pending_payable (tables (conn s))) →
  in_width 128 (total_paid_payable_wei (financial_statistics s)) →
  NoDup (fr_rowid <$> rows) → (∀ r, r ∈ rows → r ∈ pending_payable (tables (conn s)) ∧
    in_payment (debts (payable (tables (conn s)))) (payee r) (fingerprint_view r)) →
  (∀ prows c', works h c' → payables_ok prows →
     debts prows = settle_debts (payees payee rows) (debts (payable (tables (conn s)))) →
     tables c' = set_pending_payable (sql_select (λ r, bool_decide (r ∉ rows)) (pending_payable (tables (conn s))))
                   (set_payable prows (tables (conn s))) →
     P tt (set_statistics (add_paid (sum_wei fingerprint_amount rows) (financial_statistics s)) (set_conn c' s)) []) →
  endures h (confirm_transactions (fingerprint_view <$> rows)) s P.
Proof.
  intros Hw Hok Hf Hst Hnd Hrows HP. unfold confirm_transactions.
  destruct (decide (rows = [])) as [->|Hne].
  { apply (endures_ret h tt).
    assert (set_statistics (add_paid 0 (financial_statistics s)) (set_conn (conn s) s) = s) as Es.
    { unfold add_paid. rewrite Z.add_0_r, wrap_small by done. by destruct s as [? ? ? ? ? ? ? ? ? ? []]. }
    rewrite <-Es at 1. apply (HP (payable (tables (conn s)))); [done|done|done|].
    rewrite sql_select_all; [by destruct (tables (conn s))|]. intros r _. by apply bool_decide_eq_true, not_elem_of_nil. }
  assert (fingerprint_view <$> rows = (payees payee rows).*2) as Efps
    by (unfold payees; by rewrite <-list_fmap_compose).
  assert (fgp_rowid <$> (fingerprint_view <$> rows) = fr_rowid <$> rows) as Eids by by rewrite <-list_fmap_compose.
  destruct (fingerprint_view <$> rows) as [|v0 vs] eqn:Ev; [by destruct rows|]. rewrite <-Ev in *.
  end_step. apply endures_on_db. rewrite Efps.
  apply transactions_confirmed_settle; [done|done|by rewrite <-Efps, Eids| | |].
  - intros a fgp (r & [= -> ->] & Hr)%list_elem_of_fmap. destruct (Hrows r Hr) as [Hin Hpay].
    destruct (fingerprints_ok_row _ _ Hf Hin). done.
  - intros prows c1 Hw1 E1 Hok1 Hd1. unfold add_to_the_total_of_paid_payable. end_step. end_step. end_step. rewrite <-Efps, Eids.
    apply endures_on_db. apply delete_fingerprints_spec; cbn [conn set_conn set_statistics]; rewrite ?E1; try done.
    + intros i (r & -> & Hr)%list_elem_of_fmap. by apply list_elem_of_fmap_2, Hrows.
    + intros c2 Hw2 E2. end_step. cbn [app]. rewrite foldl_wrap_sum by done.
      assert (sum_wei fgp_amount (fingerprint_view <$> rows) = sum_wei fingerprint_amount rows) as ->
        by (clear; induction rows as [|r rows IH]; [done|]; cbn; f_equal; apply IH).
      eapply (HP prows c2); [done|done|done|]. rewrite E2. f_equal.
      apply sql_select_ext. intros r Hr. rewrite (has_rowid_select _ _ _ Hf); [|by intros; apply Hrows|done].
      by rewrite bool_decide_not.
  - intros Hh c'. by end_step.
Qed.

(** What [increment_scan_attempts] and [mark_failures] have in common. *)
Definition changes (change : list Z → books (result unit PendingPayableDaoError)) (F : FingerprintRow → FingerprintRow) :
    Prop :=
  ∀ ids c Q, works h c → fingerprints_ok (pending_payable (tables c)) → NoDup ids →
    (∀ i, i ∈ ids → i ∈ fr_rowid <$> pending_payable (tables c)) →
    (∀ c', works h c' →
       tables c' = set_pending_payable ((λ r, if has_rowid ids r then F r else r) <$> pending_payable (tables c)) (tables c) →
       Q (Ok tt) c' []) →
    (¬ h → ∀ e c', Q (Err e) c' []) → endures h (change ids) c Q.

Lemma update_fingerprints_spec s sub change F why P :
  changes change F →
  works h (conn s) → fingerprints_ok (pending_payable (tables (conn s))) → NoDup (fr_rowid <$> sub) →
  (∀ r, r ∈ sub → r ∈ pending_payable (tables (conn s))) →
  (∀ c', works h c' →
     tables c' = set_pending_payable
       ((λ r, if bool_decide (r ∈ sub) then F r else r) <$> pending_payable (tables (conn s))) (tables (conn s)) →
     P tt (set_conn c' s) []) →
  endures h (update_fingerprints (pending_id_from <$> (fingerprint_view <$> sub)) change why) s P.
Proof.
  intros Hch Hw Hf Hnd Hsub HP. unfold update_fingerprints.
  assert (pid_rowid <$> (pending_id_from <$> (fingerprint_view <$> sub)) = fr_rowid <$> sub) as Eids
    by by rewrite <-!list_fmap_compose.
  assert (∀ g, (∀ r, r ∈ pending_payable (tables (conn s)) → g r = bool_decide (r ∈ sub)) →
    (λ r, if g r : bool then F r else r) <$> pending_payable (tables (conn s)) =
    (λ r, if bool_decide (r ∈ sub) then F r else r) <$> pending_payable (tables (conn s))) as Hext.
  { intros g Hg. apply list_fmap_ext. intros i r Hr%list_elem_of_lookup_2. by rewrite Hg. }
  destruct (pending_id_from <$> (fingerprint_view <$> sub)) as [|i ids] eqn:E; [|rewrite <-E in *].
  - destruct sub; [|done]. apply (endures_ret h tt). rewrite <-(set_conn_conn s). apply HP; [done|].
    rewrite <-(Hext (λ _, false)) by (intros; symmetry; by apply bool_decide_eq_false, not_elem_of_nil).
    rewrite list_fmap_id. by destruct (tables (conn s)).
  - end_step. apply endures_on_db. rewrite Eids. apply Hch; [done|done|done| | |].
    + intros j (r & -> & Hr)%list_elem_of_fmap. by apply list_elem_of_fmap_2, Hsub.
    + intros c' Hw' E'. end_step. apply HP; [done|]. rewrite E', Hext; [done|].
      intros r Hr. by apply (has_rowid_select _ _ _ Hf).
    + intros Hh e c'. by end_step.
Qed.

Lemma increment_changes : changes increment_scan_attempts retried.
Proof. intros ids c Q ? ? ? ? HQ HE. apply increment_scan_attempts_spec; auto. Qed.

Lemma mark_changes : changes mark_failures given_up.
Proof. intros ids c Q ? ? ? ? HQ HE. apply mark_failures_spec; auto. Qed.

(** ** The whole scan *)
Record receipts_ok (s : Accountant) (payee : FingerprintRow → list Z) (l : Receipts) : Prop := {
  re_pending x : x ∈ l → x.2 ∈ pending_payable (tables (conn s));
  re_distinct : NoDup (fr_rowid <$> l.*2);
  re_payee r : r ∈ with_verdict Confirmed l →
    in_payment (debts (payable (tables (conn s)))) (payee r) (fingerprint_view r)
}.

Lemma with_verdict_pending s payee l v r : receipts_ok s payee l → r ∈ with_verdict v l → r ∈ pending_payable (tables (conn s)).
Proof. intros Hl (x & Hx & _ & ->)%elem_of_with_verdict. by apply (re_pending _ _ _ Hl). Qed.

Lemma one_verdict s payee l v v' r : receipts_ok s payee l → r ∈ with_verdict v l → r ∈ with_verdict v' l → v = v'.
Proof.
  intros Hl (x & Hx & <- & ->)%elem_of_with_verdict (y & Hy & <- & E)%elem_of_with_verdict.
  pose proof (re_distinct _ _ _ Hl) as Hnd. rewrite <-list_fmap_compose in Hnd.
  by rewrite (NoDup_fmap_inj_on _ _ _ _ Hnd Hx Hy) by (cbn; congruence).
Qed.

(** The two changes of the rows at once. *)
Lemma changes_compose s payee l (rows : list FingerprintRow) :
  fingerprints_ok (pending_payable (tables (conn s))) → receipts_ok s payee l →
  (∀ r, r ∈ rows → r ∈ pending_payable (tables (conn s))) →
  (λ r, if bool_decide (r ∈ with_verdict Undecided l) then retried r else r) <$>
    ((λ r, if bool_decide (r ∈ with_verdict Rejected l) then given_up r else r) <$> rows) =
  (λ r, if bool_decide (r ∈ with_verdict Undecided l) then retried r
        else if bool_decide (r ∈ with_verdict Rejected l) then given_up r else r) <$> rows.
Proof.
  intros Hf Hl Hrows. rewrite <-list_fmap_compose. apply list_fmap_ext. intros i r Hr%list_elem_of_lookup_2%Hrows. cbn.
  destruct (decide (r ∈ with_verdict Rejected l)) as [Hrej|Hrej];
    [|by rewrite (bool_decide_eq_false_2 (r ∈ with_verdict Rejected l)) by done].
  rewrite (bool_decide_eq_true_2 (r ∈ with_verdict Rejected l)) by done.
  rewrite !bool_decide_eq_false_2; [done|..].
  - intros Hund. by pose proof (one_verdict _ _ _ _ _ _ Hl Hund Hrej).
  - intros Hund. assert (given_up r = r) as Eg.
    { eapply (NoDup_fmap_inj_on fr_rowid); [apply Hf|by eapply with_verdict_pending|done|done]. }
    rewrite Eg in Hund. by pose proof (one_verdict _ _ _ _ _ _ Hl Hund Hrej).
Qed.

Lemma process_receipts_spec s payee l sk P :
  works h (conn s) → payables_ok (payable (tables (conn s))) → fingerprints_ok (pending_payable (tables (conn s))) →
  in_width 128 (total_paid_payable_wei (financial_statistics s)) → receipts_ok s payee l →
  (∀ prows c', works h c' → payables_ok prows →
     debts prows = settle_debts (payees payee (with_verdict Confirmed l)) (debts (payable (tables (conn s)))) →
     tables c' = set_pending_payable (after_receipts l (pending_payable (tables (conn s))))
                   (set_payable prows (tables (conn s))) →
     P tt (set_statistics (add_paid (sum_wei fingerprint_amount (with_verdict Confirmed l)) (financial_statistics s))
             (set_conn c' s)) []) →
  endures h (process_transactions_by_reported_state
               (handle_receipts_for_pending_transactions (mkReportReceipts (reported l) sk))) s P.
Proof.
  intros Hw Hok Hf Hst Hl HP. rewrite handle_receipts_spec. unfold process_transactions_by_reported_state.
  cbn [confirmed failures still_pending].
  assert (∀ v, NoDup (fr_rowid <$> with_verdict v l)) as Hnd by (intros v; by apply with_verdict_NoDup, Hl).
  end_step. apply (confirm_transactions_spec s payee); try done.
  { intros r Hr. split; [by eapply with_verdict_pending|by apply Hl]. }
  intros prows c1 Hw1 Hok1 Hd1 E1. set (s1 := set_statistics _ _).
  set (rows1 := sql_select (λ r, bool_decide (r ∉ with_verdict Confirmed l)) (pending_payable (tables (conn s)))) in *.
  assert (∀ v r, v ≠ Confirmed → r ∈ with_verdict v l → r ∈ rows1) as Hrows1.
  { intros v r Hv Hr. apply elem_of_sql_select. split; [|by eapply with_verdict_pending].
    apply bool_decide_eq_true. intros Hc. apply Hv. by eapply one_verdict. }
  assert (fingerprints_ok rows1) as Hf1 by by apply fingerprints_ok_select.
  end_step. apply (update_fingerprints_spec s1 _ _ given_up); [apply mark_changes|done| |done| |];
    unfold s1; cbn [conn set_conn set_statistics]; rewrite ?E1; [done|by intros r; apply Hrows1|].
  intros c2 Hw2 E2. fold s1. cbn [pending_payable set_pending_payable] in E2.
  set (rows2 := _ <$> rows1) in E2.
  assert (fingerprints_ok rows2) as Hf2.
  { apply fingerprints_ok_change; [done|]. intros r. destruct (bool_decide _); [|done]. split_and!; [done..|]. by intros []. }
  assert (∀ r, r ∈ with_verdict Undecided l → r ∈ rows2) as Hrows2.
  { intros r Hr. apply list_elem_of_fmap. exists r. split; [|by apply (Hrows1 Undecided)].
    rewrite bool_decide_eq_false_2; [done|]. intros Hrej. by pose proof (one_verdict _ _ _ _ _ _ Hl Hr Hrej). }
  apply (update_fingerprints_spec _ _ _ retried); [apply increment_changes|done| |done| |];
    cbn [conn set_conn]; rewrite ?E2; [done|done|].
  intros c3 Hw3 E3. change (set_conn c3 (set_conn c2 s1)) with
    (set_statistics (add_paid (sum_wei fingerprint_amount (with_verdict Confirmed l)) (financial_statistics s)) (set_conn c3 s)).
  cbn [app]. eapply HP; [done|done|done|]. rewrite E3. cbn [pending_payable set_pending_payable]. unfold after_receipts. fold rows1.
  unfold rows2. by rewrite (changes_compose s payee) by (done || by intros r [_ ?]%elem_of_sql_select).
Qed.

(** *** Settled debts *)
Lemma settle_debts_other paid L a : a ∉ paid.*1 → settle_debts paid L !! a = L !! a.
Proof.
  unfold settle_debts. revert L. induction paid as [|[b fgp] paid IH]; intros L Ha; [done|]. cbn [foldl].
  apply not_elem_of_cons in Ha as [Hne Ha]. rewrite IH by done. by apply lookup_alter_ne.
Qed.

Lemma settle_debts_paid paid L a fgp :
  NoDup paid.*1 → (a, fgp) ∈ paid →
  settle_debts paid L !! a = (λ d, mkDebt (debt_wei d - fgp_amount fgp) (fgp_timestamp fgp) None) <$> L !! a.
Proof.
  unfold settle_debts. revert L. induction paid as [|[b f] paid IH]; intros L Hnd Hin; [by apply elem_of_nil in Hin|].
  cbn [foldl]. apply NoDup_cons in Hnd as [Hb Hnd]. apply elem_of_cons in Hin as [[= <- <-]|Hin].
  - fold (settle_debts paid (settle_debt a (fgp_timestamp fgp) (fgp_amount fgp) L)).
    rewrite settle_debts_other by done. apply lookup_alter_eq.
  - rewrite IH by done. f_equal. apply lookup_alter_ne. intros <-. apply Hb. by apply (list_elem_of_fmap_2 fst _ (_, fgp)).
Qed.

Lemma payees_distinct s payee l :
  receipts_ok s payee l → NoDup (payees payee (with_verdict Confirmed l)).*1.
Proof.
  intros Hl. unfold payees. rewrite <-list_fmap_compose.
  assert (NoDup (with_verdict Confirmed l)) as Hnd by (eapply NoDup_fmap_1, with_verdict_NoDup, Hl).
  apply NoDup_fmap_2_strong; [|done]. cbn. intros r r' Hr Hr' E.
  destruct (re_payee _ _ _ Hl r Hr) as (d & Hd & Hp & _), (re_payee _ _ _ Hl r' Hr') as (d' & Hd' & Hp' & _).
  rewrite E, Hd' in Hd. simplify_eq. cbn in *.
  pose proof Hr as (x & Hx & _ & ->)%elem_of_with_verdict. pose proof Hr' as (y & Hy & _ & ->)%elem_of_with_verdict.
  pose proof (re_distinct _ _ _ Hl) as Hnd'. rewrite <-list_fmap_compose in Hnd'.
  by rewrite (NoDup_fmap_inj_on _ _ _ _ Hnd' Hx Hy) by (cbn; congruence).
Qed.
End ReceiptFacts.

(** The state after the receipts [l]. *)
Definition settled `{Signatures} (payee : FingerprintRow → list Z) (l : Receipts) (s s' : Accountant) : Prop :=
  let L := debts (payable (tables (conn s))) in
  let L' := debts (payable (tables (conn s'))) in
  payables_ok (payable (tables (conn s'))) ∧
  (∀ r d, r ∈ with_verdict Confirmed l → L !! payee r = Some d →
     L' !! payee r = Some (mkDebt (debt_wei d - fingerprint_amount r) (fr_payable_timestamp r) None)) ∧
  (∀ a, (∀ r, r ∈ with_verdict Confirmed l → payee r ≠ a) → L' !! a = L !! a) ∧
  pending_payable (tables (conn s')) = after_receipts l (pending_payable (tables (conn s))) ∧
  (∀ r r', r ∈ with_verdict Confirmed l → r' ∈ pending_payable (tables (conn s')) → fr_rowid r' ≠ fr_rowid r) ∧
  receivable (tables (conn s')) = receivable (tables (conn s)) ∧
  total_paid_payable_wei (financial_statistics s') =
    wrap 128 (total_paid_payable_wei (financial_statistics s) + sum_wei fingerprint_amount (with_verdict Confirmed l)) ∧
  scan_started_at PendingPayables s' = None.

Lemma receipts_settle `{Signatures} h s now payee l sk :
  works h (conn s) →
  payables_ok (payable (tables (conn s))) → fingerprints_ok (pending_payable (tables (conn s))) →
  in_width 128 (total_paid_payable_wei (financial_statistics s)) → receipts_ok s payee l → l ≠ [] →
  bound s = true → (∀ t, scan_started_at PendingPayables s = Some t → t ≤ now) →
  endures h (handle_accountant_event now (EvReceipts (mkReportReceipts (reported l) sk))) s (λ _ s' sent,
    settled payee l s s' ∧ sent = match sk with Some sk => [ToUiGateway (scan_response sk)] | None => [] end).
Proof.
  intros Hw Hok Hf Hst Hl Hne Hb Hstart.
  cbn [handle_accountant_event]. unfold handle_report_transaction_receipts, pending_payable_finish_scan.
  end_step. end_step. cbn [fingerprints_with_receipts tr_response_skeleton_opt].
  destruct (reported l) as [|y ys] eqn:El; [by destruct l|]. rewrite <-El. clear y ys El.
  apply (process_receipts_spec h s payee); try done. intros prows c' Hw' Hok' Hd' E'.
  end_step. apply mark_as_ended_spec; [done|]. end_step. cbn [app]. apply send_to_ui_spec; [done|].
  split; [|by destruct sk]. unfold settled. cbn [conn set_conn set_started_at set_statistics]. rewrite E'.
  cbn [payable pending_payable receivable set_pending_payable set_payable]. rewrite Hd'. split_and!; try done.
  - intros r d Hr Hd. rewrite (settle_debts_paid _ _ _ (fingerprint_view r)), Hd; [done|by eapply payees_distinct|].
    by apply (list_elem_of_fmap_2 (λ r, (payee r, fingerprint_view r))).
  - intros a Ha. apply settle_debts_other. unfold payees. rewrite <-list_fmap_compose.
    intros (r & -> & Hr)%list_elem_of_fmap. by apply (Ha r).
  - intros r r' Hr (r2 & -> & [Hn Hr2]%elem_of_sql_select)%list_elem_of_fmap.
    apply bool_decide_eq_true in Hn. intros E. apply Hn.
    assert (fr_rowid r2 = fr_rowid r) as E2 by (by repeat case_bool_decide).
    by rewrite (NoDup_fmap_inj_on fr_rowid _ r2 r (fo_rowids _ Hf) Hr2 (with_verdict_pending _ _ _ _ _ Hl Hr) E2).
Qed.
