(* ===== verification/BlockchainBridge.v ===== *)
(** * The BlockchainBridge

    Models [node/src/blockchain/blockchain_bridge.rs] and the interface to the blockchain,
    [node/src/blockchain/blockchain_interface/blockchain_interface_web3]: transactions for
    debts are signed and sent in a batch, receipts of transactions and payments to this
    node are fetched, and the Accountant is told.

    The calls of the blockchain service go through third-party code; [BlockchainService]
    holds its answers during a handler.  The hash of a signed transaction is the parameter
    [transaction_hash], and the regular expression that finds a limit in a message of the
    service the parameter [captured_max_block_count].  A handler runs its future to the
    end.  The bridge reads and writes the settings in the database of the Accountant. *)

From S2P Require Import Prelude.
From S2P Require Import Actor.
From S2P Require Import Bytes.
From S2P Require Import NodeAddr.
From S2P Require Import NodeRecord.
From S2P Require Import Cryptde.
From S2P Require Import Sql.
From S2P Require Import BigInt.
From S2P Require Import Thresholds.
From S2P Require Import ConfigStore.
From S2P Require Import AccountantDb.
From S2P Require Import FinancialQueries.
From S2P Require Import Scanners.
From S2P Require Import Accountant.

(** ** The blockchain service *)
Inductive BlockNumber := Latest | Number (n : Z).

(** [Log]: topics are numbers of 256 bits, the data are bytes. *)
Record Log := mkLog { log_block_number : option Z; log_topics : list Z; log_data : list Z }.

(** An answer to a request for a receipt, as [serde_json] reads it: a receipt with what
    the node looks at, null, something else, or an error of the call. *)
Inductive ReceiptResponse :=
| Receipt (transaction_hash : Z) (status : option Z) (block_hash : option Z) (block_number : option Z)
| NullReceipt
| MalformedReceipt (msg : string)
| ReceiptError (msg : string).

(** [TransactionParameters] *)
Record TransactionParameters := mkParameters {
  tp_nonce : Z;
  tp_chain : Chain;
  tp_gas : Z;
  tp_gas_price : Z;
  tp_data : list Z
}.

Record BlockchainService := mkService {
  svc_gas_price : result Z BlockchainError;
  svc_transaction_fee_balance : list Z → result Z BlockchainError;
  svc_service_fee_balance : list Z → result Z BlockchainError;
  svc_transaction_count : list Z → result Z BlockchainError;
  svc_submit_batch : list Z → result (list (result unit string)) string;
  svc_block_number : result Z BlockchainError;
  svc_logs : BlockNumber → BlockNumber → list Z → result (list Log) BlockchainError;
  svc_receipts : list Z → result (list ReceiptResponse) BlockchainError
}.

Class Web3 := {
  transaction_hash : list Z → TransactionParameters → Z;
  captured_max_block_count : string → option string
}.

(** ** The interface: [BlockchainInterfaceWeb3] *)
Inductive BlockScanRange := NoLimit | Range (n : Z).

Inductive BlockchainAgentBuildError :=
| AgentGasPrice (e : BlockchainError)
| AgentTransactionFeeBalance (e : BlockchainError)
| AgentServiceFeeBalance (e : BlockchainError).

Definition web3_gas_limit_const_part (chain : Chain) : Z :=
  match chain with
  | PulseMainnet | EthMainnet | EthRopsten | Dev => 55000
  | PolyMainnet | PolyAmoy | BaseMainnet | BaseSepolia => 70000
  end.

(** [U256::as_u128] *)
Definition as_u128 (z : Z) : outcome Z :=
  if z <? 2 ^ 128 then mret z else Panic "Integer overflow when casting to u128".

Definition create_blockchain_agent_web3 (gas_limit_const_part gas_price transaction_fee_balance masq_token_balance : Z)
    (wallet : Wallet) (chain : Chain) : outcome BlockchainAgent :=
  gas_price_wei ← as_u128 gas_price;
  mret (mkAgent gas_price_wei gas_limit_const_part wallet transaction_fee_balance masq_token_balance chain).

(** *** Payments received *)

(** The last twenty bytes of a topic *)
Definition wallet_from_topic (topic : Z) : Wallet := WalletAddress (parts 8 20 topic).

Definition extract_transaction (log : Log) : outcome (option BlockchainTransaction) :=
  match log_block_number log with
  | None => mret None
  | Some block_number =>
      wei_amount ← as_u128 (from_parts 8 (log_data log));
      topic ← expect (log_topics log !! 1%nat) "index out of bounds";
      mret (Some (mkTransaction block_number (wallet_from_topic topic) wei_amount))
  end.

Definition option_list {A} (o : option A) : list A := match o with Some a => [a] | None => [] end.

(** [filter_map(...).collect()] *)
Definition extract_transactions_from_logs (logs : list Log) : outcome (list BlockchainTransaction) :=
  transactions ← map_outcome extract_transaction logs;
  mret (concat (option_list <$> transactions)).

Definition find_highest_block_marker_from_txs (transactions : list BlockchainTransaction) : BlockMarker :=
  foldl (λ max tx, match max with
                   | Value current_max => Value (current_max `max` block_number tx)
                   | Uninitialized => Value (block_number tx)
                   end) Uninitialized transactions.

(** [u64] additions, wrapping *)
Definition find_new_start_block (transactions : list BlockchainTransaction)
    (start_block_marker end_block_marker : BlockMarker) : BlockMarker :=
  match end_block_marker with
  | Value end_block_number => Value (u64 (end_block_number + 1))
  | Uninitialized =>
      match find_highest_block_marker_from_txs transactions with
      | Value block_number => Value (u64 (block_number + 1))
      | Uninitialized =>
          match start_block_marker with
          | Value start_block => Value (u64 (start_block + 1))
          | Uninitialized => Uninitialized
          end
      end
  end.

Definition calculate_end_block_marker (start_block_marker : BlockMarker) (scan_range : BlockScanRange)
    (rpc_block_number_result : result Z BlockchainError) : BlockMarker :=
  let locally_determined_end_block_marker :=
    match start_block_marker, scan_range with
    | Value start_block, Range scan_range_number => Value (u64 (u64 (start_block + scan_range_number) - 1))
    | _, _ => Uninitialized
    end in
  match rpc_block_number_result with
  | Ok response_block =>
      match locally_determined_end_block_marker with
      | Uninitialized => Value response_block
      | Value local_end_block_number => Value (local_end_block_number `min` response_block)
      end
  | Err _ => locally_determined_end_block_marker
  end.

Definition handle_transaction_logs (logs_result : result (list Log) BlockchainError) :
    outcome (result (list BlockchainTransaction) BlockchainError) :=
  match logs_result with
  | Err e => mret (Err e)
  | Ok logs =>
      if existsb (λ log, ((length (log_topics log) <? 2) || (32 <? length (log_data log)))%nat) logs
      then mret (Err InvalidResponse)
      else transactions ← extract_transactions_from_logs logs; mret (Ok transactions)
  end.

Definition start_block_number (start_block_marker : BlockMarker) (rpc_block_number_result : result Z BlockchainError) :
    BlockNumber :=
  match start_block_marker with
  | Uninitialized => match rpc_block_number_result with Ok latest_block => Number latest_block | Err _ => Latest end
  | Value number => Number number
  end.

Definition end_block_number (end_block_marker : BlockMarker) : BlockNumber :=
  match end_block_marker with Uninitialized => Latest | Value number => Number number end.

Definition retrieve_transactions (svc : BlockchainService) (start_block_marker : BlockMarker)
    (scan_range : BlockScanRange) (recipient : list Z) :
    outcome (result (BlockMarker * list BlockchainTransaction) BlockchainError) :=
  let rpc_block_number_result := svc_block_number svc in
  let end_block_marker := calculate_end_block_marker start_block_marker scan_range rpc_block_number_result in
  let logs_result := svc_logs svc (start_block_number start_block_marker rpc_block_number_result)
                       (end_block_number end_block_marker) recipient in
  transactions ← handle_transaction_logs logs_result;
  mret match transactions with
       | Err e => Err e
       | Ok transactions => Ok (find_new_start_block transactions start_block_marker end_block_marker, transactions)
       end.

(** *** Receipts *)
Definition tx_receipt_from (status block_hash block_number : option Z) : TxStatus :=
  match status, block_hash, block_number with
  | Some 1, Some block_hash, Some block_number => TxSucceeded block_hash block_number
  | Some 0, _, _ => TxFailed
  | _, _, _ => TxPending
  end.

Definition receipt_result (response : ReceiptResponse) (hash : Z) : TransactionReceiptResult :=
  match response with
  | Receipt transaction_hash status block_hash block_number =>
      RpcResponse transaction_hash (tx_receipt_from status block_hash block_number)
  | NullReceipt => RpcResponse hash TxPending
  | MalformedReceipt msg => LocalError msg
  | ReceiptError msg => LocalError msg
  end.

Definition process_transaction_receipts (svc : BlockchainService) (transaction_hashes : list Z) :
    result (list TransactionReceiptResult) BlockchainError :=
  match svc_receipts svc transaction_hashes with
  | Err e => Err e
  | Ok batch_response => Ok (zip_with receipt_result batch_response transaction_hashes)
  end.

(** *** Payments sent *)
Definition TRANSFER_METHOD_ID : list Z := [0xa9; 0x05; 0x9c; 0xbb].

Section Bridge.
Context `{Signatures} `{Web3}.

Definition sign_transaction_data (amount : Z) (recipient_address : list Z) : list Z :=
  TRANSFER_METHOD_ID ++ replicate 12 0 ++ recipient_address ++ parts 8 32 amount.

Definition gas_limit (data : list Z) (chain : Chain) : Z :=
  foldl (λ acc v, acc + (if v =? 0 then 4 else 68)) (web3_gas_limit_const_part chain) data.

(** The hash of the signed transaction; [prepare_secp256k1_secret] *)
Definition sign_transaction (chain : Chain) (recipient_wallet consuming_wallet : Wallet)
    (amount nonce gas_price_in_wei : Z) : outcome Z :=
  address ← wallet_address recipient_wallet;
  let data := sign_transaction_data amount address in
  match consuming_wallet with
  | WalletSecretKey secret =>
      mret (transaction_hash secret (mkParameters nonce chain (gas_limit data chain) gas_price_in_wei data))
  | _ => Panic "Consuming wallet doesn't contain a secret key"
  end.

Definition advance_used_nonce (current_nonce : Z) : outcome Z :=
  if current_nonce + 1 <? 2 ^ 256 then mret (current_nonce + 1) else Panic "unexpected limits".

Fixpoint sign_and_append_multiple_payments (chain : Chain) (consuming_wallet : Wallet)
    (gas_price_in_wei pending_nonce : Z) (accounts : list PayableAccount) : outcome (list HashAndAmount) :=
  match accounts with
  | [] => mret []
  | payable :: accounts =>
      hash ← sign_transaction chain (pa_wallet payable) consuming_wallet (pa_balance_wei payable)
               pending_nonce gas_price_in_wei;
      next ← advance_used_nonce pending_nonce;
      l ← sign_and_append_multiple_payments chain consuming_wallet gas_price_in_wei next accounts;
      mret (mkHashAndAmount hash (pa_balance_wei payable) :: l)
  end.

Definition merged_output_data (responses : list (result unit string)) (hashes_and_paid_amounts : list HashAndAmount)
    (accounts : list PayableAccount) : list ProcessedPayableFallible :=
  zip_with (λ '(rpc_result, hash_and_amount) account,
    match rpc_result with
    | Ok _ => Correct (mkPendingPayable (pa_wallet account) (ha_hash hash_and_amount))
    | Err _ => Failed (pa_wallet account) (ha_hash hash_and_amount)
    end) (zip responses hashes_and_paid_amounts) accounts.

(** ** The actor *)
Inductive BridgeMessage :=
| ReportPaymentsSetup (m : BlockchainAgentWithContextMessage)
| NewFingerprints (m : PendingPayableFingerprintSeeds)
| ReportSentPayments (m : SentPayables)
| ReportReceipts (m : ReportTransactionReceipts)
| ReportInboundPayments (m : ReceivedPayments)
| ReportScanError (m : ScanError).

Abbreviation bridge A := (prog (Conn Books) BridgeMessage A).

Definition bridge_db {A} (m : books A) : bridge A := λ c,
  match m c with Ret (a, c, _) => Ret (a, c, []) | Panic why => Panic why end.

(** The error of a future is reported. *)
Definition handle_scan_future (scan_type : ScanType) (skeleton_opt : option ResponseSkeleton)
    (future : bridge (result unit string)) : bridge unit :=
  res ← future;
  match res with
  | Ok _ => mret tt
  | Err e => send (ReportScanError (mkScanError scan_type skeleton_opt e))
  end.

Definition build_blockchain_agent (svc : BlockchainService) (chain : Chain) (consuming_wallet : Wallet) :
    outcome (result BlockchainAgent BlockchainAgentBuildError) :=
  address ← wallet_address consuming_wallet;
  match svc_gas_price svc with
  | Err e => mret (Err (AgentGasPrice e))
  | Ok gas_price =>
      match svc_transaction_fee_balance svc address with
      | Err e => mret (Err (AgentTransactionFeeBalance e))
      | Ok fee_balance =>
          match svc_service_fee_balance svc address with
          | Err e => mret (Err (AgentServiceFeeBalance e))
          | Ok token_balance =>
              agent ← create_blockchain_agent_web3 (web3_gas_limit_const_part chain) gas_price fee_balance
                        token_balance consuming_wallet chain;
              mret (Ok agent)
          end
      end
  end.

Definition handle_qualified_payable_msg (svc : BlockchainService) (chain : Chain) (msg : QualifiedPayablesMessage) :
    bridge (result unit string) :=
  agent ← lift (build_blockchain_agent svc chain (qp_consuming_wallet msg));
  match agent with
  | Err _ => mret (Err "Blockchain agent build error"%string)
  | Ok agent =>
      _ ← send (ReportPaymentsSetup (mkAgentWithContext (qp_protected_qualified_payables msg) agent
                                       (qp_response_skeleton_opt msg)));
      mret (Ok tt)
  end.

Definition send_payables_within_batch (now : Z) (svc : BlockchainService) (chain : Chain) (consuming_wallet : Wallet)
    (gas_price_in_wei pending_nonce : Z) (accounts : list PayableAccount) :
    bridge (result (list ProcessedPayableFallible) PayableTransactionError) :=
  hashes_and_paid_amounts ←
    lift (sign_and_append_multiple_payments chain consuming_wallet gas_price_in_wei pending_nonce accounts);
  _ ← send (NewFingerprints (mkSeeds now hashes_and_paid_amounts));
  mret match svc_submit_batch svc (ha_hash <$> hashes_and_paid_amounts) with
       | Err e => Err (Sending e (ha_hash <$> hashes_and_paid_amounts))
       | Ok batch_response => Ok (merged_output_data batch_response hashes_and_paid_amounts accounts)
       end.

Definition submit_payables_in_batch (now : Z) (svc : BlockchainService) (agent : BlockchainAgent)
    (affordable_accounts : list PayableAccount) :
    bridge (result (list ProcessedPayableFallible) PayableTransactionError) :=
  address ← lift (wallet_address (agent_consuming_wallet agent));
  match svc_transaction_count svc address with
  | Err e => mret (Err (TransactionID e))
  | Ok pending_nonce =>
      send_payables_within_batch now svc (agent_chain agent) (agent_consuming_wallet agent) (gas_price_wei agent)
        pending_nonce affordable_accounts
  end.

Definition handle_outbound_payments_instructions (now : Z) (svc : BlockchainService)
    (msg : OutboundPaymentsInstructions) : bridge (result unit string) :=
  res ← submit_payables_in_batch now svc (op_agent msg) (affordable_accounts msg);
  _ ← send (ReportSentPayments (mkSentPayables res (op_response_skeleton_opt msg)));
  mret match res with Ok _ => Ok tt | Err _ => Err "ReportAccountsPayable"%string end.

Definition extract_max_block_count (error : BlockchainError) : option Z :=
  match error with
  | QueryFailed msg =>
      match captured_max_block_count msg with
      | Some digits => parse_u64 digits
      | None =>
          if decide (msg = "Got invalid response: Expected batch, got single."%string) then Some 1000 else None
      end
  | _ => None
  end.

Definition handle_retrieve_transactions (now : Z) (svc : BlockchainService) (msg : RetrieveTransactions) :
    bridge (result unit string) :=
  start ← bridge_db (start_block config);
  start_block_value ← lift match start with
    | Ok (Some block) => mret (Value block)
    | Ok None => mret Uninitialized
    | Err _ => Panic "Cannot retrieve start block from database; payments to you may not be processed"
    end;
  range ← bridge_db (max_block_count config);
  block_scan_range_value ← lift match range with
    | Ok (Some range) => mret (Range range)
    | Ok None => mret NoLimit
    | Err _ => Panic "Cannot retrieve block scan range from database; payments to you may not be processed"
    end;
  recipient ← lift (wallet_address (rx_recipient msg));
  retrieved ← lift (retrieve_transactions svc start_block_value block_scan_range_value recipient);
  match retrieved with
  | Err e =>
      _ ← match extract_max_block_count e with
          | Some max_block_count =>
              res ← bridge_db (set_max_block_count config set_config (Some max_block_count));
              match res with
              | Ok _ => mret tt
              | Err _ => act_panic "Attempt to set new max block to ... failed"
              end
          | None => mret tt
          end;
      mret (Err "Error while retrieving transactions"%string)
  | Ok (new_start_block, transactions) =>
      _ ← send (ReportInboundPayments (mkReceived now new_start_block transactions (rx_response_skeleton_opt msg)));
      mret (Ok tt)
  end.

Definition handle_request_transaction_receipts (svc : BlockchainService) (msg : RequestTransactionReceipts) :
    bridge (result unit string) :=
  match process_transaction_receipts svc (fgp_hash <$> rt_pending_payable msg) with
  | Err _ => mret (Err "Blockchain error"%string)
  | Ok transaction_receipts_results =>
      _ ← send (ReportReceipts (mkReportReceipts (zip transaction_receipts_results (rt_pending_payable msg))
                                  (rt_response_skeleton_opt msg)));
      mret (Ok tt)
  end.

(** The handlers of the messages that the Accountant sends *)
Definition handle_bridge_message (now : Z) (svc : BlockchainService) (chain : Chain) (m : AccountantMessage) :
    bridge unit :=
  match m with
  | ToBridgeQualifiedPayables msg =>
      handle_scan_future Payables (qp_response_skeleton_opt msg) (handle_qualified_payable_msg svc chain msg)
  | ToBridgeOutboundPayments msg =>
      handle_scan_future Payables (op_response_skeleton_opt msg) (handle_outbound_payments_instructions now svc msg)
  | ToBridgeRequestReceipts msg =>
      handle_scan_future PendingPayables (rt_response_skeleton_opt msg) (handle_request_transaction_receipts svc msg)
  | ToBridgeRetrieveTransactions msg =>
      handle_scan_future Receivables (rx_response_skeleton_opt msg) (handle_retrieve_transactions now svc msg)
  | _ => mret tt
  end.

(** What the Accountant makes of a message of the bridge *)
Definition event_of_bridge (m : BridgeMessage) : AccountantEvent :=
  match m with
  | ReportPaymentsSetup m => EvPaymentSetup m
  | NewFingerprints m => EvSeeds m
  | ReportSentPayments m => EvSent m
  | ReportReceipts m => EvReceipts m
  | ReportInboundPayments m => EvReceived m
  | ReportScanError m => EvScanError m
  end.
End Bridge.
