(* ===== verification/PaymentCycle.v ===== *)
(** * Payments, from the scan to the settlement

    The Accountant and the BlockchainBridge together: a scan for debts makes them
    exchange messages until the payments are sent and recorded, a scan for receipts until
    they are settled.  [converse] passes the messages on, in the order they are sent. *)

From S2P Require Import Prelude.
From S2P Require Import Actor.
From S2P Require Import NodeAddr.
From S2P Require Import NodeRecord.
From S2P Require Import Cryptde.
From S2P Require Import Sql.
From S2P Require Import BigInt.
From S2P Require Import Thresholds.
From S2P Require Import ConfigStore.
From S2P Require Import AccountantDb.
From S2P Require Import AccountantDbFacts.
From S2P Require Import FingerprintFacts.
From S2P Require Import FinancialQueries.
From S2P Require Import Scanners.
From S2P Require Import Accountant.
From S2P Require Import AccountantFacts.
From S2P Require Import ReceivableScanFacts.
From S2P Require Import PayableScanFacts.
From S2P Require Import ReceiptFacts.
From S2P Require Import BlockchainBridge.

Definition to_bridge (m : AccountantMessage) : bool :=
  match m with
  | ToBridgeQualifiedPayables _ | ToBridgeOutboundPayments _ | ToBridgeRequestReceipts _
  | ToBridgeRetrieveTransactions _ => true
  | _ => false
  end.

(** The messages of a handler, for the mailbox of the other actor. *)
Definition listen (m : acc unit) : acc (list AccountantMessage) := λ s,
  match m s with
  | Ret (_, s', sent) => Ret (sent, s', [])
  | Panic why => Panic why
  end.

Section Conversation.
Context `{Signatures} `{Web3} (now : Z) (svc : BlockchainService) (chain : Chain).

Definition ask_bridge (m : AccountantMessage) : acc (list BridgeMessage) := λ s,
  match handle_bridge_message now svc chain m (conn s) with
  | Ret (_, c, msgs) => Ret (msgs, set_conn c s, [])
  | Panic why => Panic why
  end.

(** [true] if no message is left; what is not for the bridge is sent on. *)
Fixpoint converse (fuel : nat) (queue : list AccountantMessage) : acc bool :=
  match queue, fuel with
  | [], _ => mret true
  | _ :: _, O => mret false
  | m :: queue, S fuel =>
      if to_bridge m then
        answers ← ask_bridge m;
        new ← listen (each (λ a, handle_accountant_event now (event_of_bridge a)) answers);
        converse fuel (queue ++ new)
      else _ ← send m; converse fuel queue
  end.

Definition scan_round (fuel : nat) (scan_type : ScanType) (tr : Trigger) : acc bool :=
  queue ← listen (handle_accountant_event now (scan_request scan_type tr)); converse fuel queue.

Lemma endures_listen h (m : acc unit) s P :
  endures h m s (λ _ s' sent, P sent s' []) → endures h (listen m) s P.
Proof. unfold endures, listen. by destruct (m s) as [[[[] s'] sent]|]. Qed.

Lemma converse_bridge h fuel m queue s c answers P :
  to_bridge m = true → handle_bridge_message now svc chain m (conn s) = Ret (tt, c, answers) →
  endures h (each (λ a, handle_accountant_event now (event_of_bridge a)) answers) (set_conn c s)
    (λ _ s' new, endures h (converse fuel (queue ++ new)) s' P) →
  endures h (converse (S fuel) (m :: queue)) s P.
Proof.
  intros Hm Hbr Hnext. cbn [converse]. rewrite Hm. end_step. unfold endures at 1, ask_bridge. rewrite Hbr.
  end_step. apply endures_listen. eapply endures_mono; [exact Hnext|]. done.
Qed.

Lemma converse_send h fuel m queue s P :
  to_bridge m = false → endures h (converse fuel queue) s (λ b s' sent, P b s' (m :: sent)) →
  endures h (converse (S fuel) (m :: queue)) s P.
Proof. intros Hm Hnext. cbn [converse]. rewrite Hm. end_step. end_step. exact Hnext. Qed.

Lemma converse_done h fuel s (P : bool → Accountant → list AccountantMessage → Prop) :
  P true s [] → endures h (converse fuel []) s P.
Proof. by destruct fuel. Qed.
End Conversation.

(** ** The bridge *)
Section Sending.
Context `{Signatures} `{Web3} (chain : Chain) (secret : list Z) (gas_price : Z).

Definition payment_data (r : PayableRow) : list Z :=
  sign_transaction_data (debt_wei (debt_of_row r)) (pr_wallet_address r).

(** The transactions of a batch: consecutive nonces. *)
Fixpoint signed (nonce : Z) (rows : list PayableRow) : list HashAndAmount :=
  match rows with
  | [] => []
  | r :: rows =>
      mkHashAndAmount
        (transaction_hash secret (mkParameters nonce chain (gas_limit (payment_data r) chain) gas_price (payment_data r)))
        (debt_wei (debt_of_row r))
      :: signed (nonce + 1) rows
  end.

Lemma sign_and_append_spec nonce rows :
  nonce + Z.of_nat (length rows) < 2 ^ 256 →
  sign_and_append_multiple_payments chain (WalletSecretKey secret) gas_price nonce (debt_account <$> rows) =
    Ret (signed nonce rows).
Proof.
  revert nonce. induction rows as [|r rows IH]; intros nonce Hn; [done|].
  cbn [fmap list_fmap sign_and_append_multiple_payments signed]. cbn [length] in Hn.
  unfold sign_transaction. cbn [pa_wallet debt_account wallet_address]. run_outcome.
  unfold advance_used_nonce. rewrite (proj2 (Z.ltb_lt _ _)) by lia. run_outcome.
  rewrite IH by lia. done.
Qed.

Lemma signed_amount_lookup nonce rows i r ha :
  rows !! i = Some r → signed nonce rows !! i = Some ha → ha_amount ha = debt_wei (debt_of_row r).
Proof.
  revert nonce i. induction rows as [|r' rows IH]; intros nonce [|i]; cbn; [done..|by intros [= ->] [= <-]|apply IH].
Qed.

Lemma length_signed nonce rows : length (signed nonce rows) = length rows.
Proof. revert nonce. induction rows as [|r rows IH]; intros nonce; [done|]. cbn. by rewrite IH. Qed.
End Sending.

(** A service that answers, for a batch of payments from the wallet with the given key. *)
Record service_quotes `{Signatures} (svc : BlockchainService) (secret : list Z) (gas fee token : Z) : Prop := {
  sq_gas : svc_gas_price svc = Ok gas ∧ gas < 2 ^ 128;
  sq_fee : svc_transaction_fee_balance svc (secret_address secret) = Ok fee;
  sq_token : svc_service_fee_balance svc (secret_address secret) = Ok token
}.

Record service_answers `{Signatures} `{Web3} (svc : BlockchainService) (chain : Chain) (secret : list Z)
    (gas fee token nonce : Z) (rows : list PayableRow) (responses : list (result unit string)) : Prop := {
  sa_quotes : service_quotes svc secret gas fee token;
  sa_nonce : svc_transaction_count svc (secret_address secret) = Ok nonce ∧
             nonce + Z.of_nat (length rows) < 2 ^ 256;
  sa_batch : svc_submit_batch svc (ha_hash <$> signed chain secret gas nonce rows) = Ok responses;
  sa_length : length responses = length rows
}.

Section Bridge.
Context `{Signatures} `{Web3} (now : Z) (svc : BlockchainService) (chain : Chain) (secret : list Z).
Context (gas fee token nonce : Z) (rows : list PayableRow) (responses : list (result unit string)).

Definition agent : BlockchainAgent :=
  mkAgent gas (web3_gas_limit_const_part chain) (WalletSecretKey secret) fee token chain.

Lemma bridge_builds_agent sk c :
  service_quotes svc secret gas fee token →
  handle_bridge_message now svc chain
    (ToBridgeQualifiedPayables (mkQualifiedPayables (debt_account <$> rows) (WalletSecretKey secret) sk)) c =
  Ret (tt, c, [ReportPaymentsSetup (mkAgentWithContext (debt_account <$> rows) agent sk)]).
Proof.
  intros [[Hg Hg'] Hf Ht]. cbn [handle_bridge_message qp_response_skeleton_opt].
  unfold handle_scan_future, handle_qualified_payable_msg, build_blockchain_agent.
  cbn [qp_consuming_wallet qp_protected_qualified_payables qp_response_skeleton_opt wallet_address]. run_outcome.
  rewrite Hg, Hf, Ht. unfold create_blockchain_agent_web3, as_u128. rewrite (proj2 (Z.ltb_lt _ _)) by done. done.
Qed.

Context (Hsvc : service_answers svc chain secret gas fee token nonce rows responses).

Definition sent_result : list ProcessedPayableFallible :=
  merged_output_data responses (signed chain secret gas nonce rows) (debt_account <$> rows).

Lemma bridge_sends_payments sk c :
  handle_bridge_message now svc chain (ToBridgeOutboundPayments (mkOutbound (debt_account <$> rows) agent sk)) c =
  Ret (tt, c, [NewFingerprints (mkSeeds now (signed chain secret gas nonce rows));
               ReportSentPayments (mkSentPayables (Ok sent_result) sk)]).
Proof.
  destruct Hsvc as [_ [Hn Hn'] Hb _]. cbn [handle_bridge_message op_response_skeleton_opt].
  unfold handle_scan_future, handle_outbound_payments_instructions, submit_payables_in_batch.
  cbn [op_agent affordable_accounts op_response_skeleton_opt agent_consuming_wallet agent wallet_address].
  unfold mbind at 1 2 3 4, prog_bind at 1 2 3 4. cbn [lift mret outcome_ret]. rewrite Hn.
  unfold send_payables_within_batch. cbn [agent_chain gas_price_wei agent].
  unfold mbind at 1, prog_bind at 1. unfold lift at 1. rewrite sign_and_append_spec by done.
  unfold mbind, prog_bind, send, mret, prog_ret. rewrite Hb. done.
Qed.

(** The answers, with the fingerprints that were recorded for them. *)
Definition answered (r : result unit string) : bool := match r with Ok _ => true | Err _ => false end.
Definition batch (fs : list FingerprintRow) : list (PayableRow * FingerprintRow * bool) := zip (zip rows fs) (answered <$> responses).

Lemma sent_result_spec fs :
  Forall2 (seeded now) (signed chain secret gas nonce rows) fs → sent_result = response_of <$> batch fs.
Proof.
  destruct Hsvc as [_ _ _ Hlen]. unfold sent_result, batch, merged_output_data. clear Hsvc.
  generalize nonce. intros n Hf. revert n fs responses Hlen Hf.
  induction rows as [|r rows' IH]; intros n fs resp Hlen Hf.
  { destruct resp; [|done]. by inversion Hf. }
  destruct resp as [|x resp]; [done|]. cbn [signed] in Hf. inversion Hf as [|? f ? fs' [Eh _ _ _ _ _] Hf']; subst.
  cbn [signed fmap list_fmap zip_with]. cbn in Eh. f_equal.
  - unfold response_of, payment_of. cbn. rewrite Eh. by destruct x.
  - apply IH; [by injection Hlen|done].
Qed.
End Bridge.

(** ** The state between scans *)

(** Every debt in payment has the fingerprint of its transaction. *)
Definition linked (b : Books) : Prop :=
  ∀ a d i, debts (payable b) !! a = Some d → debt_payment d = Some i → i ∈ fr_rowid <$> pending_payable b.

Record ready (now : Z) (s : Accountant) : Prop := {
  rd_payables : payables_ok (payable (tables (conn s)));
  rd_debts : payable_debts now (payable (tables (conn s)));
  rd_fingerprints : fingerprints_ok (pending_payable (tables (conn s)));
  rd_linked : linked (tables (conn s));
  rd_now : time_ok now;
  rd_thresholds : sound_thresholds (payment_thresholds s);
  rd_bound : bound s = true
}.

Section Batch.
Context `{Signatures} `{Web3} (h : Prop) (now : Z) (chain : Chain) (secret : list Z) (gas nonce : Z).
Context (s : Accountant) (fs : list FingerprintRow) (responses : list (result unit string)).
Context (Hready : ready now s).

Abbreviation chosen := (sql_select (to_pay (payment_thresholds s) now) (payable (tables (conn s)))).
Abbreviation pending := (pending_payable (tables (conn s))).

Context (Hseeds : Forall2 (seeded now) (signed chain secret gas nonce chosen) fs).
Context (Hresp : length responses = length chosen).
Context (Hfs : fingerprints_ok (pending ++ fs)).

Lemma length_fs : length fs = length chosen.
Proof. apply Forall2_length in Hseeds. by rewrite <-Hseeds, length_signed. Qed.

Lemma batch_columns :
  (batch chosen responses fs).*1.*1 = chosen ∧ (batch chosen responses fs).*1.*2 = fs ∧
  (batch chosen responses fs).*2 = answered <$> responses.
Proof.
  pose proof length_fs. unfold batch. by rewrite !fst_zip, !snd_zip by (rewrite ?length_fmap, ?length_zip_with; lia).
Qed.

Lemma elem_of_accepted rf :
  rf ∈ accepted (batch chosen responses fs) → rf.1 ∈ chosen ∧ rf.2 ∈ fs.
Proof.
  intros (x & -> & [_ Hx]%elem_of_sql_select)%list_elem_of_fmap.
  destruct batch_columns as (E1 & E2 & _). split.
  - rewrite <-E1. by apply list_elem_of_fmap_2, list_elem_of_fmap_2.
  - rewrite <-E2. by apply list_elem_of_fmap_2, list_elem_of_fmap_2.
Qed.

Lemma elem_of_refused f : f ∈ refused (batch chosen responses fs) → f ∈ fs.
Proof.
  unfold refused. rewrite <-list_fmap_compose. intros (x & -> & [_ Hx]%elem_of_sql_select)%list_elem_of_fmap.
  destruct batch_columns as (_ & E2 & _). rewrite <-E2. cbn. by apply list_elem_of_fmap_2, list_elem_of_fmap_2.
Qed.

(** A column of the accepted payments has no duplicates if the whole column has none. *)
Lemma accepted_NoDup {A} (f : PayableRow * FingerprintRow → A) :
  NoDup (f <$> (batch chosen responses fs).*1) → NoDup (f <$> accepted (batch chosen responses fs)).
Proof. unfold accepted. rewrite <-!list_fmap_compose. apply NoDup_fmap_filter. Qed.

Lemma chosen_debt r :
  r ∈ chosen → debts (payable (tables (conn s))) !! pr_wallet_address r = Some (debt_of_row r) ∧
    pr_pending_payable_rowid r = None ∧ 0 ≤ debt_wei (debt_of_row r) < 2 ^ 126.
Proof.
  intros [Hto Hr]%elem_of_sql_select. destruct Hready. apply andb_true_iff in Hto as [Hnone%bool_decide_eq_true _].
  split; [apply table_map_Some; [apply rd_payables0|by exists r]|]. split; [done|].
  split; [by apply rd_debts0|]. apply divided_storable. by apply (payables_ok_row _ _ rd_payables0).
Qed.

Lemma accepted_addresses : NoDup (pr_wallet_address <$> (accepted (batch chosen responses fs)).*1).
Proof.
  destruct batch_columns as (E1 & _). rewrite <-list_fmap_compose. apply accepted_NoDup.
  rewrite list_fmap_compose, E1. apply NoDup_fmap_filter, Hready.
Qed.

(** In the state when the fingerprints have been recorded. *)
Lemma batch_markable s1 :
  tables (conn s1) = set_pending_payable (pending ++ fs) (tables (conn s)) →
  markable s1 (accepted (batch chosen responses fs)).
Proof.
  intros Hs1.
  destruct Hready as [Hp _ Hf Hlink _ _ _]. destruct batch_columns as (E1 & E2 & _).
  destruct Hfs as [Hrow Hhash _]. rewrite fmap_app in Hrow, Hhash.
  apply NoDup_app in Hrow as (_ & Hrow & _). apply NoDup_app in Hhash as (_ & _ & Hhash).
  split; [split|..]; rewrite ?Hs1; cbn [payable pending_payable set_pending_payable].
  - intros rf [_ Hin]%elem_of_accepted. set_solver.
  - rewrite <-list_fmap_compose. apply accepted_NoDup. rewrite list_fmap_compose. by rewrite E2.
  - apply accepted_addresses.
  - intros rf [Hin _]%elem_of_accepted. destruct (chosen_debt _ Hin) as (Hd & Hnone & _). by eexists.
  - intros rf a d [_ Hin]%elem_of_accepted Hd Ei. apply (Hrow (fr_rowid rf.2)); [by eapply Hlink|].
    by apply list_elem_of_fmap_2.
Qed.

Lemma batch_inj x y :
  x ∈ batch chosen responses fs → y ∈ batch chosen responses fs → x.1.2 = y.1.2 → x = y.
Proof.
  destruct batch_columns as (_ & E2 & _). rewrite <-list_fmap_compose in E2.
  apply (NoDup_fmap_inj_on (snd ∘ fst)). rewrite E2. destruct Hfs as [Hrow _ _].
  rewrite fmap_app in Hrow. apply NoDup_app in Hrow as (_ & _ & Hrow). by eapply NoDup_fmap_1.
Qed.

Lemma accepted_not_refused rf : rf ∈ accepted (batch chosen responses fs) → rf.2 ∉ refused (batch chosen responses fs).
Proof.
  intros (x & -> & [Hx Hin]%elem_of_sql_select)%list_elem_of_fmap. unfold refused. rewrite <-list_fmap_compose.
  intros (y & E & [Hy Hin']%elem_of_sql_select)%list_elem_of_fmap. cbn in E.
  rewrite (batch_inj x y Hin Hin' E) in Hx. by rewrite Hx in Hy.
Qed.

Lemma batch_inj_debt x y :
  x ∈ batch chosen responses fs → y ∈ batch chosen responses fs →
  pr_wallet_address x.1.1 = pr_wallet_address y.1.1 → x = y.
Proof.
  destruct batch_columns as (E1 & _). intros Hx Hy E.
  apply (NoDup_fmap_inj_on (pr_wallet_address ∘ fst ∘ fst) (batch chosen responses fs)); [|done..].
  rewrite !list_fmap_compose, E1. apply NoDup_fmap_filter, Hready.
Qed.

Lemma old_not_refused f : f ∈ pending → f ∉ refused (batch chosen responses fs).
Proof.
  intros Hf Href%elem_of_refused. destruct Hfs as [Hrow _ _]. rewrite fmap_app in Hrow.
  apply NoDup_app in Hrow as (_ & Hrow & _). by apply (Hrow (fr_rowid f)); apply list_elem_of_fmap_2.
Qed.

Lemma batch_lookup i r f x :
  chosen !! i = Some r → fs !! i = Some f → responses !! i = Some x →
  batch chosen responses fs !! i = Some (r, f, answered x).
Proof.
  intros Hr Hf Hx. unfold batch. rewrite !lookup_zip_with, Hr, Hf, list_lookup_fmap, Hx. done.
Qed.

Lemma marks_lookup a i :
  (list_to_map (mark_of <$> accepted (batch chosen responses fs)) : gmap (list Z) Z) !! a = Some i ↔
  ∃ rf, rf ∈ accepted (batch chosen responses fs) ∧ pr_wallet_address rf.1 = a ∧ fr_rowid rf.2 = i.
Proof.
  rewrite <-elem_of_list_to_map.
  - rewrite list_elem_of_fmap. unfold mark_of. naive_solver.
  - rewrite <-list_fmap_compose. pose proof accepted_addresses as Hnd. by rewrite <-list_fmap_compose in Hnd.
Qed.

(** The debts when the payments have been marked. *)
Definition marked_debts : gmap (list Z) Debt :=
  mark_debts (mark_of <$> accepted (batch chosen responses fs)) (debts (payable (tables (conn s)))).

Lemma marked_debts_inv a d :
  marked_debts !! a = Some d → ∃ d0, debts (payable (tables (conn s))) !! a = Some d0 ∧
    debt_wei d = debt_wei d0 ∧ debt_since d = debt_since d0 ∧
    ((∃ rf, rf ∈ accepted (batch chosen responses fs) ∧ pr_wallet_address rf.1 = a ∧
        debt_payment d = Some (fr_rowid rf.2)) ∨ d = d0).
Proof.
  unfold marked_debts, mark_debts. rewrite map_lookup_imap.
  destruct (debts (payable (tables (conn s))) !! a) as [d0|]; [|done]. cbn.
  destruct (list_to_map _ !! a) as [i|] eqn:E; intros [= <-]; exists d0; split_and!; try done; [|by right].
  apply marks_lookup in E as (rf & Hrf & Ha & <-). left. by exists rf.
Qed.

Lemma marked_debts_accepted r f x i :
  chosen !! i = Some r → fs !! i = Some f → responses !! i = Some x → answered x = true →
  marked_debts !! pr_wallet_address r = Some (mkDebt (debt_wei (debt_of_row r)) (pr_last_paid_timestamp r) (Some (fr_rowid f))).
Proof.
  intros Hr Hf Hx Hans. pose proof (batch_lookup _ _ _ _ Hr Hf Hx) as Hb%list_elem_of_lookup_2. rewrite Hans in Hb.
  unfold marked_debts, mark_debts. rewrite map_lookup_imap.
  rewrite (proj1 (chosen_debt r (list_elem_of_lookup_2 _ _ _ Hr))). cbn.
  rewrite (proj2 (marks_lookup _ (fr_rowid f))); [done|]. exists (r, f). split; [|done].
  apply (list_elem_of_fmap_2 fst _ (r, f, true)). by apply elem_of_sql_select.
Qed.

Lemma marked_debts_other a :
  (∀ rf, rf ∈ accepted (batch chosen responses fs) → pr_wallet_address rf.1 ≠ a) →
  marked_debts !! a = debts (payable (tables (conn s))) !! a.
Proof.
  intros Ha. unfold marked_debts, mark_debts. rewrite map_lookup_imap.
  destruct (list_to_map _ !! a) as [i|] eqn:E; [|by destruct (debts _ !! a)].
  apply marks_lookup in E as (rf & Hrf & Hra & _). by destruct (Ha rf).
Qed.
End Batch.

(** ** A round of payments *)
Section Round.
Context `{Signatures} `{Web3} (now : Z) (svc : BlockchainService) (chain : Chain) (secret : list Z).
Context (gas fee token nonce : Z) (responses : list (result unit string)) (s : Accountant).
Context (Hworks : faults (conn s) = []) (Hready : ready now s) (Hidle : scan_started_at Payables s = None).
Context (Hwallet : consuming_wallet_opt s = Some (WalletSecretKey secret)).

Abbreviation chosen := (sql_select (to_pay (payment_thresholds s) now) (payable (tables (conn s)))).
Abbreviation pending := (pending_payable (tables (conn s))).
Abbreviation has := (signed chain secret gas nonce chosen).

Context (Hsvc : service_answers svc chain secret gas fee token nonce chosen responses) (Hsome : chosen ≠ []).
Context (Hhash : NoDup (ha_hash <$> has)) (Hnew : ∀ ha, ha ∈ has → ha_hash ha ∉ fr_transaction_hash <$> pending).
Context (Hroom : next_rowid pending + Z.of_nat (length chosen) ≤ 2 ^ 63).

Lemma signed_amounts ha : ha ∈ has → 0 ≤ ha_amount ha < 2 ^ 126.
Proof.
  assert (∀ rows n, (∀ r, r ∈ rows → 0 ≤ debt_wei (debt_of_row r) < 2 ^ 126) →
    ha ∈ signed chain secret gas n rows → 0 ≤ ha_amount ha < 2 ^ 126) as Hall.
  { induction rows as [|r rows IH]; intros n Hr; cbn; [by intros ?%elem_of_nil|].
    intros [->|Hin]%elem_of_cons; [apply Hr; left|]. apply (IH (n + 1)); [|done]. intros; apply Hr; by right. }
  apply Hall. intros r Hr. by apply (chosen_debt now s Hready).
Qed.

(** The scan hands the chosen debts to the bridge. *)
Lemma scan_chooses tr (P : list AccountantMessage → Accountant → list AccountantMessage → Prop) :
  (∀ c', works True c' → tables c' = tables (conn s) →
     P (ToBridgeQualifiedPayables (mkQualifiedPayables (debt_account <$> chosen) (WalletSecretKey secret)
          (trigger_skeleton tr)) :: next_scan tr Payables s)
       (set_started_at Payables (Some now) (set_conn c' s)) []) →
  endures True (listen (handle_accountant_event now (scan_request Payables tr))) s P.
Proof.
  intros HP. pose proof Hready as [Hp Hd Hf _ _ Hpt Hb]. apply endures_listen, endures_scan_request.
  unfold handle_request_of_scan, handle_request_of_scan_for_payable. end_step. end_step. rewrite Hwallet. end_step.
  apply payable_begin_scan_spec; [by intros ?|exact Hp|exact Hd|exact Hpt|exact Hidle|]. intros c' Hw' E'. rewrite decide_False by done.
  unfold send_bound. end_step. end_step. cbn [bound set_started_at set_conn]. rewrite Hb. end_step. by destruct tr; apply HP.
Qed.

(** The payments are sent and recorded. *)
Lemma sent_are_recorded sk s1 P :
  tables (conn s1) = tables (conn s) → works True (conn s1) → bound s1 = true →
  (∀ t, scan_started_at Payables s1 = Some t → t ≤ now) →
  (∀ fs rows c', Forall2 (seeded now) has fs → fingerprints_ok (pending ++ fs) → works True c' → payables_ok rows →
     debts rows = mark_debts (mark_of <$> accepted (batch chosen responses fs)) (debts (payable (tables (conn s)))) →
     tables c' = set_pending_payable (sql_select (λ f, bool_decide (f ∉ refused (batch chosen responses fs))) (pending ++ fs))
                   (set_payable rows (tables (conn s))) →
     P tt (set_started_at Payables None (set_conn c' s1))
       match sk with Some sk => [ToUiGateway (scan_response sk)] | None => [] end) →
  endures True (each (λ a, handle_accountant_event now (event_of_bridge a))
    [NewFingerprints (mkSeeds now has); ReportSentPayments (mkSentPayables (Ok (sent_result chain secret gas nonce chosen responses)) sk)])
    s1 P.
Proof.
  intros E1 Hw1 Hb Hstart HP. pose proof Hready as [Hp _ Hf _ Ht _ _]. cbn [each event_of_bridge handle_accountant_event].
  unfold handle_new_pending_payable_fingerprints. end_step. end_step. apply endures_on_db.
  cbn [hashes_and_balances batch_wide_timestamp]. apply insert_new_fingerprints_spec; rewrite ?E1; try done.
  { intros E. apply Hsome. by destruct chosen. }
  { apply signed_amounts. } { by rewrite length_signed. }
  intros fs c2 Hw2 E2 Hfs Hseeds. end_step. cbn [app].
  unfold handle_sent_payables. end_step. end_step.
  rewrite (sent_result_spec now svc chain secret gas fee token nonce chosen responses Hsvc fs Hseeds).
  assert (length responses = length chosen) as Hlen by apply Hsvc.
  apply payable_finish_scan_spec; cbn [conn set_conn]; rewrite ?E2; cbn [payable pending_payable set_pending_payable]; try done.
  - intros E. apply Hsome. destruct (batch_columns now chain secret gas nonce s fs responses Hseeds Hlen) as (Ec & _).
    rewrite E in Ec. by rewrite <-Ec.
  - by apply (batch_markable now chain secret gas nonce s fs responses Hready Hseeds Hlen Hfs).
  - intros f Hin%(elem_of_refused now chain secret gas nonce s fs responses Hseeds Hlen). set_solver.
  - intros rows c3 Hw3 Hok3 Hd3 E3. apply send_to_ui_spec; [done|]. end_step. rewrite app_nil_r. cbn [app].
    change (set_conn c3 (set_conn c2 s1)) with (set_conn c3 s1).
    destruct sk; (eapply (HP fs rows c3); try done; by rewrite E3).
Qed.

Lemma payment_round n tr (P : bool → Accountant → list AccountantMessage → Prop) :
  (∀ fs rows c', Forall2 (seeded now) has fs → fingerprints_ok (pending ++ fs) → works True c' → payables_ok rows →
     debts rows = mark_debts (mark_of <$> accepted (batch chosen responses fs)) (debts (payable (tables (conn s)))) →
     tables c' = set_pending_payable (sql_select (λ f, bool_decide (f ∉ refused (batch chosen responses fs))) (pending ++ fs))
                   (set_payable rows (tables (conn s))) →
     P true (set_started_at Payables None (set_conn c' s)) (next_scan tr Payables s ++ scan_answer tr)) →
  runs (scan_round now svc chain (3 + n) Payables tr) s P.
Proof.
  intros HP. apply (endures_runs True); [done|]. unfold scan_round. end_step. apply scan_chooses. intros c1 Hw1 E1.
  change (3 + n)%nat with (S (S (S n))).
  eapply converse_bridge; [done|by eapply bridge_builds_agent, sa_quotes|].
  cbn [each event_of_bridge handle_accountant_event]. end_step. unfold handle_payable_payment_setup. end_step.
  unfold try_skipping_payment_adjustment. cbn [search_for_indispensable_adjustment]. end_step.
  unfold send_bound. end_step. end_step. cbn [bound set_started_at set_conn]. rewrite (rd_bound _ _ Hready). end_step.
  end_step. destruct tr as [|sk]; cbn [app next_scan trigger_skeleton] in *; [apply converse_send; [done|]|].
  all: eapply converse_bridge; [done|by eapply bridge_sends_payments|].
  all: apply sent_are_recorded; [done|done|apply Hready|by intros t [= <-]|].
  all: intros fs rows c2 Hseeds Hfs Hw2 Hok2 Hd2 E2; cbn [app].
  all: assert (∀ c, set_started_at Payables None (set_conn c2 (set_conn c (set_started_at Payables (Some now) (set_conn c1 s))))
    = set_started_at Payables None (set_conn c2 s)) as Es by done; rewrite Es.
  - apply converse_done. by eapply HP.
  - apply converse_send; [done|]. apply converse_done. by eapply HP.
Qed.
End Round.

(** The books stay in order. *)
Lemma marked_ready `{Signatures} `{Web3} now chain secret gas nonce s fs responses rows c' :
  ready now s →
  Forall2 (seeded now) (signed chain secret gas nonce
    (sql_select (to_pay (payment_thresholds s) now) (payable (tables (conn s))))) fs →
  length responses = length (sql_select (to_pay (payment_thresholds s) now) (payable (tables (conn s)))) →
  fingerprints_ok (pending_payable (tables (conn s)) ++ fs) → payables_ok rows →
  debts rows = marked_debts now s fs responses →
  tables c' = set_pending_payable
    (sql_select (λ f, bool_decide (f ∉ refused (batch (sql_select (to_pay (payment_thresholds s) now)
       (payable (tables (conn s)))) responses fs))) (pending_payable (tables (conn s)) ++ fs))
    (set_payable rows (tables (conn s))) →
  ready now (set_started_at Payables None (set_conn c' s)).
Proof.
  intros Hready Hseeds Hlen Hfs Hok Hd E'. pose proof Hready as [Hp Hdebts Hf Hlink Ht Hpt Hb].
  assert (∀ a d, debts rows !! a = Some d → ∃ d0, debts (payable (tables (conn s))) !! a = Some d0 ∧
    debt_wei d = debt_wei d0 ∧ debt_since d = debt_since d0 ∧ ((∃ rf, rf ∈ accepted (batch
      (sql_select (to_pay (payment_thresholds s) now) (payable (tables (conn s)))) responses fs) ∧
      pr_wallet_address rf.1 = a ∧ debt_payment d = Some (fr_rowid rf.2)) ∨ d = d0)) as Hinv.
  { intros a d Had. rewrite Hd in Had. by eapply marked_debts_inv. }
  split; cbn [conn set_started_at set_conn payment_thresholds bound]; rewrite ?E'; try done.
  - cbn [payable set_pending_payable set_payable]. intros r Hr.
    destruct (Hinv (pr_wallet_address r) (debt_of_row r)) as (d0 & Hd0 & Ew & Es & _);
      [apply table_map_Some; [apply Hok|by exists r]|].
    apply table_map_Some in Hd0 as (r0 & Hr0 & _ & <-); [|apply Hp].
    rewrite Ew. cbn in Es. rewrite Es. by apply Hdebts.
  - by apply fingerprints_ok_select.
  - intros a d i. cbn [payable pending_payable set_pending_payable set_payable]. intros Had Hi.
    destruct (Hinv a d Had) as (d0 & Hd0 & _ & _ & [(rf & Hrf & _ & Hi')| ->]).
    + rewrite Hi in Hi'. injection Hi' as ->. apply list_elem_of_fmap_2, elem_of_sql_select. split.
      * apply bool_decide_eq_true. by eapply accepted_not_refused.
      * apply elem_of_app. right. by eapply elem_of_accepted.
    + destruct (proj1 (list_elem_of_fmap _ _ _) (Hlink a d0 i Hd0 Hi)) as (f & -> & Hin).
      apply list_elem_of_fmap_2, elem_of_sql_select. split; [|set_solver]. apply bool_decide_eq_true.
      by eapply old_not_refused.
Qed.

(** C2: Every debt that is due is paid, once.  When the Accountant scans for debts and the
    blockchain service answers, the exchange of messages between the Accountant and the
    BlockchainBridge comes to an end: exactly the debts that are due and not in payment
    were sent, each with its whole balance.  A debt whose payment was accepted is then in
    payment, with the fingerprint of its transaction, and is chosen by no scan for as long
    as it is; one whose payment was refused, and every other debt, is as before.  The
    scanner is idle again; if the scan was due its next run is scheduled, if a user has
    asked for it he is told. *)
Theorem due_debts_are_paid_once `{Signatures} `{Web3} now svc chain secret gas fee token nonce responses s tr n :
  let chosen := sql_select (to_pay (payment_thresholds s) now) (payable (tables (conn s))) in
  let pending := pending_payable (tables (conn s)) in
  let has := signed chain secret gas nonce chosen in
  let L := debts (payable (tables (conn s))) in
  faults (conn s) = [] → ready now s → scan_started_at Payables s = None →
  consuming_wallet_opt s = Some (WalletSecretKey secret) → chosen ≠ [] →
  service_answers svc chain secret gas fee token nonce chosen responses →
  NoDup (ha_hash <$> has) → (∀ ha, ha ∈ has → ha_hash ha ∉ fr_transaction_hash <$> pending) →
  next_rowid pending + Z.of_nat (length chosen) ≤ 2 ^ 63 →
  runs (scan_round now svc chain (3 + n) Payables tr) s (λ ended s' sent,
    ended = true ∧ ready now s' ∧ scan_started_at Payables s' = None ∧
    (∃ fs, Forall2 (seeded now) has fs ∧ ∀ i r f x,
       chosen !! i = Some r → fs !! i = Some f → responses !! i = Some x →
       if answered x
       then debts (payable (tables (conn s'))) !! pr_wallet_address r
              = Some (mkDebt (debt_wei (debt_of_row r)) (pr_last_paid_timestamp r) (Some (fr_rowid f))) ∧
            fingerprint_amount f = debt_wei (debt_of_row r) ∧ f ∈ pending_payable (tables (conn s')) ∧
            ∀ t r', r' ∈ payable (tables (conn s')) → pr_wallet_address r' = pr_wallet_address r →
              to_pay (payment_thresholds s') t r' = false
       else debts (payable (tables (conn s'))) !! pr_wallet_address r = L !! pr_wallet_address r ∧
            f ∉ pending_payable (tables (conn s'))) ∧
    (∀ a, a ∉ pr_wallet_address <$> chosen → debts (payable (tables (conn s'))) !! a = L !! a) ∧
    (∀ f, f ∈ pending → f ∈ pending_payable (tables (conn s'))) ∧
    receivable (tables (conn s')) = receivable (tables (conn s)) ∧
    sent = next_scan tr Payables s ++ scan_answer tr).
Proof.
  intros chosen pending has L Hworks Hready Hidle Hwallet Hsome Hsvc Hhash Hnew Hroom.
  assert (length responses = length chosen) as Hlen by apply Hsvc.
  apply (payment_round now svc chain secret gas fee token nonce responses s); try done.
  intros fs rows c' Hseeds Hfs Hw' Hok' Hd' E'.
  change (mark_debts _ _) with (marked_debts now s fs responses) in Hd'.
  split; [done|]. split; [by eapply marked_ready|]. split; [done|].
  cbn [conn set_started_at set_conn payment_thresholds]. rewrite E'.
  cbn [payable pending_payable receivable set_pending_payable set_payable]. rewrite Hd'.
  split_and!; [|..|done|done].
  - exists fs. split; [done|]. intros i r f x Hr Hf Hx.
    destruct (answered x) eqn:Hans.
    + assert (f ∉ refused (batch chosen responses fs)) as Hkeep.
      { apply (accepted_not_refused now chain secret gas nonce s fs responses Hseeds Hlen Hfs (r, f)).
        apply (list_elem_of_fmap_2 fst _ (r, f, true)), elem_of_sql_select. split; [done|].
        rewrite <-Hans. by eapply list_elem_of_lookup_2, batch_lookup. }
      pose proof (marked_debts_accepted now chain secret gas nonce s fs responses Hready Hseeds Hlen r f x i Hr Hf Hx Hans)
        as Hm. split_and!; [done|..].
      * destruct (Forall2_lookup_r _ _ _ _ _ Hseeds Hf) as (ha & Hha & [_ -> _ _ _ _]).
        by apply (signed_amount_lookup chain secret gas nonce chosen i r ha).
      * apply elem_of_sql_select. split; [by apply bool_decide_eq_true|]. apply list_elem_of_lookup_2 in Hf. set_solver.
      * intros t r' Hr' Ea. unfold to_pay. rewrite <-Hd', <-Ea in Hm.
        apply table_map_Some in Hm as (r2 & Hr2 & E2 & Ed); [|apply Hok'].
        rewrite (NoDup_fmap_inj_on _ _ _ _ (po_keys _ Hok') Hr2 Hr' E2) in Ed.
        apply (f_equal debt_payment) in Ed. cbn in Ed. by rewrite Ed.
    + pose proof (batch_lookup now s fs responses i r f x Hr Hf Hx) as Hb%list_elem_of_lookup_2. rewrite Hans in Hb. split.
      * eapply marked_debts_other; try done. intros rf (y & -> & [Hy Hin]%elem_of_sql_select)%list_elem_of_fmap E.
        by rewrite (batch_inj_debt now chain secret gas nonce s fs responses Hready Hseeds Hlen y (r, f, false) Hin Hb E) in Hy.
      * intros [Hnot _]%elem_of_sql_select. apply bool_decide_eq_true in Hnot. apply Hnot. unfold refused.
        rewrite <-list_fmap_compose. apply (list_elem_of_fmap_2 (snd ∘ fst) _ (r, f, false)). by apply elem_of_sql_select.
  - intros a Ha. eapply marked_debts_other; try done. intros rf Hrf <-. apply Ha. apply list_elem_of_fmap_2.
    by eapply elem_of_accepted.
  - intros f Hf. apply elem_of_sql_select. split; [|set_solver]. apply bool_decide_eq_true. by eapply old_not_refused.
Qed.

(** ** A round of receipts *)
Section Receipts.
Context `{Signatures} `{Web3} (now : Z) (svc : BlockchainService) (chain : Chain) (answers : list ReceiptResponse).
Context (s : Accountant) (Hworks : faults (conn s) = []).
Context (Hf : fingerprints_ok (pending_payable (tables (conn s)))).

(** The transactions to look for, and what was found. *)
Definition looked_for : list FingerprintRow := sql_select errorless (pending_payable (tables (conn s))).
Definition receipts : list (TransactionReceiptResult * FingerprintRow) :=
  zip (zip_with receipt_result answers (fr_transaction_hash <$> looked_for)) looked_for.

Context (Hanswers : svc_receipts svc (fr_transaction_hash <$> looked_for) = Ok answers).
Context (Hlen : length answers = length looked_for).

Lemma receipts_rows : receipts.*2 = looked_for.
Proof. unfold receipts. apply snd_zip. rewrite length_zip_with, length_fmap. lia. Qed.

Lemma reported_zip xs rows : zip xs (fingerprint_view <$> rows) = reported (zip xs rows).
Proof. revert rows. induction xs as [|x xs IH]; intros [|r rows]; [done..|]. cbn. by rewrite IH. Qed.

Lemma bridge_fetches_receipts sk c :
  handle_bridge_message now svc chain (ToBridgeRequestReceipts (mkRequestReceipts (fingerprint_view <$> looked_for) sk)) c =
  Ret (tt, c, [ReportReceipts (mkReportReceipts (reported receipts) sk)]).
Proof.
  cbn [handle_bridge_message rt_response_skeleton_opt]. unfold handle_scan_future, handle_request_transaction_receipts.
  cbn [rt_pending_payable rt_response_skeleton_opt]. rewrite <-list_fmap_compose.
  change (fgp_hash ∘ fingerprint_view) with fr_transaction_hash. unfold process_transaction_receipts. rewrite Hanswers.
  rewrite reported_zip. done.
Qed.

Lemma receipts_are_ok payee :
  (∀ r, r ∈ with_verdict Confirmed receipts →
     in_payment (debts (payable (tables (conn s)))) (payee r) (fingerprint_view r)) →
  receipts_ok s payee receipts.
Proof.
  intros Hpay. split; [|rewrite receipts_rows; apply NoDup_fmap_filter, Hf|done].
  intros x Hx. assert (x.2 ∈ receipts.*2) as Hx2 by by apply list_elem_of_fmap_2.
  rewrite receipts_rows in Hx2. by apply elem_of_sql_select in Hx2 as [_ ?].
Qed.
End Receipts.

(** C4: A confirmed payment is settled, once.  When the Accountant scans for receipts and
    the blockchain service answers, every debt whose transaction is confirmed is reduced by
    exactly the amount sent, whatever was charged to it since, dated to that payment and
    open for the next one; the other debts stay as they are.  The fingerprints of confirmed
    transactions are deleted, so that they are not confirmed again, those of failed ones
    are marked, the others are looked for again; what was paid is added to the total, the
    scanner is idle again, and its next run is scheduled or the user who asked is told. *)
Theorem confirmed_payments_are_settled_once `{Signatures} `{Web3} now svc chain answers payee s tr n :
  faults (conn s) = [] →
  payables_ok (payable (tables (conn s))) → fingerprints_ok (pending_payable (tables (conn s))) →
  (∀ r, r ∈ looked_for s → attempts_fit r) → looked_for s ≠ [] →
  (∀ r, r ∈ with_verdict Confirmed (receipts answers s) →
     in_payment (debts (payable (tables (conn s)))) (payee r) (fingerprint_view r)) →
  in_width 128 (total_paid_payable_wei (financial_statistics s)) →
  bound s = true → consuming_wallet_opt s ≠ None → scan_started_at PendingPayables s = None →
  svc_receipts svc (fr_transaction_hash <$> looked_for s) = Ok answers → length answers = length (looked_for s) →
  runs (scan_round now svc chain (2 + n) PendingPayables tr) s (λ ended s' sent,
    ended = true ∧ settled payee (receipts answers s) s s' ∧
    sent = next_scan tr PendingPayables s ++ scan_answer tr).
Proof.
  intros Hworks Hp Hf Hfit Hsome Hpay Hst Hb Hwallet Hidle Hans Hlen.
  apply (endures_runs True); [done|]. unfold scan_round. end_step. apply endures_listen, endures_scan_request.
  unfold handle_request_of_scan, handle_request_of_scan_for_pending_payable. end_step. end_step. destruct (consuming_wallet_opt s) as [w|] eqn:Ew; [|done]. end_step.
  unfold pending_payable_begin_scan. end_step. end_step. rewrite Hidle. unfold mark_as_started. end_step. end_step.
  end_step. apply endures_on_db. apply return_all_errorless_fingerprints_spec; [by intros ?|done| |].
  { intros r Hr He. apply Hfit. by apply elem_of_sql_select. }
  intros c1 Hw1 E1. cbn [conn set_started_at] in *. fold (looked_for s).
  destruct (fingerprint_view <$> looked_for s) as [|v vs] eqn:Ev; [by destruct (looked_for s)|]. rewrite <-Ev.
  end_step. unfold send_bound. end_step. end_step. cbn [bound set_conn set_started_at]. rewrite Hb. end_step.
  change (2 + n)%nat with (S (S n)). cbn [app].
  eapply converse_bridge; [done|by apply (bridge_fetches_receipts _ _ _ answers)|].
  cbn [each event_of_bridge]. end_step. eapply endures_mono.
  - apply (receipts_settle True _ now payee (receipts answers s)); cbn [conn set_conn set_started_at bound]; rewrite ?E1; try done.
    + destruct (receipts_are_ok answers s Hf Hlen payee Hpay) as [H1 H2 H3]. split; cbn [conn set_conn set_started_at]; by rewrite ?E1.
    + intros E. pose proof (receipts_rows answers s Hlen) as Er. rewrite E in Er. by apply Hsome.
    + by intros t [= <-].
  - intros [] s' sent [Hset ->]. end_step. rewrite app_nil_r. cbn [app].
    unfold settled in *. cbn [conn set_conn set_started_at] in Hset. rewrite E1 in Hset.
    destruct tr; cbn [next_scan trigger_skeleton app]; (apply converse_send; [done|]); apply converse_done; by split.
Qed.
