(* ===== verification/FinancialFacts.v ===== *)
(** * Reports are complete

    The debts that a report with the top records shows are the right ones, in order. *)

From S2P Require Import Prelude.
From S2P Require Import Actor.
From S2P Require Import NodeAddr.
From S2P Require Import NodeRecord.
From S2P Require Import Cryptde.
From S2P Require Import Sql.
From S2P Require Import BigInt.
From S2P Require Import Thresholds.
From S2P Require Import ConfigStore.
From S2P Require Import AccountantDb.
From S2P Require Import AccountantDbFacts.
From S2P Require Import FingerprintFacts.
From S2P Require Import FinancialQueries.

Lemma divided_gtb_spec h1 l1 h2 l2 : divided_gtb h1 l1 h2 l2 = true ↔ h2 < h1 ∨ (h1 = h2 ∧ l2 < l1).
Proof. unfold divided_gtb. rewrite orb_true_iff, andb_true_iff, !Z.ltb_lt, Z.eqb_eq. done. Qed.

Lemma divided_geb_spec h1 l1 h2 l2 : divided_geb h1 l1 h2 l2 = true ↔ h2 < h1 ∨ (h1 = h2 ∧ l2 ≤ l1).
Proof. unfold divided_geb. rewrite orb_true_iff, andb_true_iff, Z.ltb_lt, Z.leb_le, Z.eqb_eq. done. Qed.

Section Order.
Context {R : Type} (cols : R → Z * Z) (time : R → Z).

Definition before (ordered_by : TopRecordsOrdering) : R → R → Prop :=
  match ordered_by with ByAge => age_first cols time | ByBalance => balance_first cols time end.

Lemma before_iff o r1 r2 :
  before o r1 r2 ↔
  match o with
  | ByBalance => (cols r2).1 < (cols r1).1 ∨ ((cols r1).1 = (cols r2).1 ∧ (cols r2).2 < (cols r1).2) ∨
                 ((cols r1).1 = (cols r2).1 ∧ (cols r1).2 = (cols r2).2 ∧ time r1 ≤ time r2)
  | ByAge => time r1 < time r2 ∨ (time r1 = time r2 ∧ ((cols r2).1 < (cols r1).1 ∨
                 ((cols r1).1 = (cols r2).1 ∧ (cols r2).2 ≤ (cols r1).2)))
  end.
Proof.
  destruct o; cbn; unfold age_first, balance_first; rewrite ?divided_gtb_spec, ?divided_geb_spec; [done|].
  destruct (cols r1), (cols r2). cbn. naive_solver.
Qed.

#[export] Instance before_total o : Total (before o).
Proof. intros r1 r2. rewrite !before_iff. destruct o; lia. Qed.

#[export] Instance before_trans o : Transitive (before o).
Proof. intros r1 r2 r3. rewrite !before_iff. destruct o; lia. Qed.

#[export] Instance before_dec o r1 r2 : Decision (before o r1 r2).
Proof. destruct o; cbn; apply _. Defined.

Lemma order_top_spec o rows : StronglySorted (before o) (order_top cols time o rows) ∧ order_top cols time o rows ≡ₚ rows.
Proof.
  split.
  - destruct o; cbn; [apply (StronglySorted_merge_sort (before ByAge))|apply (StronglySorted_merge_sort (before ByBalance))].
  - destruct o; cbn; apply merge_sort_Permutation.
Qed.

(** The first [n] rows in the order, of those that are worth showing. *)
Lemma top_rows_spec n o rows :
  let shown := take n (order_top cols time o (sql_select (at_least_one_gwei cols) rows)) in
  StronglySorted (before o) shown ∧ length shown = min n (length (sql_select (at_least_one_gwei cols) rows)) ∧
  ∃ hidden, shown ++ hidden ≡ₚ sql_select (at_least_one_gwei cols) rows ∧
    ∀ x y, x ∈ shown → y ∈ hidden → before o x y.
Proof.
  set (sel := sql_select _ rows). destruct (order_top_spec o sel) as [Hs Hp]. set (l := order_top cols time o sel) in *.
  intros shown. assert (l = shown ++ drop n l) as El by (unfold shown; by rewrite take_drop). rewrite El in Hs.
  apply StronglySorted_app in Hs as (Hcross & Hs1 & _). split; [done|]. split.
  - unfold shown. rewrite length_take. by rewrite Hp.
  - exists (drop n l). split; [by rewrite <-El|]. done.
Qed.
End Order.

(** ** Debts *)
Definition shown_account (fingerprints : list FingerprintRow) (r : PayableRow) : PayableAccount :=
  mkPayableAccount (WalletAddress (pr_wallet_address r)) (debt_wei (debt_of_row r)) (pr_last_paid_timestamp r)
    (rowid ← pr_pending_payable_rowid r; hash ← pending_hash fingerprints rowid; Some (mkPendingId rowid hash)).

Lemma at_least_one_gwei_spec r :
  payable_row_ok r → at_least_one_gwei payable_columns r = (WEIS_IN_GWEI <=? debt_wei (debt_of_row r)).
Proof.
  intros [Hd _]. unfold at_least_one_gwei, payable_columns. cbn [fst snd debt_wei debt_of_row].
  fold (divided_geb (pr_balance_high_b r) (pr_balance_low_b r) 0 1000000000).
  rewrite joined_ge by (done || (split; lia)). done.
Qed.

Lemma pending_hash_found fingerprints i :
  i ∈ fr_rowid <$> fingerprints → ∃ hash, pending_hash fingerprints i = Some hash.
Proof.
  intros (f & -> & Hf)%list_elem_of_fmap. unfold pending_hash.
  assert (f ∈ sql_select (λ f', bool_decide (fr_rowid f' = fr_rowid f)) fingerprints) as Hin.
  { apply elem_of_sql_select. by rewrite bool_decide_eq_true_2. }
  destruct (sql_select _ fingerprints) as [|f0 l]; [by apply elem_of_nil in Hin|]. by eexists.
Qed.

Lemma create_payable_account_spec fingerprints r :
  payable_row_ok r → 0 ≤ debt_wei (debt_of_row r) →
  (∀ i, pr_pending_payable_rowid r = Some i → i ∈ fr_rowid <$> fingerprints) →
  create_payable_account fingerprints r = Ret (shown_account fingerprints r).
Proof.
  intros [Hd Ht] Hpos Hlink. unfold create_payable_account, shown_account. rewrite reconstitute_spec by done. run_outcome.
  cbn [debt_wei debt_of_row] in *. pose proof (divided_storable _ _ Hd) as [_ ?].
  rewrite checked_conversion_ok by (apply in_type_u128; lia). run_outcome. rewrite from_time_t_ok by done.
  destruct (pr_pending_payable_rowid r) as [i|]; [|done]. destruct (pending_hash_found fingerprints i) as (hash & E);
    [by apply Hlink|]. rewrite E. cbn. by rewrite E.
Qed.

(** A report shows the right debts.  The top records of the debts are as many as asked
    for, or all there are, of the debts of at least one gwei, in the order asked for, and
    none that is left out comes before one that is shown; each is shown with its whole
    balance and with the transaction that pays it, if one is under way. *)
Theorem top_debts_are_reported c count o :
  faults c = [] → payables_ok (payable (tables c)) →
  (∀ r, r ∈ payable (tables c) → 0 ≤ debt_wei (debt_of_row r) ∧
     ∀ i, pr_pending_payable_rowid r = Some i → i ∈ fr_rowid <$> pending_payable (tables c)) →
  let worth := sql_select (λ r, WEIS_IN_GWEI <=? debt_wei (debt_of_row r)) (payable (tables c)) in
  runs (payable_custom_query (TopRecords count o)) c (λ res c' _,
    tables c' = tables c ∧ ∃ shown hidden,
      default [] res = shown_account (pending_payable (tables c)) <$> shown ∧
      shown ++ hidden ≡ₚ worth ∧ length shown = min (Z.to_nat count) (length worth) ∧
      StronglySorted (before payable_columns pr_last_paid_timestamp o) shown ∧
      ∀ x y, x ∈ shown → y ∈ hidden → before payable_columns pr_last_paid_timestamp o x y).
Proof.
  intros Hfaults Hok Hrows worth. apply (endures_runs True); [done|]. unfold payable_custom_query. end_step.
  apply endures_query_or_panic; [by intros ?|]. intros c' _ E'. cbn beta iota. end_step. end_step.
  cbn [query_rows returns mret outcome_ret].
  destruct (top_rows_spec payable_columns pr_last_paid_timestamp (Z.to_nat count) o (payable (tables c)))
    as (Hsorted & Hlen & hidden & Hperm & Hcross).
  rewrite (sql_select_ext _ (λ r, WEIS_IN_GWEI <=? debt_wei (debt_of_row r))) in *
    by (intros r Hr; apply at_least_one_gwei_spec; by eapply payables_ok_row).
  set (shown := take _ _) in *. end_step. end_step.
  rewrite (map_outcome_ret _ (shown_account (pending_payable (tables c)))).
  2:{ intros r Hr. assert (r ∈ payable (tables c)) as Hin.
      { assert (r ∈ shown ++ hidden) as Hin by (apply elem_of_app; by left). rewrite Hperm in Hin.
        by apply elem_of_sql_select in Hin as [_ ?]. }
      apply create_payable_account_spec; [by eapply payables_ok_row|apply (Hrows r Hin)..]. }
  cbn [returns]. end_step. split; [done|]. exists shown, hidden. split_and!; try done.
  by destruct (_ <$> shown).
Qed.
