(* ===== verification/AccountantFindings.v ===== *)
(** * Where the Accountant goes wrong

    Situations that the code of the Accountant and of the BlockchainBridge does not handle
    as it means to: an interrupted settlement, a large permanent debt, a blockchain service
    that lags, a batch that cannot be sent, thresholds that are left at their defaults. *)

From S2P Require Import Prelude.
From S2P Require Import Actor.
From S2P Require Import Bytes.
From S2P Require Import NodeAddr.
From S2P Require Import NodeRecord.
From S2P Require Import Cryptde.
From S2P Require Import Sql.
From S2P Require Import BigInt.
From S2P Require Import Thresholds.
From S2P Require Import ConfigStore.
From S2P Require Import AccountantDb.
From S2P Require Import AccountantDbFacts.
From S2P Require Import ClaimsFacts.
From S2P Require Import FingerprintFacts.
From S2P Require Import FinancialQueries.
From S2P Require Import Scanners.
From S2P Require Import Accountant.
From S2P Require Import AccountantFacts.
From S2P Require Import ReceivableScanFacts.
From S2P Require Import PayableScanFacts.
From S2P Require Import ReceiptFacts.
From S2P Require Import BlockchainBridge.
From S2P Require Import PaymentCycle.

(** ** An interrupted settlement *)
Section Interrupted.
Context `{Signatures}.
Implicit Types (c : Conn Books).

(** No debt is paid by the transaction with the given rowid. *)
Definition unlinked (i : Z) (rows : list PayableRow) : Prop := ∀ r, r ∈ rows → pr_pending_payable_rowid r ≠ Some i.

Lemma sql_update_unlinked i p f rows n rows' :
  unlinked i rows → (∀ r r', f r = Some r' → pr_pending_payable_rowid r' = None) →
  sql_update p f rows = Ok (n, rows') → unlinked i rows'.
Proof.
  unfold unlinked. intros Hun Hf. revert n rows' Hun. induction rows as [|r rows IH]; intros n rows' Hun; cbn.
  { by intros [= <- <-]. }
  destruct (sql_update p f rows) as [[m rest]|]; [|done].
  assert (∀ r', r' ∈ rest → pr_pending_payable_rowid r' ≠ Some i) as Hrest.
  { apply (IH m); [|done]. intros; apply Hun; by right. }
  destruct (p r).
  - destruct (f r) as [r1|] eqn:E; [|done]. intros [= <- <-] r' [->|Hr']%elem_of_cons; [|by apply Hrest].
    by rewrite (Hf r r1 E).
  - intros [= <- <-] r' [->|Hr']%elem_of_cons; [apply Hun; left|by apply Hrest].
Qed.

(** A statement that only ends payments. *)
Lemma ensures_payment_statement i p f c (P : result nat SqlError → Conn Books → list Empty_set → Prop) :
  unlinked i (payable (tables c)) → (∀ r r', f r = Some r' → pr_pending_payable_rowid r' = None) →
  (∀ res c', unlinked i (payable (tables c')) →
     (∀ n, res = Ok n → ∃ rows, sql_update p f (payable (tables c)) = Ok (n, rows)) →
     (res = Err SqlDatatypeConstraint → sql_update p f (payable (tables c)) = Err SqlDatatypeConstraint) → P res c' []) →
  ensures (sql_execute (on_table payable set_payable (sql_update p f))) c P.
Proof.
  intros Hun Hf HP res c' sent. unfold sql_execute, on_table.
  destruct (faults c) as [|[] fs]; [|intros [= <- <- <-]; by apply HP|];
    (destruct (sql_update p f (payable (tables c))) as [[n rows]|e] eqn:E; intros [= <- <- <-]; apply HP; cbn;
     [by eapply sql_update_unlinked|intros ? [= <-]; by eexists|done|done|done|by intros [= ->]]).
Qed.

Lemma ensures_sql_execute_same {A} (st : @statement Books A) c (P : result A SqlError → Conn Books → list Empty_set → Prop) :
  (∀ t a t', st t = Ok (a, t') → t' = t) → (∀ res c', tables c' = tables c → P res c' []) →
  ensures (sql_execute st) c P.
Proof.
  intros Hst HP res c' sent. unfold sql_execute.
  destruct (faults c) as [|[] fs]; [|intros [= <- <- <-]; by apply HP|];
    (destruct (st (tables c)) as [[a t]|e] eqn:E; intros [= <- <- <-]; apply HP; cbn; [by apply (Hst _ a)|done]).
Qed.

Lemma ensures_transaction_confirmed i fgp c (P : result unit PayableDaoError → Conn Books → list Empty_set → Prop) :
  unlinked i (payable (tables c)) →
  (∀ res c', unlinked i (payable (tables c')) → (fgp_rowid fgp = i → res ≠ Ok tt) → P res c' []) →
  ensures (transaction_confirmed fgp) c P.
Proof.
  intros Hun HP. unfold transaction_confirmed.
  ens_step. apply ensures_lift. intros rowid [-> _]%checked_conversion_inv.
  ens_step. apply ensures_lift. intros last_paid _. ens_step. apply ensures_lift. intros wei _. cbn [app].
  assert (∀ c', unlinked i (payable (tables c')) → fgp_rowid fgp = i → ∀ f,
    sql_update (has_pending_rowid (fgp_rowid fgp)) f (payable (tables c')) = Ok (0%nat, payable (tables c'))) as Hnone.
  { intros c' Hc' <- f. apply sql_update_none. intros r Hr. apply bool_decide_eq_false. by apply Hc'. }
  unfold processor_execute. ens_step. ens_step. cbn [main_sql payment_config wei_change_params].
  apply (ensures_payment_statement i); [done|by intros r r'; destruct (add_columns _ _ _); [intros [= <-]|]|].
  intros res c1 Hc1 HOk HErr. destruct res as [n|e].
  - assert (fgp_rowid fgp = i → n = 0%nat) as H0n.
    { intros Ei. destruct (HOk n eq_refl) as (rows & E). rewrite Hnone in E by done. by injection E. }
    destruct n as [|[|n]]; ens_step; ens_step; cbn; apply HP; try done; intros Ei; specialize (H0n Ei); done.
  - destruct e; try (ens_step; ens_step; by apply HP).
    unfold update_with_overflow. ens_step. apply ensures_sql_execute_same.
    { intros t row t'. destruct (select_sql _ t); [done|]. by intros [= _ <-]. }
    intros row c2 E2. destruct row as [[hi lo]|]; [|ens_step; ens_step; apply HP; [by rewrite E2|done]].
    destruct (correct_bytes hi lo _) as [hi' lo']. ens_step. unfold execute_update. ens_step.
    apply (ensures_payment_statement i); [by rewrite E2|by intros r r' [= <-]|].
    intros res c3 Hc3 _ _. ens_step. ens_step. case_decide; [|ens_step].
    ens_step. ens_step. ens_step. cbn. apply HP; [done|]. intros Ei.
    specialize (HErr eq_refl). by rewrite Hnone in HErr.
Qed.

Lemma ensures_transactions_confirmed i fgps c (P : result unit PayableDaoError → Conn Books → list Empty_set → Prop) :
  unlinked i (payable (tables c)) → i ∈ fgp_rowid <$> fgps → (∀ e c', P (Err e) c' []) →
  ensures (transactions_confirmed fgps) c P.
Proof.
  revert c P. induction fgps as [|fgp fgps IH]; intros c P Hun Hi HE; [by apply elem_of_nil in Hi|].
  cbn [transactions_confirmed]. ens_step. apply (ensures_transaction_confirmed i); [done|].
  intros res c1 Hc1 Hres. destruct res as [[]|e]; [|ens_step; apply HE]. apply IH; [done| |done].
  rewrite fmap_cons in Hi. apply elem_of_cons in Hi as [Ei|?]; [|done]. by destruct Hres.
Qed.
End Interrupted.

(** A settlement that is interrupted stops the node for good.  The debts that confirmed
    transactions pay are settled first and the fingerprints deleted afterwards, not in one
    transaction of the database.  If the node stops in between, a fingerprint is left that
    no debt refers to; from then on, whatever else the books hold and however the database
    behaves, the Accountant panics whenever the receipt of that transaction arrives, and it
    is asked for in every scan. *)
Theorem interrupted_settlement_panics `{Signatures} s now l sk r :
  r ∈ with_verdict Confirmed l → unlinked (fr_rowid r) (payable (tables (conn s))) →
  ∃ why, handle_accountant_event now (EvReceipts (mkReportReceipts (reported l) sk)) s = Panic why.
Proof.
  intros Hr Hun.
  destruct (handle_accountant_event now (EvReceipts (mkReportReceipts (reported l) sk)) s) as [[[u s'] sent]|why] eqn:E;
    [|by eexists]. exfalso. revert u s' sent E.
  change (ensures (handle_accountant_event now (EvReceipts (mkReportReceipts (reported l) sk))) s (λ _ _ _, False)).
  cbn [handle_accountant_event]. unfold handle_report_transaction_receipts, pending_payable_finish_scan.
  cbn [fingerprints_with_receipts]. ens_step. ens_step.
  destruct (reported l) as [|y ys] eqn:El; [by destruct l; [apply elem_of_nil in Hr|]|]. rewrite <-El.
  rewrite handle_receipts_spec. unfold process_transactions_by_reported_state. cbn [confirmed]. ens_step.
  unfold confirm_transactions.
  destruct (fingerprint_view <$> with_verdict Confirmed l) as [|v vs] eqn:Ev;
    [by destruct (with_verdict Confirmed l); [apply elem_of_nil in Hr|]|]. rewrite <-Ev. ens_step.
  intros res s1 sent Eres. unfold on_db in Eres.
  destruct (transactions_confirmed (fingerprint_view <$> with_verdict Confirmed l) (conn s)) as [[[res' c'] sent']|] eqn:Et; [|done].
  injection Eres as <- <- <-. revert res' c' sent' Et.
  apply (ensures_transactions_confirmed (fr_rowid r)); [done| |intros e c'; ens_step].
  rewrite <-list_fmap_compose. by apply (list_elem_of_fmap_2 (fgp_rowid ∘ fingerprint_view)).
Qed.

(** ** A permanent debt of 2^63 wei or more *)
Module LargeDebts.
(** 20 and 10 MASQ, after which a debtor is let in again at 10 MASQ *)
Definition thresholds : PaymentThresholds := mkThresholds 20000000000 1200 1200 10000000000 21600 10000000000.

Definition day : Z := 86400.
Definition row (address wei since : Z) : ReceivableRow :=
  mkReceivableRow [address] (wei / 2 ^ 63) (wei mod 2 ^ 63) since.

(** Debts of 5 and of 15 MASQ, a month old *)
Definition small : ReceivableRow := row 5 (5 * 10 ^ 18) (100 * day).
Definition large : ReceivableRow := row 15 (15 * 10 ^ 18) (100 * day).
Definition books_of_debtors : Books := mkBooks [] [] [small; large] [] [] [].

(** A large permanent debt is compared with the wrong number.  With thresholds that the
    configurator accepts, by which 10 MASQ may be owed for ever, the search for delinquents
    bans the debtor of 5 MASQ and spares the debtor of 15: where the permitted debt takes
    more than 63 bits, the query compares the upper part of the balance with zero instead
    of the upper part of the permitted debt. *)
Theorem large_permanent_debt_is_misjudged `{Signatures} :
  check_payment_thresholds thresholds = Ok tt ∧
  claim_wei (claim_of_row small) < gwei_to_wei (permanent_debt_allowed_gwei thresholds)
    < claim_wei (claim_of_row large) ∧
  new_delinquencies (130 * day) thresholds (mkConn books_of_debtors []) =
    Ret ([account_of_row small], mkConn books_of_debtors [], []).
Proof. vm_compute. done. Qed.
End LargeDebts.

(** ** Thresholds left at their defaults *)

(** The default thresholds stop the node.  The payment thresholds that a new database is
    filled with are refused by the check of the configuration, and the first scan for
    payments received with them is a panic: the debt threshold of 2^64 - 1 gwei does not
    fit in the parameter of the search for delinquents. *)
Theorem default_thresholds_panic `{Signatures} s now tr :
  payment_thresholds s = DEFAULT_PAYMENT_THRESHOLDS → scan_started_at Receivables s = None →
  (∃ why, check_payment_thresholds DEFAULT_PAYMENT_THRESHOLDS = Err why) ∧
  ∃ why, handle_accountant_event now (scan_request Receivables tr) s = Panic why.
Proof.
  intros Hpt Hidle. split; [by eexists|].
  destruct (handle_accountant_event now (scan_request Receivables tr) s) as [[[u s'] sent]|why] eqn:E; [|by eexists].
  exfalso. revert u s' sent E. change (ensures (handle_accountant_event now (scan_request Receivables tr)) s (λ _ _ _, False)).
  apply ensures_scan_request. unfold handle_request_of_scan, handle_request_of_scan_for_receivable,
    receivable_begin_scan, mark_as_started, scan_for_delinquencies, find_and_ban_delinquents.
  ens_step. ens_step. ens_step. ens_step. ens_step. rewrite Hidle. ens_step. ens_step. ens_step. ens_step.
  ens_step. ens_step. ens_step. cbn [payment_thresholds set_started_at]. rewrite Hpt.
  intros res s1 sent Eres. unfold on_db in Eres. cbn in Eres. done.
Qed.

(** ** A batch that cannot be sent *)

Lemma bridge_cannot_send `{Signatures} `{Web3} now svc chain secret gas fee token e accounts sk c :
  svc_transaction_count svc (secret_address secret) = Err e →
  handle_bridge_message now svc chain (ToBridgeOutboundPayments (mkOutbound accounts (agent chain secret gas fee token) sk)) c =
  Ret (tt, c, [ReportSentPayments (mkSentPayables (Err (TransactionID e)) sk);
               ReportScanError (mkScanError Payables sk "ReportAccountsPayable")]).
Proof.
  intros Hcount. cbn [handle_bridge_message op_response_skeleton_opt].
  unfold handle_scan_future, handle_outbound_payments_instructions, submit_payables_in_batch.
  cbn [op_agent affordable_accounts op_response_skeleton_opt agent_consuming_wallet agent wallet_address].
  unfold mbind, prog_bind. cbn [lift mret outcome_ret]. rewrite Hcount. done.
Qed.

(** A payment that fails is answered twice.  When the blockchain service does not tell
    the number of the next transaction, nothing is sent and no debt is changed, but the
    BlockchainBridge reports the failure both as the result of the payments and as an
    error of the scan: the user who asked for the scan is told that it was completed and
    then that it failed. *)
Theorem failed_payments_are_answered_twice `{Signatures} `{Web3} now svc chain secret gas fee token e s sk n :
  let chosen := sql_select (to_pay (payment_thresholds s) now) (payable (tables (conn s))) in
  faults (conn s) = [] → ready now s → scan_started_at Payables s = None →
  consuming_wallet_opt s = Some (WalletSecretKey secret) → chosen ≠ [] →
  service_quotes svc secret gas fee token → svc_transaction_count svc (secret_address secret) = Err e →
  runs (scan_round now svc chain (4 + n) Payables (ByUser sk)) s (λ ended s' sent,
    ended = true ∧ tables (conn s') = tables (conn s) ∧ scan_started_at Payables s' = None ∧
    sent = [ToUiGateway (mkToUi (client_id sk) (context_id sk) UiScanResponse);
            ToUiGateway (mkToUi (client_id sk) (context_id sk) (UiScanError Payables "ReportAccountsPayable"))]).
Proof.
  intros chosen Hworks Hready Hidle Hwallet Hsome Hquotes Hcount. apply (endures_runs True); [done|].
  unfold scan_round. end_step. apply (scan_chooses now secret s); try done. intros c1 Hw1 E1.
  change (4 + n)%nat with (S (S (S (S n)))).
  eapply converse_bridge; [done|by eapply bridge_builds_agent|].
  cbn [each event_of_bridge handle_accountant_event]. end_step. unfold handle_payable_payment_setup. end_step.
  unfold try_skipping_payment_adjustment. cbn [search_for_indispensable_adjustment]. end_step.
  unfold send_bound. end_step. end_step. cbn [bound set_started_at set_conn]. rewrite (rd_bound _ _ Hready). end_step.
  end_step. cbn [app next_scan trigger_skeleton]. eapply converse_bridge; [done|by apply bridge_cannot_send|].
  cbn [each event_of_bridge handle_accountant_event]. end_step.
  unfold handle_sent_payables, payable_finish_scan. end_step. end_step. end_step. apply returns_ret.
  end_step. cbn [length]. rewrite decide_True by done. end_step. end_step. cbn [handle_sent_payable_errors]. end_step. end_step.
  apply mark_as_ended_spec; [by intros t [= <-]|]. end_step. apply send_to_ui_spec; [by rewrite <-(rd_bound _ _ Hready)|].
  end_step. unfold handle_scan_error. cbn [se_scan_type se_response_skeleton_opt]. end_step.
  apply mark_as_ended_spec; [done|]. apply send_to_ui_spec; [by rewrite <-(rd_bound _ _ Hready)|]. end_step.
  cbn [app]. apply converse_send; [done|]. apply converse_send; [done|]. apply converse_done.
  split; [done|]. by split.
Qed.

(** ** A blockchain service that lags *)
Module Lagging.
#[local] Instance plain_signatures : Signatures := {|
  Signature := unit;
  EthPublicKey := unit;
  secret_address k := k;
  public_address k := k;
  sign_with _ _ := Ok tt;
  recover _ _ := Ok tt;
  eth_verify _ _ _ := Ok true;
  eth_address _ := [];
  keccak256 _ := []
|}.
#[local] Instance plain_web3 : Web3 := {| transaction_hash _ p := tp_nonce p; captured_max_block_count _ := None |}.

(** One payment of 300 wei, in the block 101 *)
Definition debtor : list Z := parts 8 20 7.
Definition the_log : Log := mkLog (Some 101) [0; 7] [1; 44].

Definition in_blocks (from to : BlockNumber) (l : Log) : bool :=
  match log_block_number l, from, to with
  | Some n, Number a, Number b => (a <=? n) && (n <=? b)
  | _, _, _ => false
  end.

(** A service that knows the blocks up to [head]. *)
Definition service (head : Z) : BlockchainService :=
  mkService (Err InvalidResponse) (λ _, Err InvalidResponse) (λ _, Err InvalidResponse) (λ _, Err InvalidResponse)
    (λ _, Err ""%string) (Ok head) (λ from to _, Ok (sql_select (in_blocks from to) [the_log])) (λ _, Err InvalidResponse).

(** The debtor owes 1000 wei. *)
Definition accountant : Accountant :=
  mkAccountant false None (WalletAddress [1])
    (mkConn (mkBooks [] [] [mkReceivableRow debtor 0 1000 5] []
               [mkConfigRecord "start_block" (Some "100"%string) false; mkConfigRecord "max_block_count" None false] []) [])
    None None None LargeDebts.thresholds 21600 (λ _, 600) (mkStatistics 0 0) true.

Definition round (head : Z) : acc bool := scan_round 10 (service head) Dev 5 Receivables ByTimer.

(** The claim on the debtor after scans with services of the given heights. *)
Definition claim_after (heads : list Z) : option Z :=
  match each (λ head, _ ← round head; mret tt) heads accountant with
  | Ret (_, s, _) => claim_wei <$> claims (receivable (tables (conn s))) !! debtor
  | Panic _ => None
  end.

(** A service that lags makes payments count twice.  A scan for payments stores the
    block behind the last one that the service knows, even if that lies before the block it
    began with.  When the payments up to block 105 have been entered, a single answer from a
    service that knows only 99 blocks makes the next scan fetch the same payment again: of
    1000 wei, 300 of which were paid, 400 are still claimed instead of 700. *)
Theorem lagging_service_counts_twice :
  claim_after [105; 106] = Some 700 ∧ claim_after [105; 99; 106] = Some 400.
Proof. vm_compute. done. Qed.
End Lagging.
