(* ===== verification/AccountantSamples.v ===== *)
(** * A node with accounts

    A concrete Accountant with a creditor, two debtors and a working blockchain service, at
    which the theorems about the Accountant apply. *)

From S2P Require Import Prelude.
From S2P Require Import Actor.
From S2P Require Import NodeAddr.
From S2P Require Import NodeRecord.
From S2P Require Import Gossip.
From S2P Require Import GossipAcceptor.
From S2P Require Import Cryptde.
From S2P Require Import Routes.
From S2P Require Import Migrations.
From S2P Require Import MigrationsFacts.
From S2P Require Import Payloads.
From S2P Require Import Hopper.
From S2P Require Import HopperFacts.
From S2P Require Import SampleCodecs.
From S2P Require Import Sql.
From S2P Require Import BigInt.
From S2P Require Import Thresholds.
From S2P Require Import ConfigStore.
From S2P Require Import AccountantDb.
From S2P Require Import AccountantDbFacts.
From S2P Require Import ClaimsFacts.
From S2P Require Import FingerprintFacts.
From S2P Require Import FinancialQueries.
From S2P Require Import Scanners.
From S2P Require Import Accountant.
From S2P Require Import AccountantFacts.
From S2P Require Import ReceivableScanFacts.
From S2P Require Import PayableScanFacts.
From S2P Require Import ReceiptFacts.
From S2P Require Import BlockchainBridge.
From S2P Require Import PaymentCycle.
From S2P Require Import FinancialFacts.
From S2P Require Import AccountantFindings.

#[local] Existing Instances Samples.shown_signatures
  listed_keys value_codec Samples.hop_codec Samples.lcp_codec Samples.message_codec Samples.id_codec
  Samples.request_payload Samples.response_payload Samples.dns_payload Samples.gossip_payload
  Samples.gossip_failure_payload.

(** Transactions are told apart by their nonces. *)
#[local] Instance numbered_transactions : Web3 :=
  {| transaction_hash _ p := 1000 + tp_nonce p; captured_max_block_count _ := None |}.

Definition sample_thresholds : PaymentThresholds := mkThresholds 1000000000 1200 1200 500000000 21600 500000000.
Definition two_masq : Z := 2 * 10 ^ 18.

Definition creditor : PayableRow := mkPayableRow [2] 0 two_masq 100 None.
Definition debtor : ReceivableRow := mkReceivableRow [3] 0 two_masq 100.
Definition small_debtor : ReceivableRow := mkReceivableRow [4] 0 1000 100.

Definition sample_config : list ConfigDaoRecord :=
  [mkConfigRecord "start_block" (Some "100"%string) false; mkConfigRecord "max_block_count" None false].

Definition accountant_with (b : Books) : Accountant :=
  mkAccountant false (Some (WalletSecretKey [1])) (WalletAddress [9]) (mkConn b []) None None None
    sample_thresholds 21600 (λ _, 600) (mkStatistics 0 0) true.

Definition sample_books : Books := mkBooks [creditor] [] [debtor; small_debtor] [] sample_config [].
Definition sample_accountant : Accountant := accountant_with sample_books.

(** The same when the debt is being paid. *)
Definition fingerprint : FingerprintRow := mkFingerprintRow 1 1007 0 two_masq 5000 1 None.
Definition paying : PayableRow := mkPayableRow [2] 0 (two_masq + 5) 100 (Some 1).
Definition paying_accountant : Accountant :=
  accountant_with (mkBooks [paying] [fingerprint] [debtor; small_debtor] [] sample_config []).

Definition sample_service : BlockchainService :=
  mkService (Ok 5) (λ _, Ok 100) (λ _, Ok 200) (λ _, Ok 7) (λ hashes, Ok ((λ _, Ok tt) <$> hashes)) (Ok 105)
    (λ _ _ _, Ok []) (λ hashes, Ok ((λ hash, Receipt hash (Some 1) (Some 0) (Some 103)) <$> hashes)).

Definition skeleton : ResponseSkeleton := mkSkeleton 1 2.

(** ** They are in order *)
Lemma sample_thresholds_sound : sound_thresholds sample_thresholds.
Proof. by split. Qed.

Lemma sample_thresholds_exact : exact_thresholds sample_thresholds.
Proof. split; [apply sample_thresholds_sound|done..]. Qed.

Lemma creditor_ok : payables_ok [creditor].
Proof. split; [apply NoDup_singleton|constructor|]. by repeat constructor. Qed.

Lemma paying_ok : payables_ok [paying].
Proof. split; [apply NoDup_singleton|apply NoDup_singleton|]. by repeat constructor. Qed.

Lemma debtors_ok : receivables_ok [debtor; small_debtor].
Proof. split; [by apply (bool_decide_unpack _)|]. by repeat constructor. Qed.

Lemma fingerprint_ok : fingerprints_ok [fingerprint].
Proof. split; [apply NoDup_singleton..|]. by repeat constructor. Qed.

Lemma sample_ready : ready 1000000 sample_accountant.
Proof.
  split; [apply creditor_ok| |by split; constructor| |done|apply sample_thresholds_sound|done].
  - by intros r ->%list_elem_of_singleton.
  - intros a d i (r & ->%list_elem_of_singleton & _ & <-)%table_map_Some; [done|apply creditor_ok].
Qed.

(** ** The theorems at these accounts *)
Lemma overdue_debts_are_chosen_witness :
  payable_exceeded_threshold sample_thresholds (debt_account creditor) 1000000
    = Ret (Some (gwei_to_wei (permanent_debt_allowed_gwei sample_thresholds))).
Proof. exact (proj1 (overdue_debts_are_chosen _ (debt_account creditor) 1000000 sample_thresholds_sound ltac:(done))). Defined.

(** A relay of 10 bytes for the wallet [3] at 5 and 2 wei *)
Definition relay : AccountantEvent := EvRoutingProvided (mkReport 500 (WalletAddress [3]) 10 5 2).

Lemma claims_of_debtors a : 0 ≤ claimed (claims [debtor; small_debtor]) a ≤ two_masq.
Proof.
  unfold claimed. destruct (claims _ !! a) as [cl|] eqn:E; [|done].
  apply table_map_Some in E as (r & Hr & _ & <-); [|apply debtors_ok].
  repeat (apply elem_of_cons in Hr as [->|Hr]; [done|]). by apply elem_of_nil in Hr.
Qed.

Lemma debts_of_creditor a : owed (debts [creditor]) a ≤ two_masq.
Proof.
  unfold owed. destruct (debts _ !! a) as [d|] eqn:E; [|done].
  by apply table_map_Some in E as (r & ->%list_elem_of_singleton & _ & <-); [|apply creditor_ok].
Qed.

Lemma claim_on_debtor :
  claims (receivable (tables (conn sample_accountant))) !! [3] = Some (claim_of_row debtor).
Proof. vm_compute. reflexivity. Qed.

Lemma claim_on_small_debtor :
  claims (receivable (tables (conn sample_accountant))) !! [4] = Some (claim_of_row small_debtor).
Proof. vm_compute. reflexivity. Qed.

Lemma services_are_charged_witness :
  runs (run_accountant [(600, relay)]) sample_accountant
    (λ _ s' _, claimed (ledger s').2 [3] = two_masq + 25 ∧ owed (ledger s').1 [2] = two_masq).
Proof.
  eapply runs_mono.
  - eapply endures_runs; [|apply (services_are_charged sample_accountant [(600, relay)])]; [done|apply creditor_ok|apply debtors_ok|..].
    + split; [by intros w [= <-]|done].
    + by repeat constructor.
    + split; [|done|intros a; pose proof (debts_of_creditor a)|intros a; pose proof (claims_of_debtors a)].
      * by intros ch ->%list_elem_of_singleton.
      * unfold two_masq in *. cbn in *. lia.
      * unfold two_masq in *. cbn in *. lia.
  - intros [] s' sent (_ & _ & Htotals). split; [by rewrite (proj2 (Htotals [3]))|by rewrite (proj1 (Htotals [2]))].
Defined.

Lemma payments_are_entered_witness :
  runs (handle_accountant_event 1000
          (EvReceived (mkReceived 900 (Value 106) [mkTransaction 103 (WalletAddress [3]) 300] (Some skeleton)))) sample_accountant
    (λ _ s' sent, claimed (claims (receivable (tables (conn s')))) [3] = two_masq - 300 ∧
       sent = [ToUiGateway (scan_response skeleton)]).
Proof.
  eapply runs_mono.
  - eapply endures_runs; [|apply (payments_are_entered sample_accountant 1000 900 106 _ (Some skeleton))];
      try done; [apply debtors_ok|..].
    + by intros tx ->%list_elem_of_singleton.
    + intros a. pose proof (claims_of_debtors a) as [Hlow _].
      change (claims (receivable (tables (conn sample_accountant)))) with (claims [debtor; small_debtor]).
      change (sum_wei wei_amount _) with 300. lia.
    + by apply (bool_decide_unpack _).
  - intros [] s' sent (_ & _ & Hcl & _ & _ & _ & _ & _ & ->).
    by rewrite (Hcl [3] (claim_of_row debtor) claim_on_debtor).
Defined.

Lemma delinquents_are_not_served_witness :
  runs (handle_accountant_event 1000000 (scan_request Receivables ByTimer)) sample_accountant
    (λ _ s' _, [3] ∈ banned (tables (conn s')) ∧ [4] ∉ banned (tables (conn s'))).
Proof.
  pose proof sample_thresholds_exact. eapply runs_mono.
  - eapply endures_runs; [|apply (delinquents_are_not_served sample_accountant 1000000 ByTimer)]; try done.
    + apply debtors_ok.
    + split; [apply NoDup_nil_2|done].
    + intros a cl Ha. apply table_map_Some in Ha as (r & Hr & _ & <-); [|apply debtors_ok].
      repeat (apply elem_of_cons in Hr as [->|Hr]; [done|]). by apply elem_of_nil in Hr.
  - intros [] s' sent (Hban & _). rewrite !Hban. split.
    + split; [right; exists (claim_of_row debtor); by split; [apply claim_on_debtor|vm_compute]|].
      intros (cl & Hcl & Href). rewrite claim_on_debtor in Hcl.
      injection Hcl as <-. vm_compute in Href. done.
    + intros [_ Hnot]. apply Hnot. exists (claim_of_row small_debtor). by split; [apply claim_on_small_debtor|vm_compute].
Defined.

Lemma sample_chosen :
  sql_select (to_pay (payment_thresholds sample_accountant) 1000000) (payable (tables (conn sample_accountant))) = [creditor].
Proof. vm_compute. reflexivity. Qed.

Lemma sample_quotes : service_quotes sample_service [1] 5 100 200.
Proof. by split. Qed.

Lemma due_debts_are_paid_once_witness :
  runs (scan_round 1000000 sample_service Dev 3 Payables (ByUser skeleton)) sample_accountant
    (λ ended s' _, ended = true ∧ ready 1000000 s').
Proof.
  eapply runs_mono.
  - apply (due_debts_are_paid_once 1000000 sample_service Dev [1] 5 100 200 7 [Ok tt] sample_accountant (ByUser skeleton) 0);
      [done|apply sample_ready|done|done|rewrite sample_chosen..|]; [done| |apply NoDup_singleton| |].
    + split; [apply sample_quotes|vm_compute; by split|reflexivity|done].
    + intros ha _. apply not_elem_of_nil.
    + rewrite sample_chosen. done.
  - intros ended s' sent (? & ? & _). done.
Defined.

Definition only_payee (r : FingerprintRow) : list Z := [2].

Lemma debt_in_payment : debts (payable (tables (conn paying_accountant))) !! [2] = Some (debt_of_row paying).
Proof. vm_compute. reflexivity. Qed.

Lemma paying_in_payment :
  in_payment (debts (payable (tables (conn paying_accountant)))) [2] (fingerprint_view fingerprint).
Proof. exists (debt_of_row paying). split; [exact debt_in_payment|]. vm_compute. done. Qed.

Lemma confirmed_payments_are_settled_once_witness :
  runs (scan_round 1000000 sample_service Dev 2 PendingPayables ByTimer) paying_accountant
    (λ ended s' _, ended = true ∧ debts (payable (tables (conn s'))) !! [2] = Some (mkDebt 5 5000 None)).
Proof.
  eapply runs_mono.
  - apply (confirmed_payments_are_settled_once 1000000 sample_service Dev [Receipt 1007 (Some 1) (Some 0) (Some 103)] only_payee
             paying_accountant ByTimer 0);
      [done|apply paying_ok|apply fingerprint_ok|by intros r ->%list_elem_of_singleton|done| |done..].
    intros r ->%list_elem_of_singleton. apply paying_in_payment.
  - intros ended s' sent (-> & (_ & Hset & _) & _). split; [done|].
    apply (Hset fingerprint (debt_of_row paying)); [by apply list_elem_of_singleton|apply debt_in_payment].
Defined.

Lemma interrupted_settlement_panics_witness :
  ∃ why, handle_accountant_event 1000
    (EvReceipts (mkReportReceipts (reported [(RpcResponse 1007 (TxSucceeded 0 103), fingerprint)]) None))
    (accountant_with (mkBooks [creditor] [fingerprint] [] [] sample_config [])) = Panic why.
Proof.
  apply (interrupted_settlement_panics _ _ _ _ fingerprint).
  - by apply list_elem_of_singleton.
  - by intros r ->%list_elem_of_singleton.
Defined.

Lemma default_thresholds_panic_witness :
  ∃ why, handle_accountant_event 1000 (scan_request Receivables ByTimer)
    (mkAccountant false None (WalletAddress [9]) (mkConn sample_books []) None None None
       DEFAULT_PAYMENT_THRESHOLDS 21600 (λ _, 600) (mkStatistics 0 0) true) = Panic why.
Proof. by apply default_thresholds_panic. Defined.

(** A service that does not know the number of the next transaction *)
Definition broken_service : BlockchainService :=
  mkService (Ok 5) (λ _, Ok 100) (λ _, Ok 200) (λ _, Err InvalidResponse) (λ _, Err ""%string) (Ok 105)
    (λ _ _ _, Ok []) (λ _, Err InvalidResponse).

Lemma failed_payments_are_answered_twice_witness :
  runs (scan_round 1000000 broken_service Dev 4 Payables (ByUser skeleton)) sample_accountant (λ _ _ sent, length sent = 2%nat).
Proof.
  eapply runs_mono.
  - apply (failed_payments_are_answered_twice 1000000 broken_service Dev [1] 5 100 200 InvalidResponse sample_accountant
             skeleton 0); [done|apply sample_ready|done|done|by rewrite sample_chosen|by split|done].
  - intros ended s' sent (_ & _ & _ & ->). done.
Defined.

Lemma top_debts_are_reported_witness :
  runs (payable_custom_query (TopRecords 1 ByBalance)) (conn sample_accountant)
    (λ res _ _, length (default [] res) = 1%nat).
Proof.
  eapply runs_mono.
  - apply (top_debts_are_reported (conn sample_accountant) 1 ByBalance); [done|apply creditor_ok|].
    by intros r ->%list_elem_of_singleton.
  - intros res c' sent (_ & shown & hidden & -> & _ & Hlen & _). rewrite length_fmap. exact Hlen.
Defined.
