(* ===== verification/Masquerade.v ===== *)
(** * The JSON masquerader and the discriminators of the node's ports

    Models [node/src/json_masquerader.rs] with [json_discriminator_factory.rs] and
    [tls_discriminator_factory.rs]: what goes to a neighbor is disguised as a JSON object,
    as text where the bytes are UTF-8 and in base 64 elsewhere.

    [serde_json] and [base64] are libraries: [JsonLibraries] has the functions the source
    calls, [JsonLaws] what it relies on.  A [String] is the list of its UTF-8 bytes.  The
    texts of errors are the source's; the library's own text of an error is an argument. *)

From S2P Require Import Prelude.
From S2P Require Import Bytes.
From S2P Require Import Framing.
From S2P Require Import FramingFacts.
From S2P Require Import HttpFraming.
From S2P Require Import ProtocolPacks.

(** The category of a [serde_json::Error] *)
Inductive JsonError := SyntaxError | DataError | EofError | IoError (text : string).

Record JsonMasqueraderUnmaskStructure := mkStructure {
  bodyText : option (list Z);
  bodyData : option (list Z)
}.

Class JsonLibraries := {
  json_of_text : list Z → result (list Z) JsonError;
  json_of_data : list Z → result (list Z) JsonError;
  structure_of_json : list Z → result JsonMasqueraderUnmaskStructure JsonError;
  base64_encode : list Z → list Z;
  base64_decode : list Z → option (list Z)
}.

Section JsonMasquerader.
Context `{JsonLibraries}.

Definition make_text_structure (text : list Z) : result (list Z) JsonError := json_of_text text.
Definition make_binary_structure (data : list Z) : result (list Z) JsonError := json_of_data (base64_encode data).

Definition json_mask (data : list Z) : outcome (result (list Z) MasqueradeError) :=
  match (if valid_utf8 data then make_text_structure data else make_binary_structure data) with
  | Ok json_string => mret (Ok json_string)
  | Err _ => Panic "Could not make json string"
  end.

Definition string_from_data (data : list Z) : result (list Z) MasqueradeError :=
  if valid_utf8 data then Ok data else Err (LowLevelDataError "Data is not a UTF-8 string").

Definition structure_from_string (json_string : list Z) :
    result JsonMasqueraderUnmaskStructure MasqueradeError :=
  match structure_of_json json_string with
  | Ok structure => Ok structure
  | Err e =>
      Err (MidLevelDataError
        match e with
        | SyntaxError => "Data is not JSON"
        | DataError => "JSON does not match schema"
        | EofError => "JSON was truncated"
        | IoError text => String.append "Unexpected JSON parsing error: " text
        end)
  end.

Definition data_vector_from_structure (structure : JsonMasqueraderUnmaskStructure) :
    result (list Z) MasqueradeError :=
  match bodyText structure, bodyData structure with
  | Some text, None => Ok text
  | None, Some data =>
      match base64_decode data with
      | Some vec => Ok vec
      | None =>
          Err (HighLevelDataError
            (String.append "Can't decode Base64: '" (String.append (text_of data) "'")))
      end
  | Some _, Some _ => Err (HighLevelDataError "Found both bodyText and bodyData; can't choose")
  | None, None => Err (HighLevelDataError "Found neither bodyText nor bodyData; need one")
  end.

Definition json_unmask (data : list Z) : result UnmaskedChunk MasqueradeError :=
  match string_from_data data with
  | Err e => Err e
  | Ok json_string =>
      match structure_from_string json_string with
      | Err e => Err e
      | Ok structure =>
          match data_vector_from_structure structure with
          | Err e => Err e
          | Ok data_vector => Ok (mkUnmasked data_vector true false)
          end
      end
  end.

Definition JsonMasquerader : Masquerader := mkMasquerader json_unmask json_mask.

Definition JsonDiscriminatorFactory_make : outcome (Discriminator JsonFramer) :=
  Discriminator_new JsonFramer_new [JsonMasquerader].
End JsonMasquerader.

Definition TlsDiscriminatorFactory_make : outcome (Discriminator TlsFramer) :=
  Discriminator_new TlsFramer_new [NullMasquerader].

(** ** What the libraries promise *)

Definition octet (b : Z) : Prop := 0 ≤ b < 256.

(** The text of an object with one field, which is a string: [serde_json] writes it, the
    quotes and backslashes in the string escaped, and reads it back. *)
Definition object_of (structure : JsonMasqueraderUnmaskStructure) `{JsonLibraries}
    (r : result (list Z) JsonError) : Prop :=
  match r with
  | Ok t => valid_utf8 t = true ∧ object_text t ∧ structure_of_json t = Ok structure
  | Err _ => False
  end.

Class JsonLaws `{JsonLibraries} : Prop := {
  text_is_read_back s : valid_utf8 s = true → object_of (mkStructure (Some s) None) (json_of_text s);
  data_is_read_back s : valid_utf8 s = true → object_of (mkStructure None (Some s)) (json_of_data s);
  base64_is_text d : Forall octet d → valid_utf8 (base64_encode d) = true;
  base64_is_decoded d : Forall octet d → base64_decode (base64_encode d) = Some d
}.

Section MaskLaws.
Context `{JsonLaws}.

(** What is masked is a JSON object, and the other side unmasks it. *)
Lemma mask_unmask data :
  Forall octet data →
  ∃ t, mask JsonMasquerader data = Ret (Ok t) ∧ object_text t ∧
    try_unmask JsonMasquerader t = Ok (mkUnmasked data true false).
Proof.
  intros Hd. cbn [mask try_unmask JsonMasquerader]. unfold json_mask.
  assert (Hs : ∃ s, object_of s (if valid_utf8 data then make_text_structure data else make_binary_structure data) ∧
    data_vector_from_structure s = Ok data).
  { destruct (valid_utf8 data) eqn:E.
    - eexists. split; [by apply text_is_read_back|done].
    - eexists. split; [by apply data_is_read_back, base64_is_text|].
      cbn. by rewrite base64_is_decoded. }
  destruct Hs as (s & Ho & Hv). destruct (if valid_utf8 data then _ else _) as [t|]; [|done].
  destruct Ho as (Ht & Hobj & Hr). exists t. split_and!; [done..|].
  unfold json_unmask, string_from_data, structure_from_string. by rewrite Ht, Hr, Hv.
Qed.
End MaskLaws.
