(* ===== verification/NodeStreams.v ===== *)
(** * The streams of the node: Dispatcher, StreamHandlerPool and stream readers

    Models [node/src/stream_handler_pool.rs] (the actor that keeps the streams to
    neighbors and browsers), [node/src/stream_reader.rs] (what comes in on them),
    [node/src/listener_handler.rs] (new streams from outside), [node/src/dispatcher.rs]
    (the actor between them and the Hopper, the ProxyServer and the Neighborhood) and the
    query of the Neighborhood for the address of a node; the writers are in
    [StreamWriters.v].

    An actor is a computation on its state that sends messages ([prog] of [Actor.v]).  A
    stream writer is known by the number of its channel: [QueuePacket n p] is a packet put
    in the channel to it, which works as long as the writer is there ([open_writers]).  The
    framers and masqueraders of a port are behind the trait [Framer]: [F] is its
    implementation.  An attempt to connect is the message [SpawnConnect]; [connect_future]
    is what it does when the operating system has answered.  Logging is left out. *)

From S2P Require Import Prelude.
From S2P Require Import Actor.
From S2P Require Import Bytes.
From S2P Require Import NodeAddr.
From S2P Require Import NodeRecord.
From S2P Require Import NeighborhoodDatabase.
From S2P Require Import GossipAcceptor.
From S2P Require Import Sequencing.
From S2P Require Import StreamWriters.
From S2P Require Import Framing.
From S2P Require Import HttpFraming.
From S2P Require Import ProtocolPacks.
From S2P Require Import Hopper.
From S2P Require Import ProxyServer.
From S2P Require Import ProxyClient.

(** ** Keys of streams *)
Definition is_loopback (ip : IpAddr) : bool :=
  match ip with V4 z => Z.shiftr z 24 =? 127 | V6 z => z =? 1 end.

Definition localhost : IpAddr := V4 2130706433.

Record StreamWriterKey := mkSwKey { socket_addr : SocketAddr }.

#[export] Instance StreamWriterKey_eq_dec : EqDecision StreamWriterKey.
Proof. solve_decision. Defined.
#[export] Instance StreamWriterKey_countable : Countable StreamWriterKey.
Proof.
  refine (inj_countable' (λ k, (sa_ip (socket_addr k), sa_port (socket_addr k)))
            (λ p, mkSwKey (mkSocketAddr p.1 p.2)) _).
  by intros [[]].
Defined.

(** Streams to one host outside have one key. *)
Definition StreamWriterKey_from (addr : SocketAddr) : StreamWriterKey :=
  if is_loopback (sa_ip addr) then mkSwKey addr else mkSwKey (mkSocketAddr (sa_ip addr) 0).

(** ** Messages *)
Record NodeQueryResponseMetadata := mkNqrm {
  nq_public_key : PublicKey;
  nq_node_addr_opt : option NodeAddr;
  nq_rate_pack : RatePack
}.

Record DispatcherNodeQueryResponse := mkQueryResponse {
  qr_result : option NodeQueryResponseMetadata;
  qr_context : TransmitDataMsg
}.

Inductive NodeQueryMessage := QueryIpAddress (ip : IpAddr) | QueryPublicKey (k : PublicKey).

Record RemoveStreamMsg := mkRemoveStream {
  rs_local_addr : SocketAddr;
  rs_peer_addr : SocketAddr;
  rs_stream_type : RemovedStreamType
}.

(** [ConnectionInfo]: the two halves of a connection are known by its number. *)
Record ConnectionInfo := mkConnection {
  ci_connection : nat;
  ci_local_addr : SocketAddr;
  ci_peer_addr : SocketAddr
}.

(** ** [StreamConnectorReal] *)

(** A stream of the operating system: its number, and what it says its addresses are *)
Record TcpStream := mkTcpStream {
  ts_connection : nat;
  ts_local_addr : option SocketAddr;
  ts_peer_addr : result SocketAddr ErrorKind
}.

(** What comes of an attempt to connect within the time limit *)
Inductive TcpAnswer := TcpConnected (stream : TcpStream) | TcpFailed (kind : ErrorKind) | TcpTimeout.

Definition tcp_connect (answer : TcpAnswer) : outcome (result ConnectionInfo ErrorKind) :=
  match answer with
  | TcpConnected stream =>
      local_addr ← expect (ts_local_addr stream) "Newly-connected stream has no local_addr";
      mret (match ts_peer_addr stream with
            | Ok addr => Ok (mkConnection (ts_connection stream) local_addr addr)
            | Err e => Err e
            end)
  | TcpFailed e => mret (Err e)
  | TcpTimeout => mret (Err TimedOut)
  end.

Definition split_stream (stream : TcpStream) : outcome (option ConnectionInfo) :=
  local_addr ← expect (ts_local_addr stream) "Stream has no local_addr before splitting";
  mret (match ts_peer_addr stream with
        | Ok addr => Some (mkConnection (ts_connection stream) local_addr addr)
        | Err _ => None
        end).

Section Streams.
Context {F : Type} `{Framer F} `{WebText}.

(** A factory is known by the discriminator it makes. *)
Record PortConfiguration := mkPortConfiguration {
  discriminator_factories : list (outcome (Discriminator F));
  pc_is_clandestine : bool
}.

Record AddStreamMsg := mkAddStream {
  connection_info : ConnectionInfo;
  origin_port : option Z;
  port_configuration : PortConfiguration
}.

(** ** [StreamReaderReal] *)

(** [nr_reads] is the environment: what [poll_read] gives, one item per call; when it has
    run out, the stream is not ready. *)
Record StreamReaderReal := mkNodeReader {
  nr_local_addr : SocketAddr;
  nr_peer_addr : SocketAddr;
  nr_reception_port : option Z;
  nr_discriminators : list (Discriminator F);
  nr_is_clandestine : bool;
  nr_sequencer : Sequencer;
  nr_reads : list (result (Async (list Z)) ErrorKind)
}.

Inductive NodeReaderMessage :=
| ReadClientData (m : InboundClientData)
| RemoveStream (m : RemoveStreamMsg).

Abbreviation reader_prog A := (prog StreamReaderReal NodeReaderMessage A).

Definition StreamReaderReal_new (reads : list (result (Async (list Z)) ErrorKind)) (reception_port : option Z)
    (factories : list (outcome (Discriminator F))) (is_clandestine : bool) (peer_addr local_addr : SocketAddr) :
    outcome StreamReaderReal :=
  match factories with
  | [] => Panic "Internal error: no Discriminator factories!"
  | _ =>
      discriminators ← map_outcome id factories;
      mret (mkNodeReader local_addr peer_addr reception_port discriminators is_clandestine Sequencer_new reads)
  end.

Definition set_discriminators (ds : list (Discriminator F)) (r : StreamReaderReal) : StreamReaderReal :=
  mkNodeReader (nr_local_addr r) (nr_peer_addr r) (nr_reception_port r) ds (nr_is_clandestine r)
    (nr_sequencer r) (nr_reads r).
Definition set_sequencer (s : Sequencer) (r : StreamReaderReal) : StreamReaderReal :=
  mkNodeReader (nr_local_addr r) (nr_peer_addr r) (nr_reception_port r) (nr_discriminators r)
    (nr_is_clandestine r) s (nr_reads r).
Definition set_reads (reads : list (result (Async (list Z)) ErrorKind)) (r : StreamReaderReal) : StreamReaderReal :=
  mkNodeReader (nr_local_addr r) (nr_peer_addr r) (nr_reception_port r) (nr_discriminators r)
    (nr_is_clandestine r) (nr_sequencer r) reads.

Definition stream_next_sequence_number : reader_prog Z :=
  n ← gets (λ r, next_sequence_number (nr_sequencer r));
  _ ← modify (set_sequencer n.2);
  mret n.1.

(** One chunk: its number, and the message to the Dispatcher.  The time of the clock is
    [now]. *)
Definition send_chunk (now : Z) (is_connect : bool) (unmasked : UnmaskedChunk) : reader_prog unit :=
  sequence_number ←
    (if sequenced unmasked && negb is_connect then n ← stream_next_sequence_number; mret (Some n)
     else if is_connect then mret (Some 0) else mret None);
  r ← gets id;
  send (ReadClientData
    (mkIbcd now (nr_peer_addr r) (nr_reception_port r) false (nr_is_clandestine r) sequence_number (u_chunk unmasked))).

(** The loop that takes chunks from the discriminator with index [i] *)
Fixpoint chunk_loop (fuel : nat) (now : Z) (i : nat) (is_connect : bool) : reader_prog unit :=
  match fuel with
  | O => act_panic "out of fuel"
  | S fuel =>
      ds ← gets nr_discriminators;
      d ← lift (expect (ds !! i) "index out of bounds");
      p ← lift (take_chunk d);
      _ ← modify (set_discriminators (<[i := p.2]> ds));
      match p.1 with
      | Some unmasked_chunk => _ ← send_chunk now is_connect unmasked_chunk; chunk_loop fuel now i is_connect
      | None => mret tt
      end
  end.

Definition wrangle_discriminators (fuel : nat) (now : Z) (buf : list Z) (length : nat) : reader_prog unit :=
  let is_connect := is_connect buf in
  ds ← gets nr_discriminators;
  let i := if (1 <? List.length ds)%nat && is_connect then 1%nat else 0%nat in
  d ← lift (expect (ds !! i) "index out of bounds");
  _ ← modify (set_discriminators (<[i := disc_add_data d (take length buf)]> ds));
  chunk_loop fuel now i is_connect.

Definition stream_reader_shutdown : reader_prog unit :=
  r ← gets id;
  stream_type ←
    (if nr_is_clandestine r then mret Clandestine
     else
       port ← lift (expect (nr_reception_port r) "Non-clandestine StreamReader should always have a reception_port");
       n ← stream_next_sequence_number;
       mret (NonClandestine (mkNca port n)));
  send (RemoveStream (mkRemoveStream (nr_local_addr r) (nr_peer_addr r) stream_type)).

Definition BUFFER_LEN : nat := Z.to_nat 65536.

(** The buffer is as long as one call of [poll] lasts: what a read does not overwrite is
    what an earlier read has left there. *)
Fixpoint stream_reader_loop (fuel : nat) (now : Z) (buf : list Z) (reads : list (result (Async (list Z)) ErrorKind)) :
    reader_prog (result (Async unit) unit) :=
  match reads with
  | [] => mret (Ok NotReady)
  | answer :: reads =>
      _ ← modify (set_reads reads);
      match answer with
      | Ok NotReady => mret (Ok NotReady)
      | Ok (Ready []) => _ ← stream_reader_shutdown; mret (Ok (Ready tt))
      | Ok (Ready chunk) =>
          buf ← lift (put buf 0 chunk);
          _ ← wrangle_discriminators fuel now buf (length chunk);
          stream_reader_loop fuel now buf reads
      | Err kind =>
          if indicates_dead_stream kind then _ ← stream_reader_shutdown; mret (Err tt)
          else stream_reader_loop fuel now buf reads
      end
  end.

Definition stream_reader_poll (fuel : nat) (now : Z) : reader_prog (result (Async unit) unit) :=
  reads ← gets nr_reads; stream_reader_loop fuel now (replicate BUFFER_LEN 0) reads.

(** ** [StreamHandlerPool] *)

(** [np_bound]: whether the pool has got its [PoolBindMessage], which sets all its
    recipients. *)
Record NodeStreamPool := mkNodePool {
  stream_writers : gmap StreamWriterKey (option SenderWrapper);
  np_bound : bool;
  clandestine_discriminator_factories : list (outcome (Discriminator F));
  traffic_analyzer : Masquerader;
  open_writers : gset nat;
  next_writer : nat
}.

Definition set_writers (m : gmap StreamWriterKey (option SenderWrapper)) (p : NodeStreamPool) : NodeStreamPool :=
  mkNodePool m (np_bound p) (clandestine_discriminator_factories p) (traffic_analyzer p) (open_writers p) (next_writer p).
Definition open_writer (p : NodeStreamPool) : NodeStreamPool :=
  mkNodePool (stream_writers p) (np_bound p) (clandestine_discriminator_factories p) (traffic_analyzer p)
    ({[next_writer p]} ∪ open_writers p) (S (next_writer p)).

(** The fields of the two handlers that do not lead to the pool itself *)
Record StreamStart := mkStreamStart {
  start_peer_addr : SocketAddr;
  start_key : PublicKey;
  start_msg : DispatcherNodeQueryResponse
}.

Inductive NodePoolMessage :=
| AskNeighborhood (query : NodeQueryMessage) (context : TransmitDataMsg)
| ToSelfResponse (m : DispatcherNodeQueryResponse)
| ScheduleResponse (m : DispatcherNodeQueryResponse) (delay : Z)
| ToSelfAdd (m : AddStreamMsg)
| ToSelfRemove (m : RemoveStreamMsg)
| SpawnConnect (start : StreamStart)
| SpawnStreamReader (connection : nat) (r : StreamReaderReal)
| SpawnStreamWriter (connection : nat) (channel : nat) (peer_addr : SocketAddr) (is_clandestine : bool)
| QueuePacket (channel : nat) (packet : SequencedPacket)
| ShutdownToDispatcher (m : StreamShutdownMsg)
| RemoveNeighbor (public_key : PublicKey)
| TellProgress (m : ConnectionProgressMessage).

Abbreviation node_pool A := (prog NodeStreamPool NodePoolMessage A).

Definition NodeStreamPool_new (factories : list (outcome (Discriminator F))) (masquerader : Masquerader) :
    NodeStreamPool :=
  mkNodePool ∅ false factories masquerader ∅ 0.

Definition expect_bound (why : string) : node_pool unit :=
  bound ← gets np_bound; if (bound : bool) then mret tt else act_panic why.

Definition handle_pool_bind : node_pool unit :=
  modify (λ p, mkNodePool (stream_writers p) true (clandestine_discriminator_factories p) (traffic_analyzer p)
                 (open_writers p) (next_writer p)).

Definition set_up_stream_reader (connection : nat) (origin_port : option Z) (config : PortConfiguration)
    (peer_addr local_addr : SocketAddr) : node_pool unit :=
  _ ← expect_bound "Dispatcher is unbound";
  r ← lift (StreamReaderReal_new [] origin_port (discriminator_factories config) (pc_is_clandestine config)
              peer_addr local_addr);
  send (SpawnStreamReader connection r).

Definition set_up_stream_writer (connection : nat) (peer_addr : SocketAddr) (is_clandestine : bool) : node_pool unit :=
  channel ← gets next_writer;
  _ ← modify open_writer;
  _ ← modify (λ p, set_writers
        (<[StreamWriterKey_from peer_addr := Some (mkSender channel peer_addr)]> (stream_writers p)) p);
  send (SpawnStreamWriter connection channel peer_addr is_clandestine).

Definition handle_add_stream_msg (msg : AddStreamMsg) : node_pool unit :=
  let info := connection_info msg in
  _ ← set_up_stream_writer (ci_connection info) (ci_peer_addr info) (pc_is_clandestine (port_configuration msg));
  set_up_stream_reader (ci_connection info) (origin_port msg) (port_configuration msg) (ci_peer_addr info)
    (ci_local_addr info).

Definition handle_remove_stream_msg (msg : RemoveStreamMsg) : node_pool unit :=
  let stream_writer_key := StreamWriterKey_from (rs_peer_addr msg) in
  removed ← gets (λ p, stream_writers p !! stream_writer_key);
  _ ← modify (λ p, set_writers (delete stream_writer_key (stream_writers p)) p);
  let report_to_counterpart :=
    match removed with
    | None => false
    | Some None => false
    | Some (Some _) => true
    end in
  send (ShutdownToDispatcher (mkShutdown (rs_peer_addr msg) (rs_stream_type msg) report_to_counterpart)).

Definition handle_transmit_data_msg (msg : TransmitDataMsg) : node_pool unit :=
  _ ← expect_bound "StreamHandlerPool is unbound.";
  match endpoint msg with
  | Key key => send (AskNeighborhood (QueryPublicKey key) msg)
  | Socket addr =>
      send (ToSelfResponse
        (mkQueryResponse (Some (mkNqrm (mkPublicKey []) (Some (NodeAddr_from_socket addr)) ZERO_RATE_PACK)) msg))
  end.

Inductive PoolError :=
| NoKnownIp (key : PublicKey)
| NoNodeFound (endpoint : Endpoint)
| LocalNotFound (peer_addr : SocketAddr) (len : nat)
| MaskingFailed (peer_addr : SocketAddr) (e : MasqueradeError) (len : nat).

Definition extract_node_addr (msg : DispatcherNodeQueryResponse) : result NodeAddr PoolError :=
  match qr_result msg with
  | Some metadata =>
      match nq_node_addr_opt metadata with
      | Some node_addr => Ok (NodeAddr_clone node_addr)
      | None => Err (NoKnownIp (nq_public_key metadata))
      end
  | None => Err (NoNodeFound (endpoint (qr_context msg)))
  end.

(** Whether the writer is to be removed *)
Definition send_packet_on_open_stream (msg : DispatcherNodeQueryResponse) (peer_addr : SocketAddr)
    (tx_box : SenderWrapper) : node_pool (result bool PoolError) :=
  let context := qr_context msg in
  packet ←
    (match tx_sequence_number context with
     | None =>
         masquerader ← gets traffic_analyzer;
         masked ← lift (mask masquerader (tx_data context));
         mret (match masked with
               | Ok masked_data => Ok (mkPacket masked_data 0 false)
               | Err e => Err (MaskingFailed peer_addr e (length (tx_data context)))
               end)
     | Some _ => mret (Ok (packet_of_transmit context))
     end);
  match packet with
  | Err e => mret (Err e)
  | Ok packet =>
      opened ← gets open_writers;
      if bool_decide (sender_channel tx_box ∈ opened) then
        _ ← send (QueuePacket (sender_channel tx_box) packet);
        mret (Ok (tx_last_data context))
      else mret (Ok true)
  end.

Definition delay_packet_for_opening_stream (msg : DispatcherNodeQueryResponse) : node_pool unit :=
  _ ← expect_bound "StreamHandlerPool is unbound"; send (ScheduleResponse msg 100).

Definition open_new_stream_and_recycle_message (msg : DispatcherNodeQueryResponse) (peer_addr : SocketAddr) :
    node_pool unit :=
  _ ← expect_bound "StreamHandlerPool Unbound";
  key ← lift (expect (nq_public_key <$> qr_result msg) "Key magically disappeared");
  send (SpawnConnect (mkStreamStart peer_addr key msg)).

Definition send_or_queue_packet (msg : DispatcherNodeQueryResponse) (peer_addr : SocketAddr)
    (sw_key : StreamWriterKey) : node_pool (result unit PoolError) :=
  writer ← gets (λ p, stream_writers p !! sw_key);
  match writer with
  | Some (Some tx_box) =>
      r ← send_packet_on_open_stream msg peer_addr tx_box;
      match r with
      | Err e => mret (Err e)
      | Ok remove_stream_writer =>
          _ ← (if (remove_stream_writer : bool)
               then modify (λ p, set_writers (delete (StreamWriterKey_from peer_addr) (stream_writers p)) p)
               else mret tt);
          mret (Ok tt)
      end
  | Some None => _ ← delay_packet_for_opening_stream msg; mret (Ok tt)
  | None =>
      if bool_decide (sa_ip peer_addr = localhost)
      then mret (Err (LocalNotFound peer_addr (length (tx_data (qr_context msg)))))
      else
        _ ← modify (λ p, set_writers (<[StreamWriterKey_from peer_addr := None]> (stream_writers p)) p);
        _ ← open_new_stream_and_recycle_message msg peer_addr;
        mret (Ok tt)
  end.

(** The error is logged; the model returns it. *)
Definition handle_dispatcher_node_query_response (msg : DispatcherNodeQueryResponse) :
    node_pool (result unit PoolError) :=
  match extract_node_addr msg with
  | Err e => mret (Err e)
  | Ok node_addr =>
      match na_ports node_addr with
      | [] => act_panic "Neighborhood has returned a NodeDescriptor with no ports. This indicates an unrecoverable error."
      | port :: _ =>
          let peer_addr := mkSocketAddr (na_ip_addr node_addr) port in
          send_or_queue_packet msg peer_addr (StreamWriterKey_from peer_addr)
      end
  end.

(** *** The futures of [open_new_stream_and_recycle_message] *)
Definition failure_handle (start : StreamStart) : list NodePoolMessage :=
  [ToSelfRemove (mkRemoveStream (mkSocketAddr localhost 0) (start_peer_addr start) Clandestine);
   RemoveNeighbor (start_key start);
   TellProgress (mkCpm (sa_ip (start_peer_addr start)) TcpConnectionFailed)].

Definition success_handle (factories : list (outcome (Discriminator F))) (start : StreamStart)
    (info : ConnectionInfo) : list NodePoolMessage :=
  [ToSelfAdd (mkAddStream info (Some (sa_port (ci_local_addr info))) (mkPortConfiguration factories true));
   ToSelfResponse (start_msg start);
   TellProgress (mkCpm (sa_ip (start_peer_addr start)) TcpConnectionSuccessful)].

Definition connect_future (factories : list (outcome (Discriminator F))) (start : StreamStart)
    (answer : result ConnectionInfo ErrorKind) : list NodePoolMessage :=
  match answer with
  | Ok info => success_handle factories start info
  | Err _ => failure_handle start
  end.

(** ** [ListenerHandlerReal] *)

(** What [poll_accept] gives: a stream, an error, or that there is none *)
Inductive AcceptAnswer :=
| Accepted (stream : TcpStream)
| AcceptError
| AcceptNotReady.

Record ListenerHandler := mkListener {
  listener_port : option Z;
  listener_port_configuration : option PortConfiguration;
  listener_bound : bool;
  listener_addr : option SocketAddr;
  accepts : list AcceptAnswer
}.

Definition ListenerHandler_new (accepts : list AcceptAnswer) : ListenerHandler :=
  mkListener None None false None accepts.

Definition bind_port_and_configuration (port : Z) (config : PortConfiguration) (l : ListenerHandler) :
    ListenerHandler :=
  mkListener (Some port) (Some config) (listener_bound l)
    (Some (mkSocketAddr (if pc_is_clandestine config then V4 0 else localhost) port)) (accepts l).

Definition bind_subs (l : ListenerHandler) : ListenerHandler :=
  mkListener (listener_port l) (listener_port_configuration l) true (listener_addr l) (accepts l).

Fixpoint listener_loop (answers : list AcceptAnswer) : prog ListenerHandler AddStreamMsg unit :=
  match answers with
  | [] => mret tt
  | answer :: answers =>
      _ ← modify (λ l, mkListener (listener_port l) (listener_port_configuration l) (listener_bound l)
                         (listener_addr l) answers);
      match answer with
      | Accepted stream =>
          connection ← lift (split_stream stream);
          match connection with
          | Some info =>
              l ← gets id;
              if negb (listener_bound l) then act_panic "Internal error: StreamHandlerPool unbound"
              else
                config ← lift (expect (listener_port_configuration l) "Internal error: port_configuration is None");
                _ ← send (mkAddStream info (listener_port l) config);
                listener_loop answers
          | None => mret tt
          end
      | AcceptError => listener_loop answers
      | AcceptNotReady => mret tt
      end
  end.

Definition listener_poll : prog ListenerHandler AddStreamMsg unit :=
  answers ← gets accepts; listener_loop answers.
End Streams.
Arguments PortConfiguration : clear implicits.
Arguments AddStreamMsg : clear implicits.
Arguments StreamReaderReal : clear implicits.
Arguments NodeStreamPool : clear implicits.
Arguments NodePoolMessage : clear implicits.
Arguments ListenerHandler : clear implicits.

(** ** The Neighborhood's answer *)
Definition handle_dispatcher_node_query (db : NeighborhoodDatabase) (query : NodeQueryMessage)
    (context : TransmitDataMsg) : DispatcherNodeQueryResponse :=
  let node_record := match query with
    | QueryIpAddress ip => node_by_ip db ip
    | QueryPublicKey key => node_by_key db key
    end in
  mkQueryResponse
    ((λ r, mkNqrm (public_key r) (node_addr_opt r) (inner_rate_pack (inner r))) <$> node_record) context.

(** ** [Dispatcher] *)

(** [dp_subs]: whether the [BindMessage] has come, [to_stream] whether the
    [PoolBindMessage] has. *)
Record Dispatcher := mkDispatcher {
  dp_subs : bool;
  dp_node_descriptor : NodeDescriptor;
  to_stream : bool
}.

(** [ReportDescriptor]: the descriptor that is printed and logged; [UiDescriptor]: the
    answer to the UI, with the descriptor and not its text. *)
Inductive DispatcherMessage :=
| InboundToHopper (m : InboundClientData)
| InboundToProxyServer (m : InboundClientData)
| TransmitToPool (m : TransmitDataMsg)
| ShutdownToNeighborhood (m : StreamShutdownMsg)
| ShutdownToProxyServer (m : StreamShutdownMsg)
| ReportDescriptor (d : NodeDescriptor)
| UiDescriptor (client_id context_id : Z) (d : option NodeDescriptor).

Abbreviation dispatch A := (prog Dispatcher DispatcherMessage A).

Definition Dispatcher_new (node_descriptor : NodeDescriptor) : Dispatcher := mkDispatcher false node_descriptor false.

Definition dp_handle_bind : dispatch unit := modify (λ d, mkDispatcher true (dp_node_descriptor d) (to_stream d)).
Definition dp_handle_pool_bind : dispatch unit := modify (λ d, mkDispatcher (dp_subs d) (dp_node_descriptor d) true).

Definition expect_subs (why : string) : dispatch unit :=
  bound ← gets dp_subs; if (bound : bool) then mret tt else act_panic why.

Definition dp_handle_inbound_client_data (msg : InboundClientData) : dispatch unit :=
  if is_clandestine msg
  then _ ← expect_subs "Hopper unbound in Dispatcher"; send (InboundToHopper msg)
  else _ ← expect_subs "ProxyServer unbound in Dispatcher"; send (InboundToProxyServer msg).

Definition dp_handle_transmit_data_msg (msg : TransmitDataMsg) : dispatch unit :=
  bound ← gets to_stream;
  if (bound : bool) then send (TransmitToPool msg) else act_panic "StreamHandlerPool unbound in Dispatcher".

Definition dp_handle_stream_shutdown_msg (msg : StreamShutdownMsg) : dispatch unit :=
  _ ← expect_subs "Dispatcher is unbound";
  match ss_stream_type msg with
  | Clandestine => send (ShutdownToNeighborhood msg)
  | NonClandestine _ => send (ShutdownToProxyServer msg)
  end.

Definition dp_handle_new_public_ip (new_ip : IpAddr) : dispatch unit :=
  d ← gets dp_node_descriptor;
  match nd_node_addr_opt d with
  | None => mret tt
  | Some node_addr =>
      let d := mkNodeDescriptor (blockchain d) (encryption_public_key d)
                 (Some (NodeAddr_new new_ip (na_ports node_addr))) in
      _ ← modify (λ s, mkDispatcher (dp_subs s) d (to_stream s));
      send (ReportDescriptor d)
  end.

Definition handle_descriptor_request (client_id context_id : Z) : dispatch unit :=
  d ← gets dp_node_descriptor;
  let node_desc_opt := match nd_node_addr_opt d with
    | Some node_addr => if bool_decide (na_ip_addr node_addr = V4 0) then None else Some d
    | None => None
    end in
  _ ← expect_subs "Dispatcher is unbound";
  send (UiDescriptor client_id context_id node_desc_opt).
