(* ===== verification/NodeStreamsFacts.v ===== *)
(** * What comes in on a stream, and what goes out

    The reader of a stream delivers the messages that are on it, in order and numbered;
    the pool opens streams on demand and forgets those it cannot open; a neighbor reads
    what the pool sends to it. *)

From S2P Require Import Prelude.
From S2P Require Import Actor.
From S2P Require Import Bytes.
From S2P Require Import NodeAddr.
From S2P Require Import GossipAcceptor.
From S2P Require Import Sequencing.
From S2P Require Import StreamWriters.
From S2P Require Import StreamWritersFacts.
From S2P Require Import Framing.
From S2P Require Import FramingFacts.
From S2P Require Import HttpFraming.
From S2P Require Import ProtocolPacks.
From S2P Require Import Hopper.
From S2P Require Import ProxyServer.
From S2P Require Import ProxyClient.
From S2P Require Import Masquerade.
From S2P Require Import NodeStreams.

(** ** The reader *)
Section Reader.
Context {F : Type} `{Framer F} `{WebText}.
Implicit Types (r : StreamReaderReal F) (d : Discriminator F).

(** What is sent for chunks, where [true] stands at those that were read while the buffer
    began with a CONNECT: the numbers, the messages and the sequencer. *)
Definition chunk_number (s : Sequencer) (connect : bool) (u : UnmaskedChunk) : option Z * Sequencer :=
  if sequenced u && negb connect
  then (Some (current_sequence_number s), mkSequencer (u64 (current_sequence_number s + 1)))
  else (if connect then Some 0 else None, s).

Definition inbound_chunk (now : Z) r (n : option Z) (u : UnmaskedChunk) : InboundClientData :=
  mkIbcd now (nr_peer_addr r) (nr_reception_port r) false (nr_is_clandestine r) n (u_chunk u).

Fixpoint delivered (now : Z) r (s : Sequencer) (us : list (bool * UnmaskedChunk)) :
    list InboundClientData * Sequencer :=
  match us with
  | [] => ([], s)
  | (connect, u) :: us =>
      let '(n, s) := chunk_number s connect u in
      let '(l, s) := delivered now r s us in
      (inbound_chunk now r n u :: l, s)
  end.

Lemma delivered_app now r s us vs :
  delivered now r s (us ++ vs) =
    ((delivered now r s us).1 ++ (delivered now r (delivered now r s us).2 vs).1,
     (delivered now r (delivered now r s us).2 vs).2).
Proof.
  revert s. induction us as [|[c u] us IH]; intros s; cbn [app delivered].
  { apply surjective_pairing. }
  destruct (chunk_number s c u) as [n s']. rewrite IH. by destruct (delivered now r s' us).
Qed.

Lemma delivered_same now r r' s us :
  (∀ n u, inbound_chunk now r n u = inbound_chunk now r' n u) → delivered now r s us = delivered now r' s us.
Proof.
  intros E. revert s. induction us as [|[c u] us IH]; intros s; cbn [delivered]; [done|].
  destruct (chunk_number s c u) as [n s']. by rewrite IH, E.
Qed.

(** The reader after it has delivered chunks *)
Definition reader_with r d (s : Sequencer) : StreamReaderReal F :=
  set_sequencer s (set_discriminators (d :: tail (nr_discriminators r)) r).

Definition unmasks d (fs : list (list Z)) (us : list UnmaskedChunk) : Prop :=
  Forall2 (λ f u, first_unmask (masqueraders d) f = Some u) fs us.

Lemma reader_with_same r d ds : nr_discriminators r = d :: ds → reader_with r d (nr_sequencer r) = r.
Proof. destruct r. cbn. by intros ->. Qed.

Lemma send_chunk_eq now connect u r :
  send_chunk now connect u r =
    Ret (tt, set_sequencer (chunk_number (nr_sequencer r) connect u).2 r,
      [ReadClientData (inbound_chunk now r (chunk_number (nr_sequencer r) connect u).1 u)]).
Proof.
  unfold send_chunk, chunk_number. destruct r, (sequenced u), connect; done.
Qed.

Definition disc_with d (f : F) : Discriminator F := mkDiscriminator f (masqueraders d).

Lemma chunk_loop_spec now connect fuel d fs f us r :
  head (nr_discriminators r) = Some d → take_frames fuel (framer d) = Ret (fs, f) → unmasks d fs us →
  let out := delivered now r (nr_sequencer r) ((connect,.) <$> us) in
  chunk_loop fuel now 0 connect r = Ret (tt, reader_with r (disc_with d f) out.2, ReadClientData <$> out.1).
Proof.
  revert d fs us r. induction fuel as [|fuel IH]; intros d fs us r Hd Hf Hus; [done|].
  cbn [chunk_loop]. destruct (nr_discriminators r) as [|d0 ds] eqn:Eds; [done|]. injection Hd as ->.
  unfold mbind at 1, prog_bind at 1, gets. rewrite Eds. cbn [lookup list_lookup expect].
  unfold lift, mbind, prog_bind, take_chunk.
  cbn [take_frames] in Hf. destruct (take_frame (framer d)) as [[[[frame b]|] f1]|]; [| |done]; cbn in Hf.
  - destruct (take_frames fuel f1) as [[fs' f2]|] eqn:Ef; [|done]. injection Hf as <- ->.
    apply Forall2_cons_inv_l in Hus as (u & us' & Hu & Hus & ->).
    cbn -[delivered chunk_loop send_chunk]. rewrite Hu, send_chunk_eq.
    set (r1 := set_sequencer _ _).
    rewrite (IH (disc_with d f1) fs' us' r1) by done.
    change ((connect,.) <$> u :: us') with ((connect, u) :: ((connect,.) <$> us')).
    cbn [delivered]. rewrite (delivered_same now r1 r) by (by destruct r).
    assert (Es : nr_sequencer r1 = (chunk_number (nr_sequencer r) connect u).2) by (by destruct r). rewrite Es.
    destruct (chunk_number (nr_sequencer r) connect u) as [n s'] eqn:En. cbn [snd].
    destruct (delivered now r s' ((connect,.) <$> us')) as [l s'']. cbn [fst snd].
    subst r1. unfold reader_with. destruct r. cbn in *. subst. cbn. by rewrite En.
  - injection Hf as <- ->. apply Forall2_nil_inv_l in Hus as ->.
    unfold reader_with, disc_with. rewrite Eds. by destruct r.
Qed.

(** What the buffer holds after a read, and whether it begins with a CONNECT then *)
Definition overlay (buf piece : list Z) : list Z := piece ++ drop (length piece) buf.

Fixpoint looks (buf : list Z) (pieces : list (list Z)) : list bool :=
  match pieces with
  | [] => []
  | p :: pieces => is_connect (overlay buf p) :: looks (overlay buf p) pieces
  end.

Definition piece_ok (p : list Z) : Prop := p ≠ [] ∧ (length p ≤ BUFFER_LEN)%nat.

(** A computation that sends [l] and goes on as [o] *)
Definition after {A S M} (l : list M) (o : outcome (A * S * list M)) : outcome (A * S * list M) :=
  match o with Ret (a, s, sent) => Ret (a, s, l ++ sent) | Panic why => Panic why end.

Lemma after_after {A S M} (l k : list M) (o : outcome (A * S * list M)) : after l (after k o) = after (l ++ k) o.
Proof. destruct o as [[[a s] sent]|]; [|done]. cbn. by rewrite app_assoc. Qed.

Lemma overlay_length buf p :
  length buf = BUFFER_LEN → piece_ok p → length (overlay buf p) = BUFFER_LEN.
Proof. intros Hb [_ Hp]. unfold overlay. rewrite length_app, length_drop. lia. Qed.

Lemma wrangle_spec now fuel buf p d fs f us r :
  head (nr_discriminators r) = Some d → take_frames fuel (add_data (framer d) p) = Ret (fs, f) → unmasks d fs us →
  tail (nr_discriminators r) = [] ∨ is_connect (overlay buf p) = false →
  let connect := is_connect (overlay buf p) in
  let out := delivered now r (nr_sequencer r) ((connect,.) <$> us) in
  wrangle_discriminators fuel now (overlay buf p) (length p) r =
    Ret (tt, reader_with r (disc_with d f) out.2, ReadClientData <$> out.1).
Proof.
  intros Hd Hf Hus Hone connect out.
  destruct (nr_discriminators r) as [|d0 ds] eqn:Eds; [done|]. injection Hd as ->. cbn [tail] in Hone.
  unfold wrangle_discriminators. fold connect. unfold mbind at 1, prog_bind at 1, gets. rewrite Eds.
  assert (Hi : (1 <? length (d :: ds))%nat && connect = false).
  { destruct Hone as [-> | Hn]; [done|unfold connect; rewrite Hn; apply andb_false_r]. }
  rewrite Hi. unfold lift, mbind, prog_bind, modify. cbn [lookup list_lookup expect insert list_insert app fst].
  unfold overlay at 1. rewrite take_app_length.
  set (r1 := set_discriminators _ r).
  rewrite (chunk_loop_spec now connect fuel (disc_add_data d p) fs f us r1) by done.
  unfold out. rewrite (delivered_same now r1 r) by (by destruct r).
  destruct r. cbn in *. subst. by destruct (delivered _ _ _ _).
Qed.

(** One read *)
Lemma read_piece fuel now buf p reads r :
  length buf = BUFFER_LEN → piece_ok p →
  stream_reader_loop fuel now buf (Ok (Ready p) :: reads) r =
    match wrangle_discriminators fuel now (overlay buf p) (length p) (set_reads reads r) with
    | Ret (_, r', l) => after l (stream_reader_loop fuel now (overlay buf p) reads r')
    | Panic why => Panic why
    end.
Proof.
  intros Hb [Hne Hlen]. destruct p as [|z p]; [done|]. cbn [stream_reader_loop].
  unfold mbind at 1, prog_bind at 1, modify.
  unfold mbind at 1, prog_bind at 1, lift, put. rewrite decide_True by (cbn [length] in *; lia).
  cbn [mret outcome_ret]. change (take 0 buf ++ (z :: p) ++ drop (0 + length (z :: p)) buf) with (overlay buf (z :: p)).
  unfold mbind, prog_bind.
  destruct (wrangle_discriminators _ _ _ _ _) as [[[[] r'] l]|]; [|done].
  by destruct (stream_reader_loop _ _ _ _ r') as [[[]]|].
Qed.

(** The pieces of a stream, whatever is read after them: the reader sends what its framer
    finds in them. *)
Lemma stream_reader_loop_spec fuel now buf pieces rest d fs f us r :
  length buf = BUFFER_LEN → Forall piece_ok pieces → head (nr_discriminators r) = Some d →
  read_pieces fuel (framer d) pieces = Ret (fs, f) → unmasks d fs us →
  tail (nr_discriminators r) = [] ∨ true ∉ looks buf pieces →
  nr_reads r = ((λ p, Ok (Ready p)) <$> pieces) ++ rest →
  ∃ connects buf', length connects = length us ∧ Forall (λ c, c ∈ looks buf pieces) connects ∧
    let out := delivered now r (nr_sequencer r) (zip connects us) in
    stream_reader_loop fuel now buf (nr_reads r) r =
      after (ReadClientData <$> out.1)
        (stream_reader_loop fuel now buf' rest (set_reads rest (reader_with r (disc_with d f) out.2))).
Proof.
  revert buf d fs us r. induction pieces as [|p pieces IH]; intros buf d fs us r Hb Hp Hd Hf Hus Hone Hr.
  - injection Hf as <- <-. apply Forall2_nil_inv_l in Hus as ->. exists [], buf. split_and!; [done|constructor|].
    cbn [fmap list_fmap app] in Hr. rewrite Hr. cbn [zip_with delivered fst snd fmap list_fmap].
    destruct (nr_discriminators r) as [|d0 ds] eqn:Eds; [done|]. injection Hd as ->.
    replace (disc_with d (framer d)) with d by (by destruct d). rewrite (reader_with_same r d ds Eds).
    replace (set_reads rest r) with r by (destruct r; cbn in *; by subst).
    destruct (stream_reader_loop fuel now buf rest r) as [[[]]|]; done.
  - apply Forall_cons_1 in Hp as [Hp1 Hp]. cbn [read_pieces] in Hf.
    destruct (take_frames fuel (add_data (framer d) p)) as [[fs1 f1]|] eqn:E1; [|done]. cbn in Hf.
    destruct (read_pieces fuel f1 pieces) as [[fs2 f2]|] eqn:E2; [|done]. injection Hf as <- ->.
    apply Forall2_app_inv_l in Hus as (us1 & us2 & Hus1 & Hus2 & ->).
    rewrite Hr, fmap_cons, <-app_comm_cons, read_piece by done.
    set (r1 := set_reads (((λ p, Ok (Ready p)) <$> pieces) ++ rest) r).
    pose proof (wrangle_spec now fuel buf p d fs1 f1 us1 r1) as Ew.
    set (connect := is_connect (overlay buf p)) in *. cbv zeta in Ew.
    specialize (Ew Hd E1 Hus1).
    assert (Hone1 : tail (nr_discriminators r1) = [] ∨ connect = false).
    { destruct Hone as [Ho|Ho]; [by left|right]. apply not_true_is_false. set_solver. }
    specialize (Ew Hone1).
    set (out1 := delivered now r1 (nr_sequencer r1) ((connect,.) <$> us1)) in *.
    destruct (IH (overlay buf p) (disc_with d f1) fs2 us2 (reader_with r1 (disc_with d f1) out1.2))
      as (connects & buf' & Hc & Hin & Eloop); try done.
    { by apply overlay_length. }
    { destruct Hone as [Ho|Ho]; [by left|right]. set_solver. }
    exists (replicate (length us1) connect ++ connects), buf'. split_and!.
    { by rewrite !length_app, length_replicate, Hc. }
    { apply Forall_app. split; [apply Forall_replicate; set_solver|].
      eapply Forall_impl; [exact Hin|]. set_solver. }
    assert (Ez : zip (replicate (length us1) connect ++ connects) (us1 ++ us2) = ((connect,.) <$> us1) ++ zip connects us2).
    { rewrite zip_with_app by (by rewrite length_replicate). f_equal.
      clear. induction us1 as [|u us1 IH]; cbn; [done|]. by f_equal. }
    cbv zeta. rewrite Ez, delivered_app.
    unfold out1 in *. rewrite (delivered_same now r1 r) in * by (by destruct r).
    rewrite (delivered_same now (reader_with r1 (disc_with d f1) _) r) in Eloop by (by destruct r).
    replace (nr_sequencer r1) with (nr_sequencer r) in * by (by destruct r).
    destruct (delivered now r (nr_sequencer r) ((connect,.) <$> us1)) as [l1 s1]. cbn [fst snd] in *.
    replace (nr_reads (reader_with r1 (disc_with d f1) s1)) with (((λ p, Ok (Ready p)) <$> pieces) ++ rest)
      in Eloop by (by destruct r).
    replace (nr_sequencer (reader_with r1 (disc_with d f1) s1)) with s1 in Eloop by (by destruct r).
    rewrite Ew, Eloop.
    rewrite fmap_app, <-after_after.
    destruct (delivered now r s1 (zip connects us2)) as [l2 s2]. cbn [fst snd].
    replace (set_reads rest (reader_with (reader_with r1 (disc_with d f1) s1) (disc_with (disc_with d f1) f) s2))
      with (set_reads rest (reader_with r (disc_with d f) s2)) by (by destruct r).
    done.
Qed.
End Reader.

(** ** Numbers *)
Definition null_unmasked (f : list Z) : UnmaskedChunk := mkUnmasked f true true.

Lemma delivered_numbered {F} `{Framer F} now (r : StreamReaderReal F) n fs :
  0 ≤ n → n + Z.of_nat (length fs) < 2 ^ 64 →
  delivered now r (mkSequencer n) (zip (replicate (length fs) false) (null_unmasked <$> fs)) =
    (imap (λ i f, inbound_chunk now r (Some (n + Z.of_nat i)) (null_unmasked f)) fs,
     mkSequencer (n + Z.of_nat (length fs))).
Proof.
  revert n. induction fs as [|f fs IH]; intros n Hn Hl; cbn [length replicate].
  { cbn. by rewrite Z.add_0_r. }
  cbn [length] in Hl. rewrite fmap_cons. cbn [zip_with delivered chunk_number null_unmasked sequenced negb andb].
  cbn [current_sequence_number]. rewrite wrap_small by (unfold in_width; lia).
  rewrite IH by lia. cbn [imap]. f_equal.
  - rewrite Z.add_0_r. f_equal. apply imap_ext. intros i x _. cbn. do 2 f_equal. lia.
  - f_equal. lia.
Qed.

Lemma all_false (cs l : list bool) : true ∉ l → Forall (λ c, c ∈ l) cs → cs = replicate (length cs) false.
Proof.
  intros Hl. induction 1 as [|c cs Hc _ IH]; cbn; [done|]. f_equal; [|done]. by destruct c.
Qed.

Lemma unmasks_null {F} (f : F) fs : unmasks (mkDiscriminator f [NullMasquerader]) fs (null_unmasked <$> fs).
Proof. apply Forall2_fmap_r. induction fs; by constructor. Qed.

(** ** The Dispatcher *)
Lemma dispatch_all (ibcds : list InboundClientData) (to : InboundClientData → DispatcherMessage) dp :
  (∀ m, m ∈ ibcds → dp_handle_inbound_client_data m dp = Ret (tt, dp, [to m])) →
  each dp_handle_inbound_client_data ibcds dp = Ret (tt, dp, to <$> ibcds).
Proof.
  induction ibcds as [|m ibcds IH]; intros Hto; cbn [each]; [done|].
  unfold mbind, prog_bind. rewrite Hto by set_solver. rewrite IH by set_solver. done.
Qed.

(** The data of a browser, frame by frame *)
Definition browser_data (now : Z) (peer : SocketAddr) (port : Z) (fs : list (list Z)) : list InboundClientData :=
  imap (λ i f, mkIbcd now peer (Some port) false false (Some (Z.of_nat i)) f) fs.

Definition stream_end (local peer : SocketAddr) (port : Z) (n : nat) : RemoveStreamMsg :=
  mkRemoveStream local peer (NonClandestine (mkNca port (Z.of_nat n))).

(** C23: what a browser sends reaches the ProxyServer in order, numbered from 0, and so does
    the end of its stream.  For any framer, whatever pieces the bytes arrive in: if the
    framer finds the frames [fs] in them and no piece looks like a CONNECT, the reader
    sends one message per frame, with the numbers 0, 1, ..., and when the browser closes
    the stream it has the stream removed under the next number.  The Dispatcher hands
    each message to the ProxyServer; the pool forgets the writer of the stream, and the
    ProxyServer is told of the end, to be passed on if there was a writer. *)
Theorem browser_data_is_numbered {F} `{Framer F} `{WebText} fuel now (f f' : F) fs pieces local peer port ds dp
    (pool : NodeStreamPool F) :
  read_pieces fuel f pieces = Ret (fs, f') → Forall piece_ok pieces → true ∉ looks (replicate BUFFER_LEN 0) pieces →
  Z.of_nat (length fs) < 2 ^ 64 → dp_subs dp = true →
  let reads := ((λ p, Ok (Ready p)) <$> pieces) ++ [Ok (Ready [])] in
  let r := mkNodeReader local peer (Some port) (mkDiscriminator f [NullMasquerader] :: ds) false Sequencer_new reads in
  let ibcds := browser_data now peer port fs in
  let k := StreamWriterKey_from peer in
  let ended := mkShutdown peer (rs_stream_type (stream_end local peer port (length fs)))
                 (bool_decide (is_Some (mjoin (stream_writers pool !! k)))) in
  (∃ r', stream_reader_poll fuel now r =
     Ret (Ok (Ready tt), r', (ReadClientData <$> ibcds) ++ [RemoveStream (stream_end local peer port (length fs))])) ∧
  each dp_handle_inbound_client_data ibcds dp = Ret (tt, dp, InboundToProxyServer <$> ibcds) ∧
  handle_remove_stream_msg (stream_end local peer port (length fs)) pool =
    Ret (tt, set_writers (delete k (stream_writers pool)) pool, [ShutdownToDispatcher ended]) ∧
  dp_handle_stream_shutdown_msg ended dp = Ret (tt, dp, [ShutdownToProxyServer ended]).
Proof.
  intros Hf Hp Hlooks Hlen Hdp reads r ibcds k ended. split_and!.
  - destruct (stream_reader_loop_spec fuel now (replicate BUFFER_LEN 0) pieces [Ok (Ready [])]
      (mkDiscriminator f [NullMasquerader]) fs f' (null_unmasked <$> fs) r) as (connects & buf' & Hc & Hin & E);
      [apply length_replicate|done|done|done|apply unmasks_null|by right|done|].
    rewrite length_fmap in Hc. apply all_false in Hin; [|done]. rewrite Hc in Hin. subst connects.
    change (nr_sequencer r) with (mkSequencer 0) in E. rewrite delivered_numbered in E by lia. cbn [fst snd Z.add] in E.
    unfold stream_reader_poll, mbind, prog_bind, gets. rewrite E. cbn [stream_reader_loop].
    eexists. unfold after. cbn. reflexivity.
  - apply dispatch_all. intros m (i & f0 & Hm & _)%elem_of_lookup_imap. subst m.
    unfold dp_handle_inbound_client_data, expect_subs, mbind, prog_bind, gets. cbn. by rewrite Hdp.
  - unfold handle_remove_stream_msg, mbind, prog_bind, gets, modify, send. cbn. do 3 f_equal.
    unfold ended. fold k. do 2 f_equal. by destruct (stream_writers pool !! k) as [[]|].
  - unfold dp_handle_stream_shutdown_msg, expect_subs, mbind, prog_bind, gets. by rewrite Hdp.
Qed.
