(* ===== verification/NodePoolFacts.v ===== *)
(** * The pool of streams: opening, sending, closing

    A stream to a neighbor is opened when there is something to send; attempts that fail
    are forgotten; a stream that is being opened has an attempt under way; what is sent to
    a neighbor arrives there. *)

From S2P Require Import Prelude.
From S2P Require Import Actor.
From S2P Require Import Bytes.
From S2P Require Import NodeAddr.
From S2P Require Import GossipAcceptor.
From S2P Require Import Sequencing.
From S2P Require Import StreamWriters.
From S2P Require Import StreamWritersFacts.
From S2P Require Import Framing.
From S2P Require Import FramingFacts.
From S2P Require Import HttpFraming.
From S2P Require Import ProtocolPacks.
From S2P Require Import Hopper.
From S2P Require Import ProxyServer.
From S2P Require Import ProxyClient.
From S2P Require Import Masquerade.
From S2P Require Import NodeStreams.
From S2P Require Import NodeStreamsFacts.

(** The address a message goes to *)
Definition destination (m : DispatcherNodeQueryResponse) : option SocketAddr :=
  match extract_node_addr m with
  | Ok a => mkSocketAddr (na_ip_addr a) <$> head (na_ports a)
  | Err _ => None
  end.

(** A message for a neighbor: masked, and not the last one of a stream *)
Definition clandestine (m : DispatcherNodeQueryResponse) : Prop :=
  tx_sequence_number (qr_context m) = None ∧ tx_last_data (qr_context m) = false.

Section Pool.
Context {F : Type} `{Framer F}.
Implicit Types (p : NodeStreamPool F).

Abbreviation respond := (handle_dispatcher_node_query_response (F:=F)).

Lemma respond_to m addr : destination m = Some addr → respond m = send_or_queue_packet m addr (StreamWriterKey_from addr).
Proof.
  unfold destination, handle_dispatcher_node_query_response. destruct (extract_node_addr m) as [a|]; [|done].
  destruct (na_ports a) as [|port ports]; [done|]. by intros [= <-].
Qed.

Definition masks (p : NodeStreamPool F) (m : DispatcherNodeQueryResponse) (t : list Z) : Prop :=
  mask (traffic_analyzer p) (tx_data (qr_context m)) = Ret (Ok t).

Lemma respond_open p m addr tx t :
  destination m = Some addr → clandestine m → stream_writers p !! StreamWriterKey_from addr = Some (Some tx) →
  sender_channel tx ∈ open_writers p → masks p m t →
  respond m p = Ret (Ok tt, p, [QueuePacket (sender_channel tx) (mkPacket t 0 false)]).
Proof.
  intros Hd [Hn Hl] Hw Ho Hm. rewrite (respond_to m addr Hd).
  unfold send_or_queue_packet, send_packet_on_open_stream, mbind, prog_bind, gets, lift. rewrite Hw, Hn. cbn.
  rewrite Hm. cbn. rewrite bool_decide_true by done. cbn. rewrite Hl. done.
Qed.

Lemma respond_opening p m addr :
  destination m = Some addr → stream_writers p !! StreamWriterKey_from addr = Some None → np_bound p = true →
  respond m p = Ret (Ok tt, p, [ScheduleResponse m 100]).
Proof.
  intros Hd Hw Hb. rewrite (respond_to m addr Hd).
  unfold send_or_queue_packet, delay_packet_for_opening_stream, expect_bound, mbind, prog_bind, gets. rewrite Hw. cbn.
  by rewrite Hb.
Qed.

(** The pool while it opens a stream *)
Definition opening (p : NodeStreamPool F) (addr : SocketAddr) : NodeStreamPool F :=
  set_writers (<[StreamWriterKey_from addr := None]> (stream_writers p)) p.

Lemma respond_new p m addr key :
  destination m = Some addr → stream_writers p !! StreamWriterKey_from addr = None → np_bound p = true →
  sa_ip addr ≠ localhost → nq_public_key <$> qr_result m = Some key →
  respond m p = Ret (Ok tt, opening p addr, [SpawnConnect (mkStreamStart addr key m)]).
Proof.
  intros Hd Hw Hb Hl Hk. rewrite (respond_to m addr Hd).
  unfold send_or_queue_packet, open_new_stream_and_recycle_message, expect_bound, mbind, prog_bind, gets, modify, lift.
  rewrite Hw, bool_decide_false by done. cbn. rewrite Hb. cbn. by rewrite Hk.
Qed.

Lemma destination_key m addr : destination m = Some addr → ∃ key, nq_public_key <$> qr_result m = Some key.
Proof. unfold destination, extract_node_addr. destruct (qr_result m); [|done]. by eexists. Qed.

(** The pool with a stream for [info], and what the pool sends when it gets it *)
Definition added (p : NodeStreamPool F) (info : ConnectionInfo) : NodeStreamPool F :=
  let addr := ci_peer_addr info in
  set_writers (<[StreamWriterKey_from addr := Some (mkSender (next_writer p) addr)]> (stream_writers p)) (open_writer p).

Definition set_up (p : NodeStreamPool F) (m : AddStreamMsg F) (ds : list (Discriminator F)) : list (NodePoolMessage F) :=
  let info := connection_info m in
  let clandestine := pc_is_clandestine (port_configuration m) in
  [SpawnStreamWriter (ci_connection info) (next_writer p) (ci_peer_addr info) clandestine;
   SpawnStreamReader (ci_connection info)
     (mkNodeReader (ci_local_addr info) (ci_peer_addr info) (origin_port m) ds clandestine Sequencer_new [])].

Lemma handle_add_eq p m ds :
  np_bound p = true → ds ≠ [] → map_outcome id (discriminator_factories (port_configuration m)) = Ret ds →
  handle_add_stream_msg m p = Ret (tt, added p (connection_info m), set_up p m ds).
Proof.
  intros Hb Hds Hm. unfold handle_add_stream_msg, set_up_stream_writer, set_up_stream_reader, expect_bound.
  unfold mbind, prog_bind, gets, modify, send, lift. cbn -[map_outcome]. rewrite Hb. cbn -[map_outcome].
  unfold StreamReaderReal_new. destruct (discriminator_factories _) as [|f fs]; [by injection Hm as <-|].
  rewrite Hm. done.
Qed.

Lemma handle_remove_eq m p :
  handle_remove_stream_msg m p =
    Ret (tt, set_writers (delete (StreamWriterKey_from (rs_peer_addr m)) (stream_writers p)) p,
      [ShutdownToDispatcher (mkShutdown (rs_peer_addr m) (rs_stream_type m)
         (bool_decide (is_Some (mjoin (stream_writers p !! StreamWriterKey_from (rs_peer_addr m))))))]).
Proof.
  unfold handle_remove_stream_msg, mbind, prog_bind, gets, modify, send. cbn. do 5 f_equal.
  by destruct (stream_writers p !! _) as [[]|].
Qed.
End Pool.

(** C25: a stream to a neighbor is opened on demand.  A message for a neighbor without a
    stream makes the pool try to connect; messages for it that come in meanwhile are put
    off.  When the connection is there, the pool gets a writer and a reader for it, the
    message is masked and queued to this writer, and the Neighborhood is told of the
    success. *)
Theorem neighbor_is_connected_on_demand {F} `{Framer F} (p : NodeStreamPool F) m addr ds t conn local :
  destination m = Some addr → clandestine m → np_bound p = true →
  stream_writers p !! StreamWriterKey_from addr = None → sa_ip addr ≠ localhost → masks p m t →
  map_outcome id (clandestine_discriminator_factories p) = Ret ds → ds ≠ [] →
  let info := mkConnection conn local addr in
  let ch := next_writer p in
  ∃ start add,
    handle_dispatcher_node_query_response m p = Ret (Ok tt, opening p addr, [SpawnConnect start]) ∧
    (∀ m' addr', destination m' = Some addr' → StreamWriterKey_from addr' = StreamWriterKey_from addr →
       handle_dispatcher_node_query_response m' (opening p addr) = Ret (Ok tt, opening p addr, [ScheduleResponse m' 100])) ∧
    connect_future (clandestine_discriminator_factories p) start (Ok info) =
      [ToSelfAdd add; ToSelfResponse m; TellProgress (mkCpm (sa_ip addr) TcpConnectionSuccessful)] ∧
    (_ ← handle_add_stream_msg add; handle_dispatcher_node_query_response m) (opening p addr) =
      Ret (Ok tt, added p info,
        [SpawnStreamWriter conn ch addr true;
         SpawnStreamReader conn (mkNodeReader local addr (Some (sa_port local)) ds true Sequencer_new []);
         QueuePacket ch (mkPacket t 0 false)]).
Proof.
  intros Hd Hc Hb Hw Hl Hm Hds Hne info ch. destruct (destination_key m addr Hd) as [key Hk].
  exists (mkStreamStart addr key m), (mkAddStream info (Some (sa_port local)) (mkPortConfiguration (clandestine_discriminator_factories p) true)).
  split_and!.
  - by apply respond_new.
  - intros m' addr' Hd' Ha. apply (respond_opening _ m' addr'); [done| |done]. cbn. by rewrite Ha, lookup_insert_eq.
  - done.
  - unfold mbind, prog_bind. rewrite (handle_add_eq _ _ ds) by done. cbn [connection_info].
    assert (E : added (opening p addr) info = added p info).
    { unfold added, opening. cbn. by rewrite insert_insert_eq. }
    rewrite E, (respond_open _ m addr (mkSender ch addr) t); try done.
    + cbn. by rewrite lookup_insert_eq.
    + cbn. set_solver.
Qed.

(** C26: an attempt to connect that fails is forgotten: the pool is as before the message,
    so that the next message makes a new attempt; the Dispatcher tells the Neighborhood
    that a clandestine stream has ended that is not to be reported, and the Neighborhood
    also gets the key of the neighbor that is to be removed and the failure.  The message
    itself is dropped: nothing of it is sent on. *)
Theorem failed_connection_is_forgotten {F} `{Framer F} (p : NodeStreamPool F) m addr e dp :
  destination m = Some addr → np_bound p = true → stream_writers p !! StreamWriterKey_from addr = None →
  sa_ip addr ≠ localhost → dp_subs dp = true →
  let ended := mkShutdown addr Clandestine false in
  ∃ start rm,
    handle_dispatcher_node_query_response m p = Ret (Ok tt, opening p addr, [SpawnConnect start]) ∧
    connect_future (clandestine_discriminator_factories p) start (Err e) =
      [ToSelfRemove rm; RemoveNeighbor (default (mkPublicKey []) (nq_public_key <$> qr_result m));
       TellProgress (mkCpm (sa_ip addr) TcpConnectionFailed)] ∧
    handle_remove_stream_msg rm (opening p addr) = Ret (tt, p, [ShutdownToDispatcher ended]) ∧
    dp_handle_stream_shutdown_msg ended dp = Ret (tt, dp, [ShutdownToNeighborhood ended]).
Proof.
  intros Hd Hb Hw Hl Hdp ended. destruct (destination_key m addr Hd) as [key Hk].
  exists (mkStreamStart addr key m), (mkRemoveStream (mkSocketAddr localhost 0) addr Clandestine). split_and!.
  - by apply respond_new.
  - by rewrite Hk.
  - rewrite handle_remove_eq. cbn. rewrite lookup_insert_eq. cbn.
    rewrite delete_insert_eq, delete_id by done. by destruct p.
  - unfold dp_handle_stream_shutdown_msg, expect_subs, mbind, prog_bind, gets. by rewrite Hdp.
Qed.

(** ** From one node to the next *)
Section Wire.
Context `{JsonLaws} `{WebText}.
Implicit Types (p : NodeStreamPool JsonFramer).

Definition transmit (m : DispatcherNodeQueryResponse) :
    prog (NodeStreamPool JsonFramer) (NodePoolMessage JsonFramer) unit :=
  _ ← handle_dispatcher_node_query_response m; mret tt.

Definition masked_packet (t : list Z) : SequencedPacket := mkPacket t 0 false.

(** A message for the neighbor at [addr] whose disguise is shorter than 2 GiB *)
Record message_for p (addr : SocketAddr) (m : DispatcherNodeQueryResponse) : Prop := {
  mf_destination : destination m = Some addr;
  mf_clandestine : clandestine m;
  mf_bytes : Forall octet (tx_data (qr_context m));
  mf_length t : masks p m t → Z.of_nat (length t) < 2 ^ 31
}.

Definition message_data (m : DispatcherNodeQueryResponse) : list Z := tx_data (qr_context m).

Lemma transmit_all p addr tx ms ts :
  stream_writers p !! StreamWriterKey_from addr = Some (Some tx) → sender_channel tx ∈ open_writers p →
  Forall (message_for p addr) ms → Forall2 (masks p) ms ts →
  each transmit ms p = Ret (tt, p, QueuePacket (sender_channel tx) <$> (masked_packet <$> ts)).
Proof.
  intros Hw Ho Hms Hts. revert Hms. induction Hts as [|m t ms ts Hm _ IH]; intros Hms; cbn [each]; [done|].
  apply Forall_cons_1 in Hms as [[Hd Hc _ _] Hms].
  assert (E : transmit m p = Ret (tt, p, [QueuePacket (sender_channel tx) (masked_packet t)])).
  { unfold transmit, mbind, prog_bind. by rewrite (respond_open p m addr tx t). }
  unfold mbind, prog_bind. rewrite E, IH by done. done.
Qed.

Lemma masked_messages p addr ms :
  traffic_analyzer p = JsonMasquerader → Forall (message_for p addr) ms →
  ∃ ts, Forall2 (masks p) ms ts ∧ Forall json_message ts ∧
    Forall2 (λ t u, first_unmask [JsonMasquerader] t = Some u) ts ((λ m, mkUnmasked (message_data m) true false) <$> ms).
Proof.
  intros Hp. induction 1 as [|m ms [Hd Hc Hb Hlen] _ (ts & Hts & Hj & Hu)]; [by exists []|].
  destruct (mask_unmask (message_data m) Hb) as (t & Hm & Ho & Hun).
  assert (Hmask : masks p m t) by (unfold masks; by rewrite Hp).
  exists (t :: ts). split_and!; constructor; try done.
  - split; [done|by apply Hlen].
  - cbn. cbn in Hun. by rewrite Hun.
Qed.

(** What is delivered of data that are not numbered *)
Lemma delivered_clandestine now (r : StreamReaderReal JsonFramer) s connects us :
  Forall (λ u, sequenced u = false) us → length connects = length us →
  ∃ ns, length ns = length us ∧
    delivered now r s (zip connects us) = (zip_with (inbound_chunk now r) ns us, s).
Proof.
  revert connects. induction us as [|u us IH]; intros connects Hu Hl.
  { destruct connects; [|done]. by exists []. }
  destruct connects as [|c connects]; [done|]. apply Forall_cons_1 in Hu as [Hu Hus].
  destruct (IH connects Hus) as (ns & Hn & E); [by injection Hl|].
  cbn [zip_with delivered]. unfold chunk_number. rewrite Hu. cbn [andb].
  exists ((if c then Some 0 else None) :: ns). cbn [zip_with length]. rewrite E. split; [by rewrite Hn|done].
Qed.

Lemma inbound_facts now (r : StreamReaderReal JsonFramer) ns (us : list UnmaskedChunk) :
  length ns = length us →
  ibcd_data <$> zip_with (inbound_chunk now r) ns us = u_chunk <$> us ∧
  Forall (λ i, is_clandestine i = nr_is_clandestine r ∧ client_addr i = nr_peer_addr r) (zip_with (inbound_chunk now r) ns us).
Proof.
  revert ns. induction us as [|u us IH]; intros [|n ns] Hl; try done.
  destruct (IH ns) as [E Hf]; [by injection Hl|]. cbn. split; [f_equal; apply E|by constructor].
Qed.

(** C22: neighbors hear each other.  The messages that the pool of one node has for a
    neighbor with an open stream are masked and queued to the writer of this stream, in
    order.  When the writer has put them all on the stream, without the stream dying, the
    reader of the other node - which reads the same bytes in pieces of any size - sends
    its Dispatcher exactly the data of these messages, in order, and the Dispatcher hands
    them to the Hopper.  The disguise is that of [serde_json] and [base64] ([JsonLaws]). *)
Theorem neighbors_hear_each_other p tx addr ms dp :
  traffic_analyzer p = JsonMasquerader → stream_writers p !! StreamWriterKey_from addr = Some (Some tx) →
  sender_channel tx ∈ open_writers p → Forall (message_for p addr) ms → dp_subs dp = true →
  ∃ packets,
    each transmit ms p = Ret (tt, p, QueuePacket (sender_channel tx) <$> packets) ∧
    ∀ n ws shs rx res w pieces fuel now local peer port,
      drive unsorted_poll n (unsorted_new (mkStream ws shs []) (mkChannel rx [])) = Ret (res, w) →
      Forall (λ a : ChannelAnswer, a ≠ Err tt) rx → res ≠ Err tt →
      taken (u_rx_to_write w) = packets → buf w = None →
      Forall piece_ok pieces → concat pieces = written (u_stream w) → (length ms < fuel)%nat →
      ∃ d r ibcds,
        JsonDiscriminatorFactory_make = Ret d ∧
        stream_reader_poll fuel now
          (mkNodeReader local peer port [d] true Sequencer_new ((λ q, Ok (Ready q)) <$> pieces)) =
            Ret (Ok NotReady, r, ReadClientData <$> ibcds) ∧
        ibcd_data <$> ibcds = message_data <$> ms ∧
        Forall (λ i, is_clandestine i = true ∧ client_addr i = peer) ibcds ∧
        each dp_handle_inbound_client_data ibcds dp = Ret (tt, dp, InboundToHopper <$> ibcds).
Proof.
  intros Hp Hw Ho Hms Hdp. destruct (masked_messages p addr ms Hp Hms) as (ts & Hts & Hj & Hu).
  exists (masked_packet <$> ts). split; [by apply (transmit_all p addr tx)|].
  intros n ws shs rx res w pieces fuel now local peer port Edrive Hrx Hres Htk Hbuf Hpieces Hcat Hfuel.
  assert (Hbytes : concat pieces = concat ts).
  { destruct (unsorted_writer_in_order n ws shs rx Hrx) as (res' & w' & E & _ & Hall & _).
    rewrite Edrive in E. injection E as <- <-. specialize (Hall Hres). rewrite Hbuf, Htk in Hall. cbn in Hall.
    rewrite app_nil_r in Hall. rewrite Hcat, Hall. f_equal. rewrite <-list_fmap_compose. apply list_fmap_id. }
  destruct (message_stream (F := JsonFramer) JsonFramer_new [] ts pieces fuel) as (f & Hread & _);
    [done|done|done|by left|by rewrite <-(Forall2_length _ _ _ Hts)|].
  set (us := (λ m, mkUnmasked (message_data m) true false) <$> ms) in Hu.
  set (d := mkDiscriminator JsonFramer_new [JsonMasquerader]).
  set (r0 := mkNodeReader local peer port [d] true Sequencer_new ((λ q, Ok (Ready q)) <$> pieces)).
  destruct (stream_reader_loop_spec fuel now (replicate BUFFER_LEN 0) pieces [] d ts f us r0)
    as (connects & buf' & Hc & _ & E); [apply length_replicate|done|done|done|done|by left|by rewrite app_nil_r|].
  destruct (delivered_clandestine now r0 (nr_sequencer r0) connects us) as (ns & Hns & Ed); [|done|].
  { apply Forall_fmap, Forall_true. done. }
  rewrite Ed in E. destruct (inbound_facts now r0 ns us Hns) as [Hdata Hfrom].
  exists d. eexists. exists (zip_with (inbound_chunk now r0) ns us). split_and!.
  - done.
  - fold r0. unfold stream_reader_poll, mbind, prog_bind, gets. rewrite E. cbn. by rewrite app_nil_r.
  - rewrite Hdata. unfold us. rewrite <-list_fmap_compose. done.
  - done.
  - apply dispatch_all. intros i Hi. rewrite Forall_forall in Hfrom. destruct (Hfrom i Hi) as [Hcl _]. cbn in Hcl.
    unfold dp_handle_inbound_client_data, expect_subs, mbind, prog_bind, gets. by rewrite Hcl, Hdp.
Qed.
End Wire.

(** ** The pool among its messages *)
Section World.
Context {F : Type} `{Framer F}.
Implicit Types (p : NodeStreamPool F) (e : NodePoolMessage F).

(** The pool, and the messages and futures that are under way; they are taken in any
    order. *)
Record World := mkWorld { w_pool : NodeStreamPool F; flight : list (NodePoolMessage F) }.

(** A message that is handled, with what handling it does to the pool and sends *)
Inductive event : NodeStreamPool F → NodePoolMessage F → NodeStreamPool F → list (NodePoolMessage F) → Prop :=
| event_connect p start answer :
    (∀ info, answer = Ok info → ci_peer_addr info = start_peer_addr start) →
    event p (SpawnConnect start) p (connect_future (clandestine_discriminator_factories p) start answer)
| event_add p m p' sent : handle_add_stream_msg m p = Ret (tt, p', sent) → event p (ToSelfAdd m) p' sent
| event_remove p m p' sent : handle_remove_stream_msg m p = Ret (tt, p', sent) → event p (ToSelfRemove m) p' sent
| event_response p m r p' sent :
    handle_dispatcher_node_query_response m p = Ret (r, p', sent) → event p (ToSelfResponse m) p' sent
| event_scheduled p m delay r p' sent :
    handle_dispatcher_node_query_response m p = Ret (r, p', sent) → event p (ScheduleResponse m delay) p' sent
| event_answer p query context db :
    event p (AskNeighborhood query context) p [ToSelfResponse (handle_dispatcher_node_query db query context)].

(** [step_transmit]: an order of the Dispatcher; [step_outside]: a listener has a new
    stream, or a reader has one that ended; [step_writer]: a writer stops. *)
Inductive world_step : World → World → Prop :=
| step_event p p' e l1 l2 sent :
    event p e p' sent → world_step (mkWorld p (l1 ++ e :: l2)) (mkWorld p' (l1 ++ l2 ++ sent))
| step_transmit p m p' sent l :
    handle_transmit_data_msg m p = Ret (tt, p', sent) → world_step (mkWorld p l) (mkWorld p' (l ++ sent))
| step_outside p e l :
    (∃ m, e = ToSelfAdd m) ∨ (∃ m, e = ToSelfRemove m) → world_step (mkWorld p l) (mkWorld p (l ++ [e]))
| step_writer p n l :
    world_step (mkWorld p l)
      (mkWorld (mkNodePool (stream_writers p) (np_bound p) (clandestine_discriminator_factories p)
         (traffic_analyzer p) (open_writers p ∖ {[n]}) (next_writer p)) l).

(** A message that will make the entry [k] a stream, or no entry at all *)
Definition settles (k : StreamWriterKey) e : Prop :=
  match e with
  | SpawnConnect start => StreamWriterKey_from (start_peer_addr start) = k
  | ToSelfAdd m => StreamWriterKey_from (ci_peer_addr (connection_info m)) = k
  | ToSelfRemove m => StreamWriterKey_from (rs_peer_addr m) = k
  | _ => False
  end.

Definition being_opened (w : World) : Prop :=
  ∀ k, stream_writers (w_pool w) !! k = Some None → ∃ e, e ∈ flight w ∧ settles k e.

Lemma respond_effect m p r p' sent k :
  handle_dispatcher_node_query_response m p = Ret (r, p', sent) → stream_writers p' !! k = Some None →
  stream_writers p !! k = Some None ∨ ∃ e, e ∈ sent ∧ settles k e.
Proof.
  unfold handle_dispatcher_node_query_response. destruct (extract_node_addr m) as [a|]; [|intros [= <- <- <-]; by left].
  destruct (na_ports a) as [|port ports]; [done|].
  set (addr := mkSocketAddr _ _). set (sw := StreamWriterKey_from addr).
  unfold send_or_queue_packet, mbind at 1, prog_bind at 1, gets.
  assert (Hdel : stream_writers (set_writers (delete sw (stream_writers p)) p) !! k = Some None →
    stream_writers p !! k = Some None).
  { cbn. intros Hk%lookup_delete_Some. tauto. }
  destruct (stream_writers p !! sw) as [[tx|]|] eqn:Ew.
  - unfold send_packet_on_open_stream, mbind, prog_bind, gets, lift. fold sw.
    destruct (tx_sequence_number (qr_context m)); cbn -[sw];
      [|destruct (mask _ _) as [[t|]|]; cbn -[sw]; [|intros [= <- <- <-]; by left|done]];
      (destruct (bool_decide _); [destruct (tx_last_data _)|]); cbn -[sw]; intros [= <- <- <-]; try (by left);
      intros ?%Hdel; by left.
  - unfold delay_packet_for_opening_stream, expect_bound, mbind, prog_bind, gets.
    destruct (np_bound p); [|done]. cbn. intros [= <- <- <-]. by left.
  - destruct (bool_decide _); [intros [= <- <- <-]; by left|].
    unfold open_new_stream_and_recycle_message, expect_bound, mbind, prog_bind, gets, modify, lift. cbn -[sw].
    destruct (np_bound p); [|done]. cbn -[sw]. destruct (qr_result m) as [md|]; [|done]. cbn -[sw].
    intros [= <- <- <-]. cbn -[sw]. fold sw. intros [[Hsw _]|[_ Hk]]%lookup_insert_Some; [right|by left].
    eexists. split; [by apply elem_of_cons; left|exact Hsw].
Qed.

(** Handling a message leaves no entry without a message that settles it. *)
Lemma event_effect p e p' sent k :
  event p e p' sent → stream_writers p' !! k = Some None →
  (stream_writers p !! k = Some None ∧ ¬ settles k e) ∨ ∃ e', e' ∈ sent ∧ settles k e'.
Proof.
  intros Hev Hk. destruct Hev as [p start answer Ha|p m p' sent E|p m p' sent E|p m r p' sent E|p m delay r p' sent E|].
  - destruct (decide (StreamWriterKey_from (start_peer_addr start) = k)); [right|by left].
    destruct answer as [info|err]; cbn; (eexists; split; [by apply elem_of_cons; left|]); cbn; [by rewrite (Ha info)|done].
  - unfold handle_add_stream_msg, set_up_stream_writer, set_up_stream_reader, expect_bound, mbind, prog_bind,
      gets, modify, send, lift in E. cbn in E.
    destruct (np_bound p); [|done]. destruct (StreamReaderReal_new _ _ _ _ _ _); [|done].
    injection E as <- _. cbn in Hk. apply lookup_insert_Some in Hk as [[_ ?]|[Hne Hk]]; [done|by left].
  - rewrite handle_remove_eq in E. injection E as <- _. cbn in Hk. apply lookup_delete_Some in Hk as [Hne Hk]. by left.
  - destruct (respond_effect m p r p' sent k E Hk); [by left; split; [|intros []]|by right].
  - destruct (respond_effect m p r p' sent k E Hk); [by left; split; [|intros []]|by right].
  - by left; split; [|intros []].
Qed.

Lemma world_step_being_opened w w' : world_step w w' → being_opened w → being_opened w'.
Proof.
  intros Hstep Hinv k Hk. destruct Hstep as [p p' e l1 l2 sent Hev|p m p' sent l E|p e l _|p n l]; cbn in *.
  - destruct (event_effect p e p' sent k Hev Hk) as [[Hold Hne]|(e' & He & Hs)]; [|exists e'; set_solver].
    destruct (Hinv k Hold) as (e' & He & Hs). exists e'. cbn in He. set_solver.
  - assert (p' = p) as ->.
    { revert E. unfold handle_transmit_data_msg, expect_bound, mbind, prog_bind, gets.
      destruct (np_bound p); [|done]. destruct (endpoint m); by intros [= <- _]. }
    destruct (Hinv k Hk) as (e & He & Hs). exists e. cbn in He. set_solver.
  - destruct (Hinv k Hk) as (e' & He & Hs). exists e'. cbn in He. set_solver.
  - by apply Hinv.
Qed.

(** A pool without streams and messages *)
Definition first_world (factories : list (outcome (Discriminator F))) (masquerader : Masquerader) : World :=
  mkWorld (mkNodePool ∅ true factories masquerader ∅ 0) [].
End World.
Arguments World : clear implicits.

(** C24: no message waits for a stream that nobody opens.  However orders to transmit,
    attempts to connect and their answers, new streams from outside, ends of streams and
    messages that were put off follow each other: as long as the pool has an entry for a
    stream that is being opened - it puts off what is sent there - an attempt to connect
    or a message is under way that fills this entry or removes it. *)
Theorem opening_streams_are_being_opened {F} `{Framer F} factories masquerader (w : World F) :
  rtc world_step (first_world factories masquerader) w → being_opened w.
Proof.
  intros Hreach. assert (Hgen : ∀ w0, rtc world_step w0 w → being_opened w0 → being_opened w).
  { intros w0. induction 1; [done|]. intros ?. eauto using world_step_being_opened. }
  apply (Hgen _ Hreach). intros k Hk. cbn in Hk. by rewrite lookup_empty in Hk.
Qed.

(** the end of one stream takes the writer of another.  All streams to a host outside
    have one key: when a second stream to a neighbor is set up and the first one ends, the
    pool drops the writer of the second one, which is open, and has the Neighborhood told
    that the stream to this neighbor has ended. *)
Theorem closed_stream_takes_writer {F} `{Framer F} (p : NodeStreamPool F) m1 m2 ds1 ds2 local :
  let addr1 := ci_peer_addr (connection_info m1) in
  let addr2 := ci_peer_addr (connection_info m2) in
  np_bound p = true → sa_ip addr1 = sa_ip addr2 → is_loopback (sa_ip addr1) = false →
  map_outcome id (discriminator_factories (port_configuration m1)) = Ret ds1 → ds1 ≠ [] →
  map_outcome id (discriminator_factories (port_configuration m2)) = Ret ds2 → ds2 ≠ [] →
  let end1 := mkRemoveStream local addr1 Clandestine in
  ∃ p' sent,
    (_ ← handle_add_stream_msg m1; _ ← handle_add_stream_msg m2; handle_remove_stream_msg end1) p =
      Ret (tt, p', sent ++ [ShutdownToDispatcher (mkShutdown addr1 Clandestine true)]) ∧
    stream_writers p' !! StreamWriterKey_from addr2 = None ∧
    SpawnStreamWriter (ci_connection (connection_info m2)) (S (next_writer p)) addr2
      (pc_is_clandestine (port_configuration m2)) ∈ sent ∧
    S (next_writer p) ∈ open_writers p'.
Proof.
  intros addr1 addr2 Hb Hip Hloop Hm1 Hds1 Hm2 Hds2 end1.
  assert (Hkey : StreamWriterKey_from addr1 = StreamWriterKey_from addr2).
  { unfold StreamWriterKey_from. rewrite <-Hip, Hloop. done. }
  unfold mbind, prog_bind. rewrite (handle_add_eq _ m1 ds1), (handle_add_eq _ m2 ds2) by done. rewrite handle_remove_eq.
  set (p1 := added p (connection_info m1)). set (p2 := added p1 (connection_info m2)).
  exists (set_writers (delete (StreamWriterKey_from addr1) (stream_writers p2)) p2), (set_up p m1 ds1 ++ set_up p1 m2 ds2).
  split_and!.
  - assert (E2 : stream_writers p2 !! StreamWriterKey_from addr1 = Some (Some (mkSender (next_writer p1) addr2))).
    { rewrite Hkey. cbn. by rewrite lookup_insert_eq. }
    cbn [rs_peer_addr end1 rs_stream_type]. rewrite E2. cbn [mjoin option_join]. rewrite bool_decide_true by done.
    by rewrite <-app_assoc.
  - cbn. rewrite Hkey. by rewrite lookup_delete_eq.
  - cbn. set_solver.
  - cbn. set_solver.
Qed.
