(* ===== verification/NodeStreamSamples.v ===== *)
(** * The streams of the node on concrete inputs

    A disguise with which the theorems about streams can be evaluated, their instances,
    and a frame that hides the next one. *)

From S2P Require Import Prelude.
From S2P Require Import Actor.
From S2P Require Import Bytes.
From S2P Require Import NodeAddr.
From S2P Require Import NeighborhoodDatabase.
From S2P Require Import GossipAcceptor.
From S2P Require Import Sequencing.
From S2P Require Import StreamWriters.
From S2P Require Import StreamWritersFacts.
From S2P Require Import Framing.
From S2P Require Import FramingFacts.
From S2P Require Import HttpFraming.
From S2P Require Import ProtocolPacks.
From S2P Require Import Hopper.
From S2P Require Import ProxyServer.
From S2P Require Import ProxyClient.
From S2P Require Import Masquerade.
From S2P Require Import NodeStreams.
From S2P Require Import NodeStreamsFacts.
From S2P Require Import NodePoolFacts.

(** ** A disguise: strings are written with two letters per byte *)
Module SampleDisguise.
Fixpoint letters (l : list Z) : list Z :=
  match l with
  | [] => []
  | b :: l => 97 + b / 16 :: 97 + b mod 16 :: letters l
  end.

Fixpoint unletters (l : list Z) : list Z :=
  match l with
  | hi :: lo :: l => (hi - 97) * 16 + (lo - 97) :: unletters l
  | _ => []
  end.

Definition field (name : string) : list Z := [OB; DQ] ++ bytes name ++ [DQ; 58; DQ].
Definition written_object (name : string) (s : list Z) : list Z := field name ++ letters s ++ [DQ; CB].

Definition read_field (name : string) (t : list Z) : option (list Z) :=
  let n := length (field name) in
  if bool_decide (take n t = field name) then Some (unletters (take (length t - n - 2) (drop n t))) else None.

Definition disguise : JsonLibraries := {|
  json_of_text s := Ok (written_object "bodyText" s);
  json_of_data s := Ok (written_object "bodyData" s);
  structure_of_json t := Ok (mkStructure (read_field "bodyText" t) (read_field "bodyData" t));
  base64_encode := letters;
  base64_decode l := Some (unletters l)
|}.

Lemma unletters_letters l : unletters (letters l) = l.
Proof.
  induction l as [|b l IH]; cbn; [done|]. rewrite IH. f_equal.
  pose proof (Z.div_mod b 16). lia.
Qed.

Definition lowercase (b : Z) : Prop := 97 ≤ b ≤ 112.

Lemma letters_lowercase l : Forall octet l → Forall lowercase (letters l).
Proof.
  induction 1 as [|b l Hb _ IH]; cbn; [done|]. unfold octet in Hb.
  pose proof (Z.mod_pos_bound b 16). pose proof (Z.div_pos b 16). pose proof (Z.div_lt_upper_bound b 16 16).
  repeat constructor; unfold lowercase; try lia. done.
Qed.

Lemma ascii_valid l : Forall (λ b, 0 ≤ b ≤ 127) l → valid_utf8 l = true.
Proof.
  induction 1 as [|b l Hb _ IH]; [done|]. cbn [valid_utf8]. unfold in_range.
  rewrite (proj2 (Z.leb_le 0 b)), (proj2 (Z.leb_le b 127)) by lia. done.
Qed.

Lemma valid_utf8_octets l : valid_utf8 l = true → Forall octet l.
Proof.
  remember (length l) as n eqn:Hn. assert (Hle : (length l ≤ n)%nat) by lia. clear Hn.
  revert l Hle. induction n as [|n IH]; intros [|b0 l0] Hle Hv; [done|cbn in Hle; lia|done|].
  cbn [valid_utf8] in Hv. cbn in Hle. unfold in_range, octet in *.
  destruct ((0 <=? b0) && (b0 <=? 127)) eqn:E0; [constructor; [lia|apply IH; [lia|done]]|].
  destruct l0 as [|b1 l1]; [done|]. cbn in Hle.
  destruct ((194 <=? b0) && (b0 <=? 223)) eqn:E1.
  { apply andb_prop in Hv as [Hb Hv]. constructor; [lia|]. constructor; [lia|]. apply IH; [lia|done]. }
  destruct l1 as [|b2 l2]; [done|]. cbn in Hle.
  destruct ((224 <=? b0) && (b0 <=? 239)) eqn:E2.
  { apply andb_prop in Hv as [Hb Hv]. apply andb_prop in Hb as [Hb1 Hb2].
    repeat (constructor; [repeat case_match; lia|]). apply IH; [lia|done]. }
  destruct l2 as [|b3 l3]; [done|]. cbn in Hle.
  apply andb_prop in Hv as [Hb Hv]. apply andb_prop in Hb as [Hb Hb3]. apply andb_prop in Hb as [Hb Hb2].
  apply andb_prop in Hb as [Hb0 Hb1].
  repeat (constructor; [repeat case_match; lia|]). apply IH; [lia|done].
Qed.

Lemma lowercase_string l : Forall lowercase l → string_body DQ l.
Proof.
  induction 1 as [|b l Hb _ IH]; constructor; [| |done]; unfold lowercase, DQ, BS in *; lia.
Qed.

Lemma written_object_ok name s :
  name = "bodyText"%string ∨ name = "bodyData"%string → Forall octet s →
  valid_utf8 (written_object name s) = true ∧ object_text (written_object name s) ∧
  read_field name (written_object name s) = Some s.
Proof.
  intros Hn Hs. pose proof (letters_lowercase s Hs) as Hl. unfold written_object. split_and!.
  - apply ascii_valid, Forall_app_2; [|apply Forall_app_2].
    + destruct Hn as [-> | ->]; by repeat constructor.
    + eapply Forall_impl; [exact Hl|]. unfold lowercase. lia.
    + by repeat constructor.
  - exists (DQ :: bytes name ++ DQ :: 58 :: DQ :: letters s ++ DQ :: []). split.
    + apply (body_string DQ (bytes name)); [by right|destruct Hn as [-> | ->]; by repeat constructor|].
      apply body_char; try done. apply (body_string DQ (letters s)); [by right|by apply lowercase_string|constructor].
    + unfold field. cbn. by rewrite <-!app_assoc, <-!app_comm_cons, <-app_assoc.
  - unfold read_field. rewrite take_app_length, bool_decide_true by done. f_equal.
    rewrite drop_app_length, !length_app.
    replace (length (field name) + (length (letters s) + length [DQ; CB]) - length (field name) - 2)%nat
      with (length (letters s)) by (cbn; lia).
    by rewrite take_app_length, unletters_letters.
Qed.

Lemma other_field (s : list Z) :
  read_field "bodyData" (written_object "bodyText" s) = None ∧ read_field "bodyText" (written_object "bodyData" s) = None.
Proof. split; unfold read_field; by rewrite bool_decide_false. Qed.

Lemma disguise_laws : @JsonLaws disguise.
Proof.
  split; cbn -[written_object read_field].
  - intros s Hs%valid_utf8_octets. destruct (written_object_ok "bodyText" s) as (Hv & Ho & Hr); [by left|done|].
    by rewrite Hr, (proj1 (other_field s)).
  - intros s Hs%valid_utf8_octets. destruct (written_object_ok "bodyData" s) as (Hv & Ho & Hr); [by right|done|].
    by rewrite Hr, (proj2 (other_field s)).
  - intros d Hd. apply ascii_valid. eapply Forall_impl; [by apply letters_lowercase|]. unfold lowercase. lia.
  - intros d _. by rewrite unletters_letters.
Qed.
End SampleDisguise.

(** ** Instances *)
Module NodeStreamSamples.
#[local] Existing Instances SampleDisguise.disguise SampleDisguise.disguise_laws.
#[local] Instance plain_text : WebText := {|
  host_pattern l := Some l;
  connect_method b := bool_decide (b = bytes "CONNECT");
  hostname_pattern _ := None
|}.

Definition neighbor : SocketAddr := mkSocketAddr (V4 16909060) 5000.
Definition incoming : SocketAddr := mkSocketAddr (V4 16909060) 40000.
Definition here : SocketAddr := mkSocketAddr (V4 16909061) 6000.
Definition browser : SocketAddr := mkSocketAddr (V4 2130706433) 33000.

Definition message (d : list Z) : DispatcherNodeQueryResponse :=
  mkQueryResponse (Some (mkNqrm (mkPublicKey [1; 2]) (Some (NodeAddr_new (sa_ip neighbor) [5000])) ZERO_RATE_PACK))
    (mkTransmit (Key (mkPublicKey [1; 2])) false None d).

Definition factories : list (outcome (Discriminator JsonFramer)) := [JsonDiscriminatorFactory_make].
Definition json_discriminator : Discriminator JsonFramer := mkDiscriminator JsonFramer_new [JsonMasquerader].

Definition no_streams : NodeStreamPool JsonFramer := mkNodePool ∅ true factories JsonMasquerader ∅ 0.
Definition one_stream : NodeStreamPool JsonFramer := added no_streams (mkConnection 3 here neighbor).
Definition dispatcher : Dispatcher := mkDispatcher true (mkNodeDescriptor 1 (mkPublicKey [9]) None) true.

Definition text_message : list Z := [65; 66].
Definition binary_message : list Z := [1; 200].
Definition disguised : list (list Z) :=
  [SampleDisguise.written_object "bodyText" [65; 66];
   SampleDisguise.written_object "bodyData" (SampleDisguise.letters [1; 200])].

(** Two TLS records in one piece and one in the next *)
Definition record_of (b : Z) : list Z := [23; 3; 1; 0; 1; b].
Definition tls_pieces : list (list Z) := [record_of 7 ++ record_of 8; record_of 9].

Lemma pieces_ok (pieces : list (list Z)) :
  forallb (λ p, negb (bool_decide (p = [])) && (length p <=? 20)%nat) pieces = true → Forall piece_ok pieces.
Proof.
  intros Hp. apply Forall_forall. intros p Hin. apply list_elem_of_In in Hin.
  rewrite forallb_forall in Hp. specialize (Hp p Hin). apply andb_prop in Hp as [Hne Hl].
  split; [by intros ->|]. apply Nat.leb_le in Hl. unfold BUFFER_LEN. lia.
Qed.

Lemma browser_data_is_numbered_witness :
  let reads := ((λ p, Ok (Ready p)) <$> tls_pieces) ++ [Ok (Ready [])] in
  ∃ r', stream_reader_poll 9 4
      (mkNodeReader here browser (Some 443) [mkDiscriminator TlsFramer_new [NullMasquerader]] false Sequencer_new reads) =
    Ret (Ok (Ready tt), r',
      (ReadClientData <$> browser_data 4 browser 443 [record_of 7; record_of 8; record_of 9]) ++
      [RemoveStream (mkRemoveStream here browser (NonClandestine (mkNca 443 3)))]).
Proof.
  refine (proj1 (browser_data_is_numbered 9 4 TlsFramer_new TlsFramer_new [record_of 7; record_of 8; record_of 9]
    tls_pieces here browser 443 [] dispatcher (mkNodePool ∅ true [] NullMasquerader ∅ 0) _ _ _ _ _)).
  - vm_compute. reflexivity.
  - by apply pieces_ok.
  - assert (E : looks (replicate BUFFER_LEN 0) tls_pieces = [false; false]) by (vm_compute; reflexivity).
    rewrite E. set_solver.
  - reflexivity.
  - reflexivity.
Defined.

Lemma neighbor_is_connected_on_demand_witness :
  ∃ start add,
    connect_future factories start (Ok (mkConnection 3 here neighbor)) =
      [ToSelfAdd add; ToSelfResponse (message text_message); TellProgress (mkCpm (V4 16909060) TcpConnectionSuccessful)] ∧
    (_ ← handle_add_stream_msg add; handle_dispatcher_node_query_response (message text_message))
      (opening no_streams neighbor) =
      Ret (Ok tt, one_stream,
        [SpawnStreamWriter 3 0 neighbor true;
         SpawnStreamReader 3 (mkNodeReader here neighbor (Some 6000) [json_discriminator] true Sequencer_new []);
         QueuePacket 0 (mkPacket (SampleDisguise.written_object "bodyText" text_message) 0 false)]).
Proof.
  destruct (neighbor_is_connected_on_demand no_streams (message text_message) neighbor [json_discriminator]
    (SampleDisguise.written_object "bodyText" text_message) 3 here) as (start & add & _ & _ & E1 & E2);
    try reflexivity; try discriminate.
  - by split.
  - by exists start, add.
Defined.

Lemma failed_connection_is_forgotten_witness :
  ∃ start rm,
    handle_dispatcher_node_query_response (message text_message) no_streams =
      Ret (Ok tt, opening no_streams neighbor, [SpawnConnect start]) ∧
    handle_remove_stream_msg rm (opening no_streams neighbor) =
      Ret (tt, no_streams, [ShutdownToDispatcher (mkShutdown neighbor Clandestine false)]).
Proof.
  destruct (failed_connection_is_forgotten no_streams (message text_message) neighbor ConnectionRefused dispatcher)
    as (start & rm & E1 & _ & E2 & _); try reflexivity; try discriminate.
  by exists start, rm.
Defined.

Lemma sample_message_for d t :
  Forall octet d → mask JsonMasquerader d = Ret (Ok t) → Z.of_nat (length t) < 2 ^ 31 →
  message_for one_stream neighbor (message d).
Proof.
  intros Hd Ht Hl. split; [reflexivity|by split|done|].
  unfold masks. intros t' E. change (mask JsonMasquerader d = Ret (Ok t')) in E. rewrite Ht in E. by injection E as <-.
Qed.

Lemma sample_messages_for :
  Forall (message_for one_stream neighbor) [message text_message; message binary_message].
Proof.
  constructor; [|constructor; [|constructor]];
    (eapply sample_message_for; [repeat constructor; unfold octet; lia|reflexivity|reflexivity]).
Qed.

(** The bytes in pieces of ten *)
Fixpoint cut (fuel : nat) (l : list Z) : list (list Z) :=
  match fuel, l with
  | S fuel, _ :: _ => take 10 l :: cut fuel (drop 10 l)
  | _, _ => []
  end.

Lemma neighbors_hear_each_other_witness :
  ∃ r ibcds,
    stream_reader_poll 5 7
      (mkNodeReader neighbor incoming (Some 5000) [json_discriminator] true Sequencer_new
         ((λ q, Ok (Ready q)) <$> cut 9 (concat disguised))) = Ret (Ok NotReady, r, ReadClientData <$> ibcds) ∧
    ibcd_data <$> ibcds = [text_message; binary_message].
Proof.
  destruct (neighbors_hear_each_other one_stream (mkSender 0 neighbor) neighbor
    [message text_message; message binary_message] dispatcher) as (packets & E & Hrest); try reflexivity.
  - apply sample_messages_for.
  - assert (packets = masked_packet <$> disguised) as ->.
    { rewrite (transmit_all one_stream neighbor (mkSender 0 neighbor) _ disguised) in E; try reflexivity.
      - apply (f_equal (λ o, match o with Ret (_, _, l) => l | Panic _ => [] end)) in E.
        symmetry. apply (list_fmap_eq_inj (QueuePacket (F:=JsonFramer) 0)); [by intros ? ? [=]|exact E].
      - apply sample_messages_for.
      - by repeat constructor. }
    destruct (Hrest 3%nat (Ok ∘ Ready ∘ length <$> disguised) []
      ((λ q, Ok (Ready (Some (masked_packet q)))) <$> disguised) (Ok NotReady)
      (mkUnsorted (mkStream [] [] (concat disguised)) (mkChannel [] (masked_packet <$> disguised)) None)
      (cut 9 (concat disguised)) 5%nat 7 neighbor incoming (Some 5000)) as (d & r & ibcds & Ed & Er & Edata & _).
    + vm_compute. reflexivity.
    + repeat constructor; discriminate.
    + discriminate.
    + reflexivity.
    + reflexivity.
    + by apply pieces_ok.
    + vm_compute. reflexivity.
    + cbn. lia.
    + injection Ed as <-. exists r, ibcds. split; [exact Er|exact Edata].
Defined.

(** An order to transmit to an address, and the pool's own answer to the question where it
    is *)
Definition order : TransmitDataMsg := mkTransmit (Socket neighbor) false None text_message.
Definition answered : DispatcherNodeQueryResponse :=
  mkQueryResponse (Some (mkNqrm (mkPublicKey []) (Some (NodeAddr_from_socket neighbor)) ZERO_RATE_PACK)) order.

Lemma opening_streams_are_being_opened_witness :
  let w := mkWorld (opening no_streams neighbor) [SpawnConnect (mkStreamStart neighbor (mkPublicKey []) answered)] in
  stream_writers (w_pool w) !! StreamWriterKey_from neighbor = Some None ∧ being_opened w.
Proof.
  cbv zeta. split; [vm_compute; reflexivity|].
  apply (opening_streams_are_being_opened factories JsonMasquerader).
  apply (rtc_l _ _ (mkWorld no_streams [ToSelfResponse answered])).
  - apply (step_transmit no_streams order no_streams [ToSelfResponse answered] []). reflexivity.
  - apply rtc_once.
    apply (step_event no_streams (opening no_streams neighbor) (ToSelfResponse answered) [] []
      [SpawnConnect (mkStreamStart neighbor (mkPublicKey []) answered)]).
    apply (event_response _ _ (Ok tt)). reflexivity.
Defined.

(** A stream to the neighbor, and one from it *)
Definition outgoing : AddStreamMsg JsonFramer :=
  mkAddStream (mkConnection 3 here neighbor) (Some 6000) (mkPortConfiguration factories true).
Definition accepted : AddStreamMsg JsonFramer :=
  mkAddStream (mkConnection 4 here incoming) (Some 6000) (mkPortConfiguration factories true).

Lemma closed_stream_takes_writer_witness :
  ∃ p' sent,
    (_ ← handle_add_stream_msg outgoing; _ ← handle_add_stream_msg accepted;
     handle_remove_stream_msg (mkRemoveStream here neighbor Clandestine)) no_streams =
      Ret (tt, p', sent ++ [ShutdownToDispatcher (mkShutdown neighbor Clandestine true)]) ∧
    stream_writers p' !! StreamWriterKey_from incoming = None ∧ 1%nat ∈ open_writers p'.
Proof.
  destruct (closed_stream_takes_writer no_streams outgoing accepted [json_discriminator] [json_discriminator] here)
    as (p' & sent & E & Hw & _ & Ho); try reflexivity; try discriminate.
  by exists p', sent.
Defined.

(** ** A frame that hides the next one *)

(** Two disguised messages arrive in one piece with an object before them that is no
    disguise: the reader takes it for the end of what there is.  The messages stay in the
    framer until the next piece comes, whatever it is. *)
Definition no_disguise : list Z := [OB; CB].

Definition peer_reader (reads : list (result (Async (list Z)) ErrorKind)) : StreamReaderReal JsonFramer :=
  mkNodeReader neighbor incoming (Some 5000) [json_discriminator] true Sequencer_new reads.

Definition heard (o : outcome (result (Async unit) unit * StreamReaderReal JsonFramer * list NodeReaderMessage)) :
    option (list (list Z)) :=
  match o with
  | Ret (_, _, sent) => Some (omap (λ m, match m with ReadClientData i => Some (ibcd_data i) | _ => None end) sent)
  | Panic _ => None
  end.

Example bad_frame_hides_the_next :
  heard (stream_reader_poll 9 7 (peer_reader [Ok (Ready (no_disguise ++ concat disguised))])) = Some [] ∧
  heard (stream_reader_poll 9 7 (peer_reader [Ok (Ready (no_disguise ++ concat disguised)); Ok (Ready [32])])) =
    Some [text_message; binary_message].
Proof. vm_compute. done. Qed.
End NodeStreamSamples.
