(* ===== verification/EntryDns.v ===== *)
(** * The DNS server of the node

    Models [node/src/entry_dns/packet_facade.rs], a view of a DNS packet in a buffer,
    [node/src/entry_dns/processing.rs], which answers every request for an address with
    the address of this computer, and [node/src/entry_dns/dns_socket_server.rs], which
    serves the packets of a UDP socket.

    A buffer is a list of bytes; reading or writing out of its range is a panic.  The
    methods that change the buffer return the new view.  What a method wrote before it
    gave up stays in the buffer, as in the code.  Strings are their UTF-8 bytes.  The
    numbers that [trust_dns] gives to operations, classes and types are parameters. *)

From S2P Require Import Prelude.
From S2P Require Import Bytes.
From S2P Require Import HttpFraming.
From S2P Require Import ProtocolPacks.

(** ** Data *)
Record Query := mkQuery { q_name : list Z; q_type : Z; q_class : Z; q_length : nat }.

Record ResourceRecord := mkRecord {
  rec_name : list Z;
  rec_type : Z;
  rec_class : Z;
  rec_time_to_live : Z;
  rec_rdata : list Z;
  rec_length : nat
}.

Record PacketFacade := mkFacade { pf_buf : list Z; pf_length : nat }.

Definition with_buf (buf : list Z) (f : PacketFacade) : PacketFacade := mkFacade buf (pf_length f).

(** [try_opt!] *)
Definition try_opt {A B} (m : outcome (option A)) (f : A → outcome (option B)) : outcome (option B) :=
  o ← m; match o with Some a => f a | None => mret None end.

(** ** Numbers in the buffer *)
Definition u16_from (buf : list Z) (start buflen : nat) : outcome (option Z) :=
  if (buflen <? start + 2)%nat then mret None
  else
    high ← byte_at buf start;
    low ← byte_at buf (start + 1);
    mret (Some (Z.shiftl high 8 + low)).

Definition u16_to (value : Z) (buf : list Z) (start : nat) : outcome (bool * list Z) :=
  if (length buf <? start + 2)%nat then mret (false, buf)
  else
    buf ← set_byte buf start (Z.shiftr value 8);
    buf ← set_byte buf (start + 1) (Z.land value 0xFF);
    mret (true, buf).

Definition u32_from (buf : list Z) (start buflen : nat) : outcome (option Z) :=
  try_opt (u16_from buf start buflen) (λ high_word,
  try_opt (u16_from buf (start + 2) buflen) (λ low_word,
  mret (Some (Z.lor (Z.shiftl high_word 16) low_word)))).

(** The results of the two writes are ignored. *)
Definition u32_to (value : Z) (buf : list Z) (start : nat) : outcome (bool * list Z) :=
  '(_, buf) ← u16_to (wrap 16 (Z.shiftr value 16)) buf start;
  '(_, buf) ← u16_to (Z.land value 0xFFFF) buf (start + 2);
  mret (true, buf).

(** ** Names: sequences of strings with their lengths, ended by a length of zero *)
Fixpoint find_string_seq_end_loop (fuel : nat) (buf : list Z) (local_offset buflen : nat) : outcome (option nat) :=
  match fuel with
  | O => Panic "out of fuel"
  | S fuel =>
      if (buflen <? local_offset)%nat then mret None
      else
        length ← byte_at buf local_offset;
        if length =? 0 then mret (Some (local_offset + 1)%nat)
        else find_string_seq_end_loop fuel buf (local_offset + (Z.to_nat length + 1))%nat buflen
  end.

Definition find_string_seq_end (buf : list Z) (offset buflen : nat) : outcome (option nat) :=
  find_string_seq_end_loop (S (S buflen)) buf offset buflen.

Definition DOT : Z := 46.

Fixpoint extract_string_seq_loop (fuel : nat) (buf : list Z) (local_offset buflen : nat) (result : list Z) :
    outcome (option (list Z * nat)) :=
  match fuel with
  | O => Panic "out of fuel"
  | S fuel =>
      if (buflen <=? local_offset)%nat then mret None
      else
        length ← byte_at buf local_offset;
        if length =? 0 then mret (Some (result, local_offset + 1)%nat)
        else
          let result := if decide (result = []) then result else result ++ [DOT] in
          let end_ := (local_offset + 1 + Z.to_nat length)%nat in
          if (buflen <? end_)%nat then mret None
          else
            part ← slice buf (local_offset + 1) end_;
            if valid_utf8 part then extract_string_seq_loop fuel buf end_ buflen (result ++ part) else mret None
  end.

Definition extract_string_seq (buf : list Z) (offset buflen : nat) : outcome (option (list Z * nat)) :=
  extract_string_seq_loop (S (S buflen)) buf offset buflen [].

Fixpoint add_strings (buf : list Z) (local_offset : nat) (strings : list (list Z)) : outcome (option nat * list Z) :=
  match strings with
  | [] => mret (Some local_offset, buf)
  | bytes :: strings =>
      if (length buf <? local_offset + length bytes + 1)%nat then mret (None, buf)
      else
        buf ← set_byte buf local_offset (u8 (Z.of_nat (length bytes)));
        buf ← put buf (local_offset + 1) bytes;
        add_strings buf (local_offset + (1 + length bytes)) strings
  end.

Definition add_string_seq (buf : list Z) (offset : nat) (string : list Z) : outcome (option nat * list Z) :=
  '(end_opt, buf) ← (if decide (string = []) then mret (Some offset, buf)
                     else add_strings buf offset (split_on DOT string));
  match end_opt with
  | None => mret (None, buf)
  | Some local_offset =>
      if (length buf <=? local_offset)%nat then mret (None, buf)
      else buf ← set_byte buf local_offset 0; mret (Some (local_offset + 1)%nat, buf)
  end.

(** ** [Query] and [ResourceRecord] *)
Definition Query_new (buf : list Z) (offset length : nat) : outcome (option Query) :=
  try_opt (extract_string_seq buf offset length) (λ '(name, name_end),
  try_opt (u16_from buf name_end length) (λ qtype,
  try_opt (u16_from buf (name_end + 2) length) (λ qclass,
  mret (Some (mkQuery name qtype qclass (name_end + 4 - offset)))))).

Definition query_find_end (buf : list Z) (offset length : nat) : outcome (option nat) :=
  try_opt (find_string_seq_end buf offset length) (λ string_end,
  let query_end := (string_end + 4)%nat in
  mret (if (length <? query_end)%nat then None else Some query_end)).

Definition ResourceRecord_new (buf : list Z) (offset buflen : nat) : outcome (option ResourceRecord) :=
  try_opt (extract_string_seq buf offset buflen) (λ '(name, name_end),
  try_opt (u16_from buf name_end buflen) (λ rtype,
  try_opt (u16_from buf (name_end + 2) buflen) (λ rclass,
  try_opt (u32_from buf (name_end + 4) buflen) (λ time_to_live,
  try_opt (u16_from buf (name_end + 8) buflen) (λ rdata_length,
  let rdata_begin := (name_end + 10)%nat in
  let rdata_end := (rdata_begin + Z.to_nat rdata_length)%nat in
  let length := (rdata_end - offset)%nat in
  if (buflen <? offset + length)%nat then mret None
  else
    rdata ← slice buf rdata_begin rdata_end;
    mret (Some (mkRecord name rtype rclass time_to_live rdata length))))))).

Definition record_find_end (buf : list Z) (offset length : nat) : outcome (option nat) :=
  try_opt (find_string_seq_end buf offset length) (λ name_end,
  try_opt (u16_from buf (name_end + 8) length) (λ rdata_length,
  let record_end := (name_end + 10 + Z.to_nat rdata_length)%nat in
  mret (if (length <? record_end)%nat then None else Some record_end))).

(** ** [PacketFacade]: the header *)
Definition get_transaction_id (f : PacketFacade) : outcome (option Z) := u16_from (pf_buf f) 0 (pf_length f).

Definition set_transaction_id (v : Z) (f : PacketFacade) : outcome (bool * PacketFacade) :=
  '(ok, buf) ← u16_to v (pf_buf f) 0; mret (ok, with_buf buf f).

Definition req_len_opt {T} (f : PacketFacade) (length : nat) (closure : outcome T) : outcome (option T) :=
  if ((pf_length f <? length) || (List.length (pf_buf f) <? length))%nat then mret None
  else t ← closure; mret (Some t).

(** [self.req_len_opt(len, || (self.buf[i] & mask) ...)] *)
Definition get_bits (len i : nat) (mask : Z) (f : PacketFacade) : outcome (option Z) :=
  req_len_opt f len (b ← byte_at (pf_buf f) i; mret (Z.land b mask)).

Definition get_flag (len i : nat) (mask : Z) (f : PacketFacade) : outcome (option bool) :=
  try_opt (get_bits len i mask f) (λ b, mret (Some (0 <? b))).

(** [self.buf[i] = (self.buf[i] & keep) | bits], if the buffer has [len] bytes *)
Definition set_bits (len i : nat) (keep bits : Z) (f : PacketFacade) : outcome (bool * PacketFacade) :=
  if (length (pf_buf f) <? len)%nat then mret (false, f)
  else
    b ← byte_at (pf_buf f) i;
    buf ← set_byte (pf_buf f) i (Z.lor (Z.land b keep) bits);
    mret (true, with_buf buf f).

Definition is_query (f : PacketFacade) : outcome (option bool) :=
  try_opt (get_bits 3 2 0x80 f) (λ b, mret (Some (b =? 0))).
Definition set_query (v : bool) := set_bits 3 2 0x7F (if v then 0x00 else 0x80).
Definition get_opcode (f : PacketFacade) : outcome (option Z) :=
  try_opt (get_bits 3 2 0x78 f) (λ b, mret (Some (Z.shiftr b 3))).
Definition set_opcode (v : Z) := set_bits 3 2 0x87 (u8 (Z.shiftl v 3)).
Definition is_authoritative_answer := get_flag 3 2 0x04.
Definition set_authoritative_answer (v : bool) := set_bits 3 2 0xFB (if v then 0x04 else 0x00).
Definition is_truncated := get_flag 3 2 0x02.
Definition set_truncated (v : bool) := set_bits 3 2 0xFD (if v then 0x02 else 0x00).
Definition is_recursion_desired := get_flag 3 2 0x01.
Definition set_recursion_desired (v : bool) := set_bits 3 2 0xFE (if v then 0x01 else 0x00).
Definition is_recursion_available := get_flag 4 3 0x80.
Definition set_recursion_available (v : bool) := set_bits 4 3 0x7F (if v then 0x80 else 0x00).
Definition get_z := get_flag 4 3 0x40.
Definition set_z (v : bool) := set_bits 4 3 0xBF (if v then 0x40 else 0x00).
Definition is_authenticated_data := get_flag 4 3 0x20.
Definition set_authenticated_data (v : bool) := set_bits 4 3 0xDF (if v then 0x20 else 0x00).
Definition is_checking_disabled := get_flag 4 3 0x10.
Definition set_checking_disabled (v : bool) := set_bits 4 3 0xEF (if v then 0x10 else 0x00).
Definition get_rcode := get_bits 4 3 0x0F.
Definition set_rcode (v : Z) := set_bits 4 3 0xF0 (Z.land v 0x0F).

(** ** Queries and records *)

(** [for _i in 0..count { offset = try_opt!(find_end(offset)); }] *)
Fixpoint find_ends (find_end : nat → outcome (option nat)) (count : nat) (offset : nat) : outcome (option nat) :=
  match count with
  | O => mret (Some offset)
  | S count => try_opt (find_end offset) (find_ends find_end count)
  end.

(** [for _i in 0..count { let x = try_opt!(read(offset)); offset += x.get_length(); result.push(x); }] *)
Fixpoint read_all {A} (read : nat → outcome (option A)) (size : A → nat) (count offset : nat) :
    outcome (option (list A)) :=
  match count with
  | O => mret (Some [])
  | S count =>
      try_opt (read offset) (λ x,
      try_opt (read_all read size count (offset + size x)%nat) (λ l, mret (Some (x :: l))))
  end.

Definition get_queries (f : PacketFacade) : outcome (option (list Query)) :=
  try_opt (u16_from (pf_buf f) 4 (pf_length f)) (λ count,
  read_all (λ offset, Query_new (pf_buf f) offset (pf_length f)) q_length (Z.to_nat count) 12).

Definition find_queries_end (f : PacketFacade) : outcome (option nat) :=
  try_opt (u16_from (pf_buf f) 4 (pf_length f)) (λ count,
  find_ends (λ offset, query_find_end (pf_buf f) offset (pf_length f)) (Z.to_nat count) 12).

(** The records of a section: the number of them is at [at_], the section before ends
    where [previous] says. *)
Definition get_records (at_ : nat) (previous : PacketFacade → outcome (option nat)) (f : PacketFacade) :
    outcome (option (list ResourceRecord)) :=
  try_opt (previous f) (λ offset,
  try_opt (u16_from (pf_buf f) at_ (pf_length f)) (λ count,
  read_all (λ offset, ResourceRecord_new (pf_buf f) offset (pf_length f)) rec_length (Z.to_nat count) offset)).

Definition find_records_end (at_ : nat) (previous : PacketFacade → outcome (option nat)) (f : PacketFacade) :
    outcome (option nat) :=
  try_opt (u16_from (pf_buf f) at_ (pf_length f)) (λ count,
  try_opt (previous f) (λ offset,
  find_ends (λ offset, record_find_end (pf_buf f) offset (pf_length f)) (Z.to_nat count) offset)).

Definition get_answers := get_records 6 find_queries_end.
Definition find_answers_end := find_records_end 6 find_queries_end.
Definition get_authorities := get_records 8 find_answers_end.
Definition find_authorities_end := find_records_end 8 find_answers_end.
Definition get_additionals := get_records 10 find_authorities_end.
Definition find_additionals_end := find_records_end 10 find_authorities_end.

Definition establish_high_water (candidate : nat) (f : PacketFacade) : PacketFacade :=
  mkFacade (pf_buf f) (pf_length f `max` candidate).

(** [let count = try_flg!(u16_from(..)) + 1; u16_to(count, ..); true]; the sum wraps. *)
Definition increment_count (at_ : nat) (f : PacketFacade) : outcome (bool * PacketFacade) :=
  count ← u16_from (pf_buf f) at_ (pf_length f);
  match count with
  | None => mret (false, f)
  | Some count => '(_, buf) ← u16_to (wrap 16 (count + 1)) (pf_buf f) at_; mret (true, with_buf buf f)
  end.

Definition add_query (name : list Z) (query_type query_class : Z) (f : PacketFacade) : outcome (bool * PacketFacade) :=
  offset_opt ← find_queries_end f;
  match offset_opt with
  | None => mret (false, f)
  | Some offset =>
      '(end_opt, buf) ← add_string_seq (pf_buf f) offset name;
      match end_opt with
      | None => mret (false, with_buf buf f)
      | Some offset =>
          '(ok, buf) ← u16_to query_type buf offset;
          if negb ok then mret (false, with_buf buf f)
          else
            '(ok, buf) ← u16_to query_class buf (offset + 2);
            if negb ok then mret (false, with_buf buf f)
            else increment_count 4 (establish_high_water (offset + 4) (with_buf buf f))
      end
  end.

Definition write_resource_record (start : nat) (name : list Z) (resource_type resource_class time_to_live : Z)
    (rdata : list Z) (f : PacketFacade) : outcome (option nat * PacketFacade) :=
  '(string_end_opt, buf) ← add_string_seq (pf_buf f) start name;
  match string_end_opt with
  | None => mret (None, with_buf buf f)
  | Some string_end =>
      '(ok, buf) ← u16_to resource_type buf string_end;
      if negb ok then mret (None, with_buf buf f)
      else
        '(ok, buf) ← u16_to resource_class buf (string_end + 2);
        if negb ok then mret (None, with_buf buf f)
        else
          '(ok, buf) ← u32_to time_to_live buf (string_end + 4);
          if negb ok then mret (None, with_buf buf f)
          else
            '(ok, buf) ← u16_to (wrap 16 (Z.of_nat (length rdata))) buf (string_end + 8);
            if negb ok then mret (None, with_buf buf f)
            else
              let rdata_begin := (string_end + 10)%nat in
              let rdata_end := (rdata_begin + length rdata)%nat in
              if (length buf <? rdata_end)%nat then mret (None, with_buf buf f)
              else
                buf ← put buf rdata_begin rdata;
                mret (Some (rdata_end - start)%nat, establish_high_water rdata_end (with_buf buf f))
  end.

Definition add_record (at_ : nat) (find_end : PacketFacade → outcome (option nat)) (name : list Z)
    (resource_type resource_class time_to_live : Z) (rdata : list Z) (f : PacketFacade) :
    outcome (bool * PacketFacade) :=
  begin_opt ← find_end f;
  match begin_opt with
  | None => mret (false, f)
  | Some begin_ =>
      '(written, f) ← write_resource_record begin_ name resource_type resource_class time_to_live rdata f;
      match written with
      | None => mret (false, f)
      | Some _ => increment_count at_ f
      end
  end.

Definition add_answer := add_record 6 find_answers_end.
Definition add_authority := add_record 8 find_authorities_end.
Definition add_additional := add_record 10 find_additionals_end.

(** [clear]: the results of the writes are ignored. *)
Definition clear (f : PacketFacade) : outcome PacketFacade :=
  '(_, buf) ← u16_to 0 (pf_buf f) 4;
  '(_, buf) ← u16_to 0 buf 6;
  '(_, buf) ← u16_to 0 buf 8;
  '(_, buf) ← u16_to 0 buf 10;
  mret (mkFacade buf 12).

(** ** [processing.rs] *)
Inductive RecordType := TypeA | TypeAAAA | OtherType.

Class TrustDns := {
  OpCode_Query : Z;
  ResponseCode_FormErr : Z;
  ResponseCode_NotImp : Z;
  DNSClass_IN : Z;
  RecordType_from : Z → RecordType
}.

Definition HEADER_BYTES : nat := 12.
Definition LOCALHOST_V4 : list Z := [127; 0; 0; 1].
Definition LOCALHOST_V6 : list Z := replicate 15 0 ++ [1].

Section Processing.
Context `{TrustDns}.

(** [set_query(false) && set_authoritative_answer(false) && ...] *)
Fixpoint all_ok (setters : list (PacketFacade → outcome (bool * PacketFacade))) (f : PacketFacade) :
    outcome (bool * PacketFacade) :=
  match setters with
  | [] => mret (true, f)
  | set :: setters => '(ok, f) ← set f; if ok : bool then all_ok setters f else mret (false, f)
  end.

Definition response_flags : list (PacketFacade → outcome (bool * PacketFacade)) :=
  [set_query false; set_authoritative_answer false; set_truncated false; set_recursion_available true;
   set_authenticated_data false; set_checking_disabled false].

(** The setters in turn, whatever they return. *)
Fixpoint all_done (setters : list (PacketFacade → outcome (bool * PacketFacade))) (f : PacketFacade) :
    outcome PacketFacade :=
  match setters with
  | [] => mret f
  | set :: setters => '(_, f) ← set f; all_done setters f
  end.

Definition make_error (response_code : Z) (f : PacketFacade) : outcome (nat * PacketFacade) :=
  f ← all_done (response_flags ++ [set_rcode response_code]) f;
  f ← clear f;
  mret (HEADER_BYTES, f).

Definition make_format_error : PacketFacade → outcome (nat * PacketFacade) := make_error ResponseCode_FormErr.
Definition make_not_implemented_error : PacketFacade → outcome (nat * PacketFacade) := make_error ResponseCode_NotImp.

(** The result of [add_answer] is ignored. *)
Fixpoint answer_queries (queries : list Query) (f : PacketFacade) : outcome (nat * PacketFacade) :=
  match queries with
  | [] => mret (pf_length f, f)
  | query :: queries =>
      if negb (q_class query =? DNSClass_IN) then make_not_implemented_error f
      else
        match RecordType_from (q_type query) with
        | TypeA =>
            '(_, f) ← add_answer (q_name query) (q_type query) DNSClass_IN 3600 LOCALHOST_V4 f;
            answer_queries queries f
        | TypeAAAA =>
            '(_, f) ← add_answer (q_name query) (q_type query) DNSClass_IN 3600 LOCALHOST_V6 f;
            answer_queries queries f
        | OtherType => make_not_implemented_error f
        end
  end.

Definition make_response (f : PacketFacade) : outcome (nat * PacketFacade) :=
  opcode ← get_opcode f;
  match opcode with
  | None => make_format_error f
  | Some opcode =>
      if opcode =? OpCode_Query then
        '(ok, f) ← all_ok response_flags f;
        if negb ok then make_format_error f
        else
          queries ← get_queries f;
          match queries with
          | None => make_format_error f
          | Some queries => answer_queries queries f
          end
      else make_not_implemented_error f
  end.

(** The queries of the request and the answers are read for the log. *)
Definition process (buf : list Z) (length : nat) : outcome (nat * list Z) :=
  let f := mkFacade buf length in
  _ ← get_opcode f;
  _ ← get_queries f;
  '(response_size, f) ← make_response f;
  _ ← get_rcode f;
  _ ← get_answers f;
  mret (response_size, pf_buf f).

(** ** [dns_socket_server.rs] *)

(** What [recv_from] gives: a datagram and its sender; [send_to] is a parameter that says
    whether the datagram could be sent. *)
Inductive RecvResult (A : Type) :=
  | RecvReady (datagram : list Z) (socket_addr : A)
  | RecvNotReady
  | RecvError.

Inductive PollResult := PollNotReady | PollError.

Definition DNS_PORT : Z := 53.
Definition BUFFER_SIZE : nat := Z.to_nat 65536.

(** [recv_from] writes into a fresh copy of the zeroed buffer; what does not fit is lost. *)
Definition recv_into (datagram : list Z) : list Z * nat :=
  let received := take BUFFER_SIZE datagram in
  (received ++ replicate (BUFFER_SIZE - length received) 0, length received).

(** The loop of [poll], with the results of the calls of [recv_from] in turn; the socket
    is not ready once they are used up.  What was sent is part of the result. *)
Fixpoint poll {A} (send_to : list Z → A → bool) (recv : list (RecvResult A)) :
    outcome (PollResult * list (list Z * A)) :=
  match recv with
  | [] | RecvNotReady _ :: _ => mret (PollNotReady, [])
  | RecvError _ :: _ => mret (PollError, [])
  | RecvReady _ datagram socket_addr :: recv =>
      let '(buffer, len) := recv_into datagram in
      '(response_length, buffer) ← process buffer len;
      response ← slice buffer 0 response_length;
      if negb (send_to response socket_addr) then mret (PollError, [])
      else '(result, sent) ← poll send_to recv; mret (result, (response, socket_addr) :: sent)
  end.
End Processing.
