(* ===== verification/EntryDnsFacts.v ===== *)
(** * The DNS server answers requests

    The bytes of names, queries and records, and what the operations of [EntryDns.v] do
    with them; the answers to requests for addresses; that no packet stops the server. *)

From S2P Require Import Prelude.
From S2P Require Import Bytes.
From S2P Require Import AutomapFacts.
From S2P Require Import HttpFraming.
From S2P Require Import ProtocolPacks.
From S2P Require Import EntryDns.

(** ** Writing into a buffer *)
Definition written (buf : list Z) (off : nat) (l : list Z) : list Z := take off buf ++ l ++ drop (off + length l) buf.

Lemma put_written buf off l : (off + length l ≤ length buf)%nat → put buf off l = Ret (written buf off l).
Proof. intros. unfold put. by rewrite decide_True. Qed.

Lemma set_byte_written buf i v : (i < length buf)%nat → set_byte buf i v = Ret (written buf i [v]).
Proof. intros. rewrite set_byte_put by done. apply put_written. cbn. lia. Qed.

Lemma length_written buf off l : (off + length l ≤ length buf)%nat → length (written buf off l) = length buf.
Proof. intros. unfold written. rewrite !length_app, length_take, length_drop. lia. Qed.

Lemma written_app buf off l1 l2 :
  (off + length l1 + length l2 ≤ length buf)%nat →
  written (written buf off l1) (off + length l1) l2 = written buf off (l1 ++ l2).
Proof.
  intros Hlen. pose proof (put_app buf off l1 l2) as Hp.
  rewrite (put_written buf off l1) in Hp by lia. cbn in Hp.
  rewrite put_written in Hp by (rewrite length_written; lia).
  rewrite put_written in Hp by (rewrite length_app; lia). by injection Hp.
Qed.

(** What is before the place stays, and of the rest what is not overwritten. *)
Lemma written_at pre post l :
  (length l ≤ length post)%nat → written (pre ++ post) (length pre) l = pre ++ l ++ drop (length l) post.
Proof.
  intros Hl. unfold written. rewrite take_app_length. do 2 f_equal.
  rewrite drop_app_ge by lia. f_equal. lia.
Qed.

Lemma take_written buf off l n :
  (n ≤ off)%nat → (off ≤ length buf)%nat → take n (written buf off l) = take n buf.
Proof.
  intros Hn Hoff. unfold written. rewrite take_app_le by (rewrite length_take; lia).
  by rewrite take_take, Nat.min_l by lia.
Qed.

Lemma byte_at_app pre b post : byte_at (pre ++ b :: post) (length pre) = Ret b.
Proof. unfold byte_at. by rewrite list_lookup_middle. Qed.

Lemma byte_at_lt buf i : (i < length buf)%nat → ∃ b, byte_at buf i = Ret b.
Proof. intros [b Hb]%lookup_lt_is_Some. exists b. unfold byte_at. by rewrite Hb. Qed.

(** ** Numbers *)
Definition u16_ok (v : Z) : Prop := 0 ≤ v < 2 ^ 16.

Lemma length_be16 v : length (be16 v) = 2%nat.
Proof. apply length_parts. Qed.
Lemma length_be32 v : length (be32 v) = 4%nat.
Proof. apply length_parts. Qed.

Lemma u16_from_be16 pre v post buflen :
  u16_ok v → (length pre + 2 ≤ buflen)%nat →
  u16_from (pre ++ be16 v ++ post) (length pre) buflen = Ret (Some v).
Proof.
  intros Hv Hlen. unfold u16_from. rewrite (proj2 (Nat.ltb_ge _ _)) by lia. rewrite be16_eq. cbn [app].
  rewrite byte_at_app. cbn.
  replace (pre ++ (v / 256) mod 256 :: v mod 256 :: post)
    with ((pre ++ [(v / 256) mod 256]) ++ v mod 256 :: post) by by rewrite <-app_assoc.
  replace (length pre + 1)%nat with (length (pre ++ [(v / 256) mod 256])) by (rewrite length_app; cbn; lia).
  rewrite byte_at_app. cbn. by rewrite be16_value.
Qed.

Lemma u16_to_written v buf start :
  u16_ok v → (start + 2 ≤ length buf)%nat → u16_to v buf start = Ret (true, written buf start (be16 v)).
Proof.
  unfold u16_ok. intros Hv Hlen. unfold u16_to. rewrite (proj2 (Nat.ltb_ge _ _)) by lia.
  rewrite set_byte_written by lia. run_outcome.
  rewrite set_byte_written by (rewrite length_written; cbn; lia). run_outcome.
  replace (start + 1)%nat with (start + length [Z.shiftr v 8])%nat by done.
  rewrite written_app by (cbn; lia). rewrite be16_eq, land_byte, Z.shiftr_div_pow2 by lia. cbn [app].
  do 4 f_equal. rewrite Z.mod_small; [done|]. split; [apply Z.div_pos; lia|apply Z.div_lt_upper_bound; lia].
Qed.

Lemma be32_split v : 0 ≤ v < 2 ^ 32 → be32 v = be16 (Z.shiftr v 16) ++ be16 (v mod 2 ^ 16).
Proof.
  intros Hv. rewrite be32_eq, !be16_eq. cbn [app]. rewrite Z.shiftr_div_pow2 by lia.
  rewrite Z.div_div by lia. change (2 ^ 16 * 256) with (2 ^ 24). change (2 ^ 16) with (256 * 256).
  rewrite Z.rem_mul_r by lia. f_equal. f_equal.
  assert ((v mod 256 + 256 * ((v / 256) mod 256)) / 256 = (v / 256) mod 256) as ->.
  { rewrite Z.mul_comm, Z.div_add by lia. rewrite Z.div_small by (apply Z.mod_pos_bound; lia). lia. }
  rewrite Z.mod_mod by lia. f_equal.
  rewrite Z.mul_comm, Z.mod_add by lia. by rewrite Z.mod_mod by lia.
Qed.

Lemma shiftr_16_ok v : 0 ≤ v < 2 ^ 32 → u16_ok (Z.shiftr v 16).
Proof.
  intros Hv. unfold u16_ok. rewrite Z.shiftr_div_pow2 by lia.
  split; [apply Z.div_pos; lia|apply Z.div_lt_upper_bound; lia].
Qed.

Lemma mod_16_ok v : u16_ok (v mod 2 ^ 16).
Proof. apply Z.mod_pos_bound. lia. Qed.

Lemma u32_to_written v buf start :
  0 ≤ v < 2 ^ 32 → (start + 4 ≤ length buf)%nat → u32_to v buf start = Ret (true, written buf start (be32 v)).
Proof.
  intros Hv Hlen. unfold u32_to. pose proof (shiftr_16_ok v Hv). unfold wrap.
  rewrite Z.mod_small by done. rewrite u16_to_written by (done || lia). run_outcome.
  change 0xFFFF with (Z.ones 16). rewrite Z.land_ones by lia.
  rewrite u16_to_written by (apply mod_16_ok || (rewrite length_written; rewrite ?length_be16; lia)).
  run_outcome. replace (start + 2)%nat with (start + length (be16 (Z.shiftr v 16)))%nat by by rewrite length_be16.
  rewrite written_app by (rewrite !length_be16; lia). by rewrite be32_split.
Qed.

Lemma u32_from_be32 pre v post buflen :
  0 ≤ v < 2 ^ 32 → (length pre + 4 ≤ buflen)%nat →
  u32_from (pre ++ be32 v ++ post) (length pre) buflen = Ret (Some v).
Proof.
  intros Hv Hlen. unfold u32_from, try_opt. rewrite be32_split by done. rewrite <-app_assoc.
  rewrite u16_from_be16 by (lia || by apply shiftr_16_ok). run_outcome.
  rewrite (app_assoc pre). replace (length pre + 2)%nat with (length (pre ++ be16 (Z.shiftr v 16)))
    by (rewrite length_app, length_be16; lia).
  rewrite u16_from_be16 by (apply mod_16_ok || (rewrite length_app, length_be16; lia)). run_outcome. do 2 f_equal.
  rewrite Z.shiftl_mul_pow2, Z.shiftr_div_pow2 by lia. rewrite <-Z.land_ones by lia.
  apply Z.bits_inj'. intros n Hn. rewrite Z.lor_spec, Z.land_spec, Z.testbit_ones_nonneg by lia.
  rewrite <-Z.shiftr_div_pow2, <-Z.shiftl_mul_pow2 by lia.
  destruct (Z.ltb_spec n 16) as [Hlt|Hge].
  - rewrite Z.shiftl_spec_low by lia. by rewrite andb_true_r.
  - rewrite Z.shiftl_spec, Z.shiftr_spec by lia. rewrite andb_false_r, orb_false_r. f_equal. lia.
Qed.

(** ** Names *)
Definition label_bytes (l : list Z) : list Z := Z.of_nat (length l) :: l.
Definition labels_bytes (labels : list (list Z)) : list Z := concat (label_bytes <$> labels).
Definition name_bytes (labels : list (list Z)) : list Z := labels_bytes labels ++ [0].

(** The name as text, the labels separated by dots. *)
Fixpoint dotted_from (result : list Z) (labels : list (list Z)) : list Z :=
  match labels with
  | [] => result
  | l :: labels => dotted_from ((if decide (result = []) then result else result ++ [DOT]) ++ l) labels
  end.
Definition dotted : list (list Z) → list Z := dotted_from [].

Record label_ok (l : list Z) : Prop := {
  lo_some : l ≠ [];
  lo_length : (length l < 256)%nat;
  lo_text : valid_utf8 l = true;
  lo_no_dot : DOT ∉ l
}.

Lemma labels_bytes_cons l labels : labels_bytes (l :: labels) = label_bytes l ++ labels_bytes labels.
Proof. done. Qed.

Lemma length_labels_bytes labels : (length labels ≤ length (labels_bytes labels))%nat.
Proof. induction labels as [|l labels IH]; [done|]. rewrite labels_bytes_cons, length_app. cbn. lia. Qed.

Lemma length_name_bytes labels : length (name_bytes labels) = S (length (labels_bytes labels)).
Proof. unfold name_bytes. rewrite length_app. cbn. lia. Qed.

(** A buffer that holds a label, and the rest of it *)
Lemma label_in_buffer pre l labels post :
  pre ++ name_bytes (l :: labels) ++ post = (pre ++ label_bytes l) ++ name_bytes labels ++ post.
Proof. unfold name_bytes. rewrite labels_bytes_cons. by rewrite <-!app_assoc. Qed.

Lemma label_length_neqb (l : list Z) : l ≠ [] → (Z.of_nat (length l) =? 0) = false.
Proof. intros Hl. apply Z.eqb_neq. destruct l; cbn; [done|lia]. Qed.

Lemma byte_at_label pre l rest : byte_at ((pre ++ label_bytes l) ++ rest) (length pre) = Ret (Z.of_nat (length l)).
Proof. unfold label_bytes. rewrite <-app_assoc. cbn [app]. apply byte_at_app. Qed.

Lemma slice_label pre l rest :
  slice ((pre ++ label_bytes l) ++ rest) (length pre + 1) (length pre + 1 + length l) = Ret l.
Proof.
  unfold slice. rewrite decide_True by (rewrite !length_app; cbn; lia).
  replace (length pre + 1 + length l - (length pre + 1))%nat with (length l) by lia. f_equal.
  unfold label_bytes. rewrite <-app_assoc, drop_app_ge by lia.
  replace (length pre + 1 - length pre)%nat with 1%nat by lia. cbn [app drop]. apply take_app_length.
Qed.

Lemma length_name_bytes_cons l labels :
  length (name_bytes (l :: labels)) = S (length l + length (name_bytes labels)).
Proof. rewrite !length_name_bytes, labels_bytes_cons, length_app. cbn. lia. Qed.

Lemma length_label pre l : length (pre ++ label_bytes l) = (length pre + 1 + length l)%nat.
Proof. rewrite length_app. cbn. lia. Qed.

Lemma find_string_seq_end_names labels fuel pre post buflen :
  Forall label_ok labels → (length labels < fuel)%nat → (length pre + length (name_bytes labels) ≤ buflen)%nat →
  find_string_seq_end_loop fuel (pre ++ name_bytes labels ++ post) (length pre) buflen =
  Ret (Some (length pre + length (name_bytes labels))%nat).
Proof.
  revert fuel pre. induction labels as [|l labels IH]; intros [|fuel] pre Hl Hf Hlen; try (cbn in Hf; lia);
    cbn [find_string_seq_end_loop]; rewrite (proj2 (Nat.ltb_ge _ _)) by lia.
  - cbn [name_bytes labels_bytes fmap list_fmap concat app]. by rewrite byte_at_app.
  - apply Forall_cons in Hl as [[Hl _ _ _] Hls]. rewrite length_name_bytes_cons in *.
    rewrite label_in_buffer, byte_at_label. run_outcome. rewrite label_length_neqb by done.
    replace (length pre + (Z.to_nat (Z.of_nat (length l)) + 1))%nat with (length (pre ++ label_bytes l))
      by (rewrite length_label; lia).
    cbn in Hf. rewrite IH by (done || rewrite ?length_label; lia). do 2 f_equal. rewrite length_label. lia.
Qed.

Lemma extract_names labels fuel pre post buflen result :
  Forall label_ok labels → (length labels < fuel)%nat → (length pre + length (name_bytes labels) ≤ buflen)%nat →
  extract_string_seq_loop fuel (pre ++ name_bytes labels ++ post) (length pre) buflen result =
  Ret (Some (dotted_from result labels, length pre + length (name_bytes labels))%nat).
Proof.
  revert fuel pre result. induction labels as [|l labels IH]; intros [|fuel] pre result Hl Hf Hlen; try (cbn in Hf; lia);
    cbn [extract_string_seq_loop]; rewrite (proj2 (Nat.leb_gt _ _)) by (rewrite length_name_bytes in Hlen; lia).
  - cbn [name_bytes labels_bytes fmap list_fmap concat app]. by rewrite byte_at_app.
  - apply Forall_cons in Hl as [[Hl _ Hutf _] Hls]. rewrite length_name_bytes_cons in *.
    rewrite label_in_buffer, byte_at_label. run_outcome. rewrite label_length_neqb by done. rewrite Nat2Z.id.
    rewrite (proj2 (Nat.ltb_ge _ _)) by lia. rewrite slice_label. run_outcome. rewrite Hutf.
    rewrite <-length_label. cbn in Hf. rewrite IH by (done || rewrite ?length_label; lia).
    cbn [dotted_from]. do 3 f_equal. rewrite length_label. lia.
Qed.

Lemma find_string_seq_end_spec labels pre post buflen :
  Forall label_ok labels → (length pre + length (name_bytes labels) ≤ buflen)%nat →
  find_string_seq_end (pre ++ name_bytes labels ++ post) (length pre) buflen =
  Ret (Some (length pre + length (name_bytes labels))%nat).
Proof.
  intros Hl Hlen. apply find_string_seq_end_names; [done| |done].
  rewrite length_name_bytes in Hlen. pose proof (length_labels_bytes labels). lia.
Qed.

Lemma extract_string_seq_spec labels pre post buflen :
  Forall label_ok labels → (length pre + length (name_bytes labels) ≤ buflen)%nat →
  extract_string_seq (pre ++ name_bytes labels ++ post) (length pre) buflen =
  Ret (Some (dotted labels, length pre + length (name_bytes labels))%nat).
Proof.
  intros Hl Hlen. apply extract_names; [done| |done].
  rewrite length_name_bytes in Hlen. pose proof (length_labels_bytes labels). lia.
Qed.

(** *** Writing a name *)
Lemma split_on_cons c l : ∃ part parts, split_on c l = part :: parts.
Proof.
  induction l as [|b l (part & parts & E)]; cbn; [by eexists _, _|]. rewrite E. destruct (b =? c); by eexists _, _.
Qed.

Lemma split_on_app c l rest : c ∉ l → split_on c (l ++ c :: rest) = l :: split_on c rest.
Proof.
  destruct (split_on_cons c rest) as (part & parts & E).
  induction l as [|b l IH]; intros Hc; cbn; [rewrite E; by rewrite Z.eqb_refl|].
  apply not_elem_of_cons in Hc as [Hb Hc]. rewrite IH by done. by rewrite (proj2 (Z.eqb_neq _ _)).
Qed.

Lemma split_on_whole c l : c ∉ l → split_on c l = [l].
Proof.
  induction l as [|b l IH]; intros Hc; [done|]. apply not_elem_of_cons in Hc as [Hb Hc]. cbn.
  rewrite IH by done. by rewrite (proj2 (Z.eqb_neq _ _)).
Qed.

Lemma dotted_from_app result rest labels :
  rest ≠ [] → dotted_from (result ++ rest) labels = result ++ dotted_from rest labels.
Proof.
  revert rest. induction labels as [|l labels IH]; intros rest Hr; [done|]. cbn [dotted_from].
  rewrite !decide_False by (destruct result; by destruct rest). rewrite <-!app_assoc. apply IH. by destruct rest.
Qed.

Lemma split_on_dotted labels : Forall label_ok labels → labels ≠ [] → split_on DOT (dotted labels) = labels.
Proof.
  unfold dotted. intros Hl Hne. destruct labels as [|l labels]; [done|]. cbn [dotted_from]. rewrite decide_True by done.
  cbn [app]. clear Hne. revert l Hl. induction labels as [|l' labels IH]; intros l Hl; cbn [dotted_from].
  - apply Forall_cons in Hl as [[_ _ _ Hd] _]. by apply split_on_whole.
  - apply Forall_cons in Hl as [[Hl _ _ Hd] Hls]. rewrite decide_False by done.
    pose proof Hls as [[Hl' _ _ _] _]%Forall_cons.
    rewrite <-app_assoc. cbn [app]. change (l ++ DOT :: l') with (l ++ [DOT] ++ l').
    rewrite app_assoc, dotted_from_app by done. rewrite <-app_assoc. cbn [app].
    rewrite split_on_app by done. by rewrite IH.
Qed.

Lemma dotted_nonempty labels : Forall label_ok labels → labels ≠ [] → dotted labels ≠ [].
Proof.
  intros Hl Hne E. pose proof (split_on_dotted labels Hl Hne) as Hs. rewrite E in Hs. cbn in Hs.
  subst labels. apply Forall_cons in Hl as [[Hl _ _ _] _]. done.
Qed.

Lemma add_strings_written labels buf off :
  Forall label_ok labels → (off + length (labels_bytes labels) ≤ length buf)%nat →
  add_strings buf off labels = Ret (Some (off + length (labels_bytes labels))%nat, written buf off (labels_bytes labels)).
Proof.
  revert buf off. induction labels as [|l labels IH]; intros buf off Hl Hlen; cbn [add_strings].
  - cbn. unfold written. cbn. rewrite Nat.add_0_r. by rewrite take_drop.
  - apply Forall_cons in Hl as [[_ Hlt _ _] Hls]. rewrite labels_bytes_cons, length_app in *. cbn [length label_bytes] in Hlen.
    rewrite (proj2 (Nat.ltb_ge _ _)) by lia. unfold u8. rewrite Z.mod_small by lia.
    rewrite set_byte_written by lia. run_outcome.
    rewrite put_written by (rewrite length_written; cbn; lia). run_outcome.
    replace (off + 1)%nat with (off + length [Z.of_nat (length l)])%nat by done.
    rewrite written_app by (cbn; lia). cbn [app].
    rewrite IH by (done || (rewrite length_written; cbn [length]; lia)).
    replace (off + (1 + length l))%nat with (off + length (label_bytes l))%nat by done.
    rewrite written_app by (cbn [length label_bytes]; lia). do 3 f_equal. cbn [length label_bytes]. lia.
Qed.

Lemma add_string_seq_written labels buf off :
  Forall label_ok labels → (off + length (name_bytes labels) ≤ length buf)%nat →
  add_string_seq buf off (dotted labels) =
  Ret (Some (off + length (name_bytes labels))%nat, written buf off (name_bytes labels)).
Proof.
  intros Hl Hlen. unfold add_string_seq. rewrite length_name_bytes in *.
  assert ((if decide (dotted labels = []) then mret (Some off, buf) else add_strings buf off (split_on DOT (dotted labels)))
    = Ret (Some (off + length (labels_bytes labels))%nat, written buf off (labels_bytes labels))) as ->.
  { destruct labels as [|l labels].
    - cbn. unfold written. cbn. rewrite Nat.add_0_r. by rewrite take_drop.
    - rewrite decide_False by by apply dotted_nonempty. rewrite split_on_dotted by done. apply add_strings_written; [done|lia]. }
  run_outcome. rewrite length_written by lia. rewrite (proj2 (Nat.leb_gt _ _)) by lia.
  rewrite set_byte_written by (rewrite length_written; lia). run_outcome.
  rewrite written_app by (cbn; lia). do 3 f_equal. lia.
Qed.

(** ** Queries and records *)
Record Question := mkQuestion { qn_labels : list (list Z); qn_type : Z; qn_class : Z }.

Record question_ok (q : Question) : Prop := {
  qo_labels : Forall label_ok (qn_labels q);
  qo_type : u16_ok (qn_type q);
  qo_class : u16_ok (qn_class q)
}.

Definition query_bytes (q : Question) : list Z := name_bytes (qn_labels q) ++ be16 (qn_type q) ++ be16 (qn_class q).
Definition query_view (q : Question) : Query :=
  mkQuery (dotted (qn_labels q)) (qn_type q) (qn_class q) (length (query_bytes q)).

Record Answer := mkAnswer {
  an_labels : list (list Z);
  an_type : Z;
  an_class : Z;
  an_ttl : Z;
  an_rdata : list Z
}.

Record answer_ok (a : Answer) : Prop := {
  ao_labels : Forall label_ok (an_labels a);
  ao_type : u16_ok (an_type a);
  ao_class : u16_ok (an_class a);
  ao_ttl : 0 ≤ an_ttl a < 2 ^ 32;
  ao_rdata : u16_ok (Z.of_nat (length (an_rdata a)))
}.

Definition answer_bytes (a : Answer) : list Z :=
  name_bytes (an_labels a) ++ be16 (an_type a) ++ be16 (an_class a) ++ be32 (an_ttl a) ++
  be16 (Z.of_nat (length (an_rdata a))) ++ an_rdata a.
Definition answer_view (a : Answer) : ResourceRecord :=
  mkRecord (dotted (an_labels a)) (an_type a) (an_class a) (an_ttl a) (an_rdata a) (length (answer_bytes a)).

Lemma length_query_bytes q : length (query_bytes q) = (length (name_bytes (qn_labels q)) + 4)%nat.
Proof. unfold query_bytes. rewrite !length_app, !length_be16. lia. Qed.

Lemma length_answer_bytes a :
  length (answer_bytes a) = (length (name_bytes (an_labels a)) + 10 + length (an_rdata a))%nat.
Proof. unfold answer_bytes. rewrite !length_app, !length_be16, length_be32. lia. Qed.

Ltac lengths := rewrite ?length_app, ?length_be16, ?length_be32 in *; lia.

(** Reading on: the places of the numbers are given by what is before them. *)
Lemma try_u16 {B} pre v post buflen start (f : Z → outcome (option B)) :
  u16_ok v → (length pre + 2 ≤ buflen)%nat → start = length pre →
  try_opt (u16_from (pre ++ be16 v ++ post) start buflen) f = f v.
Proof. intros ?? ->. unfold try_opt. by rewrite u16_from_be16. Qed.

Lemma try_u32 {B} pre v post buflen start (f : Z → outcome (option B)) :
  0 ≤ v < 2 ^ 32 → (length pre + 4 ≤ buflen)%nat → start = length pre →
  try_opt (u32_from (pre ++ be32 v ++ post) start buflen) f = f v.
Proof. intros ?? ->. unfold try_opt. by rewrite u32_from_be32. Qed.

Lemma try_name {B} labels pre post buflen (f : list Z * nat → outcome (option B)) :
  Forall label_ok labels → (length pre + length (name_bytes labels) ≤ buflen)%nat →
  try_opt (extract_string_seq (pre ++ name_bytes labels ++ post) (length pre) buflen) f =
  f (dotted labels, length pre + length (name_bytes labels))%nat.
Proof. intros. unfold try_opt. by rewrite extract_string_seq_spec. Qed.

Lemma try_name_end {B} labels pre post buflen (f : nat → outcome (option B)) :
  Forall label_ok labels → (length pre + length (name_bytes labels) ≤ buflen)%nat →
  try_opt (find_string_seq_end (pre ++ name_bytes labels ++ post) (length pre) buflen) f =
  f (length pre + length (name_bytes labels))%nat.
Proof. intros. unfold try_opt. by rewrite find_string_seq_end_spec. Qed.

Ltac read_on lem := etrans; [apply lem; (done || lengths)|cbn beta iota].

Lemma Query_new_spec q pre post len :
  question_ok q → (length pre + length (query_bytes q) ≤ len)%nat →
  Query_new (pre ++ query_bytes q ++ post) (length pre) len = Ret (Some (query_view q)).
Proof.
  intros [Hl Ht Hc] Hlen. unfold query_view. rewrite length_query_bytes in *. unfold Query_new, query_bytes.
  rewrite <-!app_assoc. read_on @try_name. rewrite app_assoc. read_on @try_u16.
  rewrite (app_assoc _ (be16 (qn_type q))). read_on @try_u16. unfold mret, outcome_ret. do 3 f_equal. lia.
Qed.

Lemma query_find_end_spec q pre post len :
  question_ok q → (length pre + length (query_bytes q) ≤ len)%nat →
  query_find_end (pre ++ query_bytes q ++ post) (length pre) len = Ret (Some (length pre + length (query_bytes q))%nat).
Proof.
  intros [Hl Ht Hc] Hlen. rewrite length_query_bytes in *. unfold query_find_end, query_bytes.
  rewrite <-!app_assoc. read_on @try_name_end. rewrite (proj2 (Nat.ltb_ge _ _)) by lia. unfold mret, outcome_ret.
  do 2 f_equal. lia.
Qed.

Lemma ResourceRecord_new_spec a pre post len :
  answer_ok a → (length pre + length (answer_bytes a) ≤ len)%nat →
  ResourceRecord_new (pre ++ answer_bytes a ++ post) (length pre) len = Ret (Some (answer_view a)).
Proof.
  intros [Hl Ht Hc Httl Hrd] Hlen. unfold answer_view. rewrite length_answer_bytes in *.
  unfold ResourceRecord_new, answer_bytes. rewrite <-!app_assoc. read_on @try_name.
  rewrite app_assoc. read_on @try_u16. rewrite (app_assoc _ (be16 (an_type a))). read_on @try_u16.
  rewrite (app_assoc _ (be16 (an_class a))). read_on @try_u32.
  rewrite (app_assoc _ (be32 (an_ttl a))). read_on @try_u16.
  rewrite Nat2Z.id. rewrite (proj2 (Nat.ltb_ge _ _)) by lia.
  rewrite (app_assoc _ (be16 (Z.of_nat _))). unfold slice. rewrite decide_True by lengths. run_outcome.
  replace (length pre + length (name_bytes (an_labels a)) + 10 + length (an_rdata a) -
    (length pre + length (name_bytes (an_labels a)) + 10))%nat with (length (an_rdata a)) by lia.
  rewrite drop_app_length' by lengths. rewrite take_app_length. do 3 f_equal. lia.
Qed.

Lemma record_find_end_spec a pre post len :
  answer_ok a → (length pre + length (answer_bytes a) ≤ len)%nat →
  record_find_end (pre ++ answer_bytes a ++ post) (length pre) len = Ret (Some (length pre + length (answer_bytes a))%nat).
Proof.
  intros [Hl Ht Hc Httl Hrd] Hlen. rewrite length_answer_bytes in *. unfold record_find_end, answer_bytes.
  rewrite <-!app_assoc. read_on @try_name_end.
  rewrite (app_assoc pre), (app_assoc _ (be16 (an_type a))), (app_assoc _ (be16 (an_class a))), (app_assoc _ (be32 (an_ttl a))).
  read_on @try_u16. rewrite Nat2Z.id. rewrite (proj2 (Nat.ltb_ge _ _)) by lia. unfold mret, outcome_ret.
  do 2 f_equal. lia.
Qed.

Lemma write_resource_record_spec a buf len start :
  answer_ok a → (start + length (answer_bytes a) ≤ length buf)%nat →
  write_resource_record start (dotted (an_labels a)) (an_type a) (an_class a) (an_ttl a) (an_rdata a) (mkFacade buf len) =
  Ret (Some (length (answer_bytes a)),
       mkFacade (written buf start (answer_bytes a)) (len `max` (start + length (answer_bytes a)))).
Proof.
  intros [Hl Ht Hc Httl Hrd] Hlen. pose proof (length_answer_bytes a) as El. unfold write_resource_record. cbn [pf_buf].
  rewrite add_string_seq_written by (done || lia). run_outcome.
  rewrite u16_to_written by (done || (rewrite length_written; lia)). run_outcome. cbn [negb].
  rewrite written_app by (rewrite length_be16; lia).
  replace (start + length (name_bytes (an_labels a)) + 2)%nat
    with (start + length (name_bytes (an_labels a) ++ be16 (an_type a)))%nat by lengths.
  rewrite u16_to_written by (done || (rewrite length_written; lengths)). run_outcome. cbn [negb].
  rewrite written_app by lengths. rewrite <-app_assoc.
  replace (start + length (name_bytes (an_labels a)) + 4)%nat
    with (start + length (name_bytes (an_labels a) ++ be16 (an_type a) ++ be16 (an_class a)))%nat by lengths.
  rewrite u32_to_written by (done || (rewrite length_written; lengths)). run_outcome. cbn [negb].
  rewrite written_app by lengths. rewrite <-!app_assoc.
  replace (start + length (name_bytes (an_labels a)) + 8)%nat
    with (start + length (name_bytes (an_labels a) ++ be16 (an_type a) ++ be16 (an_class a) ++ be32 (an_ttl a)))%nat
    by lengths.
  unfold wrap. rewrite (Z.mod_small (Z.of_nat _)) by done.
  rewrite u16_to_written by (done || (rewrite length_written; lengths)). run_outcome. cbn [negb].
  rewrite written_app by lengths. rewrite <-!app_assoc. rewrite length_written by lengths.
  rewrite (proj2 (Nat.ltb_ge _ _)) by lia. rewrite put_written by (rewrite length_written; lengths). run_outcome.
  replace (start + length (name_bytes (an_labels a)) + 10)%nat
    with (start + length (name_bytes (an_labels a) ++ be16 (an_type a) ++ be16 (an_class a) ++ be32 (an_ttl a) ++
            be16 (Z.of_nat (length (an_rdata a)))))%nat by lengths.
  rewrite written_app by lengths. rewrite <-!app_assoc. unfold establish_high_water. cbn [pf_buf pf_length with_buf].
  fold (answer_bytes a). do 4 f_equal; lengths.
Qed.

(** ** Packets *)
Definition header (id flags2 flags3 queries answers : Z) : list Z :=
  be16 id ++ [flags2; flags3] ++ be16 queries ++ be16 answers ++ be16 0 ++ be16 0.

Definition packet (id flags2 flags3 : Z) (qs : list Question) (ans : list Answer) : list Z :=
  header id flags2 flags3 (Z.of_nat (length qs)) (Z.of_nat (length ans)) ++
  concat (query_bytes <$> qs) ++ concat (answer_bytes <$> ans).

Lemma length_header id f2 f3 nq na : length (header id f2 f3 nq na) = 12%nat.
Proof. unfold header. rewrite !length_app, !length_be16. done. Qed.

Lemma find_ends_concat {X} (bytes : X → list Z) (fe : list Z → nat → nat → outcome (option nat)) xs pre post len :
  (∀ x pre post, x ∈ xs → (length pre + length (bytes x) ≤ len)%nat →
     fe (pre ++ bytes x ++ post) (length pre) len = Ret (Some (length pre + length (bytes x))%nat)) →
  (length pre + length (concat (bytes <$> xs)) ≤ len)%nat →
  find_ends (λ o, fe (pre ++ concat (bytes <$> xs) ++ post) o len) (length xs) (length pre) =
  Ret (Some (length pre + length (concat (bytes <$> xs)))%nat).
Proof.
  revert pre. induction xs as [|x xs IH]; intros pre Hfe Hlen; [cbn; by rewrite Nat.add_0_r|].
  rewrite fmap_cons in *. cbn [concat length find_ends] in *. rewrite length_app in *. unfold try_opt.
  rewrite <-app_assoc. rewrite Hfe by (set_solver || lia). run_outcome. rewrite app_assoc.
  replace (length pre + length (bytes x))%nat with (length (pre ++ bytes x)) by by rewrite length_app.
  rewrite IH; [do 2 f_equal; lengths| |lengths]. intros y pre' post' Hy. apply Hfe. set_solver.
Qed.

Lemma read_all_concat {X A} (bytes : X → list Z) (view : X → A) (size : A → nat)
    (read : list Z → nat → nat → outcome (option A)) xs pre post len :
  (∀ x pre post, x ∈ xs → (length pre + length (bytes x) ≤ len)%nat →
     read (pre ++ bytes x ++ post) (length pre) len = Ret (Some (view x))) →
  (∀ x, size (view x) = length (bytes x)) →
  (length pre + length (concat (bytes <$> xs)) ≤ len)%nat →
  read_all (λ o, read (pre ++ concat (bytes <$> xs) ++ post) o len) size (length xs) (length pre) = Ret (Some (view <$> xs)).
Proof.
  intros Hread Hsize. revert pre Hread. induction xs as [|x xs IH]; intros pre Hread Hlen; [done|].
  rewrite fmap_cons in *. cbn [concat length read_all fmap list_fmap] in *. unfold try_opt.
  rewrite <-app_assoc in *. rewrite Hread by (set_solver || lengths). run_outcome. rewrite Hsize, app_assoc.
  replace (length pre + length (bytes x))%nat with (length (pre ++ bytes x)) by by rewrite length_app.
  rewrite IH; [done| |lengths]. intros y pre' post' Hy. apply Hread. set_solver.
Qed.

(** The counts in the header *)
Lemma header_at_queries id f2 f3 nq na post :
  header id f2 f3 nq na ++ post = (be16 id ++ [f2; f3]) ++ be16 nq ++ be16 na ++ be16 0 ++ be16 0 ++ post.
Proof. unfold header. by rewrite <-!app_assoc. Qed.

Lemma header_at_answers id f2 f3 nq na post :
  header id f2 f3 nq na ++ post = (be16 id ++ [f2; f3] ++ be16 nq) ++ be16 na ++ be16 0 ++ be16 0 ++ post.
Proof. unfold header. by rewrite <-!app_assoc. Qed.

Lemma try_query_count {B} id f2 f3 nq na post len (f : Z → outcome (option B)) :
  u16_ok nq → (12 ≤ len)%nat → try_opt (u16_from (header id f2 f3 nq na ++ post) 4 len) f = f nq.
Proof.
  intros Hn Hlen. rewrite header_at_queries.
  apply try_u16; [done| |]; rewrite !length_app, !length_be16; cbn; lia.
Qed.

Lemma try_answer_count {B} id f2 f3 nq na post len (f : Z → outcome (option B)) :
  u16_ok na → (12 ≤ len)%nat → try_opt (u16_from (header id f2 f3 nq na ++ post) 6 len) f = f na.
Proof.
  intros Hn Hlen. rewrite header_at_answers.
  apply try_u16; [done| |]; rewrite !length_app, !length_be16; cbn; lia.
Qed.

Lemma write_answer_count id f2 f3 nq na na' post :
  written (header id f2 f3 nq na ++ post) 6 (be16 na') = header id f2 f3 nq na' ++ post.
Proof.
  rewrite !header_at_answers.
  replace 6%nat with (length (be16 id ++ [f2; f3] ++ be16 nq)) by (rewrite !length_app, !length_be16; done).
  rewrite written_at by lengths. by rewrite drop_app_length' by lengths.
Qed.

Definition packet_ok (qs : list Question) (ans : list Answer) : Prop :=
  Forall question_ok qs ∧ Forall answer_ok ans ∧
  u16_ok (Z.of_nat (length qs)) ∧ u16_ok (Z.of_nat (length ans)).

Lemma length_packet id f2 f3 qs ans :
  length (packet id f2 f3 qs ans) =
  (12 + length (concat (query_bytes <$> qs)) + length (concat (answer_bytes <$> ans)))%nat.
Proof. unfold packet. rewrite !length_app, length_header. lia. Qed.

Lemma packet_app id f2 f3 qs ans rest :
  packet id f2 f3 qs ans ++ rest =
  header id f2 f3 (Z.of_nat (length qs)) (Z.of_nat (length ans)) ++
  concat (query_bytes <$> qs) ++ concat (answer_bytes <$> ans) ++ rest.
Proof. unfold packet. by rewrite <-!app_assoc. Qed.

Section PacketRead.
Context (id f2 f3 : Z) (qs : list Question) (ans : list Answer) (rest : list Z) (len : nat).
Hypothesis Hok : packet_ok qs ans.
Hypothesis Hlen : (length (packet id f2 f3 qs ans) ≤ len)%nat.

Let f := mkFacade (packet id f2 f3 qs ans ++ rest) len.

Lemma get_queries_packet : get_queries f = Ret (Some (query_view <$> qs)).
Proof.
  destruct Hok as (Hq & _ & Hnq & _). rewrite length_packet in Hlen. unfold get_queries, f. cbn [pf_buf pf_length].
  rewrite packet_app. etrans; [apply try_query_count; [done|lia]|]. rewrite Nat2Z.id.
  rewrite <-(length_header id f2 f3 (Z.of_nat (length qs)) (Z.of_nat (length ans))).
  apply (read_all_concat query_bytes query_view q_length Query_new); [|done|rewrite length_header; lia].
  intros q pre post Hin. apply Query_new_spec. by apply (proj1 (Forall_forall _ _) Hq).
Qed.

Lemma find_queries_end_packet : find_queries_end f = Ret (Some (12 + length (concat (query_bytes <$> qs)))%nat).
Proof.
  destruct Hok as (Hq & _ & Hnq & _). rewrite length_packet in Hlen. unfold find_queries_end, f. cbn [pf_buf pf_length].
  rewrite packet_app. etrans; [apply try_query_count; [done|lia]|]. rewrite Nat2Z.id.
  rewrite <-(length_header id f2 f3 (Z.of_nat (length qs)) (Z.of_nat (length ans))).
  erewrite (find_ends_concat query_bytes query_find_end); [by rewrite length_header| |rewrite length_header; lia].
  intros q pre post Hin. apply query_find_end_spec. by apply (proj1 (Forall_forall _ _) Hq).
Qed.

(** The bytes before the answers *)
Let front := header id f2 f3 (Z.of_nat (length qs)) (Z.of_nat (length ans)) ++ concat (query_bytes <$> qs).

Lemma length_front : length front = (12 + length (concat (query_bytes <$> qs)))%nat.
Proof. unfold front. by rewrite length_app, length_header. Qed.

Lemma packet_front : packet id f2 f3 qs ans ++ rest = front ++ concat (answer_bytes <$> ans) ++ rest.
Proof. unfold front. by rewrite packet_app, <-app_assoc. Qed.

Lemma find_answers_end_packet : find_answers_end f = Ret (Some (length (packet id f2 f3 qs ans))).
Proof.
  pose proof Hok as (_ & Ha & _ & Hna). pose proof Hlen as Hl. rewrite length_packet in Hl |- *.
  unfold find_answers_end, find_records_end. rewrite find_queries_end_packet. unfold f. cbn [pf_buf pf_length].
  rewrite packet_app at 1. etrans; [apply try_answer_count; [done|lia]|]. rewrite Nat2Z.id.
  unfold try_opt. run_outcome. rewrite packet_front, <-length_front.
  erewrite (find_ends_concat answer_bytes record_find_end); [do 2 f_equal; lia| |rewrite length_front; lia].
  intros a pre post Hin. apply record_find_end_spec. by apply (proj1 (Forall_forall _ _) Ha).
Qed.

Lemma get_answers_packet : get_answers f = Ret (Some (answer_view <$> ans)).
Proof.
  pose proof Hok as (_ & Ha & _ & Hna). pose proof Hlen as Hl. rewrite length_packet in Hl.
  unfold get_answers, get_records. rewrite find_queries_end_packet. unfold try_opt at 1. run_outcome.
  unfold f. cbn [pf_buf pf_length].
  rewrite packet_app at 1. etrans; [apply try_answer_count; [done|lia]|]. rewrite Nat2Z.id.
  rewrite packet_front, <-length_front.
  apply (read_all_concat answer_bytes answer_view rec_length ResourceRecord_new); [|done|rewrite length_front; lia].
  intros a pre post Hin. apply ResourceRecord_new_spec. by apply (proj1 (Forall_forall _ _) Ha).
Qed.
End PacketRead.

(** *** Adding an answer *)
Lemma increment_answers id f2 f3 nq na post len :
  u16_ok (na + 1) → u16_ok na → (12 ≤ len)%nat →
  increment_count 6 (mkFacade (header id f2 f3 nq na ++ post) len) =
  Ret (true, mkFacade (header id f2 f3 nq (na + 1) ++ post) len).
Proof.
  intros Hn1 Hn Hlen. unfold increment_count. cbn [pf_buf pf_length].
  pose proof (try_answer_count id f2 f3 nq na post len (λ v, mret (Some v)) Hn Hlen) as E.
  unfold try_opt in E. destruct (u16_from _ 6 len) as [[v|]|e]; cbn in E; simplify_eq. run_outcome.
  unfold wrap. rewrite Z.mod_small by done.
  rewrite u16_to_written by (done || (rewrite length_app, length_header; lia)).
  run_outcome. by rewrite write_answer_count.
Qed.

Lemma concat_snoc {X} (bytes : X → list Z) xs x : concat (bytes <$> (xs ++ [x])) = concat (bytes <$> xs) ++ bytes x.
Proof. rewrite fmap_app, concat_app. cbn. by rewrite app_nil_r. Qed.

Lemma add_answer_packet id f2 f3 qs ans a rest :
  packet_ok qs ans → answer_ok a → u16_ok (Z.of_nat (length ans) + 1) → (length (answer_bytes a) ≤ length rest)%nat →
  add_answer (dotted (an_labels a)) (an_type a) (an_class a) (an_ttl a) (an_rdata a)
    (mkFacade (packet id f2 f3 qs ans ++ rest) (length (packet id f2 f3 qs ans))) =
  Ret (true, mkFacade (packet id f2 f3 qs (ans ++ [a]) ++ drop (length (answer_bytes a)) rest)
                      (length (packet id f2 f3 qs (ans ++ [a])))).
Proof.
  intros Hok Ha Hn Hrest. unfold add_answer, add_record. rewrite find_answers_end_packet by done. run_outcome.
  rewrite write_resource_record_spec by (done || (rewrite length_app; lia)). run_outcome.
  rewrite written_at by done. rewrite Nat.max_r by lia.
  rewrite packet_app, increment_answers;
    [|done|apply Hok|rewrite length_packet; lia].
  do 3 f_equal.
  - rewrite packet_app, concat_snoc, length_app. cbn [length]. rewrite Nat2Z.inj_add. by rewrite <-!app_assoc.
  - rewrite !length_packet, concat_snoc, length_app. lia.
Qed.

(** *** The flags of a response: it is a response, neither authoritative nor truncated;
    recursion is available; the operation and what was desired are kept. *)
Definition response_flags2 (f2 : Z) : Z := Z.lor (Z.land f2 0x79) 0x80.
Definition response_flags3 (f3 : Z) : Z := Z.lor (Z.land f3 0x4F) 0x80.

Lemma header_app_flags id f2 f3 nq na post :
  header id f2 f3 nq na ++ post = be16 id ++ f2 :: f3 :: be16 nq ++ be16 na ++ be16 0 ++ be16 0 ++ post.
Proof. unfold header. by rewrite <-!app_assoc. Qed.

Lemma set_bits_flags2 id f2 f3 nq na post len keep bits :
  set_bits 3 2 keep bits (mkFacade (header id f2 f3 nq na ++ post) len) =
  Ret (true, mkFacade (header id (Z.lor (Z.land f2 keep) bits) f3 nq na ++ post) len).
Proof.
  unfold set_bits. cbn [pf_buf]. rewrite length_app, length_header. cbn [Nat.ltb Nat.leb Nat.add].
  rewrite !header_app_flags, !be16_eq. done.
Qed.

Lemma set_bits_flags3 id f2 f3 nq na post len keep bits :
  set_bits 4 3 keep bits (mkFacade (header id f2 f3 nq na ++ post) len) =
  Ret (true, mkFacade (header id f2 (Z.lor (Z.land f3 keep) bits) nq na ++ post) len).
Proof.
  unfold set_bits. cbn [pf_buf]. rewrite length_app, length_header. cbn [Nat.ltb Nat.leb Nat.add].
  rewrite !header_app_flags, !be16_eq. done.
Qed.

Lemma response_flags_packet `{TrustDns} id f2 f3 nq na post len :
  all_ok response_flags (mkFacade (header id f2 f3 nq na ++ post) len) =
  Ret (true, mkFacade (header id (response_flags2 f2) (response_flags3 f3) nq na ++ post) len).
Proof.
  unfold response_flags. cbn [all_ok].
  unfold set_query, set_authoritative_answer, set_truncated, set_recursion_available, set_authenticated_data,
    set_checking_disabled.
  repeat (rewrite set_bits_flags2 || rewrite set_bits_flags3; run_outcome). do 3 f_equal.
  unfold response_flags2, response_flags3.
  by rewrite !Z.lor_0_r, !Z.land_lor_distr_l, <-!Z.land_assoc.
Qed.

(** ** Requests for addresses *)
Section Answers.
Context `{TrustDns}.

Definition localhost (query_type : Z) : list Z :=
  match RecordType_from query_type with TypeAAAA => LOCALHOST_V6 | _ => LOCALHOST_V4 end.

Definition localhost_answer (q : Question) : Answer :=
  mkAnswer (qn_labels q) (qn_type q) DNSClass_IN 3600 (localhost (qn_type q)).

Record asks_address (q : Question) : Prop := {
  aa_ok : question_ok q;
  aa_class : qn_class q = DNSClass_IN;
  aa_type : RecordType_from (qn_type q) = TypeA ∨ RecordType_from (qn_type q) = TypeAAAA
}.

Lemma localhost_answer_ok q : asks_address q → answer_ok (localhost_answer q).
Proof.
  intros [[Hl Ht Hc] Hcl _]. split; cbn [localhost_answer an_labels an_type an_class an_ttl an_rdata]; [done|done| |done|].
  - by rewrite <-Hcl.
  - unfold localhost, u16_ok. by destruct (RecordType_from _).
Qed.

(** One turn of the loop *)
Lemma answer_queries_step q queries f :
  asks_address q →
  answer_queries (query_view q :: queries) f =
  ('(_, f) ← add_answer (dotted (qn_labels q)) (qn_type q) DNSClass_IN 3600 (localhost (qn_type q)) f;
   answer_queries queries f).
Proof.
  intros [_ Hcl Ht]. cbn [answer_queries query_view q_class q_type q_name]. rewrite Hcl, Z.eqb_refl. cbn [negb].
  unfold localhost. by destruct Ht as [-> | ->].
Qed.

Lemma answer_queries_packet id f2 f3 qs todo ans rest :
  packet_ok qs ans → Forall asks_address todo → u16_ok (Z.of_nat (length ans + length todo)) →
  (length (concat (answer_bytes <$> (localhost_answer <$> todo))) ≤ length rest)%nat →
  answer_queries (query_view <$> todo)
    (mkFacade (packet id f2 f3 qs ans ++ rest) (length (packet id f2 f3 qs ans))) =
  let response := packet id f2 f3 qs (ans ++ (localhost_answer <$> todo)) in
  Ret (length response,
       mkFacade (response ++ drop (length (concat (answer_bytes <$> (localhost_answer <$> todo)))) rest) (length response)).
Proof.
  revert ans rest. induction todo as [|q todo IH]; intros ans rest Hok Hq Hn Hrest.
  - cbn [fmap list_fmap concat length drop]. by rewrite app_nil_r.
  - apply Forall_cons in Hq as [Hq Hqs]. pose proof (localhost_answer_ok q Hq) as Ha.
    rewrite !fmap_cons in *. cbn [concat length] in *. rewrite length_app in *.
    rewrite answer_queries_step by done.
    assert (u16_ok (Z.of_nat (length ans) + 1)) as Hn1 by (unfold u16_ok in *; lia).
    etrans; [apply (f_equal (λ m, '(_, f) ← m; answer_queries _ f)), (add_answer_packet id f2 f3 qs ans (localhost_answer q) rest);
      (done || lia)|]. cbn [mbind outcome_bind].
    rewrite IH; [|split_and!; [apply Hok|apply Forall_app_2; [apply Hok|by apply Forall_singleton]|apply Hok|]|done| |].
    + rewrite <-app_assoc. cbn [app]. by rewrite drop_drop.
    + rewrite length_app. unfold u16_ok in *. cbn [length]. lia.
    + rewrite length_app. cbn [length]. by replace (length ans + 1 + length todo)%nat with (length ans + S (length todo))%nat by lia.
    + rewrite length_drop. lia.
Qed.

(** C28: The DNS server answers plain requests for addresses.  Take a request with the
    operation Query and any number of questions of class Internet that each ask for an IPv4
    or an IPv6 address, and without answer, authority and additional records (a request
    with an additional record, as EDNS makes it, is not covered: its response is
    malformed), in a buffer with room for the answers.  The response has the
    identification and the questions of the request and, in the same order, for every
    question one answer for the same name and type, with the address of the local host of
    that kind and a time to live of an hour; it is marked as a response, keeps operation and
    the wish for recursion, and says that recursion is available.  The rest of the buffer is
    as it was, and whoever reads the response finds the answers. *)
Theorem dns_queries_are_answered (id f2 f3 : Z) (qs : list Question) (rest : list Z) :
  let request := packet id f2 f3 qs [] in
  let answers := localhost_answer <$> qs in
  let response := packet id (response_flags2 f2) (response_flags3 f3) qs answers in
  Forall asks_address qs → u16_ok (Z.of_nat (length qs)) → Z.shiftr (Z.land f2 0x78) 3 = OpCode_Query →
  (length (concat (answer_bytes <$> answers)) ≤ length rest)%nat →
  process (request ++ rest) (length request) =
    Ret (length response, response ++ drop (length (concat (answer_bytes <$> answers))) rest) ∧
  get_answers (mkFacade (response ++ drop (length (concat (answer_bytes <$> answers))) rest) (length response)) =
    Ret (Some (answer_view <$> answers)).
Proof.
  intros request answers response Hqs Hn Hop Hrest.
  assert (packet_ok qs []) as Hok.
  { split_and!; [|done|done|done]. eapply Forall_impl; [exact Hqs|]. by intros q []. }
  assert (packet_ok qs answers) as Hok'.
  { split_and!; [apply Hok| |done|unfold answers; by rewrite length_fmap].
    apply Forall_fmap. eapply Forall_impl; [exact Hqs|]. apply localhost_answer_ok. }
  split; [|by apply get_answers_packet].
  assert (get_opcode (mkFacade (request ++ rest) (length request)) = Ret (Some OpCode_Query)) as Eop.
  { unfold get_opcode, get_bits, req_len_opt, try_opt, request. cbn [pf_buf pf_length].
    rewrite length_app, length_packet, packet_app, header_app_flags, be16_eq. cbn. by rewrite <-Hop. }
  unfold process. rewrite Eop. run_outcome. unfold request. rewrite get_queries_packet by done. run_outcome.
  unfold make_response. fold request. rewrite Eop. run_outcome. rewrite Z.eqb_refl.
  unfold request at 1. rewrite packet_app, response_flags_packet. run_outcome. cbn [negb].
  rewrite <-packet_app.
  assert (length request = length (packet id (response_flags2 f2) (response_flags3 f3) qs [])) as ->
    by (unfold request; by rewrite !length_packet).
  rewrite get_queries_packet by done. run_outcome. rewrite answer_queries_packet by done. cbn zeta. cbn [app]. run_outcome.
  fold answers. fold response.
  assert (∃ o, get_rcode (mkFacade (response ++ drop (length (concat (answer_bytes <$> answers))) rest) (length response)) = Ret o)
    as [o ->].
  { unfold get_rcode, get_bits, req_len_opt, response. cbn [pf_buf pf_length].
    rewrite length_app, length_packet, packet_app, header_app_flags, be16_eq. cbn. by eexists. }
  run_outcome. unfold response. by rewrite get_answers_packet.
Qed.
End Answers.
