(* ===== verification/EntryDnsSafety.v ===== *)
(** * No packet stops the DNS server

    The packets come from anyone who can reach the port, so nothing about them is
    assumed.  The places of the records are found by walking over what is in the buffer;
    the lemmas show that every walk stays in the buffer, although the check of
    [find_string_seq_end] lets it read one byte behind the packet: at first there is
    room behind the packet, and when the answers have filled the buffer a walk goes over
    records that were walked over before, or that were just written. *)

From S2P Require Import Prelude.
From S2P Require Import Bytes.
From S2P Require Import HttpFraming.
From S2P Require Import ProtocolPacks.
From S2P Require Import EntryDns.
From S2P Require Import EntryDnsFacts.

(** ** Returning without a panic *)
Lemma returns_try {A B} (P : A → Prop) (Q : option B → Prop) m (f : A → outcome (option B)) :
  returns m (λ o, ∀ a, o = Some a → P a) → Q None → (∀ a, P a → returns (f a) Q) → returns (try_opt m f) Q.
Proof.
  intros Hm HQ Hf. ret_via (exact Hm). intros [a|] Ha; [by apply Hf, Ha|by apply returns_ret].
Qed.

(** ** Buffers that agree on a range *)
Definition agree (lo hi : nat) (b b' : list Z) : Prop := ∀ i, (lo ≤ i < hi)%nat → b !! i = b' !! i.

Lemma agree_refl lo hi b : agree lo hi b b.
Proof. done. Qed.
Lemma agree_trans lo hi b1 b2 b3 : agree lo hi b1 b2 → agree lo hi b2 b3 → agree lo hi b1 b3.
Proof. intros H1 H2 i Hi. by rewrite H1, H2. Qed.
Lemma agree_sub lo hi lo' hi' b b' : agree lo hi b b' → (lo ≤ lo')%nat → (hi' ≤ hi)%nat → agree lo' hi' b b'.
Proof. intros Ha ?? i Hi. apply Ha. lia. Qed.

Lemma lookup_written_before buf off l i : (i < off)%nat → (off ≤ length buf)%nat → written buf off l !! i = buf !! i.
Proof.
  intros Hi Hoff. unfold written. rewrite lookup_app_l by (rewrite length_take; lia). by rewrite lookup_take_lt.
Qed.

Lemma lookup_written_after buf off l i :
  (off + length l ≤ i)%nat → (off ≤ length buf)%nat → written buf off l !! i = buf !! i.
Proof.
  intros Hi Hoff. unfold written. rewrite lookup_app_r by (rewrite length_take; lia). rewrite length_take, Nat.min_l by lia.
  rewrite lookup_app_r by lia. rewrite lookup_drop. f_equal. lia.
Qed.

Lemma lookup_written_here buf off x l : (off ≤ length buf)%nat → written buf off (x :: l) !! off = Some x.
Proof. intros Hoff. unfold written. cbn [app]. by rewrite list_lookup_middle by (rewrite length_take; lia). Qed.

Lemma agree_written lo hi buf off l :
  (off ≤ length buf)%nat → (hi ≤ off ∨ off + length l ≤ lo)%nat → agree lo hi buf (written buf off l).
Proof.
  intros Hoff Hd i Hi. symmetry. destruct Hd; [apply lookup_written_before|apply lookup_written_after]; lia.
Qed.

(** ** Reading numbers *)
Lemma u16_from_returns buf start len :
  (len ≤ length buf)%nat → returns (u16_from buf start len) (λ o, ∀ v, o = Some v → (start + 2 ≤ len)%nat).
Proof.
  intros Hlen. unfold u16_from. destruct (Nat.ltb_spec len (start + 2)); [by apply returns_ret|].
  destruct (byte_at_lt buf start) as [b1 ->]; [lia|]. destruct (byte_at_lt buf (start + 1)) as [b2 ->]; [lia|].
  apply returns_ret. intros. lia.
Qed.

Lemma returns_try_u16 {B} (Q : option B → Prop) buf start len f :
  (len ≤ length buf)%nat → Q None → (∀ v, (start + 2 ≤ len)%nat → returns (f v) Q) →
  returns (try_opt (u16_from buf start len) f) Q.
Proof. intros. eapply returns_try; [by apply u16_from_returns|done|]. auto. Qed.

Lemma u16_from_stable buf buf' start len len' v :
  u16_from buf start len = Ret (Some v) → agree start (start + 2) buf buf' → (len ≤ len')%nat →
  u16_from buf' start len' = Ret (Some v).
Proof.
  unfold u16_from, byte_at. intros Hu Ha Hl. destruct (Nat.ltb_spec len (start + 2)); [done|].
  rewrite (proj2 (Nat.ltb_ge _ _)) by lia. by rewrite <-!Ha by lia.
Qed.

Lemma u16_from_some buf start len v : u16_from buf start len = Ret (Some v) → (start + 2 ≤ len)%nat.
Proof. unfold u16_from. by destruct (Nat.ltb_spec len (start + 2)). Qed.

(** ** Walking over a name *)
Lemma walk_returns fuel buf off len :
  (len < length buf)%nat → (len + 2 ≤ off + fuel)%nat → (0 < fuel)%nat →
  returns (find_string_seq_end_loop fuel buf off len) (λ _, True).
Proof.
  intros Hlen. revert off. induction fuel as [|fuel IH]; intros off Hf H0; [lia|]. cbn [find_string_seq_end_loop].
  destruct (Nat.ltb_spec len off); [by apply returns_ret|].
  destruct (byte_at_lt buf off) as [b ->]; [lia|]. run_outcome.
  destruct (b =? 0); [by apply returns_ret|]. apply IH; lia.
Qed.

Lemma walk_some fuel buf off len e :
  find_string_seq_end_loop fuel buf off len = Ret (Some e) → (off < e ≤ len + 1)%nat.
Proof.
  revert off. induction fuel as [|fuel IH]; intros off; cbn [find_string_seq_end_loop]; [done|].
  destruct (Nat.ltb_spec len off); [done|]. destruct (byte_at buf off) as [b|]; run_outcome; [|done].
  destruct (b =? 0); [intros [=]; lia|]. intros Hr%IH. lia.
Qed.

Lemma walk_stable fuel fuel' buf buf' off len len' e :
  find_string_seq_end_loop fuel buf off len = Ret (Some e) →
  agree off e buf buf' → (len ≤ len')%nat → (fuel ≤ fuel')%nat →
  find_string_seq_end_loop fuel' buf' off len' = Ret (Some e).
Proof.
  revert fuel' off. induction fuel as [|fuel IH]; intros [|fuel'] off Hr Ha Hl Hf; try done; try lia.
  pose proof (walk_some _ _ _ _ _ Hr) as He. cbn [find_string_seq_end_loop] in *.
  destruct (Nat.ltb_spec len off); [done|]. rewrite (proj2 (Nat.ltb_ge _ _)) by lia.
  unfold byte_at in *. rewrite <-Ha by lia. destruct (buf !! off) as [b|]; [|done]. cbn [expect] in *.
  cbn [mbind outcome_bind] in Hr |- *.
  destruct (b =? 0); [exact Hr|]. apply IH; [done| |done|lia]. eapply agree_sub; [exact Ha|lia|lia].
Qed.

Lemma find_string_seq_end_returns buf off len :
  (len < length buf)%nat → returns (find_string_seq_end buf off len) (λ _, True).
Proof. intros. apply walk_returns; lia. Qed.

(** ** Walking over queries and records: a walk that found an end finds it again when the
    bytes before it are the same, whatever the packet has grown to. *)
Definition find_end_ok (fe : list Z → nat → nat → outcome (option nat)) : Prop :=
  (∀ buf off len, (len < length buf)%nat → returns (fe buf off len) (λ _, True)) ∧
  (∀ buf off len e, fe buf off len = Ret (Some e) → (off < e ≤ len)%nat) ∧
  (∀ buf buf' off len len' e, fe buf off len = Ret (Some e) → agree off e buf buf' → (len ≤ len')%nat →
     fe buf' off len' = Ret (Some e)).

Lemma try_opt_some {A B} (m : outcome (option A)) (f : A → outcome (option B)) b :
  try_opt m f = Ret (Some b) → ∃ a, m = Ret (Some a) ∧ f a = Ret (Some b).
Proof. unfold try_opt. destruct m as [[a|]|]; cbn; intros; simplify_eq. by exists a. Qed.

Lemma try_opt_eq {A B} (m : outcome (option A)) (f : A → outcome (option B)) a :
  m = Ret (Some a) → try_opt m f = f a.
Proof. intros ->. done. Qed.

Lemma query_find_end_ok : find_end_ok query_find_end.
Proof.
  split_and!.
  - intros buf off len Hlen. unfold query_find_end. eapply (returns_try (λ _, True)); [|done|].
    + eapply returns_mono; [by apply find_string_seq_end_returns|]. done.
    + intros e _. by apply returns_ret.
  - intros buf off len e (s & Hs%walk_some & He)%try_opt_some. cbv beta zeta in He.
    destruct (Nat.ltb_spec len (s + 4)); [done|injection He as <-]. lia.
  - intros buf buf' off len len' e (s & Hs & He)%try_opt_some Ha Hl. cbv beta zeta in He.
    destruct (Nat.ltb_spec len (s + 4)); [done|injection He as <-]. unfold query_find_end.
    erewrite try_opt_eq by (eapply walk_stable; [exact Hs|eapply agree_sub; [exact Ha|lia|lia]|lia|lia]).
    by rewrite (proj2 (Nat.ltb_ge _ _)) by lia.
Qed.

Lemma record_find_end_ok : find_end_ok record_find_end.
Proof.
  split_and!.
  - intros buf off len Hlen. unfold record_find_end. eapply (returns_try (λ _, True)); [|done|].
    + eapply returns_mono; [by apply find_string_seq_end_returns|]. done.
    + intros e _. apply returns_try_u16; [lia|done|]. intros. by apply returns_ret.
  - intros buf off len e (s & Hs%walk_some & (r & Hr & He)%try_opt_some)%try_opt_some. cbv beta zeta in He.
    destruct (Nat.ltb_spec len (s + 10 + Z.to_nat r)); [done|injection He as <-]. lia.
  - intros buf buf' off len len' e (s & Hs & (r & Hr & He)%try_opt_some)%try_opt_some Ha Hl. cbv beta zeta in He.
    destruct (Nat.ltb_spec len (s + 10 + Z.to_nat r)); [done|injection He as <-]. unfold record_find_end.
    pose proof (walk_some _ _ _ _ _ Hs).
    erewrite try_opt_eq by (eapply walk_stable; [exact Hs|eapply agree_sub; [exact Ha|lia|lia]|lia|lia]).
    erewrite try_opt_eq by (eapply u16_from_stable; [exact Hr|eapply agree_sub; [exact Ha|lia|lia]|lia]).
    by rewrite (proj2 (Nat.ltb_ge _ _)) by lia.
Qed.

Lemma find_ends_returns fe buf len count off :
  find_end_ok fe → (len < length buf)%nat → returns (find_ends (λ o, fe buf o len) count off) (λ _, True).
Proof.
  intros (Hr & _ & _) Hlen. revert off. induction count as [|count IH]; intros off; cbn [find_ends]; [by apply returns_ret|].
  eapply (returns_try (λ _, True)); [|done|intros; apply IH]. eapply returns_mono; [by apply Hr|]. done.
Qed.

Lemma find_ends_some fe buf len count off e :
  find_end_ok fe → find_ends (λ o, fe buf o len) count off = Ret (Some e) → (off ≤ e)%nat.
Proof.
  intros (_ & Hs & _). revert off. induction count as [|count IH]; intros off; cbn [find_ends]; [intros [=]; lia|].
  intros (a & Ha%Hs & He%IH)%try_opt_some. lia.
Qed.

Lemma find_ends_stable fe buf buf' len len' count off e :
  find_end_ok fe → find_ends (λ o, fe buf o len) count off = Ret (Some e) → agree off e buf buf' → (len ≤ len')%nat →
  find_ends (λ o, fe buf' o len') count off = Ret (Some e).
Proof.
  intros Hok. pose proof Hok as (_ & Hs & Hst). revert off. induction count as [|count IH]; intros off He Hag Hl; [done|].
  cbn [find_ends] in *. apply try_opt_some in He as (a & Ha & He). pose proof (find_ends_some _ _ _ _ _ _ Hok He).
  pose proof (Hs _ _ _ _ Ha).
  erewrite try_opt_eq by (eapply Hst; [exact Ha|eapply agree_sub; [exact Hag|lia|lia]|lia]).
  apply IH; [done|eapply agree_sub; [exact Hag|lia|lia]|done].
Qed.

Lemma find_ends_S fe count off :
  find_ends fe (S count) off = try_opt (find_ends fe count off) fe.
Proof.
  revert off. induction count as [|count IH]; intros off; cbn [find_ends].
  - unfold try_opt at 2. cbn. unfold try_opt. by destruct (fe off) as [[a|]|].
  - cbn [find_ends] in IH. unfold try_opt at 1 3. destruct (fe off) as [[a|]|]; run_outcome; [|done|done].
    apply (IH a).
Qed.

(** ** Reading queries and answers *)

(** Every piece between dots is shorter than 256 bytes. *)
Definition name_ok (name : list Z) : Prop := Forall (λ part, (length part < 256)%nat) (split_on DOT name).

Lemma split_on_short c l n : (length l < n)%nat → Forall (λ part, (length part < n)%nat) (split_on c l).
Proof.
  revert n. induction l as [|b l IH]; intros n Hn; cbn in *; [by apply Forall_singleton|].
  destruct (split_on_cons c l) as (part & parts & E). pose proof (IH (pred n) ltac:(lia)) as IHn. rewrite E in *.
  apply Forall_cons in IHn as [Hp Hps].
  assert (Forall (λ part, (length part < n)%nat) parts) by (eapply Forall_impl; [exact Hps|cbn; lia]).
  destruct (b =? c); repeat (apply Forall_cons; split); cbn; try lia; done.
Qed.

Lemma split_on_dot_app c l rest : split_on c (l ++ c :: rest) = split_on c l ++ split_on c rest.
Proof.
  destruct (split_on_cons c rest) as (part & parts & E).
  induction l as [|b l IH]; cbn; [rewrite E; by rewrite Z.eqb_refl|]. rewrite IH.
  destruct (split_on_cons c l) as (p & ps & ->). cbn. by destruct (b =? c).
Qed.

Lemma name_ok_join result part :
  name_ok result → (length part < 256)%nat →
  name_ok ((if decide (result = []) then result else result ++ [DOT]) ++ part).
Proof.
  intros Hr Hp. unfold name_ok in *. pose proof (split_on_short DOT part 256 Hp) as Hps.
  destruct (decide (result = [])) as [->|]; [done|]. rewrite <-app_assoc. cbn [app]. rewrite split_on_dot_app.
  by apply Forall_app_2.
Qed.

Lemma byte_at_byte buf i b : Forall (λ b, 0 ≤ b < 256) buf → byte_at buf i = Ret b → 0 ≤ b < 256.
Proof.
  intros Hb. unfold byte_at. destruct (buf !! i) as [b'|] eqn:E; [|done]. intros [= <-].
  by eapply (Forall_lookup_1 _ _ _ _ Hb).
Qed.

Lemma slice_length buf from to l : slice buf from to = Ret l → length l = (to - from)%nat.
Proof.
  unfold slice. case_decide; [|done]. intros [= <-]. rewrite length_take, length_drop. lia.
Qed.

Lemma extract_loop_returns fuel buf off len result :
  (len ≤ length buf)%nat → (len + 2 ≤ off + fuel)%nat → (0 < fuel)%nat →
  returns (extract_string_seq_loop fuel buf off len result)
    (λ o, ∀ p, o = Some p → Forall (λ b, 0 ≤ b < 256) buf → name_ok result → name_ok p.1).
Proof.
  intros Hlen. revert off result. induction fuel as [|fuel IH]; intros off result Hf H0; [lia|].
  cbn [extract_string_seq_loop]. destruct (Nat.leb_spec len off); [by apply returns_ret|].
  destruct (byte_at_lt buf off) as [b Eb]; [lia|]. rewrite Eb. run_outcome.
  destruct (b =? 0); [apply returns_ret; by intros p [= <-]|].
  destruct (Nat.ltb_spec len (off + 1 + Z.to_nat b)); [by apply returns_ret|].
  destruct (slice buf (off + 1) (off + 1 + Z.to_nat b)) as [part|] eqn:Es.
  2:{ unfold slice in Es. by rewrite decide_True in Es by lia. }
  run_outcome. destruct (valid_utf8 part); [|by apply returns_ret].
  eapply returns_mono; [apply IH; lia|]. intros o Ho p -> Hb Hr. apply (Ho p eq_refl Hb), name_ok_join; [done|].
  rewrite (slice_length _ _ _ _ Es). pose proof (byte_at_byte _ _ _ Hb Eb). lia.
Qed.

Lemma extract_string_seq_returns buf off len :
  (len ≤ length buf)%nat →
  returns (extract_string_seq buf off len) (λ o, ∀ p, o = Some p → Forall (λ b, 0 ≤ b < 256) buf → name_ok p.1).
Proof.
  intros Hlen. eapply returns_mono; [apply extract_loop_returns; lia|]. intros o Ho p E Hb. apply (Ho p E Hb).
  unfold name_ok. apply Forall_singleton. cbn. lia.
Qed.

Lemma Query_new_returns buf off len :
  (len ≤ length buf)%nat →
  returns (Query_new buf off len) (λ o, ∀ q, o = Some q → Forall (λ b, 0 ≤ b < 256) buf → name_ok (q_name q)).
Proof.
  intros Hlen. unfold Query_new. eapply returns_try; [by apply extract_string_seq_returns|done|]. intros [name e] Hn.
  apply returns_try_u16; [done|done|]. intros t _. apply returns_try_u16; [done|done|]. intros c _.
  apply returns_ret. by intros q [= <-].
Qed.

Lemma ResourceRecord_new_returns buf off len :
  (len ≤ length buf)%nat → returns (ResourceRecord_new buf off len) (λ _, True).
Proof.
  intros Hlen. unfold ResourceRecord_new.
  eapply (returns_try (λ _, True)); [eapply returns_mono; [by apply extract_string_seq_returns|done]|done|].
  intros [name e] _.
  apply returns_try_u16; [done|done|]. intros t _. apply returns_try_u16; [done|done|]. intros c _.
  eapply (returns_try (λ _, True)).
  { unfold u32_from.
    apply returns_try_u16; [done|done|]. intros h _. apply returns_try_u16; [done|done|]. intros l _. by apply returns_ret. }
  { done. }
  intros ttl _. apply returns_try_u16; [done|done|]. intros r He. cbv beta zeta.
  destruct (Nat.ltb_spec len (off + (e + 10 + Z.to_nat r - off))); [by apply returns_ret|].
  unfold slice. rewrite decide_True by lia. by apply returns_ret.
Qed.

Lemma read_all_returns {A} (P : A → Prop) read size count off :
  (∀ o, returns (read o) (λ x, ∀ a, x = Some a → P a)) →
  returns (read_all read size count off) (λ x, ∀ l, x = Some l → Forall P l).
Proof.
  intros Hread. revert off. induction count as [|count IH]; intros off; cbn [read_all].
  - apply returns_ret. by intros l [= <-].
  - eapply returns_try; [apply Hread|done|]. intros a Ha. eapply returns_try; [apply IH|done|]. intros l Hl.
    apply returns_ret. intros ? [= <-]. by apply Forall_cons.
Qed.

(** ** Writing *)

(** A write that begins at [off]: nothing before it changes, nor the size of the buffer. *)
Record beyond (off : nat) (buf buf' : list Z) : Prop := {
  by_length : length buf' = length buf;
  by_agree : agree 0 off buf buf'
}.

Lemma beyond_refl off buf : beyond off buf buf.
Proof. by split. Qed.

Lemma beyond_trans off off' b1 b2 b3 : beyond off b1 b2 → beyond off' b2 b3 → (off ≤ off')%nat → beyond off b1 b3.
Proof.
  intros [L1 A1] [L2 A2] Hoff. split; [congruence|]. eapply agree_trans; [exact A1|]. eapply agree_sub; [exact A2|lia|lia].
Qed.

Lemma beyond_written off off' buf l :
  (off ≤ off')%nat → (off' + length l ≤ length buf)%nat → beyond off buf (written buf off' l).
Proof. intros. split; [by apply length_written|]. apply agree_written; lia. Qed.

Lemma u16_to_returns v buf start off :
  (off ≤ start)%nat →
  returns (u16_to v buf start) (λ '(ok, buf'), beyond off buf buf' ∧ (ok = true → (start + 2 ≤ length buf)%nat)).
Proof.
  intros Hoff. unfold u16_to. destruct (Nat.ltb_spec (length buf) (start + 2)).
  { apply returns_ret. split; [apply beyond_refl|done]. }
  rewrite set_byte_written by lia. run_outcome.
  rewrite set_byte_written by (rewrite length_written; cbn; lia). run_outcome. apply returns_ret. split; [|lia].
  apply (beyond_trans off off _ (written buf start [Z.shiftr v 8])); [| |done];
    apply beyond_written; rewrite ?length_written; cbn; lia.
Qed.

Lemma u32_to_returns v buf start off :
  (off ≤ start)%nat → returns (u32_to v buf start) (λ '(ok, buf'), beyond off buf buf').
Proof.
  intros Hoff. unfold u32_to. ret_via (by apply (u16_to_returns _ _ _ off)). intros [ok1 b1] [B1 _].
  ret_via (apply (u16_to_returns _ _ _ off); lia). intros [ok2 b2] [B2 _].
  apply returns_ret. by eapply beyond_trans.
Qed.

(** After the pieces of a name a walk from their begin comes to an end, if their end is
    marked and nothing before it changes. *)
Definition walkable (off e : nat) (buf : list Z) : Prop :=
  ∀ buf' len fuel, agree off e buf buf' → buf' !! e = Some 0 → (e ≤ len)%nat → (e < off + fuel)%nat →
  ∃ e', find_string_seq_end_loop fuel buf' off len = Ret (Some e').

Lemma walkable_nil off buf : walkable off off buf.
Proof.
  intros buf' len [|fuel] _ H0 Hl Hf; [lia|]. cbn [find_string_seq_end_loop]. rewrite (proj2 (Nat.ltb_ge _ _)) by lia.
  unfold byte_at. rewrite H0. cbn. by eexists.
Qed.

Lemma walkable_cons off e n buf :
  buf !! off = Some (Z.of_nat n) → (off + (1 + n) ≤ e)%nat → walkable (off + (1 + n)) e buf → walkable off e buf.
Proof.
  intros Hb He Hw buf' len [|fuel] Ha H0 Hl Hf; [lia|]. cbn [find_string_seq_end_loop].
  rewrite (proj2 (Nat.ltb_ge _ _)) by lia. unfold byte_at. rewrite <-Ha, Hb by lia. cbn [expect]. run_outcome.
  destruct (Z.of_nat n =? 0); [by eexists|]. rewrite Nat2Z.id. replace (n + 1)%nat with (1 + n)%nat by lia.
  apply Hw; [eapply agree_sub; [exact Ha|lia|lia]|done|lia|lia].
Qed.

Lemma add_strings_returns strings buf off :
  Forall (λ part, (length part < 256)%nat) strings →
  returns (add_strings buf off strings)
    (λ '(o, buf'), beyond off buf buf' ∧ ∀ e, o = Some e → (off ≤ e)%nat ∧ walkable off e buf').
Proof.
  revert buf off. induction strings as [|l strings IH]; intros buf off Hs; cbn [add_strings].
  { apply returns_ret. split; [apply beyond_refl|]. intros e [= <-]. split; [lia|apply walkable_nil]. }
  apply Forall_cons in Hs as [Hl Hs]. destruct (Nat.ltb_spec (length buf) (off + length l + 1)).
  { apply returns_ret. split; [apply beyond_refl|done]. }
  unfold u8. rewrite Z.mod_small by lia. rewrite set_byte_written by lia. run_outcome.
  rewrite put_written by (rewrite length_written; cbn; lia). run_outcome.
  replace (off + 1)%nat with (off + length [Z.of_nat (length l)])%nat by done.
  rewrite written_app by (cbn; lia). cbn [app].
  eapply returns_mono; [by apply IH|]. intros [o b] [B Hw]. cbn beta iota.
  assert (beyond off buf b).
  { eapply beyond_trans; [apply (beyond_written off off _ (Z.of_nat (length l) :: l)); cbn; lia|exact B|lia]. }
  split; [done|]. intros e He. destruct (Hw e He) as [Hle Hwe]. split; [lia|].
  apply (walkable_cons _ _ (length l)); [|done|done].
  rewrite <-(by_agree _ _ _ B) by lia. apply lookup_written_here. lia.
Qed.

Lemma add_string_seq_returns name buf off :
  name_ok name →
  returns (add_string_seq buf off name)
    (λ '(o, buf'), beyond off buf buf' ∧
     ∀ e, o = Some e → (off < e ≤ length buf)%nat ∧
       ∀ buf'' len, agree off e buf' buf'' → (e ≤ len)%nat → ∃ e', find_string_seq_end buf'' off len = Ret (Some e')).
Proof.
  intros Hn. unfold add_string_seq. apply returns_bind, (returns_mono _ (λ '(o, buf'), beyond off buf buf' ∧
    ∀ e, o = Some e → (off ≤ e)%nat ∧ walkable off e buf')).
  { case_decide; [|by apply add_strings_returns]. apply returns_ret. split; [apply beyond_refl|].
    intros e [= <-]. split; [lia|apply walkable_nil]. }
  intros [[e|] b] [B Hw]; [|apply returns_ret; by split]. destruct (Hw e eq_refl) as [Hle Hwe].
  pose proof (by_length _ _ _ B) as Lb. destruct (Nat.leb_spec (length b) e); [apply returns_ret; by split|].
  rewrite set_byte_written by lia. run_outcome. apply returns_ret. split.
  { eapply beyond_trans; [exact B|apply (beyond_written off); cbn; lia|lia]. }
  intros e1 [= <-]. split; [lia|]. intros b' len Ha Hl.
  assert (written b e [0] !! e = Some 0) as Ez by (apply lookup_written_here; lia).
  apply Hwe; [|by rewrite <-Ha by lia|lia|lia]. intros i Hi. rewrite <-Ha by lia.
  symmetry. apply lookup_written_before; lia.
Qed.

Lemma write_resource_record_returns start name rtype rclass ttl rdata f :
  name_ok name → (pf_length f ≤ length (pf_buf f))%nat →
  returns (write_resource_record start name rtype rclass ttl rdata f)
    (λ '(o, f'), beyond start (pf_buf f) (pf_buf f') ∧ (pf_length f ≤ pf_length f' ≤ length (pf_buf f))%nat ∧
     ∀ n, o = Some n → ∃ e, (start < e ≤ pf_length f')%nat ∧
       ∀ buf'' len, agree start e (pf_buf f') buf'' → (e ≤ len)%nat → ∃ e', find_string_seq_end buf'' start len = Ret (Some e')).
Proof.
  intros Hn Hf. unfold write_resource_record. ret_via (by apply add_string_seq_returns).
  intros [[e|] b] [B Hw]; [|apply returns_ret; cbn; by split_and!].
  destruct (Hw e eq_refl) as [He Hwalk]. clear Hw. cbn beta iota.
  ret_via (apply (u16_to_returns _ _ _ e); lia). intros [ok1 b1] [B1 _].
  assert (beyond start (pf_buf f) b1) as S1 by (eapply beyond_trans; [exact B|exact B1|lia]).
  destruct ok1; [cbn [negb]|apply returns_ret; cbn; by split_and!].
  ret_via (apply (u16_to_returns _ _ _ e); lia). intros [ok2 b2] [B2 _].
  assert (beyond e b b2) as T2 by by eapply beyond_trans.
  assert (beyond start (pf_buf f) b2) as S2 by (eapply beyond_trans; [exact B|exact T2|lia]).
  destruct ok2; [cbn [negb]|apply returns_ret; cbn; by split_and!].
  ret_via (apply (u32_to_returns _ _ _ e); lia). intros [ok3 b3] B3.
  assert (beyond e b b3) as T3 by by eapply beyond_trans.
  assert (beyond start (pf_buf f) b3) as S3 by (eapply beyond_trans; [exact B|exact T3|lia]).
  destruct ok3; [cbn [negb]|apply returns_ret; cbn; by split_and!].
  ret_via (apply (u16_to_returns _ _ _ e); lia). intros [ok4 b4] [B4 _].
  assert (beyond e b b4) as T4 by by eapply beyond_trans.
  assert (beyond start (pf_buf f) b4) as S4 by (eapply beyond_trans; [exact B|exact T4|lia]).
  destruct ok4; [cbn [negb]|apply returns_ret; cbn; by split_and!].
  destruct (Nat.ltb_spec (length b4) (e + 10 + length rdata)); [apply returns_ret; cbn; by split_and!|].
  rewrite put_written by lia. run_outcome. apply returns_ret.
  assert (beyond e b (written b4 (e + 10) rdata)) as T5
    by (eapply beyond_trans; [exact T4|apply (beyond_written e); lia|lia]).
  pose proof (by_length _ _ _ S4). cbn. split_and!.
  - eapply beyond_trans; [exact B|exact T5|lia].
  - lia.
  - lia.
  - intros n _. exists e. split; [lia|]. intros b' len Ha Hl. apply Hwalk; [|done].
    eapply agree_trans; [|exact Ha]. eapply agree_sub; [exact (by_agree _ _ _ T5)|lia|lia].
Qed.

(** ** The state of the packet *)
Record facade_ok (f : PacketFacade) : Prop := {
  fo_header : (12 ≤ length (pf_buf f))%nat;
  fo_length : (pf_length f ≤ length (pf_buf f))%nat;
  fo_count : ∀ v, u16_from (pf_buf f) 6 (pf_length f) = Ret (Some v) → u16_ok v;
  fo_queries : returns (find_queries_end f) (λ _, True);
  fo_answers : returns (find_answers_end f) (λ _, True)
}.

Lemma find_queries_end_returns f :
  (pf_length f < length (pf_buf f))%nat → returns (find_queries_end f) (λ _, True).
Proof.
  intros Hlen. apply returns_try_u16; [lia|done|]. intros count _.
  apply (find_ends_returns query_find_end); [apply query_find_end_ok|done].
Qed.

Lemma u16_from_bytes buf start len v :
  Forall (λ b, 0 ≤ b < 256) buf → u16_from buf start len = Ret (Some v) → u16_ok v.
Proof.
  intros Hb. unfold u16_from. destruct (Nat.ltb_spec len (start + 2)); [done|].
  destruct (byte_at buf start) as [b1|] eqn:E1; [|done]. destruct (byte_at buf (start + 1)) as [b2|] eqn:E2; [|done].
  intros [= <-]. pose proof (byte_at_byte _ _ _ Hb E1). pose proof (byte_at_byte _ _ _ Hb E2).
  unfold u16_ok. rewrite Z.shiftl_mul_pow2 by lia. lia.
Qed.

(** A packet that does not fill the buffer *)
Lemma facade_ok_room f :
  Forall (λ b, 0 ≤ b < 256) (pf_buf f) → (12 ≤ length (pf_buf f))%nat → (pf_length f < length (pf_buf f))%nat → facade_ok f.
Proof.
  intros Hb H12 Hlen. pose proof (find_queries_end_returns f Hlen) as Hq.
  split; [done|lia|intros v; by apply u16_from_bytes|done|].
  apply returns_try_u16; [lia|done|]. intros count _.
  eapply (returns_try (λ _, True)); [eapply returns_mono; [exact Hq|done]|done|]. intros qe _.
  apply (find_ends_returns record_find_end); [apply record_find_end_ok|done].
Qed.

Lemma find_queries_end_some f e : find_queries_end f = Ret (Some e) → (12 ≤ e)%nat.
Proof.
  intros (count & _ & He)%try_opt_some. by apply (find_ends_some query_find_end) in He; [|apply query_find_end_ok].
Qed.

Lemma find_queries_end_stable f f' e :
  find_queries_end f = Ret (Some e) → agree 4 6 (pf_buf f) (pf_buf f') → agree 12 e (pf_buf f) (pf_buf f') →
  (pf_length f ≤ pf_length f')%nat → find_queries_end f' = Ret (Some e).
Proof.
  intros (count & Hc & He)%try_opt_some H46 H12 Hl. unfold find_queries_end.
  erewrite try_opt_eq by by eapply u16_from_stable.
  eapply (find_ends_stable query_find_end); [apply query_find_end_ok|exact He|done|done].
Qed.

(** The places of the records: the number of answers, the end of the queries and the end
    of the answers *)
Lemma find_answers_end_some f e :
  find_answers_end f = Ret (Some e) →
  ∃ count qe, u16_from (pf_buf f) 6 (pf_length f) = Ret (Some count) ∧ find_queries_end f = Ret (Some qe) ∧
    find_ends (λ o, record_find_end (pf_buf f) o (pf_length f)) (Z.to_nat count) qe = Ret (Some e) ∧ (12 ≤ qe ≤ e)%nat.
Proof.
  intros (count & Hc & (qe & Hq & He)%try_opt_some)%try_opt_some. exists count, qe.
  pose proof (find_queries_end_some _ _ Hq). apply (find_ends_some record_find_end) in He as ?; [|apply record_find_end_ok].
  by split_and!.
Qed.

(** A failed answer leaves only bytes behind the answers. *)
Lemma facade_ok_beyond f f' e :
  facade_ok f → find_answers_end f = Ret (Some e) → beyond e (pf_buf f) (pf_buf f') →
  (pf_length f ≤ pf_length f' ≤ length (pf_buf f))%nat → facade_ok f'.
Proof.
  intros [H12 Hlen Hn Hq Ha] He [L A] Hl. destruct (find_answers_end_some _ _ He) as (count & qe & Hc & Hqe & Hfe & Hle).
  assert (find_queries_end f' = Ret (Some qe)) as Hqe'.
  { eapply find_queries_end_stable; [exact Hqe| | |lia]; (eapply agree_sub; [exact A|lia|lia]). }
  assert (u16_from (pf_buf f') 6 (pf_length f') = Ret (Some count)) as Hc'
    by (eapply u16_from_stable; [exact Hc|eapply agree_sub; [exact A|lia|lia]|lia]).
  split; [lia|lia|rewrite Hc'; intros v [= <-]; by apply Hn|by rewrite Hqe'|].
  unfold find_answers_end, find_records_end. erewrite try_opt_eq by exact Hc'.
  erewrite try_opt_eq by exact Hqe'.
  erewrite (find_ends_stable record_find_end); [done|apply record_find_end_ok|exact Hfe|eapply agree_sub; [exact A|lia|lia]|lia].
Qed.

(** A record that can be walked over, counted as one more answer *)
Lemma facade_ok_counted f f1 e s :
  facade_ok f → find_answers_end f = Ret (Some e) → beyond e (pf_buf f) (pf_buf f1) →
  (pf_length f ≤ pf_length f1 ≤ length (pf_buf f))%nat → (e < s ≤ pf_length f1)%nat →
  (∀ buf len, agree e s (pf_buf f1) buf → (s ≤ len)%nat → ∃ e', find_string_seq_end buf e len = Ret (Some e')) →
  returns (increment_count 6 f1) (λ '(_, f2), facade_ok f2 ∧ length (pf_buf f2) = length (pf_buf f)).
Proof.
  intros Hok He B Hl Hs Hwalk. pose proof (facade_ok_beyond _ _ _ Hok He B Hl) as [H12 Hlen _ _ _].
  pose proof B as [L A].
  destruct (find_answers_end_some _ _ He) as (count & qe & Hc & Hqe & Hfe & Hle). unfold increment_count.
  erewrite u16_from_stable; [|exact Hc|eapply agree_sub; [exact A|lia|lia]|lia]. run_outcome.
  assert (u16_ok (wrap 16 (count + 1))) as Hw by (apply Z.mod_pos_bound; lia).
  rewrite u16_to_written by (done || lia). run_outcome. apply returns_ret.
  set (buf2 := written (pf_buf f1) 6 (be16 (wrap 16 (count + 1)))).
  assert (length buf2 = length (pf_buf f1)) as L2 by (apply length_written; rewrite length_be16; lia).
  assert (∀ lo hi, (hi ≤ 6 ∨ 8 ≤ lo)%nat → agree lo hi (pf_buf f1) buf2) as A2
    by (intros; apply agree_written; rewrite ?length_be16; lia).
  assert (∀ lo hi, (hi ≤ 6 ∨ 8 ≤ lo)%nat → (hi ≤ e)%nat → agree lo hi (pf_buf f) buf2) as A3.
  { intros. eapply agree_trans; [eapply agree_sub; [exact A|lia|lia]|by apply A2]. }
  assert (find_queries_end (with_buf buf2 f1) = Ret (Some qe)) as Hqe2
    by (eapply find_queries_end_stable; [exact Hqe|apply A3; lia|apply A3; lia|cbn; lia]).
  assert (u16_from buf2 6 (pf_length f1) = Ret (Some (wrap 16 (count + 1)))) as Hc2.
  { unfold buf2, written. replace 6%nat with (length (take 6 (pf_buf f1))) at 3 by (rewrite length_take; lia).
    apply u16_from_be16; [done|]. rewrite length_take. pose proof (u16_from_some _ _ _ _ Hc). lia. }
  split; [|cbn; lia]. split; cbn [pf_buf pf_length with_buf];
    [lia|lia|rewrite Hc2; by intros v [= <-]|by rewrite Hqe2|].
  unfold find_answers_end, find_records_end. cbn [pf_buf pf_length with_buf].
  erewrite try_opt_eq by exact Hc2. erewrite try_opt_eq by exact Hqe2.
  destruct (decide (wrap 16 (count + 1) = 0)) as [->|Hnz]; [done|].
  assert (Z.to_nat (wrap 16 (count + 1)) = S (Z.to_nat count)) as ->.
  { pose proof (fo_count _ Hok _ Hc) as Hu. unfold u16_ok, wrap in *.
    destruct (decide (count + 1 = 2 ^ 16)) as [E|]; [rewrite E in Hnz; done|]. rewrite Z.mod_small by lia. lia. }
  rewrite find_ends_S. erewrite try_opt_eq
    by (eapply (find_ends_stable record_find_end); [apply record_find_end_ok|exact Hfe|apply A3; lia|lia]).
  unfold record_find_end. destruct (Hwalk buf2 (pf_length f1)) as [e' He']; [apply A2; lia|lia|].
  erewrite try_opt_eq by exact He'. apply returns_try_u16; [lia|done|]. intros. by apply returns_ret.
Qed.

Lemma add_answer_returns name rtype rclass ttl rdata f :
  facade_ok f → name_ok name →
  returns (add_answer name rtype rclass ttl rdata f) (λ '(_, f'), facade_ok f' ∧ length (pf_buf f') = length (pf_buf f)).
Proof.
  intros Hok Hn. unfold add_answer, add_record. destruct (returns_inv _ _ (fo_answers _ Hok)) as ([e|] & He & _); rewrite He; run_outcome;
    [|by apply returns_ret].
  ret_via (apply write_resource_record_returns; [done|apply Hok]). intros [[n|] f1] (B & Hl & Hw).
  - destruct (Hw n eq_refl) as (s & Hs & Hwalk). by eapply facade_ok_counted.
  - apply returns_ret. split; [by eapply facade_ok_beyond|apply B].
Qed.

(** ** Flags *)
Definition byte (b : Z) : Prop := 0 ≤ b < 256.

Lemma byte_land b : byte b ↔ Z.land b 255 = b.
Proof.
  unfold byte. change 255 with (Z.ones 8). rewrite Z.land_ones by lia. split; intros Hb.
  - apply Z.mod_small. lia.
  - rewrite <-Hb. apply Z.mod_pos_bound. lia.
Qed.

Lemma byte_flags b keep bits : byte b → byte bits → byte (Z.lor (Z.land b keep) bits).
Proof.
  rewrite !byte_land. intros Hb Hbits.
  by rewrite Z.land_lor_distr_l, Hbits, <-Z.land_assoc, (Z.land_comm keep), Z.land_assoc, Hb.
Qed.

(** What the setters of flags keep *)
Definition same_shape (f f' : PacketFacade) : Prop :=
  length (pf_buf f') = length (pf_buf f) ∧ pf_length f' = pf_length f ∧
  (Forall byte (pf_buf f) → Forall byte (pf_buf f')).

Lemma same_shape_trans f1 f2 f3 : same_shape f1 f2 → same_shape f2 f3 → same_shape f1 f3.
Proof. intros (L1 & P1 & B1) (L2 & P2 & B2). split_and!; [congruence|congruence|auto]. Qed.

Lemma set_bits_returns len i keep bits f :
  (i < len)%nat → byte bits → returns (set_bits len i keep bits f) (λ '(_, f'), same_shape f f').
Proof.
  intros Hi Hbits. unfold set_bits. destruct (Nat.ltb_spec (length (pf_buf f)) len); [by apply returns_ret|].
  destruct (byte_at_lt (pf_buf f) i) as [b Eb]; [lia|]. rewrite Eb. run_outcome.
  unfold set_byte. rewrite decide_True by lia. run_outcome. apply returns_ret.
  split_and!; cbn [with_buf pf_buf pf_length]; [apply length_insert|done|].
  intros Hb. apply Forall_insert; [done|]. apply byte_flags; [by eapply byte_at_byte|done].
Qed.

Definition keeps_shape (set : PacketFacade → outcome (bool * PacketFacade)) : Prop :=
  ∀ f, returns (set f) (λ '(_, f'), same_shape f f').

Lemma response_flags_shape `{TrustDns} : Forall keeps_shape response_flags.
Proof. repeat (apply Forall_cons; split); [..|by apply Forall_nil]; intros f; apply set_bits_returns; (lia || done). Qed.

Lemma set_rcode_shape v : keeps_shape (set_rcode v).
Proof.
  intros f. apply set_bits_returns; [lia|]. unfold byte. change 15 with (Z.ones 4). rewrite Z.land_ones by lia.
  pose proof (Z.mod_pos_bound v (2 ^ 4)). lia.
Qed.

Lemma all_ok_returns setters f :
  Forall keeps_shape setters → returns (all_ok setters f) (λ '(_, f'), same_shape f f').
Proof.
  intros Hs. revert f. induction Hs as [|set setters Hset _ IH]; intros f; cbn [all_ok]; [by apply returns_ret|].
  ret_via (apply Hset). intros [[|] f1] S1; [|by apply returns_ret].
  eapply returns_mono; [apply IH|]. intros [ok f2] S2. by eapply same_shape_trans.
Qed.

Lemma all_done_returns setters f :
  Forall keeps_shape setters → returns (all_done setters f) (same_shape f).
Proof.
  intros Hs. revert f. induction Hs as [|set setters Hset _ IH]; intros f; cbn [all_done]; [by apply returns_ret|].
  ret_via (apply Hset). intros [ok f1] S1.
  eapply returns_mono; [apply IH|]. intros f2 S2. by eapply same_shape_trans.
Qed.

(** ** Responses *)

(** The packet at the end, of which the answers can be read for the log *)
Definition response_ok (size : nat) (f : PacketFacade) : Prop :=
  (size ≤ length (pf_buf f))%nat ∧ (pf_length f ≤ length (pf_buf f))%nat ∧ returns (find_queries_end f) (λ _, True).

Lemma clear_returns f :
  returns (clear f) (λ f', length (pf_buf f') = length (pf_buf f) ∧ pf_length f' = 12%nat).
Proof.
  unfold clear. ret_via (apply (u16_to_returns _ _ _ 0); lia). intros [ok1 b1] [[L1 _] _].
  ret_via (apply (u16_to_returns _ _ _ 0); lia). intros [ok2 b2] [[L2 _] _].
  ret_via (apply (u16_to_returns _ _ _ 0); lia). intros [ok3 b3] [[L3 _] _].
  ret_via (apply (u16_to_returns _ _ _ 0); lia). intros [ok4 b4] [[L4 _] _].
  apply returns_ret. cbn. split; [congruence|done].
Qed.

Section Safety.
Context `{TrustDns}.

Lemma make_error_returns code f :
  (12 < length (pf_buf f))%nat →
  returns (make_error code f) (λ '(size, f'), length (pf_buf f') = length (pf_buf f) ∧ response_ok size f').
Proof.
  intros Hlen. unfold make_error. apply returns_bind. eapply returns_mono.
  { apply all_done_returns, Forall_app_2; [apply response_flags_shape|]. apply Forall_singleton, set_rcode_shape. }
  intros f1 (L1 & _ & _). ret_via (apply clear_returns). intros f2 (L2 & P2).
  apply returns_ret. split; [congruence|]. split_and!; [unfold HEADER_BYTES; lia|lia|]. apply find_queries_end_returns. lia.
Qed.

Lemma answer_queries_returns queries f :
  facade_ok f → (12 < length (pf_buf f))%nat → Forall (λ q, name_ok (q_name q)) queries →
  returns (answer_queries queries f) (λ '(size, f'), length (pf_buf f') = length (pf_buf f) ∧ response_ok size f').
Proof.
  intros Hok Hlen Hq. revert f Hok Hlen. induction Hq as [|q queries Hn _ IH]; intros f Hok Hlen; cbn [answer_queries].
  { apply returns_ret. split; [done|]. split_and!; apply Hok. }
  assert (∀ rdata, returns ('(_, f) ← add_answer (q_name q) (q_type q) DNSClass_IN 3600 rdata f; answer_queries queries f)
    (λ '(size, f'), length (pf_buf f') = length (pf_buf f) ∧ response_ok size f')) as Hadd.
  { intros rdata. ret_via (by apply add_answer_returns). intros [ok f1] [Hok1 L1].
    eapply returns_mono; [apply IH; [done|lia]|]. intros [size f2] [L2 R2]. split; [congruence|done]. }
  destruct (negb (q_class q =? DNSClass_IN)); [by apply make_error_returns|].
  destruct (RecordType_from (q_type q)); [apply Hadd|apply Hadd|by apply make_error_returns].
Qed.

Lemma get_bits_returns len i mask f : (i < len)%nat → returns (get_bits len i mask f) (λ _, True).
Proof.
  intros Hi. unfold get_bits, req_len_opt.
  destruct (Nat.ltb_spec (pf_length f) len); [by apply returns_ret|].
  destruct (Nat.ltb_spec (length (pf_buf f)) len); [by apply returns_ret|]. cbn [orb].
  destruct (byte_at_lt (pf_buf f) i) as [b ->]; [lia|]. by apply returns_ret.
Qed.

Lemma get_opcode_returns f : returns (get_opcode f) (λ _, True).
Proof.
  unfold get_opcode. eapply (returns_try (λ _, True)); [|done|intros; by apply returns_ret].
  eapply returns_mono; [apply get_bits_returns; lia|done].
Qed.

Lemma get_queries_returns f :
  (pf_length f ≤ length (pf_buf f))%nat → Forall byte (pf_buf f) →
  returns (get_queries f) (λ o, ∀ l, o = Some l → Forall (λ q, name_ok (q_name q)) l).
Proof.
  intros Hlen Hb. apply returns_try_u16; [done|done|]. intros count _. apply read_all_returns. intros o.
  eapply returns_mono; [by apply Query_new_returns|]. cbn. intros x Hx q E. by apply Hx.
Qed.

Lemma get_answers_returns f :
  (pf_length f ≤ length (pf_buf f))%nat → returns (find_queries_end f) (λ _, True) →
  returns (get_answers f) (λ _, True).
Proof.
  intros Hlen Hq. eapply (returns_try (λ _, True)); [eapply returns_mono; [exact Hq|done]|done|]. intros qe _.
  apply returns_try_u16; [done|done|]. intros count _.
  eapply returns_mono; [apply (read_all_returns (λ _, True))|done]. intros o.
  eapply returns_mono; [by apply ResourceRecord_new_returns|done].
Qed.

Lemma make_response_returns f :
  (12 < length (pf_buf f))%nat → (pf_length f < length (pf_buf f))%nat → Forall byte (pf_buf f) →
  returns (make_response f) (λ '(size, f'), length (pf_buf f') = length (pf_buf f) ∧ response_ok size f').
Proof.
  intros H12 Hlen Hb. unfold make_response. ret_via (apply get_opcode_returns).
  intros [opcode|] _; [|by apply make_error_returns].
  destruct (opcode =? OpCode_Query); [|by apply make_error_returns].
  ret_via (apply all_ok_returns, response_flags_shape). intros [ok f1] (L1 & P1 & B1).
  specialize (B1 Hb). rewrite <-L1 in *. destruct ok; [cbn [negb]|by apply make_error_returns].
  ret_via (apply get_queries_returns; [lia|done]). intros [queries|] Hq; [|by apply make_error_returns].
  apply answer_queries_returns; [apply facade_ok_room; [done|lia|lia]|done|by apply Hq].
Qed.

Lemma process_returns buf len :
  (12 < length buf)%nat → (len < length buf)%nat → Forall byte buf →
  returns (process buf len) (λ '(size, buf'), length buf' = length buf ∧ (size ≤ length buf')%nat).
Proof.
  intros H12 Hlen Hb. unfold process. ret_via (apply get_opcode_returns). intros ? _.
  ret_via (apply get_queries_returns; [cbn; lia|done]). intros ? _.
  ret_via (by apply make_response_returns). intros [size f] (L & Hs & Hp & Hq).
  ret_via (apply get_bits_returns; lia). intros ? _.
  ret_via (by apply get_answers_returns). intros ? _. by apply returns_ret.
Qed.

(** ** The server *)

(** The datagrams that are received until the socket is not ready or fails *)
Fixpoint received {A} (recv : list (RecvResult A)) : list (list Z * A) :=
  match recv with
  | RecvReady _ datagram socket_addr :: recv => (datagram, socket_addr) :: received recv
  | _ => []
  end.

(** A datagram is shorter than the buffer: UDP has at most 65507 bytes for it. *)
Definition datagram_ok {A} (d : list Z * A) : Prop := (length d.1 < BUFFER_SIZE)%nat ∧ Forall byte d.1.

(** The response goes to the sender, and is what [process] made of the datagram. *)
Definition answered {A} (d r : list Z * A) : Prop :=
  r.2 = d.2 ∧ ∃ size buf, process (recv_into d.1).1 (recv_into d.1).2 = Ret (size, buf) ∧ r.1 = take size buf.

Lemma recv_into_ok d :
  (length d < BUFFER_SIZE)%nat → Forall byte d →
  length (recv_into d).1 = BUFFER_SIZE ∧ (recv_into d).2 = length d ∧ Forall byte (recv_into d).1.
Proof.
  intros Hl Hb. unfold recv_into. cbn [fst snd]. rewrite take_ge by lia. split_and!.
  - rewrite length_app, length_replicate. lia.
  - done.
  - apply Forall_app_2; [done|]. apply Forall_replicate. done.
Qed.

Lemma poll_step {A} (send_to : list Z → A → bool) d a recv :
  datagram_ok (d, a) →
  ∃ response, answered (d, a) (response, a) ∧
    poll send_to (RecvReady _ d a :: recv) =
    if negb (send_to response a) then mret (PollError, [])
    else '(result, sent) ← poll send_to recv; mret (result, (response, a) :: sent).
Proof.
  intros [Hl Hb]. destruct (recv_into_ok d Hl Hb) as (L & P & B). cbn [fst] in Hl.
  assert (12 < BUFFER_SIZE)%nat by (unfold BUFFER_SIZE; lia).
  destruct (returns_inv _ _ (process_returns (recv_into d).1 (recv_into d).2 ltac:(lia) ltac:(lia) B)) as ([size buf] & E & Lb & Hs).
  exists (take size buf). split; [split; [done|]; by exists size, buf|].
  cbn [poll]. destruct (recv_into d) as [buffer len]. cbn [fst snd] in *. rewrite E. run_outcome.
  unfold slice. rewrite decide_True by lia. run_outcome. by rewrite Nat.sub_0_r, drop_0.
Qed.

(** C29: Nothing that is sent to the port of the DNS server stops it.  Whatever bytes the
    datagrams hold - truncated packets, wrong counts, names that run out of the packet or
    are no text, questions enough to fill the buffer with answers - no index leaves the
    buffer and every loop ends: the datagrams are answered one after the other, each to its
    sender with what was made of it, until a response cannot be sent; if all can be sent,
    all are answered. *)
Theorem dns_server_never_panics {A} (send_to : list Z → A → bool) (recv : list (RecvResult A)) :
  Forall datagram_ok (received recv) →
  ∃ result sent, poll send_to recv = Ret (result, sent) ∧
    (∃ k, Forall2 answered (take k (received recv)) sent) ∧
    ((∀ response a, send_to response a = true) → Forall2 answered (received recv) sent).
Proof.
  induction recv as [|[d a| |] recv IH]; cbn [received]; intros Hok;
    try (eexists _, []; split; [done|]; split; [by exists 0%nat|done]).
  apply Forall_cons in Hok as [Hd Hok]. destruct (IH Hok) as (result & sent & E & (k & Hk) & Hall).
  destruct (poll_step send_to d a recv Hd) as (response & Ha & ->). rewrite E. run_outcome.
  destruct (send_to response a) eqn:Es; cbn [negb].
  - eexists _, _. split; [done|]. split; [exists (S k); by constructor|]. constructor; auto.
  - eexists _, []. split; [done|]. split; [by exists 0%nat|]. intros Hs. by rewrite Hs in Es.
Qed.
End Safety.
