(* ===== verification/EntryDnsSamples.v ===== *)
(** * Concrete DNS packets

    Instances of the theorems about the DNS server, with the numbers that the registry of
    DNS parameters gives to operations, classes and types, and what becomes of a request
    with additional records. *)

From S2P Require Import Prelude.
From S2P Require Import Bytes.
From S2P Require Import ProtocolPacks.
From S2P Require Import EntryDns.
From S2P Require Import EntryDnsFacts.
From S2P Require Import EntryDnsSafety.

Definition registered : TrustDns := {|
  OpCode_Query := 0;
  ResponseCode_FormErr := 1;
  ResponseCode_NotImp := 4;
  DNSClass_IN := 1;
  RecordType_from := λ t, if t =? 1 then TypeA else if t =? 28 then TypeAAAA else OtherType
|}.

(** [www.b.io] and [c], as their labels *)
Definition labels1 : list (list Z) := [[119; 119; 119]; [98]; [105; 111]].
Definition labels2 : list (list Z) := [[99]].
Definition sample_questions : list Question := [mkQuestion labels1 1 1; mkQuestion labels2 28 1].

Lemma sample_label_ok l : l ∈ labels1 ++ labels2 → label_ok l.
Proof. intros Hl. set_unfold. destruct_or!; subst; split; (done || (cbn; lia) || (unfold DOT; set_solver)). Defined.

Lemma sample_questions_ask : Forall (asks_address (H := registered)) sample_questions.
Proof.
  repeat (apply Forall_cons; split); [..|by apply Forall_nil]; (split; [split|..]; cbn; (unfold u16_ok; lia) || auto);
    apply Forall_forall; intros l Hl; apply sample_label_ok, elem_of_app; auto.
Defined.

Lemma dns_queries_are_answered_witness :
  ∃ response, process (H := registered) (packet 7 1 0 sample_questions [] ++ replicate 80 0) 33 =
    Ret (86%nat, response ++ replicate 27 0) ∧ response !! 2%nat = Some 0x81 ∧
    get_answers (mkFacade (response ++ replicate 27 0) 86) =
      Ret (Some [mkRecord [119; 119; 119; 46; 98; 46; 105; 111] 1 1 3600 LOCALHOST_V4 24;
                 mkRecord [99] 28 1 3600 LOCALHOST_V6 29]).
Proof.
  exists (packet 7 0x81 0x80 sample_questions (localhost_answer (H := registered) <$> sample_questions)).
  split; [|split].
  - exact (proj1 (dns_queries_are_answered (H := registered) 7 1 0 sample_questions (replicate 80 0)
      sample_questions_ask ltac:(done) eq_refl ltac:(vm_compute; lia))).
  - reflexivity.
  - exact (proj2 (dns_queries_are_answered (H := registered) 7 1 0 sample_questions (replicate 80 0)
      sample_questions_ask ltac:(done) eq_refl ltac:(vm_compute; lia))).
Defined.

(** A datagram with one byte, and the request above *)
Definition sample_datagrams : list (RecvResult nat) :=
  [RecvReady _ [255] 1%nat; RecvReady _ (packet 7 1 0 sample_questions []) 2%nat; RecvNotReady _].

Lemma bytes_by_computation l : forallb (λ b, (0 <=? b) && (b <? 256)) l = true → Forall byte l.
Proof.
  intros Hl. apply Forall_forall. intros b Hb. unfold byte.
  pose proof (proj1 (forallb_forall _ _) Hl b ltac:(by apply list_elem_of_In)) as [H1 H2]%andb_prop.
  apply Z.leb_le in H1. apply Z.ltb_lt in H2. lia.
Qed.

Lemma dns_server_never_panics_witness :
  ∃ result sent, poll (H := registered) (λ _ _, true) sample_datagrams = Ret (result, sent) ∧
    Forall2 (answered (H := registered)) [([255], 1%nat); (packet 7 1 0 sample_questions [], 2%nat)] sent.
Proof.
  destruct (dns_server_never_panics (H := registered) (λ _ _, true) sample_datagrams) as (result & sent & E & _ & Hall).
  - repeat apply Forall_cons_2; [split| split|by apply Forall_nil_2];
      solve [apply Nat.ltb_lt; vm_compute; reflexivity | apply bytes_by_computation; vm_compute; reflexivity].
  - exists result, sent. split; [exact E|]. apply Hall. reflexivity.
Defined.

(** ** Additional records

    A request as resolvers send it today, with one record in the additional section (an
    [OPT] record, type 41, of eleven bytes). *)
Definition opt_record : list Z := [0] ++ be16 41 ++ be16 4096 ++ be32 0 ++ be16 0.
Definition edns_request : list Z :=
  be16 7 ++ [1; 0] ++ be16 1 ++ be16 0 ++ be16 0 ++ be16 1 ++ query_bytes (mkQuestion labels2 1 1) ++ opt_record.

(** The answer is written over the additional record, but the header of the response
    still counts one: whoever reads the additional section of the response runs out of
    the packet. *)
Example edns_response_is_malformed :
  get_additionals (mkFacade edns_request (length edns_request)) = Ret (Some [mkRecord [] 41 4096 0 [] 11]) ∧
  ∃ size buf, process (H := registered) (edns_request ++ replicate 40 0) (length edns_request) = Ret (size, buf) ∧
    u16_from buf 10 size = Ret (Some 1) ∧
    get_answers (mkFacade buf size) = Ret (Some [mkRecord [99] 1 1 3600 LOCALHOST_V4 17]) ∧
    get_additionals (mkFacade buf size) = Ret None.
Proof. split; [vm_compute; reflexivity|]. eexists _, _. split; [vm_compute; reflexivity|]. vm_compute. done. Qed.

(** The check of [find_string_seq_end] compares with [>], that of [extract_string_seq]
    with [>=]: a name that has no end in the packet is walked over with the byte behind
    the packet, which is a panic when the packet fills the buffer. *)
Example name_end_is_looked_for_behind_the_packet :
  extract_string_seq [1; 65] 0 2 = Ret None ∧ find_string_seq_end [1; 65; 0] 0 2 = Ret (Some 3%nat) ∧
  find_string_seq_end [1; 65] 0 2 = Panic "index out of bounds".
Proof. done. Qed.
